(* ===== verification/_CoqProject ===== *)
-Q . S2P
Prelude.v
PokerPots.v
PokerEngine.v
PokerEngineInv.v
PokerEngineProps.v
PokerEngineThms.v
PokerEngineLive.v
HoldemEval.v
HoldemThms.v
OcpBytes.v
OcpPrime.v
OcpGroup.v
OcpTranscript.v
OcpProofs.v
OcpProofsThms.v
OcpShuffle.v
OcpShuffleNet.v
OcpShuffleProver.v
OcpShuffleVerify.v
OcpShuffleSound.v
PokerEngineRaise.v
Json.v
BotHoleCards.v
BotHoleThms.v
Monads.v
SimTypes.v
SimWorld.v
SimScenarios.v
SimInv.v
SimHand.v
SimPlay.v
SimThms.v
BotStrategies.v
BotLegal.v
BotLoop.v
BotLoopThms.v
DealerTypes.v
DealerDkg.v
DealerShares.v
DealerDaemon.v
DealerLemmas.v
DealerDkgThms.v
DealerSend.v
DealerAggregate.v
DealerDeal.v
JsonText.v
DealerState.v
DealerStateThms.v
DealerConfig.v
JsMap.v
CoordStore.v
CoordStoreThms.v
CoordFaucet.v
CoordConfig.v
CoordGuards.v
CoordDealer.v
CoordWs.v
TextCodec.v
CoordEvents.v
CoordChain.v
CoordServer.v
CoordHttp.v
CoordHttpThms.v
JsStrings.v
WebCards.v
WebEvents.v
WebFeed.v
WebTables.v
WebKeys.v
SdkWire.v
SdkCodec.v
SdkPoker.v
SdkDealer.v
SdkCodecThms.v
SdkSigning.v
SdkClient.v
SdkClientThms.v
SdkRpc.v
WebHistory.v
WebPage.v
