(* ===== verification/Prelude.v ===== *)
(** * OnChainPoker: a verification library

    OnChainPoker is a poker platform whose deck is shuffled and dealt by
    several parties that do not trust each other.  This library models the
    TypeScript packages that carry its rules and its cryptography, and proves
    that they do what they promise.  Files, functions and types are named as
    in the sources under [src/].

    ** The program and its parts

    - [packages/poker-engine]: the betting engine of a table of nine seats, as
      pure functions on a [TableState], and the side pots it forms at showdown.
    - [packages/holdem-eval]: cards, the ranking of hands, the winners.
    - [packages/ocp-crypto]: scalars modulo the order of the Ristretto group,
      their encodings, the Fiat-Shamir transcript, ElGamal encryption and the
      proofs with which dealers and key-generation parties show that their
      shares are right.
    - [packages/ocp-shuffle]: the verifiable shuffle, rounds of re-encrypting
      switches on neighbouring cards, each with a proof.
    - [apps/sim]: a simulator of the whole protocol, with slashing, committee
      rotation and threshold failures, and its scenarios.
    - [apps/bot]: a player.  It polls the chain, decrypts its hole cards from
      the dealers' shares, and plays one of three strategies.
    - [apps/dealer-daemon]: a dealer.  It takes part in the key generation,
      shuffles when it is its turn, publishes its shares of the cards, keeps
      its secrets in an encrypted store and enforces timeouts.
    - [apps/coordinator]: the service between the players and the chain.  It
      caches tables, seat intents, chat and artifacts, keeps nicknames, runs a
      faucet, tells dealers what is to be done next, and pushes chain events
      and chat to its WebSocket clients.
    - [apps/web]: the web client.  It keeps the player's keys under a password,
      recovers the player's hole cards from the dealers' shares, follows the
      chain's events, and compares the tables that the coordinator reports with
      those that it reads from the chain.  The page keeps a history of hands, and
      its forms call the chain through the SDK.
    - [packages/ocp-sdk]: how everybody talks to the chain: the protobuf messages of
      the poker and dealer modules, the registry of their types, the calls with
      their checks, signing with retries, and the older JSON-RPC clients with
      their subscriptions.

    The daemons interact through the chain: the dealers' shares and proofs are
    made with [ocp-crypto] and [ocp-shuffle], verified on the chain, and read
    by the bot, which combines them.

    ** The files

    - [Prelude]: exceptions as values ([result], [let!]), arrays ([rd] reads,
      stdpp's insert writes), sums, stable sorting by a comparator
      ([sort_by], the code's [Array.sort]), lists that correspond up to a
      permutation ([permuted]), boolean reflection ([b2p]).
    - [PokerPots]: [pots.ts].  The loop that peels tiers off the contributions
      is a well-founded recursion; the theorem relates the pots to the
      contributions.
    - [PokerEngine]: every operation and helper of [engine.ts], [types.ts] and
      [errors.ts]: one definition per function, one setter per field.
    - [PokerEngineInv], [PokerEngineProps]: the table invariant [wf] and the
      lemmas on each helper (what it keeps, what it changes).
    - [PokerEngineThms]: the reachable states of a table (any sequence of the
      exported operations, failing calls included) satisfy the invariant and
      conserve chips; which actions are accepted; timeouts, blinds, showdown
      and refunds.
    - [PokerEngineLive]: timeouts end a hand, and the hand that they do not.
    - [HoldemEval], [HoldemThms]: [cards.ts], [handRank.ts], [evaluate.ts];
      [evaluate5] against the declarative reading of the rules of poker
      ([fits]), [evaluate7] and [winners] against their maxima.  The
      quantification over hands is discharged by an exhaustive computation on
      rank patterns.
    - [OcpBytes], [OcpGroup], [OcpTranscript], [OcpProofs], [OcpProofsThms]:
      [ocp-crypto].  The elliptic curve, the hash and the cipher are outside
      [src/]: they are the type classes [RistrettoOps], [HashOps] and
      [AeadOps], with the laws the code relies on ([RistrettoLaws],
      [HashLaws], [AeadLaws]); points are compared by the library's own
      [equals], a relation coarser than equality, and the theorems rewrite
      with it.  [Residue], [Toy] and [ToyAead] are instances, on which the
      witnesses compute.
    - [OcpShuffle]: [ocp-shuffle], prover and verifier, as computations that
      thread a state (the generator, the reader of the proof) and may throw.
    - [OcpShuffleNet]: the schedule of pairs and the odd-even transposition
      network.
    - [OcpShuffleProver]: the prover permutes and re-encrypts.
    - [OcpShuffleVerify]: the verifier accepts what the prover makes; the
      relation [parses] is a small logic for readers of byte streams.
    - [OcpShuffleSound]: what acceptance means.
    - [OcpPrime]: the order of the group is prime (a Pocklington certificate).
    - [PokerEngineRaise]: when a raise is refused after a short all-in.
    - [Json], [JsonText]: JSON values with the conversions of
      JavaScript that the code applies to them, [JSON.stringify] and
      [JSON.parse], and that parsing inverts printing.
    - [Monads], with the modules [ExceptM] and [StateM]: the monads of code that threads a state and throws,
      with their inversion lemmas.
    - [SimTypes], [SimWorld], [SimScenarios] and the other [Sim]
      files: [apps/sim]; the theorem on [runSimulation] holds for every
      behaviour of players and validators.
    - [BotHoleCards], [BotHoleThms]: [holecards.ts]: inversion modulo the
      order, Lagrange coefficients, the recovery of a card from shares.
    - [BotStrategies], [BotLegal], [BotLoop], [BotLoopThms]: the strategies,
      what they may answer, and [bot.ts], whose state is the record
      [PokerBot]; its actions are checked against [PokerEngine].
    - [DealerTypes], [DealerDkg], [DealerShares], [DealerDaemon]: the daemon's
      handlers (one definition per handler of [handlers/], named as there) and
      its loop.  The chain is a record of calls, [DealerClient], on an abstract
      world; the store is the class [EpochStore] with its laws; the blocks of
      [randomBytes] are a list in the environment.
    - [DealerLemmas] (with [DealerToy]), [DealerDkgThms]: shared lemmas on these, and
      a client and a store on which the witnesses compute.
    - [DealerSend], [DealerAggregate], [DealerDeal]: what a member sends, what
      it adds up, and the way of a card from the committee to the player.
    - [DealerState], [DealerStateThms], [DealerConfig], [DaemonThms] in [DealerDaemon]: the
      encrypted store implements the laws of [EpochStore]; the settings; the
      choice of the card to reveal.

    - [JsMap]: JavaScript's [Map], a list of entries in the order of insertion.
    - [CoordStore], [CoordStoreThms]: [store.ts], [types.ts], [nicknames.ts].
    - [CoordFaucet] (with [CoordFaucetThms] and [CoordBech32Thms]): [faucet.ts].  A
      request is two steps, before and after the awaited transaction; the
      theorem is about all interleavings of such steps.
    - [CoordConfig], [CoordGuards]: [config.ts], [clientIp.ts] and the guards of
      the write routes in [http.ts].
    - [CoordDealer]: the dealer routes of [http.ts]; in [ChainReveal] what the
      chain's poker module writes down as the next card to reveal (the one piece
      of [x/poker/keeper], in Go, that is modelled); and how the coordinator and
      the dealer daemon follow it.
    - [CoordWs]: [ws.ts].
    - [TextCodec]: base64 and UTF-8, as Node and the browser have them.
    - [CoordEvents], [CoordChain]: [chain/]:
      what the adapters read, and their life cycle as steps of the subscribers,
      the socket and the timer.
    - [CoordServer]: [server.ts], with the chain whose tables it caches.
    - [CoordHttp], [CoordHttpThms]: the other routes of [http.ts], as one function
      from a request and a state to the response and the next state, the faucet
      and the development routes included; zod is the class [Schemas].

    - [JsStrings]: decimal numbers and concatenation of strings.
    - [WebCards] (with [WebCardsThms]): [holeCardCrypto.ts], [useHoleCards.ts], against
      the shares of the dealers and the routes of the coordinator.
    - [WebEvents]: [cometEventParser.ts].
    - [WebFeed] (with [WebFeedThms]): [useCometBftEvents.ts], the feed
      (events seen, their fingerprints) and the life of its socket as steps.
    - [WebTables] (with [WebTablesThms]): [parsePlayerTable.ts], [useTableState.ts],
      [useChainVerification.ts].
    - [WebKeys] (with [WebKeysThms]): [playerKeys.ts], [keyEncryption.ts],
      [passwordDigest.ts], [identicon.ts]; the browser's key derivation and
      cipher are parameters with laws.
    - [WebHistory]: of [useGameState.ts], the history of hands, with
      [Leaderboard.tsx] and [PlayerStats.tsx].
    - [WebPage]: of [useGameState.ts], the forms as functions from what the page
      holds to a call of [SdkClient], the lobby, and the socket to the hub of
      [CoordWs] as steps.

    - [SdkWire]: the library that writes and reads protobuf fields, which is outside
      [src/], as the class [Wire] with its laws [WireLaws]; [Varint] is an instance
      with the encoding of protobuf.
    - [SdkCodec], [SdkPoker], [SdkDealer], [SdkCodecThms]: the generated objects under
      [cosmos/gen/onchainpoker].  They have one text but for their fields, so each
      generated function ([encode], [decode], [fromJSON], ...) is one definition on
      message types, and [SdkPoker] and [SdkDealer] are the 89 types.
    - [SdkSigning]: [signing.ts]; the client of CosmJS is a set of computations on an
      abstract world that may throw.  240 polls are enough for two minutes.
    - [SdkClient], [SdkClientThms]: [client.ts], [ocp.ts], [lcd.ts], [encoding.ts]; a
      [Call] is a helper with its arguments, [request] the message that it signs.
    - [SdkRpc]: [appchain/], the JSON-RPC transport and its clients, polling for
      events, and the subscription over a socket as steps.

    ** What the theorems show

    - Engine: a type invariant and the conservation of chips over all
      reachable tables; exact acceptance conditions of actions and the
      agreement of [legalActions] with them, and where it offers a bet that is
      refused (the big blind's option);
      what timeouts, blinds, showdown and aborts do on every branch; that a
      hand terminates under timeouts when the bet covers the commitments, and
      that it does not in the remaining case, which the code can reach.
    - Evaluator: encodings of cards; the comparison is a total preorder; hands
      get their best reading; the winners are the maxima.
    - Cryptography: scalar arithmetic and canonical encodings; the transcript
      is injective in its domain, labels and messages; for each proof system
      completeness and special soundness, and that recipients decrypt what
      was sent.
    - Shuffle: the drawn permutation is one, the network of at least as many
      rounds as cards sorts its keys, so the deck is permuted as drawn; the
      verifier accepts every proof of the prover unless a scalar is zero; an
      accepted proof is a complete chain of proved rounds; a switch that can
      answer two challenges is a straight or crossed re-encryption.
    - Simulator: chips are conserved and cards are distinct whatever the
      participants do.
    - Bot: it recovers the cards that were dealt; whatever its strategy a
      poll on its turn sends exactly one transaction, an action, which the engine
      accepts (with the one exception proved in [PokerEngineRaise]); it never stops polling until
      told to.
    - Dealer: the shares it publishes in the key generation, one for each other
      member with a valid key, are accepted by the verifier (unless a scalar of
      the proof is zero) and open to its polynomial; the aggregated share is the sum of all polynomials; the
      shares of a committee so formed give the player exactly its cards; the
      store is a map that outlives the process; and the three situations in
      which the code does not do what it means to (a zero share, complaints
      that disclose a secret, old blobs that look new).

    - Coordinator: its store and registry stay consistent under any sequence of
      requests, and the chat, the artifacts' bytes and the nicknames within
      their bounds; eviction is least-recently-used and minimal; an
      address with one or two wrong characters is refused; drips, writes and
      chat are limited per client, whom the client cannot choose; events reach
      exactly those who subscribed; it names the card of the board that the
      chain awaits and the daemons reveal (in the showdown it stays with the
      first card), and their turns to shuffle until somebody has been slashed;
      without the token the guarded routes do nothing, and of the others only
      the faucet's and the mock chain's write; uploads come back; it stays
      connected to the chain; its tables are those of the chain when answers
      keep their order; and the plain attributes that its guess at base64
      garbles (hand 140).
    - Web client: it recovers the cards that were dealt, from what the
      coordinator's routes return; an event is shown once however often it
      is delivered, and events with different content have different
      fingerprints; while the page is open the socket or a timer is alive; a
      table is read as the chain wrote it, in either spelling of its fields;
      the verification badge tells exactly whether the fields that it compares
      agree; keys saved under a password are loaded again with it; the history
      of a table has no hand twice, and a completed hand has the winners of
      which a render saw the award, each with the first; exactly when a form
      calls, and that it then asks for what was typed; the coordinator has the page subscribed to the table it shows.
    - SDK: every message survives its bytes and its JSON; decoding ends and is typed
      on all inputs, and readers of another version see the common fields; a
      call sends a message of the type that is registered for it, and integers
      that do not fit are refused rather than wrapped; a call is refused exactly
      when one of its checks fails; a call has its messages accepted at most twice,
      and twice when the answer to a broadcast is lost and the transaction has
      been committed before the retry is signed; waiting for a transaction ends; subscriptions
      deliver each event once and in order, but the one over a socket outlives
      its socket; the transactions of the older client all have different bytes.

    ** Conventions

    A JavaScript [number] that the code tests with [Number.isInteger] is a
    [number] ([Int] or [NotInteger]); bigints and checked integers are [Z].
    Functions that copy and mutate a table are functions to the new table; a
    call that throws leaves the caller's table as it was, because the code
    works on a clone.  Exceptions keep the error code, or the constant part of
    the message.

    Fuel: [reencryptAvoidingC1Collisions] and [sampleNonzeroScalar] reject
    until a random value suits, so they may only end with probability one; the
    theorems hold for every amount of fuel with which they return.  All other
    loops are structural, well-founded, or have a bound that is proved to be
    enough ([nextBytes], [pairsFrom], 40 timeouts per hand).

    Soundness of the proof systems is special soundness: two answers to
    different challenges on the same commitments.  That challenges cannot be
    predicted is a property of the hash and is not a theorem here.

    In the bot and the dealer the awaits of one poll run to the end before the
    next event; integers beyond 2^53 that the code converts with [Number] are
    exact in the model.  Random values are an argument, so a loop that draws
    until a value suits ends when the list of values does.

    ** Not modelled

    The on-chain modules (written in Go) but for [ChainReveal], the coordinator's
    transport (express, cors and zod are libraries; [localeCompare] and URLs are
    parameters) and shutdown, the process wiring, logging and WebSockets
    of the daemons, the scripts.  Of the web client: rendering, the loading states
    of the page's requests, the wallet extension, the lock timer of the keys and
    the copies in local storage of history and notes.  Of the SDK: the generated
    descriptors of google and cosmos types, which it only carries along, and
    generation of wallets from mnemonics, which is CosmJS's.
    [sha512Bytes] is not used by the code. *)
From stdpp Require Import base option list strings sorting.
From Stdlib Require Import ZArith Lia.

#[global] Open Scope Z_scope.

(** ** Exceptions as values

    A TypeScript function that may [throw] returns a [result]; the error type
    is the component's own (an error code, or the message text). *)
Inductive result (E A : Type) : Type :=
| Ok (a : A)
| Err (e : E).
Arguments Ok {E A} a.
Arguments Err {E A} e.

Definition rbind {E A B} (c : result E A) (k : A → result E B) : result E B :=
  match c with Ok a => k a | Err e => Err e end.

Definition rmap {E A B} (f : A → B) (c : result E A) : result E B :=
  match c with Ok a => Ok (f a) | Err e => Err e end.

Declare Scope result_scope.
Delimit Scope result_scope with res.
Notation "'let!' x ':=' c 'in' k" := (rbind c (fun x => k))
  (at level 10, x pattern, c at level 100, k at level 200) : result_scope.
#[global] Open Scope result_scope.

(** [if (b) throw e;] *)
Definition throw_if {E} (b : bool) (e : E) : result E unit :=
  if b then Err e else Ok tt.

Definition is_ok {E A} (c : result E A) : bool :=
  match c with Ok _ => true | Err _ => false end.

(** A JavaScript [number] as far as the guards of the code look at it: either
    an integer, or something [Number.isInteger] rejects (a fraction, [NaN] or
    an infinity). *)
Inductive number : Type :=
| Int (z : Z)
| NotInteger.

Definition isInteger (n : number) : bool :=
  match n with Int _ => true | NotInteger => false end.

(** ** Arrays

    [rd d a i] reads [a[i]] with [d] standing for [undefined]; the update
    [a[i] = v] of an index in range is stdpp's [<[i:=v]> a]. *)
Definition rd {A} (d : A) (a : list A) (i : nat) : A := default d (a !! i).

(** Sum of a [bigint] array. *)
Definition sumZ (l : list Z) : Z := foldr Z.add 0 l.
Arguments sumZ _ : simpl never.

(** ** Tactics *)

(** Destruct the scrutinee of some [if]/[match] of the goal (resp. of [H]),
    keeping the equation. *)
Ltac case_goal :=
  match goal with
  | |- context [match ?x with _ => _ end] => destruct x eqn:?
  end.
Ltac case_hyp H :=
  match type of H with
  | context [match ?x with _ => _ end] => destruct x eqn:?
  end.

(** Boolean comparisons of the code turned into propositions. *)
Ltac b2p :=
  repeat match goal with
  | H : (_ && _)%bool = true |- _ => apply andb_true_iff in H; destruct H
  | H : (_ || _)%bool = false |- _ => apply orb_false_iff in H; destruct H
  | H : negb _ = true |- _ => apply negb_true_iff in H
  | H : negb _ = false |- _ => apply negb_false_iff in H
  | H : (_ <? _)%Z = true |- _ => apply Z.ltb_lt in H
  | H : (_ <? _)%Z = false |- _ => apply Z.ltb_ge in H
  | H : (_ <=? _)%Z = true |- _ => apply Z.leb_le in H
  | H : (_ <=? _)%Z = false |- _ => apply Z.leb_gt in H
  | H : (_ =? _)%Z = true |- _ => apply Z.eqb_eq in H
  | H : (_ =? _)%Z = false |- _ => apply Z.eqb_neq in H
  | H : (_ <? _)%nat = true |- _ => apply Nat.ltb_lt in H
  | H : (_ <? _)%nat = false |- _ => apply Nat.ltb_ge in H
  | H : (_ <=? _)%nat = true |- _ => apply Nat.leb_le in H
  | H : (_ <=? _)%nat = false |- _ => apply Nat.leb_gt in H
  | H : (_ =? _)%nat = true |- _ => apply Nat.eqb_eq in H
  | H : (_ =? _)%nat = false |- _ => apply Nat.eqb_neq in H
  end.

(** Run through the binds and guards of a computation known to succeed. *)
Ltac inv_ok H :=
  repeat (unfold rbind, throw_if in H;
          first [ discriminate H
                | match type of H with Ok _ = Ok _ => injection H as H end
                | case_hyp H ]);
  repeat match goal with
  | G : (if ?b then Err _ else Ok _) = Ok _ |- _ => destruct b eqn:?; [discriminate G|clear G]
  end.

(** ** Generic lemmas *)

Lemma Ok_inj {E A} (a b : A) : @Ok E A a = Ok b → a = b.
Proof. congruence. Qed.

Lemma rbind_ok {E A B} (c : result E A) (k : A → result E B) b :
  rbind c k = Ok b ↔ ∃ a, c = Ok a ∧ k a = Ok b.
Proof. destruct c; simpl; split; [by eauto|by intros (? & [= ->] & ?)|done|by intros (? & ? & ?)]. Qed.

Lemma throw_if_ok {E} (b : bool) (e : E) u : throw_if b e = Ok u ↔ b = false.
Proof. destruct b, u; simpl; naive_solver. Qed.

Section rd.
Context {A : Type}.
Implicit Types (d v : A) (a : list A) (i j : nat).

Lemma rd_lookup d a i v : a !! i = Some v → rd d a i = v.
Proof. by unfold rd; intros ->. Qed.

Lemma rd_insert_eq d a i v : (i < length a)%nat → rd d (<[i:=v]> a) i = v.
Proof. intros. unfold rd. by rewrite list_lookup_insert_eq. Qed.

Lemma rd_insert_ne d a i j v : i ≠ j → rd d (<[i:=v]> a) j = rd d a j.
Proof. intros. unfold rd. by rewrite list_lookup_insert_ne. Qed.

Lemma rd_insert d a i j v :
  rd d (<[i:=v]> a) j = if decide (i = j ∧ (i < length a)%nat) then v else rd d a j.
Proof.
  case_decide as H; [destruct H as [-> ?]; by apply rd_insert_eq|].
  destruct (decide (i = j)) as [->|]; [|by apply rd_insert_ne].
  rewrite list_insert_ge; [done|lia].
Qed.

Lemma rd_replicate d n v i : (i < n)%nat → rd d (replicate n v) i = v.
Proof. intros. apply rd_lookup. by apply lookup_replicate_2. Qed.

Lemma lookup_rd d a i : (i < length a)%nat → a !! i = Some (rd d a i).
Proof. intros H. destruct (lookup_lt_is_Some_2 a i H) as [x Hx]. by rewrite (rd_lookup d a i x). Qed.

Lemma rd_fmap {B} (f : B → A) (d : B) (b : list B) i : rd (f d) (f <$> b) i = f (rd d b i).
Proof. unfold rd. rewrite list_lookup_fmap. by destruct (b !! i). Qed.
End rd.

Section sumZ.
Implicit Types (l k : list Z).

Lemma sumZ_nil : sumZ [] = 0.
Proof. done. Qed.

Lemma sumZ_cons x l : sumZ (x :: l) = x + sumZ l.
Proof. done. Qed.

Lemma sumZ_app l k : sumZ (l ++ k) = sumZ l + sumZ k.
Proof. induction l; simpl; rewrite ?sumZ_cons; [done|lia]. Qed.

Lemma sumZ_insert l i v :
  (i < length l)%nat → sumZ (<[i:=v]> l) = sumZ l - rd 0 l i + v.
Proof.
  revert i. induction l as [|x l IH]; intros i Hi; simpl in Hi; [lia|].
  destruct i as [|i]; simpl; rewrite !sumZ_cons; [unfold rd; simpl; lia|].
  rewrite IH by lia. unfold rd. simpl. lia.
Qed.

Lemma sumZ_replicate n v : sumZ (replicate n v) = Z.of_nat n * v.
Proof. induction n; simpl; [done|]. rewrite sumZ_cons, IHn, Nat2Z.inj_succ, Z.mul_succ_l. lia. Qed.

Lemma sumZ_nonneg l : Forall (λ x, 0 <= x) l → 0 <= sumZ l.
Proof. induction 1; [done|]. rewrite sumZ_cons. lia. Qed.

#[global] Instance sumZ_Permutation : Proper ((≡ₚ) ==> (=)) sumZ.
Proof. induction 1; rewrite ?sumZ_cons; lia. Qed.

Lemma sumZ_rd_le l i : Forall (λ x, 0 <= x) l → 0 <= rd 0 l i <= sumZ l.
Proof.
  intros Hl. revert i. induction Hl as [|x l Hx Hl IH]; intros i; [done|].
  rewrite sumZ_cons. pose proof (sumZ_nonneg l Hl).
  destruct i as [|i]; unfold rd; simpl; [lia|].
  specialize (IH i). unfold rd in IH. lia.
Qed.

Lemma sumZ_map_add {A} (f g : A → Z) (l : list A) :
  sumZ (map (λ x, f x + g x) l) = sumZ (map f l) + sumZ (map g l).
Proof. induction l; simpl; [done|]. rewrite !sumZ_cons. lia. Qed.

Lemma sumZ_map_const {A} (c : Z) (l : list A) :
  sumZ (map (λ _, c) l) = Z.of_nat (length l) * c.
Proof. induction l; simpl; [done|]. rewrite sumZ_cons, IHl, Nat2Z.inj_succ, Z.mul_succ_l. lia. Qed.

Lemma sumZ_map_ext {A} (f g : A → Z) (l : list A) :
  (∀ x, In x l → f x = g x) → sumZ (map f l) = sumZ (map g l).
Proof. intros H. f_equal. by apply map_ext_in. Qed.
End sumZ.

(** ** Counting *)

Lemma filter_none {A} (f : A → bool) (l : list A) : (∀ x, In x l → f x = false) → List.filter f l = [].
Proof. induction l as [|x l IH]; intros H; simpl; [done|]. rewrite (H x) by by left. apply IH. intros y Hy. apply H. by right. Qed.

Lemma filter_length_pointwise {A} (f g : A → bool) (x : A) (l : list A) :
  NoDup l → (∀ y, y ≠ x → f y = g y) →
  (length (List.filter f l) <= S (length (List.filter g l)))%nat.
Proof.
  intros Hn H. induction Hn as [|y l Hy Hn IH]; simpl; [lia|].
  assert (Hsame : y ≠ x → f y = g y) by auto.
  destruct (f y) eqn:Ef; [|destruct (g y); simpl; lia].
  destruct (g y) eqn:Eg; simpl; [lia|].
  (* only [x] can differ, and it does not occur in the tail *)
  assert (Heq : List.filter f l = List.filter g l); [|rewrite Heq; simpl; lia].
  clear -H Hy Hsame Ef Eg. induction l as [|z l IH]; simpl; [done|].
  rewrite not_elem_of_cons in Hy. destruct Hy as [Hyz Hy].
  assert (Hz : f z = g z). { apply H. intros ->. by specialize (Hsame Hyz). }
  rewrite Hz, IH by done. done.
Qed.

(** ** [Array.prototype.map] with a callback that may throw *)

Fixpoint mapR {E A B} (f : A → result E B) (l : list A) : result E (list B) :=
  match l with
  | [] => Ok []
  | x :: l => let! y := f x in let! ys := mapR f l in Ok (y :: ys)
  end.

Lemma mapR_ok {E A B} (f : A → result E B) (g : A → B) (l : list A) :
  Forall (λ x, f x = Ok (g x)) l → mapR f l = Ok (map g l).
Proof. induction 1 as [|x l Hx _ IH]; simpl; [done|]. by rewrite Hx, IH. Qed.

Lemma mapR_Forall2 {E A B} (f : A → result E B) (l : list A) (k : list B) :
  mapR f l = Ok k ↔ Forall2 (λ x y, f x = Ok y) l k.
Proof.
  revert k. induction l as [|x l IH]; intros k; simpl.
  - split; [by intros <-%Ok_inj|by inversion 1].
  - rewrite rbind_ok. setoid_rewrite rbind_ok. split.
    + intros (y & Hy & ys & Hys & <-%Ok_inj). constructor; [done|by apply IH].
    + inversion 1; subst. eexists. split; [done|]. eexists. split; [by apply IH|done].
Qed.

(** ** [Array.prototype.sort] with a comparator

    The comparators of the code are total orders on what they sort, so the
    result of the (stable) sort is determined: any sorted permutation. *)
Section sort.
Context {A : Type} (le : A → A → bool).

Fixpoint insert_by (x : A) (l : list A) : list A :=
  match l with
  | [] => [x]
  | y :: l' => if le x y then x :: l else y :: insert_by x l'
  end.

Definition sort_by (l : list A) : list A := foldr insert_by [] l.

Lemma insert_by_perm x l : insert_by x l ≡ₚ x :: l.
Proof. induction l as [|y l IH]; simpl; [done|]. destruct (le x y); [done|]. rewrite IH. by constructor. Qed.

Lemma sort_by_perm l : sort_by l ≡ₚ l.
Proof. induction l as [|x l IH]; simpl; [done|]. by rewrite insert_by_perm, IH. Qed.

Context (le_total : ∀ x y, le x y = false → le y x = true).

Lemma insert_by_sorted x l : Sorted le l → Sorted le (insert_by x l).
Proof.
  induction 1 as [|y l Hl IH Hy]; simpl; [by repeat constructor|].
  destruct (le x y) eqn:E; [by repeat (constructor; try rewrite E)|]. constructor; [done|].
  destruct l as [|z l]; simpl; [constructor; by rewrite le_total|].
  destruct (le x z); constructor; [by rewrite le_total|by inversion Hy].
Qed.

Lemma sort_by_sorted l : Sorted le (sort_by l).
Proof. induction l; simpl; [constructor|by apply insert_by_sorted]. Qed.

Lemma sort_by_id l : Sorted le l → sort_by l = l.
Proof.
  induction 1 as [|x l Hl IH Hx]; simpl; [done|]. rewrite IH. destruct Hx as [|y l Hxy]; simpl; [done|].
  by destruct (le x y).
Qed.

Context (le_trans : ∀ x y z, le x y = true → le y z = true → le x z = true).
Context (le_antisym : ∀ x y, le x y = true → le y x = true → x = y).

Lemma sorted_unique l k : Sorted le l → Sorted le k → l ≡ₚ k → l = k.
Proof.
  intros Hl Hk. assert (Transitive (λ x y, Is_true (le x y))).
  { intros x y z. rewrite !Is_true_true. apply le_trans. }
  assert (AntiSymm (=) (λ x y, Is_true (le x y))).
  { intros x y. rewrite !Is_true_true. apply le_antisym. }
  by apply (StronglySorted_unique (λ x y, Is_true (le x y))); apply Sorted_StronglySorted.
Qed.

Lemma sort_by_Proper l k : l ≡ₚ k → sort_by l = sort_by k.
Proof. intros H. apply sorted_unique; [apply sort_by_sorted..|]. by rewrite !sort_by_perm. Qed.
End sort.

Lemma sort_asc_sorted (l : list Z) : Sorted Z.le (sort_by Z.leb l).
Proof.
  assert (H : Sorted Z.leb (sort_by Z.leb l)) by (apply sort_by_sorted; intros x y Hxy; b2p; apply Z.leb_le; lia).
  induction H as [|x k _ IH Hx]; constructor; [done|]. destruct Hx; constructor. by apply Z.leb_le, Is_true_true.
Qed.

(** ** Lists that correspond in another order *)

(** Up to a permutation, [b] is [a] with every element moved along [R]. *)
Definition permuted {A} (R : relation A) (a b : list A) : Prop := ∃ mid, mid ≡ₚ a ∧ Forall2 R mid b.

Section permuted.
Context {A : Type} (R : relation A) `{!PreOrder R}.

Lemma permuted_refl a : permuted R a a.
Proof. exists a. split; [done|]. apply Forall_Forall2_diag. by apply Forall_true. Qed.

Lemma permuted_trans a b c : permuted R a b → permuted R b c → permuted R a c.
Proof.
  intros (m & Hm & Hab) (m' & Hm' & Hbc). symmetry in Hm'.
  destruct (Permutation_Forall2 Hm' (proj2 (Forall2_flip _ _ _) Hab)) as (m'' & Hp & Hf).
  exists m''. split; [by rewrite <-Hp|]. clear Hp Hm' Hab. apply (proj1 (Forall2_flip _ _ _)) in Hf.
  revert c Hbc. induction Hf as [|x y l k Hxy _ IH]; intros c Hbc.
  - by apply Forall2_nil_inv_l in Hbc as ->.
  - apply Forall2_cons_inv_l in Hbc as (z & c' & Hyz & Hc & ->). constructor; [by etransitivity|by apply IH].
Qed.

Lemma permuted_length a b : permuted R a b → length b = length a.
Proof. intros (m & Hm & Hf). by rewrite <-(Forall2_length _ _ _ Hf), (Permutation_length Hm). Qed.
End permuted.

(** The element that a total step gives for each element of a list. *)
Lemma mapR_total {A B E} (f : A → result E B) (R : A → B → Prop) l :
  Forall (λ x, ∃ y, f x = Ok y ∧ R x y) l → ∃ k, mapR f l = Ok k ∧ Forall2 R l k.
Proof.
  intros Hf. assert (Hk : ∃ k, Forall2 (λ x y, f x = Ok y ∧ R x y) l k).
  { induction Hf as [|x l (y & Hy) _ (k & IH)]; [by exists []|]. exists (y :: k). by constructor. }
  destruct Hk as (k & Hk). exists k. rewrite mapR_Forall2. split; eapply Forall2_impl; try exact Hk; by intros ? ? [? ?].
Qed.

Create Rewrite HintDb sums.
#[export] Hint Rewrite @sumZ_app sumZ_nil sumZ_cons sumZ_replicate : sums.
Create HintDb ocp.
#[export] Hint Resolve sumZ_nonneg : ocp.
