(* ===== verification/PokerPots.v ===== *)
(** * Side pots: [packages/poker-engine/src/pots.ts]

    [computeSidePots] splits the chips committed in a hand into tiers, each
    tier a [Pot] with the seats that may win it, and merges neighbouring tiers
    that have the same winners.  The two loops of the source are [tiers] (the
    [while] loop, well-founded on the number of contributors left) and
    [mergePots].  The theorems say that the split loses no chip and gives
    every eligible seat exactly what it may win: the sum over all contributors
    of the smaller of the two commitments. *)
From Equations Require Import Equations.
From stdpp Require Import base option list.
From Stdlib Require Import ZArith Lia Sorting.Sorted.
From S2P Require Import Prelude.

Module Pots.

(** [interface Pot] *)
Record Pot := mkPot { amount : Z; eligibleSeats : list nat }.

(** An element of [remaining]. *)
Record contrib := mkContrib { c_seat : nat; c_amount : Z; c_eligible : bool }.

#[export] Instance contrib_eq_dec : EqDecision contrib.
Proof. solve_decision. Defined.

(** The first loop: seats with chips in, in seat order. *)
Definition collect (totalCommit : list Z) (eligibleForWin : list bool) : list contrib :=
  flat_map (λ i, let amount := rd 0 totalCommit i in
                 if 0 <? amount then [mkContrib i amount (rd false eligibleForWin i)] else [])
           (seq 0 (length totalCommit)).

(** [let min = remaining[0].amount; for (...) if (remaining[i].amount < min) min = ...] *)
Definition minAmount (r0 : contrib) (rest : list contrib) : Z :=
  fold_left (λ m r, if c_amount r <? m then c_amount r else m) rest (c_amount r0).

(** [for (const r of remaining) r.amount -= min;] and the removal of the
    contributors left with nothing. *)
Definition subtract (m : Z) (rs : list contrib) : list contrib :=
  List.filter (λ r, negb (c_amount r =? 0))
    (map (λ r, mkContrib (c_seat r) (c_amount r - m) (c_eligible r)) rs).

Definition tierPot (m : Z) (rs : list contrib) : Pot :=
  mkPot (m * Z.of_nat (length rs)) (map c_seat (List.filter c_eligible rs)).

Lemma minAmount_spec r0 rest :
  In (minAmount r0 rest) (map c_amount (r0 :: rest)) ∧
  Forall (λ r, minAmount r0 rest <= c_amount r) (r0 :: rest).
Proof.
  unfold minAmount. cut (∀ m, let f := fold_left (λ m r, if c_amount r <? m then c_amount r else m) rest m in
    (f = m ∨ In f (map c_amount rest)) ∧ f <= m ∧ Forall (λ r, f <= c_amount r) rest).
  { intros H. specialize (H (c_amount r0)). simpl in H. destruct H as ([-> | H] & Hm & Hr); split; simpl; eauto. }
  induction rest as [|r rest IH]; intros m; simpl; [split; [by left|split; [lia|constructor]]|].
  destruct (c_amount r <? m) eqn:E; b2p.
  - destruct (IH (c_amount r)) as ([H|H] & Hm & Hr); (split; [|split; [lia|by constructor; [lia|]]]); eauto.
  - destruct (IH m) as ([H|H] & Hm & Hr); (split; [|split; [lia|by constructor; [lia|]]]); eauto.
Qed.

(** The removal step drops at least the contributor with the least amount. *)
Lemma subtract_shorter r0 rest :
  (length (subtract (minAmount r0 rest) (r0 :: rest)) < length (r0 :: rest))%nat.
Proof.
  destruct (minAmount_spec r0 rest) as [Hin _].
  generalize (minAmount r0 rest), (r0 :: rest), Hin. clear. intros m l. unfold subtract.
  induction l as [|r l IH]; simpl; [done|]. intros [H|H].
  - replace (c_amount r - m =? 0) with true by (symmetry; apply Z.eqb_eq; lia). simpl.
    pose proof (List.filter_length_le (λ r, negb (c_amount r =? 0))
      (map (λ r, mkContrib (c_seat r) (c_amount r - m) (c_eligible r)) l)) as Hle.
    rewrite length_map in Hle. lia.
  - specialize (IH H). destruct (negb _); simpl; lia.
Qed.

(** [while (remaining.length > 0) { ... }] *)
Equations? tiers (remaining : list contrib) : list Pot by wf (length remaining) lt :=
  tiers [] := [];
  tiers (r0 :: rest) :=
    tierPot (minAmount r0 rest) (r0 :: rest) ::
    tiers (subtract (minAmount r0 rest) (r0 :: rest)).
Proof. exact (subtract_shorter r0 rest). Qed.

(** [sameSeats] *)
Fixpoint sameSeats (a b : list nat) : bool :=
  match a, b with
  | [], [] => true
  | x :: a, y :: b => (x =? y)%nat && sameSeats a b
  | _, _ => false
  end.

(** The merge loop; [merged] is kept with its last element first. *)
Fixpoint mergePots (potsByTier merged : list Pot) : list Pot :=
  match potsByTier with
  | [] => rev merged
  | p :: ps =>
      match merged with
      | last :: before =>
          if sameSeats (eligibleSeats last) (eligibleSeats p)
          then mergePots ps (mkPot (amount last + amount p) (eligibleSeats last) :: before)
          else mergePots ps (mkPot (amount p) (eligibleSeats p) :: merged)
      | [] => mergePots ps [mkPot (amount p) (eligibleSeats p)]
      end
  end.

Definition computeSidePots (totalCommit : list Z) (eligibleForWin : list bool) : list Pot :=
  mergePots (tiers (collect totalCommit eligibleForWin)) [].

(** What seat [i] may win from a list of pots. *)
Definition winnable (i : nat) (pots : list Pot) : Z :=
  sumZ (map (λ p, if bool_decide (i ∈ eligibleSeats p) then amount p else 0) pots).

Definition potTotal (pots : list Pot) : Z := sumZ (map amount pots).

(** The reference: against each contributor, seat [i] is matched up to its own
    commitment. *)
Definition matched (c : Z) (totalCommit : list Z) : Z :=
  sumZ (map (λ x, Z.min c (Z.max 0 x)) totalCommit).

Example computeSidePots_multi :
  computeSidePots [100; 200; 200] [true; true; true] = [mkPot 300 [0; 1; 2]%nat; mkPot 200 [1; 2]%nat].
Proof. vm_compute. reflexivity. Qed.


(** ** The tier loop *)

Definition positive_contribs (rs : list contrib) : Prop := Forall (λ r, 0 < c_amount r) rs.

Lemma minAmount_pos r0 rest :
  positive_contribs (r0 :: rest) → 0 < minAmount r0 rest.
Proof.
  intros H. destruct (minAmount_spec r0 rest) as [Hin _].
  apply in_map_iff in Hin as (r & <- & Hr). eapply Forall_forall in H; [exact H|].
  by apply list_elem_of_In.
Qed.

Section subtract.
Context (m : Z) (rs : list contrib) (Hmin : Forall (λ r, m <= c_amount r) rs).

Lemma subtract_positive : positive_contribs (subtract m rs).
Proof.
  unfold subtract, positive_contribs. induction Hmin as [|r l Hr Hl IH]; simpl; [done|]. specialize (IH Hl).
  case_goal; b2p; simpl in *; [constructor; simpl; [lia|]|]; exact IH.
Qed.

Lemma subtract_sum :
  sumZ (map c_amount rs) = m * Z.of_nat (length rs) + sumZ (map c_amount (subtract m rs)).
Proof.
  unfold subtract. induction Hmin as [|r l Hr Hl IH]; [simpl; lia|]. specialize (IH Hl).
  cbn [length map List.filter]. rewrite sumZ_cons, Nat2Z.inj_succ, Z.mul_succ_r.
  cbn [c_amount]. destruct (c_amount r - m =? 0) eqn:E; b2p; simpl; rewrite ?sumZ_cons; simpl; lia.
Qed.

(** Pairwise minima drop by [m] for every contributor that survives. *)
Lemma subtract_min_sum a :
  m <= a →
  sumZ (map (λ r, Z.min a (c_amount r)) rs) =
  m * Z.of_nat (length rs) + sumZ (map (λ r, Z.min (a - m) (c_amount r)) (subtract m rs)).
Proof.
  intros Ha. unfold subtract. induction Hmin as [|r l Hr Hl IH]; [simpl; lia|]. specialize (IH Hl).
  cbn [length map List.filter]. rewrite sumZ_cons, Nat2Z.inj_succ, Z.mul_succ_r.
  cbn [c_amount]. destruct (c_amount r - m =? 0) eqn:E; b2p; simpl; rewrite ?sumZ_cons; simpl; lia.
Qed.

Lemma subtract_In (r : contrib) :
  In r rs → m < c_amount r → In (mkContrib (c_seat r) (c_amount r - m) (c_eligible r)) (subtract m rs).
Proof.
  intros Hr Hm. unfold subtract. apply filter_In. split.
  - apply in_map_iff. by eexists.
  - simpl. apply negb_true_iff, Z.eqb_neq. lia.
Qed.

Lemma subtract_seat r' :
  In r' (subtract m rs) → ∃ r, In r rs ∧ c_seat r' = c_seat r ∧ c_amount r' = c_amount r - m ∧
                               c_eligible r' = c_eligible r ∧ c_amount r ≠ m.
Proof.
  intros H. apply filter_In in H as [H Hz]. apply in_map_iff in H as (r & <- & Hr).
  simpl in *. apply negb_true_iff, Z.eqb_neq in Hz. exists r. repeat split; [done|lia].
Qed.

Lemma subtract_NoDup : NoDup (map c_seat rs) → NoDup (map c_seat (subtract m rs)).
Proof.
  clear Hmin. unfold subtract. induction rs as [|r l IH]; simpl; [done|].
  intros Hn. apply NoDup_cons in Hn as [Hr Hl]. case_goal; [|by apply IH].
  simpl. apply NoDup_cons. split; [|by apply IH].
  rewrite list_elem_of_In, in_map_iff. intros (r' & Hs & Hin). apply Hr.
  apply filter_In in Hin as [Hin _]. apply in_map_iff in Hin as (r'' & <- & Hin).
  simpl in Hs. rewrite list_elem_of_In, in_map_iff. eauto.
Qed.
End subtract.

Lemma tiers_total rs : positive_contribs rs → potTotal (tiers rs) = sumZ (map c_amount rs).
Proof.
  funelim (tiers rs); intros Hpos; [by simp tiers|].
  destruct (minAmount_spec r0 rest) as [_ Hmin].
  rewrite (subtract_sum _ _ Hmin), <-H by by apply subtract_positive.
  simp tiers. unfold potTotal. cbn [map]. by rewrite sumZ_cons.
Qed.

(** A seat that is not an eligible contributor appears in no tier. *)
Lemma tiers_not_winnable i rs :
  (∀ r, In r rs → c_seat r = i → c_eligible r = false) → winnable i (tiers rs) = 0.
Proof.
  funelim (tiers rs); intros Hi; [by simp tiers|].
  simp tiers. unfold winnable in *. cbn [map]. rewrite sumZ_cons, H.
  - rewrite bool_decide_false; [done|]. cbn [eligibleSeats tierPot].
    rewrite list_elem_of_In, in_map_iff. intros (r & Hs & Hr).
    apply filter_In in Hr as [Hr He]. by rewrite (Hi r Hr Hs) in He.
  - destruct (minAmount_spec r0 rest) as [_ Hmin]. intros r' Hr' Hs.
    apply subtract_seat in Hr' as (r & Hr & Hs' & _ & -> & _). apply Hi; congruence.
Qed.

Lemma In_seat_unique rs r r' :
  NoDup (map c_seat rs) → In r rs → In r' rs → c_seat r = c_seat r' → r = r'.
Proof.
  induction rs as [|x l IH]; simpl; [done|]. intros Hn. apply NoDup_cons in Hn as [Hx Hl].
  rewrite list_elem_of_In, in_map_iff in Hx.
  intros [->|Hr] [->|Hr'] Hs; [done| | |by apply IH]; exfalso; apply Hx; eauto.
Qed.

Lemma tiers_winnable rs r :
  positive_contribs rs → NoDup (map c_seat rs) → In r rs → c_eligible r = true →
  winnable (c_seat r) (tiers rs) = sumZ (map (λ r', Z.min (c_amount r) (c_amount r')) rs).
Proof.
  revert r. funelim (tiers rs); intros r Hpos Hnd Hr He; [done|].
  destruct (minAmount_spec r0 rest) as [_ Hmin].
  assert (Hle : minAmount r0 rest <= c_amount r).
  { eapply Forall_forall in Hmin; [exact Hmin|by apply list_elem_of_In]. }
  rewrite (subtract_min_sum _ _ Hmin (c_amount r)) by done.
  simp tiers. unfold winnable in *. cbn [map]. rewrite sumZ_cons, bool_decide_true.
  2:{ cbn [eligibleSeats tierPot]. rewrite list_elem_of_In. by apply in_map, filter_In. }
  cbn [amount tierPot]. f_equal.
  destruct (decide (c_amount r = minAmount r0 rest)) as [Heq|Hne].
  - (* the seat is all in at this tier *)
    fold (winnable (c_seat r) (tiers (subtract (minAmount r0 rest) (r0 :: rest)))).
    rewrite tiers_not_winnable.
    + symmetry. rewrite Heq, Z.sub_diag. rewrite (sumZ_map_ext _ (λ _, 0)).
      * rewrite sumZ_map_const. lia.
      * intros x Hx. pose proof (subtract_positive _ _ Hmin) as Hp.
        eapply Forall_forall in Hp; [|by apply list_elem_of_In]. simpl in Hp. lia.
    + intros x Hx Hs. apply subtract_seat in Hx as (y & Hy & Hsy & _ & _ & Hn).
      exfalso. apply Hn. rewrite <-Heq. f_equal. eapply In_seat_unique; eauto. congruence.
  - pose proof (subtract_In (minAmount r0 rest) _ r Hr ltac:(lia)) as Hin.
    apply (H (mkContrib (c_seat r) (c_amount r - minAmount r0 rest) (c_eligible r)));
      [by apply subtract_positive|by apply subtract_NoDup|done|done].
Qed.

(** ** The merge loop *)

Lemma sameSeats_eq a b : sameSeats a b = true ↔ a = b.
Proof.
  revert b. induction a as [|x a IH]; intros [|y b]; simpl; try done.
  rewrite andb_true_iff, Nat.eqb_eq, IH. split; [by intros [-> ->]|by intros [= -> ->]].
Qed.

Lemma sum_mergePots (f : Pot → Z) ps merged :
  (∀ p q, eligibleSeats p = eligibleSeats q → f (mkPot (amount p + amount q) (eligibleSeats p)) = f p + f q) →
  sumZ (map f (mergePots ps merged)) = sumZ (map f ps) + sumZ (map f merged).
Proof.
  intros Hf. revert merged. induction ps as [|p ps IH]; intros merged; simpl.
  - by rewrite map_rev, <-(Permutation_rev (map f merged)).
  - destruct merged as [|last before]; rewrite ?sumZ_cons.
    + rewrite IH. simpl. rewrite sumZ_cons. by destruct p; simpl; lia.
    + destruct (sameSeats _ _) eqn:E; rewrite IH; simpl; rewrite !sumZ_cons.
      * apply sameSeats_eq in E. rewrite Hf by done. lia.
      * destruct p; simpl; lia.
Qed.

Lemma potTotal_mergePots ps : potTotal (mergePots ps []) = potTotal ps.
Proof. unfold potTotal. rewrite sum_mergePots; [simpl; rewrite sumZ_nil; lia|done]. Qed.

Lemma winnable_mergePots i ps : winnable i (mergePots ps []) = winnable i ps.
Proof.
  unfold winnable. rewrite sum_mergePots; [simpl; rewrite sumZ_nil; lia|].
  intros p q Hs. simpl. rewrite Hs. case_bool_decide; lia.
Qed.

(** ** The collection loop *)

Section collect.
Context (totalCommit : list Z) (eligibleForWin : list bool).

Lemma collect_In r :
  In r (collect totalCommit eligibleForWin) ↔
  (c_seat r < length totalCommit)%nat ∧ c_amount r = rd 0 totalCommit (c_seat r) ∧
  0 < c_amount r ∧ c_eligible r = rd false eligibleForWin (c_seat r).
Proof.
  unfold collect. rewrite in_flat_map. split.
  - intros (i & Hi & H). apply in_seq in Hi. cbn beta zeta in H. case_hyp H; b2p; simpl in H; [|done].
    destruct H as [<-|[]]. simpl. split; [lia|]. repeat split; lia.
  - intros (Hs & Ha & Hp & He). exists (c_seat r). split; [apply in_seq; lia|]. cbn beta zeta.
    rewrite <-Ha, <-He. apply Z.ltb_lt in Hp. rewrite Hp. left. by destruct r.
Qed.

Lemma collect_positive : positive_contribs (collect totalCommit eligibleForWin).
Proof. apply Forall_forall. intros r Hr%list_elem_of_In. by apply collect_In in Hr as (_ & _ & ? & _). Qed.

Lemma collect_seats :
  map c_seat (collect totalCommit eligibleForWin) =
  List.filter (λ i, 0 <? rd 0 totalCommit i) (seq 0 (length totalCommit)).
Proof.
  unfold collect. induction (seq 0 (length totalCommit)) as [|i l IH]; simpl; [done|].
  rewrite map_app, IH. by destruct (0 <? rd 0 totalCommit i).
Qed.

Lemma collect_NoDup : NoDup (map c_seat (collect totalCommit eligibleForWin)).
Proof.
  rewrite collect_seats. apply NoDup_ListNoDup, List.NoDup_filter, NoDup_ListNoDup, NoDup_seq.
Qed.

Lemma collect_sum (g : Z → Z) :
  (∀ x, x <= 0 → g x = 0) →
  sumZ (map (λ r, g (c_amount r)) (collect totalCommit eligibleForWin)) = sumZ (map g totalCommit).
Proof.
  intros Hg. unfold collect.
  assert (H : ∀ l, sumZ (map (λ r, g (c_amount r)) (flat_map (λ i,
      if 0 <? rd 0 totalCommit i then [mkContrib i (rd 0 totalCommit i) (rd false eligibleForWin i)] else []) l)) =
    sumZ (map g (map (rd 0 totalCommit) l))).
  { intros l. induction l as [|i l IH]; simpl; [done|]. rewrite map_app, sumZ_app, IH, sumZ_cons. f_equal.
    case_goal; b2p; simpl; rewrite ?sumZ_cons, sumZ_nil; [lia|]. by rewrite Hg. }
  rewrite H. do 2 f_equal. apply list_eq. intros i. rewrite list_lookup_fmap.
  destruct (decide (i < length totalCommit)%nat) as [Hi|Hi].
  - rewrite lookup_seq_lt by done. simpl. by rewrite (lookup_rd 0).
  - rewrite lookup_seq_ge, lookup_ge_None_2 by lia. done.
Qed.
End collect.

(** ** Shape of the merged list *)

(** The merge loop without its accumulator. *)
Fixpoint merge_from (last : Pot) (ps : list Pot) : list Pot :=
  match ps with
  | [] => [last]
  | q :: qs =>
      if sameSeats (eligibleSeats last) (eligibleSeats q)
      then merge_from (mkPot (amount last + amount q) (eligibleSeats last)) qs
      else last :: merge_from (mkPot (amount q) (eligibleSeats q)) qs
  end.

Lemma mergePots_acc ps last before :
  mergePots ps (last :: before) = rev before ++ merge_from last ps.
Proof.
  revert last before. induction ps as [|q qs IH]; intros last before; simpl; [done|].
  destruct (sameSeats _ _); rewrite IH; [done|]. simpl. by rewrite <-app_assoc.
Qed.

(** A later pot is open to fewer seats than the pot before it. *)
Definition narrower (p q : Pot) : Prop :=
  sublist (eligibleSeats q) (eligibleSeats p) ∧ eligibleSeats q ≠ eligibleSeats p.

Definition inside (seats : list nat) (p : Pot) : Prop := sublist (eligibleSeats p) seats.

Lemma subtract_sublist m rs :
  sublist (map c_seat (List.filter c_eligible (subtract m rs))) (map c_seat (List.filter c_eligible rs)).
Proof.
  unfold subtract. induction rs as [|r l IH]; simpl; [done|].
  destruct (negb _), (c_eligible r) eqn:E; simpl; rewrite ?E; simpl; solve [done | by constructor].
Qed.

Lemma tiers_sorted rs :
  Sorted (λ p q, sublist (eligibleSeats q) (eligibleSeats p)) (tiers rs) ∧
  match tiers rs with [] => True | p :: _ => inside (map c_seat (List.filter c_eligible rs)) p end.
Proof.
  funelim (tiers rs); simp tiers; [by split; [constructor|]|].
  destruct H as [Hs Hh]. split; [|by unfold inside].
  constructor; [done|]. destruct (tiers _) as [|p ps]; constructor.
  etrans; [exact Hh|]. apply subtract_sublist.
Qed.

Lemma merge_from_sorted last ps :
  Sorted (λ p q, sublist (eligibleSeats q) (eligibleSeats p)) (last :: ps) →
  Sorted narrower (merge_from last ps) ∧
  match merge_from last ps with [] => False | p :: _ => eligibleSeats p = eligibleSeats last end.
Proof.
  revert last. induction ps as [|q qs IH]; intros last Hs; simpl; [by repeat constructor|].
  apply Sorted_inv in Hs as [Hs Hh]. apply HdRel_inv in Hh. apply Sorted_inv in Hs as [Hqs Hq].
  assert (Hcons : ∀ a s, s = eligibleSeats q →
    Sorted (λ p q, sublist (eligibleSeats q) (eligibleSeats p)) (mkPot a s :: qs)).
  { intros a s ->. constructor; [done|]. destruct Hq; by constructor. }
  destruct (sameSeats _ _) eqn:E.
  - apply sameSeats_eq in E. apply (IH (mkPot (amount last + amount q) (eligibleSeats last))). by apply Hcons.
  - destruct (IH (mkPot (amount q) (eligibleSeats q))) as [Hm Hd]; [by apply Hcons|].
    split; [|done]. constructor; [done|]. destruct (merge_from _ qs) as [|p ps]; [done|].
    constructor. simpl in Hd. unfold narrower. rewrite Hd. split; [done|].
    intros Heq. symmetry in Heq. apply sameSeats_eq in Heq. congruence.
Qed.

(** ** The properties of [computeSidePots] *)

(** The pots hold exactly the committed chips. *)
Lemma computeSidePots_total totalCommit eligibleForWin :
  potTotal (computeSidePots totalCommit eligibleForWin) = sumZ (map (Z.max 0) totalCommit).
Proof.
  unfold computeSidePots. rewrite potTotal_mergePots, tiers_total by apply collect_positive.
  rewrite <-(collect_sum totalCommit eligibleForWin (Z.max 0)) by lia.
  apply sumZ_map_ext. intros r Hr. apply collect_In in Hr. lia.
Qed.

(** What a seat may win. *)
Lemma computeSidePots_winnable totalCommit eligibleForWin i :
  winnable i (computeSidePots totalCommit eligibleForWin) =
  if rd false eligibleForWin i && (0 <? rd 0 totalCommit i) then matched (rd 0 totalCommit i) totalCommit else 0.
Proof.
  unfold computeSidePots. rewrite winnable_mergePots.
  destruct (rd false eligibleForWin i) eqn:He; [|apply tiers_not_winnable; intros r Hr <-; by apply collect_In in Hr as (_ & _ & _ & ->)].
  destruct (0 <? rd 0 totalCommit i) eqn:Ha; b2p.
  - assert (Hi : (i < length totalCommit)%nat).
    { unfold rd in Ha. destruct (totalCommit !! i) eqn:E; [by apply lookup_lt_Some in E|simpl in Ha; lia]. }
    assert (Hr : In (mkContrib i (rd 0 totalCommit i) true) (collect totalCommit eligibleForWin)).
    { apply collect_In. by repeat split. }
    pose proof (tiers_winnable _ _ (collect_positive _ _) (collect_NoDup _ _) Hr eq_refl) as Hw.
    simpl in Hw. rewrite Hw. simpl. unfold matched. rewrite <-(collect_sum totalCommit eligibleForWin (λ x, Z.min (rd 0 totalCommit i) (Z.max 0 x))) by lia.
    apply sumZ_map_ext. intros r Hr'. apply collect_In in Hr'. lia.
  - apply tiers_not_winnable. intros r Hr Hs. apply collect_In in Hr as (_ & Hr & Hp & _). subst. lia.
Qed.

(** Later pots are open to fewer seats. *)
Lemma computeSidePots_narrowing totalCommit eligibleForWin :
  Sorted narrower (computeSidePots totalCommit eligibleForWin).
Proof.
  unfold computeSidePots. destruct (tiers_sorted (collect totalCommit eligibleForWin)) as [Hs _].
  destruct (tiers _) as [|p ps]; simpl; [constructor|]. rewrite mergePots_acc. simpl.
  apply merge_from_sorted. apply Sorted_inv in Hs as [Hs Hh]. constructor; [done|]. destruct Hh; by constructor.
Qed.

(** C14. [computeSidePots] splits the committed chips correctly: the pots
    together hold every committed chip; a seat that is eligible and has chips
    in may win, over all pots, exactly the sum over all contributors of the
    smaller of its own and their commitment, and any other seat nothing; and
    each pot is open to strictly fewer seats than the pot before it, in the
    same order. *)
Theorem computeSidePots_correct totalCommit eligibleForWin :
  potTotal (computeSidePots totalCommit eligibleForWin) = sumZ (map (Z.max 0) totalCommit) ∧
  (∀ i, winnable i (computeSidePots totalCommit eligibleForWin) =
        if rd false eligibleForWin i && (0 <? rd 0 totalCommit i)
        then matched (rd 0 totalCommit i) totalCommit else 0) ∧
  Sorted narrower (computeSidePots totalCommit eligibleForWin).
Proof.
  split; [apply computeSidePots_total|]. split; [intros i; apply computeSidePots_winnable|].
  apply computeSidePots_narrowing.
Qed.

End Pots.
