(* ===== verification/PokerEngine.v ===== *)
(** * The betting engine: [packages/poker-engine/src/engine.ts], [types.ts], [errors.ts]

    A [TableState] holds nine seats and at most one [HandState].  The exported
    operations ([createTableState], [sit], [startHand], [applyAction],
    [applyTick], [abortHand]) clone the state, mutate the clone and return it,
    or throw a [PokerEngineError]; here each is a function from a state to a
    [result].  The internal functions mutate the seats and the hand of the
    clone; here they map a pair of seats and hand to such a pair.

    [bigint] chip amounts are [Z].  [number]s that the code only uses as
    indices of the nine-element arrays are [nat]; a timestamp and the numeric
    parameters arrive as [number] and pass the code's own integer guards. *)
From stdpp Require Import base option list strings.
From Stdlib Require Import ZArith Lia.
From S2P Require Import Prelude PokerPots.
Import Pots.

Module Engine.

(** ** types.ts *)

Inductive Street := preflop | flop | turn | river.
Inductive HandPhase := betting | showdown | complete | aborted.
Inductive SeatStatus := seat_empty | seated.

Record SeatState := mkSeat { status : SeatStatus; playerId : string; stack : Z }.

Record TableParams := mkParams {
  smallBlind : Z;
  bigBlind : Z;
  actionTimeoutSecs : Z;
  rakeBps : Z;
  refundBlindsOnAbort : bool
}.

(** The parameters as the caller passes them, before [createTableState] has
    checked that the two [number]s are integers. *)
Record RawParams := mkRaw {
  raw_smallBlind : Z;
  raw_bigBlind : Z;
  raw_actionTimeoutSecs : number;
  raw_rakeBps : number;
  raw_refundBlindsOnAbort : bool
}.

Inductive Action :=
| Fold (seat : Z)
| Check_ (seat : Z)
| Call (seat : Z)
| BetTo (seat : Z) (amt : Z).

Definition action_seat (a : Action) : Z :=
  match a with Fold s | Check_ s | Call s | BetTo s _ => s end.

Inductive DefaultAction := defaultCheck | defaultFold.

Inductive EngineEvent :=
| HandStarted (ev_handId : Z) (ev_button ev_sb ev_bb : nat)
| ActionApplied (ev_seat : nat) (ev_action : Action)
| TimeoutApplied (ev_seat : nat) (ev_default : DefaultAction)
| StreetAdvanced (ev_street : Street)
| ShowdownReached
| HandCompleted
| HandAborted (reason : string).

Record HandState := mkHand {
  handId : Z;
  phase : HandPhase;
  street : Street;
  h_button : nat;
  smallBlindSeat : nat;
  bigBlindSeat : nat;
  actionOn : option nat;
  actionDeadlineTs : option Z;
  betTo : Z;
  minRaiseSize : Z;
  intervalId : Z;
  lastIntervalActed : list Z;
  streetCommit : list Z;
  totalCommit : list Z;
  inHand : list bool;
  folded : list bool;
  allIn : list bool;
  pots : list Pot;
  winnerSeat : option nat;
  events : list EngineEvent
}.

Record TableState := mkTable {
  params : TableParams;
  seats : list (option SeatState);
  button : option nat;
  nextHandId : Z;
  hand : option HandState
}.

#[export] Instance Street_eq_dec : EqDecision Street.
Proof. solve_decision. Defined.
#[export] Instance HandPhase_eq_dec : EqDecision HandPhase.
Proof. solve_decision. Defined.
#[export] Instance Action_eq_dec : EqDecision Action.
Proof. solve_decision. Defined.

(** ** errors.ts *)

Inductive PokerEngineErrorCode :=
| NO_HAND | HAND_NOT_ACTIVE | OUT_OF_TURN | SEAT_EMPTY | SEAT_NOT_IN_HAND
| SEAT_FOLDED | SEAT_ALL_IN | ILLEGAL_ACTION | INVALID_AMOUNT.

Record PokerEngineError := mkError { code : PokerEngineErrorCode; message : string }.

Abbreviation res := (result PokerEngineError).

(** ** Field updates *)

Definition set_phase (v : HandPhase) (h : HandState) : HandState :=
  mkHand h.(handId) v h.(street) h.(h_button) h.(smallBlindSeat) h.(bigBlindSeat) h.(actionOn) h.(actionDeadlineTs) h.(betTo) h.(minRaiseSize) h.(intervalId) h.(lastIntervalActed) h.(streetCommit) h.(totalCommit) h.(inHand) h.(folded) h.(allIn) h.(pots) h.(winnerSeat) h.(events).
Definition set_street (v : Street) (h : HandState) : HandState :=
  mkHand h.(handId) h.(phase) v h.(h_button) h.(smallBlindSeat) h.(bigBlindSeat) h.(actionOn) h.(actionDeadlineTs) h.(betTo) h.(minRaiseSize) h.(intervalId) h.(lastIntervalActed) h.(streetCommit) h.(totalCommit) h.(inHand) h.(folded) h.(allIn) h.(pots) h.(winnerSeat) h.(events).
Definition set_actionOn (v : option nat) (h : HandState) : HandState :=
  mkHand h.(handId) h.(phase) h.(street) h.(h_button) h.(smallBlindSeat) h.(bigBlindSeat) v h.(actionDeadlineTs) h.(betTo) h.(minRaiseSize) h.(intervalId) h.(lastIntervalActed) h.(streetCommit) h.(totalCommit) h.(inHand) h.(folded) h.(allIn) h.(pots) h.(winnerSeat) h.(events).
Definition set_actionDeadlineTs (v : option Z) (h : HandState) : HandState :=
  mkHand h.(handId) h.(phase) h.(street) h.(h_button) h.(smallBlindSeat) h.(bigBlindSeat) h.(actionOn) v h.(betTo) h.(minRaiseSize) h.(intervalId) h.(lastIntervalActed) h.(streetCommit) h.(totalCommit) h.(inHand) h.(folded) h.(allIn) h.(pots) h.(winnerSeat) h.(events).
Definition set_betTo (v : Z) (h : HandState) : HandState :=
  mkHand h.(handId) h.(phase) h.(street) h.(h_button) h.(smallBlindSeat) h.(bigBlindSeat) h.(actionOn) h.(actionDeadlineTs) v h.(minRaiseSize) h.(intervalId) h.(lastIntervalActed) h.(streetCommit) h.(totalCommit) h.(inHand) h.(folded) h.(allIn) h.(pots) h.(winnerSeat) h.(events).
Definition set_minRaiseSize (v : Z) (h : HandState) : HandState :=
  mkHand h.(handId) h.(phase) h.(street) h.(h_button) h.(smallBlindSeat) h.(bigBlindSeat) h.(actionOn) h.(actionDeadlineTs) h.(betTo) v h.(intervalId) h.(lastIntervalActed) h.(streetCommit) h.(totalCommit) h.(inHand) h.(folded) h.(allIn) h.(pots) h.(winnerSeat) h.(events).
Definition set_intervalId (v : Z) (h : HandState) : HandState :=
  mkHand h.(handId) h.(phase) h.(street) h.(h_button) h.(smallBlindSeat) h.(bigBlindSeat) h.(actionOn) h.(actionDeadlineTs) h.(betTo) h.(minRaiseSize) v h.(lastIntervalActed) h.(streetCommit) h.(totalCommit) h.(inHand) h.(folded) h.(allIn) h.(pots) h.(winnerSeat) h.(events).
Definition set_lastIntervalActed (v : list Z) (h : HandState) : HandState :=
  mkHand h.(handId) h.(phase) h.(street) h.(h_button) h.(smallBlindSeat) h.(bigBlindSeat) h.(actionOn) h.(actionDeadlineTs) h.(betTo) h.(minRaiseSize) h.(intervalId) v h.(streetCommit) h.(totalCommit) h.(inHand) h.(folded) h.(allIn) h.(pots) h.(winnerSeat) h.(events).
Definition set_streetCommit (v : list Z) (h : HandState) : HandState :=
  mkHand h.(handId) h.(phase) h.(street) h.(h_button) h.(smallBlindSeat) h.(bigBlindSeat) h.(actionOn) h.(actionDeadlineTs) h.(betTo) h.(minRaiseSize) h.(intervalId) h.(lastIntervalActed) v h.(totalCommit) h.(inHand) h.(folded) h.(allIn) h.(pots) h.(winnerSeat) h.(events).
Definition set_totalCommit (v : list Z) (h : HandState) : HandState :=
  mkHand h.(handId) h.(phase) h.(street) h.(h_button) h.(smallBlindSeat) h.(bigBlindSeat) h.(actionOn) h.(actionDeadlineTs) h.(betTo) h.(minRaiseSize) h.(intervalId) h.(lastIntervalActed) h.(streetCommit) v h.(inHand) h.(folded) h.(allIn) h.(pots) h.(winnerSeat) h.(events).
Definition set_folded (v : list bool) (h : HandState) : HandState :=
  mkHand h.(handId) h.(phase) h.(street) h.(h_button) h.(smallBlindSeat) h.(bigBlindSeat) h.(actionOn) h.(actionDeadlineTs) h.(betTo) h.(minRaiseSize) h.(intervalId) h.(lastIntervalActed) h.(streetCommit) h.(totalCommit) h.(inHand) v h.(allIn) h.(pots) h.(winnerSeat) h.(events).
Definition set_allIn (v : list bool) (h : HandState) : HandState :=
  mkHand h.(handId) h.(phase) h.(street) h.(h_button) h.(smallBlindSeat) h.(bigBlindSeat) h.(actionOn) h.(actionDeadlineTs) h.(betTo) h.(minRaiseSize) h.(intervalId) h.(lastIntervalActed) h.(streetCommit) h.(totalCommit) h.(inHand) h.(folded) v h.(pots) h.(winnerSeat) h.(events).
Definition set_pots (v : list Pot) (h : HandState) : HandState :=
  mkHand h.(handId) h.(phase) h.(street) h.(h_button) h.(smallBlindSeat) h.(bigBlindSeat) h.(actionOn) h.(actionDeadlineTs) h.(betTo) h.(minRaiseSize) h.(intervalId) h.(lastIntervalActed) h.(streetCommit) h.(totalCommit) h.(inHand) h.(folded) h.(allIn) v h.(winnerSeat) h.(events).
Definition set_winnerSeat (v : option nat) (h : HandState) : HandState :=
  mkHand h.(handId) h.(phase) h.(street) h.(h_button) h.(smallBlindSeat) h.(bigBlindSeat) h.(actionOn) h.(actionDeadlineTs) h.(betTo) h.(minRaiseSize) h.(intervalId) h.(lastIntervalActed) h.(streetCommit) h.(totalCommit) h.(inHand) h.(folded) h.(allIn) h.(pots) v h.(events).
Definition set_events (v : list EngineEvent) (h : HandState) : HandState :=
  mkHand h.(handId) h.(phase) h.(street) h.(h_button) h.(smallBlindSeat) h.(bigBlindSeat) h.(actionOn) h.(actionDeadlineTs) h.(betTo) h.(minRaiseSize) h.(intervalId) h.(lastIntervalActed) h.(streetCommit) h.(totalCommit) h.(inHand) h.(folded) h.(allIn) h.(pots) h.(winnerSeat) v.

Definition push_event (e : EngineEvent) (h : HandState) : HandState :=
  set_events (h.(events) ++ [e]) h.

(** [state.seats[i].stack], and the assignment to it. *)
Definition stack_at (ss : list (option SeatState)) (i : nat) : Z :=
  match rd None ss i with Some s => s.(stack) | None => 0 end.
Definition set_stack (i : nat) (v : Z) (ss : list (option SeatState)) : list (option SeatState) :=
  match rd None ss i with
  | Some s => <[i := Some (mkSeat s.(status) s.(playerId) v)]> ss
  | None => ss
  end.

(** [state.seats[i] != null] *)
Definition occupied (ss : list (option SeatState)) (i : nat) : bool :=
  match rd None ss i with Some _ => true | None => false end.
(** [seat && seat.stack > 0n] *)
Definition funded (ss : list (option SeatState)) (i : nat) : bool :=
  match rd None ss i with Some s => 0 <? s.(stack) | None => false end.

(** [for (let i = 0; i < 9; i++)] *)
Definition seats9 : list nat := seq 0 9.

(** ** engine.ts, internal functions *)

Definition assertIntTimestamp (now : number) : res Z :=
  match now with
  | Int z => if z <? 0 then Err (mkError ILLEGAL_ACTION "now must be a non-negative integer timestamp (seconds).") else Ok z
  | NotInteger => Err (mkError ILLEGAL_ACTION "now must be a non-negative integer timestamp (seconds).")
  end.

Definition seatCount9 (ss : list (option SeatState)) : res unit :=
  throw_if (negb (length ss =? 9)%nat) (mkError ILLEGAL_ACTION "TableState.seats must have length 9.").

(** [(fromSeat + offset) % 9] for [offset = 1 .. 9] *)
Definition clockwise (fromSeat : Z) : list nat :=
  map (λ offset, Z.to_nat (Z.rem (fromSeat + Z.of_nat offset) 9)) (seq 1 9).

Definition nextOccupiedSeat (ss : list (option SeatState)) (fromSeat : nat) : nat :=
  match List.find (occupied ss) (clockwise (Z.of_nat fromSeat)) with
  | Some s => s
  | None => fromSeat
  end.

Definition needsToAct (h : HandState) (seat : nat) : bool :=
  if negb (rd false h.(inHand) seat) then false
  else if rd false h.(folded) seat then false
  else if rd false h.(allIn) seat then false
  else negb (rd 0 h.(lastIntervalActed) seat =? h.(intervalId)) || negb (rd 0 h.(streetCommit) seat =? h.(betTo)).

Definition nextActiveInHand (h : HandState) (fromSeat : Z) : option nat :=
  List.find (λ s, if negb (rd false h.(inHand) s) then false
                  else if rd false h.(folded) s then false
                  else if rd false h.(allIn) s then false
                  else needsToAct h s)
            (clockwise fromSeat).

Definition countNotFolded (h : HandState) : nat :=
  length (List.filter (λ i, rd false h.(inHand) i && negb (rd false h.(folded) i)) seats9).

Definition countWithChips (h : HandState) (ss : list (option SeatState)) : nat :=
  length (List.filter (λ i, if negb (rd false h.(inHand) i) || rd false h.(folded) i then false
                            else funded ss i) seats9).

Definition toCall (h : HandState) (seat : nat) : Z :=
  let need := h.(betTo) - rd 0 h.(streetCommit) seat in
  if 0 <? need then need else 0.

Definition maxCommitThisStreet (h : HandState) : Z :=
  fold_left (λ m i, if m <? rd 0 h.(streetCommit) i then rd 0 h.(streetCommit) i else m) seats9 0.

Definition secondMaxCommitThisStreet (h : HandState) (max : Z) : Z :=
  fold_left (λ s i, let v := rd 0 h.(streetCommit) i in
                    if v =? max then s else if s <? v then v else s) seats9 0.

(** The seats whose street commitment is [max]; [maxSeat] exists only when
    there is exactly one. *)
Definition uniqueMaxSeat (h : HandState) (max : Z) : option nat :=
  match List.filter (λ i, rd 0 h.(streetCommit) i =? max) seats9 with
  | [i] => Some i
  | _ => None
  end.

Definition returnUncalledStreetExcess (ss : list (option SeatState)) (h : HandState)
  : list (option SeatState) * HandState :=
  let max := maxCommitThisStreet h in
  if max =? 0 then (ss, h) else
  let second := secondMaxCommitThisStreet h max in
  if second =? max then (ss, h) else
  match uniqueMaxSeat h max with
  | None => (ss, h)
  | Some maxSeat =>
      let excess := max - second in
      if excess <=? 0 then (ss, h) else
      if negb (occupied ss maxSeat) then (ss, h) else
      let ss' := set_stack maxSeat (stack_at ss maxSeat + excess) ss in
      let h := set_streetCommit (<[maxSeat := rd 0 h.(streetCommit) maxSeat - excess]> h.(streetCommit)) h in
      let h := set_totalCommit (<[maxSeat := rd 0 h.(totalCommit) maxSeat - excess]> h.(totalCommit)) h in
      let h := if 0 <? stack_at ss' maxSeat then set_allIn (<[maxSeat := false]> h.(allIn)) h else h in
      (ss', h)
  end.

Definition nextStreet (s : Street) : Street :=
  match s with preflop => flop | flop => turn | turn => river | river => river end.

Definition deadline (p : TableParams) (on : option nat) (now : Z) : option Z :=
  match on with None => None | Some _ => Some (now + p.(actionTimeoutSecs)) end.

Definition advanceStreet (p : TableParams) (ss : list (option SeatState)) (h : HandState) (now : Z) : HandState :=
  let ns := nextStreet h.(street) in
  let h := set_street ns h in
  let h := set_betTo 0 h in
  let h := set_minRaiseSize p.(bigBlind) h in
  let h := set_intervalId 0 h in
  let h := set_streetCommit (replicate 9 0) h in
  let h := set_lastIntervalActed (replicate 9 (-1)) h in
  let start := nextOccupiedSeat ss h.(h_button) in
  let h := set_actionOn (nextActiveInHand h (Z.of_nat start - 1)) h in
  let h := set_actionDeadlineTs (deadline p h.(actionOn) now) h in
  push_event (StreetAdvanced ns) h.

Definition reachShowdown (h : HandState) : HandState :=
  let h := set_phase showdown h in
  let h := set_actionOn None h in
  let h := set_actionDeadlineTs None h in
  let eligible := imap (λ i b, b && negb (rd false h.(folded) i)) h.(inHand) in
  let h := set_pots (computeSidePots h.(totalCommit) eligible) h in
  push_event ShowdownReached h.

Definition completeByFolds (ss : list (option SeatState)) (h : HandState)
  : list (option SeatState) * HandState :=
  match List.find (λ i, rd false h.(inHand) i && negb (rd false h.(folded) i)) seats9 with
  | None => (ss, h)
  | Some winner =>
      let (ss, h) := returnUncalledStreetExcess ss h in
      let potTotal := fold_left (λ acc i, acc + rd 0 h.(totalCommit) i) seats9 0 in
      if negb (occupied ss winner) then (ss, h) else
      let ss := set_stack winner (stack_at ss winner + potTotal) ss in
      let h := set_streetCommit (replicate 9 0) h in
      let h := set_totalCommit (replicate 9 0) h in
      let h := set_phase complete h in
      let h := set_winnerSeat (Some winner) h in
      let h := set_actionOn None h in
      let h := set_actionDeadlineTs None h in
      let h := set_pots [] h in
      (ss, push_event HandCompleted h)
  end.

Definition validateRaiseAllowed (h : HandState) (seat : nat) : res unit :=
  throw_if (rd 0 h.(lastIntervalActed) seat =? h.(intervalId))
    (mkError ILLEGAL_ACTION "Raise not allowed: player has already acted since the last full raise.").

(** Move [pay] chips of [seat] from the stack into the pot. *)
Definition commitChips (ss : list (option SeatState)) (h : HandState) (seat : nat) (pay : Z)
  : list (option SeatState) * HandState :=
  let ss := set_stack seat (stack_at ss seat - pay) ss in
  let h := set_streetCommit (<[seat := rd 0 h.(streetCommit) seat + pay]> h.(streetCommit)) h in
  let h := set_totalCommit (<[seat := rd 0 h.(totalCommit) seat + pay]> h.(totalCommit)) h in
  (ss, if stack_at ss seat =? 0 then set_allIn (<[seat := true]> h.(allIn)) h else h).

Definition acted (seat : nat) (h : HandState) : HandState :=
  set_lastIntervalActed (<[seat := h.(intervalId)]> h.(lastIntervalActed)) h.

Definition applyBetTo (p : TableParams) (ss : list (option SeatState)) (h : HandState) (seat : nat) (desiredCommit : Z)
  : res (list (option SeatState) * HandState) :=
  let! _ := throw_if (desiredCommit <=? rd 0 h.(streetCommit) seat)
              (mkError INVALID_AMOUNT "BetTo amount must exceed current street commitment.") in
  let maxCommit := rd 0 h.(streetCommit) seat + stack_at ss seat in
  let! _ := throw_if (maxCommit <? desiredCommit)
              (mkError INVALID_AMOUNT "BetTo amount exceeds available chips.") in
  let currentBetTo := h.(betTo) in
  let! _ := throw_if (desiredCommit <=? currentBetTo)
              (mkError ILLEGAL_ACTION "BetTo must exceed current betTo (use Call/Check when not raising).") in
  let isAllIn := desiredCommit =? maxCommit in
  let! _ := validateRaiseAllowed h seat in
  let raiseSize := desiredCommit - currentBetTo in
  let minBet := p.(bigBlind) in
  let! h :=
    if currentBetTo =? 0 then
      let! _ := throw_if ((desiredCommit <? minBet) && negb isAllIn)
                  (mkError ILLEGAL_ACTION "Bet size below big blind; only allowed if all-in.") in
      let h := set_intervalId (h.(intervalId) + 1) h in
      let h := acted seat h in
      let h := set_minRaiseSize (if minBet <=? desiredCommit then desiredCommit else minBet) h in
      Ok (set_betTo desiredCommit h)
    else if raiseSize <? h.(minRaiseSize) then
      let! _ := throw_if (negb isAllIn)
                  (mkError ILLEGAL_ACTION "Raise size below minimum; only allowed if all-in.") in
      Ok (set_betTo desiredCommit (acted seat h))
    else
      let h := set_intervalId (h.(intervalId) + 1) h in
      let h := set_minRaiseSize raiseSize h in
      let h := set_betTo desiredCommit h in
      Ok (acted seat h) in
  Ok (commitChips ss h seat (desiredCommit - rd 0 h.(streetCommit) seat)).

Definition applyCall (ss : list (option SeatState)) (h : HandState) (seat : nat)
  : res (list (option SeatState) * HandState) :=
  let need := toCall h seat in
  let! _ := throw_if (need =? 0) (mkError ILLEGAL_ACTION "Call is not legal when facing 0.") in
  let pay := if need <=? stack_at ss seat then need else stack_at ss seat in
  let (ss, h) := commitChips ss h seat pay in
  Ok (ss, acted seat h).

Definition applyCheck (h : HandState) (seat : nat) : res HandState :=
  let! _ := throw_if (negb (toCall h seat =? 0)) (mkError ILLEGAL_ACTION "Check is not legal when facing a bet.") in
  Ok (acted seat h).

Definition applyFold (h : HandState) (seat : nat) : HandState :=
  acted seat (set_folded (<[seat := true]> h.(folded)) h).

Definition streetComplete (h : HandState) : bool :=
  forallb (λ i, if negb (rd false h.(inHand) i) || rd false h.(folded) i || rd false h.(allIn) i then true
                else if negb (rd 0 h.(streetCommit) i =? h.(betTo)) then false
                else if negb (rd 0 h.(lastIntervalActed) i =? h.(intervalId)) then false
                else true) seats9.

Definition maybeAdvance (p : TableParams) (ss : list (option SeatState)) (h : HandState) (now : Z)
  : list (option SeatState) * HandState :=
  if (countNotFolded h <=? 1)%nat then completeByFolds ss h else
  if negb (streetComplete h) then
    let next := nextActiveInHand h (Z.of_nat (default 0%nat h.(actionOn))) in
    let h := set_actionOn next h in
    (ss, set_actionDeadlineTs (deadline p next now) h)
  else
    let (ss, h) := returnUncalledStreetExcess ss h in
    if bool_decide (h.(street) = river) then (ss, reachShowdown h) else
    if (countWithChips h ss <? 2)%nat then (ss, reachShowdown h) else
    (ss, advanceStreet p ss h now).

(** ** engine.ts, exported operations *)

Definition createTableState (p : RawParams) : res TableState :=
  let! _ := throw_if ((p.(raw_smallBlind) <=? 0) || (p.(raw_bigBlind) <=? 0) || (p.(raw_bigBlind) <=? p.(raw_smallBlind)))
              (mkError ILLEGAL_ACTION "Invalid blind parameters.") in
  match p.(raw_actionTimeoutSecs) with
  | NotInteger => Err (mkError ILLEGAL_ACTION "actionTimeoutSecs must be a positive integer.")
  | Int timeout =>
      let! _ := throw_if (timeout <=? 0) (mkError ILLEGAL_ACTION "actionTimeoutSecs must be a positive integer.") in
      match p.(raw_rakeBps) with
      | NotInteger => Err (mkError ILLEGAL_ACTION "rakeBps must be an integer >= 0.")
      | Int rake =>
          let! _ := throw_if (rake <? 0) (mkError ILLEGAL_ACTION "rakeBps must be an integer >= 0.") in
          Ok (mkTable (mkParams p.(raw_smallBlind) p.(raw_bigBlind) timeout rake p.(raw_refundBlindsOnAbort))
                (replicate 9 None) None 1 None)
      end
  end.

Definition sit (state : TableState) (seat : Z) (player : string) (stk : Z) : res TableState :=
  let! _ := seatCount9 state.(seats) in
  let! _ := throw_if ((seat <? 0) || (8 <? seat)) (mkError ILLEGAL_ACTION "seat must be 0..8") in
  let! _ := throw_if (occupied state.(seats) (Z.to_nat seat)) (mkError ILLEGAL_ACTION "seat already occupied") in
  let! _ := throw_if (stk <? 0) (mkError ILLEGAL_ACTION "stack must be >= 0") in
  Ok (mkTable state.(params) (<[Z.to_nat seat := Some (mkSeat seated player stk)]> state.(seats))
        state.(button) state.(nextHandId) state.(hand)).

(** The button moves to the next funded seat, or to the lowest funded seat for
    the first hand. *)
Definition nextButton (ss : list (option SeatState)) (prev : option nat) (activeSeats : list nat) : nat :=
  match prev with
  | None => rd 0%nat activeSeats 0
  | Some prevButton =>
      match List.find (funded ss) (map (λ i, ((prevButton + 1 + i) mod 9)%nat) (seq 0 9)) with
      | Some cand => cand
      | None => prevButton
      end
  end.

Definition activeSeatsOf (ss : list (option SeatState)) : list nat := List.filter (funded ss) seats9.

(** [sbSeat.stack >= blind ? blind : sbSeat.stack] *)
Definition blindPay (ss : list (option SeatState)) (seat : nat) (blind : Z) : Z :=
  if blind <=? stack_at ss seat then blind else stack_at ss seat.

Definition startHand (state : TableState) (now : number) : res TableState :=
  let! now := assertIntTimestamp now in
  let! _ := seatCount9 state.(seats) in
  let activeSeats := activeSeatsOf state.(seats) in
  let! _ := throw_if (length activeSeats <? 2)%nat
              (mkError ILLEGAL_ACTION "Need at least 2 funded seats to start a hand.") in
  let ss := state.(seats) in
  let p := state.(params) in
  let hid := state.(nextHandId) in
  let btn := nextButton ss state.(button) activeSeats in
  let isHeadsUp := (length activeSeats =? 2)%nat in
  let sb := if isHeadsUp then btn else nextOccupiedSeat ss btn in
  let bb := nextOccupiedSeat ss sb in
  let inh := map (funded ss) seats9 in
  let sbPay := blindPay ss sb p.(smallBlind) in
  let bbPay := blindPay ss bb p.(bigBlind) in
  let ss := set_stack sb (stack_at ss sb - sbPay) ss in
  let ss := set_stack bb (stack_at ss bb - bbPay) ss in
  let commits := replicate 9 0 in
  let commits := <[sb := rd 0 commits sb + sbPay]> commits in
  let commits := <[bb := rd 0 commits bb + bbPay]> commits in
  let ai := replicate 9 false in
  let ai := if stack_at ss sb =? 0 then <[sb := true]> ai else ai in
  let ai := if stack_at ss bb =? 0 then <[bb := true]> ai else ai in
  let h := mkHand hid betting preflop btn sb bb None None bbPay p.(bigBlind) 0
             (replicate 9 (-1)) commits commits inh (replicate 9 false) ai [] None [] in
  let h := push_event (HandStarted hid btn sb bb) h in
  let h := set_actionOn (nextActiveInHand h (Z.of_nat bb)) h in
  let h := set_actionDeadlineTs (deadline p h.(actionOn) now) h in
  let h := match h.(actionOn) with None => reachShowdown h | Some _ => h end in
  Ok (mkTable p ss (Some btn) (hid + 1) (Some h)).

Definition applyAction (state : TableState) (action : Action) (now : number) : res TableState :=
  let! now := assertIntTimestamp now in
  let! _ := seatCount9 state.(seats) in
  match state.(hand) with
  | None => Err (mkError NO_HAND "No active hand.")
  | Some h =>
      let! _ := throw_if (negb (bool_decide (h.(phase) = betting)))
                  (mkError HAND_NOT_ACTIVE "Hand is not in betting phase.") in
      let seat := action_seat action in
      let! _ := throw_if ((seat <? 0) || (8 <? seat)) (mkError ILLEGAL_ACTION "seat must be 0..8") in
      let i := Z.to_nat seat in
      let ss := state.(seats) in
      let! _ := throw_if (negb (occupied ss i)) (mkError SEAT_EMPTY "Seat is empty.") in
      let! _ := throw_if (negb (rd false h.(inHand) i)) (mkError SEAT_NOT_IN_HAND "Seat is not in the hand.") in
      let! _ := throw_if (rd false h.(folded) i) (mkError SEAT_FOLDED "Seat has folded.") in
      let! _ := throw_if (rd false h.(allIn) i) (mkError SEAT_ALL_IN "Seat is all-in.") in
      let! _ := throw_if (negb (bool_decide (h.(actionOn) = Some i))) (mkError OUT_OF_TURN "Action is out of turn.") in
      let! (ss, h) :=
        match action with
        | Fold _ => Ok (ss, applyFold h i)
        | Check_ _ => let! h := applyCheck h i in Ok (ss, h)
        | Call _ => applyCall ss h i
        | BetTo _ amt => applyBetTo state.(params) ss h i amt
        end in
      let h := push_event (ActionApplied i action) h in
      let (ss, h) := maybeAdvance state.(params) ss h now in
      Ok (mkTable state.(params) ss state.(button) state.(nextHandId) (Some h))
  end.

Definition applyTick (state : TableState) (now : number) : res TableState :=
  let! t := assertIntTimestamp now in
  let! _ := seatCount9 state.(seats) in
  match state.(hand) with
  | None => Ok state
  | Some h =>
      if negb (bool_decide (h.(phase) = betting)) then Ok state else
      match h.(actionOn), h.(actionDeadlineTs) with
      | Some seat, Some dl =>
          if t <? dl then Ok state else
          let need := toCall h seat in
          let defaultAction := if need =? 0 then Check_ (Z.of_nat seat) else Fold (Z.of_nat seat) in
          let! s := applyAction state defaultAction now in
          let ev := TimeoutApplied seat (if need =? 0 then defaultCheck else defaultFold) in
          Ok (mkTable s.(params) s.(seats) s.(button) s.(nextHandId) (push_event ev <$> s.(hand)))
      | _, _ => Ok state
      end
  end.

(** One turn of the refund loop of [abortHand]. *)
Definition refundSeat (p : TableParams) (acc : list (option SeatState) * HandState) (i : nat)
  : list (option SeatState) * HandState :=
  let (ss, h) := acc in
  if negb (occupied ss i) then acc else
  let committed := rd 0 h.(totalCommit) i in
  let isBlindSeat := (i =? h.(smallBlindSeat))%nat || (i =? h.(bigBlindSeat))%nat in
  if isBlindSeat && negb p.(refundBlindsOnAbort) then acc else
  (set_stack i (stack_at ss i + committed) ss,
   set_streetCommit (<[i := 0]> h.(streetCommit)) (set_totalCommit (<[i := 0]> h.(totalCommit)) h)).

Definition abortHand (state : TableState) (reason : string) (now : number) : res TableState :=
  let! _ := assertIntTimestamp now in
  let! _ := seatCount9 state.(seats) in
  match state.(hand) with
  | None => Err (mkError NO_HAND "No active hand.")
  | Some h =>
      if bool_decide (h.(phase) = complete) || bool_decide (h.(phase) = aborted) then Ok state else
      let (ss, h) := fold_left (refundSeat state.(params)) seats9 (state.(seats), h) in
      let h := set_phase aborted h in
      let h := set_actionOn None h in
      let h := set_actionDeadlineTs None h in
      let h := set_pots [] h in
      let h := set_winnerSeat None h in
      let h := push_event (HandAborted reason) h in
      Ok (mkTable state.(params) ss state.(button) state.(nextHandId) (Some h))
  end.

Definition legalActions (state : TableState) : list Action :=
  match state.(hand) with
  | None => []
  | Some h =>
      if negb (bool_decide (h.(phase) = betting)) then [] else
      match h.(actionOn) with
      | None => []
      | Some i =>
          let ss := state.(seats) in
          let seat := Z.of_nat i in
          if negb (rd false h.(inHand) i) || rd false h.(folded) i || rd false h.(allIn) i then [] else
          if negb (occupied ss i) then [] else
          let actions := [Fold seat] in
          let need := toCall h i in
          let canRaise := negb (rd 0 h.(lastIntervalActed) i =? h.(intervalId)) in
          let maxCommit := rd 0 h.(streetCommit) i + stack_at ss i in
          if need =? 0 then
            let actions := actions ++ [Check_ seat] in
            if (0 <? stack_at ss i) && canRaise then
              let minBet := state.(params).(bigBlind) in
              let bet := if minBet <=? maxCommit then minBet else maxCommit in
              let actions := if 0 <? bet then actions ++ [BetTo seat bet] else actions in
              if bet <? maxCommit then actions ++ [BetTo seat maxCommit] else actions
            else actions
          else
            let actions := actions ++ [Call seat] in
            if negb canRaise || (stack_at ss i =? 0) then actions else
            if maxCommit <=? h.(betTo) then actions else
            let minRaiseTo := h.(betTo) + h.(minRaiseSize) in
            let actions := if minRaiseTo <=? maxCommit then actions ++ [BetTo seat minRaiseTo] else actions in
            actions ++ [BetTo seat maxCommit]
      end
  end.

Definition totalChipsOnTable (state : TableState) : Z :=
  sumZ (map (λ s, match s with Some s => s.(stack) | None => 0 end) state.(seats)) +
  match state.(hand) with
  | Some h => fold_left (λ sum i, sum + rd 0 h.(totalCommit) i) seats9 0
  | None => 0
  end.

End Engine.
