(* ===== verification/PokerEngineInv.v ===== *)
(** * The invariant of the betting engine

    [hand_ok] and [phase_ok] describe the seats and the hand between two
    operations; this file shows that every internal function of [engine.ts]
    keeps them and moves chips only between stacks and commitments.  The
    operations themselves are treated in the file of properties. *)
From stdpp Require Import base option list strings.
From Stdlib Require Import ZArith Lia.
From S2P Require Import Prelude PokerPots PokerEngine.
Import Pots Engine.

Module EngineInv.

(** ** Stacks as an array of amounts *)

Definition stk (o : option SeatState) : Z := match o with Some s => s.(stack) | None => 0 end.
Definition stacks (ss : list (option SeatState)) : list Z := stk <$> ss.

(** All chips of a table with a hand in progress. *)
Definition chips (ss : list (option SeatState)) (h : HandState) : Z :=
  sumZ (stacks ss) + sumZ h.(totalCommit).

Lemma stack_at_stacks ss i : stack_at ss i = rd 0 (stacks ss) i.
Proof.
  unfold stack_at, stacks. change (rd 0) with (rd (stk None)). rewrite (rd_fmap stk None ss i). by destruct (rd None ss i).
Qed.

Lemma occupied_lt ss i : occupied ss i = true → (i < length ss)%nat.
Proof.
  unfold occupied, rd. destruct (ss !! i) eqn:E; [|done]. intros _. by apply lookup_lt_Some in E.
Qed.

Lemma set_stack_occ ss i v j : occupied (set_stack i v ss) j = occupied ss j.
Proof.
  unfold occupied, set_stack. destruct (rd None ss i) eqn:E; [|done].
  rewrite rd_insert. case_decide as H; [|done]. destruct H as [<- _]. by rewrite E.
Qed.

Lemma set_stack_length ss i v : length (set_stack i v ss) = length ss.
Proof. unfold set_stack. destruct (rd None ss i); [apply length_insert|done]. Qed.

Lemma stacks_set_stack ss i v : occupied ss i = true → stacks (set_stack i v ss) = <[i:=v]> (stacks ss).
Proof.
  unfold occupied, set_stack, stacks. destruct (rd None ss i); [|done].
  intros _. rewrite list_fmap_insert. done.
Qed.

Lemma stacks_length ss : length (stacks ss) = length ss.
Proof. apply length_fmap. Qed.

Lemma stack_at_set ss i v j :
  occupied ss i = true → stack_at (set_stack i v ss) j = if decide (i = j) then v else stack_at ss j.
Proof.
  intros H. rewrite !stack_at_stacks, stacks_set_stack by done. rewrite rd_insert, stacks_length.
  pose proof (occupied_lt _ _ H). by repeat case_decide; intuition.
Qed.

Lemma sum_set_stack ss i v :
  occupied ss i = true → sumZ (stacks (set_stack i v ss)) = sumZ (stacks ss) - stack_at ss i + v.
Proof.
  intros H. rewrite stacks_set_stack, sumZ_insert, stack_at_stacks; [done| |done].
  rewrite stacks_length. by apply occupied_lt.
Qed.

Lemma funded_occupied ss i : funded ss i = true → occupied ss i = true.
Proof. unfold funded, occupied. by destruct (rd None ss i). Qed.

Lemma funded_stack ss i : funded ss i = (occupied ss i && (0 <? stack_at ss i)).
Proof. unfold funded, occupied, stack_at. by destruct (rd None ss i). Qed.

(** ** The nine seats *)

Lemma In_seats9 i : In i seats9 ↔ (i < 9)%nat.
Proof. unfold seats9. rewrite in_seq. lia. Qed.

Lemma fold_sum9 (l : list Z) : length l = 9%nat → fold_left (λ acc i, acc + rd 0 l i) seats9 0 = sumZ l.
Proof.
  intros H. do 9 (destruct l as [|? l]; [done|]). destruct l; [|done].
  unfold seats9. simpl. unfold rd. simpl. repeat rewrite sumZ_cons. rewrite sumZ_nil. lia.
Qed.

Lemma clockwise_lt from s : -1 <= from → In s (clockwise from) → (s < 9)%nat.
Proof.
  intros Hf H. unfold clockwise in H. apply in_map_iff in H as (o & <- & Ho). apply in_seq in Ho.
  rewrite Z.rem_mod_nonneg by lia. pose proof (Z.mod_pos_bound (from + Z.of_nat o) 9 ltac:(lia)). lia.
Qed.

Lemma clockwise_all from s : -1 <= from → (s < 9)%nat → In s (clockwise from).
Proof.
  intros Hf Hs. unfold clockwise. apply in_map_iff.
  set (o := (Z.of_nat s - from - 1) mod 9 + 1).
  pose proof (Z.mod_pos_bound (Z.of_nat s - from - 1) 9 ltac:(lia)) as Ho.
  exists (Z.to_nat o). split; [|apply in_seq; unfold o; lia].
  rewrite Z2Nat.id by (unfold o; lia). rewrite Z.rem_mod_nonneg by (unfold o; lia).
  unfold o. replace (from + ((Z.of_nat s - from - 1) mod 9 + 1)) with ((Z.of_nat s - from - 1) mod 9 + (from + 1)) by lia.
  rewrite Z.add_mod_idemp_l by lia. replace (Z.of_nat s - from - 1 + (from + 1)) with (Z.of_nat s) by lia.
  rewrite Z.mod_small by lia. lia.
Qed.

Lemma nextOccupiedSeat_occ ss from i :
  occupied ss i = true → (i < 9)%nat → occupied ss (nextOccupiedSeat ss from) = true ∧ (nextOccupiedSeat ss from < 9)%nat.
Proof.
  intros Ho Hi. unfold nextOccupiedSeat. destruct (List.find _ _) eqn:E.
  - apply List.find_some in E as [Hin ?]. split; [done|]. eapply clockwise_lt; [|done]. lia.
  - eapply List.find_none in E; [|apply (clockwise_all _ i); [lia|done]]. congruence.
Qed.

(** [nextActiveInHand] looks for a seat that [needsToAct]. *)
Lemma nextActive_spec h from :
  nextActiveInHand h from = List.find (needsToAct h) (clockwise from).
Proof.
  unfold nextActiveInHand. induction (clockwise from) as [|s l IH]; simpl; [done|]. rewrite IH.
  unfold needsToAct at 1 3. by destruct (rd false (inHand h) s), (rd false (folded h) s), (rd false (allIn h) s).
Qed.

Lemma nextActive_some h from s :
  -1 <= from → nextActiveInHand h from = Some s → (s < 9)%nat ∧ needsToAct h s = true.
Proof.
  rewrite nextActive_spec. intros Hf E. apply List.find_some in E as [Hin Hn].
  split; [by eapply clockwise_lt|done].
Qed.

Lemma nextActive_exists h from i :
  -1 <= from → (i < 9)%nat → needsToAct h i = true → ∃ s, nextActiveInHand h from = Some s.
Proof.
  rewrite nextActive_spec. intros Hf Hi Hn. destruct (List.find _ _) eqn:E; [eauto|].
  eapply List.find_none in E; [|by apply (clockwise_all from i)]. congruence.
Qed.

Lemma streetComplete_spec h : streetComplete h = forallb (λ i, negb (needsToAct h i)) seats9.
Proof.
  unfold streetComplete. induction seats9 as [|i l IH]; simpl; [done|]. rewrite IH. f_equal. unfold needsToAct.
  destruct (rd false (inHand h) i), (rd false (folded h) i), (rd false (allIn h) i); simpl; try done.
  by destruct (rd 0 (streetCommit h) i =? betTo h), (rd 0 (lastIntervalActed h) i =? intervalId h).
Qed.

Lemma streetComplete_false h :
  streetComplete h = false ↔ ∃ i, (i < 9)%nat ∧ needsToAct h i = true.
Proof.
  rewrite streetComplete_spec, <-not_true_iff_false, forallb_forall. split.
  - intros H. destruct (List.existsb (needsToAct h) seats9) eqn:E.
    + apply existsb_exists in E as (i & Hi & Hn). exists i. by rewrite <-In_seats9.
    + exfalso. apply H. intros i Hi. apply negb_true_iff. rewrite <-not_true_iff_false in E |- *.
      intros Hn. apply E, existsb_exists. eauto.
  - intros (i & Hi & Hn) H. specialize (H i (proj2 (In_seats9 i) Hi)). by rewrite Hn in H.
Qed.

(** ** The invariant *)

(** What holds of the seats and the hand in every phase. *)
Record hand_ok (ss : list (option SeatState)) (h : HandState) : Prop := {
  ok_seats : length ss = 9%nat;
  ok_len_last : length h.(lastIntervalActed) = 9%nat;
  ok_len_street : length h.(streetCommit) = 9%nat;
  ok_len_total : length h.(totalCommit) = 9%nat;
  ok_len_inHand : length h.(inHand) = 9%nat;
  ok_len_folded : length h.(folded) = 9%nat;
  ok_len_allIn : length h.(allIn) = 9%nat;
  ok_stack : ∀ i, 0 <= stack_at ss i;
  ok_commit : ∀ i, 0 <= rd 0 h.(streetCommit) i <= rd 0 h.(totalCommit) i;
  ok_betTo : 0 <= h.(betTo);
  ok_minRaise : 0 < h.(minRaiseSize);
  ok_acted : ∀ i, rd 0 h.(lastIntervalActed) i <= h.(intervalId);
  ok_inHand : ∀ i, rd false h.(inHand) i = true → occupied ss i = true
}.

(** While betting: a player is all in exactly when the stack is empty. *)
Definition allIn_ok (ss : list (option SeatState)) (h : HandState) : Prop :=
  ∀ i, rd false h.(inHand) i = true → (rd false h.(allIn) i = true ↔ stack_at ss i = 0).

(** While betting: somebody is to act, before a deadline, against at least
    one other player. *)
Definition turn_ok (h : HandState) : Prop :=
  (2 <= countNotFolded h)%nat ∧
  ∃ i d, (i < 9)%nat ∧ h.(actionOn) = Some i ∧ h.(actionDeadlineTs) = Some d ∧ needsToAct h i = true.

Definition eligible_seats (h : HandState) : list bool :=
  imap (λ i b, b && negb (rd false h.(folded) i)) h.(inHand).

(** What holds in each phase of a hand. *)
Definition phase_ok (ss : list (option SeatState)) (h : HandState) : Prop :=
  match h.(phase) with
  | betting => allIn_ok ss h ∧ turn_ok h
  | showdown => h.(actionOn) = None ∧ h.(pots) = computeSidePots h.(totalCommit) (eligible_seats h)
  | complete => h.(actionOn) = None ∧ h.(totalCommit) = replicate 9 0 ∧ is_Some h.(winnerSeat)
  | aborted => h.(actionOn) = None ∧ h.(pots) = []
  end.

Record wf_table (st : TableState) : Prop := {
  wf_blinds : 0 < st.(params).(smallBlind) < st.(params).(bigBlind);
  wf_timeout : 0 < st.(params).(actionTimeoutSecs);
  wf_seats : length st.(seats) = 9%nat;
  wf_stacks : ∀ i, 0 <= stack_at st.(seats) i;
  wf_hand : ∀ h, st.(hand) = Some h → hand_ok st.(seats) h ∧ phase_ok st.(seats) h
}.

(** Reads of updated arrays: split on the index. *)
Ltac rds :=
  repeat (cbn [set_phase set_street set_actionOn set_actionDeadlineTs set_betTo set_minRaiseSize set_intervalId
       set_lastIntervalActed set_streetCommit set_totalCommit set_folded set_allIn set_pots set_winnerSeat set_events
       push_event acted phase street h_button smallBlindSeat bigBlindSeat actionOn actionDeadlineTs betTo minRaiseSize
       intervalId lastIntervalActed streetCommit totalCommit inHand folded allIn pots winnerSeat events] in *;
     rewrite ?length_insert, ?length_replicate, ?set_stack_length, ?set_stack_occ, ?rd_insert in *);
  repeat case_decide.

Lemma occupied_in_hand_lt ss h i : hand_ok ss h → occupied ss i = true → (i < 9)%nat.
Proof. intros Hok Ho. rewrite <-(ok_seats _ _ Hok). by apply occupied_lt. Qed.

(** Only some fields of the hand matter. *)
Lemma hand_ok_ext ss h h' :
  h'.(lastIntervalActed) = h.(lastIntervalActed) → h'.(streetCommit) = h.(streetCommit) →
  h'.(totalCommit) = h.(totalCommit) → h'.(inHand) = h.(inHand) → h'.(folded) = h.(folded) → h'.(allIn) = h.(allIn) →
  h'.(betTo) = h.(betTo) → h'.(minRaiseSize) = h.(minRaiseSize) → h'.(intervalId) = h.(intervalId) →
  hand_ok ss h → hand_ok ss h'.
Proof. intros H1 H2 H3 H4 H5 H6 H7 H8 H9 []. constructor; rewrite ?H1, ?H2, ?H3, ?H4, ?H5, ?H6, ?H7, ?H8, ?H9; assumption. Qed.

Ltac hand_ext :=
  match goal with H : hand_ok ?ss ?h |- hand_ok ?ss _ => apply (hand_ok_ext ss h); [reflexivity..|exact H] end.

(** *** [commitChips] *)

Section commitChips.
Context (ss : list (option SeatState)) (h : HandState) (seat : nat) (pay : Z).
Context (Hok : hand_ok ss h) (Hocc : occupied ss seat = true) (Hpay : 0 <= pay <= stack_at ss seat).

Lemma commitChips_ok : hand_ok (commitChips ss h seat pay).1 (commitChips ss h seat pay).2.
Proof.
  pose proof (occupied_in_hand_lt _ _ _ Hok Hocc) as Hlt. unfold commitChips. cbn [fst snd].
  destruct Hok. case_goal; constructor; rds; try done; intros j;
    rewrite ?stack_at_set, ?set_stack_occ by done; rds;
    specialize (ok_stack0 j); specialize (ok_commit0 j); intuition (subst; auto; lia).
Qed.

Lemma commitChips_chips : chips (commitChips ss h seat pay).1 (commitChips ss h seat pay).2 = chips ss h.
Proof.
  pose proof (occupied_in_hand_lt _ _ _ Hok Hocc) as Hlt. unfold commitChips, chips. cbn [fst snd].
  rewrite sum_set_stack by done. destruct Hok. case_goal; rds; rewrite sumZ_insert; lia.
Qed.

Lemma commitChips_allIn : allIn_ok ss h → allIn_ok (commitChips ss h seat pay).1 (commitChips ss h seat pay).2.
Proof.
  pose proof (occupied_in_hand_lt _ _ _ Hok Hocc) as Hlt. destruct Hok.
  intros Hall j Hj. unfold commitChips in *. cbn [fst snd] in *.
  rewrite !stack_at_set in * by done. rewrite (decide_True (P := seat = seat)) in * by done.
  destruct (stack_at ss seat - pay =? 0) eqn:E; b2p; rds; subst;
    specialize (Hall j Hj); intuition (try done; try lia).
Qed.
End commitChips.

(** *** Returning the uncalled part of a bet *)

Lemma secondMax_nonneg h m : 0 <= secondMaxCommitThisStreet h m.
Proof.
  unfold secondMaxCommitThisStreet. generalize seats9. intros l.
  assert (H : ∀ s, 0 <= s → 0 <= fold_left (λ s i, let v := rd 0 (streetCommit h) i in
    if v =? m then s else if s <? v then v else s) l s); [|by apply H].
  induction l as [|i l IH]; intros s Hs; simpl; [done|]. apply IH. repeat case_goal; b2p; lia.
Qed.

Lemma uniqueMaxSeat_spec h m i :
  uniqueMaxSeat h m = Some i → (i < 9)%nat ∧ rd 0 h.(streetCommit) i = m.
Proof.
  unfold uniqueMaxSeat. destruct (List.filter _ _) as [|j [|]] eqn:E; try done. intros [= ->].
  assert (H : In i (List.filter (λ i, rd 0 (streetCommit h) i =? m) seats9)) by (rewrite E; by left).
  apply filter_In in H as [Hi Hm]. b2p. by rewrite In_seats9 in Hi.
Qed.

(** What [returnUncalledStreetExcess] does when it does anything. *)
Lemma returnUncalled_cases ss h :
  returnUncalledStreetExcess ss h = (ss, h) ∨
  ∃ i x, (i < 9)%nat ∧ occupied ss i = true ∧ 0 < x <= rd 0 h.(streetCommit) i ∧
    let ss' := set_stack i (stack_at ss i + x) ss in
    let h' := set_totalCommit (<[i := rd 0 h.(totalCommit) i - x]> h.(totalCommit))
               (set_streetCommit (<[i := rd 0 h.(streetCommit) i - x]> h.(streetCommit)) h) in
    returnUncalledStreetExcess ss h =
      (ss', if 0 <? stack_at ss i + x then set_allIn (<[i := false]> h.(allIn)) h' else h').
Proof.
  unfold returnUncalledStreetExcess. pose proof (secondMax_nonneg h (maxCommitThisStreet h)) as Hs.
  destruct (maxCommitThisStreet h =? 0) eqn:E0; [by left|].
  destruct (secondMaxCommitThisStreet h (maxCommitThisStreet h) =? _) eqn:E1; [by left|].
  destruct (uniqueMaxSeat h (maxCommitThisStreet h)) as [i|] eqn:Hi; [|by left].
  destruct (_ <=? 0) eqn:E2; [by left|]. destruct (negb (occupied ss i)) eqn:E3; [by left|].
  right. apply uniqueMaxSeat_spec in Hi as [Hi Hm]. b2p. eexists i, _.
  split; [done|]. split; [done|]. split; [|by cbn zeta; rewrite stack_at_set, decide_True by done].
  lia.
Qed.

Section returnUncalled.
Context (ss : list (option SeatState)) (h : HandState) (Hok : hand_ok ss h).

Lemma returnUncalled_ok :
  hand_ok (returnUncalledStreetExcess ss h).1 (returnUncalledStreetExcess ss h).2.
Proof.
  destruct (returnUncalled_cases ss h) as [->|(i & x & Hi & Ho & Hx & ->)]; [done|].
  cbn zeta. cbn [fst snd]. destruct Hok.
  case_goal; constructor; rds; try done; intros j; rewrite ?stack_at_set by done; rds;
    specialize (ok_stack0 j); specialize (ok_commit0 j); intuition (subst; auto; lia).
Qed.

Lemma returnUncalled_chips :
  chips (returnUncalledStreetExcess ss h).1 (returnUncalledStreetExcess ss h).2 = chips ss h.
Proof.
  destruct (returnUncalled_cases ss h) as [->|(i & x & Hi & Ho & Hx & ->)]; [done|].
  cbn zeta. cbn [fst snd]. destruct Hok. unfold chips. rewrite sum_set_stack by done.
  case_goal; rds; rewrite sumZ_insert; lia.
Qed.

Lemma returnUncalled_allIn :
  allIn_ok ss h → allIn_ok (returnUncalledStreetExcess ss h).1 (returnUncalledStreetExcess ss h).2.
Proof.
  destruct (returnUncalled_cases ss h) as [->|(i & x & Hi & Ho & Hx & ->)]; [done|].
  cbn zeta. cbn [fst snd]. destruct Hok. intros Hall j Hj. rewrite stack_at_set by done.
  pose proof (ok_stack0 i). rewrite (proj2 (Z.ltb_lt 0 (stack_at ss i + x))) in * by lia.
  rds; subst; specialize (Hall j Hj); intuition (try done; try lia).
Qed.

(** Only commitments, stacks and all-in flags are touched. *)
Lemma returnUncalled_frame (h' := (returnUncalledStreetExcess ss h).2) :
  h'.(phase) = h.(phase) ∧ h'.(street) = h.(street) ∧ h'.(h_button) = h.(h_button) ∧
  h'.(inHand) = h.(inHand) ∧ h'.(folded) = h.(folded) ∧ h'.(winnerSeat) = h.(winnerSeat).
Proof.
  subst h'. destruct (returnUncalled_cases ss h) as [->|(i & x & Hi & Ho & Hx & ->)]; [done|].
  cbn zeta. cbn [fst snd]. by case_goal.
Qed.

Lemma returnUncalled_occ j : occupied (returnUncalledStreetExcess ss h).1 j = occupied ss j.
Proof.
  destruct (returnUncalled_cases ss h) as [->|(i & x & Hi & Ho & Hx & ->)]; [done|].
  cbn [fst]. apply set_stack_occ.
Qed.
End returnUncalled.

(** *** Moving on after an action *)

Lemma filter_nonempty {A} (f : A → bool) (l : list A) :
  (1 <= length (List.filter f l))%nat → ∃ x, In x l ∧ f x = true.
Proof.
  destruct (List.filter f l) as [|x k] eqn:E; simpl; [lia|]. intros _. exists x.
  apply filter_In. rewrite E. by left.
Qed.

Section advance.
Context (p : TableParams) (Hbb : 0 < p.(bigBlind)).

Lemma advanceStreet_ok ss h now : hand_ok ss h → hand_ok ss (advanceStreet p ss h now).
Proof.
  intros []. unfold advanceStreet. constructor; rds; try done; try lia; intros j; specialize (ok_commit0 j).
  - unfold rd in *. destruct (replicate 9 0 !! j) eqn:E; simpl; [apply lookup_replicate in E as [-> _]|]; lia.
  - unfold rd in *. destruct (replicate 9 (-1) !! j) eqn:E; simpl; [apply lookup_replicate in E as [-> _]|]; lia.
Qed.

Lemma advanceStreet_turn ss h now :
  hand_ok ss h → allIn_ok ss h → (2 <= countNotFolded h)%nat → (2 <= countWithChips h ss)%nat →
  turn_ok (advanceStreet p ss h now).
Proof.
  intros Hok Hall Hn Hc. split; [exact Hn|].
  destruct (filter_nonempty _ _ (Nat.le_trans _ _ _ (Nat.le_succ_diag_r 1) Hc)) as (i & Hi & Hf).
  destruct (rd false (inHand h) i) eqn:Hin; [|done]. destruct (rd false (folded h) i) eqn:Hfo; [done|]. simpl in Hf.
  apply In_seats9 in Hi. rewrite funded_stack in Hf. b2p.
  destruct (rd false (allIn h) i) eqn:Hai; [apply (Hall i Hin) in Hai; lia|].
  unfold advanceStreet. cbv zeta.
  match goal with |- context [nextActiveInHand ?h0 ?from] =>
    destruct (nextActive_exists h0 from i) as [s Hs]; [lia|done| |] end.
  { unfold needsToAct. rds. rewrite Hin, Hfo, Hai. cbn [negb]. by rewrite !rd_replicate by done. }
  pose proof Hs as Hs'. apply nextActive_some in Hs' as [Hs9 Hns]; [|lia]. rds. rewrite Hs. cbn [deadline].
  exists s, (now + actionTimeoutSecs p). by repeat split.
Qed.

Lemma reachShowdown_ok ss h : hand_ok ss h → hand_ok ss (reachShowdown h) ∧ phase_ok ss (reachShowdown h).
Proof.
  intros Hok. split; [by hand_ext|]. unfold phase_ok.
  replace (phase (reachShowdown h)) with showdown by reflexivity. split; reflexivity.
Qed.

Lemma completeByFolds_ok ss h :
  hand_ok ss h → (1 <= countNotFolded h)%nat →
  hand_ok (completeByFolds ss h).1 (completeByFolds ss h).2 ∧ phase_ok (completeByFolds ss h).1 (completeByFolds ss h).2.
Proof.
  intros Hok Hn. unfold completeByFolds. destruct (List.find _ _) as [w|] eqn:Ew.
  2:{ destruct (filter_nonempty _ _ Hn) as (i & Hi & Hf). eapply List.find_none in Ew; [|exact Hi]. simpl in Ew. congruence. }
  apply List.find_some in Ew as [Hw Hf]. b2p. apply In_seats9 in Hw.
  pose proof (returnUncalled_ok ss h Hok) as Hok'. pose proof (returnUncalled_occ ss h w) as Hocc.
  rewrite (ok_inHand _ _ Hok w) in Hocc by done.
  destruct (returnUncalledStreetExcess ss h) as [ss' h'] eqn:Er. cbn [fst snd] in *. rewrite Hocc. cbn [negb fst snd].
  rewrite fold_sum9 by apply Hok'.
  assert (Hpos : 0 <= sumZ (totalCommit h')).
  { apply sumZ_nonneg, Forall_lookup. intros i x Hx. pose proof (ok_commit _ _ Hok' i) as Hc.
    rewrite (rd_lookup 0 (totalCommit h') i x Hx) in Hc. lia. }
  destruct Hok'. split; [|by unfold phase_ok; simpl; eauto].
  constructor; rds; try done; intros j; rewrite ?stack_at_set by done; rds; try (by auto);
    specialize (ok_stack0 j); try (subst; lia).
  unfold rd in *. destruct (replicate 9 0 !! j) eqn:E; simpl; [apply lookup_replicate in E as [-> _]|]; lia.
Qed.

Lemma completeByFolds_chips ss h : hand_ok ss h → chips (completeByFolds ss h).1 (completeByFolds ss h).2 = chips ss h.
Proof.
  intros Hok. unfold completeByFolds. destruct (List.find _ _) as [w|]; [|done].
  pose proof (returnUncalled_ok ss h Hok) as Hok'. rewrite <-(returnUncalled_chips ss h Hok).
  destruct (returnUncalledStreetExcess ss h) as [ss' h']. cbn [fst snd] in *.
  destruct (occupied ss' w) eqn:Ho; cbn [negb fst snd]; [|done]. rewrite fold_sum9 by apply Hok'.
  unfold chips. rds. rewrite sum_set_stack by done. rewrite sumZ_replicate. lia.
Qed.

(** The hand after an action: still consistent, in one of the four phases. *)
Lemma maybeAdvance_ok ss h now :
  hand_ok ss h → allIn_ok ss h → h.(phase) = betting → (1 <= countNotFolded h)%nat →
  hand_ok (maybeAdvance p ss h now).1 (maybeAdvance p ss h now).2 ∧
  phase_ok (maybeAdvance p ss h now).1 (maybeAdvance p ss h now).2.
Proof.
  intros Hok Hall Hph Hn. unfold maybeAdvance.
  destruct (countNotFolded h <=? 1)%nat eqn:E1; [by apply completeByFolds_ok|]. b2p.
  destruct (streetComplete h) eqn:E2; simpl.
  - pose proof (returnUncalled_ok ss h Hok) as Hok'. pose proof (returnUncalled_allIn ss h Hok Hall) as Hall'.
    destruct (returnUncalled_frame ss h) as (Hp & _ & _ & Hi & Hf & _).
    destruct (returnUncalledStreetExcess ss h) as [ss' h']. cbn [fst snd] in *.
    case_goal; [by apply reachShowdown_ok|]. case_goal; [by apply reachShowdown_ok|]. b2p.
    split; [by apply advanceStreet_ok|]. unfold phase_ok. cbn [fst snd].
    replace (phase (advanceStreet p ss' h' now)) with betting by (symmetry; exact (eq_trans Hp Hph)).
    split; [exact Hall'|]. apply advanceStreet_turn; try done.
    unfold countNotFolded. rewrite Hi, Hf. done.
  - apply streetComplete_false in E2 as (i & Hi & Hni).
    destruct (nextActive_exists h (Z.of_nat (default 0%nat (actionOn h))) i) as [s Hs]; [lia|done|done|].
    rewrite Hs. split; [by hand_ext|].
    apply nextActive_some in Hs as [Hs9 Hns]; [|lia].
    unfold phase_ok. rds. rewrite Hph. split; [exact Hall|].
    split; [exact E1|]. exists s, (now + actionTimeoutSecs p). by repeat split.
Qed.

Lemma maybeAdvance_chips ss h now :
  hand_ok ss h → chips (maybeAdvance p ss h now).1 (maybeAdvance p ss h now).2 = chips ss h.
Proof.
  intros Hok. unfold maybeAdvance. destruct (_ <=? 1)%nat; [by apply completeByFolds_chips|].
  destruct (streetComplete h); simpl; [|done]. rewrite <-(returnUncalled_chips ss h Hok).
  destruct (returnUncalledStreetExcess ss h) as [ss' h']. by repeat case_goal.
Qed.
End advance.

(** ** The four actions *)

(** What each action leaves behind for [maybeAdvance]. *)
Record acted_ok (ss : list (option SeatState)) (h : HandState) (ss' : list (option SeatState)) (h' : HandState) : Prop := {
  act_hand : hand_ok ss' h';
  act_allIn : allIn_ok ss' h';
  act_phase : h'.(phase) = h.(phase);
  act_count : (countNotFolded h <= S (countNotFolded h'))%nat;
  act_chips : chips ss' h' = chips ss h
}.

Section actions.
Context (p : TableParams) (ss : list (option SeatState)) (h : HandState) (i : nat).
Context (Hbb : 0 < p.(bigBlind)) (Hok : hand_ok ss h) (Hall : allIn_ok ss h) (Hin : rd false h.(inHand) i = true).

Lemma seat_occ : occupied ss i = true.
Proof. by apply (ok_inHand _ _ Hok). Qed.

Lemma acted_hand_ok h0 : hand_ok ss h0 → hand_ok ss (acted i h0).
Proof.
  intros []. unfold acted. constructor; rds; try done. intros j. rds; [lia|]. apply ok_acted0.
Qed.

Lemma applyFold_ok : acted_ok ss h ss (applyFold h i).
Proof.
  unfold applyFold. split.
  - apply acted_hand_ok. destruct Hok. constructor; rds; done.
  - exact Hall.
  - done.
  - unfold countNotFolded. rds. apply (filter_length_pointwise _ _ i); [apply NoDup_seq|].
    intros j Hj. by rewrite rd_insert_ne.
  - done.
Qed.

Lemma applyCheck_ok h' : applyCheck h i = Ok h' → acted_ok ss h ss h'.
Proof.
  intros H. unfold applyCheck in H. inv_ok H. subst h'. split; [by apply acted_hand_ok|done|done|apply Nat.le_succ_diag_r|done].
Qed.

Lemma commitChips_frame ss0 h0 pay :
  (commitChips ss0 h0 i pay).2.(phase) = h0.(phase) ∧ countNotFolded (commitChips ss0 h0 i pay).2 = countNotFolded h0.
Proof. unfold commitChips. cbn [snd]. by case_goal. Qed.

Lemma applyCall_ok ss' h' : applyCall ss h i = Ok (ss', h') → acted_ok ss h ss' h'.
Proof.
  unfold applyCall. destruct (toCall h i =? 0); [done|]. cbn [throw_if rbind].
  set (pay := if toCall h i <=? stack_at ss i then toCall h i else stack_at ss i) in *.
  assert (Hpay : 0 <= pay <= stack_at ss i).
  { pose proof (ok_stack _ _ Hok i). subst pay. unfold toCall. repeat case_goal; b2p; lia. }
  pose proof (commitChips_ok ss h i pay Hok seat_occ Hpay) as H1.
  pose proof (commitChips_allIn ss h i pay Hok seat_occ Hpay Hall) as H2.
  pose proof (commitChips_chips ss h i pay Hok seat_occ) as H3.
  destruct (commitChips_frame ss h pay) as [H4 H5].
  destruct (commitChips ss h i pay) as [ss1 h1]. cbn [fst snd] in *. intros H. simplify_eq.
  split; [destruct H1; constructor; rds; try done; intros j; rds; [lia|auto]|exact H2|done|rewrite <-H5; apply Nat.le_succ_diag_r|done].
Qed.

(** The interval bookkeeping of a bet or raise. *)
Lemma bet_bookkeeping_ok interval minRaise bet :
  h.(intervalId) <= interval → 0 < minRaise → 0 <= bet →
  hand_ok ss (acted i (set_betTo bet (set_minRaiseSize minRaise (set_intervalId interval h)))).
Proof.
  intros. apply acted_hand_ok. destruct Hok. constructor; rds; try done.
  intros j. specialize (ok_acted0 j). lia.
Qed.

Lemma bet_commit_ok h0 amt :
  hand_ok ss h0 → allIn_ok ss h0 → h0.(phase) = h.(phase) → countNotFolded h0 = countNotFolded h →
  h0.(streetCommit) = h.(streetCommit) → h0.(totalCommit) = h.(totalCommit) → h0.(inHand) = h.(inHand) →
  rd 0 h.(streetCommit) i < amt <= rd 0 h.(streetCommit) i + stack_at ss i →
  acted_ok ss h (commitChips ss h0 i (amt - rd 0 h0.(streetCommit) i)).1
                (commitChips ss h0 i (amt - rd 0 h0.(streetCommit) i)).2.
Proof.
  intros Hok0 Hall0 Hp Hc Hs Ht Hi Hamt. rewrite Hs. set (pay := amt - _).
  assert (Hpay : 0 <= pay <= stack_at ss i) by lia.
  destruct (commitChips_frame ss h0 pay) as [H4 H5]. split.
  - apply commitChips_ok; [done|by apply seat_occ|done].
  - apply commitChips_allIn; [done|by apply seat_occ|done|done].
  - congruence.
  - rewrite H5, Hc. apply Nat.le_succ_diag_r.
  - rewrite commitChips_chips; [|done|by apply seat_occ]. unfold chips. by rewrite Ht.
Qed.

(** The three ways a bet is accepted. *)
Definition bet_accepted (amt : Z) (h0 : HandState) : Prop :=
  let isAllIn := amt = rd 0 h.(streetCommit) i + stack_at ss i in
  (h.(betTo) = 0 ∧ (p.(bigBlind) <= amt ∨ isAllIn) ∧
     h0 = acted i (set_betTo amt (set_minRaiseSize (Z.max amt p.(bigBlind)) (set_intervalId (h.(intervalId) + 1) h)))) ∨
  (h.(betTo) ≠ 0 ∧ amt - h.(betTo) < h.(minRaiseSize) ∧ isAllIn ∧
     h0 = acted i (set_betTo amt (set_minRaiseSize h.(minRaiseSize) (set_intervalId h.(intervalId) h)))) ∨
  (h.(betTo) ≠ 0 ∧ h.(minRaiseSize) <= amt - h.(betTo) ∧
     h0 = acted i (set_betTo amt (set_minRaiseSize (amt - h.(betTo)) (set_intervalId (h.(intervalId) + 1) h)))).

Lemma applyBetTo_inv amt r :
  applyBetTo p ss h i amt = Ok r ↔
  rd 0 h.(streetCommit) i < amt <= rd 0 h.(streetCommit) i + stack_at ss i ∧ h.(betTo) < amt ∧
  rd 0 h.(lastIntervalActed) i ≠ h.(intervalId) ∧
  ∃ h0, bet_accepted amt h0 ∧ r = commitChips ss h0 i (amt - rd 0 h0.(streetCommit) i).
Proof.
  clear Hbb Hok Hall Hin. unfold applyBetTo, validateRaiseAllowed, bet_accepted, rbind, throw_if. cbv zeta.
  destruct (amt <=? rd 0 (streetCommit h) i) eqn:E1; b2p; [by split; [|intros [? _]; lia]|].
  destruct (_ <? amt) eqn:E2; b2p; [by split; [|intros [? _]; lia]|].
  destruct (amt <=? betTo h) eqn:E3; b2p; [by split; [|intros (_ & ? & _); lia]|].
  destruct (_ =? intervalId h) eqn:E4; b2p; [by split; [|intros (_ & _ & ? & _)]|].
  assert (Hmr : set_intervalId (intervalId h) h = h) by by destruct h.
  destruct (betTo h =? 0) eqn:E5; b2p.
  - assert (Hmax : (if bigBlind p <=? amt then amt else bigBlind p) = Z.max amt (bigBlind p)) by (case_goal; b2p; lia).
    rewrite Hmax. destruct ((amt <? bigBlind p) && _) eqn:E6; b2p.
    + split; [done|]. intros (_ & _ & _ & h0 & [(_ & [?|?] & _)|[(? & _)|(? & _)]] & _); lia.
    + split.
      * intros [= <-]. do 3 (split; [lia|]). eexists. split; [left; split; [done|]; split; [|done]|done].
        apply andb_false_iff in E6 as [E6|E6]; b2p; [by left|by right].
      * intros (_ & _ & _ & h0 & [(_ & _ & ->)|[(? & _)|(? & _)]] & ->); [done|lia|lia].
  - destruct (_ <? minRaiseSize h) eqn:E6; b2p.
    + destruct (negb _) eqn:E7; b2p; split.
      * done.
      * intros (_ & _ & _ & h0 & [(? & _)|[(_ & _ & ? & _)|(_ & ? & _)]] & _); lia.
      * intros [= <-]. do 3 (split; [lia|]). eexists. split; [right; left; by repeat split|]. by destruct h.
      * intros (_ & _ & _ & h0 & [(? & _)|[(_ & _ & _ & ->)|(_ & ? & _)]] & ->); [lia|by destruct h|lia].
    + split.
      * intros [= <-]. do 3 (split; [lia|]). eexists. split; [right; right; by repeat split|done].
      * intros (_ & _ & _ & h0 & [(? & _)|[(_ & ? & _)|(_ & _ & ->)]] & ->); [lia|lia|done].
Qed.

Lemma applyBetTo_ok amt ss' h' : applyBetTo p ss h i amt = Ok (ss', h') → acted_ok ss h ss' h'.
Proof.
  intros (Hamt & Hbet & _ & h0 & Hacc & Heq)%applyBetTo_inv. pose proof (ok_commit _ _ Hok i).
  pose proof (ok_minRaise _ _ Hok). pose proof (ok_betTo _ _ Hok).
  replace ss' with (commitChips ss h0 i (amt - rd 0 (streetCommit h0) i)).1 by by rewrite <-Heq.
  replace h' with (commitChips ss h0 i (amt - rd 0 (streetCommit h0) i)).2 by by rewrite <-Heq.
  destruct Hacc as [(_ & _ & ->)|[(_ & _ & _ & ->)|(_ & ? & ->)]];
    (apply bet_commit_ok; [apply bet_bookkeeping_ok; lia|exact Hall|done..|lia]).
Qed.
End actions.

End EngineInv.
