(* ===== verification/PokerEngineProps.v ===== *)
(** * The exported operations of the betting engine

    Each operation keeps [wf_table] and moves the account of chips as
    [account_delta] says; [reachable] are the states a caller can reach. *)
From stdpp Require Import base option list strings sets.
From Stdlib Require Import ZArith Lia.
From S2P Require Import Prelude PokerPots PokerEngine PokerEngineInv.
Import Pots Engine EngineInv.

Module EngineProps.

(** ** Starting a hand *)

Lemma nextOccupiedSeat_ne ss from j :
  (from < 9)%nat → (j < 9)%nat → j ≠ from → occupied ss j = true → nextOccupiedSeat ss from ≠ from.
Proof.
  intros Hf Hj Hne Ho. unfold nextOccupiedSeat.
  assert (Hcw : ∃ l, clockwise (Z.of_nat from) = l ++ [from] ∧ ¬ In from l).
  { do 9 (destruct from as [|from]; [eexists [_; _; _; _; _; _; _; _]; split; [vm_compute; reflexivity|simpl; lia]|]). lia. }
  destruct Hcw as (l & Hl & Hnin).
  assert (Hjl : In j l).
  { pose proof (clockwise_all (Z.of_nat from) j ltac:(lia) Hj) as H. rewrite Hl, in_app_iff in H.
    destruct H as [H|[H|[]]]; [done|congruence]. }
  rewrite Hl. clear Hl. induction l as [|x l IH]; simpl in *; [done|].
  destruct (occupied ss x) eqn:Ex; [by intros ->; apply Hnin; left|].
  apply IH; [tauto|]. destruct Hjl as [->|]; [congruence|done].
Qed.

Lemma activeSeats_In ss i : In i (activeSeatsOf ss) ↔ (i < 9)%nat ∧ funded ss i = true.
Proof. unfold activeSeatsOf. by rewrite filter_In, In_seats9. Qed.

Lemma activeSeats_NoDup ss : NoDup (activeSeatsOf ss).
Proof. apply NoDup_ListNoDup, List.NoDup_filter, NoDup_ListNoDup, NoDup_seq. Qed.

(** Some funded seat other than [i]. *)
Lemma activeSeats_other ss i :
  (2 <= length (activeSeatsOf ss))%nat → ∃ j, (j < 9)%nat ∧ j ≠ i ∧ funded ss j = true.
Proof.
  intros H. pose proof (activeSeats_NoDup ss) as Hn. pose proof (activeSeats_In ss) as Hin.
  destruct (activeSeatsOf ss) as [|a [|b l]]; simpl in H; [lia|lia|].
  apply NoDup_cons in Hn as [Hn _]. apply not_elem_of_cons in Hn as [Hab _].
  destruct (decide (a = i)) as [->|].
  - exists b. destruct (proj1 (Hin b)) as [? ?]; [by right; left|]. done.
  - exists a. destruct (proj1 (Hin a)) as [? ?]; [by left|]. done.
Qed.

Lemma nextButton_funded ss prev :
  (2 <= length (activeSeatsOf ss))%nat →
  (nextButton ss prev (activeSeatsOf ss) < 9)%nat ∧ funded ss (nextButton ss prev (activeSeatsOf ss)) = true.
Proof.
  intros H. destruct (activeSeats_other ss 9 H) as (j & Hj & _ & Hf). unfold nextButton. destruct prev as [b|].
  - destruct (List.find _ _) eqn:E.
    + apply List.find_some in E as [Hin ?]. split; [|done]. apply in_map_iff in Hin as (o & <- & _).
      by apply Nat.mod_upper_bound.
    + eapply List.find_none in E; [exfalso; rewrite Hf in E; discriminate|].
      apply in_map_iff. exists ((j + 9 * (b + 1) - (b + 1)) mod 9)%nat. split.
      * rewrite Nat.Div0.add_mod_idemp_r. replace (b + 1 + (j + 9 * (b + 1) - (b + 1)))%nat with (j + (b + 1) * 9)%nat by lia.
        rewrite Nat.Div0.mod_add. by apply Nat.mod_small.
      * apply in_seq. pose proof (Nat.mod_upper_bound (j + 9 * (b + 1) - (b + 1)) 9 ltac:(lia)). lia.
  - pose proof (activeSeats_In ss) as Hin. destruct (activeSeatsOf ss) as [|a l]; simpl in H; [lia|].
    apply (Hin a). by left.
Qed.

(** Where the blinds go: two different occupied seats. *)
Section blinds.
Context (ss : list (option SeatState)) (prev : option nat) (Hlen : length ss = 9%nat).
Context (Hact : (2 <= length (activeSeatsOf ss))%nat).
Let btn := nextButton ss prev (activeSeatsOf ss).
Let sb := if (length (activeSeatsOf ss) =? 2)%nat then btn else nextOccupiedSeat ss btn.
Let bb := nextOccupiedSeat ss sb.

Lemma blind_seats : occupied ss sb = true ∧ occupied ss bb = true ∧ (sb < 9)%nat ∧ (bb < 9)%nat ∧ sb ≠ bb.
Proof.
  destruct (nextButton_funded ss prev Hact) as [Hb9 Hbf]. fold btn in Hb9, Hbf. apply funded_occupied in Hbf.
  assert (Hsb : occupied ss sb = true ∧ (sb < 9)%nat).
  { subst sb. destruct (_ =? 2)%nat; [done|]. by apply (nextOccupiedSeat_occ ss btn btn). }
  destruct Hsb as [Hso Hs9]. destruct (nextOccupiedSeat_occ ss sb btn) as [Hbo Hb]; [done|done|].
  destruct (activeSeats_other ss sb Hact) as (j & Hj & Hne & Hf). apply funded_occupied in Hf.
  repeat split; try done. apply not_eq_sym. by apply (nextOccupiedSeat_ne ss sb j).
Qed.
End blinds.

(** The hand [startHand] deals, before it looks for the first player to act. *)
Definition freshHand (hid : Z) (btn sb bb : nat) (sbPay bbPay minRaise : Z) (inh ai : list bool) : HandState :=
  mkHand hid betting preflop btn sb bb None None bbPay minRaise 0 (replicate 9 (-1))
    (<[bb := bbPay]> (<[sb := sbPay]> (replicate 9 0))) (<[bb := bbPay]> (<[sb := sbPay]> (replicate 9 0)))
    inh (replicate 9 false) ai [] None [HandStarted hid btn sb bb].

Definition postedSeats (ss : list (option SeatState)) (sb bb : nat) (sbPay bbPay : Z) : list (option SeatState) :=
  set_stack bb (stack_at ss bb - bbPay) (set_stack sb (stack_at ss sb - sbPay) ss).

Definition postedAllIn (ss : list (option SeatState)) (sb bb : nat) : list bool :=
  let ai := if stack_at ss sb =? 0 then <[sb := true]> (replicate 9 false) else replicate 9 false in
  if stack_at ss bb =? 0 then <[bb := true]> ai else ai.

(** [startHand] in one equation, with the blinds on two different seats. *)
Lemma startHand_inv st now st' :
  startHand st now = Ok st' →
  ∃ t btn sb bb, let p := st.(params) in let ss := st.(seats) in
    let sbPay := blindPay ss sb p.(smallBlind) in let bbPay := blindPay ss bb p.(bigBlind) in
    let ss' := postedSeats ss sb bb sbPay bbPay in
    let h0 := freshHand st.(nextHandId) btn sb bb sbPay bbPay p.(bigBlind) (map (funded ss) seats9) (postedAllIn ss' sb bb) in
    let on := nextActiveInHand h0 (Z.of_nat bb) in
    let h1 := set_actionDeadlineTs (deadline p on t) (set_actionOn on h0) in
    now = Int t ∧ 0 <= t ∧ length ss = 9%nat ∧ (2 <= length (activeSeatsOf ss))%nat ∧
    occupied ss sb = true ∧ occupied ss bb = true ∧ (sb < 9)%nat ∧ (bb < 9)%nat ∧ sb ≠ bb ∧
    st' = mkTable p ss' (Some btn) (st.(nextHandId) + 1) (Some (match on with None => reachShowdown h1 | Some _ => h1 end)).
Proof.
  unfold startHand, assertIntTimestamp, seatCount9. destruct now as [t|]; [|done].
  destruct (t <? 0) eqn:Et; [done|]. cbn [rbind throw_if].
  destruct (length (seats st) =? 9)%nat eqn:Hl; [|done]. cbn [rbind throw_if negb].
  destruct (_ <? 2)%nat eqn:Ha; [done|]. cbn [rbind throw_if]. b2p.
  destruct (blind_seats (seats st) (button st) Ha) as (Hso & Hbo & Hs9 & Hb9 & Hne).
  set (btn := nextButton (seats st) (button st) (activeSeatsOf (seats st))) in *.
  set (sb := if (length (activeSeatsOf (seats st)) =? 2)%nat then btn else nextOccupiedSeat (seats st) btn) in *.
  set (bb := nextOccupiedSeat (seats st) sb) in *. intros Heq%Ok_inj. rewrite <-Heq. clear Heq.
  exists t, btn, sb, bb. cbv zeta. do 9 (split; [done|]).
  unfold postedSeats, postedAllIn, freshHand, push_event. cbn [set_events events app].
  rewrite (stack_at_set (seats st) sb _ bb), decide_False by done.
  rewrite (rd_insert_ne 0 (replicate 9 0) sb bb) by done. rewrite !rd_replicate by done. rewrite !Z.add_0_l. done.
Qed.

Section posted.
Context (ss : list (option SeatState)) (sb bb : nat) (sbPay bbPay : Z).
Context (Hlen : length ss = 9%nat) (Hst : ∀ i, 0 <= stack_at ss i).
Context (Hso : occupied ss sb = true) (Hbo : occupied ss bb = true) (Hs9 : (sb < 9)%nat) (Hb9 : (bb < 9)%nat) (Hne : sb ≠ bb).
Context (Hsp : 0 <= sbPay <= stack_at ss sb) (Hbp : 0 <= bbPay <= stack_at ss bb).
Let ss' := postedSeats ss sb bb sbPay bbPay.

Lemma posted_stack j :
  stack_at ss' j = if decide (bb = j) then stack_at ss bb - bbPay
                   else if decide (sb = j) then stack_at ss sb - sbPay else stack_at ss j.
Proof. subst ss'. unfold postedSeats. rewrite !stack_at_set; [done|done|by rewrite set_stack_occ]. Qed.

Lemma posted_occ j : occupied ss' j = occupied ss j.
Proof. subst ss'. unfold postedSeats. by rewrite !set_stack_occ. Qed.

Lemma posted_allIn j : (j < 9)%nat →
  rd false (postedAllIn ss' sb bb) j = true ↔ (j = sb ∨ j = bb) ∧ stack_at ss' j = 0.
Proof.
  intros Hj. unfold postedAllIn. destruct (stack_at ss' sb =? 0) eqn:E1, (stack_at ss' bb =? 0) eqn:E2; b2p;
    rewrite ?rd_insert, ?length_insert, ?length_replicate; repeat case_decide; rewrite ?rd_replicate by done;
    intuition (subst; try done; try lia).
Qed.

Lemma posted_sum : sumZ (stacks ss') = sumZ (stacks ss) - sbPay - bbPay.
Proof.
  subst ss'. unfold postedSeats. rewrite sum_set_stack by by rewrite set_stack_occ.
  rewrite sum_set_stack by done. rewrite stack_at_set, decide_False by done. lia.
Qed.

Lemma posted_commits : sumZ (<[bb := bbPay]> (<[sb := sbPay]> (replicate 9 0))) = sbPay + bbPay.
Proof.
  rewrite !sumZ_insert by (rewrite ?length_insert, length_replicate; lia).
  rewrite rd_insert_ne, !rd_replicate, sumZ_replicate by done. lia.
Qed.

Lemma posted_commit_nonneg j : 0 <= rd 0 (<[bb := bbPay]> (<[sb := sbPay]> (replicate 9 0))) j.
Proof.
  rewrite !rd_insert. repeat case_decide; try lia.
  unfold rd. destruct (replicate 9 0 !! j) eqn:E; simpl; [apply lookup_replicate in E as [-> _]|]; lia.
Qed.
End posted.

Lemma rd_map_seats9 (f : nat → bool) i : rd false (map f seats9) i = (bool_decide (i < 9)%nat && f i).
Proof.
  case_bool_decide as H.
  - unfold rd. change (map f seats9) with (f <$> seats9). rewrite list_lookup_fmap. unfold seats9.
    by rewrite lookup_seq_lt.
  - unfold rd. rewrite lookup_ge_None_2; [done|]. simpl. lia.
Qed.

Lemma blindPay_bounds ss i b : 0 <= stack_at ss i → 0 < b → 0 <= blindPay ss i b <= stack_at ss i.
Proof. unfold blindPay. case_goal; b2p; lia. Qed.

Lemma startHand_wf_chips st now st' :
  wf_table st → startHand st now = Ok st' →
  wf_table st' ∧ ∃ h', st'.(hand) = Some h' ∧ chips st'.(seats) h' = sumZ (stacks st.(seats)).
Proof.
  intros [Hbl Hto Hlen Hst _] H. apply startHand_inv in H as (t & btn & sb & bb & H). cbv zeta in H.
  destruct H as (-> & Ht & _ & Hact & Hso & Hbo & Hs9 & Hb9 & Hne & ->).
  pose proof (blindPay_bounds (seats st) sb (smallBlind (params st)) (Hst sb) ltac:(lia)) as Hsp.
  pose proof (blindPay_bounds (seats st) bb (bigBlind (params st)) (Hst bb) ltac:(lia)) as Hbp.
  set (sbPay := blindPay (seats st) sb _) in *. set (bbPay := blindPay (seats st) bb _) in *.
  set (ss' := postedSeats _ _ _ _ _). set (h0 := freshHand _ _ _ _ _ _ _ _ _).
  pose proof (posted_stack (seats st) sb bb sbPay bbPay Hso Hbo) as Hstk. fold ss' in Hstk.
  pose proof (posted_allIn (seats st) sb bb sbPay bbPay Hlen Hso Hbo Hs9 Hb9 Hne Hsp Hbp) as Hai. fold ss' in Hai.
  pose proof (posted_occ (seats st) sb bb sbPay bbPay) as Hocc. fold ss' in Hocc.
  pose proof (posted_sum (seats st) sb bb sbPay bbPay Hlen Hso Hbo Hs9 Hb9 Hne) as Hsum. fold ss' in Hsum.
  assert (Hnn : ∀ i, 0 <= stack_at ss' i) by (intros i; rewrite Hstk; specialize (Hst i); repeat case_decide; lia).
  assert (Hl' : length ss' = 9%nat) by (unfold ss', postedSeats; by rewrite !set_stack_length).
  assert (Hok0 : hand_ok ss' h0).
  { constructor; try done; unfold h0, freshHand, postedAllIn; rds; try done; try lia.
    - by repeat case_goal; rewrite ?length_insert, ?length_replicate.
    - intros j. pose proof (posted_commit_nonneg (seats st) sb bb sbPay bbPay Hlen Hs9 Hb9 Hne Hsp Hbp j). rewrite !rd_insert in *. lia.
    - intros j. unfold rd. destruct (replicate 9 (-1) !! j) eqn:E; simpl; [apply lookup_replicate in E as [-> _]|]; lia.
    - intros j Hj. rewrite rd_map_seats9 in Hj. b2p. rewrite Hocc. by apply funded_occupied. }
  assert (Hall0 : allIn_ok ss' h0).
  { intros j Hj. unfold h0, freshHand in *. cbn [inHand allIn] in *. rewrite rd_map_seats9, funded_stack in Hj.
    apply andb_true_iff in Hj as [Hj Hf]. apply bool_decide_eq_true in Hj. b2p. rewrite Hai by done.
    split; [tauto|]. intros Hz. split; [|done]. rewrite Hstk in Hz. repeat case_decide; subst; auto; lia. }
  assert (Hcount : (2 <= countNotFolded h0)%nat).
  { unfold countNotFolded, h0, freshHand. cbn [inHand folded]. etrans; [exact Hact|]. unfold activeSeatsOf.
    rewrite (List.filter_ext_in (funded (seats st)) (λ i, rd false (map (funded (seats st)) seats9) i &&
               negb (rd false (replicate 9 false) i)) seats9); [done|].
    intros i Hi%In_seats9. rewrite rd_map_seats9, rd_replicate by done. rewrite bool_decide_true by done.
    by destruct (funded _ i). }
  assert (Hchips : chips ss' h0 = sumZ (stacks (seats st))).
  { unfold chips. rewrite Hsum. unfold h0, freshHand. cbn [totalCommit].
    rewrite (posted_commits (seats st) sb bb sbPay bbPay Hlen Hs9 Hb9 Hne). lia. }
  destruct (nextActiveInHand h0 (Z.of_nat bb)) as [i|] eqn:Hon.
  - split; [|eexists; split; [done|exact Hchips]].
    constructor; cbn [params seats hand]; try done. intros h [= <-].
    split; [by hand_ext|].
    apply nextActive_some in Hon as [Hi9 Hni]; [|lia].
    unfold phase_ok. rds. split; [exact Hall0|]. split; [exact Hcount|].
    exists i, (t + actionTimeoutSecs (params st)). by repeat split.
  - split; [|eexists; split; [done|exact Hchips]].
    constructor; cbn [params seats hand]; try done. intros h [= <-].
    apply reachShowdown_ok. by hand_ext.
Qed.

(** ** The exported operations *)

(** [totalChipsOnTable] is the sum of the stacks and of the escrow. *)
Definition escrow (st : TableState) : Z :=
  match st.(hand) with Some h => sumZ h.(totalCommit) | None => 0 end.

Lemma totalChips_spec st :
  wf_table st → totalChipsOnTable st = sumZ (stacks st.(seats)) + escrow st.
Proof.
  intros Hwf. unfold totalChipsOnTable, escrow, stacks. f_equal. destruct (hand st) as [h|] eqn:Hh; [|done].
  apply fold_sum9. by apply (wf_hand _ Hwf).
Qed.

Lemma createTableState_wf p st :
  createTableState p = Ok st → wf_table st ∧ st.(hand) = None ∧ sumZ (stacks st.(seats)) = 0.
Proof.
  unfold createTableState. intros H. inv_ok H. subst st. b2p.
  split; [|done]. constructor; cbn [params seats hand smallBlind bigBlind actionTimeoutSecs];
    [lia|lia|done| |done]. intros i. by do 9 (destruct i as [|i]; [done|]).
Qed.

Lemma sit_wf st seat pl k st' :
  wf_table st → sit st seat pl k = Ok st' →
  wf_table st' ∧ st'.(hand) = st.(hand) ∧ sumZ (stacks st'.(seats)) = sumZ (stacks st.(seats)) + k.
Proof.
  intros [Hbl Hto Hlen Hst Hh] H. unfold sit, seatCount9 in H. inv_ok H. subst st'. cbn [hand seats]. b2p.
  set (i := Z.to_nat seat) in *. assert (Hi : (i < 9)%nat) by lia.
  assert (Hocc : ∀ j, occupied (<[i:=Some (mkSeat seated pl k)]> (seats st)) j = if decide (i = j) then true else occupied (seats st) j).
  { intros j. unfold occupied at 1. rewrite rd_insert. repeat case_decide; try done; intuition lia. }
  assert (Hstk : ∀ j, stack_at (<[i:=Some (mkSeat seated pl k)]> (seats st)) j = if decide (i = j) then k else stack_at (seats st) j).
  { intros j. unfold stack_at at 1. rewrite rd_insert. repeat case_decide; try done; intuition lia. }
  assert (Hin : ∀ h, hand st = Some h → ∀ j, rd false (inHand h) j = true → i ≠ j).
  { intros h Heq j Hj ->. destruct (Hh h Heq) as [Hok _]. apply (ok_inHand _ _ Hok) in Hj. congruence. }
  split; [|split; [done|]].
  - constructor; cbn [params seats hand]; [done|done|by rewrite length_insert| |].
    + intros j. rewrite Hstk. case_decide; [lia|done].
    + intros h Heq. destruct (Hh h Heq) as [Hok Hph]. specialize (Hin h Heq). split.
      * destruct Hok. constructor; try done; [by rewrite length_insert| |].
        -- intros j. rewrite Hstk. case_decide; [lia|done].
        -- intros j Hj. rewrite Hocc. case_decide; auto.
      * unfold phase_ok in *. destruct (phase h); try done. destruct Hph as [Hall Ht]. split; [|done].
        intros j Hj. rewrite Hstk, decide_False by auto. by apply Hall.
  - unfold stacks. rewrite list_fmap_insert, sumZ_insert by (rewrite length_fmap; lia). simpl.
    fold (stacks (seats st)). rewrite <-stack_at_stacks. unfold stack_at, occupied in *. by destruct (rd None (seats st) i); [|lia].
Qed.

(** The [switch] of [applyAction]. *)
Definition perform (p : TableParams) (ss : list (option SeatState)) (h : HandState) (i : nat) (a : Action)
  : res (list (option SeatState) * HandState) :=
  match a with
  | Fold _ => Ok (ss, applyFold h i)
  | Check_ _ => let! h := applyCheck h i in Ok (ss, h)
  | Call _ => applyCall ss h i
  | BetTo _ amt => applyBetTo p ss h i amt
  end.

Definition settle (st : TableState) (i : nat) (a : Action) (t : Z) (r : list (option SeatState) * HandState) : TableState :=
  let r' := maybeAdvance st.(params) r.1 (push_event (ActionApplied i a) r.2) t in
  mkTable st.(params) r'.1 st.(button) st.(nextHandId) (Some r'.2).

(** Once the guards have passed. *)
Lemma applyAction_on_turn st a t h i :
  length st.(seats) = 9%nat → 0 <= t → st.(hand) = Some h → h.(phase) = betting → (i < 9)%nat →
  action_seat a = Z.of_nat i → occupied st.(seats) i = true → h.(actionOn) = Some i → needsToAct h i = true →
  applyAction st a (Int t) = rmap (settle st i a t) (perform st.(params) st.(seats) h i a).
Proof.
  intros Hlen Ht Hh Hph Hi Ha Hocc Hon Hn. unfold applyAction, assertIntTimestamp, seatCount9.
  rewrite (proj2 (Z.ltb_ge t 0)) by done. cbn [rbind]. rewrite Hlen, Hh, Ha. cbn [Nat.eqb negb throw_if rbind].
  rewrite bool_decide_true by done. cbn [negb throw_if rbind].
  rewrite (proj2 (Z.ltb_ge (Z.of_nat i) 0)), (proj2 (Z.ltb_ge 8 (Z.of_nat i))) by lia. rewrite Nat2Z.id, Hocc.
  cbn [orb negb throw_if rbind]. unfold needsToAct in Hn.
  destruct (rd false (inHand h) i); [|done]. destruct (rd false (folded h) i); [done|].
  destruct (rd false (allIn h) i); [done|]. cbn [negb throw_if rbind].
  rewrite bool_decide_true by done. cbn [negb throw_if rbind].
  change (match a with Fold _ => _ | _ => _ end) with (perform (params st) (seats st) h i a).
  destruct (perform _ _ _ _ _) as [[ss1 h1]|e]; [|done]. cbn [rbind rmap]. unfold settle. cbn [fst snd].
  by destruct (maybeAdvance _ _ _ _).
Qed.

Lemma applyAction_inv st a now st' :
  applyAction st a now = Ok st' →
  ∃ t h i, now = Int t ∧ 0 <= t ∧ st.(hand) = Some h ∧ h.(phase) = betting ∧ (i < 9)%nat ∧
    action_seat a = Z.of_nat i ∧ occupied st.(seats) i = true ∧ rd false h.(inHand) i = true ∧ h.(actionOn) = Some i ∧
    ∃ r, perform st.(params) st.(seats) h i a = Ok r ∧ st' = settle st i a t r.
Proof.
  unfold applyAction, assertIntTimestamp, seatCount9. destruct now as [t|]; [|done].
  destruct (t <? 0) eqn:Et; [done|]. cbn [rbind throw_if].
  destruct (length (seats st) =? 9)%nat; [|done]. cbn [rbind throw_if negb].
  destruct (hand st) as [h|] eqn:Hh; [|done]. case_bool_decide as Hph; [|done]. cbn [rbind throw_if negb].
  destruct (_ || _) eqn:Es; [done|]. cbn [rbind throw_if]. set (i := Z.to_nat (action_seat a)).
  destruct (occupied (seats st) i) eqn:Ho; [|done]. cbn [rbind throw_if negb].
  destruct (rd false (inHand h) i) eqn:Hi; [|done]. cbn [rbind throw_if negb].
  destruct (rd false (folded h) i); [done|]. destruct (rd false (allIn h) i); [done|]. cbn [rbind throw_if negb].
  case_bool_decide as Hon; [|done]. cbn [rbind throw_if negb]. b2p.
  change (match a with Fold _ => _ | _ => _ end) with (perform (params st) (seats st) h i a).
  intros Hr. exists t, h, i. do 4 (split; [done|]). split; [lia|]. split; [lia|]. do 3 (split; [done|]).
  destruct (perform _ _ _ _ _) as [[ss1 h1]|e]; [|done]. exists (ss1, h1). split; [done|].
  cbn [rbind] in Hr. unfold settle. cbn [fst snd]. by destruct (maybeAdvance _ _ _ _); simplify_eq.
Qed.

Lemma perform_ok p ss h i a r :
  0 < p.(bigBlind) → hand_ok ss h → allIn_ok ss h → rd false h.(inHand) i = true →
  perform p ss h i a = Ok r → acted_ok ss h r.1 r.2.
Proof.
  intros Hbb Hok Hall Hin. destruct r as [ss' h']. cbn [fst snd]. destruct a; cbn [perform].
  - intros H. simplify_eq. by apply applyFold_ok.
  - unfold rbind. destruct (applyCheck h i) eqn:E; [|done]. intros H. simplify_eq. by eapply applyCheck_ok.
  - by apply applyCall_ok.
  - by apply (applyBetTo_ok p).
Qed.

Lemma applyAction_wf_chips st a now st' :
  wf_table st → applyAction st a now = Ok st' →
  wf_table st' ∧ sumZ (stacks st'.(seats)) + escrow st' = sumZ (stacks st.(seats)) + escrow st.
Proof.
  intros Hwf (t & h & i & -> & Ht & Hh & Hph & Hi & Ha & Ho & Hin & Hon & r & Hr & ->)%applyAction_inv.
  destruct (wf_hand _ Hwf h Hh) as [Hok Hpok]. unfold phase_ok in Hpok. rewrite Hph in Hpok.
  destruct Hpok as [Hall [Hn _]]. pose proof (wf_blinds _ Hwf).
  apply perform_ok in Hr as [H1 H2 H3 H4 H5]; [|lia|done..].
  set (h1 := push_event (ActionApplied i a) r.2).
  assert (Hok1 : hand_ok r.1 h1) by by hand_ext.
  assert (Hn1 : (1 <= countNotFolded h1)%nat) by (change (countNotFolded h1) with (countNotFolded r.2); lia).
  destruct (maybeAdvance_ok (params st) ltac:(lia) r.1 h1 t Hok1 H2 (eq_trans H3 Hph) Hn1) as [Hok2 Hph2].
  split.
  - destruct Hwf. constructor; cbn [settle params seats hand]; try done; [apply Hok2|apply Hok2|].
    by intros h' [= <-].
  - unfold escrow, settle. rewrite Hh. cbn [seats hand]. fold h1.
    pose proof (maybeAdvance_chips (params st) r.1 h1 t Hok1) as Hc. unfold chips in Hc.
    unfold chips in H5. rewrite Hc. exact H5.
Qed.

(** *** Aborting a hand *)

Definition refundable (p : TableParams) (ss : list (option SeatState)) (h : HandState) (i : nat) : bool :=
  occupied ss i &&
  (p.(refundBlindsOnAbort) || negb ((i =? h.(smallBlindSeat))%nat || (i =? h.(bigBlindSeat))%nat)).

Lemma refundSeat_cases p ss h i :
  refundSeat p (ss, h) i =
  if refundable p ss h i
  then (set_stack i (stack_at ss i + rd 0 h.(totalCommit) i) ss,
        set_streetCommit (<[i := 0]> h.(streetCommit)) (set_totalCommit (<[i := 0]> h.(totalCommit)) h))
  else (ss, h).
Proof.
  unfold refundSeat, refundable. destruct (occupied ss i); [|done]. simpl.
  by destruct (_ || _), (refundBlindsOnAbort p).
Qed.

Lemma refundSeat_ok p ss h i :
  hand_ok ss h → hand_ok (refundSeat p (ss, h) i).1 (refundSeat p (ss, h) i).2 ∧
                 chips (refundSeat p (ss, h) i).1 (refundSeat p (ss, h) i).2 = chips ss h.
Proof.
  intros Hok. rewrite refundSeat_cases. destruct (refundable p ss h i) eqn:E; [|done].
  unfold refundable in E. b2p. pose proof (occupied_in_hand_lt _ _ _ Hok H) as Hi. cbn [fst snd]. destruct Hok. split.
  - constructor; rds; try done; intros j; rewrite ?stack_at_set by done; rds;
      specialize (ok_stack0 j); specialize (ok_commit0 j); try (subst; lia); by auto.
  - unfold chips. rewrite sum_set_stack by done. rds. rewrite sumZ_insert; lia.
Qed.

(** The refund loop, seat by seat. *)
Lemma refund_loop p l ss h r :
  NoDup l → hand_ok ss h → r = fold_left (refundSeat p) l (ss, h) →
  hand_ok r.1 r.2 ∧ chips r.1 r.2 = chips ss h ∧
  ∀ i, let b := bool_decide (i ∈ l) && refundable p ss h i in
       stack_at r.1 i = stack_at ss i + (if b then rd 0 h.(totalCommit) i else 0) ∧
       rd 0 r.2.(totalCommit) i = (if b then 0 else rd 0 h.(totalCommit) i).
Proof.
  revert ss h r. induction l as [|j l IH]; intros ss h r Hn Hok ->; cbv zeta.
  { do 2 (split; [done|]). intros i. rewrite bool_decide_false by set_solver. simpl. split; [lia|done]. }
  apply NoDup_cons in Hn as [Hj Hn]. destruct (refundSeat_ok p ss h j Hok) as [Hok1 Hc1]. cbn [fold_left].
  pose proof (refundSeat_cases p ss h j) as Hcase.
  destruct (refundSeat p (ss, h) j) as [ss1 h1]. cbn [fst snd] in *.
  destruct (IH ss1 h1 _ Hn Hok1 eq_refl) as (Hok2 & Hc2 & Hi). split; [done|]. split; [congruence|].
  intros i. destruct (Hi i) as [Hs Ht]. rewrite Hs, Ht. clear Hs Ht Hi IH.
  destruct (refundable p ss h j) eqn:Er; simplify_eq.
  - assert (Ho : occupied ss j = true) by (unfold refundable in Er; by b2p).
    pose proof (occupied_in_hand_lt _ _ _ Hok Ho) as Hj9.
    assert (Href : ∀ x, refundable p (set_stack j (stack_at ss j + rd 0 (totalCommit h) j) ss)
      (set_streetCommit (<[j:=0]> (streetCommit h)) (set_totalCommit (<[j:=0]> (totalCommit h)) h)) x = refundable p ss h x)
      by (intros x; unfold refundable; by rewrite set_stack_occ).
    rewrite Href, stack_at_set by done. cbn [set_streetCommit set_totalCommit totalCommit].
    rewrite rd_insert, (ok_len_total _ _ Hok). destruct (decide (j = i)) as [->|Hne].
    + rewrite (bool_decide_false (i ∈ l)), (bool_decide_true (i ∈ i :: l)) by set_solver.
      rewrite Er, decide_True by done. simpl. lia.
    + rewrite (decide_False (P := j = i ∧ _)) by tauto.
      rewrite (bool_decide_ext (i ∈ j :: l) (i ∈ l)) by set_solver. done.
  - destruct (decide (j = i)) as [->|Hne].
    + rewrite Er, !andb_false_r. done.
    + rewrite (bool_decide_ext (i ∈ j :: l) (i ∈ l)) by set_solver. done.
Qed.

Lemma seats9_NoDup : NoDup seats9.
Proof. apply NoDup_seq. Qed.

Definition abortedHand (reason : string) (h : HandState) : HandState :=
  push_event (HandAborted reason) (set_winnerSeat None (set_pots [] (set_actionDeadlineTs None (set_actionOn None (set_phase aborted h))))).

Lemma abortHand_inv st reason now st' :
  abortHand st reason now = Ok st' →
  ∃ h, st.(hand) = Some h ∧
    if bool_decide (h.(phase) = complete) || bool_decide (h.(phase) = aborted) then st' = st else
    ∃ r, r = fold_left (refundSeat st.(params)) seats9 (st.(seats), h) ∧
         st' = mkTable st.(params) r.1 st.(button) st.(nextHandId) (Some (abortedHand reason r.2)).
Proof.
  unfold abortHand. intros (t & _ & H)%rbind_ok. apply rbind_ok in H as (u & _ & H).
  destruct (hand st) as [h|]; [|done]. exists h. split; [done|].
  destruct (_ || _); [congruence|]. eexists. split; [reflexivity|].
  destruct (fold_left _ _ _) as [ss1 h1]. apply Ok_inj in H. rewrite <-H. reflexivity.
Qed.

Lemma abortedHand_ok ss reason h :
  hand_ok ss h → hand_ok ss (abortedHand reason h) ∧ phase_ok ss (abortedHand reason h).
Proof.
  intros Hok. split; [by hand_ext|]. unfold phase_ok.
  replace (phase (abortedHand reason h)) with aborted by reflexivity. split; reflexivity.
Qed.

Lemma abortHand_wf_chips st reason now st' :
  wf_table st → abortHand st reason now = Ok st' →
  wf_table st' ∧ sumZ (stacks st'.(seats)) + escrow st' = sumZ (stacks st.(seats)) + escrow st.
Proof.
  intros Hwf (h & Hh & H)%abortHand_inv. destruct (_ || _); [by subst|]. destruct H as (r & Hr & ->).
  destruct (wf_hand _ Hwf h Hh) as [Hok _].
  destruct (refund_loop (params st) seats9 (seats st) h r seats9_NoDup Hok Hr) as (Hok1 & Hc & _).
  clear Hr. split.
  - destruct Hwf as [Hb Ht _ _ _]. constructor; cbn [params seats hand].
    + exact Hb.
    + exact Ht.
    + exact (ok_seats _ _ Hok1).
    + exact (ok_stack _ _ Hok1).
    + intros h' [= <-]. by apply abortedHand_ok.
  - unfold escrow. rewrite Hh. exact Hc.
Qed.

(** *** Timeouts *)

(** The player to act, in a well-formed table that is being played. *)
Lemma wf_turn st h :
  wf_table st → st.(hand) = Some h → h.(phase) = betting →
  hand_ok st.(seats) h ∧ allIn_ok st.(seats) h ∧ ∃ i d, (i < 9)%nat ∧ h.(actionOn) = Some i ∧
    h.(actionDeadlineTs) = Some d ∧ needsToAct h i = true ∧ occupied st.(seats) i = true ∧ rd false h.(inHand) i = true.
Proof.
  intros Hwf Hh Hph. destruct (wf_hand _ Hwf h Hh) as [Hok Hp]. unfold phase_ok in Hp. rewrite Hph in Hp.
  destruct Hp as [Hall [_ (i & d & Hi & Hon & Hd & Hn)]]. split; [done|]. split; [done|]. exists i, d.
  assert (Hin : rd false (inHand h) i = true) by (unfold needsToAct in Hn; by destruct (rd false (inHand h) i)).
  repeat split; try done. by apply (ok_inHand _ _ Hok).
Qed.

(** What [applyTick] does. *)
Lemma applyTick_spec st t :
  wf_table st → 0 <= t →
  applyTick st (Int t) = Ok st ∨
  ∃ h i d a st', st.(hand) = Some h ∧ h.(phase) = betting ∧ h.(actionOn) = Some i ∧ h.(actionDeadlineTs) = Some d ∧ d <= t ∧
    a = (if toCall h i =? 0 then Check_ (Z.of_nat i) else Fold (Z.of_nat i)) ∧
    applyAction st a (Int t) = Ok st' ∧
    applyTick st (Int t) = Ok (mkTable st'.(params) st'.(seats) st'.(button) st'.(nextHandId)
      (push_event (TimeoutApplied i (if toCall h i =? 0 then defaultCheck else defaultFold)) <$> st'.(hand))).
Proof.
  intros Hwf Ht. unfold applyTick, assertIntTimestamp, seatCount9. rewrite (proj2 (Z.ltb_ge t 0)) by done.
  rewrite (wf_seats _ Hwf). cbn [rbind Nat.eqb negb throw_if].
  destruct (hand st) as [h|] eqn:Hh; [|by left]. case_bool_decide as Hph; [|by left]. cbn [negb].
  destruct (wf_turn st h Hwf Hh Hph) as (_ & _ & i & d & Hi & Hon & Hd & Hn & Ho & _). rewrite Hon, Hd.
  destruct (t <? d) eqn:E; [by left|]. right. b2p.
  set (a := if toCall h i =? 0 then Check_ (Z.of_nat i) else Fold (Z.of_nat i)).
  assert (Ha : action_seat a = Z.of_nat i) by (subst a; by destruct (toCall h i =? 0)).
  rewrite (applyAction_on_turn st a t h i) by (done || by apply wf_seats).
  assert (Hp : ∃ r, perform (params st) (seats st) h i a = Ok r).
  { subst a. destruct (toCall h i =? 0) eqn:Ec; [|by eexists]. simpl. unfold applyCheck. rewrite Ec. by eexists. }
  destruct Hp as [r Hr]. rewrite Hr. cbn [rmap rbind].
  exists h, i, d, a, (settle st i a t r). repeat split; try done.
  rewrite (applyAction_on_turn st a t h i) by (done || by apply wf_seats). by rewrite Hr.
Qed.

Lemma push_event_wf st e : wf_table st → wf_table (mkTable st.(params) st.(seats) st.(button) st.(nextHandId) (push_event e <$> st.(hand))).
Proof.
  intros [Hb Ht Hl Hs Hh]. constructor; cbn [params seats hand]; try done. intros h. destruct (hand st) as [h0|]; [|done].
  intros [= <-]. destruct (Hh h0 eq_refl) as [Hok Hp]. split; [by hand_ext|exact Hp].
Qed.

Lemma applyTick_wf_chips st now st' :
  wf_table st → applyTick st now = Ok st' →
  wf_table st' ∧ sumZ (stacks st'.(seats)) + escrow st' = sumZ (stacks st.(seats)) + escrow st.
Proof.
  intros Hwf H. destruct now as [t|]; [|done]. destruct (decide (0 <= t)) as [Ht|Ht].
  2:{ unfold applyTick, assertIntTimestamp in H. by rewrite (proj2 (Z.ltb_lt t 0)) in H by lia. }
  destruct (applyTick_spec st t Hwf Ht) as [H'|(h & i & d & a & st1 & Hh & _ & _ & _ & _ & _ & Ha & H')];
    rewrite H' in H; simplify_eq; [done|].
  destruct (applyAction_wf_chips st a (Int t) st1 Hwf Ha) as [Hwf1 Hc]. split; [by apply push_event_wf|].
  cbn [seats]. rewrite <-Hc. f_equal. unfold escrow. cbn [hand]. by destruct (hand st1).
Qed.

(** ** Traces *)

(** The operations a caller can run, and what each does to the account of
    chips on the table: [sit] pays in, [startHand] drops whatever the previous
    hand left in escrow, the others neither pay in nor out. *)
Inductive operation :=
| OpSit (seat : Z) (player : string) (stk : Z)
| OpStart (now : number)
| OpAction (a : Action) (now : number)
| OpTick (now : number)
| OpAbort (reason : string) (now : number).

Definition exec (st : TableState) (op : operation) : res TableState :=
  match op with
  | OpSit seat player k => sit st seat player k
  | OpStart now => startHand st now
  | OpAction a now => applyAction st a now
  | OpTick now => applyTick st now
  | OpAbort reason now => abortHand st reason now
  end.

Definition account_delta (st : TableState) (op : operation) : Z :=
  match op with
  | OpSit _ _ k => k
  | OpStart _ => - escrow st
  | _ => 0
  end.

(** [reachable p st n]: some sequence of operations leads from a new table to
    [st]; [n] is the balance of the abstract account. *)
Inductive reachable (p : RawParams) : TableState → Z → Prop :=
| reach_create st : createTableState p = Ok st → reachable p st 0
| reach_step st n op st' :
    reachable p st n → exec st op = Ok st' → reachable p st' (n + account_delta st op).

Lemma exec_wf_chips st op st' :
  wf_table st → exec st op = Ok st' →
  wf_table st' ∧ sumZ (stacks st'.(seats)) + escrow st' = sumZ (stacks st.(seats)) + escrow st + account_delta st op.
Proof.
  intros Hwf H. destruct op; cbn [exec account_delta] in *.
  - destruct (sit_wf _ _ _ _ _ Hwf H) as (Hwf' & Hh & Hs). split; [done|]. unfold escrow in *. rewrite Hh. lia.
  - destruct (startHand_wf_chips _ _ _ Hwf H) as (Hwf' & h' & Hh & Hc). split; [done|].
    unfold chips in Hc. unfold escrow at 1. rewrite Hh. lia.
  - destruct (applyAction_wf_chips _ _ _ _ Hwf H). split; [done|lia].
  - destruct (applyTick_wf_chips _ _ _ Hwf H). split; [done|lia].
  - destruct (abortHand_wf_chips _ _ _ _ Hwf H). split; [done|lia].
Qed.

Lemma reachable_inv p st n : reachable p st n → wf_table st ∧ sumZ (stacks st.(seats)) + escrow st = n.
Proof.
  induction 1 as [st H|st n op st' _ [Hwf IH] H].
  - destruct (createTableState_wf p st H) as (Hwf & Hh & Hs). split; [done|]. unfold escrow. rewrite Hh. lia.
  - destruct (exec_wf_chips _ _ _ Hwf H) as [Hwf' Hc]. split; [done|lia].
Qed.

(** Run a list of operations, keeping the account. *)
Fixpoint run (st : TableState) (n : Z) (ops : list operation) : res (TableState * Z) :=
  match ops with
  | [] => Ok (st, n)
  | op :: ops => let! st' := exec st op in run st' (n + account_delta st op) ops
  end.

Definition play (p : RawParams) (ops : list operation) : res (TableState * Z) :=
  let! st := createTableState p in run st 0 ops.

Lemma run_reachable p st n ops st' n' : reachable p st n → run st n ops = Ok (st', n') → reachable p st' n'.
Proof.
  revert st n. induction ops as [|op ops IH]; intros st n Hr; cbn [run]; [by intros [= <- <-]|].
  intros (st1 & H1 & H2)%rbind_ok. eapply IH; [|exact H2]. by eapply reach_step.
Qed.

Lemma play_reachable p ops st n : play p ops = Ok (st, n) → reachable p st n.
Proof. intros (st0 & H0 & H)%rbind_ok. eapply run_reachable; [|exact H]. by apply reach_create. Qed.

Lemma play_wf p ops st n : play p ops = Ok (st, n) → wf_table st.
Proof. intros H%play_reachable. by destruct (reachable_inv _ _ _ H). Qed.

(** The state at the end of a run (the empty table when the run throws). *)
Definition final (c : res (TableState * Z)) : TableState :=
  match c with Ok (st, _) => st | Err _ => mkTable (mkParams 1 2 1 0 true) (replicate 9 None) None 1 None end.

End EngineProps.
