(* ===== verification/PokerEngineThms.v ===== *)
(** * Correctness of the betting engine

    The properties of [packages/poker-engine]: the invariant and the chip
    account over all traces, which actions are accepted, what a timeout does,
    what [legalActions] offers, how a showdown splits the escrow, what an abort
    refunds, and three behaviours of the code that its comments and tests do
    not intend. *)
From stdpp Require Import base option list strings sets.
From Stdlib Require Import ZArith Lia Sorted.
From S2P Require Import Prelude PokerPots PokerEngine PokerEngineInv PokerEngineProps.
Import Pots Engine EngineInv EngineProps.

Module EngineThms.

(** ** Sample tables *)

Definition blinds_5_10 : RawParams := mkRaw 5 10 (Int 30) (Int 0) true.
Definition two_players (a b : Z) : list operation := [OpSit 0 "A" a; OpSit 1 "B" b; OpStart (Int 0)].

(** Heads-up, seat 0 (small blind) to act before the flop. *)
Definition heads_up : TableState := final (play blinds_5_10 (two_players 100 100)).
(** The same after the small blind has called: the big blind has the option. *)
Definition bb_option : TableState := final (play blinds_5_10 (two_players 100 100 ++ [OpAction (Call 0) (Int 1)])).
(** Both players all in before the flop: a showdown. *)
Definition all_in_ops : list operation :=
  two_players 100 60 ++ [OpAction (BetTo 0 100) (Int 1); OpAction (Call 1) (Int 2)].
Definition all_in_showdown : TableState := final (play blinds_5_10 all_in_ops).
(** The big blind has only 3 chips, less than the small blind. *)
Definition short_big_blind : TableState := final (play blinds_5_10 (two_players 100 3)).

(** The hand of a sample table. *)
Definition hand_of (st : TableState) : HandState :=
  match st.(hand) with
  | Some h => h
  | None => freshHand 0 0 0 1 0 0 1 [] []
  end.

Lemma heads_up_wf : wf_table heads_up.
Proof. eapply (play_wf blinds_5_10 (two_players 100 100)). vm_compute. reflexivity. Qed.

Lemma bb_option_wf : wf_table bb_option.
Proof. eapply (play_wf blinds_5_10 (two_players 100 100 ++ [OpAction (Call 0) (Int 1)])). vm_compute. reflexivity. Qed.

Lemma short_big_blind_wf : wf_table short_big_blind.
Proof. eapply (play_wf blinds_5_10 (two_players 100 3)). vm_compute. reflexivity. Qed.

(** ** The invariant and the account *)

(** C1. Every state that the exported operations can produce from a new table
    satisfies the invariant: array lengths, non-negative stacks and
    commitments, and in each phase the shape that phase promises (a player to
    act with a deadline while betting, side pots at showdown, an empty escrow
    after a win by folds, nobody to act after an abort). *)
Theorem reachable_wf p st n : reachable p st n → wf_table st.
Proof. intros H. by destruct (reachable_inv p st n H). Qed.

Lemma reachable_wf_witness :
  reachable blinds_5_10 (final (play blinds_5_10 (two_players 100 100))) 200 ∧
  wf_table (final (play blinds_5_10 (two_players 100 100))).
Proof.
  assert (H : reachable blinds_5_10 (final (play blinds_5_10 (two_players 100 100))) 200).
  { eapply (play_reachable _ (two_players 100 100)). vm_compute. reflexivity. }
  split; [exact H|exact (reachable_wf _ _ _ H)].
Defined.

(** C2. Chips are neither created nor destroyed: on every trace the chips
    counted by [totalChipsOnTable] are what players brought with [sit], less
    the escrow of a previous hand that [startHand] drops; betting, timeouts,
    wins by folds, street changes, showdowns and aborts leave the total as it
    is. *)
Theorem reachable_account p st n : reachable p st n → totalChipsOnTable st = n.
Proof. intros H. destruct (reachable_inv p st n H) as [Hwf <-]. by apply totalChips_spec. Qed.

Lemma reachable_account_witness :
  totalChipsOnTable all_in_showdown = 160.
Proof.
  apply (reachable_account blinds_5_10), (play_reachable _ all_in_ops). vm_compute. reflexivity.
Defined.

(** ** Accepting an action *)

(** When a bet or raise to [amt] is legal for seat [i]. *)
Definition legal_bet (p : TableParams) (ss : list (option SeatState)) (h : HandState) (i : nat) (amt : Z) : Prop :=
  let isAllIn := amt = rd 0 h.(streetCommit) i + stack_at ss i in
  rd 0 h.(streetCommit) i < amt <= rd 0 h.(streetCommit) i + stack_at ss i ∧ h.(betTo) < amt ∧
  rd 0 h.(lastIntervalActed) i ≠ h.(intervalId) ∧
  (if h.(betTo) =? 0 then p.(bigBlind) <= amt ∨ isAllIn else h.(minRaiseSize) <= amt - h.(betTo) ∨ isAllIn).

Definition legal_move (st : TableState) (h : HandState) (i : nat) (a : Action) : Prop :=
  match a with
  | Fold _ => True
  | Check_ _ => toCall h i = 0
  | Call _ => toCall h i ≠ 0
  | BetTo _ amt => legal_bet st.(params) st.(seats) h i amt
  end.

Lemma applyBetTo_accepts p ss h i amt :
  is_ok (applyBetTo p ss h i amt) = true ↔ legal_bet p ss h i amt.
Proof.
  unfold legal_bet. split.
  - destruct (applyBetTo p ss h i amt) as [r|] eqn:E; [|done]. intros _.
    apply applyBetTo_inv in E as (H1 & H2 & H3 & h0 & Hacc & _). do 3 (split; [done|]).
    destruct Hacc as [(Hb & Hx & _)|[(Hb & _ & Hx & _)|(Hb & Hx & _)]];
      destruct (betTo h =? 0) eqn:Eb; b2p; first [exact Hx | by left | by right | congruence].
  - intros (H1 & H2 & H3 & H4).
    assert (H : ∃ h0, bet_accepted p ss h i amt h0).
    { unfold bet_accepted. destruct (betTo h =? 0) eqn:Eb; b2p.
      - eexists. left. by repeat split.
      - destruct (decide (minRaiseSize h <= amt - betTo h)).
        + eexists. right. right. by repeat split.
        + eexists. right. left. repeat split; [done|lia|intuition]. }
    destruct H as [h0 Hacc].
    assert (E : applyBetTo p ss h i amt = Ok (commitChips ss h0 i (amt - rd 0 (streetCommit h0) i)))
      by (apply applyBetTo_inv; do 3 (split; [done|]); by exists h0).
    by rewrite E.
Qed.

Lemma perform_accepts st h i a :
  is_ok (perform st.(params) st.(seats) h i a) = true ↔ legal_move st h i a.
Proof.
  destruct a; cbn [perform legal_move]; [done| | |apply applyBetTo_accepts].
  - unfold applyCheck. destruct (toCall h i =? 0) eqn:E; b2p; simpl; [done|]. split; [done|lia].
  - unfold applyCall. destruct (toCall h i =? 0) eqn:E; b2p; cbn [throw_if rbind]; [by split|].
    by destruct (commitChips (seats st) h i _).
Qed.

(** C3. In a well-formed table [applyAction] accepts an action exactly when a
    hand is being bet, it is the acting seat's turn, and the move is legal:
    a fold always, a check when nothing is owed, a call when something is
    owed, a bet when it exceeds the street's bet, is covered by the stack, the
    seat has not acted since the last full raise, and it is a full bet or
    raise or an all-in. *)
Theorem applyAction_accepts st a t :
  wf_table st → 0 <= t →
  is_ok (applyAction st a (Int t)) = true ↔
  ∃ h i, st.(hand) = Some h ∧ h.(phase) = betting ∧ h.(actionOn) = Some i ∧ action_seat a = Z.of_nat i ∧ legal_move st h i a.
Proof.
  intros Hwf Ht. split.
  - destruct (applyAction st a (Int t)) as [st'|] eqn:E; [|done]. intros _.
    apply applyAction_inv in E as (t' & h & i & _ & _ & Hh & Hph & _ & Ha & _ & _ & Hon & r & Hr & _).
    exists h, i. do 4 (split; [done|]). apply perform_accepts. by rewrite Hr.
  - intros (h & i & Hh & Hph & Hon & Ha & Hl). apply perform_accepts in Hl.
    destruct (wf_turn st h Hwf Hh Hph) as (_ & _ & j & d & Hj & Hon' & _ & Hn & Ho & _).
    rewrite Hon in Hon'. simplify_eq.
    rewrite (applyAction_on_turn st a t h j) by (done || by apply wf_seats).
    by destruct (perform _ _ _ _ _).
Qed.

Lemma applyAction_accepts_witness :
  is_ok (applyAction heads_up (BetTo 0 30) (Int 7)) = true ∧ ¬ is_ok (applyAction heads_up (BetTo 0 12) (Int 7)) = true.
Proof.
  split.
  - apply (applyAction_accepts heads_up (BetTo 0 30) 7 heads_up_wf ltac:(lia)).
    eexists _, 0%nat. split; [vm_compute; reflexivity|]. vm_compute. repeat split; try done; by left.
  - intros H. apply (applyAction_accepts heads_up (BetTo 0 12) 7 heads_up_wf ltac:(lia)) in H.
    destruct H as (h & i & Hh & _ & Hon & _ & Hl). vm_compute in Hh. injection Hh as <-.
    injection Hon as <-. destruct Hl as (_ & _ & _ & [Hl|Hl]); vm_compute in Hl; congruence.
Defined.

(** While a hand is being bet, any other seat's action is refused, and the
    error code tells why: empty seat, not dealt in, folded, all in, or simply
    out of turn. *)
Theorem applyAction_off_turn st a t h i j :
  wf_table st → 0 <= t → st.(hand) = Some h → h.(phase) = betting → h.(actionOn) = Some i →
  (j < 9)%nat → j ≠ i → action_seat a = Z.of_nat j →
  ∃ e, applyAction st a (Int t) = Err e ∧
    e.(code) = (if negb (occupied st.(seats) j) then SEAT_EMPTY
                else if negb (rd false h.(inHand) j) then SEAT_NOT_IN_HAND
                else if rd false h.(folded) j then SEAT_FOLDED
                else if rd false h.(allIn) j then SEAT_ALL_IN else OUT_OF_TURN).
Proof.
  intros Hwf Ht Hh Hph Hon Hj Hne Ha. unfold applyAction, assertIntTimestamp, seatCount9.
  rewrite (proj2 (Z.ltb_ge t 0)), (wf_seats _ Hwf), Hh, Ha by done. cbn [rbind Nat.eqb negb throw_if].
  rewrite bool_decide_true by done. cbn [rbind negb throw_if].
  rewrite (proj2 (Z.ltb_ge (Z.of_nat j) 0)), (proj2 (Z.ltb_ge 8 (Z.of_nat j))), Nat2Z.id by lia.
  cbn [rbind orb throw_if]. rewrite Hon, (bool_decide_false (Some i = Some j)) by congruence.
  destruct (occupied (seats st) j), (rd false (inHand h) j), (rd false (folded h) j), (rd false (allIn h) j);
    eexists; split; reflexivity.
Qed.

Lemma applyAction_off_turn_witness :
  ∃ e, applyAction heads_up (Check_ 1) (Int 3) = Err e ∧ e.(code) = OUT_OF_TURN.
Proof.
  destruct (applyAction_off_turn heads_up (Check_ 1) 3 (hand_of heads_up) 0 1 heads_up_wf ltac:(lia)
    ltac:(vm_compute; reflexivity) ltac:(vm_compute; reflexivity) ltac:(vm_compute; reflexivity)
    ltac:(lia) ltac:(lia) eq_refl) as (e & He & Hc).
  exists e. split; [exact He|]. rewrite Hc. vm_compute. reflexivity.
Defined.

(** ** Timeouts *)

(** A hand that is being bet always has a player to act with a deadline;
    before the deadline [applyTick] changes nothing, and from the deadline on
    it never throws: it checks for the player when nothing is owed, folds
    otherwise, and records the timeout. *)
Theorem applyTick_timeout st h :
  wf_table st → st.(hand) = Some h → h.(phase) = betting →
  ∃ i d, h.(actionOn) = Some i ∧ h.(actionDeadlineTs) = Some d ∧
    (∀ t, 0 <= t < d → applyTick st (Int t) = Ok st) ∧
    (∀ t, 0 <= t → d <= t → ∃ st',
       applyAction st (if toCall h i =? 0 then Check_ (Z.of_nat i) else Fold (Z.of_nat i)) (Int t) = Ok st' ∧
       applyTick st (Int t) = Ok (mkTable st'.(params) st'.(seats) st'.(button) st'.(nextHandId)
         (push_event (TimeoutApplied i (if toCall h i =? 0 then defaultCheck else defaultFold)) <$> st'.(hand)))).
Proof.
  intros Hwf Hh Hph. destruct (wf_turn st h Hwf Hh Hph) as (_ & _ & i & d & Hi & Hon & Hd & Hn & Ho & _).
  assert (Hstep : ∀ t, 0 <= t → applyTick st (Int t) =
    if t <? d then Ok st else
    let! s := applyAction st (if toCall h i =? 0 then Check_ (Z.of_nat i) else Fold (Z.of_nat i)) (Int t) in
    Ok (mkTable s.(params) s.(seats) s.(button) s.(nextHandId)
      (push_event (TimeoutApplied i (if toCall h i =? 0 then defaultCheck else defaultFold)) <$> s.(hand)))).
  { intros t Ht. unfold applyTick, assertIntTimestamp, seatCount9.
    rewrite (proj2 (Z.ltb_ge t 0)), (wf_seats _ Hwf), Hh by done. cbn [rbind Nat.eqb negb throw_if].
    by rewrite bool_decide_true, Hon, Hd by done. }
  exists i, d. split; [done|]. split; [done|]. split.
  - intros t Ht. rewrite Hstep, (proj2 (Z.ltb_lt t d)) by lia. done.
  - intros t Ht Hdt. set (a := if toCall h i =? 0 then _ else _).
    assert (Hok : is_ok (perform (params st) (seats st) h i a) = true).
    { apply perform_accepts. subst a. destruct (toCall h i =? 0) eqn:E; b2p; done. }
    assert (Ha : action_seat a = Z.of_nat i) by (subst a; by destruct (toCall h i =? 0)).
    pose proof (applyAction_on_turn st a t h i (wf_seats _ Hwf) Ht Hh Hph Hi Ha Ho Hon Hn) as Hact.
    destruct (perform _ _ _ _ _) as [r|]; [|done]. cbn [rmap] in Hact. eexists. split; [exact Hact|].
    rewrite Hstep, (proj2 (Z.ltb_ge t d)) by lia. fold a. rewrite Hact. done.
Qed.

Lemma applyTick_timeout_witness :
  ∃ i d, (hand_of heads_up).(actionOn) = Some i ∧ (hand_of heads_up).(actionDeadlineTs) = Some d ∧
    (∀ t, 0 <= t < d → applyTick heads_up (Int t) = Ok heads_up).
Proof.
  destruct (applyTick_timeout heads_up (hand_of heads_up) heads_up_wf ltac:(vm_compute; reflexivity)
    ltac:(vm_compute; reflexivity)) as (i & d & Hon & Hd & Hlt & _).
  exists i, d. split; [exact Hon|]. split; [exact Hd|exact Hlt].
Defined.

(** ** What the client is offered *)

Lemma delimit_one (l : list Z) (m amt : Z) :
  In m l ∧ (amt = m ∨ ∃ lo, In lo l ∧ lo <= amt <= m) ↔ In m l ∧ (amt = m ∨ amt <= m ∧ List.Exists (λ lo, lo <= amt) l).
Proof. rewrite List.Exists_exists. split; intros (Hm & [?|H]); (split; [done|]); eauto; right; firstorder. Qed.

Section legalActions.
Context (st : TableState) (h : HandState) (i : nat).
Context (Hwf : wf_table st) (Hh : st.(hand) = Some h) (Hph : h.(phase) = betting) (Hon : h.(actionOn) = Some i).

Let seat := Z.of_nat i.
Let maxCommit := rd 0 h.(streetCommit) i + stack_at st.(seats) i.
Let canRaise := negb (rd 0 h.(lastIntervalActed) i =? h.(intervalId)).

(** The bets [legalActions] appends to fold and check/call. *)
Definition offered_bets : list Z :=
  if toCall h i =? 0 then
    if canRaise then
      let bet := Z.min (bigBlind (params st)) maxCommit in
      bet :: (if bet <? maxCommit then [maxCommit] else [])
    else []
  else if canRaise && (h.(betTo) <? maxCommit) then
    (if h.(betTo) + h.(minRaiseSize) <=? maxCommit then [h.(betTo) + h.(minRaiseSize)] else []) ++ [maxCommit]
  else [].

Lemma turn_facts :
  (i < 9)%nat ∧ needsToAct h i = true ∧ occupied st.(seats) i = true ∧ 0 < stack_at st.(seats) i ∧
  0 <= rd 0 h.(streetCommit) i ∧ 0 <= h.(betTo) ∧ 0 < h.(minRaiseSize).
Proof.
  destruct (wf_turn st h Hwf Hh Hph) as (Hok & Hall & j & d & Hj & Hon' & _ & Hn & Ho & Hin).
  rewrite Hon in Hon'. injection Hon' as <-. do 3 (split; [done|]).
  pose proof (ok_stack _ _ Hok i) as Hs. pose proof (ok_commit _ _ Hok i). pose proof (ok_betTo _ _ Hok).
  pose proof (ok_minRaise _ _ Hok). repeat split; try lia.
  assert (stack_at (seats st) i ≠ 0); [|lia]. intros Hz. apply (Hall i Hin) in Hz.
  unfold needsToAct in Hn. rewrite Hz in Hn. by destruct (rd false (inHand h) i), (rd false (folded h) i).
Qed.

Lemma legalActions_eq :
  legalActions st = Fold seat :: (if toCall h i =? 0 then Check_ seat else Call seat) :: map (BetTo seat) offered_bets.
Proof.
  destruct turn_facts as (Hi & Hn & Ho & Hs & Hc & Hb & Hm). pose proof (wf_blinds _ Hwf) as Hbl.
  unfold needsToAct in Hn. unfold legalActions, offered_bets. rewrite Hh, Hph, bool_decide_true, Hon by done. cbn [negb].
  destruct (rd false (inHand h) i), (rd false (folded h) i), (rd false (allIn h) i); try done. cbn [negb orb].
  rewrite Ho. cbn [negb]. fold maxCommit seat canRaise. assert (Hmax : 0 < maxCommit) by (unfold maxCommit; lia).
  rewrite (proj2 (Z.ltb_lt 0 _) Hs), (proj2 (Z.eqb_neq (stack_at (seats st) i) 0)) by lia.
  destruct (toCall h i =? 0); cbn [andb].
  - destruct canRaise; [|done].
    replace (if bigBlind (params st) <=? maxCommit then bigBlind (params st) else maxCommit)
      with (Z.min (bigBlind (params st)) maxCommit) by (destruct (_ <=? _) eqn:E; b2p; lia).
    rewrite (proj2 (Z.ltb_lt 0 _)) by lia. by destruct (_ <? _).
  - rewrite orb_false_r. destruct canRaise; cbn [negb andb]; [|done]. rewrite Z.ltb_antisym.
    destruct (maxCommit <=? betTo h); cbn [negb]; [done|]. by destruct (_ <=? maxCommit).
Qed.

Lemma applyAction_turn a t : 0 <= t → action_seat a = seat → is_ok (applyAction st a (Int t)) = true ↔ legal_move st h i a.
Proof.
  intros Ht Ha. destruct turn_facts as (Hi & Hn & Ho & _).
  rewrite (applyAction_on_turn st a t h i) by (done || by apply wf_seats).
  rewrite <-perform_accepts. by destruct (perform _ _ _ _ _).
Qed.

Lemma legal_bet_range amt :
  legal_bet st.(params) st.(seats) h i amt ↔
  canRaise = true ∧ rd 0 h.(streetCommit) i < amt <= maxCommit ∧ h.(betTo) < amt ∧
  (amt = maxCommit ∨ (if h.(betTo) =? 0 then bigBlind (params st) else h.(betTo) + h.(minRaiseSize)) <= amt).
Proof.
  unfold legal_bet, canRaise. fold maxCommit.
  destruct (rd 0 (lastIntervalActed h) i =? intervalId h) eqn:Er; b2p; cbn [negb]; [by split; [intros (_ & _ & ? & _)|intros []]|].
  destruct (betTo h =? 0); intuition lia.
Qed.

(** The offered bets delimit the legal ones. *)
Lemma offered_bets_delimit amt :
  0 < stack_at st.(seats) i → 0 <= rd 0 h.(streetCommit) i → 0 <= h.(betTo) → 0 < h.(minRaiseSize) →
  toCall h i ≠ 0 ∨ h.(betTo) = 0 ∧ rd 0 h.(streetCommit) i = 0 → 0 < bigBlind (params st) →
  (canRaise = true ∧ rd 0 h.(streetCommit) i < amt <= maxCommit ∧ h.(betTo) < amt ∧
   (amt = maxCommit ∨ (if h.(betTo) =? 0 then bigBlind (params st) else h.(betTo) + h.(minRaiseSize)) <= amt)) ↔
  In maxCommit offered_bets ∧ (amt = maxCommit ∨ ∃ lo, In lo offered_bets ∧ lo <= amt <= maxCommit).
Proof.
  clear Hwf Hh Hph Hon. intros Hs Hc Hb Hm Hcase Hbb. unfold offered_bets, toCall in *.
  assert (Hmax : rd 0 (streetCommit h) i < maxCommit) by (unfold maxCommit; lia).
  clearbody maxCommit canRaise.
  destruct canRaise; cbn [andb]; [|destruct ((if _ <? _ then _ else _) =? 0); (split; [by intros []|by intros [[] _]])].
  destruct (0 <? betTo h - rd 0 (streetCommit h) i) eqn:E1; b2p.
  - rewrite (proj2 (Z.eqb_neq (betTo h - _) 0)), (proj2 (Z.eqb_neq (betTo h) 0)) by lia.
    destruct (betTo h <? maxCommit) eqn:E2; b2p; [|simpl; intuition lia].
    rewrite delimit_one. destruct (betTo h + minRaiseSize h <=? maxCommit) eqn:E3; b2p; simpl; rewrite ?List.Exists_cons, ?List.Exists_nil; intuition lia.
  - destruct Hcase as [?|[Hb0 Hc0]]; [lia|]. rewrite Hb0. cbn [Z.eqb]. rewrite delimit_one.
    destruct (Z.min (bigBlind (params st)) maxCommit <? maxCommit) eqn:E3; b2p; simpl; rewrite ?List.Exists_cons, ?List.Exists_nil; intuition lia.
Qed.

Lemma offered_bets_in n : In (BetTo seat n) (legalActions st) ↔ In n offered_bets.
Proof.
  rewrite legalActions_eq. simpl. rewrite in_map_iff. split; [|eauto].
  intros [?|[Hx|(m & Hm' & ?)]]; [done|by destruct (_ =? 0)|]. by injection Hm' as <-.
Qed.

(** With nothing to call in betting that is open, the all-in is offered to who
    may raise, any other amount offered is the big blind, and the range of the
    legal bets is the one of a raise. *)
Lemma offered_option :
  toCall h i = 0 → h.(betTo) ≠ 0 → 0 < stack_at st.(seats) i →
  (In maxCommit offered_bets ↔ canRaise = true) ∧
  (∀ n, In n offered_bets → n ≠ maxCommit → n = bigBlind (params st)) ∧
  (∀ amt, (canRaise = true ∧ rd 0 h.(streetCommit) i < amt <= maxCommit ∧ h.(betTo) < amt ∧
     (amt = maxCommit ∨ (if h.(betTo) =? 0 then bigBlind (params st) else h.(betTo) + h.(minRaiseSize)) <= amt)) ↔
   In maxCommit offered_bets ∧ rd 0 h.(streetCommit) i < amt <= maxCommit ∧ (amt = maxCommit ∨ h.(betTo) + h.(minRaiseSize) <= amt)).
Proof.
  clear Hwf Hh Hph Hon. intros H0 Hb Hs.
  assert (Hmax : In maxCommit offered_bets ↔ canRaise = true).
  { unfold offered_bets. rewrite H0. cbn [Z.eqb]. destruct canRaise; [|simpl; by split].
    split; [done|]. intros _. destruct (_ <? _) eqn:E; b2p; simpl; [tauto|lia]. }
  split; [done|]. split.
  - intros n. unfold offered_bets. rewrite H0. cbn [Z.eqb]. destruct canRaise; [|done].
    destruct (_ <? _) eqn:E; b2p; simpl; intros; lia.
  - intros amt. rewrite Hmax, (proj2 (Z.eqb_neq _ _) Hb). unfold toCall in H0.
    destruct (0 <? betTo h - rd 0 (streetCommit h) i) eqn:E; b2p; intuition lia.
Qed.
End legalActions.

(** C37. [legalActions] against [applyAction] for the seat to act.  Fold, check
    and call are offered exactly when they are accepted.  Facing a bet, or
    opening the betting of a street, a bet is accepted exactly when the all-in
    bet is offered and the amount is the all-in or lies between an offered bet
    and the all-in: the offered amounts delimit the accepted ones.  With
    nothing to call in betting that is already open (the big blind's option)
    they do not: the accepted amounts are the all-in and, up to it, those
    above the seat's commitment that raise by the minimum, while the only
    other amount offered is the big blind, which is refused when the seat has
    already committed it. *)
Theorem legalActions_accepted st h i t :
  wf_table st → st.(hand) = Some h → h.(phase) = betting → h.(actionOn) = Some i → 0 <= t →
  let commit := rd 0 h.(streetCommit) i in
  let maxCommit := commit + stack_at st.(seats) i in
  let offered n := In (BetTo (Z.of_nat i) n) (legalActions st) in
  let accepted n := is_ok (applyAction st (BetTo (Z.of_nat i) n) (Int t)) = true in
  (∀ a, (∀ s n, a ≠ BetTo s n) → In a (legalActions st) ↔ is_ok (applyAction st a (Int t)) = true) ∧
  (toCall h i ≠ 0 ∨ h.(betTo) = 0 ∧ commit = 0 →
   ∀ amt, accepted amt ↔ offered maxCommit ∧ (amt = maxCommit ∨ ∃ lo, offered lo ∧ lo <= amt <= maxCommit)) ∧
  (toCall h i = 0 → h.(betTo) ≠ 0 →
   (∀ amt, accepted amt ↔
      offered maxCommit ∧ commit < amt <= maxCommit ∧ (amt = maxCommit ∨ h.(betTo) + h.(minRaiseSize) <= amt)) ∧
   (∀ n, offered n → n ≠ maxCommit → n = st.(params).(bigBlind) ∧ (n <= commit → ¬ accepted n))).
Proof.
  intros Hwf Hh Hph Hon Ht commit maxCommit offered accepted. pose proof (legalActions_eq st h i Hwf Hh Hph Hon) as Hl.
  pose proof (turn_facts st h i Hwf Hh Hph Hon) as (Hi & _ & _ & Hs & Hc & Hb & Hm). pose proof (wf_blinds _ Hwf) as Hbl.
  assert (Hoff : ∀ n, offered n ↔ In n (offered_bets st h i)) by (intros n; by apply offered_bets_in).
  assert (Hacc : ∀ n, accepted n ↔ legal_bet st.(params) st.(seats) h i n)
    by (intros n; unfold accepted; by rewrite (applyAction_turn st h i Hwf Hh Hph Hon)).
  split; [|split].
  - intros a Hnb. destruct (decide (action_seat a = Z.of_nat i)) as [Ha|Ha].
    + rewrite (applyAction_turn st h i Hwf Hh Hph Hon) by done. rewrite Hl.
      destruct a as [s|s|s|s n]; cbn [action_seat legal_move] in *; subst; [| | |by edestruct Hnb].
      all: destruct (toCall h i =? 0) eqn:E; b2p; simpl; rewrite in_map_iff; split; try done; try tauto.
      all: try (intros [?|[?|(? & ? & _)]]; congruence).
    + split.
      * rewrite Hl. intros [<-|[<-|(n & <- & _)%in_map_iff]]; by try destruct (_ =? 0).
      * intros H. destruct (applyAction st a (Int t)) eqn:E; [|done].
        apply applyAction_inv in E as (t' & h' & j & _ & _ & Hh' & _ & _ & Ha' & _ & _ & Hon' & _). congruence.
  - intros Hcase amt. rewrite Hacc, legal_bet_range.
    assert (Hex : (∃ lo, offered lo ∧ lo <= amt <= maxCommit) ↔ ∃ lo, In lo (offered_bets st h i) ∧ lo <= amt <= maxCommit)
      by (split; intros (lo & Hlo & ?); exists lo; by rewrite ?Hoff in *).
    rewrite Hex, Hoff. clear Hex Hoff Hacc Hl. apply (offered_bets_delimit st h i); [lia..|tauto|lia].
  - intros H0 Hb0. destruct (offered_option st h i H0 Hb0 Hs) as (Hmax & Hlow & Hrange). split.
    + intros amt. rewrite Hacc, legal_bet_range, Hoff. apply Hrange.
    + intros n Hn Hnm. rewrite Hoff in Hn. split; [by apply Hlow|].
      intros Hle Ha. rewrite Hacc, legal_bet_range in Ha. fold commit in Ha. lia.
Qed.

Lemma legalActions_accepted_witness :
  is_ok (applyAction heads_up (BetTo 0 57) (Int 4)) = true ∧
  (In (Call 0) (legalActions heads_up) ↔ is_ok (applyAction heads_up (Call 0) (Int 4)) = true) ∧
  is_ok (applyAction bb_option (BetTo 1 20) (Int 4)) = true ∧ ¬ is_ok (applyAction bb_option (BetTo 1 10) (Int 4)) = true.
Proof.
  destruct (legalActions_accepted heads_up (hand_of heads_up) 0 4 heads_up_wf ltac:(vm_compute; reflexivity)
    ltac:(vm_compute; reflexivity) ltac:(vm_compute; reflexivity) ltac:(lia)) as [Hmove [Hbet _]].
  destruct (legalActions_accepted bb_option (hand_of bb_option) 1 4 bb_option_wf ltac:(vm_compute; reflexivity)
    ltac:(vm_compute; reflexivity) ltac:(vm_compute; reflexivity) ltac:(lia)) as [_ [_ Hopt]].
  split; [|split; [apply Hmove; discriminate|]].
  - assert (Hc : toCall (hand_of heads_up) 0 ≠ 0) by (vm_compute; discriminate).
    specialize (Hbet (or_introl Hc) 57). change (Z.of_nat 0) with 0 in Hbet.
    replace (rd 0 (streetCommit (hand_of heads_up)) 0 + stack_at (seats heads_up) 0) with 100 in Hbet by (vm_compute; reflexivity).
    replace (legalActions heads_up) with [Fold 0; Call 0; BetTo 0 20; BetTo 0 100] in Hbet by (vm_compute; reflexivity).
    apply Hbet. split; [simpl; tauto|]. right. exists 20. split; [simpl; tauto|lia].
  - destruct (Hopt ltac:(vm_compute; reflexivity) ltac:(vm_compute; discriminate)) as [Hrange Hlow].
    change (Z.of_nat 1) with 1 in *.
    replace (legalActions bb_option) with [Fold 1; Check_ 1; BetTo 1 10; BetTo 1 100] in * by (vm_compute; reflexivity).
    replace (rd 0 (streetCommit (hand_of bb_option)) 1) with 10 in * by (vm_compute; reflexivity).
    replace (stack_at (seats bb_option) 1) with 90 in * by (vm_compute; reflexivity).
    split; [|apply (Hlow 10); [simpl; tauto|lia..]].
    apply Hrange. replace (betTo (hand_of bb_option) + minRaiseSize (hand_of bb_option)) with 20 by (vm_compute; reflexivity).
    split; [simpl; tauto|lia].
Defined.

(** The big blind's option: when everybody has called and the player to
    act has exactly the big blind in the pot, [legalActions] offers a bet to
    the big blind, which [applyAction] refuses as an invalid amount. *)
Theorem big_blind_option_offer st h i t :
  wf_table st → st.(hand) = Some h → h.(phase) = betting → h.(actionOn) = Some i → 0 <= t →
  h.(betTo) = st.(params).(bigBlind) → rd 0 h.(streetCommit) i = st.(params).(bigBlind) →
  rd 0 h.(lastIntervalActed) i ≠ h.(intervalId) →
  In (BetTo (Z.of_nat i) st.(params).(bigBlind)) (legalActions st) ∧
  ∃ e, applyAction st (BetTo (Z.of_nat i) st.(params).(bigBlind)) (Int t) = Err e ∧ e.(code) = INVALID_AMOUNT.
Proof.
  intros Hwf Hh Hph Hon Ht Hb Hc Hr. destruct (turn_facts st h i Hwf Hh Hph Hon) as (Hi & Hn & Ho & Hs & _).
  assert (Hcall : toCall h i = 0) by (unfold toCall; rewrite (proj2 (Z.ltb_ge 0 _)); lia). split.
  - rewrite (legalActions_eq st h i Hwf Hh Hph Hon). unfold offered_bets. rewrite Hcall, (proj2 (Z.eqb_neq _ _) Hr), Hc.
    right. right. apply in_map. left. lia.
  - rewrite (applyAction_on_turn st _ t h i) by (done || by apply wf_seats). cbn [perform]. unfold applyBetTo.
    rewrite Hc, (proj2 (Z.leb_le _ _)) by lia. eexists. split; reflexivity.
Qed.

Lemma big_blind_option_offer_witness :
  In (BetTo 1 10) (legalActions bb_option) ∧ ∃ e, applyAction bb_option (BetTo 1 10) (Int 4) = Err e ∧ e.(code) = INVALID_AMOUNT.
Proof.
  apply (big_blind_option_offer bb_option (hand_of bb_option) 1 4 bb_option_wf); try lia.
  all: vm_compute; (reflexivity || discriminate).
Defined.

(** ** Starting, showing down and aborting a hand *)

(** What seat [i] pays when a hand starts with these blinds. *)
Definition blind_of (st : TableState) (sb bb i : nat) : Z :=
  if decide (i = sb) then Z.min st.(params).(smallBlind) (stack_at st.(seats) i)
  else if decide (i = bb) then Z.min st.(params).(bigBlind) (stack_at st.(seats) i) else 0.

Lemma blindPay_min ss i b : blindPay ss i b = Z.min b (stack_at ss i).
Proof. unfold blindPay. destruct (_ <=? _) eqn:E; b2p; lia. Qed.

Lemma startHand_accepts st t :
  length st.(seats) = 9%nat → 0 <= t → (2 <= length (activeSeatsOf st.(seats)))%nat → is_ok (startHand st (Int t)) = true.
Proof.
  intros Hl Ht Ha. unfold startHand, assertIntTimestamp, seatCount9. rewrite (proj2 (Z.ltb_ge t 0)), Hl by done.
  cbn [rbind Nat.eqb negb throw_if]. by rewrite (proj2 (Nat.ltb_ge _ 2)) by done.
Qed.

(** [startHand] on a table with at least two funded seats always succeeds:
    two different seats post the blinds (all they have if that is less), nobody
    else pays, exactly the funded seats are dealt in, the bet to match is what
    the big blind paid, and the hand starts in the betting phase or, with
    nobody able to act, at showdown.  With fewer funded seats it throws. *)
Theorem startHand_posts st t :
  wf_table st → 0 <= t →
  ((length (activeSeatsOf st.(seats)) < 2)%nat → ∃ e, startHand st (Int t) = Err e ∧ e.(code) = ILLEGAL_ACTION) ∧
  ((2 <= length (activeSeatsOf st.(seats)))%nat →
   ∃ st' h, startHand st (Int t) = Ok st' ∧ st'.(hand) = Some h ∧ st'.(nextHandId) = st.(nextHandId) + 1 ∧
     h.(handId) = st.(nextHandId) ∧ (h.(phase) = betting ∨ h.(phase) = showdown) ∧
     h.(smallBlindSeat) ≠ h.(bigBlindSeat) ∧
     h.(betTo) = blind_of st h.(smallBlindSeat) h.(bigBlindSeat) h.(bigBlindSeat) ∧
     ∀ i, (i < 9)%nat →
       rd 0 h.(totalCommit) i = blind_of st h.(smallBlindSeat) h.(bigBlindSeat) i ∧
       stack_at st'.(seats) i = stack_at st.(seats) i - blind_of st h.(smallBlindSeat) h.(bigBlindSeat) i ∧
       rd false h.(inHand) i = funded st.(seats) i).
Proof.
  intros Hwf Ht. pose proof (wf_seats _ Hwf) as Hl. split.
  - intros Ha. unfold startHand, assertIntTimestamp, seatCount9. rewrite (proj2 (Z.ltb_ge t 0)), Hl by done.
    cbn [rbind Nat.eqb negb throw_if]. rewrite (proj2 (Nat.ltb_lt _ 2)) by done. eexists. split; reflexivity.
  - intros Ha. pose proof (startHand_accepts st t Hl Ht Ha) as Hok.
    destruct (startHand st (Int t)) as [st'|] eqn:E; [clear Hok|done].
    apply startHand_inv in E as (t' & btn & sb & bb & E). cbv zeta in E.
    destruct E as (_ & _ & _ & _ & Hso & Hbo & Hs9 & Hb9 & Hne & ->).
    set (h0 := freshHand _ _ _ _ _ _ _ _ _). set (on := nextActiveInHand h0 _). clearbody on.
    set (h1 := match on with None => _ | Some _ => _ end).
    assert (Hf : h1.(handId) = nextHandId st ∧ (h1.(phase) = betting ∨ h1.(phase) = showdown) ∧ h1.(smallBlindSeat) = sb ∧
      h1.(bigBlindSeat) = bb ∧ h1.(betTo) = blindPay (seats st) bb (bigBlind (params st)) ∧
      h1.(totalCommit) = h0.(totalCommit) ∧ h1.(inHand) = map (funded (seats st)) seats9)
      by (subst h1; destruct on; repeat split; (left; reflexivity) || (right; reflexivity) || reflexivity).
    clearbody h1. destruct Hf as (F1 & F2 & F3 & F4 & F5 & F6 & F7).
    eexists _, h1. split; [reflexivity|]. cbn [hand nextHandId seats]. do 2 (split; [reflexivity|]). rewrite F3, F4, F5, F6, F7.
    do 3 (split; [done|]). split; [unfold blind_of; rewrite blindPay_min; by repeat case_decide|].
    intros i Hi. rewrite posted_stack, rd_map_seats9, (bool_decide_true (i < 9)%nat) by done. subst h0. cbn [totalCommit freshHand].
    rewrite !rd_insert, !length_insert, !length_replicate, !rd_replicate, !blindPay_min by done. unfold blind_of.
    split; [|split; [|done]]; repeat case_decide; subst; try congruence; try lia; try tauto.
Qed.

Definition seated_two : TableState := final (play blinds_5_10 [OpSit 0 "A" 100; OpSit 1 "B" 100]).

Lemma startHand_posts_witness :
  ∃ st' h, startHand seated_two (Int 0) = Ok st' ∧ st'.(hand) = Some h ∧ h.(smallBlindSeat) ≠ h.(bigBlindSeat).
Proof.
  assert (Hwf : wf_table seated_two)
    by (eapply (play_wf blinds_5_10 [OpSit 0 "A" 100; OpSit 1 "B" 100]); vm_compute; reflexivity).
  destruct (startHand_posts seated_two 0 Hwf ltac:(lia)) as [_ H].
  destruct (H ltac:(vm_compute; lia)) as (st' & h & E & Hh & _ & _ & _ & Hne & _).
  exists st', h. split; [exact E|]. split; [exact Hh|exact Hne].
Defined.

(** At showdown the side pots hold exactly the escrow, a player who has
    not folded can win from each contributor up to what that player put in, a
    folded player can win nothing, and each pot is contested by strictly fewer
    players than the one before it. *)
Theorem showdown_pots st h :
  wf_table st → st.(hand) = Some h → h.(phase) = showdown →
  potTotal h.(pots) = escrow st ∧
  (∀ i, winnable i h.(pots) =
        if rd false h.(inHand) i && negb (rd false h.(folded) i) && (0 <? rd 0 h.(totalCommit) i)
        then matched (rd 0 h.(totalCommit) i) h.(totalCommit) else 0) ∧
  Sorted narrower h.(pots).
Proof.
  intros Hwf Hh Hph. destruct (wf_hand _ Hwf h Hh) as [Hok Hp]. unfold phase_ok in Hp. rewrite Hph in Hp.
  destruct Hp as [_ ->]. rewrite computeSidePots_total. unfold escrow. rewrite Hh. split; [|split].
  - f_equal. rewrite <-(map_id (totalCommit h)) at 2. apply map_ext_in. intros x Hx. apply list_elem_of_In in Hx.
    apply list_elem_of_lookup in Hx as [i Hi]. pose proof (ok_commit _ _ Hok i) as Hc.
    rewrite (rd_lookup 0 (totalCommit h) i x Hi) in Hc. lia.
  - intros i. rewrite computeSidePots_winnable. do 2 f_equal. unfold eligible_seats, rd.
    rewrite list_lookup_imap. by destruct (inHand h !! i).
  - apply computeSidePots_narrowing.
Qed.

Lemma showdown_pots_witness :
  potTotal (hand_of all_in_showdown).(pots) = 120 ∧ winnable 1 (hand_of all_in_showdown).(pots) = 120.
Proof.
  assert (Hwf : wf_table all_in_showdown) by (eapply (play_wf blinds_5_10 all_in_ops); vm_compute; reflexivity).
  destruct (showdown_pots all_in_showdown (hand_of all_in_showdown) Hwf ltac:(vm_compute; reflexivity)
    ltac:(vm_compute; reflexivity)) as (Ht & Hw & _).
  rewrite Ht, Hw. split; vm_compute; reflexivity.
Defined.

(** Aborting a hand that is being bet or shown down gives every seat back
    what it committed, except that the two blind seats get nothing back (and
    their chips stay in the pot) when the table does not refund blinds; the
    hand ends as aborted with nobody to act.  A finished hand is left alone,
    and a table without a hand is an error. *)
Theorem abortHand_refunds st reason t :
  wf_table st → 0 <= t →
  match st.(hand) with
  | None => ∃ e, abortHand st reason (Int t) = Err e ∧ e.(code) = NO_HAND
  | Some h =>
      if bool_decide (h.(phase) = complete) || bool_decide (h.(phase) = aborted) then abortHand st reason (Int t) = Ok st
      else ∃ st' h', abortHand st reason (Int t) = Ok st' ∧ st'.(hand) = Some h' ∧
        h'.(phase) = aborted ∧ h'.(actionOn) = None ∧ h'.(pots) = [] ∧
        ∀ i, (i < 9)%nat →
          let back := if refundable st.(params) st.(seats) h i then rd 0 h.(totalCommit) i else 0 in
          stack_at st'.(seats) i = stack_at st.(seats) i + back ∧ rd 0 h'.(totalCommit) i = rd 0 h.(totalCommit) i - back
  end.
Proof.
  intros Hwf Ht. destruct (hand st) as [h|] eqn:Hh.
  all: unfold abortHand, assertIntTimestamp, seatCount9; rewrite (proj2 (Z.ltb_ge t 0)), (wf_seats _ Hwf), Hh by done.
  all: cbn [rbind Nat.eqb negb throw_if].
  2:{ eexists. split; reflexivity. }
  destruct (_ || _); [done|]. destruct (wf_hand _ Hwf h Hh) as [Hok _].
  remember (fold_left _ _ _) as r eqn:Hr. destruct (refund_loop (params st) seats9 (seats st) h r seats9_NoDup Hok Hr) as (_ & _ & Hl).
  destruct r as [ss' h']. eexists _, (abortedHand reason h'). split; [reflexivity|]. do 4 (split; [reflexivity|]).
  intros i Hi. specialize (Hl i). cbv zeta in *. cbn [fst snd] in Hl.
  rewrite (bool_decide_true (i ∈ seats9)) in Hl by (rewrite list_elem_of_In; by apply In_seats9). cbn [andb] in Hl.
  cbn [seats]. change (totalCommit (abortedHand reason h')) with (totalCommit h'). destruct Hl as [-> ->].
  destruct (refundable _ _ _ _); lia.
Qed.

Lemma abortHand_refunds_witness :
  ∃ st', abortHand heads_up "timeout" (Int 9) = Ok st' ∧ stack_at st'.(seats) 0 = 100 ∧ stack_at st'.(seats) 1 = 100.
Proof.
  pose proof (abortHand_refunds heads_up "timeout" 9 heads_up_wf ltac:(lia)) as H.
  replace (hand heads_up) with (Some (hand_of heads_up)) in H by (vm_compute; reflexivity).
  replace (bool_decide _ || bool_decide _) with false in H by (vm_compute; reflexivity).
  destruct H as (st' & h' & E & _ & _ & _ & _ & H). exists st'. split; [exact E|].
  destruct (H 0%nat ltac:(lia)) as [-> _]. destruct (H 1%nat ltac:(lia)) as [-> _]. split; vm_compute; reflexivity.
Defined.

End EngineThms.
