(* ===== verification/PokerEngineLive.v ===== *)
(** * Progress of a hand when nobody acts

    [applyTick] acts for a player whose deadline has passed.  This file shows
    that a keeper that ticks once per timeout ends every hand in which no
    player has committed more than the bet to match, and that a hand in which
    somebody has (the big blind was shorter than the small blind) never ends
    that way.  It also states who is paid when a hand ends by folds. *)
From stdpp Require Import base option list strings.
From Stdlib Require Import ZArith Lia.
From S2P Require Import Prelude PokerPots PokerEngine PokerEngineInv PokerEngineProps PokerEngineThms.
Import Pots Engine EngineInv EngineProps EngineThms.

Module EngineLive.

(** A keeper that calls [applyTick] at [t] and then once per timeout. *)
Fixpoint expire (n : nat) (t : Z) (st : TableState) : res TableState :=
  match n with
  | O => Ok st
  | S n => let! st' := applyTick st (Int t) in expire n (t + st.(params).(actionTimeoutSecs)) st'
  end.

Definition in_betting (st : TableState) : bool :=
  match st.(hand) with Some h => bool_decide (h.(phase) = betting) | None => false end.

(** The bet to match covers what every seat has put in. *)
Definition covered (h : HandState) : Prop := ∀ j, rd 0 h.(streetCommit) j <= h.(betTo).

(** What is left to do: the streets to come, and the players still to act. *)
Definition streets_left (s : Street) : nat :=
  match s with preflop => 3 | flop => 2 | turn => 1 | river => 0 end.
Definition pending (h : HandState) : nat := length (List.filter (needsToAct h) seats9).
Definition measure (h : HandState) : nat := (streets_left h.(street) * 10 + pending h)%nat.

(** ** One expired deadline *)

(** The default action of [applyTick]. *)
Definition default_action (h : HandState) (i : nat) : Action :=
  if toCall h i =? 0 then Check_ (Z.of_nat i) else Fold (Z.of_nat i).
Definition timed_out (h : HandState) (i : nat) : HandState :=
  push_event (ActionApplied i (default_action h i)) (if toCall h i =? 0 then acted i h else applyFold h i).

Lemma applyTick_expired st h i d t :
  wf_table st → st.(hand) = Some h → h.(phase) = betting → h.(actionOn) = Some i → h.(actionDeadlineTs) = Some d →
  0 <= t → d <= t →
  let r := maybeAdvance st.(params) st.(seats) (timed_out h i) t in
  applyTick st (Int t) = Ok (mkTable st.(params) r.1 st.(button) st.(nextHandId)
    (Some (push_event (TimeoutApplied i (if toCall h i =? 0 then defaultCheck else defaultFold)) r.2))).
Proof.
  intros Hwf Hh Hph Hon Hd Ht Hdt r.
  destruct (wf_turn st h Hwf Hh Hph) as (_ & _ & j & d' & Hi & Hon' & _ & Hn & Ho & _).
  rewrite Hon in Hon'. injection Hon' as <-.
  unfold applyTick, assertIntTimestamp, seatCount9. rewrite (proj2 (Z.ltb_ge t 0)), (wf_seats _ Hwf), Hh by done.
  cbn [rbind Nat.eqb negb throw_if]. rewrite bool_decide_true, Hon, Hd, (proj2 (Z.ltb_ge t d)) by done. cbn [negb].
  fold (default_action h i).
  assert (Ha : action_seat (default_action h i) = Z.of_nat i) by (unfold default_action; by case_goal).
  rewrite (applyAction_on_turn st (default_action h i) t h i) by (done || by apply wf_seats).
  assert (Hp : perform (params st) (seats st) h i (default_action h i) = Ok (seats st, if toCall h i =? 0 then acted i h else applyFold h i)).
  { unfold default_action. destruct (toCall h i =? 0) eqn:Ec; [|done]. cbn [perform]. unfold applyCheck. by rewrite Ec. }
  rewrite Hp. reflexivity.
Qed.

Lemma needsToAct_timed_out h i j :
  covered h → (i < length h.(lastIntervalActed))%nat → (i < length h.(folded))%nat →
  needsToAct (timed_out h i) j = needsToAct h j && negb (j =? i)%nat.
Proof.
  intros Hc Hl Hf. unfold timed_out, push_event, needsToAct, default_action. specialize (Hc i).
  destruct (toCall h i =? 0) eqn:Et; unfold applyFold; rds; destruct (j =? i)%nat eqn:Ej; b2p; subst; try lia; cbn [negb];
    rewrite ?andb_true_r, ?andb_false_r; try done; unfold toCall in Et.
  - assert (rd 0 (streetCommit h) i = betTo h) as -> by (destruct (_ <? _) eqn:E in Et; b2p; lia).
    rewrite !Z.eqb_refl. by repeat case_goal.
  - by case_goal.
Qed.

Lemma pending_timed_out h i :
  covered h → length h.(lastIntervalActed) = 9%nat → length h.(folded) = 9%nat → (i < 9)%nat → needsToAct h i = true →
  (pending (timed_out h i) < pending h)%nat.
Proof.
  intros Hc Hl Hf Hi Hn. unfold pending.
  rewrite (List.filter_ext _ (λ j, needsToAct h j && negb (j =? i)%nat)) by (intros j; apply needsToAct_timed_out; [done|lia..]).
  apply In_seats9 in Hi. induction seats9 as [|k l IH]; [done|]. simpl.
  assert (Hle : (length (List.filter (λ j, needsToAct h j && negb (j =? i)%nat) l) <= length (List.filter (needsToAct h) l))%nat).
  { clear. induction l as [|m l IH]; simpl; [lia|]. destruct (needsToAct h m), (m =? i)%nat; simpl; lia. }
  destruct Hi as [->|Hi]; [rewrite Hn, Nat.eqb_refl; simpl; lia|].
  specialize (IH Hi). destruct (needsToAct h k), (k =? i)%nat; simpl; lia.
Qed.

(** ** Ending by folds *)

Lemma completeByFolds_wins ss h :
  hand_ok ss h → (1 <= countNotFolded h)%nat →
  ∃ w, (w < 9)%nat ∧ rd false h.(inHand) w = true ∧ rd false h.(folded) w = false ∧
    let r := returnUncalledStreetExcess ss h in
    let r' := completeByFolds ss h in
    r'.2.(phase) = complete ∧ r'.2.(winnerSeat) = Some w ∧ r'.2.(totalCommit) = replicate 9 0 ∧
    ∀ j, stack_at r'.1 j = stack_at r.1 j + (if decide (j = w) then sumZ r.2.(totalCommit) else 0).
Proof.
  intros Hok Hn. unfold completeByFolds. destruct (List.find _ _) as [w|] eqn:Ew.
  2:{ destruct (filter_nonempty _ _ Hn) as (i & Hi & Hf). eapply List.find_none in Ew; [|exact Hi]. simpl in Ew. congruence. }
  apply List.find_some in Ew as [Hw Hf]. b2p. apply In_seats9 in Hw. exists w. do 3 (split; [done|]).
  pose proof (returnUncalled_ok ss h Hok) as Hok'. pose proof (returnUncalled_occ ss h w) as Hocc.
  rewrite (ok_inHand _ _ Hok w) in Hocc by done.
  destruct (returnUncalledStreetExcess ss h) as [ss' h'] eqn:Er. cbn [fst snd] in *. rewrite Hocc. cbn [negb fst snd].
  rewrite fold_sum9 by apply Hok'. do 3 (split; [reflexivity|]). intros j. rewrite stack_at_set by done.
  repeat case_decide; subst; done || lia.
Qed.

(** ** Progress *)

Lemma pending_le h : (pending h <= 9)%nat.
Proof. unfold pending. etransitivity; [apply List.filter_length_le|done]. Qed.

Lemma deadline_set p ev on h t :
  let h1 := set_actionOn on h in
  let h' := push_event ev (set_actionDeadlineTs (deadline p h1.(actionOn) t) h1) in
  h'.(actionDeadlineTs) = deadline p h'.(actionOn) t.
Proof. reflexivity. Qed.

Lemma advanceStreet_deadline p ss h t :
  (advanceStreet p ss h t).(actionDeadlineTs) = deadline p (advanceStreet p ss h t).(actionOn) t.
Proof. unfold advanceStreet. apply deadline_set. Qed.

Lemma maybeAdvance_progress p ss h t :
  hand_ok ss h → h.(phase) = betting → (1 <= countNotFolded h)%nat → covered h →
  let h' := (maybeAdvance p ss h t).2 in
  h'.(phase) ≠ betting ∨
  covered h' ∧ h'.(actionDeadlineTs) = deadline p h'.(actionOn) t ∧ (measure h' <= measure h)%nat.
Proof.
  intros Hok Hph Hn Hc h'. subst h'. unfold maybeAdvance. destruct (_ <=? 1)%nat.
  { left. destruct (completeByFolds_wins ss h Hok Hn) as (w & _ & _ & _ & H & _). by rewrite H. }
  destruct (streetComplete h); cbn [negb]; [|by right].
  pose proof (returnUncalled_frame ss h) as (_ & Hs & _). cbn zeta in Hs.
  destruct (returnUncalledStreetExcess ss h) as [ss' h1]. cbn [snd] in Hs.
  case_bool_decide as Hr; [left; change (showdown ≠ betting); discriminate|].
  destruct (_ <? 2)%nat; [left; change (showdown ≠ betting); discriminate|]. right. cbn [snd].
  split; [|split; [apply advanceStreet_deadline|]].
  - intros j. change (rd 0 (replicate 9 0) j <= 0). unfold rd. destruct (_ !! j) eqn:E; [|done].
    by apply lookup_replicate in E as [-> _].
  - unfold measure. change (street (advanceStreet p ss' h1 t)) with (nextStreet (street h1)).
    pose proof (pending_le (advanceStreet p ss' h1 t)). rewrite <-Hs. destruct (street h1); simpl; lia || done.
Qed.

Lemma timed_out_ok st h i :
  wf_table st → st.(hand) = Some h → h.(phase) = betting → h.(actionOn) = Some i →
  hand_ok st.(seats) (timed_out h i) ∧ (1 <= countNotFolded (timed_out h i))%nat.
Proof.
  intros Hwf Hh Hph Hon. destruct (wf_hand _ Hwf h Hh) as [Hok Hp]. unfold phase_ok in Hp. rewrite Hph in Hp.
  destruct Hp as [Hall [Hn _]]. pose proof (wf_blinds _ Hwf) as Hbl.
  destruct (wf_turn st h Hwf Hh Hph) as (_ & _ & j & d & Hi & Hon' & _ & _ & _ & Hin).
  rewrite Hon in Hon'. injection Hon' as <-.
  assert (Hp : perform (params st) (seats st) h i (default_action h i) = Ok (seats st, if toCall h i =? 0 then acted i h else applyFold h i)).
  { unfold default_action. destruct (toCall h i =? 0) eqn:Ec; [|done]. cbn [perform]. unfold applyCheck. by rewrite Ec. }
  apply perform_ok in Hp as [H1 H2 H3 H4 H5]; [|lia|done..]. cbn [fst snd] in *. unfold timed_out. split; [by hand_ext|].
  change (countNotFolded (push_event ?e ?x)) with (countNotFolded x). lia.
Qed.

Lemma tick_progress st h d t :
  wf_table st → st.(hand) = Some h → h.(phase) = betting → h.(actionDeadlineTs) = Some d → covered h → 0 <= t → d <= t →
  ∃ st' h', applyTick st (Int t) = Ok st' ∧ wf_table st' ∧ st'.(params) = st.(params) ∧ st'.(hand) = Some h' ∧
    (h'.(phase) ≠ betting ∨
     h'.(phase) = betting ∧ covered h' ∧ h'.(actionDeadlineTs) = Some (t + st.(params).(actionTimeoutSecs)) ∧ (measure h' < measure h)%nat).
Proof.
  intros Hwf Hh Hph Hd Hc Ht Hdt.
  destruct (wf_turn st h Hwf Hh Hph) as (Hok & _ & i & d' & Hi & Hon & _ & Hn & _ & _).
  pose proof (applyTick_expired st h i d t Hwf Hh Hph Hon Hd Ht Hdt) as Htick. cbv zeta in Htick.
  destruct (timed_out_ok st h i Hwf Hh Hph Hon) as [Hok1 Hn1].
  assert (Hph1 : phase (timed_out h i) = betting) by (unfold timed_out; by destruct (toCall h i =? 0)).
  assert (Hc1 : covered (timed_out h i)) by (unfold timed_out; by destruct (toCall h i =? 0)).
  pose proof (maybeAdvance_progress (params st) (seats st) (timed_out h i) t Hok1 Hph1 Hn1 Hc1) as Hpr. cbv zeta in Hpr.
  pose proof (pending_timed_out h i Hc (ok_len_last _ _ Hok) (ok_len_folded _ _ Hok) Hi Hn) as Hpend.
  assert (Hm : (measure (timed_out h i) < measure h)%nat).
  { unfold measure. replace (street (timed_out h i)) with (street h); [lia|]. unfold timed_out. by destruct (toCall h i =? 0). }
  destruct (applyTick_wf_chips st (Int t) _ Hwf Htick) as [Hwf' _].
  set (r := maybeAdvance _ _ _ _) in *. clearbody r. destruct r as [ss2 h2]. cbn [fst snd] in *.
  eexists _, _. split; [exact Htick|]. split; [exact Hwf'|]. split; [reflexivity|]. split; [reflexivity|].
  destruct Hpr as [Hpr|(H1 & H2 & H3)]; [by left|]. destruct (decide (phase h2 = betting)) as [Hb|Hb]; [|by left]. right.
  destruct (wf_turn _ _ Hwf' eq_refl Hb) as (_ & _ & j & d2 & _ & Hj & _). change (actionOn (push_event _ h2)) with (actionOn h2) in Hj.
  rewrite Hj in H2. split; [done|]. split; [exact H1|]. split; [exact H2|].
  change (measure (push_event _ h2)) with (measure h2). lia.
Qed.

(** C16. A hand in which the bet covers every commitment ends by timeouts alone:
    a keeper that calls [applyTick] when the deadline has passed, and then once
    per timeout, never meets an error and within 40 calls (at most nine players
    on each of four streets) reaches a showdown or a win by folds. *)
Theorem timeouts_end_hand st h d t :
  wf_table st → st.(hand) = Some h → h.(phase) = betting → h.(actionDeadlineTs) = Some d → covered h → 0 <= t → d <= t →
  ∃ n st', (n <= 40)%nat ∧ expire n t st = Ok st' ∧ wf_table st' ∧ in_betting st' = false.
Proof.
  intros Hwf Hh Hph Hd Hc Ht Hdt.
  assert (Hm : (measure h <= 39)%nat) by (unfold measure; pose proof (pending_le h); destruct (street h); simpl; lia).
  enough (∃ n st', (n <= S (measure h))%nat ∧ expire n t st = Ok st' ∧ wf_table st' ∧ in_betting st' = false)
    as (n & st' & Hn & H) by (exists n, st'; split; [lia|done]).
  clear Hm. remember (measure h) as m eqn:Em. revert st h d t Hwf Hh Hph Hd Hc Ht Hdt Em.
  induction m as [m IH] using lt_wf_ind. intros st h d t Hwf Hh Hph Hd Hc Ht Hdt ->.
  pose proof (wf_timeout _ Hwf) as Hto.
  destruct (tick_progress st h d t Hwf Hh Hph Hd Hc Ht Hdt) as (st1 & h1 & Htick & Hwf1 & Hp1 & Hh1 & [Hend|(Hb & Hc1 & Hd1 & Hlt)]).
  - exists 1%nat, st1. split; [lia|]. cbn [expire]. rewrite Htick. do 2 (split; [done|]).
    unfold in_betting. rewrite Hh1. by rewrite bool_decide_false.
  - destruct (IH _ Hlt st1 h1 _ (t + actionTimeoutSecs (params st)) Hwf1 Hh1 Hb Hd1 Hc1 ltac:(lia) ltac:(lia) eq_refl)
      as (n & st' & Hn & He & Hwf' & Hnb).
    exists (S n), st'. split; [lia|]. cbn [expire]. rewrite Htick. done.
Qed.

Lemma timeouts_end_hand_witness :
  ∃ n st', (n <= 40)%nat ∧ expire n 30 heads_up = Ok st' ∧ wf_table st' ∧ in_betting st' = false.
Proof.
  apply (timeouts_end_hand heads_up (hand_of heads_up) 30 30 heads_up_wf).
  1-3: vm_compute; reflexivity.
  - intros j. do 9 (destruct j as [|j]; [vm_compute; discriminate|]). vm_compute. discriminate.
  - lia.
  - lia.
Defined.

(** ** A hand that cannot end *)

(** Seat [i] is to act, has put in more than the bet to match, and nobody else
    has anything to do. *)
Definition stalled (i : nat) (st : TableState) : Prop :=
  wf_table st ∧ ∃ h, st.(hand) = Some h ∧ h.(phase) = betting ∧ h.(street) = preflop ∧ h.(actionOn) = Some i ∧
    h.(betTo) < rd 0 h.(streetCommit) i ∧ ∀ j, j ≠ i → needsToAct h j = false.

(** Ticks at any time, and checks by the player to act. *)
Definition idle (i : nat) (op : operation) : Prop :=
  ∃ t, 0 <= t ∧ (op = OpTick (Int t) ∨ op = OpAction (Check_ (Z.of_nat i)) (Int t)).

Lemma overcommitted_acted h i j ev :
  h.(betTo) < rd 0 h.(streetCommit) i → needsToAct h i = true →
  needsToAct (push_event ev (acted i h)) j = true ↔ needsToAct h j = true.
Proof.
  intros Hlt Hn. unfold needsToAct, push_event in *. rds; [|done]. destruct H as [<- _].
  rewrite Z.eqb_refl, (proj2 (Z.eqb_neq (rd 0 (streetCommit h) i) _)) in * by lia. cbn [negb orb] in *.
  rewrite orb_true_r in *. done.
Qed.

Lemma check_stalls p ss h i ev t :
  (2 <= countNotFolded h)%nat → (i < 9)%nat → h.(betTo) < rd 0 h.(streetCommit) i → needsToAct h i = true →
  h.(actionOn) = Some i → (∀ j, j ≠ i → needsToAct h j = false) →
  let h1 := push_event ev (acted i h) in
  maybeAdvance p ss h1 t = (ss, set_actionDeadlineTs (Some (t + p.(actionTimeoutSecs))) (set_actionOn (Some i) h1)).
Proof.
  intros Hn2 Hi Hlt Hn Hon Ho h1. assert (Hn1 : ∀ j, needsToAct h1 j = true ↔ needsToAct h j = true)
    by (intros j; by apply overcommitted_acted).
  unfold maybeAdvance. change (countNotFolded h1) with (countNotFolded h). rewrite (proj2 (Nat.leb_gt _ 1)) by lia.
  rewrite (proj2 (streetComplete_false h1)) by (exists i; by rewrite Hn1). cbn [negb].
  change (actionOn h1) with (actionOn h). rewrite Hon. cbn [default id].
  destruct (nextActive_exists h1 (Z.of_nat i) i) as [s Hs]; [lia|done|by rewrite Hn1|].
  assert (s = i) as ->; [|by rewrite Hs].
  apply nextActive_some in Hs as [_ Hs]; [|lia]. apply Hn1 in Hs. destruct (decide (s = i)) as [|Hne]; [done|].
  by rewrite Ho in Hs.
Qed.

Lemma idle_stalled i st op n :
  stalled i st → idle i op → ∃ st', exec st op = Ok st' ∧ n + account_delta st op = n ∧ stalled i st'.
Proof.
  intros (Hwf & h & Hh & Hph & Hst & Hon & Hlt & Ho) (t & Ht & Hop).
  destruct (wf_turn st h Hwf Hh Hph) as (Hok & _ & i' & d & Hi & Hon' & Hd & Hn & Hocc & _).
  rewrite Hon in Hon'. injection Hon' as <-.
  destruct (wf_hand _ Hwf h Hh) as [_ Hp]. unfold phase_ok in Hp. rewrite Hph in Hp. destruct Hp as [_ [Hn2 _]].
  assert (Hc : toCall h i = 0) by (unfold toCall; by rewrite (proj2 (Z.ltb_ge 0 _)) by lia).
  assert (Hkeep : ∀ ss h1, wf_table (mkTable st.(params) ss st.(button) st.(nextHandId) (Some h1)) →
    h1.(phase) = h.(phase) → h1.(street) = h.(street) → h1.(actionOn) = Some i → h1.(betTo) = h.(betTo) →
    h1.(streetCommit) = h.(streetCommit) → (∀ j, needsToAct h1 j = true ↔ needsToAct h j = true) →
    stalled i (mkTable st.(params) ss st.(button) st.(nextHandId) (Some h1))).
  { intros ss h1 Hwf1 E1 E2 E3 E4 E5 E6. split; [done|]. exists h1. rewrite E1, E2, E3, E4, E5. do 5 (split; [done|]).
    intros j Hj. specialize (Ho j Hj). apply not_true_iff_false. by rewrite E6, Ho. }
  destruct Hop as [->| ->]; cbn [exec account_delta]; rewrite Z.add_0_r.
  - destruct (decide (d <= t)) as [Hdt|Hdt].
    + pose proof (applyTick_expired st h i d t Hwf Hh Hph Hon Hd Ht Hdt) as Htick. cbv zeta in Htick.
      unfold timed_out in Htick. rewrite Hc in Htick. cbn [Z.eqb] in Htick.
      rewrite (check_stalls _ _ h i _ t Hn2 Hi Hlt Hn Hon Ho) in Htick. cbn [fst snd] in Htick.
      destruct (applyTick_wf_chips st (Int t) _ Hwf Htick) as [Hwf' _].
      eexists. split; [exact Htick|]. split; [done|]. apply Hkeep; [exact Hwf'|reflexivity..|].
      intros j. exact (overcommitted_acted h i j (ActionApplied i (default_action h i)) Hlt Hn).
    + exists st. split; [|split; [done|split; [done|by exists h]]].
      unfold applyTick, assertIntTimestamp, seatCount9. rewrite (proj2 (Z.ltb_ge t 0)), (wf_seats _ Hwf), Hh by done.
      cbn [rbind Nat.eqb negb throw_if]. by rewrite bool_decide_true, Hon, Hd, (proj2 (Z.ltb_lt t d)) by (done || lia).
  - pose proof (applyAction_on_turn st (Check_ (Z.of_nat i)) t h i (wf_seats _ Hwf) Ht Hh Hph Hi eq_refl Hocc Hon Hn) as Hact.
    cbn [perform] in Hact. unfold applyCheck in Hact. rewrite Hc in Hact. cbn [Z.eqb negb throw_if rbind rmap] in Hact.
    unfold settle in Hact. cbn [fst snd] in Hact. rewrite (check_stalls _ _ h i _ t Hn2 Hi Hlt Hn Hon Ho) in Hact. cbn [fst snd] in Hact.
    destruct (applyAction_wf_chips st _ (Int t) _ Hwf Hact) as [Hwf' _].
    eexists. split; [exact Hact|]. split; [done|]. apply Hkeep; [exact Hwf'|reflexivity..|].
    intros j. exact (overcommitted_acted h i j (ActionApplied i (Check_ (Z.of_nat i))) Hlt Hn).
Qed.

(** A stalled hand never ends while the players only check and the keeper
    only ticks: after any number of checks by the player to act and timeouts,
    however late, the table is stalled in the same way on the first street.
    [startHand] reaches such a table when the big blind is all in for less than
    the small blind, since the bet to match is then what the big blind paid. *)
Theorem short_big_blind_stalls i st n ops :
  stalled i st → Forall (idle i) ops → ∃ st', run st n ops = Ok (st', n) ∧ stalled i st'.
Proof.
  intros Hs Hops. revert st Hs. induction Hops as [|op ops Hop Hops IH]; intros st Hs; [by exists st|].
  destruct (idle_stalled i st op n Hs Hop) as (st1 & E & Hn & Hs1).
  destruct (IH st1 Hs1) as (st' & Hr & Hs'). exists st'. cbn [run]. rewrite E. cbn [rbind]. by rewrite Hn.
Qed.

Lemma short_big_blind_stalls_witness :
  ∃ st', run short_big_blind 103 [OpTick (Int 30); OpTick (Int 60); OpAction (Check_ 0) (Int 61); OpTick (Int 1000)] = Ok (st', 103)
    ∧ stalled 0 st'.
Proof.
  apply (short_big_blind_stalls 0 short_big_blind).
  - split; [exact short_big_blind_wf|]. exists (hand_of short_big_blind).
    do 5 (split; [vm_compute; reflexivity|]). intros j Hj.
    destruct j as [|j]; [congruence|]. do 8 (destruct j as [|j]; [vm_compute; reflexivity|]). vm_compute. reflexivity.
  - repeat constructor; eexists; (split; [|by (left + right)]); lia.
Defined.

End EngineLive.
