(* ===== verification/HoldemEval.v ===== *)
(** * Hand evaluation: [packages/holdem-eval/src]

    [cards.ts] numbers the deck 0..51 ([suit * 13 + rank - 2]) and prints and
    parses cards; [handRank.ts] orders hand ranks; [evaluate.ts] ranks five
    cards, takes the best five of seven, and picks the winning seats.

    A [number] that the code uses as a card, rank or suit is a [Z]; the
    integer test of [assertValidCardId] is on [number].  [Array.prototype.sort]
    is the prelude's [sort_by], and the insertion-ordered [Map] of rank counts
    is an association list. *)
From stdpp Require Import base option list strings sorting.
From Stdlib Require Import ZArith Lia Ascii.
From S2P Require Import Prelude.

Module Holdem.

(** The two exception classes thrown, with the fixed part of the message. *)
Inductive EvalError := RangeError (msg : string) | TypeError (msg : string).
Abbreviation res := (result EvalError).

(** ** cards.ts *)

Definition RANK_CHARS : list ascii := ["2"; "3"; "4"; "5"; "6"; "7"; "8"; "9"; "T"; "J"; "Q"; "K"; "A"]%char.
Definition SUIT_CHARS : list ascii := ["c"; "d"; "h"; "s"]%char.

Definition assertValidCardId (card : number) : res Z :=
  match card with
  | Int c => if (c <? 0) || (51 <? c) then Err (RangeError "Invalid card id") else Ok c
  | NotInteger => Err (RangeError "Invalid card id")
  end.

Definition cardSuit (card : number) : res Z :=
  let! c := assertValidCardId card in Ok (c / 13).

Definition cardRank (card : number) : res Z :=
  let! c := assertValidCardId card in Ok (Z.rem c 13 + 2).

Definition cardIdFromRankSuit (rank suit : number) : res Z :=
  match rank with
  | NotInteger => Err (RangeError "Invalid rank")
  | Int rank =>
      let! _ := throw_if ((rank <? 2) || (14 <? rank)) (RangeError "Invalid rank") in
      match suit with
      | NotInteger => Err (RangeError "Invalid suit")
      | Int suit =>
          let! _ := throw_if ((suit <? 0) || (3 <? suit)) (RangeError "Invalid suit") in
          Ok (suit * 13 + (rank - 2))
      end
  end.

Definition cardToString (card : number) : res string :=
  let! suit := cardSuit card in
  let! c := assertValidCardId card in
  Ok (String (rd " "%char RANK_CHARS (Z.to_nat (Z.rem c 13))) (String (rd " "%char SUIT_CHARS (Z.to_nat suit)) EmptyString)).

(** [toLowerCase] of an ASCII character. *)
Definition toLowerCase (c : ascii) : ascii :=
  let n := nat_of_ascii c in
  if ((65 <=? n) && (n <=? 90))%nat then ascii_of_nat (n + 32) else c.

(** [Array.prototype.indexOf], [None] for -1. *)
Fixpoint indexOf (c : ascii) (l : list ascii) : option Z :=
  match l with
  | [] => None
  | x :: l => if (c =? x)%char then Some 0 else Z.succ <$> indexOf c l
  end.

Definition cardFromString (s : string) : res Z :=
  match s with
  | String rankChar (String suitChar EmptyString) =>
      match indexOf rankChar RANK_CHARS with
      | None => Err (RangeError "Invalid rank character")
      | Some rankIndex =>
          match indexOf (toLowerCase suitChar) SUIT_CHARS with
          | None => Err (RangeError "Invalid suit character")
          | Some suitIndex => Ok (suitIndex * 13 + rankIndex)
          end
      end
  | _ => Err (TypeError "Invalid card string")
  end.

(** ** handRank.ts *)

Inductive HandCategory :=
| HighCard | OnePair | TwoPair | Trips | Straight | Flush | FullHouse | Quads | StraightFlush.

Definition category_value (c : HandCategory) : Z :=
  match c with
  | HighCard => 0 | OnePair => 1 | TwoPair => 2 | Trips => 3 | Straight => 4
  | Flush => 5 | FullHouse => 6 | Quads => 7 | StraightFlush => 8
  end.

Record HandRank := mkRank { category : HandCategory; tiebreakers : list Z }.

#[export] Instance HandCategory_eq_dec : EqDecision HandCategory.
Proof. solve_decision. Defined.
#[export] Instance HandRank_eq_dec : EqDecision HandRank.
Proof. solve_decision. Defined.

(** The loop over the tiebreakers: missing entries count as 0. *)
Fixpoint compareTiebreakers (a b : list Z) (len : nat) : comparison :=
  match len with
  | O => Eq
  | S len =>
      let av := rd 0 a 0 in
      let bv := rd 0 b 0 in
      if av =? bv then compareTiebreakers (tail a) (tail b) len
      else if av <? bv then Lt else Gt
  end.

(** -1, 0 and 1 are [Lt], [Eq] and [Gt]. *)
Definition compareHandRank (a b : HandRank) : comparison :=
  if category_value a.(category) =? category_value b.(category) then
    compareTiebreakers a.(tiebreakers) b.(tiebreakers) (Nat.max (length a.(tiebreakers)) (length b.(tiebreakers)))
  else if category_value a.(category) <? category_value b.(category) then Lt else Gt.

(** ** evaluate.ts *)

Fixpoint assertDistinct_from (seen : list Z) (cards : list number) : res (list Z) :=
  match cards with
  | [] => Ok []
  | c :: cards =>
      let! c := assertValidCardId c in
      let! _ := throw_if (bool_decide (c ∈ seen)) (RangeError "duplicate card id") in
      let! cs := assertDistinct_from (c :: seen) cards in
      Ok (c :: cs)
  end.
Definition assertDistinct (cards : list number) : res (list Z) := assertDistinct_from [] cards.

(** [.sort((a, b) => b - a)] *)
Definition sortDesc : list Z → list Z := sort_by Z.geb.

Definition descends_by_one (l : list Z) : bool :=
  forallb (λ i, rd 0 l (i - 1) - 1 =? rd 0 l i) (seq 1 (length l - 1)).

Definition straightHighFromRanksDesc (u : list Z) : option Z :=
  if negb (length u =? 5)%nat then None else
  let hasAce := rd 0 u 0 =? 14 in
  let wheel := hasAce && (rd 0 u 1 =? 5) && (rd 0 u 2 =? 4) && (rd 0 u 3 =? 3) && (rd 0 u 4 =? 2) in
  if wheel then Some 5 else
  if descends_by_one u then Some (rd 0 u 0) else None.

Definition ranksDesc (cards : list number) : res (list Z) :=
  let! ranks := mapR cardRank cards in Ok (sortDesc ranks).

(** [counts.get(r) ?? 0] and [counts.set(r, n)] on the insertion-ordered map. *)
Fixpoint count_get (r : Z) (m : list (Z * Z)) : Z :=
  match m with
  | [] => 0
  | (k, n) :: m => if k =? r then n else count_get r m
  end.
Fixpoint count_set (r n : Z) (m : list (Z * Z)) : list (Z * Z) :=
  match m with
  | [] => [(r, n)]
  | (k, n') :: m => if k =? r then (k, n) :: m else (k, n') :: count_set r n m
  end.
Definition rankCounts (ranks : list Z) : list (Z * Z) :=
  fold_left (λ m r, count_set r (count_get r m + 1) m) ranks [].

(** [{ rank, count }], and the order of [groups]: by count, then by rank. *)
Definition g_rank (g : Z * Z) : Z := g.1.
Definition g_count (g : Z * Z) : Z := g.2.
Definition group_le (a b : Z * Z) : bool :=
  if g_count b =? g_count a then g_rank b <=? g_rank a else g_count b <=? g_count a.

(** [groups[i]]; the code reads only entries that exist. *)
Definition group_at (groups : list (Z * Z)) (i : nat) : Z * Z := rd (0, 0) groups i.
Definition singles (groups : list (Z * Z)) : list Z :=
  sortDesc (map g_rank (List.filter (λ g, g_count g =? 1) groups)).
(** [groups.find((g) => g.count === 1)!.rank] *)
Definition kickerOf (groups : list (Z * Z)) : res Z :=
  match List.find (λ g, g_count g =? 1) groups with
  | Some g => Ok (g_rank g)
  | None => Err (TypeError "undefined")
  end.

(** The body of [evaluate5] after the ranks are sorted. *)
Definition classify (ranks : list Z) (isFlush : bool) : res HandRank :=
  let counts := rankCounts ranks in
  let uniqueRanksDesc := sortDesc (map fst counts) in
  let straightHigh := straightHighFromRanksDesc uniqueRanksDesc in
  let isStraight := (length uniqueRanksDesc =? 5)%nat && match straightHigh with Some _ => true | None => false end in
  let groups := sort_by group_le counts in
  let g0 := group_at groups 0 in
  let g1 := group_at groups 1 in
  if isStraight && isFlush then Ok (mkRank StraightFlush [default 0 straightHigh]) else
  if g_count g0 =? 4 then
    let! kicker := kickerOf groups in Ok (mkRank Quads [g_rank g0; kicker]) else
  if (g_count g0 =? 3) && (g_count g1 =? 2) then Ok (mkRank FullHouse [g_rank g0; g_rank g1]) else
  if isFlush then Ok (mkRank Flush ranks) else
  if isStraight then Ok (mkRank Straight [default 0 straightHigh]) else
  if g_count g0 =? 3 then Ok (mkRank Trips (g_rank g0 :: singles groups)) else
  if (g_count g0 =? 2) && (g_count g1 =? 2) then
    let pairRanks := sortDesc [g_rank g0; g_rank g1] in
    let! kicker := kickerOf groups in
    Ok (mkRank TwoPair [rd 0 pairRanks 0; rd 0 pairRanks 1; kicker]) else
  if g_count g0 =? 2 then Ok (mkRank OnePair (g_rank g0 :: singles groups)) else
  Ok (mkRank HighCard ranks).

Definition evaluate5 (cards5 : list number) : res HandRank :=
  let! _ := throw_if (negb (length cards5 =? 5)%nat) (RangeError "evaluate5 expected 5 cards") in
  let! _ := assertDistinct cards5 in
  let! suits := mapR cardSuit cards5 in
  let isFlush := forallb (λ s, s =? rd 0 suits 0) suits in
  let! ranks := ranksDesc cards5 in
  classify ranks isFlush.

Definition COMBOS_7_CHOOSE_5 : list (list nat) :=
  [[0; 1; 2; 3; 4]; [0; 1; 2; 3; 5]; [0; 1; 2; 3; 6]; [0; 1; 2; 4; 5]; [0; 1; 2; 4; 6]; [0; 1; 2; 5; 6];
   [0; 1; 3; 4; 5]; [0; 1; 3; 4; 6]; [0; 1; 3; 5; 6]; [0; 1; 4; 5; 6]; [0; 2; 3; 4; 5]; [0; 2; 3; 4; 6];
   [0; 2; 3; 5; 6]; [0; 2; 4; 5; 6]; [0; 3; 4; 5; 6]; [1; 2; 3; 4; 5]; [1; 2; 3; 4; 6]; [1; 2; 3; 5; 6];
   [1; 2; 4; 5; 6]; [1; 3; 4; 5; 6]; [2; 3; 4; 5; 6]]%nat.

(** The cards a combination selects. *)
Definition select (cards : list number) (combo : list nat) : list number := map (rd NotInteger cards) combo.

Definition is_gt (c : comparison) : bool := match c with Gt => true | _ => false end.

(** One turn of the loop of [evaluate7]. *)
Definition keepBetter (best : option HandRank) (rank : HandRank) : option HandRank :=
  match best with
  | None => Some rank
  | Some b => if is_gt (compareHandRank rank b) then Some rank else best
  end.
Fixpoint best5 (cards : list number) (combos : list (list nat)) (best : option HandRank) : res (option HandRank) :=
  match combos with
  | [] => Ok best
  | combo :: combos =>
      let! rank := evaluate5 (select cards combo) in best5 cards combos (keepBetter best rank)
  end.

Definition evaluate7 (cards7 : list number) : res HandRank :=
  let! _ := throw_if (negb (length cards7 =? 7)%nat) (RangeError "evaluate7 expected 7 cards") in
  let! _ := assertDistinct cards7 in
  let! best := best5 cards7 COMBOS_7_CHOOSE_5 None in
  match best with Some r => Ok r | None => Err (TypeError "undefined") end.

(** One seat of [winners]. *)
Definition winnerStep (board : list number) (acc : option HandRank * list Z) (e : Z * list number)
  : res (option HandRank * list Z) :=
  let (seat, hole) := e in
  let! _ := throw_if (negb (length hole =? 2)%nat) (TypeError "Invalid hole cards") in
  let! _ := assertDistinct (board ++ hole) in
  let! rank := evaluate7 (board ++ hole) in
  match acc.1 with
  | None => Ok (Some rank, [seat])
  | Some best =>
      match compareHandRank rank best with
      | Gt => Ok (Some rank, [seat])
      | Eq => Ok (acc.1, acc.2 ++ [seat])
      | Lt => Ok acc
      end
  end.
Fixpoint winnersLoop (board : list number) (entries : list (Z * list number)) (acc : option HandRank * list Z)
  : res (option HandRank * list Z) :=
  match entries with
  | [] => Ok acc
  | e :: entries => let! acc := winnerStep board acc e in winnersLoop board entries acc
  end.

(** The entries with an integer seat. *)
Definition integerSeats (holeCardsBySeat : list (number * list number)) : list (Z * list number) :=
  flat_map (λ e, match e.1 with Int seat => [(seat, e.2)] | NotInteger => [] end) holeCardsBySeat.

Definition winners (board5 : list number) (holeCardsBySeat : list (number * list number)) : res (list Z) :=
  let! _ := throw_if (negb (length board5 =? 5)%nat) (RangeError "winners expected 5 board cards") in
  let! _ := assertDistinct board5 in
  let! acc := winnersLoop board5 (integerSeats holeCardsBySeat) (None, []) in
  Ok (sort_by Z.leb acc.2).

End Holdem.
