(* ===== verification/HoldemThms.v ===== *)
(** * Correctness of hand evaluation

    [evaluate5] returns the greatest rank the five cards fit, for a declarative
    reading of the poker categories ([fits]); [evaluate7] the greatest rank
    any five of the seven fit; [winners] exactly the seats that no other seat
    beats.  The comparison they use is a total preorder, and the card strings
    and numbers convert back and forth. *)
From stdpp Require Import base option list strings sorting.
From Stdlib Require Import ZArith Lia Ascii.
From S2P Require Import Prelude HoldemEval.
Import Holdem.

Module HoldemThms.

(** ** Cards *)

Definition deck : list Z := map Z.of_nat (seq 0 52).
Definition valid_card (c : Z) : Prop := 0 <= c <= 51.
Definition rank_of (c : Z) : Z := Z.rem c 13 + 2.
Definition suit_of (c : Z) : Z := c / 13.

Lemma valid_card_deck c : valid_card c → In c deck.
Proof. intros [? ?]. apply in_map_iff. exists (Z.to_nat c). rewrite in_seq. lia. Qed.

Lemma assertValid_ok n c : assertValidCardId n = Ok c ↔ n = Int c ∧ valid_card c.
Proof.
  unfold valid_card. destruct n as [z|]; simpl; [|by split; [|intros [? _]]].
  destruct ((z <? 0) || (51 <? z)) eqn:E.
  - split; [done|]. intros [[= ->] ?]. apply orb_true_iff in E as [E|E]; b2p; lia.
  - b2p. split; [intros <-%Ok_inj; split; [done|lia]|by intros [[= ->] _]].
Qed.

Lemma rank_of_bounds c : valid_card c → 2 <= rank_of c <= 14.
Proof. unfold valid_card, rank_of. intros [? ?]. pose proof (Z.rem_bound_pos c 13 ltac:(lia) ltac:(lia)). lia. Qed.

Lemma suit_of_bounds c : valid_card c → 0 <= suit_of c <= 3.
Proof. unfold valid_card, suit_of. intros [? ?]. split; [apply Z.div_pos; lia|]. apply Z.lt_succ_r, Z.div_lt_upper_bound; lia. Qed.

Lemma card_of_rank_suit c : valid_card c → c = suit_of c * 13 + (rank_of c - 2).
Proof. unfold valid_card, suit_of, rank_of. intros [? ?]. rewrite Z.rem_mod_nonneg by lia. pose proof (Z.div_mod c 13 ltac:(lia)). lia. Qed.

Lemma indexOf_spec c l i : indexOf c l = Some i → 0 <= i < Z.of_nat (length l) ∧ ∀ d, rd d l (Z.to_nat i) = c.
Proof.
  revert i. induction l as [|x l IH]; intros i; simpl; [done|].
  destruct (c =? x)%char eqn:E.
  - intros [= <-]. apply Ascii.eqb_eq in E as ->. split; [lia|done].
  - destruct (indexOf c l) as [j|] eqn:Ej; [|done]. intros [= <-]. destruct (IH j eq_refl) as [Hj Hr]. split; [lia|].
    intros d. replace (Z.to_nat (Z.succ j)) with (S (Z.to_nat j)) by lia. by rewrite <-(Hr d).
Qed.

Definition lower_suit (s : string) : string :=
  match s with String r (String u t) => String r (String (toLowerCase u) t) | _ => s end.

(** Cards convert back and forth: every card of the deck prints to a string
    that parses back to it and is rebuilt from its rank and suit; every string
    that parses gives a card of the deck, which prints to that string with the
    suit letter in lower case. *)
Theorem card_roundtrip :
  (∀ c, valid_card c → ∃ s, cardToString (Int c) = Ok s ∧ cardFromString s = Ok c ∧
     ∃ r u, cardRank (Int c) = Ok r ∧ cardSuit (Int c) = Ok u ∧ cardIdFromRankSuit (Int r) (Int u) = Ok c) ∧
  (∀ s c, cardFromString s = Ok c → valid_card c ∧ cardToString (Int c) = Ok (lower_suit s)).
Proof.
  split.
  - intros c Hc. apply valid_card_deck in Hc.
    assert (H : Forall (λ c, ∃ s, cardToString (Int c) = Ok s ∧ cardFromString s = Ok c ∧
      ∃ r u, cardRank (Int c) = Ok r ∧ cardSuit (Int c) = Ok u ∧ cardIdFromRankSuit (Int r) (Int u) = Ok c) deck).
    { unfold deck. cbn [seq map]. repeat (constructor; [eexists; split; [reflexivity|]; split; [reflexivity|]; by eexists _, _|]). constructor. }
    rewrite List.Forall_forall in H. by apply H.
  - intros s c. destruct s as [|r [|u [|? ?]]]; try done. cbn [cardFromString lower_suit].
    destruct (indexOf r RANK_CHARS) as [ri|] eqn:Er; [|done].
    destruct (indexOf (toLowerCase u) SUIT_CHARS) as [si|] eqn:Es; [|done]. intros <-%Ok_inj.
    apply indexOf_spec in Er as [Hri Hr]. apply indexOf_spec in Es as [Hsi Hs]. cbn [length RANK_CHARS SUIT_CHARS] in *.
    assert (Hv : valid_card (si * 13 + ri)) by (unfold valid_card; lia). split; [done|].
    assert (Ha : assertValidCardId (Int (si * 13 + ri)) = Ok (si * 13 + ri)) by by apply assertValid_ok.
    unfold cardToString, cardSuit. rewrite Ha. cbn [rbind].
    rewrite Z.rem_mod_nonneg, Z.div_add_l, (Z.div_small ri 13), Z.add_0_r by lia.
    rewrite Z.add_comm, Z.mod_add, Z.mod_small, Hr, Hs by lia. done.
Qed.

(** ** Comparing ranks *)

Lemma rd_tail {A} (d : A) l i : rd d (tail l) i = rd d l (S i).
Proof. destruct l; done. Qed.

Lemma cmpTie_opp a b n : compareTiebreakers b a n = CompOpp (compareTiebreakers a b n).
Proof.
  revert a b. induction n as [|n IH]; intros a b; simpl; [done|]. rewrite (Z.eqb_sym (rd 0 b 0)).
  destruct (_ =? _) eqn:E; b2p; [apply IH|].
  destruct (rd 0 b 0 <? rd 0 a 0) eqn:E1, (rd 0 a 0 <? rd 0 b 0) eqn:E2; b2p; try done; lia.
Qed.

Lemma cmpTie_eq a b n : compareTiebreakers a b n = Eq ↔ ∀ i, (i < n)%nat → rd 0 a i = rd 0 b i.
Proof.
  revert a b. induction n as [|n IH]; intros a b; simpl; [by split; [lia|]|].
  destruct (_ =? _) eqn:E; b2p.
  - rewrite IH. split; intros H i Hi.
    + destruct i as [|i]; [done|]. specialize (H i ltac:(lia)). by rewrite !rd_tail in H.
    + rewrite !rd_tail. apply H. lia.
  - split; [by destruct (_ <? _)|]. intros H. by specialize (H 0%nat ltac:(lia)).
Qed.

Lemma cmpTie_extend a b n m :
  (length a <= n)%nat → (length b <= n)%nat → (n <= m)%nat → compareTiebreakers a b m = compareTiebreakers a b n.
Proof.
  revert a b m. induction n as [|n IH]; intros a b m Ha Hb Hm.
  - destruct a, b; simpl in *; try lia. simpl. apply cmpTie_eq. done.
  - destruct m as [|m]; [lia|]. simpl. destruct (_ =? _); [|done].
    apply IH; [destruct a|destruct b|]; simpl in *; lia.
Qed.

Lemma cmpTie_trans a b c n :
  compareTiebreakers a b n ≠ Gt → compareTiebreakers b c n ≠ Gt → compareTiebreakers a c n ≠ Gt.
Proof.
  revert a b c. induction n as [|n IH]; intros a b c; simpl; [done|].
  destruct (rd 0 a 0 =? rd 0 b 0) eqn:E1, (rd 0 b 0 =? rd 0 c 0) eqn:E2, (rd 0 a 0 =? rd 0 c 0) eqn:E3; b2p; try lia.
  1: by apply IH.
  all: repeat (match goal with |- context [?x <? ?y] => destruct (x <? y) eqn:?; b2p end); try done; lia.
Qed.

Definition rank_le (a b : HandRank) : Prop := compareHandRank a b ≠ Gt.

Lemma category_value_inj c d : category_value c = category_value d → c = d.
Proof. by destruct c, d. Qed.

Lemma cmpRank_opp a b : compareHandRank b a = CompOpp (compareHandRank a b).
Proof.
  unfold compareHandRank. rewrite (Z.eqb_sym (category_value (category b))), Nat.max_comm.
  destruct (_ =? _) eqn:E; b2p; [apply cmpTie_opp|].
  destruct (_ <? _) eqn:E1, (category_value (category a) <? _) eqn:E2; b2p; try done; lia.
Qed.

Lemma rank_le_refl a : rank_le a a.
Proof.
  unfold rank_le, compareHandRank. rewrite Z.eqb_refl.
  by rewrite (proj2 (cmpTie_eq _ _ _)) by done.
Qed.

Lemma rank_le_total a b : ¬ rank_le a b → rank_le b a.
Proof. unfold rank_le. rewrite (cmpRank_opp a b). intros H Hx. apply H. intros Hy. by rewrite Hy in Hx. Qed.

Lemma rank_le_trans a b c : rank_le a b → rank_le b c → rank_le a c.
Proof.
  unfold rank_le, compareHandRank.
  set (n := Nat.max (length (tiebreakers a)) (Nat.max (length (tiebreakers b)) (length (tiebreakers c)))).
  rewrite <-(cmpTie_extend (tiebreakers a) (tiebreakers b) _ n) by lia.
  rewrite <-(cmpTie_extend (tiebreakers b) (tiebreakers c) _ n) by lia.
  rewrite <-(cmpTie_extend (tiebreakers a) (tiebreakers c) _ n) by lia.
  repeat match goal with
  | |- context [category_value ?x =? category_value ?y] => destruct (category_value x =? category_value y) eqn:?; b2p
  end; try lia; [apply cmpTie_trans|..];
    repeat match goal with |- context [?x <? ?y] => destruct (x <? y) eqn:?; b2p end; done || lia.
Qed.

#[export] Instance rank_le_preorder : PreOrder rank_le.
Proof. split; [exact rank_le_refl|intros a b c; apply rank_le_trans]. Qed.

(** [compareHandRank] is a total order on ranks read with trailing zeros:
    swapping the arguments flips the result, "not greater" is transitive, and
    two ranks compare equal exactly when category and tiebreakers agree. *)
Theorem compareHandRank_order :
  (∀ a b, compareHandRank b a = CompOpp (compareHandRank a b)) ∧
  (∀ a b c, compareHandRank a b ≠ Gt → compareHandRank b c ≠ Gt → compareHandRank a c ≠ Gt) ∧
  (∀ a b, compareHandRank a b = Eq ↔
     a.(category) = b.(category) ∧ ∀ i, rd 0 a.(tiebreakers) i = rd 0 b.(tiebreakers) i).
Proof.
  split; [exact cmpRank_opp|]. split; [exact rank_le_trans|]. intros a b. unfold compareHandRank.
  destruct (_ =? _) eqn:E; b2p.
  - apply category_value_inj in E. rewrite cmpTie_eq. split; [|by intros [_ H] i _]. intros H. split; [done|]. intros i.
    destruct (decide (i < Nat.max (length (tiebreakers a)) (length (tiebreakers b)))%nat); [by apply H|].
    unfold rd. by rewrite !lookup_ge_None_2 by lia.
  - split; [by destruct (_ <? _)|]. intros [H _]. by rewrite H in E.
Qed.

(** ** What a hand fits *)

(** [mults] gives for each tiebreaker how many cards have that rank. *)
Definition expand (mults : list nat) (tbs : list Z) : list Z := concat (zip_with replicate mults tbs).

(** Tiebreakers of the same multiplicity are listed high to low. *)
Fixpoint desc_within (mults : list nat) (tbs : list Z) : bool :=
  match mults, tbs with
  | m :: (m' :: _) as ms, t :: (t' :: _) as ts => (negb (m =? m')%nat || (t' <=? t)) && desc_within ms ts
  | _, _ => true
  end.

Definition mults (c : HandCategory) : list nat :=
  match c with
  | OnePair => [2; 1; 1; 1]
  | TwoPair => [2; 2; 1]
  | Trips => [3; 1; 1]
  | FullHouse => [3; 2]
  | Quads => [4; 1]
  | HighCard | Flush => [1; 1; 1; 1; 1]
  | Straight | StraightFlush => []
  end%nat.

(** The ranks of a straight; the ace is low only in the five-high one. *)
Definition straight_run (h : Z) : list Z :=
  if h =? 5 then [5; 4; 3; 2; 14] else [h; h - 1; h - 2; h - 3; h - 4].

Definition shaped (ranks : list Z) (r : HandRank) : Prop :=
  length r.(tiebreakers) = length (mults r.(category)) ∧
  desc_within (mults r.(category)) r.(tiebreakers) = true ∧
  ranks ≡ₚ expand (mults r.(category)) r.(tiebreakers).

Definition straight_to (ranks : list Z) (r : HandRank) : Prop :=
  ∃ h, r.(tiebreakers) = [h] ∧ ranks ≡ₚ straight_run h.

Definition fits_ranks (ranks : list Z) (flush : bool) (r : HandRank) : Prop :=
  match r.(category) with
  | Straight => straight_to ranks r
  | StraightFlush => flush = true ∧ straight_to ranks r
  | Flush => flush = true ∧ shaped ranks r
  | _ => shaped ranks r
  end.

Definition same_suit (cs : list Z) : bool := forallb (λ c, suit_of c =? rd 0 (map suit_of cs) 0) cs.

(** The five cards [cs] can be read as a hand of rank [r]: a flush needs one
    suit, a straight consecutive ranks, a pair two cards of one rank, and so
    on; nothing says that the reading is the best one. *)
Definition fits (cs : list Z) (r : HandRank) : Prop := fits_ranks (map rank_of cs) (same_suit cs) r.

(** ** Exhaustive checks over the rank multisets *)

Definition ranks_to (hi : Z) : list Z := map (λ i, 2 + Z.of_nat i) (seq 0 (Z.to_nat (hi - 1))).

(** The non-increasing lists of [n] ranks up to [hi]. *)
Fixpoint descs (n : nat) (hi : Z) : list (list Z) :=
  match n with
  | O => [[]]
  | S n => flat_map (λ r, map (cons r) (descs n r)) (ranks_to hi)
  end.

Definition five_kind (l : list Z) : bool := forallb (λ r, r =? rd 0 l 0) l.

Definition list_eqb (a b : list Z) : bool := bool_decide (a = b).

(** [fits_ranks] for sorted ranks, as a test. *)
Definition shapedb (ranks : list Z) (r : HandRank) : bool :=
  (length r.(tiebreakers) =? length (mults r.(category)))%nat &&
  desc_within (mults r.(category)) r.(tiebreakers) &&
  list_eqb ranks (sortDesc (expand (mults r.(category)) r.(tiebreakers))).
Definition straightb (ranks : list Z) (r : HandRank) : bool :=
  match r.(tiebreakers) with [h] => list_eqb ranks (sortDesc (straight_run h)) | _ => false end.
Definition fitsb (ranks : list Z) (flush : bool) (r : HandRank) : bool :=
  match r.(category) with
  | Straight => straightb ranks r
  | StraightFlush => flush && straightb ranks r
  | Flush => flush && shapedb ranks r
  | _ => shapedb ranks r
  end.

(** Every hand is classified, as something it fits. *)
Definition classify_fits (l : list Z) : bool :=
  five_kind l ||
  forallb (λ fl, match classify l fl with Ok r => fitsb l fl r | Err _ => false end) [false; true].

(** No reading of the hand is above its classification. *)
Definition classify_above (fl : bool) (l : list Z) (r : HandRank) : bool :=
  five_kind l || match classify l fl with Ok r' => negb (is_gt (compareHandRank r r')) | Err _ => false end.

Definition readings (c : HandCategory) : list (list Z) :=
  match c with
  | OnePair => flat_map (λ p, map (cons p) (descs 3 14)) (ranks_to 14)
  | TwoPair => flat_map (λ ps, map (λ k, ps ++ [k]) (ranks_to 14)) (descs 2 14)
  | Trips => flat_map (λ t, map (cons t) (descs 2 14)) (ranks_to 14)
  | FullHouse | Quads => flat_map (λ t, map (λ p, [t; p]) (ranks_to 14)) (ranks_to 14)
  | _ => []
  end.

Lemma all_classified : forallb classify_fits (descs 5 14) = true.
Proof. vm_compute. reflexivity. Qed.

Lemma all_readings_below :
  forallb (λ c, forallb (λ tbs, classify_above false (sortDesc (expand (mults c) tbs)) (mkRank c tbs)) (readings c))
    [OnePair; TwoPair; Trips; FullHouse; Quads] = true.
Proof. vm_compute. reflexivity. Qed.

Lemma all_straights_below :
  forallb (λ h, classify_above false (sortDesc (straight_run h)) (mkRank Straight [h]) &&
                classify_above true (sortDesc (straight_run h)) (mkRank StraightFlush [h])) (ranks_to 14) = true.
Proof. vm_compute. reflexivity. Qed.

(** ** From the checks to all hands *)

Definition in_range (l : list Z) : Prop := Forall (λ r, 2 <= r <= 14) l.

Lemma geb_total x y : (x >=? y) = false → (y >=? x) = true.
Proof. rewrite !Z.geb_leb. intros H. b2p. apply Z.leb_le. lia. Qed.
Lemma geb_trans x y z : (x >=? y) = true → (y >=? z) = true → (x >=? z) = true.
Proof. rewrite !Z.geb_leb. intros H1 H2. b2p. apply Z.leb_le. lia. Qed.
Lemma geb_antisym x y : (x >=? y) = true → (y >=? x) = true → x = y.
Proof. rewrite !Z.geb_leb. intros H1 H2. b2p. lia. Qed.

Lemma sortDesc_sorted l : Sorted Z.geb (sortDesc l).
Proof. apply sort_by_sorted, geb_total. Qed.
Lemma sortDesc_perm l : sortDesc l ≡ₚ l.
Proof. apply sort_by_perm. Qed.
Lemma sortDesc_Proper l k : l ≡ₚ k → sortDesc l = sortDesc k.
Proof. apply sort_by_Proper; eauto using geb_total, geb_trans, geb_antisym. Qed.
Lemma sortDesc_of_perm l k : Sorted Z.geb l → l ≡ₚ k → sortDesc k = l.
Proof. intros Hl H. rewrite <-(sortDesc_Proper _ _ H). by apply sort_by_id. Qed.

Lemma In_ranks_to r hi : 2 <= r <= hi → In r (ranks_to hi).
Proof. intros H. apply in_map_iff. exists (Z.to_nat (r - 2)). rewrite in_seq. lia. Qed.

Lemma In_descs n hi l :
  length l = n → Sorted Z.geb l → Forall (λ r, 2 <= r <= hi) l → In l (descs n hi).
Proof.
  revert hi l. induction n as [|n IH]; intros hi l Hl Hs Hr; destruct l as [|x l]; try done; simpl; [by left|].
  inversion Hr as [|? ? Hx Hr']; subst. inversion Hs as [|? ? Hs' Hh]; subst. apply in_flat_map. exists x.
  split; [by apply In_ranks_to|]. apply in_map, IH; [by injection Hl|done|].
  apply Sorted_StronglySorted in Hs; [|intros a b c; rewrite !Is_true_true; apply geb_trans].
  inversion Hs as [|? ? _ Hall]; subst. rewrite Forall_forall in *. intros y Hy. specialize (Hall y Hy). specialize (Hr' y Hy).
  apply Is_true_true in Hall. rewrite Z.geb_leb in Hall. b2p. lia.
Qed.

Lemma fits_ranks_Permutation l k fl r : l ≡ₚ k → fits_ranks l fl r ↔ fits_ranks k fl r.
Proof.
  intros H. unfold fits_ranks, shaped, straight_to.
  assert (H1 : l ≡ₚ expand (mults (category r)) (tiebreakers r) ↔ k ≡ₚ expand (mults (category r)) (tiebreakers r)) by by rewrite H.
  assert (H2 : (∃ h, tiebreakers r = [h] ∧ l ≡ₚ straight_run h) ↔ (∃ h, tiebreakers r = [h] ∧ k ≡ₚ straight_run h))
    by (split; intros (h & ? & Hh); exists h; (split; [done|]); [by rewrite <-H|by rewrite H]).
  destruct (category r); tauto.
Qed.

Lemma list_eqb_eq a b : list_eqb a b = true ↔ a = b.
Proof. apply bool_decide_eq_true. Qed.

Lemma fitsb_fits l fl r : fitsb l fl r = true → fits_ranks l fl r.
Proof.
  assert (Hsh : shapedb l r = true → shaped l r).
  { unfold shapedb, shaped. intros H. b2p. rewrite list_eqb_eq in *. repeat split; [done..|]. subst l. apply sortDesc_perm. }
  assert (Hst : straightb l r = true → straight_to l r).
  { unfold straightb, straight_to. destruct (tiebreakers r) as [|h [|]]; try done. intros H%list_eqb_eq. exists h.
    split; [done|]. subst l. apply sortDesc_perm. }
  unfold fitsb, fits_ranks. destruct (category r); auto; intros H; b2p; auto.
Qed.

Lemma expand_ones tbs : length tbs = 5%nat → expand [1; 1; 1; 1; 1]%nat tbs = tbs.
Proof. intros H. by do 6 (destruct tbs as [|? tbs]; try done). Qed.

Lemma desc_ones tbs : length tbs = 5%nat → desc_within [1; 1; 1; 1; 1]%nat tbs = true → Sorted Z.geb tbs.
Proof.
  intros H. do 6 (destruct tbs as [|? tbs]; try done). simpl. intros Hd. b2p.
  repeat constructor; rewrite Z.geb_leb; by apply Is_true_true, Z.leb_le.
Qed.

(** A hand read by its cards alone lists them all. *)
Lemma shaped_ones l r :
  Sorted Z.geb l → mults r.(category) = [1; 1; 1; 1; 1]%nat → shaped l r → r.(tiebreakers) = l.
Proof.
  intros Hl Hm (Hlen & Hd & Hp). rewrite Hm in *. rewrite expand_ones in Hp by done.
  symmetry. apply (sorted_unique Z.geb geb_trans geb_antisym); [done|by apply desc_ones|done].
Qed.

Lemma rank_le_category a b : category_value a.(category) < category_value b.(category) → rank_le a b.
Proof.
  intros H. unfold rank_le, compareHandRank. rewrite (proj2 (Z.eqb_neq _ _)) by lia. by rewrite (proj2 (Z.ltb_lt _ _)).
Qed.

Lemma classify_flush_category l r : classify l true = Ok r → 5 <= category_value r.(category).
Proof.
  unfold classify. repeat (case_goal; cbn [rbind]); try (intros <-%Ok_inj; simpl; lia); try discriminate;
    unfold rbind; case_goal; try discriminate; intros <-%Ok_inj; simpl; lia.
Qed.

Lemma classify_flush_mono l r r' : classify l false = Ok r → classify l true = Ok r' → rank_le r r'.
Proof.
  intros H H'. destruct (decide (5 <= category_value (category r))) as [Hc|Hc].
  2:{ apply rank_le_category. pose proof (classify_flush_category l r' H'). lia. }
  revert H H'. unfold classify. rewrite andb_false_r, andb_true_r. cbv zeta.
  set (st := (length _ =? 5)%nat && _). set (gs := sort_by group_le (rankCounts l)). clearbody st gs.
  destruct (g_count (group_at gs 0) =? 4).
  { destruct (kickerOf gs); simpl; [|done]. intros <-%Ok_inj. destruct st; intros <-%Ok_inj; [by apply rank_le_category|done]. }
  destruct ((g_count (group_at gs 0) =? 3) && (g_count (group_at gs 1) =? 2)).
  { intros <-%Ok_inj. destruct st; intros <-%Ok_inj; [by apply rank_le_category|done]. }
  intros H _. exfalso. revert H. repeat case_goal; unfold rbind; repeat case_goal; try discriminate;
    intros <-%Ok_inj; simpl in Hc; lia.
Qed.

Lemma in_range_perm l k : l ≡ₚ k → in_range l → in_range k.
Proof. unfold in_range. by intros ->. Qed.

Lemma geb_list2 a b : b <= a → Sorted Z.geb [a; b].
Proof. intros H. repeat constructor. rewrite Z.geb_leb. by apply Is_true_true, Z.leb_le. Qed.
Lemma geb_list3 a b c : b <= a → c <= b → Sorted Z.geb [a; b; c].
Proof. intros H1 H2. repeat constructor; rewrite Z.geb_leb; by apply Is_true_true, Z.leb_le. Qed.

Lemma shaped_reading l r :
  in_range l → shaped l r → In r.(category) [OnePair; TwoPair; Trips; FullHouse; Quads] →
  In r.(tiebreakers) (readings r.(category)).
Proof.
  intros Hl (Hlen & Hd & Hp) Hc. apply (in_range_perm _ _ Hp) in Hl. clear Hp l.
  destruct r as [c tbs]. cbn [category tiebreakers] in *. unfold in_range in Hl.
  destruct Hc as [<-|[<-|[<-|[<-|[<-|[]]]]]]; cbn [mults length] in Hlen;
    repeat (destruct tbs as [|? tbs]; try done); cbn [desc_within mults Nat.eqb negb orb andb] in Hd; b2p;
    cbn [expand mults zip_with replicate concat app] in Hl; rewrite ?Forall_cons in Hl; cbn [readings].
  - apply in_flat_map. eexists. split; [|apply in_map, In_descs]; [apply In_ranks_to; tauto|done|by apply geb_list3|].
    rewrite !Forall_cons. by repeat split; try tauto.
  - apply in_flat_map. eexists [_; _]. split; [apply In_descs; [done|by apply geb_list2|]|].
    + rewrite !Forall_cons. by repeat split; try tauto.
    + apply in_map_iff. eexists. split; [reflexivity|apply In_ranks_to; tauto].
  - apply in_flat_map. eexists. split; [|apply in_map, In_descs]; [apply In_ranks_to; tauto|done|by apply geb_list2|].
    rewrite !Forall_cons. by repeat split; try tauto.
  - apply in_flat_map. eexists. split; [|apply in_map_iff; eexists; split; [reflexivity|]]; apply In_ranks_to; tauto.
  - apply in_flat_map. eexists. split; [|apply in_map_iff; eexists; split; [reflexivity|]]; apply In_ranks_to; tauto.
Qed.

Section classify.
Context (l : list Z) (Hsorted : Sorted Z.geb l) (Hlen : length l = 5%nat) (Hrange : in_range l) (Hkind : five_kind l = false).

Lemma classify_ok fl : ∃ r, classify l fl = Ok r ∧ fits_ranks l fl r.
Proof.
  pose proof all_classified as H. rewrite forallb_forall in H. specialize (H l (In_descs 5 14 l Hlen Hsorted Hrange)).
  unfold classify_fits in H. rewrite Hkind in H. cbn [orb] in H. rewrite forallb_forall in H.
  specialize (H fl). destruct (classify l fl) as [r|].
  - exists r. split; [done|]. apply fitsb_fits, H. destruct fl; simpl; tauto.
  - discriminate H. destruct fl; simpl; tauto.
Qed.

Lemma above_le fl k r r0 : l ≡ₚ k → classify_above fl (sortDesc k) r = true → classify l fl = Ok r0 → rank_le r r0.
Proof.
  intros Hk. rewrite (sortDesc_of_perm l k Hsorted Hk). unfold classify_above. rewrite Hkind. cbn [orb].
  intros H E. rewrite E in H. b2p. unfold rank_le. intros Hx. by rewrite Hx in H.
Qed.

Lemma le_any_flush fl r r0 : (∀ r1, classify l false = Ok r1 → rank_le r r1) → classify l fl = Ok r0 → rank_le r r0.
Proof.
  intros H E. destruct fl; [|by apply H]. destruct (classify_ok false) as (r1 & E1 & _).
  etransitivity; [by apply H|by eapply classify_flush_mono].
Qed.

Lemma ones_le fl r r' c :
  fits_ranks l fl r → r'.(category) = c → mults c = [1; 1; 1; 1; 1]%nat → shaped l r' →
  category_value c <= category_value r.(category) → rank_le r' r.
Proof.
  intros Hf Hc Hm Hs Hle. destruct (decide (category r = c)) as [Hrc|Hrc].
  - assert (Ht' : tiebreakers r' = l) by (apply shaped_ones; congruence || done).
    assert (Ht : tiebreakers r = l).
    { apply shaped_ones; [done|congruence|]. unfold fits_ranks in Hf. destruct c; try done; rewrite Hrc in Hf; [done|apply Hf]. }
    destruct r as [rc rt], r' as [rc' rt']. simpl in *. subst. done.
  - apply rank_le_category. rewrite Hc. assert (category_value c ≠ category_value (category r)); [|lia].
    intros H%category_value_inj. congruence.
Qed.

Lemma straight_high h : l ≡ₚ straight_run h → In h (ranks_to 14).
Proof.
  intros H. apply In_ranks_to. apply (in_range_perm _ _ H) in Hrange. unfold straight_run, in_range in Hrange.
  destruct (h =? 5) eqn:E; b2p; [lia|]. rewrite Forall_cons in Hrange. tauto.
Qed.

(** [classify] picks the best reading. *)
Lemma classify_best fl : ∃ r, classify l fl = Ok r ∧ fits_ranks l fl r ∧ ∀ r', fits_ranks l fl r' → rank_le r' r.
Proof.
  destruct (classify_ok fl) as (r & E & Hf). exists r. do 2 (split; [done|]). intros r' Hf'.
  pose proof all_readings_below as Hread. rewrite forallb_forall in Hread.
  pose proof all_straights_below as Hstr. rewrite forallb_forall in Hstr.
  assert (Hpat : In (category r') [OnePair; TwoPair; Trips; FullHouse; Quads] → shaped l r' → rank_le r' r).
  { intros Hc Hs. apply (le_any_flush fl); [|done]. intros r1 E1. specialize (Hread _ Hc). rewrite forallb_forall in Hread.
    specialize (Hread _ (shaped_reading l r' Hrange Hs Hc)). destruct r' as [c tbs]. simpl in *.
    by eapply above_le; [apply Hs|exact Hread|]. }
  unfold fits_ranks in Hf'. destruct (category r') eqn:Ec; try (apply Hpat; [simpl; tauto|exact Hf']).
  - apply (ones_le fl r r' HighCard); [done..|]. destruct (category r); simpl; lia.
  - destruct Hf' as (h & Ht & Hp). apply (le_any_flush fl); [|done]. intros r1 E1.
    specialize (Hstr h (straight_high h Hp)). b2p. destruct r' as [c tbs]. simpl in *. subst. by eapply above_le.
  - destruct Hf' as [-> Hs]. apply (ones_le true r r' Flush); [done..|]. apply (classify_flush_category l r E).
  - destruct Hf' as [-> (h & Ht & Hp)]. specialize (Hstr h (straight_high h Hp)). b2p.
    destruct r' as [c tbs]. simpl in *. subst. by eapply above_le.
Qed.
End classify.

(** ** Five cards *)

(** [n] different cards of the deck. *)
Definition deal (n : nat) (cs : list Z) : Prop := length cs = n ∧ Forall valid_card cs ∧ NoDup cs.

Lemma assertDistinct_from_ok seen cards cs :
  assertDistinct_from seen cards = Ok cs ↔
  cards = map Int cs ∧ Forall valid_card cs ∧ NoDup cs ∧ ∀ c, c ∈ cs → c ∉ seen.
Proof.
  revert seen cs. induction cards as [|n cards IH]; intros seen cs; simpl.
  - split; [intros <-%Ok_inj; repeat split; try constructor; by intros c ?%not_elem_of_nil|].
    intros (H & _). by destruct cs.
  - rewrite rbind_ok. setoid_rewrite assertValid_ok. split.
    + intros (c & [-> Hc] & H). apply rbind_ok in H as (u & Hu & H). apply throw_if_ok, bool_decide_eq_false in Hu.
      apply rbind_ok in H as (cs' & H & <-%Ok_inj). apply IH in H as (-> & Hv & Hnd & Hs). repeat split.
      * by constructor.
      * constructor; [|done]. intros Hin. apply Hs in Hin. apply Hin, list_elem_of_here.
      * intros x Hx. apply elem_of_cons in Hx as [->|Hx]; [done|]. specialize (Hs x Hx).
        rewrite not_elem_of_cons in Hs. tauto.
    + intros (Hm & Hv & Hnd & Hs). destruct cs as [|c cs]; [done|]. injection Hm as -> Hm.
      apply Forall_cons in Hv as [Hc Hv]. apply NoDup_cons in Hnd as [Hx Hnd]. exists c. split; [done|].
      assert (Hcs : c ∉ seen) by apply Hs, list_elem_of_here. rewrite bool_decide_false by done. cbn [throw_if rbind].
      rewrite (proj2 (IH (c :: seen) cs)); [done|]. repeat split; try done.
      intros x Hxc. rewrite not_elem_of_cons. split; [by intros ->|]. apply Hs. by apply list_elem_of_further.
Qed.

Lemma assertDistinct_ok cards cs :
  assertDistinct cards = Ok cs ↔ cards = map Int cs ∧ Forall valid_card cs ∧ NoDup cs.
Proof.
  unfold assertDistinct. rewrite assertDistinct_from_ok. split; [tauto|]. intros (? & ? & ?). repeat split; try done.
  intros c _. apply not_elem_of_nil.
Qed.

Lemma cardSuit_ok c : valid_card c → cardSuit (Int c) = Ok (suit_of c).
Proof. intros H. unfold cardSuit. by rewrite (proj2 (assertValid_ok (Int c) c)). Qed.
Lemma cardRank_ok c : valid_card c → cardRank (Int c) = Ok (rank_of c).
Proof. intros H. unfold cardRank. by rewrite (proj2 (assertValid_ok (Int c) c)). Qed.

Lemma mapR_map {E A B C} (f : B → result E C) (g : A → B) l : mapR f (map g l) = mapR (λ x, f (g x)) l.
Proof. induction l as [|x l IH]; simpl; [done|]. by rewrite IH. Qed.

Lemma evaluate5_eq cs :
  deal 5 cs → evaluate5 (map Int cs) = classify (sortDesc (map rank_of cs)) (same_suit cs).
Proof.
  intros (Hlen & Hv & Hnd). unfold evaluate5. rewrite length_map, Hlen. cbn [Nat.eqb negb throw_if rbind].
  rewrite (proj2 (assertDistinct_ok (map Int cs) cs)) by done. cbn [rbind]. unfold ranksDesc. rewrite !mapR_map.
  rewrite (mapR_ok _ suit_of), (mapR_ok _ rank_of)
    by (eapply Forall_impl; [exact Hv|]; intros c Hc; by rewrite ?cardSuit_ok, ?cardRank_ok).
  cbn [rbind]. f_equal. unfold same_suit. generalize (rd 0 (map suit_of cs) 0). intros s.
  induction cs as [|c cs' IH] in Hv |- * using list_ind; simpl; [done|]. inversion Hv; subst. by rewrite IH.
Qed.

Lemma evaluate5_ok_deal cards r : evaluate5 cards = Ok r → ∃ cs, cards = map Int cs ∧ deal 5 cs.
Proof.
  unfold evaluate5. intros (u & Hu & H)%rbind_ok. apply throw_if_ok in Hu. apply rbind_ok in H as (cs & Hcs & _).
  apply assertDistinct_ok in Hcs as (-> & Hv & Hnd). rewrite length_map in Hu. b2p. exists cs. by repeat split.
Qed.

(** At most four cards of the deck share a rank. *)
Lemma deal_not_five_kind cs : deal 5 cs → five_kind (sortDesc (map rank_of cs)) = false.
Proof.
  intros (Hlen & Hv & Hnd). apply not_true_iff_false. unfold five_kind. rewrite forallb_forall. intros H.
  set (r := rd 0 (sortDesc (map rank_of cs)) 0) in *. clearbody r.
  assert (Hr : ∀ c, c ∈ cs → rank_of c = r).
  { intros c Hc. apply Z.eqb_eq, H, list_elem_of_In. rewrite sortDesc_perm. apply list_elem_of_fmap. eauto. }
  assert (Hs : map suit_of cs ⊆+ [0; 1; 2; 3]).
  { apply NoDup_submseteq.
    - apply NoDup_fmap_2_strong; [|done]. intros x y Hx Hy E.
      rewrite Forall_forall in Hv. rewrite (card_of_rank_suit x), (card_of_rank_suit y), E, (Hr x), (Hr y) by auto. done.
    - intros s (c & -> & Hc)%list_elem_of_fmap. rewrite Forall_forall in Hv. pose proof (suit_of_bounds c (Hv c Hc)).
      rewrite !elem_of_cons. lia. }
  apply submseteq_length in Hs. rewrite length_map, Hlen in Hs. simpl in Hs. lia.
Qed.

Lemma deal_ranks cs : deal 5 cs →
  Sorted Z.geb (sortDesc (map rank_of cs)) ∧ length (sortDesc (map rank_of cs)) = 5%nat ∧ in_range (sortDesc (map rank_of cs)).
Proof.
  intros (Hlen & Hv & _). split; [apply sortDesc_sorted|]. split.
  - by rewrite (Permutation_length (sortDesc_perm _)), length_map.
  - unfold in_range. rewrite sortDesc_perm. apply Forall_fmap. eapply Forall_impl; [exact Hv|]. exact rank_of_bounds.
Qed.

Lemma evaluate5_fits cs :
  deal 5 cs → ∃ r, evaluate5 (map Int cs) = Ok r ∧ fits cs r ∧ ∀ r', fits cs r' → rank_le r' r.
Proof.
  intros Hd. destruct (deal_ranks cs Hd) as (Hs & Hl & Hr). rewrite evaluate5_eq by done. unfold fits.
  destruct (classify_best _ Hs Hl Hr (deal_not_five_kind cs Hd) (same_suit cs)) as (r & E & Hf & Hmax).
  exists r. split; [done|]. split; [by rewrite <-fits_ranks_Permutation by apply sortDesc_perm|].
  intros r' Hr'. apply Hmax. by rewrite fits_ranks_Permutation by apply sortDesc_perm.
Qed.

(** C28. [evaluate5] accepts exactly five different cards of the deck, and
    returns the greatest of all ranks those cards can be read as. *)
Theorem evaluate5_best cards :
  (is_ok (evaluate5 cards) = true ↔ ∃ cs, cards = map Int cs ∧ deal 5 cs) ∧
  (∀ cs, cards = map Int cs → deal 5 cs →
     ∃ r, evaluate5 cards = Ok r ∧ fits cs r ∧ ∀ r', fits cs r' → compareHandRank r' r ≠ Gt).
Proof.
  split; [split|].
  - destruct (evaluate5 cards) eqn:E; [|done]. intros _. by eapply evaluate5_ok_deal.
  - intros (cs & -> & Hd). destruct (evaluate5_fits cs Hd) as (r & -> & _). done.
  - intros cs -> Hd. exact (evaluate5_fits cs Hd).
Qed.

(** ** The best five of seven *)

(** The sublists of length [n], in the order of the table of combinations. *)
Fixpoint choose {A} (n : nat) (l : list A) : list (list A) :=
  match n, l with
  | O, _ => [[]]
  | S _, [] => []
  | S n', x :: l' => map (cons x) (choose n' l') ++ choose n l'
  end.

Lemma sublist_choose {A} (k l : list A) : sublist k l → In k (choose (length k) l).
Proof.
  induction 1 as [|x k l _ IH|x k l Hs IH]; simpl; [by left| |].
  - apply in_or_app. left. by apply in_map.
  - destruct k as [|y k]; simpl; [by left|]. apply in_or_app. by right.
Qed.

Lemma choose_sublist {A} n (k l : list A) : In k (choose n l) → sublist k l ∧ length k = n.
Proof.
  revert n k. induction l as [|x l IH]; intros n k; destruct n as [|n]; simpl.
  1,3: intros [<-|[]]; split; [apply sublist_nil_l|done].
  - done.
  - intros [(k' & <- & Hk)%in_map_iff|Hk]%in_app_or.
    + apply IH in Hk as [? <-]. split; [by apply sublist_skip|done].
    + apply IH in Hk as [? ?]. split; [by apply sublist_cons|done].
Qed.

Lemma combos_all (cs : list Z) :
  length cs = 7%nat → map (select (map Int cs)) COMBOS_7_CHOOSE_5 = map (map Int) (choose 5 cs).
Proof. intros H. do 7 (destruct cs as [|? cs]; [done|]). by destruct cs. Qed.

Lemma deal_sublist n cs five : deal n cs → sublist five cs → deal (length five) five.
Proof.
  intros (_ & Hv & Hnd) Hs. repeat split; [|by eapply sublist_NoDup].
  rewrite Forall_forall in *. intros c Hc. apply Hv. by eapply elem_of_sublist.
Qed.

(** The loop keeps a greatest element of what it has seen. *)
Definition is_best (rs : list HandRank) (r : HandRank) : Prop := In r rs ∧ ∀ r', In r' rs → rank_le r' r.

Lemma keepBetter_best rs best r :
  match best with None => rs = [] | Some b => is_best rs b end →
  ∃ b, keepBetter best r = Some b ∧ is_best (rs ++ [r]) b.
Proof.
  unfold keepBetter, is_best. destruct best as [b|].
  - intros [Hin Hmax]. setoid_rewrite in_app_iff. destruct (is_gt (compareHandRank r b)) eqn:E.
    + exists r. split; [done|]. split; [right; by left|]. intros r' [Hr|[<-|[]]]; [|done].
      etransitivity; [by apply Hmax|]. apply rank_le_total. intros H. apply H. by destruct (compareHandRank r b).
    + exists b. split; [done|]. split; [by left|]. intros r' [Hr|[<-|[]]]; [by apply Hmax|].
      intros H. by rewrite H in E.
  - intros ->. exists r. simpl. split; [done|]. split; [by left|]. by intros r' [<-|[]].
Qed.

Lemma best5_spec cards combos rs best :
  Forall (λ c, is_ok (evaluate5 (select cards c)) = true) combos →
  match best with None => rs = [] | Some b => is_best rs b end → (combos ≠ [] ∨ best ≠ None) →
  ∃ b rs', best5 cards combos best = Ok (Some b) ∧ is_best (rs ++ rs') b ∧
    Forall2 (λ c r, evaluate5 (select cards c) = Ok r) combos rs'.
Proof.
  intros H. revert rs best. induction H as [|c combos Hc _ IH]; intros rs best Hb Hne.
  - destruct best as [b|]; [|by destruct Hne]. exists b, []. rewrite app_nil_r. by repeat constructor; try apply Hb.
  - simpl. destruct (evaluate5 (select cards c)) as [r|] eqn:E; [|done]. cbn [rbind].
    destruct (keepBetter_best rs best r Hb) as (b' & -> & Hb').
    destruct (IH (rs ++ [r]) (Some b') Hb' ltac:(by right)) as (b & rs' & H1 & H2 & H3).
    exists b, (r :: rs'). split; [done|]. rewrite <-app_assoc in H2. split; [done|by constructor].
Qed.

(** The loop over a table of combinations that lists every five of the cards. *)
Lemma best5_sublists n cs combos :
  deal n cs → combos ≠ [] →
  (∀ k, In k (map (select (map Int cs)) combos) ↔ In k (map (map Int) (choose 5 cs))) →
  ∃ r, best5 (map Int cs) combos None = Ok (Some r) ∧
    (∃ five, sublist five cs ∧ length five = 5%nat ∧ evaluate5 (map Int five) = Ok r) ∧
    ∀ five r', sublist five cs → length five = 5%nat → evaluate5 (map Int five) = Ok r' → rank_le r' r.
Proof.
  intros Hd Hne Hcomb.
  assert (Hall : ∀ c, In c combos → ∃ five, select (map Int cs) c = map Int five ∧ sublist five cs ∧ length five = 5%nat).
  { intros c Hc. apply (in_map (select (map Int cs))) in Hc. apply Hcomb, in_map_iff in Hc as (five & E & Hf).
    apply choose_sublist in Hf as [? ?]. by exists five. }
  destruct (best5_spec (map Int cs) combos [] None) as (r & rs & E & [Hin Hmax] & HF); [|done|by left|].
  { apply List.Forall_forall. intros c Hc. destruct (Hall c Hc) as (five & -> & Hs & Hl).
    destruct (evaluate5_fits five) as (r & -> & _); [|done]. rewrite <-Hl. by eapply deal_sublist. }
  exists r. split; [exact E|]. split.
  - apply list_elem_of_In, list_elem_of_lookup in Hin as [i Hi]. cbn [app] in Hi.
    destruct (Forall2_lookup_r _ _ _ _ _ HF Hi) as (c & Hc & Er).
    destruct (Hall c) as (five & Ef & Hs & Hl); [apply list_elem_of_In, list_elem_of_lookup; by exists i|].
    exists five. by rewrite <-Ef.
  - intros five r' Hs Hl Er. assert (Hf : In five (choose 5 cs)) by (rewrite <-Hl; by apply sublist_choose).
    apply (in_map (map Int)), Hcomb, in_map_iff in Hf as (c & Ec & Hc).
    apply list_elem_of_In, list_elem_of_lookup in Hc as [i Hi].
    destruct (Forall2_lookup_l _ _ _ _ _ HF Hi) as (r0 & Hr0 & E0). rewrite Ec, Er in E0. injection E0 as <-.
    apply Hmax. cbn [app]. apply list_elem_of_In, list_elem_of_lookup. by exists i.
Qed.

Lemma evaluate7_sublists cs :
  deal 7 cs → ∃ r, evaluate7 (map Int cs) = Ok r ∧
    (∃ five, sublist five cs ∧ length five = 5%nat ∧ evaluate5 (map Int five) = Ok r) ∧
    ∀ five r', sublist five cs → length five = 5%nat → evaluate5 (map Int five) = Ok r' → rank_le r' r.
Proof.
  intros Hd. pose proof Hd as (Hlen & Hv & Hnd).
  destruct (best5_sublists 7 cs COMBOS_7_CHOOSE_5 Hd) as (r & E & H); [done|by rewrite (combos_all cs Hlen)|].
  exists r. split; [|exact H]. unfold evaluate7. rewrite length_map, Hlen. cbn [Nat.eqb negb throw_if rbind].
  rewrite (proj2 (assertDistinct_ok (map Int cs) cs)) by done. cbn [rbind]. by rewrite E.
Qed.

Lemma same_suit_Permutation cs ds : cs ≡ₚ ds → same_suit cs = same_suit ds.
Proof.
  assert (Hspec : ∀ l, same_suit l = true ↔ ∀ x y, x ∈ l → y ∈ l → suit_of x = suit_of y).
  { intros l. unfold same_suit. rewrite forallb_forall. split.
    - intros H x y Hx Hy. apply list_elem_of_In in Hx, Hy. pose proof (H x Hx). pose proof (H y Hy). b2p. congruence.
    - intros H x Hx. apply Z.eqb_eq. destruct l as [|z l]; [done|]. apply H; [by apply list_elem_of_In|apply list_elem_of_here]. }
  intros H. apply eq_true_iff_eq. rewrite !Hspec. by setoid_rewrite H.
Qed.

Lemma fits_Permutation cs ds r : cs ≡ₚ ds → fits cs r ↔ fits ds r.
Proof.
  intros H. unfold fits. rewrite (same_suit_Permutation cs ds H). apply fits_ranks_Permutation.
  by apply (fmap_Permutation rank_of).
Qed.

(** [evaluate7] accepts exactly seven different cards of the deck, and
    returns the greatest rank that any five of them, in any order, can be read
    as. *)
Theorem evaluate7_best cards :
  (is_ok (evaluate7 cards) = true ↔ ∃ cs, cards = map Int cs ∧ deal 7 cs) ∧
  (∀ cs, cards = map Int cs → deal 7 cs →
     ∃ r, evaluate7 cards = Ok r ∧
       (∃ five, five ⊆+ cs ∧ length five = 5%nat ∧ fits five r) ∧
       ∀ five r', five ⊆+ cs → length five = 5%nat → fits five r' → compareHandRank r' r ≠ Gt).
Proof.
  split; [split|].
  - unfold evaluate7. destruct (length cards =? 7)%nat eqn:El; [|done]. cbn [negb throw_if rbind].
    destruct (assertDistinct cards) as [cs|] eqn:Ed; [|done]. intros _.
    apply assertDistinct_ok in Ed as (-> & Hv & Hnd). rewrite length_map in El. b2p. exists cs. by repeat split.
  - intros (cs & -> & Hd). by destruct (evaluate7_sublists cs Hd) as (r & -> & _).
  - intros cs -> Hd. destruct (evaluate7_sublists cs Hd) as (r & E & (five & Hs & Hl & Er) & Hmax). exists r. split; [done|].
    assert (Hdeal : ∀ k, sublist k cs → length k = 5%nat → deal 5 k) by (intros k Hk <-; by eapply deal_sublist).
    split.
    + exists five. split; [by apply sublist_submseteq|]. split; [done|].
      destruct (evaluate5_fits five (Hdeal _ Hs Hl)) as (r0 & E0 & Hf & _). congruence.
    + intros five' r' Hs' Hl' Hf'. apply submseteq_sublist_r in Hs' as (k & Hk & Hs').
      rewrite (Permutation_length Hk) in Hl'. rewrite (fits_Permutation _ _ r' Hk) in Hf'.
      destruct (evaluate5_fits k (Hdeal _ Hs' Hl')) as (r0 & E0 & _ & Hm0).
      apply (rank_le_trans r' r0 r); [by apply Hm0|by eapply Hmax].
Qed.

(** ** The winning seats *)

Definition is_eq (c : comparison) : bool := match c with Eq => true | _ => false end.

(** The state of the loop of [winners] after the seats with these ranks. *)
Definition loop_inv (scored : list (Z * HandRank)) (acc : option HandRank * list Z) : Prop :=
  match acc.1 with
  | None => scored = [] ∧ acc.2 = []
  | Some b => is_best (map snd scored) b ∧
              acc.2 = map fst (List.filter (λ p, is_eq (compareHandRank p.2 b)) scored)
  end.

Lemma cmp_refl r : compareHandRank r r = Eq.
Proof. pose proof (cmpRank_opp r r) as H. pose proof (rank_le_refl r). unfold rank_le in *. by destruct (compareHandRank r r). Qed.

Lemma cmp_gt_strict r b x : compareHandRank r b = Gt → rank_le x b → is_eq (compareHandRank x r) = false.
Proof.
  intros Hg Hx. destruct (compareHandRank x r) eqn:E; try done. exfalso. apply (rank_le_trans r x b); [|done|done].
  unfold rank_le. rewrite (cmpRank_opp x r), E. done.
Qed.

Lemma winnerStep_inv board scored acc seat hole rank :
  loop_inv scored acc → length hole = 2%nat → evaluate7 (board ++ hole) = Ok rank →
  ∃ acc', winnerStep board acc (seat, hole) = Ok acc' ∧ loop_inv (scored ++ [(seat, rank)]) acc'.
Proof.
  intros Hinv Hl E. unfold winnerStep. rewrite Hl. cbn [Nat.eqb negb throw_if rbind].
  assert (Hd : ∃ cs, assertDistinct (board ++ hole) = Ok cs).
  { unfold evaluate7 in E. apply rbind_ok in E as (? & _ & E). apply rbind_ok in E as (cs & Ed & _). by exists cs. }
  destruct Hd as [cs ->]. rewrite E. cbn [rbind]. unfold loop_inv in Hinv. destruct acc as [[b|] seats]; cbn [fst snd] in *.
  - destruct Hinv as [[Hin Hmax] ->]. destruct (compareHandRank rank b) eqn:Ec; eexists; (split; [reflexivity|]);
      unfold loop_inv, is_best; cbn [fst snd]; rewrite map_app, List.filter_app; setoid_rewrite in_app_iff; cbn [List.filter map snd].
    + rewrite Ec. cbn [is_eq]. split; [|by rewrite map_app]. split; [by left|]. intros r' [?|[<-|[]]]; [by apply Hmax|].
      unfold rank_le. by rewrite Ec.
    + rewrite Ec. cbn [is_eq]. split; [|by rewrite app_nil_r]. split; [by left|]. intros r' [?|[<-|[]]]; [by apply Hmax|].
      unfold rank_le. by rewrite Ec.
    + rewrite cmp_refl. cbn [is_eq]. split.
      * split; [right; by left|]. intros r' [?|[<-|[]]]; [|done]. etransitivity; [by apply Hmax|].
        unfold rank_le. rewrite (cmpRank_opp rank b), Ec. done.
      * rewrite filter_none; [done|]. intros [s x] Hx. apply (cmp_gt_strict rank b); [done|].
        apply Hmax. apply in_map_iff. by exists (s, x).
  - destruct Hinv as [-> ->]. eexists. split; [reflexivity|]. unfold loop_inv, is_best. simpl. rewrite cmp_refl. simpl.
    split; [|done]. split; [by left|]. by intros r' [<-|[]].
Qed.

Definition entry_ok (board : list number) (e : Z * list number) : Prop :=
  length e.2 = 2%nat ∧ is_ok (evaluate7 (board ++ e.2)) = true.

Lemma winnerStep_ok board acc e acc' : winnerStep board acc e = Ok acc' → entry_ok board e.
Proof.
  destruct e as [seat hole]. unfold winnerStep, entry_ok. intros (u & Hu & H)%rbind_ok. apply throw_if_ok in Hu. b2p.
  apply rbind_ok in H as (? & _ & H). apply rbind_ok in H as (r & Hr & _). simpl. by rewrite Hr.
Qed.

Lemma winnersLoop_ok board entries acc acc' : winnersLoop board entries acc = Ok acc' → Forall (entry_ok board) entries.
Proof.
  revert acc. induction entries as [|e es IH]; intros acc; simpl; [done|]. intros (a & Ha & H)%rbind_ok.
  constructor; [by eapply winnerStep_ok|by eapply IH].
Qed.

Lemma winnersLoop_inv board entries scored acc :
  loop_inv scored acc → Forall (entry_ok board) entries →
  ∃ acc' more, winnersLoop board entries acc = Ok acc' ∧ loop_inv (scored ++ more) acc' ∧
    Forall2 (λ e p, p.1 = e.1 ∧ evaluate7 (board ++ e.2) = Ok p.2) entries more.
Proof.
  intros Hinv H. revert scored acc Hinv. induction H as [|[seat hole] es [Hl He] _ IH]; intros scored acc Hinv; cbn [winnersLoop].
  - exists acc, []. rewrite app_nil_r. by repeat constructor.
  - cbn [snd] in *. destruct (evaluate7 (board ++ hole)) as [r|] eqn:Er; [|done].
    destruct (winnerStep_inv board scored acc seat hole r Hinv Hl Er) as (a & -> & Ha). cbn [rbind].
    destruct (IH _ _ Ha) as (acc' & more & H1 & H2 & H3). exists acc', ((seat, r) :: more).
    rewrite <-app_assoc in H2. split; [done|]. split; [done|by constructor].
Qed.

Lemma best_compare (scored : list (Z * HandRank)) b p :
  is_best (map snd scored) b → In p scored →
  is_eq (compareHandRank p.2 b) = true ↔ ∀ q, In q scored → rank_le q.2 p.2.
Proof.
  intros [Hin Hmax] Hp. split.
  - intros E q Hq. etransitivity; [apply Hmax, in_map, Hq|]. unfold rank_le. rewrite (cmpRank_opp p.2 b).
    by destruct (compareHandRank p.2 b).
  - intros H. apply in_map_iff in Hin as (q & <- & Hq). specialize (H q Hq). specialize (Hmax p.2 (in_map _ _ _ Hp)).
    unfold rank_le in *. rewrite (cmpRank_opp p.2 q.2) in H. by destruct (compareHandRank p.2 q.2).
Qed.

(** Who is in the list the loop ends with. *)
Lemma winners_members board entries sc acc seat :
  loop_inv sc acc → Forall2 (λ e p, p.1 = e.1 ∧ evaluate7 (board ++ e.2) = Ok p.2) entries sc →
  seat ∈ acc.2 ↔ ∃ hole r, In (seat, hole) entries ∧ evaluate7 (board ++ hole) = Ok r ∧
    ∀ e, In e entries → ∃ r', evaluate7 (board ++ e.2) = Ok r' ∧ rank_le r' r.
Proof.
  intros Hinv HF.
  assert (Hto : ∀ e, In e entries → ∃ r, In (e.1, r) sc ∧ evaluate7 (board ++ e.2) = Ok r).
  { intros e [i Hi]%list_elem_of_In%list_elem_of_lookup. destruct (Forall2_lookup_l _ _ _ _ _ HF Hi) as ([s r] & Hp & Hs & Hr).
    exists r. split; [|done]. apply list_elem_of_In, list_elem_of_lookup. exists i. by rewrite <-Hs. }
  assert (Hfrom : ∀ s r, In (s, r) sc → ∃ hole, In (s, hole) entries ∧ evaluate7 (board ++ hole) = Ok r).
  { intros s r [i Hi]%list_elem_of_In%list_elem_of_lookup. destruct (Forall2_lookup_r _ _ _ _ _ HF Hi) as ([s' hole] & Hp & Hs & Hr).
    exists hole. split; [|done]. apply list_elem_of_In, list_elem_of_lookup. exists i. simpl in Hs. by rewrite Hs. }
  unfold loop_inv in Hinv. destruct acc as [[b|] seats]; cbn [fst snd] in *.
  2:{ destruct Hinv as [-> ->]. split; [by intros ?%not_elem_of_nil|]. intros (hole & r & Hin & _).
      by destruct (Hto _ Hin) as (? & [] & _). }
  destruct Hinv as [Hb ->]. rewrite list_elem_of_In, in_map_iff. setoid_rewrite List.filter_In. split.
  - intros ([s r] & <- & Hp & E). cbn [fst snd] in *. destruct (Hfrom s r Hp) as (hole & Hh & Er). exists hole, r.
    do 2 (split; [done|]). intros e He. destruct (Hto e He) as (r' & Hr' & Er'). exists r'. split; [done|].
    by apply (proj1 (best_compare sc b (s, r) Hb Hp) E (e.1, r')).
  - intros (hole & r & Hh & Er & Hall). destruct (Hto _ Hh) as (r0 & Hr0 & Er0). cbn [fst snd] in *.
    rewrite Er in Er0. apply Ok_inj in Er0 as <-. exists (seat, r). do 2 (split; [done|]).
    apply (best_compare sc b (seat, r) Hb Hr0). intros [s q] Hq. destruct (Hfrom s q Hq) as (hole' & Hh' & Eq').
    destruct (Hall _ Hh') as (r' & Er' & Hle). cbn [snd] in *. congruence.
Qed.

(** C39. [winners] succeeds exactly on a board of five different cards where
    every seat holds two further cards, different from the board's and from
    each other, and returns in increasing order exactly the seats whose best
    hand no other seat's best hand beats. *)
Theorem winners_correct board holes :
  (is_ok (winners board holes) = true ↔
   (∃ cs, board = map Int cs ∧ deal 5 cs) ∧ Forall (entry_ok board) (integerSeats holes)) ∧
  (∀ ws, winners board holes = Ok ws →
     Sorted Z.le ws ∧
     ∀ seat, seat ∈ ws ↔ ∃ hole r, In (seat, hole) (integerSeats holes) ∧ evaluate7 (board ++ hole) = Ok r ∧
       ∀ e, In e (integerSeats holes) → ∃ r', evaluate7 (board ++ e.2) = Ok r' ∧ compareHandRank r' r ≠ Gt).
Proof.
  assert (Hboard : (∃ cs, board = map Int cs ∧ deal 5 cs) ↔ (length board =? 5)%nat = true ∧ ∃ cs, assertDistinct board = Ok cs).
  { setoid_rewrite assertDistinct_ok. split.
    - intros (cs & -> & Hl & ? & ?). rewrite length_map, Hl. by split; [|exists cs].
    - intros (Hl & cs & -> & ? & ?). rewrite length_map in Hl. b2p. exists cs. by repeat split. }
  assert (Hrun : ∀ ws, winners board holes = Ok ws ↔ (length board =? 5)%nat = true ∧ (∃ cs, assertDistinct board = Ok cs) ∧
    ∃ acc, winnersLoop board (integerSeats holes) (None, []) = Ok acc ∧ ws = sort_by Z.leb acc.2).
  { intros ws. unfold winners. destruct (length board =? 5)%nat; simpl; [|by split; [|intros [? _]]].
    destruct (assertDistinct board) as [cs|]; simpl; [|by split; [|intros (_ & (? & ?) & _)]].
    destruct (winnersLoop _ _ _) as [acc|]; simpl; [|by split; [|intros (_ & _ & ? & ? & _)]].
    split; [intros <-%Ok_inj; split; [done|]; split; [by exists cs|by exists acc]|by intros (_ & _ & a & <-%Ok_inj & ->)]. }
  split.
  - split.
    + destruct (winners board holes) as [ws|]; [|done]. intros _.
      destruct (proj1 (Hrun ws) eq_refl) as (Hl & Hd & acc & Hacc & _).
      split; [by apply Hboard|by eapply winnersLoop_ok].
    + intros [Hb He]. apply Hboard in Hb as [Hl Hd].
      destruct (winnersLoop_inv board (integerSeats holes) [] (None, []) ltac:(done) He) as (acc & _ & Hacc & _).
      by rewrite (proj2 (Hrun (sort_by Z.leb acc.2))) by eauto.
  - intros ws (_ & _ & acc & Hacc & ->)%Hrun. split; [apply sort_asc_sorted|].
    pose proof (winnersLoop_ok _ _ _ _ Hacc) as He.
    destruct (winnersLoop_inv board (integerSeats holes) [] (None, []) ltac:(done) He) as (acc' & sc & Hacc' & Hinv & HF).
    rewrite Hacc in Hacc'. apply Ok_inj in Hacc' as <-. cbn [app] in Hinv. intros seat.
    rewrite (sort_by_perm Z.leb). by apply (winners_members board _ sc acc).
Qed.

End HoldemThms.
