(* ===== verification/OcpBytes.v ===== *)
(** * Bytes and scalars: [packages/ocp-crypto/src/utils/bytes.ts], [scalar.ts]

    A [Uint8Array] is a [list Z] whose elements are below 256 ([bytes_ok]); a
    scalar is a [bigint], here [Z], and the group order is the constant of
    ed25519.  A function that throws returns the message in [Err].  Strings
    are the byte strings of their UTF-8 encoding. *)
From stdpp Require Import base option list strings.
From Stdlib Require Import ZArith Lia Ascii.
From S2P Require Import Prelude.

Module Bytes.

Definition bytes : Type := list Z.
Definition byte_ok (b : Z) : Prop := 0 <= b < 256.
Definition bytes_ok (l : bytes) : Prop := Forall byte_ok l.

Abbreviation res := (result string).

Definition SCALAR_BYTES : nat := 32.
Definition GROUP_ELEMENT_BYTES : nat := 32.
(** The order of the ed25519 base point. *)
Definition CURVE_ORDER : Z := 2 ^ 252 + 27742317777372353535851937790883648493.

(** ** bytes.ts *)

Definition concatBytes (parts : list bytes) : bytes := concat parts.

Definition u32le (n : number) : res bytes :=
  match n with
  | NotInteger => Err "u32le: invalid value"%string
  | Int n =>
      let! _ := throw_if ((n <? 0) || (4294967295 <? n)) "u32le: invalid value"%string in
      Ok [Z.land n 255; Z.land (Z.shiftr n 8) 255; Z.land (Z.shiftr n 16) 255; Z.land (Z.shiftr n 24) 255]
  end.

Definition utf8 (s : string) : bytes := map (λ c, Z.of_nat (nat_of_ascii c)) (String.list_ascii_of_string s).

(** The digit of a value below 16, as [toString(16)] writes it. *)
Definition hexDigit (d : Z) : ascii :=
  ascii_of_nat (Z.to_nat (if d <? 10 then 48 + d else 87 + d)).

(** [b.toString(16).padStart(2, "0")] of a byte *)
Definition byteToHex (b : Z) : list ascii :=
  let digits := if b <? 16 then [hexDigit b] else [hexDigit (b / 16); hexDigit (b mod 16)] in
  replicate (2 - length digits) "0"%char ++ digits.

Definition bytesToHex (bs : bytes) : string := String.string_of_list_ascii (concat (map byteToHex bs)).

(** The value of a hexadecimal digit in either case. *)
Definition digitValue (c : ascii) : option Z :=
  let n := Z.of_nat (nat_of_ascii c) in
  if (48 <=? n) && (n <=? 57) then Some (n - 48)
  else if (97 <=? n) && (n <=? 102) then Some (n - 87)
  else if (65 <=? n) && (n <=? 70) then Some (n - 55)
  else None.

(** White space that [parseInt] skips. *)
Definition isSpace (c : ascii) : bool :=
  let n := Z.of_nat (nat_of_ascii c) in ((9 <=? n) && (n <=? 13)) || (n =? 32).

Fixpoint skipSpace (l : list ascii) : list ascii :=
  match l with c :: l' => if isSpace c then skipSpace l' else l | [] => [] end.

(** The longest prefix of digits. *)
Fixpoint parseDigits (acc : option Z) (l : list ascii) : option Z :=
  match l with
  | c :: l' => match digitValue c with
               | Some d => parseDigits (Some (default 0 acc * 16 + d)) l'
               | None => acc
               end
  | [] => acc
  end.

(** [Number.parseInt(s, 16)]; [None] is [NaN]. *)
Definition parseInt16 (s : list ascii) : option Z :=
  let s := skipSpace s in
  let '(neg, s) := match s with
                   | "-"%char :: s => (true, s)
                   | "+"%char :: s => (false, s)
                   | _ => (false, s)
                   end in
  let s := match s with
           | "0"%char :: ("x" | "X")%char :: s => s
           | _ => s
           end in
  (λ v, if neg then - v else v) <$> parseDigits None s.

(** The pairs of characters; assigning to a [Uint8Array] keeps the low byte. *)
Fixpoint hexPairs (l : list ascii) : res bytes :=
  match l with
  | a :: b :: l =>
      match parseInt16 [a; b] with
      | None => Err "hexToBytes: invalid hex"%string
      | Some byte => let! rest := hexPairs l in Ok (byte mod 256 :: rest)
      end
  | _ => Ok []
  end.

Definition hexToBytes (hex : string) : res bytes :=
  let h := match String.list_ascii_of_string hex with
           | "0"%char :: "x"%char :: h => h
           | h => h
           end in
  let! _ := throw_if (negb (length h mod 2 =? 0)%nat) "hexToBytes: invalid length"%string in
  hexPairs h.

(** ** scalar.ts *)

Definition Scalar : Type := Z.

Definition assertScalar (s : Scalar) : res unit :=
  throw_if ((s <? 0) || (CURVE_ORDER <=? s)) "Scalar out of range"%string.

(** [%] on [bigint] takes the sign of the dividend. *)
Definition scalarMod (s : Z) : Scalar :=
  let m := Z.rem s CURVE_ORDER in
  if 0 <=? m then m else m + CURVE_ORDER.

Definition scalarAdd (a b : Scalar) : Scalar := scalarMod (a + b).
Definition scalarSub (a b : Scalar) : Scalar := scalarMod (a - b).
Definition scalarMul (a b : Scalar) : Scalar := scalarMod (a * b).
Definition scalarNeg (a : Scalar) : Scalar := if a =? 0 then 0 else CURVE_ORDER - a.

Definition isScalarBytes (bs : bytes) : bool := (length bs =? SCALAR_BYTES)%nat.

(** The loop runs from the last byte to the first. *)
Definition bytesToBigintLE (bs : bytes) : Z := fold_left (λ x b, Z.shiftl x 8 + b) (rev bs) 0.

Fixpoint bytesLE_loop (v : Z) (len : nat) : bytes * Z :=
  match len with
  | O => ([], v)
  | S len => let (out, v') := bytesLE_loop (Z.shiftr v 8) len in (Z.land v 255 :: out, v')
  end.

Definition bigintToBytesLE (x : Z) (len : nat) : res bytes :=
  let! _ := throw_if (x <? 0) "bigintToBytesLE: negative"%string in
  let (out, v) := bytesLE_loop x len in
  let! _ := throw_if (negb (v =? 0)) "bigintToBytesLE: overflow"%string in
  Ok out.

Definition scalarFromBytes (bs : bytes) : res Scalar :=
  let! _ := throw_if (negb (isScalarBytes bs)) "scalarFromBytes: expected 32 bytes"%string in
  let x := bytesToBigintLE bs in
  let! _ := throw_if (CURVE_ORDER <=? x) "scalarFromBytes: non-canonical (>= q)"%string in
  Ok x.

Definition scalarFromBytesModOrder (bs : bytes) : res Scalar :=
  let! _ := throw_if (length bs =? 0)%nat "scalarFromBytesModOrder: expected bytes"%string in
  Ok (scalarMod (bytesToBigintLE bs)).

Definition scalarToBytes (s : Scalar) : res bytes :=
  let! _ := assertScalar s in bigintToBytesLE s SCALAR_BYTES.

(** ** Little-endian numbers *)

Lemma land255 v : Z.land v 255 = v mod 256.
Proof. change 255 with (Z.ones 8). by rewrite Z.land_ones. Qed.

Lemma bytesToBigintLE_cons b bs : bytesToBigintLE (b :: bs) = bytesToBigintLE bs * 256 + b.
Proof. unfold bytesToBigintLE. cbn [rev]. rewrite fold_left_app. cbn [fold_left]. by rewrite Z.shiftl_mul_pow2. Qed.

Lemma bytesLE_loop_spec v len : 0 <= v →
  let (out, v') := bytesLE_loop v len in
  length out = len ∧ bytes_ok out ∧ bytesToBigintLE out + v' * 256 ^ Z.of_nat len = v ∧ 0 <= v'.
Proof.
  revert v. induction len as [|len IH]; intros v Hv; cbn [bytesLE_loop].
  - cbn. repeat split; try lia. constructor.
  - specialize (IH (Z.shiftr v 8)). destruct (bytesLE_loop _ _) as [out v'].
    rewrite Z.shiftr_div_pow2 in IH by lia. change (2 ^ 8) with 256 in IH.
    destruct (IH (Z.div_pos v 256 Hv ltac:(lia))) as (Hl & Hok & He & Hv'). rewrite land255.
    pose proof (Z.mod_pos_bound v 256 ltac:(lia)). repeat split; [simpl; lia|by constructor| |done].
    rewrite bytesToBigintLE_cons, Nat2Z.inj_succ, Z.pow_succ_r by lia. pose proof (Z.div_mod v 256 ltac:(lia)). nia.
Qed.

Lemma bytesToBigintLE_bound bs : bytes_ok bs → 0 <= bytesToBigintLE bs < 256 ^ Z.of_nat (length bs).
Proof.
  induction 1 as [|b bs Hb _ IH]; [done|]. rewrite bytesToBigintLE_cons. cbn [length].
  rewrite Nat2Z.inj_succ, Z.pow_succ_r by lia. unfold byte_ok in Hb. lia.
Qed.

Lemma bytesToBigintLE_inj bs bs' :
  bytes_ok bs → bytes_ok bs' → length bs = length bs' → bytesToBigintLE bs = bytesToBigintLE bs' → bs = bs'.
Proof.
  intros H. revert bs'. induction H as [|b bs Hb _ IH]; intros [|b' bs'] H' Hl; try done.
  apply Forall_cons in H' as [Hb' H']. rewrite !bytesToBigintLE_cons. intros E. unfold byte_ok in *.
  assert (b = b') as -> by lia. f_equal. apply IH; [done|by injection Hl|lia].
Qed.

Lemma bigintToBytesLE_ok x len : 0 <= x < 256 ^ Z.of_nat len →
  ∃ out, bigintToBytesLE x len = Ok out ∧ length out = len ∧ bytes_ok out ∧ bytesToBigintLE out = x.
Proof.
  intros [Hx Hlt]. unfold bigintToBytesLE. rewrite (proj2 (Z.ltb_ge x 0)) by done. cbn [throw_if rbind].
  pose proof (bytesLE_loop_spec x len Hx) as H. destruct (bytesLE_loop x len) as [out v].
  destruct H as (Hl & Hok & He & Hv). pose proof (bytesToBigintLE_bound out Hok) as Hb. rewrite Hl in Hb.
  assert (v = 0) as ->.
  { set (p := 256 ^ Z.of_nat len) in *. clearbody p. destruct (decide (v = 0)) as [|Hne]; [done|].
    pose proof (Z.mul_le_mono_nonneg_r 1 v p). lia. }
  exists out. repeat split; try done. lia.
Qed.

Lemma scalarMod_mod s : scalarMod s = s mod CURVE_ORDER.
Proof.
  unfold scalarMod. assert (Hq : 0 < CURVE_ORDER) by done. revert Hq. generalize CURVE_ORDER. intros q Hq.
  pose proof (Z.rem_bound_abs s q ltac:(lia)) as Hb. pose proof (Z.quot_rem' s q) as E. cbv zeta.
  destruct (0 <=? Z.rem s q) eqn:Es; b2p.
  - apply Z.mod_unique with (s ÷ q); lia.
  - apply Z.mod_unique with (s ÷ q - 1); lia.
Qed.

(** A canonical scalar. *)
Definition canonical (s : Scalar) : Prop := 0 <= s < CURVE_ORDER.

Lemma assertScalar_ok s u : assertScalar s = Ok u ↔ canonical s.
Proof.
  unfold assertScalar, canonical. rewrite throw_if_ok, orb_false_iff, Z.ltb_ge, Z.leb_gt. done.
Qed.

Lemma scalarMod_canonical s : canonical (scalarMod s).
Proof. rewrite scalarMod_mod. by apply Z.mod_pos_bound. Qed.

(** The scalar operations are arithmetic modulo the group order: sum,
    difference, product and negation of canonical scalars are the canonical
    representatives, so subtraction undoes addition and negation is the
    additive inverse. *)
Theorem scalar_arithmetic a b :
  canonical a → canonical b →
  scalarAdd a b = (a + b) mod CURVE_ORDER ∧ scalarSub a b = (a - b) mod CURVE_ORDER ∧
  scalarMul a b = (a * b) mod CURVE_ORDER ∧ scalarNeg a = (- a) mod CURVE_ORDER ∧
  canonical (scalarNeg a) ∧ scalarAdd a (scalarNeg a) = 0 ∧ scalarSub (scalarAdd a b) b = a.
Proof.
  intros Ha Hb. unfold scalarAdd, scalarSub, scalarMul, canonical in *. rewrite !scalarMod_mod.
  assert (Hn : scalarNeg a = (- a) mod CURVE_ORDER).
  { unfold scalarNeg. destruct (a =? 0) eqn:E; b2p; [by subst|]. apply Z.mod_unique with (-1); lia. }
  repeat split; try done.
  1,2: rewrite Hn; apply Z.mod_pos_bound; done.
  - rewrite Hn, Z.add_mod_idemp_r by done. by rewrite Z.add_opp_diag_r.
  - rewrite Zminus_mod_idemp_l. replace (a + b - b) with a by lia. by apply Z.mod_small.
Qed.

Lemma scalar_arithmetic_witness : scalarSub (scalarAdd (CURVE_ORDER - 1) 5) 5 = CURVE_ORDER - 1.
Proof.
  destruct (scalar_arithmetic (CURVE_ORDER - 1) 5) as (_ & _ & _ & _ & _ & _ & H); [split; vm_compute; congruence..|exact H].
Defined.

Lemma scalarToBytes_ok s : canonical s →
  ∃ bs, scalarToBytes s = Ok bs ∧ length bs = SCALAR_BYTES ∧ bytes_ok bs ∧ bytesToBigintLE bs = s.
Proof.
  intros Hs. unfold scalarToBytes. destruct (assertScalar s) as [u|] eqn:E.
  2:{ apply (assertScalar_ok s tt) in Hs. congruence. }
  cbn [rbind]. apply bigintToBytesLE_ok. unfold canonical, SCALAR_BYTES in *. split; [lia|].
  assert (CURVE_ORDER < 256 ^ Z.of_nat 32) by (vm_compute; reflexivity). lia.
Qed.

Lemma scalarFromBytes_ok bs s : bytes_ok bs →
  scalarFromBytes bs = Ok s ↔ length bs = SCALAR_BYTES ∧ bytesToBigintLE bs = s ∧ canonical s.
Proof.
  intros Hok. unfold scalarFromBytes, isScalarBytes, canonical. pose proof (bytesToBigintLE_bound bs Hok).
  destruct (length bs =? SCALAR_BYTES)%nat eqn:El; b2p; cbn [negb throw_if rbind]; [|by split; [|intros (? & _)]].
  destruct (CURVE_ORDER <=? bytesToBigintLE bs) eqn:E; b2p; cbn [throw_if rbind].
  - split; [done|]. intros (_ & <- & ?). lia.
  - split; [intros <-%Ok_inj; repeat split; try done; lia|]. by intros (_ & <- & _).
Qed.

Lemma scalar_reencode bs s : bytes_ok bs → scalarFromBytes bs = Ok s → canonical s ∧ scalarToBytes s = Ok bs.
Proof.
  intros Hok (Hl & He & Hs)%scalarFromBytes_ok; [|done]. split; [done|].
  destruct (scalarToBytes_ok s Hs) as (bs' & E & Hl' & Hok' & He'). rewrite E. f_equal.
  apply bytesToBigintLE_inj; congruence.
Qed.

(** Scalars and their 32-byte little-endian encoding are in bijection: the
    encoding of a canonical scalar decodes to it, and only that encoding is
    accepted for it (a value at or above the order is refused). *)
Theorem scalar_bytes_roundtrip :
  (∀ s, canonical s → ∃ bs, scalarToBytes s = Ok bs ∧ length bs = SCALAR_BYTES ∧ bytes_ok bs ∧ scalarFromBytes bs = Ok s) ∧
  (∀ bs s, bytes_ok bs → scalarFromBytes bs = Ok s → canonical s ∧ scalarToBytes s = Ok bs) ∧
  (∀ s, ¬ canonical s → ∃ e, scalarToBytes s = Err e).
Proof.
  split; [|split].
  - intros s Hs. destruct (scalarToBytes_ok s Hs) as (bs & E & Hl & Hok & He). exists bs. do 3 (split; [done|]).
    by apply scalarFromBytes_ok.
  - exact scalar_reencode.
  - intros s Hs. unfold scalarToBytes. destruct (assertScalar s) eqn:E; [|by eexists].
    by apply assertScalar_ok in E.
Qed.

(** ** Hexadecimal *)

Lemma string_list_ascii l : String.list_ascii_of_string (String.string_of_list_ascii l) = l.
Proof. induction l as [|c l IH]; simpl; [done|]. by rewrite IH. Qed.

(** One byte, checked for all 256 values. *)
Definition byteToHex_ok (b : Z) : bool :=
  match byteToHex b with
  | [c1; c2] => negb (c2 =? "x")%char && bool_decide (parseInt16 [c1; c2] = Some b)
  | _ => false
  end.

Lemma byteToHex_all : forallb (λ i, byteToHex_ok (Z.of_nat i)) (seq 0 256) = true.
Proof. vm_compute. reflexivity. Qed.

Lemma byteToHex_parse b : byte_ok b → ∃ c1 c2, byteToHex b = [c1; c2] ∧ c2 ≠ "x"%char ∧ parseInt16 [c1; c2] = Some b.
Proof.
  intros Hb. pose proof byteToHex_all as H. rewrite forallb_forall in H.
  assert (Hin : In (Z.to_nat b) (seq 0 256)) by (apply in_seq; unfold byte_ok in Hb; lia).
  specialize (H _ Hin). rewrite Z2Nat.id in H by apply Hb. unfold byteToHex_ok in H.
  destruct (byteToHex b) as [|c1 [|c2 [|]]]; try done. b2p. exists c1, c2. split; [done|]. split.
  - intros ->. done.
  - by eapply bool_decide_eq_true.
Qed.

Lemma hexPairs_bytes bs : bytes_ok bs → hexPairs (concat (map byteToHex bs)) = Ok bs.
Proof.
  induction 1 as [|b bs Hb _ IH]; [done|]. cbn [map concat]. destruct (byteToHex_parse b Hb) as (c1 & c2 & -> & _ & E).
  cbn [app hexPairs]. rewrite E, IH. cbn [rbind]. unfold byte_ok in Hb. by rewrite Z.mod_small.
Qed.

Lemma hexChars_even bs : bytes_ok bs → (length (concat (map byteToHex bs)) mod 2 = 0)%nat.
Proof.
  intros H. replace (length (concat (map byteToHex bs))) with (length bs * 2)%nat; [by apply Nat.Div0.mod_mul|].
  induction H as [|b bs Hb _ IH]; [done|]. cbn [map concat]. destruct (byteToHex_parse b Hb) as (c1 & c2 & -> & _).
  simpl. lia.
Qed.

(** Hexadecimal printing and parsing: what [bytesToHex] prints,
    [hexToBytes] reads back, with or without a leading [0x]. *)
Lemma hex_roundtrip bs :
  bytes_ok bs → hexToBytes (bytesToHex bs) = Ok bs ∧ hexToBytes (String "0" (String "x" (bytesToHex bs))) = Ok bs.
Proof.
  intros H. unfold hexToBytes, bytesToHex. cbn [String.list_ascii_of_string]. rewrite string_list_ascii.
  pose proof (hexChars_even bs H) as He. pose proof (hexPairs_bytes bs H) as Hp.
  assert (Hs : match concat (map byteToHex bs) with "0"%char :: "x"%char :: h => h | h => h end = concat (map byteToHex bs)).
  { destruct H as [|b bs Hb _]; [done|]. cbn [map concat]. destruct (byteToHex_parse b Hb) as (c1 & c2 & -> & Hx & _).
    cbn [app]. destruct (decide (c1 = "0"%char)) as [->|Hc1].
    - destruct c2 as [[] [] [] [] [] [] [] []]; try done.
    - destruct c1 as [[] [] [] [] [] [] [] []]; try done. }
  rewrite Hs. cbn iota. rewrite He. cbn [Nat.eqb negb throw_if rbind]. done.
Qed.

(** Strings that are not hexadecimal get through: [parseInt] stops at the first
    character that is no digit, and takes a sign or white space. *)
Lemma hexToBytes_lenient :
  hexToBytes "1g" = Ok [1] ∧ hexToBytes "-1" = Ok [255] ∧ hexToBytes " 7" = Ok [7] ∧ is_ok (hexToBytes "g1") = false.
Proof. vm_compute. tauto. Qed.

End Bytes.
