(* ===== verification/OcpPrime.v ===== *)
(** * The order of the group is prime

    Pocklington's criterion, and the chain of primes that certifies
    [CURVE_ORDER].  With it every scalar but zero has an inverse, which is what
    the soundness of the proofs and the interpolation of shares rest on. *)
From stdpp Require Import base option list.
From Stdlib Require Import ZArith Lia Zpow_facts Znumtheory Zmod.
From S2P Require Import Prelude OcpBytes.
Import Bytes.

Module GroupOrder.

(** ** Prime divisors *)

Lemma prime_divisor n : 1 < n → ∃ r, Z.prime r ∧ (r | n).
Proof.
  intros Hn. assert (Hn0 : 0 <= n) by lia. revert n Hn0 Hn. refine (Zlt_0_ind _ _). intros n IH _ Hn.
  destruct (prime_dec n) as [Hp|Hnp]; [exists n; split; [by apply prime_alt|done]|].
  destruct (not_prime_divide n Hn Hnp) as (d & Hd & Hdn). destruct (IH d) as (r & Hr & Hrd); [lia..|].
  exists r. split; [done|by etransitivity].
Qed.

(** A divisor of [n] that is not trivial leads to a prime divisor that is at
    most the square root. *)
Lemma small_prime_divisor n d : 1 < d < n → (d | n) → ∃ r, Z.prime r ∧ (r | n) ∧ r * r <= n.
Proof.
  intros Hd [e He]. assert (He1 : 1 < e) by nia.
  assert (Hsmall : ∃ x, 1 < x ∧ (x | n) ∧ x * x <= n).
  { destruct (Z.le_ge_cases d e); [exists d|exists e]; (split; [lia|split; [|nia]]); [by exists e|exists d; lia]. }
  destruct Hsmall as (x & Hx & Hxn & Hxx). destruct (prime_divisor x Hx) as (r & Hr & Hrx).
  exists r. split; [done|]. split; [by etransitivity|].
  assert (Hle : r <= x) by (apply Z.divide_pos_le; [lia|done]). pose proof (Z.prime_ge_2 r Hr). nia.
Qed.

Lemma prime_above F n : 1 < n → n < F * F → (∀ r, Z.prime r → (r | n) → F < r) → 0 < F → Z.prime n.
Proof.
  intros Hn HF Hr HF0. split; [done|]. intros d Hd Hdn.
  destruct (small_prime_divisor n d Hd Hdn) as (r & Hp & Hrn & Hrr). specialize (Hr r Hp Hrn). nia.
Qed.

(** ** Pocklington's criterion *)

Definition certifies (n f a : Z) : bool :=
  ((n - 1) mod f =? 0) && (Zpow_mod a (n - 1) n =? 1) && (Z.gcd (Zpow_mod a ((n - 1) / f) n - 1) n =? 1).

Lemma pow_one_mod b k r : 1 < r → 0 <= k → b mod r = 1 → b ^ k mod r = 1.
Proof. intros Hr Hk Hb. rewrite Zpower_mod, Hb, Z.pow_1_l, Z.mod_1_l by lia. done. Qed.

(** [f] has an inverse exponent modulo [r - 1]. *)
Lemma inverse_exponent f r : Z.prime f → 1 < r → ¬ (f | r - 1) → ∃ i j, 0 <= i ∧ 0 <= j ∧ i * f = 1 + j * (r - 1).
Proof.
  intros Hf Hr Hn. pose proof (Z.prime_ge_2 f Hf). destruct (decide (r = 2)) as [->|Hr2]; [exists 1, (f - 1); lia|].
  assert (Hc : Z.coprime f (r - 1)) by by apply Z.coprime_prime_l.
  pose proof (Z.invmod_coprime f (r - 1) ltac:(lia) Hc) as Hi. set (i := Z.invmod f (r - 1)) in *.
  assert (Hi0 : 0 <= i) by (unfold i; rewrite <-Z.mod_invmod; apply Z.mod_pos_bound; lia).
  exists i, (i * f / (r - 1)). pose proof (Z.div_mod (i * f) (r - 1) ltac:(lia)) as Hdm. rewrite Hi in Hdm.
  assert (0 <= i * f / (r - 1)) by (apply Z.div_pos; nia). lia.
Qed.

Lemma certifies_divides n f a r : 1 < n → Z.prime f → certifies n f a = true → Z.prime r → (r | n) → (f | r - 1).
Proof.
  unfold certifies. rewrite !andb_true_iff, !Z.eqb_eq. intros Hn Hf [[Hdiv Hpow] Hgcd] Hr Hrn.
  pose proof (Z.prime_ge_2 f Hf). pose proof (Z.prime_ge_2 r Hr).
  rewrite Zpow_mod_correct in Hpow, Hgcd by lia. apply Z.mod_divide in Hdiv as [R HR]; [|lia].
  assert (HR0 : 0 <= R) by nia. rewrite HR, Z.div_mul in Hgcd by lia. rewrite HR, Z.pow_mul_r in Hpow by lia.
  destruct (decide ((r - 1) mod f = 0)) as [Hd|Hnd]; [by apply Z.mod_divide in Hd; [|lia]|exfalso].
  rewrite Z.mod_divide in Hnd by lia.
  destruct (inverse_exponent f r Hf ltac:(lia) Hnd) as (i & j & Hi & Hj & Hij). set (b := a ^ R) in *.
  assert (Hbf : b ^ f mod r = 1) by (rewrite <-(Z.mod_mod_divide _ n r Hrn), Hpow; apply Z.mod_1_l; lia).
  assert (Hb0 : b mod r ≠ 0) by (intros E; rewrite Zpower_mod, E, Z.pow_0_l, Z.mod_0_l in Hbf; lia).
  assert (Hb1 : b mod r = 1).
  { rewrite <-(pow_one_mod (b ^ f) i r), <-Z.pow_mul_r, Z.mul_comm, Hij by (lia || done).
    rewrite Z.pow_add_r, Z.pow_1_r, (Z.mul_comm j), Z.pow_mul_r, <-Z.mul_mod_idemp_r by (nia || lia).
    rewrite pow_one_mod by (lia || by apply Z.fermat_nz). by rewrite Z.mul_1_r. }
  assert (Hdg : (r | 1)).
  { rewrite <-Hgcd. apply Z.gcd_greatest; [|done]. apply Z.mod_divide; [lia|].
    by rewrite Zminus_mod, (Z.mod_mod_divide _ n r Hrn), Hb1, (Z.mod_1_l r), Z.sub_diag, Z.mod_0_l by lia. }
  apply Z.divide_pos_le in Hdg; lia.
Qed.

(** One certified prime factor above the square root is enough. *)
Lemma pocklington n f a : 1 < n → n < f * f → Z.prime f → certifies n f a = true → Z.prime n.
Proof.
  intros Hn Hff Hf Hc. pose proof (Z.prime_ge_2 f Hf). apply (prime_above f); [lia|lia| |lia]. intros r Hr Hrn.
  assert (Hd := certifies_divides n f a r Hn Hf Hc Hr Hrn). pose proof (Z.prime_ge_2 r Hr). apply Z.divide_pos_le in Hd; lia.
Qed.

(** So are two of them whose product is. *)
Lemma pocklington2 n f g a b :
  1 < n → n < f * g * (f * g) → Z.prime f → Z.prime g → f ≠ g → certifies n f a = true → certifies n g b = true → Z.prime n.
Proof.
  intros Hn Hff Hf Hg Hne Hcf Hcg. pose proof (Z.prime_ge_2 f Hf). pose proof (Z.prime_ge_2 g Hg).
  apply (prime_above (f * g)); [lia..| |nia]. intros r Hr Hrn. pose proof (Z.prime_ge_2 r Hr).
  assert (Hdf := certifies_divides n f a r Hn Hf Hcf Hr Hrn). assert (Hdg := certifies_divides n g b r Hn Hg Hcg Hr Hrn).
  assert (Hd : (f * g | r - 1)).
  { destruct Hdf as [c Hc]. rewrite Hc in Hdg |- *. rewrite Z.mul_comm. apply Z.mul_divide_mono_r.
    apply Z.divide_prime_mul in Hdg as [Hdg|Hdg]; [done| |done].
    by apply (Z.divide_prime_prime g f Hg Hf) in Hdg as ->. }
  apply Z.divide_pos_le in Hd; lia.
Qed.

(** Trial division for the small ones. *)
Definition no_divisor (n : Z) (bound : nat) : bool := forallb (λ i, negb (n mod (Z.of_nat i + 2) =? 0)) (seq 0 bound).

Lemma trial_division n bound : 1 < n → n < (Z.of_nat bound + 2) * (Z.of_nat bound + 2) → no_divisor n bound = true → Z.prime n.
Proof.
  unfold no_divisor. rewrite forallb_forall. intros Hn Hb Hall. split; [done|]. intros d Hd Hdn.
  destruct (small_prime_divisor n d Hd Hdn) as (r & Hr & Hrn & Hrr). pose proof (Z.prime_ge_2 r Hr).
  specialize (Hall (Z.to_nat (r - 2))). rewrite in_seq, Z2Nat.id, negb_true_iff, Z.eqb_neq in Hall by lia.
  apply Hall; [split; [lia|]; nia|]. replace (r - 2 + 2) with r by lia. apply Z.mod_divide; [lia|done].
Qed.

(** ** The chain *)

Lemma prime_531581 : Z.prime 531581.
Proof. apply (trial_division _ 728); vm_compute; reflexivity. Qed.
Lemma prime_1224481 : Z.prime 1224481.
Proof. apply (trial_division _ 1105); vm_compute; reflexivity. Qed.
Lemma prime_50bit : Z.prime 1257559732178653.
Proof. apply (pocklington2 _ 531581 1224481 2 2); [by vm_compute|by vm_compute|exact prime_531581|exact prime_1224481|done|by vm_compute|by vm_compute]. Qed.
Lemma prime_62bit : Z.prime 4434155615661930479.
Proof. apply (pocklington _ 1257559732178653 2); [by vm_compute..|exact prime_50bit|by vm_compute]. Qed.
Lemma prime_87bit : Z.prime 172054593956031949258510691.
Proof. apply (pocklington _ 4434155615661930479 2); [by vm_compute..|exact prime_62bit|by vm_compute]. Qed.
Lemma prime_134bit : Z.prime 19757330305831588566944191468367130476339.
Proof. apply (pocklington _ 172054593956031949258510691 2); [by vm_compute..|exact prime_87bit|by vm_compute]. Qed.
Lemma prime_138bit : Z.prime 276602624281642239937218680557139826668747.
Proof. apply (pocklington _ 19757330305831588566944191468367130476339 2); [by vm_compute..|exact prime_134bit|by vm_compute]. Qed.

Lemma curve_order_prime : Z.prime CURVE_ORDER.
Proof. apply (pocklington _ 276602624281642239937218680557139826668747 2); [by vm_compute..|exact prime_138bit|by vm_compute]. Qed.

(** ** What it gives *)

(** Every scalar but zero has an inverse. *)
Definition inverse (d : Z) : Z := Z.invmod d CURVE_ORDER.

Lemma inverse_ok d : d mod CURVE_ORDER ≠ 0 → inverse d * d mod CURVE_ORDER = 1.
Proof. apply Z.invmod_prime, curve_order_prime. Qed.

Lemma mul_nonzero a b : a mod CURVE_ORDER ≠ 0 → b mod CURVE_ORDER ≠ 0 → (a * b) mod CURVE_ORDER ≠ 0.
Proof.
  intros Ha Hb E. apply Z.mod_divide in E; [|done]. apply Z.divide_prime_mul in E; [|exact curve_order_prime].
  destruct E as [E|E]; apply Z.mod_divide in E; done.
Qed.

(** Two canonical scalars that differ, differ modulo the order. *)
Lemma canonical_sub a b : canonical a → canonical b → a ≠ b → (a - b) mod CURVE_ORDER ≠ 0.
Proof.
  unfold canonical. intros Ha Hb Hne E. apply Z.mod_divide in E as [k Hk]; [|done].
  assert (0 < CURVE_ORDER) by done. assert (k = 0) by nia. nia.
Qed.

End GroupOrder.
