(* ===== verification/OcpGroup.v ===== *)
(** * The group: [packages/ocp-crypto/src/utils/group.ts]

    [RistrettoPoint] of [@noble/curves] is the interface [RistrettoOps]; what
    the code relies on is [RistrettoLaws]: an abelian group up to the points'
    own [equals] (coarser than equality of representations), whose exponent is
    the group order, with a [multiply] that computes multiples for scalars
    from 1 to the order minus 1 and throws otherwise, and a canonical 32-byte
    encoding.  [zmul] is the action of the integers that the laws give.  The
    integers modulo the order are an instance, [Residue]. *)
From stdpp Require Import base option list strings.
From Stdlib Require Import ZArith Lia.
From S2P Require Import Prelude OcpBytes.
Import Bytes.

Module Group.

Class RistrettoOps (P : Type) := {
  BASE : P;
  ZERO : P;
  p_add : P → P → P;
  p_subtract : P → P → P;
  p_multiply : P → Z → option P;
  p_equals : P → P → bool;
  toRawBytes : P → bytes;
  fromHex : bytes → option P
}.

#[export] Instance point_equiv {P} `{RistrettoOps P} : Equiv P := λ a b, p_equals a b = true.

(** [k] times [p], by repeated addition. *)
Definition times {P} `{RistrettoOps P} (k : nat) (p : P) : P := Nat.iter k (p_add p) ZERO.
Arguments times : simpl never.
Arguments CURVE_ORDER : simpl never.

Class RistrettoLaws (P : Type) `{RistrettoOps P} : Prop := {
  #[global] point_equivalence :: Equivalence (≡@{P});
  #[global] add_Proper :: Proper ((≡) ==> (≡) ==> (≡@{P})) p_add;
  add_assoc (a b c : P) : p_add a (p_add b c) ≡ p_add (p_add a b) c;
  add_comm (a b : P) : p_add a b ≡ p_add b a;
  add_zero (a : P) : p_add ZERO a ≡ a;
  subtract_add (a b : P) : p_add (p_subtract a b) b ≡ a;
  exponent (p : P) : times (Z.to_nat CURVE_ORDER) p ≡ ZERO;
  base_order k : 0 < k < CURVE_ORDER → ¬ times (Z.to_nat k) BASE ≡@{P} ZERO;
  multiply_in_range (p : P) k : 0 < k < CURVE_ORDER → ∃ r, p_multiply p k = Some r ∧ r ≡ times (Z.to_nat k) p;
  multiply_out_of_range (p : P) k : ¬ 0 < k < CURVE_ORDER → p_multiply p k = None;
  toRawBytes_Proper (a b : P) : a ≡ b → toRawBytes a = toRawBytes b;
  toRawBytes_ok (p : P) : length (toRawBytes p) = GROUP_ELEMENT_BYTES ∧ bytes_ok (toRawBytes p);
  fromHex_toRawBytes (p : P) : ∃ p', fromHex (toRawBytes p) = Some p' ∧ p' ≡ p
}.

(** ** The functions of group.ts *)

Section group.
Context {P : Type} `{RistrettoOps P}.

(** [GroupElement.fromBytes], with the canonicity loop. *)
Definition groupElementFromBytes (bs : bytes) : res P :=
  let! _ := throw_if (negb (length bs =? GROUP_ELEMENT_BYTES)%nat) "GroupElement.fromBytes: expected 32 bytes"%string in
  match fromHex bs with
  | None => Err "RistrettoPoint.fromHex"%string
  | Some p =>
      let rt := toRawBytes p in
      let! _ := throw_if (negb (forallb (λ i, rd (-1) rt i =? rd (-1) bs i) (seq 0 (length bs))))
                  "GroupElement.fromBytes: non-canonical"%string in
      Ok p
  end.

Definition groupElementToBytes (p : P) : bytes := toRawBytes p.
Definition isGroupElementBytes (bs : bytes) : bool := (length bs =? GROUP_ELEMENT_BYTES)%nat.
Definition basePoint : P := BASE.
Definition pointAdd (a b : P) : P := p_add a b.
Definition pointSub (a b : P) : P := p_subtract a b.
Definition multiply (p : P) (k : Scalar) : res P :=
  match p_multiply p k with Some r => Ok r | None => Err "Expected valid scalar"%string end.
Definition mulBase (k : Scalar) : res P := multiply BASE k.
Definition mulPoint (p : P) (k : Scalar) : res P := multiply p k.
Definition pointEq (a b : P) : bool := p_equals a b.

(** The action of all integers. *)
Definition zmul (k : Z) (p : P) : P := times (Z.to_nat (k mod CURVE_ORDER)) p.
End group.
Arguments zmul : simpl never.

(** ** The module structure *)

Section laws.
Context {P : Type} `{RistrettoLaws P}.
Implicit Types (a b c p : P) (k l : Z).

Lemma pointEq_spec a b : pointEq a b = true ↔ a ≡ b.
Proof. done. Qed.

Lemma add_cancel_r a b c : p_add a c ≡ p_add b c → a ≡ b.
Proof.
  intros E. set (n := p_subtract ZERO c). assert (Hn : p_add c n ≡ ZERO) by (rewrite add_comm; apply subtract_add).
  assert (Hr : ∀ x, p_add (p_add x c) n ≡ x) by (intros x; by rewrite <-add_assoc, Hn, add_comm, add_zero).
  by rewrite <-(Hr a), <-(Hr b), E.
Qed.

Lemma add_cancel_l a b c : p_add c a ≡ p_add c b → a ≡ b.
Proof. rewrite !(add_comm c). apply add_cancel_r. Qed.

Lemma add_swap a b c d : p_add (p_add a b) (p_add c d) ≡ p_add (p_add a c) (p_add b d).
Proof. rewrite <-!add_assoc. by rewrite (add_assoc b c d), (add_comm b c), <-add_assoc. Qed.

Lemma times_0 p : times 0 p = ZERO.
Proof. done. Qed.
Lemma times_S n p : times (S n) p = p_add p (times n p).
Proof. done. Qed.

#[global] Instance times_Proper n : Proper ((≡) ==> (≡@{P})) (times n).
Proof. intros a b E. induction n as [|n IH]; [done|]. by rewrite !times_S, IH, E. Qed.

Lemma times_add n m p : times (n + m) p ≡ p_add (times n p) (times m p).
Proof.
  induction n as [|n IH]; [by rewrite times_0, add_zero|]. cbn [Nat.add]. by rewrite !times_S, IH, add_assoc.
Qed.

Lemma times_mul n m p : times (n * m) p ≡ times n (times m p).
Proof. induction n as [|n IH]; [done|]. cbn [Nat.mul]. by rewrite times_add, IH, times_S. Qed.

Lemma times_zero n : times n (ZERO : P) ≡ ZERO.
Proof. induction n as [|n IH]; [done|]. by rewrite times_S, IH, add_zero. Qed.

Lemma times_distr n a b : times n (p_add a b) ≡ p_add (times n a) (times n b).
Proof. induction n as [|n IH]; [by rewrite !times_0, add_zero|]. by rewrite !times_S, IH, add_swap. Qed.

(** Multiples depend on the scalar modulo the order only. *)
Lemma times_mod k p : 0 <= k → times (Z.to_nat k) p ≡ zmul k p.
Proof.
  intros Hk. unfold zmul. assert (Hq : 0 < CURVE_ORDER) by done. pose proof (exponent p) as He. revert He Hq.
  generalize CURVE_ORDER. intros q He Hq. pose proof (Z.mod_pos_bound k q Hq). pose proof (Z.div_pos k q Hk Hq).
  rewrite (Z.div_mod k q) at 1 by lia. rewrite Z2Nat.inj_add, Z2Nat.inj_mul by lia.
  by rewrite times_add, (Nat.mul_comm (Z.to_nat q)), times_mul, He, times_zero, add_zero.
Qed.

#[global] Instance zmul_Proper k : Proper ((≡) ==> (≡@{P})) (zmul k).
Proof. intros a b E. unfold zmul. by rewrite E. Qed.

Lemma zmul_mod k l p : k mod CURVE_ORDER = l mod CURVE_ORDER → zmul k p = zmul l p.
Proof. unfold zmul. by intros ->. Qed.

Lemma zmul_add k l p : zmul (k + l) p ≡ p_add (zmul k p) (zmul l p).
Proof.
  rewrite (zmul_mod (k + l) (k mod CURVE_ORDER + l mod CURVE_ORDER)) by by rewrite <-Zplus_mod.
  pose proof (Z.mod_pos_bound k CURVE_ORDER eq_refl). pose proof (Z.mod_pos_bound l CURVE_ORDER eq_refl).
  rewrite <-times_mod by lia. rewrite Z2Nat.inj_add by lia. apply times_add.
Qed.

Lemma zmul_mul k l p : zmul (k * l) p ≡ zmul k (zmul l p).
Proof.
  rewrite (zmul_mod (k * l) (k mod CURVE_ORDER * (l mod CURVE_ORDER))) by by rewrite <-Zmult_mod.
  pose proof (Z.mod_pos_bound k CURVE_ORDER eq_refl). pose proof (Z.mod_pos_bound l CURVE_ORDER eq_refl).
  rewrite <-times_mod by lia. rewrite Z2Nat.inj_mul by lia. apply times_mul.
Qed.

Lemma zmul_comm k l p : zmul k (zmul l p) ≡ zmul l (zmul k p).
Proof. by rewrite <-!zmul_mul, Z.mul_comm. Qed.

Lemma zmul_distr k a b : zmul k (p_add a b) ≡ p_add (zmul k a) (zmul k b).
Proof. apply times_distr. Qed.

Lemma zmul_0 p : zmul 0 p ≡ ZERO.
Proof. done. Qed.

Lemma zmul_1 p : zmul 1 p ≡ p.
Proof. rewrite <-times_mod by done. change (Z.to_nat 1) with 1%nat. by rewrite times_S, times_0, add_comm, add_zero. Qed.

Lemma zmul_zero k : zmul k (ZERO : P) ≡ ZERO.
Proof. apply times_zero. Qed.

Lemma zmul_sub k l p : p_add (zmul (k - l) p) (zmul l p) ≡ zmul k p.
Proof. rewrite <-zmul_add. by replace (k - l + l) with k by lia. Qed.

Lemma sub_unique a b c : p_add c b ≡ a → p_subtract a b ≡ c.
Proof. intros E. apply (add_cancel_r _ _ b). by rewrite subtract_add, E. Qed.

#[global] Instance subtract_Proper : Proper ((≡) ==> (≡) ==> (≡@{P})) p_subtract.
Proof. intros a a' Ea b b' Eb. apply sub_unique. by rewrite Ea, Eb, subtract_add. Qed.

Lemma add_subtract a b : p_subtract (p_add a b) b ≡ a.
Proof. by apply sub_unique. Qed.

(** Scalar arithmetic acts as arithmetic modulo the order. *)
Lemma zmul_scalarMod k p : zmul (scalarMod k) p = zmul k p.
Proof. apply zmul_mod. rewrite scalarMod_mod. by apply Zmod_mod. Qed.

Lemma mulPoint_ok p k r : mulPoint p k = Ok r → 0 < k < CURVE_ORDER ∧ r ≡ zmul k p.
Proof.
  unfold mulPoint, multiply. destruct (p_multiply p k) as [r'|] eqn:E; [|done]. intros [= ->].
  destruct (decide (0 < k < CURVE_ORDER)) as [Hk|Hk]; [|by rewrite multiply_out_of_range in E].
  split; [done|]. destruct (multiply_in_range p k Hk) as (r0 & E0 & Hr). rewrite E in E0. injection E0 as <-.
  by rewrite Hr, times_mod by lia.
Qed.

Lemma mulPoint_total p k : 0 < k < CURVE_ORDER → ∃ r, mulPoint p k = Ok r ∧ r ≡ zmul k p.
Proof.
  intros Hk. unfold mulPoint, multiply. destruct (multiply_in_range p k Hk) as (r & E & Hr). exists r. rewrite E.
  split; [done|]. by rewrite Hr, times_mod by lia.
Qed.

Lemma mulPoint_err p k : ¬ 0 < k < CURVE_ORDER → ∃ e, mulPoint p k = Err e.
Proof. intros Hk. unfold mulPoint, multiply. rewrite multiply_out_of_range by done. eauto. Qed.

Lemma canonical_loop (x y : bytes) :
  length x = length y → forallb (λ i, rd (-1) x i =? rd (-1) y i) (seq 0 (length y)) = true ↔ x = y.
Proof.
  intros Hl. rewrite forallb_forall. split; [|intros -> i _; apply Z.eqb_refl]. intros Hi.
  apply list_eq_same_length with (length y); [done..|]. intros i u v Hlt Hu Hv. specialize (Hi i).
  rewrite in_seq, Z.eqb_eq, (rd_lookup _ x i u), (rd_lookup _ y i v) in Hi by done. apply Hi. lia.
Qed.

Lemma groupElement_decode p : ∃ p', groupElementFromBytes (groupElementToBytes p) = Ok p' ∧ p' ≡ p.
Proof.
  unfold groupElementFromBytes, groupElementToBytes. destruct (toRawBytes_ok p) as [Hl _].
  rewrite Hl, Nat.eqb_refl. cbn [negb throw_if rbind]. destruct (fromHex_toRawBytes p) as (p' & -> & Hp').
  rewrite (toRawBytes_Proper p' p Hp'), <-Hl, (proj2 (canonical_loop _ _ eq_refl) eq_refl). by exists p'.
Qed.

Lemma groupElement_encode bs p : groupElementFromBytes bs = Ok p → groupElementToBytes p = bs.
Proof.
  unfold groupElementFromBytes, groupElementToBytes.
  destruct (length bs =? GROUP_ELEMENT_BYTES)%nat eqn:El; [|done]. cbn [negb throw_if rbind]. b2p.
  destruct (fromHex bs) as [p'|]; [|done]. destruct (forallb _ _) eqn:Ef; [|done]. intros [= ->].
  apply canonical_loop; [|done]. rewrite El. apply toRawBytes_ok.
Qed.

(** The 32-byte encoding of points: encoding and decoding give the point
    back (as an equal point), equal points have one encoding, and [fromBytes]
    accepts only that canonical encoding. *)
Lemma groupElement_roundtrip :
  (∀ p, ∃ p', groupElementFromBytes (groupElementToBytes p) = Ok p' ∧ p' ≡ p) ∧
  (∀ a b, a ≡ b ↔ groupElementToBytes a = groupElementToBytes b) ∧
  (∀ bs p, groupElementFromBytes bs = Ok p → groupElementToBytes p = bs).
Proof.
  split; [exact groupElement_decode|]. split; [|exact groupElement_encode].
  intros a b. split; [apply toRawBytes_Proper|]. unfold groupElementToBytes. intros E.
  destruct (fromHex_toRawBytes a) as (a' & Ea & Ha), (fromHex_toRawBytes b) as (b' & Eb & Hb).
  rewrite E, Eb in Ea. injection Ea as ->. by rewrite <-Ha, Hb.
Qed.
End laws.

(** ** An instance: the integers modulo the order

    A residue may be represented by any integer, so [p_equals] is coarser than
    equality, as for the projective points of the library. *)
Module Residue.

Definition encode (x : Z) : bytes := match bigintToBytesLE x 32 with Ok b => b | Err _ => [] end.

#[export] Instance residue_ops : RistrettoOps Z := {
  BASE := 1;
  ZERO := 0;
  p_add := Z.add;
  p_subtract := Z.sub;
  p_multiply p k := if (0 <? k) && (k <? CURVE_ORDER) then Some (k * p mod CURVE_ORDER) else None;
  p_equals a b := a mod CURVE_ORDER =? b mod CURVE_ORDER;
  toRawBytes p := encode (p mod CURVE_ORDER);
  fromHex bs := match scalarFromBytes bs with Ok x => Some x | Err _ => None end
}.

Lemma residue_equiv (a b : Z) : @equiv Z point_equiv a b ↔ a mod CURVE_ORDER = b mod CURVE_ORDER.
Proof. apply Z.eqb_eq. Qed.

Lemma times_residue n (p : Z) : @times Z residue_ops n p = Z.of_nat n * p.
Proof. induction n as [|n IH]; [done|]. rewrite times_S, IH, Nat2Z.inj_succ. cbn [p_add residue_ops]. lia. Qed.

Lemma residue_canonical (p : Z) : canonical (p mod CURVE_ORDER).
Proof. by apply Z.mod_pos_bound. Qed.

Lemma encode_ok x : canonical x → length (encode x) = 32%nat ∧ bytes_ok (encode x) ∧ scalarFromBytes (encode x) = Ok x.
Proof.
  intros Hx. destruct (scalarToBytes_ok x Hx) as (bs & E & Hl & Hok & He). unfold encode.
  unfold scalarToBytes in E. apply rbind_ok in E as (u & _ & E). change SCALAR_BYTES with 32%nat in E. rewrite E.
  do 2 (split; [done|]). by apply scalarFromBytes_ok.
Qed.

#[export] Instance residue_laws : RistrettoLaws Z.
Proof.
  split.
  - split; [intros a|intros a b|intros a b c]; rewrite !residue_equiv; congruence.
  - intros a a' Ha b b' Hb. rewrite residue_equiv in *. cbn [p_add residue_ops]. by rewrite Zplus_mod, Ha, Hb, <-Zplus_mod.
  - intros a b c. rewrite residue_equiv. cbn [p_add residue_ops]. f_equal. lia.
  - intros a b. rewrite residue_equiv. cbn [p_add residue_ops]. f_equal. lia.
  - intros a. by rewrite residue_equiv.
  - intros a b. rewrite residue_equiv. cbn [p_add p_subtract residue_ops]. f_equal. lia.
  - intros p. rewrite residue_equiv, times_residue, Z2Nat.id by done. by rewrite Z.mul_comm, Z_mod_mult.
  - intros k Hk. rewrite residue_equiv, times_residue, Z2Nat.id by lia. cbn [BASE ZERO residue_ops].
    rewrite Z.mul_1_r, Z.mod_0_l, Z.mod_small by lia. lia.
  - intros p k [Hk Hq]. cbn [p_multiply residue_ops]. rewrite (proj2 (Z.ltb_lt 0 k)), (proj2 (Z.ltb_lt k _)) by done.
    eexists. split; [reflexivity|]. rewrite residue_equiv, times_residue, Z2Nat.id by lia. by apply Zmod_mod.
  - intros p k Hk. cbn [p_multiply residue_ops]. destruct (_ && _) eqn:E; [|done]. b2p. tauto.
  - intros a b. rewrite residue_equiv. cbn [toRawBytes residue_ops]. by intros ->.
  - intros p. cbn [toRawBytes residue_ops]. destruct (encode_ok _ (residue_canonical p)) as (? & ? & _). done.
  - intros p. cbn [toRawBytes fromHex residue_ops]. destruct (encode_ok _ (residue_canonical p)) as (_ & _ & ->).
    eexists. split; [reflexivity|]. rewrite residue_equiv. by apply Zmod_mod.
Qed.

End Residue.
Import Residue.

End Group.
