(* ===== verification/OcpTranscript.v ===== *)
(** * Hashing: [packages/ocp-crypto/src/utils/transcript.ts], [hash.ts]

    The streaming hash state of [@noble/hashes] is the byte string absorbed so
    far: [update] appends, [clone] copies and [digest] applies the hash
    function, a parameter with the length of its output as its only law.  A
    message enters the state behind its length, so that different lists of
    messages never absorb the same bytes. *)
From stdpp Require Import base option list strings.
From Stdlib Require Import ZArith Lia Ascii.
From S2P Require Import Prelude OcpBytes.
Import Bytes.

Module Hashing.

(** The hash functions of [@noble/hashes]. *)
Class HashOps := { sha512 : bytes → bytes; sha256 : bytes → bytes }.
Class HashLaws `{HashOps} : Prop := {
  sha512_length m : length (sha512 m) = 64%nat;
  sha512_ok m : bytes_ok (sha512 m)
}.

Section transcript.
Context `{HashOps}.

(** ** hash.ts and transcript.ts *)

Definition HASH_TO_SCALAR_PREFIX : bytes := utf8 "OCPv1|hash_to_scalar|".
Definition TRANSCRIPT_PREFIX : bytes := utf8 "OCPv1|transcript|".

(** [h.update(u32le(bytes.length)); h.update(bytes)] *)
Definition updateLenBytes (h bs : bytes) : res bytes :=
  let! len := u32le (Int (Z.of_nat (length bs))) in Ok (h ++ len ++ bs).

Fixpoint updateAll (h : bytes) (msgs : list bytes) : res bytes :=
  match msgs with
  | [] => Ok h
  | m :: msgs => let! h := updateLenBytes h m in updateAll h msgs
  end.

Definition hashToScalar (domainSep : string) (msgs : list bytes) : res Scalar :=
  let! h := updateLenBytes HASH_TO_SCALAR_PREFIX (utf8 domainSep) in
  let! h := updateAll h msgs in
  scalarFromBytesModOrder (sha512 h).

(** The state of a [Transcript] is what its hash has absorbed. *)
Definition newTranscript (domainSep : string) : res bytes := updateLenBytes TRANSCRIPT_PREFIX (utf8 domainSep).

Definition appendMessage (h : bytes) (label : string) (msg : bytes) : res bytes :=
  let! h := updateLenBytes (h ++ utf8 "msg") (utf8 label) in updateLenBytes h msg.

(** The challenge, and the state afterwards: the digest is folded back. *)
Definition challengeScalar (h : bytes) (label : string) : res (Scalar * bytes) :=
  let! c := updateLenBytes (h ++ utf8 "challenge") (utf8 label) in
  let digest := sha512 c in
  let! h := updateLenBytes (h ++ utf8 "chal") (utf8 label) in
  let! h := updateLenBytes h digest in
  let! e := scalarFromBytesModOrder digest in
  Ok (e, h).

(** A run of [appendMessage] calls. *)
Fixpoint appendMessages (h : bytes) (msgs : list (string * bytes)) : res bytes :=
  match msgs with
  | [] => Ok h
  | (label, msg) :: msgs => let! h := appendMessage h label msg in appendMessages h msgs
  end.

(** ** Framing *)

Definition u32 (n : nat) : bytes :=
  [Z.land (Z.of_nat n) 255; Z.land (Z.shiftr (Z.of_nat n) 8) 255;
   Z.land (Z.shiftr (Z.of_nat n) 16) 255; Z.land (Z.shiftr (Z.of_nat n) 24) 255].
Definition frame (bs : bytes) : bytes := u32 (length bs) ++ bs.
Definition small (bs : bytes) : Prop := Z.of_nat (length bs) < 2 ^ 32.

Lemma updateLenBytes_ok h bs h' : updateLenBytes h bs = Ok h' ↔ small bs ∧ h' = h ++ frame bs.
Proof.
  unfold updateLenBytes, u32le, small. rewrite (proj2 (Z.ltb_ge _ 0)) by lia. cbn [orb].
  destruct (4294967295 <? Z.of_nat (length bs)) eqn:E; b2p; cbn [throw_if rbind].
  - split; [done|]. intros [? _]. lia.
  - split; [intros <-%Ok_inj; split; [lia|done]|by intros [_ ->]].
Qed.

Lemma u32_value n : Z.of_nat n < 2 ^ 32 → bytesToBigintLE (u32 n) = Z.of_nat n.
Proof.
  intros Hn. unfold u32. rewrite !bytesToBigintLE_cons. change (bytesToBigintLE []) with 0. rewrite !land255.
  rewrite !Z.shiftr_div_pow2 by lia. change (2 ^ 8) with 256. change (2 ^ 16) with (256 * 256).
  change (2 ^ 24) with (256 * 256 * 256). change (2 ^ 32) with (256 * (256 * (256 * 256))) in Hn.
  rewrite <-!Z.div_div by lia. set (v := Z.of_nat n) in *.
  pose proof (Z.div_mod v 256 ltac:(lia)). pose proof (Z.div_mod (v / 256) 256 ltac:(lia)).
  pose proof (Z.div_mod (v / 256 / 256) 256 ltac:(lia)).
  assert (0 <= v / 256 / 256 / 256 < 256); [|rewrite (Z.mod_small (v / 256 / 256 / 256)) by lia; lia].
  split; [repeat apply Z.div_pos; lia|]. repeat apply Z.div_lt_upper_bound; lia.
Qed.

Lemma u32_inj n m : Z.of_nat n < 2 ^ 32 → Z.of_nat m < 2 ^ 32 → u32 n = u32 m → n = m.
Proof. intros Hn Hm E. apply Nat2Z.inj. rewrite <-(u32_value n), <-(u32_value m), E by done. done. Qed.

(** A frame can be read off the front of a byte string in one way only. *)
Lemma frame_inj a b x y : small a → small b → frame a ++ x = frame b ++ y → a = b ∧ x = y.
Proof.
  intros Ha Hb E. unfold frame in E. rewrite <-!app_assoc in E. apply app_inj_1 in E as [Hl E]; [|done].
  apply u32_inj in Hl; [|done..]. by apply app_inj_1 in E.
Qed.

Definition msg_frame (m : string * bytes) : bytes := utf8 "msg" ++ frame (utf8 m.1) ++ frame m.2.
Definition small_msg (m : string * bytes) : Prop := small (utf8 m.1) ∧ small m.2.

Lemma appendMessage_ok h l m h' : appendMessage h l m = Ok h' ↔ small_msg (l, m) ∧ h' = h ++ msg_frame (l, m).
Proof.
  unfold appendMessage, small_msg, msg_frame. cbn [fst snd]. rewrite rbind_ok. setoid_rewrite updateLenBytes_ok.
  rewrite !app_assoc. split; [by intros (h1 & [? ->] & ? & ->)|]. intros [[? ?] ->]. by eexists.
Qed.

Lemma appendMessages_ok h msgs h' :
  appendMessages h msgs = Ok h' ↔ Forall small_msg msgs ∧ h' = h ++ concat (map msg_frame msgs).
Proof.
  revert h. induction msgs as [|[l m] msgs IH]; intros h; cbn [appendMessages map concat].
  - rewrite app_nil_r. split; [by intros <-%Ok_inj|by intros [_ ->]].
  - rewrite rbind_ok. setoid_rewrite appendMessage_ok. setoid_rewrite IH. rewrite Forall_cons. split.
    + intros (h1 & [? ->] & ? & ->). by rewrite <-app_assoc.
    + intros [[? ?] ->]. eexists. split; [done|]. by rewrite <-app_assoc.
Qed.

Lemma utf8_inj s t : utf8 s = utf8 t → s = t.
Proof.
  revert t. induction s as [|c s IH]; intros [|d t]; try done. unfold utf8. cbn [String.list_ascii_of_string map].
  intros [= E1 E2]. f_equal; [|by apply IH].
  rewrite <-(ascii_nat_embedding c), <-(ascii_nat_embedding d). f_equal. by apply Nat2Z.inj.
Qed.

(** What follows the messages does not look like a message ([109] is "m"). *)
Definition no_msg (x : bytes) : Prop := head x ≠ Some 109.

Lemma frames_inj msgs msgs' x x' :
  Forall small_msg msgs → Forall small_msg msgs' → no_msg x → no_msg x' →
  concat (map msg_frame msgs) ++ x = concat (map msg_frame msgs') ++ x' → msgs = msgs' ∧ x = x'.
Proof.
  intros Hall. revert msgs'. induction Hall as [|[l m] msgs [Hl Hm] _ IH]; intros [|[l' m'] msgs'] H' Hx Hx'; cbn [map concat app].
  - done.
  - intros ->. by destruct Hx.
  - intros <-. by destruct Hx'.
  - apply Forall_cons in H' as [[Hl' Hm'] H']. unfold msg_frame. cbn [fst snd] in *. rewrite <-!app_assoc. intros E.
    apply app_inv_head in E. apply frame_inj in E as [E1%utf8_inj E]; [|done..].
    apply frame_inj in E as [E2 E]; [|done..]. subst. by destruct (IH msgs' H' Hx Hx' E) as [-> ->].
Qed.

(** A transcript: the domain, then messages. *)
Definition transcript (domainSep : string) (msgs : list (string * bytes)) : res bytes :=
  let! h := newTranscript domainSep in appendMessages h msgs.

Lemma transcript_ok d msgs h :
  transcript d msgs = Ok h ↔
  small (utf8 d) ∧ Forall small_msg msgs ∧ h = TRANSCRIPT_PREFIX ++ frame (utf8 d) ++ concat (map msg_frame msgs).
Proof.
  unfold transcript, newTranscript. rewrite rbind_ok. setoid_rewrite updateLenBytes_ok. setoid_rewrite appendMessages_ok.
  rewrite app_assoc. split; [by intros (h0 & [? ->] & ? & ->)|]. intros (? & ? & ->). by eexists.
Qed.

Lemma transcript_inj_tail d d' msgs msgs' x x' :
  small (utf8 d) → small (utf8 d') → Forall small_msg msgs → Forall small_msg msgs' → no_msg x → no_msg x' →
  (TRANSCRIPT_PREFIX ++ frame (utf8 d) ++ concat (map msg_frame msgs)) ++ x =
  (TRANSCRIPT_PREFIX ++ frame (utf8 d') ++ concat (map msg_frame msgs')) ++ x' → d = d' ∧ msgs = msgs' ∧ x = x'.
Proof.
  intros Hd Hd' Hm Hm' Hx Hx' E. rewrite <-!app_assoc in E. apply app_inv_head in E.
  apply frame_inj in E as [E1%utf8_inj E]; [|done..]. by apply frames_inj in E as [-> ->].
Qed.

(** C40. What a transcript absorbs determines its domain and its whole list of
    labelled messages, and the bytes hashed for a challenge determine all that
    and the challenge label: two runs of a protocol that differ in any part of
    the statement never hash the same input. *)
Theorem transcript_injective d d' msgs msgs' h h' :
  transcript d msgs = Ok h → transcript d' msgs' = Ok h' →
  (h = h' → d = d' ∧ msgs = msgs') ∧
  (∀ l l' c, updateLenBytes (h ++ utf8 "challenge") (utf8 l) = Ok c →
     updateLenBytes (h' ++ utf8 "challenge") (utf8 l') = Ok c → d = d' ∧ msgs = msgs' ∧ l = l').
Proof.
  rewrite !transcript_ok. intros (Hd & Hm & ->) (Hd' & Hm' & ->). split.
  - intros E. destruct (transcript_inj_tail d d' msgs msgs' [] []) as (? & ? & _); try done. by rewrite !app_nil_r.
  - intros l l' c [Hl E]%updateLenBytes_ok [Hl' E']%updateLenBytes_ok. rewrite E in E'. rewrite <-!(app_assoc _ (utf8 "challenge")) in E'.
    apply transcript_inj_tail in E' as (-> & -> & E'); try done. apply app_inv_head in E'.
    rewrite <-(app_nil_r (frame (utf8 l))), <-(app_nil_r (frame (utf8 l'))) in E'.
    by apply frame_inj in E' as [->%utf8_inj _].
Qed.

Lemma scalarFromBytesModOrder_ok bs : bs ≠ [] → scalarFromBytesModOrder bs = Ok (scalarMod (bytesToBigintLE bs)).
Proof. unfold scalarFromBytesModOrder. by destruct bs. Qed.

Lemma challengeScalar_ok `{!HashLaws} h l : small (utf8 l) →
  ∃ e h', challengeScalar h l = Ok (e, h') ∧ canonical e.
Proof.
  intros Hl. unfold challengeScalar.
  rewrite (proj2 (updateLenBytes_ok (h ++ utf8 "challenge") (utf8 l) _) (conj Hl eq_refl)). cbn [rbind].
  rewrite (proj2 (updateLenBytes_ok (h ++ utf8 "chal") (utf8 l) _) (conj Hl eq_refl)). cbn [rbind].
  set (d := sha512 _). assert (Hd : length d = 64%nat) by apply sha512_length.
  assert (Hs : small d) by (unfold small; rewrite Hd; lia).
  rewrite (proj2 (updateLenBytes_ok _ d _) (conj Hs eq_refl)). cbn [rbind].
  rewrite scalarFromBytesModOrder_ok by by destruct d. cbn [rbind]. eexists _, _. split; [reflexivity|apply scalarMod_canonical].
Qed.
End transcript.

(** ** An instance

    A toy hash with outputs of the right shape: the 64 bytes of one more than
    the sum of the input, so that challenges are not zero. *)
Module Toy.
Definition digest (m : bytes) : bytes := ((1 + sumZ m) mod 256) :: replicate 63 0.
#[export] Instance toy_hash : HashOps := { sha512 := digest; sha256 := digest }.
#[export] Instance toy_laws : HashLaws.
Proof.
  split; [done|]. intros m. constructor; [by apply Z.mod_pos_bound|]. apply Forall_replicate. by unfold byte_ok.
Qed.
End Toy.
Import Toy.

Lemma transcript_injective_witness :
  ∃ h, transcript "d" [("y"%string, [1; 2])] = Ok h ∧ transcript "d" [("y"%string, [1]); ("", [2])] ≠ Ok h.
Proof.
  destruct (transcript "d" [("y"%string, [1; 2])]) as [h|] eqn:E; [|vm_compute in E; discriminate E].
  exists h. split; [reflexivity|]. intros E'. destruct (transcript_injective _ _ _ _ _ _ E E') as [Hinj _].
  destruct (Hinj eq_refl) as [_ H]. discriminate H.
Defined.

End Hashing.
