(* ===== verification/OcpProofs.v ===== *)
(** * ElGamal and the proofs: [packages/ocp-crypto/src/elgamal.ts], [proofs/]

    ElGamal encryption, the Chaum-Pedersen proof of equal discrete logarithms,
    the proofs of correct encrypted shares of the dealer and of the key
    generation, the delivery of a share scalar under AES-GCM, and the byte
    encodings of the proofs.  A verifier is a challenge computation followed by
    group equations; the equations are definitions of their own, for any
    challenge. *)
From stdpp Require Import base option list strings pretty.
From Stdlib Require Import ZArith Lia Ascii Znumtheory.
From S2P Require Import Prelude OcpBytes OcpGroup OcpTranscript.
Import Bytes Group Hashing.

Module Proofs.

(** AES-256-GCM of [@noble/ciphers]: key, iv, additional data, text. *)
Class AeadOps := {
  gcm_encrypt : bytes → bytes → bytes → bytes → bytes;
  gcm_decrypt : bytes → bytes → bytes → bytes → option bytes
}.
Class AeadLaws `{AeadOps} : Prop := {
  gcm_length key iv aad pt : length (gcm_encrypt key iv aad pt) = (length pt + 16)%nat;
  gcm_decrypt_encrypt key iv aad pt : gcm_decrypt key iv aad (gcm_encrypt key iv aad pt) = Some pt
}.

(** [bytes.slice(from, to)] *)
Definition slice (bs : bytes) (from to : nat) : bytes := take (to - from) (drop from bs).

Section proofs.
Context {P : Type} `{RistrettoOps P} `{HashOps} `{AeadOps}.

(** ** elgamal.ts *)

Record ElGamalCiphertext := mkCt { ct_c1 : P; ct_c2 : P }.

Definition elgamalEncrypt (pk m : P) (r : Scalar) : res ElGamalCiphertext :=
  let! c1 := mulBase r in
  let! rpk := mulPoint pk r in
  Ok (mkCt c1 (pointAdd m rpk)).

Definition elgamalDecrypt (sk : Scalar) (ct : ElGamalCiphertext) : res P :=
  let! s := mulPoint ct.(ct_c1) sk in Ok (pointSub ct.(ct_c2) s).

(** ** chaumPedersen.ts *)

Record ChaumPedersenProof := mkCP { cp_a : P; cp_b : P; cp_s : Scalar }.

Definition CP_DOMAIN : string := "ocp/v1/chaum-pedersen-eqdl".

Definition cpChallenge (y c1 d a b : P) : res Scalar :=
  let! tr := newTranscript CP_DOMAIN in
  let! tr := appendMessage tr "y" (groupElementToBytes y) in
  let! tr := appendMessage tr "c1" (groupElementToBytes c1) in
  let! tr := appendMessage tr "d" (groupElementToBytes d) in
  let! tr := appendMessage tr "a" (groupElementToBytes a) in
  let! tr := appendMessage tr "b" (groupElementToBytes b) in
  let! (e, _) := challengeScalar tr "e" in
  Ok e.

Definition chaumPedersenProve (y c1 d : P) (x w : Scalar) : res ChaumPedersenProof :=
  let! _ := assertScalar x in
  let! _ := assertScalar w in
  let! a := mulBase w in
  let! b := mulPoint c1 w in
  let! e := cpChallenge y c1 d a b in
  Ok (mkCP a b (scalarAdd w (scalarMul e x))).

(** [s*A == t + e*X], the form of every check. *)
Definition checkEq (A t X : P) (s e : Scalar) : res bool :=
  let! lhs := mulPoint A s in
  let! eX := mulPoint X e in
  Ok (pointEq lhs (pointAdd t eX)).

(** The equations of [chaumPedersenVerify]. *)
Definition cpEquations (y c1 d : P) (proof : ChaumPedersenProof) (e : Scalar) : res bool :=
  let! ok1 := checkEq basePoint proof.(cp_a) y proof.(cp_s) e in
  if negb ok1 then Ok false else checkEq c1 proof.(cp_b) d proof.(cp_s) e.

Definition chaumPedersenVerify (y c1 d : P) (proof : ChaumPedersenProof) : res bool :=
  let! _ := assertScalar proof.(cp_s) in
  let! e := cpChallenge y c1 d proof.(cp_a) proof.(cp_b) in
  cpEquations y c1 d proof e.

Definition encodeChaumPedersenProof (p : ChaumPedersenProof) : res bytes :=
  let! s := scalarToBytes p.(cp_s) in
  Ok (concatBytes [groupElementToBytes p.(cp_a); groupElementToBytes p.(cp_b); s]).

Definition decodeChaumPedersenProof (bs : bytes) : res ChaumPedersenProof :=
  let! _ := throw_if (negb (length bs =? 96)%nat) "decodeChaumPedersenProof: expected 96 bytes"%string in
  let! a := groupElementFromBytes (slice bs 0 32) in
  let! b := groupElementFromBytes (slice bs 32 64) in
  let! s := scalarFromBytes (slice bs 64 96) in
  Ok (mkCP a b s).

(** ** encShare.ts *)

(** The five components; [es_s1] is [sx] of the dealer's proof and [ss] of the
    key generation's. *)
Record EncShareProof := mkES { es_a1 : P; es_a2 : P; es_a3 : P; es_s1 : Scalar; es_sr : Scalar }.

Definition ENC_SHARE_DOMAIN : string := "ocp/v1/dealer/encshare".

Definition encShareChallenge (y c1 pkP u v a1 a2 a3 : P) : res Scalar :=
  let! tr := newTranscript ENC_SHARE_DOMAIN in
  let! tr := appendMessage tr "Y" (groupElementToBytes y) in
  let! tr := appendMessage tr "C1" (groupElementToBytes c1) in
  let! tr := appendMessage tr "PKP" (groupElementToBytes pkP) in
  let! tr := appendMessage tr "U" (groupElementToBytes u) in
  let! tr := appendMessage tr "V" (groupElementToBytes v) in
  let! tr := appendMessage tr "A1" (groupElementToBytes a1) in
  let! tr := appendMessage tr "A2" (groupElementToBytes a2) in
  let! tr := appendMessage tr "A3" (groupElementToBytes a3) in
  let! (e, _) := challengeScalar tr "e" in
  Ok e.

Definition encShareProve (y c1 pkP u v : P) (x r wx wr : Scalar) : res EncShareProof :=
  let! _ := assertScalar x in
  let! _ := assertScalar r in
  let! _ := assertScalar wx in
  let! _ := assertScalar wr in
  let! _ := throw_if ((wx =? 0) || (wr =? 0)) "encShareProve: nonces must be non-zero"%string in
  let! a1 := mulBase wx in
  let! a2 := mulBase wr in
  let! c1wx := mulPoint c1 wx in
  let! pkwr := mulPoint pkP wr in
  let a3 := pointAdd c1wx pkwr in
  let! e := encShareChallenge y c1 pkP u v a1 a2 a3 in
  Ok (mkES a1 a2 a3 (scalarAdd wx (scalarMul e x)) (scalarAdd wr (scalarMul e r))).

(** [s1*A + s2*B == t + e*X] *)
Definition checkEq2 (A B t X : P) (s1 s2 e : Scalar) : res bool :=
  let! l1 := mulPoint A s1 in
  let! l2 := mulPoint B s2 in
  let! eX := mulPoint X e in
  Ok (pointEq (pointAdd l1 l2) (pointAdd t eX)).

(** The equations of [encShareVerify] and [dkgEncShareVerify]: the statement
    is [X = s1*G], [u = sr*G], [v = s1*A + sr*pk], with [A] the ciphertext
    component in one and the base point in the other. *)
Definition encShareEquations (X A pk u v : P) (proof : EncShareProof) (e : Scalar) : res bool :=
  let! ok1 := checkEq basePoint proof.(es_a1) X proof.(es_s1) e in
  if negb ok1 then Ok false else
  let! ok2 := checkEq basePoint proof.(es_a2) u proof.(es_sr) e in
  if negb ok2 then Ok false else
  checkEq2 A pk proof.(es_a3) v proof.(es_s1) proof.(es_sr) e.

Definition encShareVerify (y c1 pkP u v : P) (proof : EncShareProof) : res bool :=
  let! _ := assertScalar proof.(es_s1) in
  let! _ := assertScalar proof.(es_sr) in
  let! e := encShareChallenge y c1 pkP u v proof.(es_a1) proof.(es_a2) proof.(es_a3) in
  encShareEquations y c1 pkP u v proof e.

Definition encodeEncShareProof (p : EncShareProof) : res bytes :=
  let! s1 := scalarToBytes p.(es_s1) in
  let! sr := scalarToBytes p.(es_sr) in
  Ok (concatBytes [groupElementToBytes p.(es_a1); groupElementToBytes p.(es_a2); groupElementToBytes p.(es_a3); s1; sr]).

Definition decodeEncShareProof (bs : bytes) : res EncShareProof :=
  let! _ := throw_if (negb (length bs =? 160)%nat) "decodeEncShareProof: expected 160 bytes"%string in
  let! a1 := groupElementFromBytes (slice bs 0 32) in
  let! a2 := groupElementFromBytes (slice bs 32 64) in
  let! a3 := groupElementFromBytes (slice bs 64 96) in
  let! s1 := scalarFromBytes (slice bs 96 128) in
  let! sr := scalarFromBytes (slice bs 128 160) in
  Ok (mkES a1 a2 a3 s1 sr).

(** ** dkgEncShare.ts *)

Definition DKG_ENC_SHARE_DOMAIN : string := "ocp/v1/dkg/encshare".
Definition DKG_ENC_SHARE_PROOF_BYTES : nat := 160.

(** [!Number.isInteger(j) || j < 1 || j > 0xffffffff] *)
Definition badIndex (j : number) : bool :=
  match j with Int j => (j <? 1) || (4294967295 <? j) | NotInteger => true end.
Definition index_value (j : number) : Z := match j with Int j => j | NotInteger => 0 end.

Fixpoint evalLoop (jScalar pow : Scalar) (acc : P) (commitments : list P) : res P :=
  match commitments with
  | [] => Ok acc
  | c :: cs => let! m := mulPoint c pow in evalLoop jScalar (scalarMul pow jScalar) (pointAdd acc m) cs
  end.

Definition evalCommitments (commitments : list P) (j : number) : res P :=
  let! _ := throw_if (length commitments =? 0)%nat "evalCommitments: commitments must be a non-empty array"%string in
  let! _ := throw_if (badIndex j) "evalCommitments: j must be a uint32 >= 1"%string in
  evalLoop (index_value j) 1 ZERO commitments.

(** [`C${k}`] *)
Definition commitmentLabel (k : nat) : string := String "C"%char (pretty.pretty k).

Fixpoint appendCommitments (tr : bytes) (k : nat) (commitments : list P) : res bytes :=
  match commitments with
  | [] => Ok tr
  | c :: cs => let! tr := appendMessage tr (commitmentLabel k) (groupElementToBytes c) in appendCommitments tr (S k) cs
  end.

Definition appendStatement (tr : bytes) (commitments : list P) (j : number) (pkR u v : P) : res bytes :=
  let! t := u32le (Int (Z.of_nat (length commitments))) in
  let! tr := appendMessage tr "t" t in
  let! tr := appendCommitments tr 0 commitments in
  let! j := u32le j in
  let! tr := appendMessage tr "j" j in
  let! tr := appendMessage tr "pkR" (groupElementToBytes pkR) in
  let! tr := appendMessage tr "U" (groupElementToBytes u) in
  appendMessage tr "V" (groupElementToBytes v).

Definition dkgChallenge (commitments : list P) (j : number) (pkR u v a1 a2 a3 : P) : res Scalar :=
  let! tr := newTranscript DKG_ENC_SHARE_DOMAIN in
  let! tr := appendStatement tr commitments j pkR u v in
  let! tr := appendMessage tr "A1" (groupElementToBytes a1) in
  let! tr := appendMessage tr "A2" (groupElementToBytes a2) in
  let! tr := appendMessage tr "A3" (groupElementToBytes a3) in
  let! (e, _) := challengeScalar tr "e" in
  Ok e.

Definition dkgEncShareProve (commitments : list P) (j : number) (pkR u v : P) (s r ws wr : Scalar) : res EncShareProof :=
  let! _ := assertScalar s in
  let! _ := assertScalar r in
  let! _ := assertScalar ws in
  let! _ := assertScalar wr in
  let! _ := throw_if ((ws =? 0) || (wr =? 0)) "dkgEncShareProve: nonces must be non-zero"%string in
  let! _ := throw_if (length commitments =? 0)%nat "dkgEncShareProve: commitments must be a non-empty array"%string in
  let! _ := throw_if (badIndex j) "dkgEncShareProve: j must be a uint32 >= 1"%string in
  let! a1 := mulBase ws in
  let! a2 := mulBase wr in
  let! b1 := mulBase ws in
  let! b2 := mulPoint pkR wr in
  let a3 := pointAdd b1 b2 in
  let! e := dkgChallenge commitments j pkR u v a1 a2 a3 in
  Ok (mkES a1 a2 a3 (scalarAdd ws (scalarMul e s)) (scalarAdd wr (scalarMul e r))).

(** The [catch] turns an exception of [evalCommitments] into [false]. *)
Definition dkgEncShareVerify (commitments : list P) (j : number) (pkR u v : P) (proof : EncShareProof) : res bool :=
  let! _ := assertScalar proof.(es_s1) in
  let! _ := assertScalar proof.(es_sr) in
  if (length commitments =? 0)%nat then Ok false else
  if badIndex j then Ok false else
  match evalCommitments commitments j with
  | Err _ => Ok false
  | Ok evalJ =>
      let! e := dkgChallenge commitments j pkR u v proof.(es_a1) proof.(es_a2) proof.(es_a3) in
      encShareEquations evalJ basePoint pkR u v proof e
  end.

Definition encodeDkgEncShareProof (p : EncShareProof) : res bytes := encodeEncShareProof p.

Definition decodeDkgEncShareProof (bs : bytes) : res EncShareProof :=
  let! _ := throw_if (negb (length bs =? DKG_ENC_SHARE_PROOF_BYTES)%nat) "decodeDkgEncShareProof: expected 160 bytes"%string in
  let! a1 := groupElementFromBytes (slice bs 0 32) in
  let! a2 := groupElementFromBytes (slice bs 32 64) in
  let! a3 := groupElementFromBytes (slice bs 64 96) in
  let! s1 := scalarFromBytes (slice bs 96 128) in
  let! sr := scalarFromBytes (slice bs 128 160) in
  Ok (mkES a1 a2 a3 s1 sr).

(** ** dkgScalarAead.ts *)

Definition DKG_SCALAR_AEAD_KEY_DOMAIN : string := "ocp/v1/dkg/scalar-aead/v1".
Definition DKG_SCALAR_AEAD_CT_BYTES : nat := 48.
Definition AEAD_IV : bytes := replicate 12 0.

Definition deriveAeadKey (dh : P) : bytes :=
  sha256 (concatBytes [utf8 DKG_SCALAR_AEAD_KEY_DOMAIN; groupElementToBytes dh]).

Definition encryptShareScalar (pkR : P) (r s : Scalar) (proofBytes : bytes) : res bytes :=
  let! dh := mulPoint pkR r in
  let key := deriveAeadKey dh in
  let! pt := scalarToBytes s in
  let ct := gcm_encrypt key AEAD_IV proofBytes pt in
  let! _ := throw_if (negb (length ct =? DKG_SCALAR_AEAD_CT_BYTES)%nat) "encryptShareScalar: unexpected ct length"%string in
  Ok ct.

Definition decryptShareScalar (skR : Scalar) (u : P) (proofBytes ct : bytes) : res Scalar :=
  let! _ := throw_if (negb (length ct =? DKG_SCALAR_AEAD_CT_BYTES)%nat) "decryptShareScalar: ct must be 48 bytes"%string in
  let! dh := mulPoint u skR in
  let key := deriveAeadKey dh in
  match gcm_decrypt key AEAD_IV proofBytes ct with
  | None => Err "aes/gcm: invalid ghash tag"%string
  | Some pt =>
      let! _ := throw_if (negb (length pt =? 32)%nat) "decryptShareScalar: unexpected plaintext length"%string in
      scalarFromBytes pt
  end.
End proofs.
Arguments ElGamalCiphertext : clear implicits.
Arguments ChaumPedersenProof : clear implicits.
Arguments EncShareProof : clear implicits.

End Proofs.
