(* ===== verification/OcpProofsThms.v ===== *)
(** * Correctness of the cryptographic protocols

    Against the interfaces of the group, the hash and the cipher: decryption
    inverts encryption, honest proofs verify, two accepting answers to
    different challenges yield the witness, the commitments of a polynomial
    evaluate to the commitment of its value, a delivered share scalar is the
    one sent, and the encodings of proofs round trip.  [Residue] and [Toy]
    instantiate the interfaces in the witnesses. *)
From stdpp Require Import base option list strings.
From Stdlib Require Import ZArith Lia.
From S2P Require Import Prelude OcpBytes OcpPrime OcpGroup OcpTranscript OcpProofs.
Import Bytes GroupOrder Group Hashing Proofs.

Module ProofsThms.

Section thms.
Context {P : Type} `{RistrettoLaws P} `{HashOps} `{AeadLaws}.
Implicit Types (A B X t u v y p m pk : P) (s r e k w x : Z).

(** A scalar [multiply] accepts. *)
Definition nonzero (s : Scalar) : Prop := 0 < s < CURVE_ORDER.

(** [mulPoint] is the action wherever it returns. *)
Lemma mulPoint_cases p k :
  if (0 <? k) && (k <? CURVE_ORDER) then ∃ z : P, mulPoint p k = Ok z ∧ z ≡ zmul k p else ∃ msg, mulPoint p k = Err msg.
Proof.
  destruct (_ && _) eqn:E.
  - b2p. by apply mulPoint_total.
  - apply mulPoint_err. intros [? ?]. apply andb_false_iff in E as [E|E]; b2p; lia.
Qed.

Lemma nonzero_test s : canonical s → (0 <? s) && (s <? CURVE_ORDER) = negb (s =? 0).
Proof.
  unfold canonical. intros [? ?]. rewrite (proj2 (Z.ltb_lt s _)), andb_true_r by done.
  destruct (0 <? s) eqn:E1, (s =? 0) eqn:E2; b2p; done || lia.
Qed.

(** The secret that two answers determine: the difference of the answers over
    the difference of the challenges. *)
Definition quotient (s1 s2 e1 e2 : Scalar) : Scalar := scalarMul (inverse (e1 - e2)) (s1 - s2).

Lemma difference_inverse (e1 e2 : Scalar) :
  canonical e1 → canonical e2 → e1 ≠ e2 → inverse (e1 - e2) * (e1 - e2) mod CURVE_ORDER = 1.
Proof. intros H1' H2' Hne. apply inverse_ok. by apply canonical_sub. Qed.

(** ** ElGamal *)

(** Decryption inverts encryption: for a key pair and an encryption scalar
    in range, [elgamalEncrypt] and [elgamalDecrypt] succeed and give back the
    plaintext point; a zero scalar makes encryption throw. *)
Theorem elgamal_correct sk pk m r :
  nonzero sk → pk ≡ zmul sk BASE →
  (nonzero r → ∃ ct m', elgamalEncrypt pk m r = Ok ct ∧ elgamalDecrypt sk ct = Ok m' ∧ m' ≡ m) ∧
  (¬ nonzero r → ∃ msg, elgamalEncrypt pk m r = Err msg).
Proof.
  intros Hsk Hpk. unfold elgamalEncrypt, elgamalDecrypt. split.
  - intros Hr. change mulBase with (mulPoint BASE). destruct (mulPoint_total BASE r Hr) as (c1 & -> & Hc1).
    destruct (mulPoint_total pk r Hr) as (rpk & -> & Hrpk). cbn [rbind].
    destruct (mulPoint_total c1 sk Hsk) as (s & Es & Hs). eexists _, _. split; [reflexivity|].
    cbn [ct_c1 ct_c2]. rewrite Es. cbn [rbind]. split; [reflexivity|]. apply sub_unique. unfold pointAdd. by rewrite Hs, Hc1, Hrpk, Hpk, (zmul_comm sk r).
  - intros Hr. change mulBase with (mulPoint BASE). destruct (mulPoint_err BASE r Hr) as [e ->]. by exists e.
Qed.

(** ** The form of every check *)

Lemma checkEq_spec A t X s e :
  canonical s → canonical e →
  (is_ok (checkEq A t X s e) = negb ((s =? 0) || (e =? 0))) ∧
  (∀ b, checkEq A t X s e = Ok b → b = true ↔ zmul s A ≡ p_add t (zmul e X)).
Proof.
  intros Hs He. unfold checkEq. pose proof (mulPoint_cases A s) as HA. pose proof (mulPoint_cases X e) as HX.
  rewrite nonzero_test in HA, HX by done. destruct (s =? 0); cbn [negb orb] in *.
  { destruct HA as [? ->]. by split. }
  destruct HA as (l & -> & Hl). cbn [rbind]. destruct (e =? 0); cbn [negb] in *.
  { destruct HX as [? ->]. by split. }
  destruct HX as (m & -> & Hm). cbn [rbind]. split; [done|]. intros b <-%Ok_inj. rewrite pointEq_spec. unfold pointAdd.
  by rewrite Hl, Hm.
Qed.

Lemma checkEq2_spec A B t X s r e :
  canonical s → canonical r → canonical e →
  (is_ok (checkEq2 A B t X s r e) = negb ((s =? 0) || (r =? 0) || (e =? 0))) ∧
  (∀ b, checkEq2 A B t X s r e = Ok b → b = true ↔ p_add (zmul s A) (zmul r B) ≡ p_add t (zmul e X)).
Proof.
  intros Hs Hr He. unfold checkEq2. pose proof (mulPoint_cases A s) as HA. pose proof (mulPoint_cases B r) as HB.
  pose proof (mulPoint_cases X e) as HX. rewrite nonzero_test in HA, HB, HX by done.
  destruct (s =? 0); cbn [negb orb] in *; [by destruct HA as [? ->]|]. destruct HA as (l & -> & Hl). cbn [rbind].
  destruct (r =? 0); cbn [negb orb] in *; [by destruct HB as [? ->]|]. destruct HB as (m & -> & Hm). cbn [rbind].
  destruct (e =? 0); cbn [negb orb] in *; [by destruct HX as [? ->]|]. destruct HX as (n & -> & Hn). cbn [rbind].
  split; [done|]. intros b <-%Ok_inj. rewrite pointEq_spec. unfold pointAdd. by rewrite Hl, Hm, Hn.
Qed.

(** The answer [w + e*x] to the challenge [e]. *)
Lemma zmul_answer A w e x :
  zmul (scalarAdd w (scalarMul e x)) A ≡ p_add (zmul w A) (zmul e (zmul x A)).
Proof. unfold scalarAdd, scalarMul. by rewrite zmul_scalarMod, zmul_add, zmul_scalarMod, zmul_mul. Qed.

(** Two answers to different challenges determine the secret: the difference
    of the answers divided by the difference of the challenges. *)
Lemma extract L1 L2 (D : P) t X e1 e2 :
  L1 ≡ p_add t (zmul e1 X) → L2 ≡ p_add t (zmul e2 X) → p_add D L2 ≡ L1 → D ≡ zmul (e1 - e2) X.
Proof.
  intros Hx1 Hx2 HD. apply (add_cancel_r _ _ L2). rewrite HD, Hx1, Hx2, <-(zmul_sub e1 e2 X).
  by rewrite !add_assoc, (add_comm t).
Qed.

Lemma invert_challenge k e X : k * e mod CURVE_ORDER = 1 → zmul k (zmul e X) ≡ X.
Proof. intros Hk. rewrite <-zmul_mul, (zmul_mod (k * e) 1), zmul_1; [done|]. by rewrite Hk. Qed.

Lemma extract1 A t X s1 s2 e1 e2 k :
  zmul s1 A ≡ p_add t (zmul e1 X) → zmul s2 A ≡ p_add t (zmul e2 X) → k * (e1 - e2) mod CURVE_ORDER = 1 →
  X ≡ zmul (scalarMod (k * (s1 - s2))) A.
Proof.
  intros Hx1 Hx2 Hk. rewrite zmul_scalarMod, zmul_mul, (extract _ _ (zmul (s1 - s2) A) t X e1 e2 Hx1 Hx2), invert_challenge; [done|done|].
  apply zmul_sub.
Qed.

Lemma extract2 A B t X s1 s2 r1 r2 e1 e2 k :
  p_add (zmul s1 A) (zmul r1 B) ≡ p_add t (zmul e1 X) → p_add (zmul s2 A) (zmul r2 B) ≡ p_add t (zmul e2 X) →
  k * (e1 - e2) mod CURVE_ORDER = 1 →
  X ≡ p_add (zmul (scalarMod (k * (s1 - s2))) A) (zmul (scalarMod (k * (r1 - r2))) B).
Proof.
  intros Hx1 Hx2 Hk. rewrite !zmul_scalarMod, !zmul_mul, <-zmul_distr.
  rewrite (extract _ _ (p_add (zmul (s1 - s2) A) (zmul (r1 - r2) B)) t X e1 e2 Hx1 Hx2), invert_challenge; [done|done|].
  by rewrite add_swap, !zmul_sub.
Qed.
(** ** Challenges *)

Lemma point_small p : small (groupElementToBytes p).
Proof. unfold small, groupElementToBytes. destruct (toRawBytes_ok p) as [-> _]. done. Qed.

Lemma appendMessage_total h l b : small (utf8 l) → small b → appendMessage h l b = Ok (h ++ msg_frame (l, b)).
Proof. intros Hl Hb. by apply appendMessage_ok. Qed.

Lemma newTranscript_total d : small (utf8 d) → newTranscript d = Ok (TRANSCRIPT_PREFIX ++ frame (utf8 d)).
Proof. intros Hd. by apply updateLenBytes_ok. Qed.

(** Run through the calls of a transcript. *)
Ltac absorb :=
  repeat first [ rewrite newTranscript_total by done; cbn [rbind]
               | rewrite appendMessage_total by (done || apply point_small); cbn [rbind] ].
Ltac squeeze :=
  match goal with
  | |- context [challengeScalar ?h ?l] =>
      let e := fresh "e" in let h' := fresh "h'" in let E := fresh "E" in let He := fresh "He" in
      destruct (challengeScalar_ok h l eq_refl) as (e & h' & E & He); rewrite E; cbn [rbind]; exists e; by split
  end.

Context `{!HashLaws}.

Lemma cpChallenge_ok y (c1 d a b : P) : ∃ e, cpChallenge y c1 d a b = Ok e ∧ canonical e.
Proof. unfold cpChallenge. absorb. squeeze. Qed.

Lemma encShareChallenge_ok y (c1 pkP u v a1 a2 a3 : P) :
  ∃ e, encShareChallenge y c1 pkP u v a1 a2 a3 = Ok e ∧ canonical e.
Proof. unfold encShareChallenge. absorb. squeeze. Qed.

Lemma assertScalar_total s : canonical s → assertScalar s = Ok tt.
Proof. intros Hs. by apply (assertScalar_ok s tt). Qed.

Lemma scalarAdd_canonical a b : canonical (scalarAdd a b).
Proof. apply scalarMod_canonical. Qed.

(** ** Chaum-Pedersen *)

(** The Chaum-Pedersen proof that [y = x*G] and [d = x*c1].  Completeness:
    for a canonical secret and a nonce in range the prover succeeds, and the
    verifier accepts its proof, or throws when the challenge or the answer is
    zero.  Special soundness: two answers accepted for the same commitments
    and two different challenges yield the common discrete logarithm. *)
Theorem chaumPedersen_correct y (c1 d : P) :
  (∀ x w, canonical x → nonzero w → y ≡ zmul x BASE → d ≡ zmul x c1 →
     ∃ pf e, chaumPedersenProve y c1 d x w = Ok pf ∧ cpChallenge y c1 d pf.(cp_a) pf.(cp_b) = Ok e ∧
       is_ok (chaumPedersenVerify y c1 d pf) = negb ((pf.(cp_s) =? 0) || (e =? 0)) ∧
       ∀ b, chaumPedersenVerify y c1 d pf = Ok b → b = true) ∧
  (∀ a b s1 s2 e1 e2, canonical s1 → canonical s2 → canonical e1 → canonical e2 →
     cpEquations y c1 d (mkCP a b s1) e1 = Ok true → cpEquations y c1 d (mkCP a b s2) e2 = Ok true →
     e1 ≠ e2 →
     let x := quotient s1 s2 e1 e2 in y ≡ zmul x BASE ∧ d ≡ zmul x c1).
Proof.
  split.
  - intros x w Hx Hw Hy Hd. unfold chaumPedersenProve. assert (Hw' : canonical w) by (unfold canonical, nonzero in *; lia).
    rewrite !assertScalar_total by done. cbn [rbind].
    change mulBase with (mulPoint BASE). destruct (mulPoint_total BASE w Hw) as (a & -> & Ha), (mulPoint_total c1 w Hw) as (b & -> & Hb).
    cbn [rbind]. destruct (cpChallenge_ok y c1 d a b) as (e & Ee & He). rewrite Ee. cbn [rbind].
    eexists _, e. split; [reflexivity|]. cbn [cp_a cp_b cp_s]. split; [exact Ee|].
    set (s := scalarAdd w (scalarMul e x)). assert (Hs : canonical s) by apply scalarAdd_canonical.
    unfold chaumPedersenVerify, cpEquations. cbn [cp_a cp_b cp_s]. rewrite assertScalar_total, Ee by done. cbn [rbind].
    destruct (checkEq_spec basePoint a y s e Hs He) as [Hok1 Hb1]. destruct (checkEq_spec c1 b d s e Hs He) as [Hok2 Hb2].
    destruct (checkEq basePoint a y s e) as [b1|]; cbn [rbind is_ok] in *; [|by rewrite <-Hok1].
    assert (b1 = true) as ->.
    { apply (Hb1 b1 eq_refl). unfold s, basePoint. by rewrite zmul_answer, Ha, Hy. }
    cbn [negb]. split; [done|]. intros b2 E2. apply (Hb2 b2 E2). unfold s. by rewrite zmul_answer, Hb, Hd.
  - intros a b s1 s2 e1 e2 Hs1 Hs2 He1 He2 HA HB Hne x. assert (Hk := difference_inverse e1 e2 He1 He2 Hne). unfold cpEquations in *. cbn [cp_a cp_b cp_s] in *.
    apply rbind_ok in HA as ([] & HA1 & HA2); [|done]. apply rbind_ok in HB as ([] & HB1 & HB2); [|done]. cbn [negb] in *.
    apply (checkEq_spec basePoint a y s1 e1 Hs1 He1) in HA1 as [HA1 _]. apply (checkEq_spec basePoint a y s2 e2 Hs2 He2) in HB1 as [HB1 _].
    apply (checkEq_spec c1 b d s1 e1 Hs1 He1) in HA2 as [HA2 _]. apply (checkEq_spec c1 b d s2 e2 Hs2 He2) in HB2 as [HB2 _].
    split; [by apply (extract1 basePoint a y s1 s2 e1 e2 _); auto|by apply (extract1 c1 b d s1 s2 e1 e2 _); auto].
Qed.
(** ** Encrypted shares *)

(** The statement that both proofs make: [X] and [u] have logarithms [x] and
    [r], and [v] encrypts [x*A] under [pk] with randomness [r]. *)
Definition share_statement (X A pk u v : P) (x r : Scalar) : Prop :=
  X ≡ zmul x BASE ∧ u ≡ zmul r BASE ∧ v ≡ p_add (zmul x A) (zmul r pk).

Lemma encShare_complete (X A pk u v a1 a2 a3 : P) x r wx wr e :
  share_statement X A pk u v x r → a1 ≡ zmul wx BASE → a2 ≡ zmul wr BASE → a3 ≡ p_add (zmul wx A) (zmul wr pk) →
  canonical e →
  let pf := mkES a1 a2 a3 (scalarAdd wx (scalarMul e x)) (scalarAdd wr (scalarMul e r)) in
  is_ok (encShareEquations X A pk u v pf e) = negb ((pf.(es_s1) =? 0) || (pf.(es_sr) =? 0) || (e =? 0)) ∧
  ∀ b, encShareEquations X A pk u v pf e = Ok b → b = true.
Proof.
  intros (HX & Hu & Hv) Ha1 Ha2 Ha3 He pf. unfold encShareEquations. cbn [es_a1 es_a2 es_a3 es_s1 es_sr pf].
  set (s1 := scalarAdd wx (scalarMul e x)). set (sr := scalarAdd wr (scalarMul e r)).
  assert (Hs1 : canonical s1) by apply scalarAdd_canonical. assert (Hsr : canonical sr) by apply scalarAdd_canonical.
  destruct (checkEq_spec basePoint a1 X s1 e Hs1 He) as [Hok1 Hb1], (checkEq_spec basePoint a2 u sr e Hsr He) as [Hok2 Hb2],
    (checkEq2_spec A pk a3 v s1 sr e Hs1 Hsr He) as [Hok3 Hb3].
  destruct (checkEq basePoint a1 X s1 e) as [b1|]; cbn [rbind is_ok] in *.
  2:{ split; [|done]. by destruct (s1 =? 0), (sr =? 0), (e =? 0). }
  assert (b1 = true) as -> by (apply (Hb1 b1 eq_refl); unfold s1, basePoint; by rewrite zmul_answer, Ha1, HX).
  cbn [negb]. destruct (checkEq basePoint a2 u sr e) as [b2|]; cbn [rbind is_ok] in *.
  2:{ split; [|done]. by destruct (s1 =? 0), (sr =? 0), (e =? 0). }
  assert (b2 = true) as -> by (apply (Hb2 b2 eq_refl); unfold sr, basePoint; by rewrite zmul_answer, Ha2, Hu).
  cbn [negb]. split; [done|]. intros b3 E3. apply (Hb3 b3 E3). unfold s1, sr. rewrite !zmul_answer, Ha3, Hv, !zmul_distr.
  apply add_swap.
Qed.

Lemma encShare_sound (X A pk u v a1 a2 a3 : P) s1 sr s1' sr' e1 e2 :
  canonical s1 → canonical sr → canonical s1' → canonical sr' → canonical e1 → canonical e2 →
  encShareEquations X A pk u v (mkES a1 a2 a3 s1 sr) e1 = Ok true →
  encShareEquations X A pk u v (mkES a1 a2 a3 s1' sr') e2 = Ok true →
  e1 ≠ e2 →
  share_statement X A pk u v (quotient s1 s1' e1 e2) (quotient sr sr' e1 e2).
Proof.
  intros Hs1 Hsr Hs1' Hsr' He1 He2 HA HB Hne. assert (Hk := difference_inverse e1 e2 He1 He2 Hne). unfold encShareEquations in *. cbn [es_a1 es_a2 es_a3 es_s1 es_sr] in *.
  apply rbind_ok in HA as ([] & HA1 & HA); [|done]. apply rbind_ok in HB as ([] & HB1 & HB); [|done]. cbn [negb] in *.
  apply rbind_ok in HA as ([] & HA2 & HA3); [|done]. apply rbind_ok in HB as ([] & HB2 & HB3); [|done]. cbn [negb] in *.
  pose proof (proj1 (proj2 (checkEq_spec _ _ _ _ _ Hs1 He1) _ HA1) eq_refl). pose proof (proj1 (proj2 (checkEq_spec _ _ _ _ _ Hs1' He2) _ HB1) eq_refl).
  pose proof (proj1 (proj2 (checkEq_spec _ _ _ _ _ Hsr He1) _ HA2) eq_refl). pose proof (proj1 (proj2 (checkEq_spec _ _ _ _ _ Hsr' He2) _ HB2) eq_refl).
  pose proof (proj1 (proj2 (checkEq2_spec _ _ _ _ _ _ _ Hs1 Hsr He1) _ HA3) eq_refl).
  pose proof (proj1 (proj2 (checkEq2_spec _ _ _ _ _ _ _ Hs1' Hsr' He2) _ HB3) eq_refl).
  repeat split; [by apply (extract1 basePoint a1 X s1 s1' e1 e2 _)|by apply (extract1 basePoint a2 u sr sr' e1 e2 _)|
    by apply (extract2 A pk a3 v s1 s1' sr sr' e1 e2 _)].
Qed.

(** The holder of the key decrypts the share. *)
Lemma share_decrypts X A pk u v x r sk :
  share_statement X A pk u v x r → pk ≡ zmul sk BASE → nonzero sk →
  ∃ m, elgamalDecrypt sk (mkCt u v) = Ok m ∧ m ≡ zmul x A.
Proof.
  intros (_ & Hu & Hv) Hpk Hsk. unfold elgamalDecrypt. cbn [ct_c1 ct_c2].
  destruct (mulPoint_total u sk Hsk) as (s & -> & Hs). cbn [rbind]. eexists. split; [reflexivity|].
  apply sub_unique. by rewrite Hs, Hu, Hv, Hpk, (zmul_comm sk r).
Qed.

(** The honest provers succeed, with the proof they are meant to send. *)
Record honest_proof (A pk : P) (x r wx wr e : Scalar) (pf : EncShareProof P) : Prop := {
  hp_challenge : canonical e;
  hp_a1 : pf.(es_a1) ≡ zmul wx BASE;
  hp_a2 : pf.(es_a2) ≡ zmul wr BASE;
  hp_a3 : pf.(es_a3) ≡ p_add (zmul wx A) (zmul wr pk);
  hp_s1 : pf.(es_s1) = scalarAdd wx (scalarMul e x);
  hp_sr : pf.(es_sr) = scalarAdd wr (scalarMul e r)
}.

Lemma nonzero_canonical s : nonzero s → canonical s.
Proof. unfold nonzero, canonical. lia. Qed.

Lemma honest_complete (X A pk u v : P) x r wx wr e pf :
  share_statement X A pk u v x r → honest_proof A pk x r wx wr e pf →
  is_ok (encShareEquations X A pk u v pf e) = negb ((pf.(es_s1) =? 0) || (pf.(es_sr) =? 0) || (e =? 0)) ∧
  ∀ b, encShareEquations X A pk u v pf e = Ok b → b = true.
Proof.
  intros Hst [He Ha1 Ha2 Ha3 Hs1 Hsr]. destruct pf as [a1 a2 a3 s1 sr]. cbn [es_a1 es_a2 es_a3 es_s1 es_sr] in *. subst s1 sr.
  by apply encShare_complete.
Qed.

Lemma encShareProve_ok y (c1 pkP u v : P) x r wx wr :
  canonical x → canonical r → nonzero wx → nonzero wr →
  ∃ pf e, encShareProve y c1 pkP u v x r wx wr = Ok pf ∧
    encShareChallenge y c1 pkP u v pf.(es_a1) pf.(es_a2) pf.(es_a3) = Ok e ∧ honest_proof c1 pkP x r wx wr e pf.
Proof.
  intros Hx Hr Hwx Hwr. unfold encShareProve. rewrite !assertScalar_total by auto using nonzero_canonical. cbn [rbind].
  destruct Hwx as [? ?], Hwr as [? ?].
  rewrite (proj2 (Z.eqb_neq wx 0)), (proj2 (Z.eqb_neq wr 0)) by lia. cbn [orb throw_if rbind]. change mulBase with (mulPoint BASE).
  destruct (mulPoint_total BASE wx ltac:(done)) as (a1 & -> & Ha1), (mulPoint_total BASE wr ltac:(done)) as (a2 & -> & Ha2),
    (mulPoint_total c1 wx ltac:(done)) as (b1 & -> & Hb1), (mulPoint_total pkP wr ltac:(done)) as (b2 & -> & Hb2). cbn [rbind].
  destruct (encShareChallenge_ok y c1 pkP u v a1 a2 (pointAdd b1 b2)) as (e & Ee & He). rewrite Ee. cbn [rbind].
  eexists _, e. split; [reflexivity|]. split; [exact Ee|]. split; try done. cbn [es_a3]. unfold pointAdd. by rewrite Hb1, Hb2.
Qed.

(** The dealer's encrypted-share proof: the ciphertext [(u, v)] under [pkP]
    carries the decryption share [x*c1] of the key [y = x*G].  The honest
    prover succeeds and its proof is accepted (or a zero scalar makes the
    verifier throw); two accepted answers to different challenges yield [x]
    and [r]; and under a true statement the recipient decrypts to [x*c1]. *)
Theorem encShare_correct y (c1 pkP u v : P) :
  (∀ x r wx wr, canonical x → canonical r → nonzero wx → nonzero wr → share_statement y c1 pkP u v x r →
     ∃ pf e, encShareProve y c1 pkP u v x r wx wr = Ok pf ∧
       encShareChallenge y c1 pkP u v pf.(es_a1) pf.(es_a2) pf.(es_a3) = Ok e ∧
       is_ok (encShareVerify y c1 pkP u v pf) = negb ((pf.(es_s1) =? 0) || (pf.(es_sr) =? 0) || (e =? 0)) ∧
       ∀ b, encShareVerify y c1 pkP u v pf = Ok b → b = true) ∧
  (∀ a1 a2 a3 s1 sr s1' sr' e1 e2,
     canonical s1 → canonical sr → canonical s1' → canonical sr' → canonical e1 → canonical e2 →
     encShareEquations y c1 pkP u v (mkES a1 a2 a3 s1 sr) e1 = Ok true →
     encShareEquations y c1 pkP u v (mkES a1 a2 a3 s1' sr') e2 = Ok true →
     e1 ≠ e2 →
     share_statement y c1 pkP u v (quotient s1 s1' e1 e2) (quotient sr sr' e1 e2)) ∧
  (∀ x r sk, share_statement y c1 pkP u v x r → pkP ≡ zmul sk BASE → nonzero sk →
     ∃ m, elgamalDecrypt sk (mkCt u v) = Ok m ∧ m ≡ zmul x c1).
Proof.
  split; [|split; [intros a1 a2 a3 s1 sr s1' sr' e1 e2; apply encShare_sound|apply share_decrypts]].
  intros x r wx wr Hx Hr Hwx Hwr Hst.
  destruct (encShareProve_ok y c1 pkP u v x r wx wr Hx Hr Hwx Hwr) as (pf & e & Ep & Ee & Hpf).
  exists pf, e. do 2 (split; [done|]). unfold encShareVerify. rewrite (hp_s1 _ _ _ _ _ _ _ _ Hpf), (hp_sr _ _ _ _ _ _ _ _ Hpf).
  rewrite !assertScalar_total by apply scalarAdd_canonical. cbn [rbind]. rewrite Ee. cbn [rbind].
  rewrite <-(hp_s1 _ _ _ _ _ _ _ _ Hpf), <-(hp_sr _ _ _ _ _ _ _ _ Hpf). by eapply honest_complete.
Qed.

(** ** Feldman commitments *)

(** The reference: Horner's rule for the commitments at [j]. *)
Definition horner (j : Z) (commitments : list P) : P := foldr (λ c acc, p_add c (zmul j acc)) ZERO commitments.

Lemma coprime_scalarMul a j :
  Z.coprime a CURVE_ORDER → Z.coprime j CURVE_ORDER → Z.coprime (scalarMul a j) CURVE_ORDER ∧ nonzero (scalarMul a j).
Proof.
  intros Ha Hj. assert (Hp : Z.coprime (scalarMul a j) CURVE_ORDER).
  { unfold scalarMul. rewrite scalarMod_mod. apply Z.coprime_mod_l_iff. by apply Z.coprime_mul_l. }
  split; [done|]. pose proof (scalarMod_canonical (a * j)) as Hc. fold (scalarMul a j) in Hc.
  unfold canonical, nonzero in *. destruct (decide (scalarMul a j = 0)) as [E|]; [|lia].
  rewrite E in Hp. by apply Z.coprime_0_l_iff in Hp.
Qed.

Lemma evalLoop_ok j pow (acc : P) commitments :
  Z.coprime pow CURVE_ORDER → nonzero pow → Z.coprime j CURVE_ORDER →
  ∃ z : P, evalLoop j pow acc commitments = Ok z ∧ z ≡ p_add acc (zmul pow (horner j commitments)).
Proof.
  intros Hp Hn Hj. revert pow acc Hp Hn. induction commitments as [|c cs IH]; intros pow acc Hp Hn; cbn [evalLoop].
  - exists acc. split; [done|]. cbn. by rewrite zmul_zero, add_comm, add_zero.
  - destruct (mulPoint_total c pow Hn) as (m & -> & Hm). cbn [rbind].
    destruct (coprime_scalarMul pow j Hp Hj) as [Hp' Hn'].
    destruct (IH (scalarMul pow j) (pointAdd acc m) Hp' Hn') as (r & -> & Hr). exists r. split; [done|].
    rewrite Hr. unfold pointAdd, scalarMul. rewrite zmul_scalarMod, zmul_mul, Hm, <-add_assoc, <-zmul_distr. done.
Qed.

Definition valid_index (j : Z) : Prop := 1 <= j < 2 ^ 32.

Lemma badIndex_valid j : badIndex (Int j) = false ↔ valid_index j.
Proof.
  unfold badIndex, valid_index. rewrite orb_false_iff, Z.ltb_ge, Z.ltb_ge. lia.
Qed.

Lemma valid_index_coprime j : valid_index j → Z.coprime j CURVE_ORDER.
Proof.
  intros Hj. symmetry. apply Z.coprime_prime_small; [exact curve_order_prime|]. unfold valid_index in Hj.
  assert (2 ^ 32 < CURVE_ORDER) by done. lia.
Qed.

Lemma evalCommitments_ok j commitments :
  valid_index j → commitments ≠ [] →
  ∃ z : P, evalCommitments commitments (Int j) = Ok z ∧ z ≡ horner j commitments.
Proof.
  intros Hv Hne. assert (Hj := valid_index_coprime j Hv). unfold evalCommitments. apply badIndex_valid in Hv as ->.
  destruct commitments as [|c cs]; [done|]. cbn [length Nat.eqb throw_if rbind index_value].
  destruct (evalLoop_ok j 1 ZERO (c :: cs)) as (r & -> & Hr); [apply Z.coprime_1_l|done|done|]. exists r.
  split; [done|]. by rewrite Hr, zmul_1, add_zero.
Qed.

(** The value of the polynomial with these coefficients. *)
Definition poly_value (j : Z) (coeffs : list Z) : Z := foldr (λ c acc, c + j * acc) 0 coeffs.

(** [evalCommitments] computes, with its running power of [j], the Horner
    evaluation of the commitments; for the commitments of a polynomial that is
    the commitment of its value at [j], so a consistent share passes the
    dealer's check.  It throws on an empty list and on an index outside the
    32-bit range. *)
Theorem evalCommitments_feldman (commitments : list P) j :
  (valid_index j → commitments ≠ [] →
   ∃ z : P, evalCommitments commitments (Int j) = Ok z ∧ z ≡ horner j commitments ∧
     ∀ coeffs, Forall2 (λ c f, c ≡ zmul f BASE) commitments coeffs → z ≡ zmul (poly_value j coeffs) BASE) ∧
  (commitments = [] ∨ ¬ valid_index j → ∃ msg, evalCommitments commitments (Int j) = Err msg).
Proof.
  split.
  - intros Hv Hne. destruct (evalCommitments_ok j commitments Hv Hne) as (r & E & Hr). exists r. do 2 (split; [done|]).
    intros coeffs HF. rewrite Hr. clear Hr E Hne. induction HF as [|c f cs fs Hc _ IH]; [done|].
    cbn [horner poly_value foldr]. fold (horner j cs). fold (poly_value j fs). by rewrite zmul_add, zmul_mul, Hc, IH.
  - unfold evalCommitments. intros [->|Hv]; [by eexists|]. destruct (_ =? 0)%nat; [by eexists|].
    destruct (badIndex (Int j)) eqn:E; [by eexists|]. by apply badIndex_valid in E.
Qed.

(** *** Transcript of the statement *)

Lemma pretty_length n : (String.length (pretty.pretty n) <= S n)%nat.
Proof.
  assert (Hgo : ∀ (m : N) (t : string), (String.length (pretty.pretty_N_go m t) <= String.length t + N.to_nat m)%nat).
  { intros m. induction m as [m IH] using (well_founded_induction N.lt_wf_0). intros t.
    destruct (decide (m = 0)%N) as [->|Hm]; [rewrite pretty.pretty_N_go_0; lia|].
    rewrite pretty.pretty_N_go_step by lia. etransitivity; [apply IH, N.div_lt; lia|]. cbn [String.length].
    pose proof (N.div_lt m 10 ltac:(lia) ltac:(lia)). lia. }
  unfold pretty.pretty, pretty.pretty_nat, pretty.pretty, pretty.pretty_N. case_decide as Hn; [simpl; lia|].
  etransitivity; [apply Hgo|]. simpl. lia.
Qed.

Lemma utf8_length (t : string) : length (utf8 t) = String.length t.
Proof. unfold utf8. rewrite length_map. induction t; simpl; auto. Qed.

Lemma commitmentLabel_small (k : nat) : Z.of_nat k < 2 ^ 31 → small (utf8 (commitmentLabel k)).
Proof.
  intros Hk. unfold small, commitmentLabel. rewrite utf8_length. cbn [String.length]. pose proof (pretty_length k). lia.
Qed.

Lemma appendCommitments_ok tr (k : nat) (commitments : list P) :
  Z.of_nat (k + length commitments) < 2 ^ 31 → ∃ tr', appendCommitments tr k commitments = Ok tr'.
Proof.
  revert tr k. induction commitments as [|c cs IH]; intros tr k Hk; cbn [appendCommitments length] in *; [by eexists|].
  rewrite appendMessage_total by (apply point_small || (apply commitmentLabel_small; lia)). cbn [rbind]. apply IH. lia.
Qed.

Lemma u32le_total n : 0 <= n < 2 ^ 32 → ∃ bs, u32le (Int n) = Ok bs ∧ small bs.
Proof.
  intros Hn. unfold u32le. rewrite (proj2 (Z.ltb_ge n 0)), (proj2 (Z.ltb_ge _ n)) by lia. cbn [orb throw_if rbind].
  eexists. split; [reflexivity|]. done.
Qed.

Lemma dkgChallenge_ok (commitments : list P) j (pkR u v a1 a2 a3 : P) :
  valid_index j → Z.of_nat (length commitments) < 2 ^ 31 →
  ∃ e, dkgChallenge commitments (Int j) pkR u v a1 a2 a3 = Ok e ∧ canonical e.
Proof.
  intros Hj Hlen. unfold dkgChallenge, appendStatement. absorb.
  destruct (u32le_total (Z.of_nat (length commitments))) as (t & -> & Ht); [lia|]. cbn [rbind].
  rewrite appendMessage_total by done. cbn [rbind].
  destruct (appendCommitments_ok ((TRANSCRIPT_PREFIX ++ frame (utf8 DKG_ENC_SHARE_DOMAIN)) ++ msg_frame ("t"%string, t)) 0 commitments)
    as (tr & ->); [done|]. cbn [rbind].
  destruct (u32le_total j) as (jb & -> & Hjb); [unfold valid_index in Hj; lia|]. cbn [rbind].
  rewrite appendMessage_total by done. cbn [rbind]. absorb. squeeze.
Qed.

Lemma dkgEncShareProve_ok commitments j (pkR u v : P) s r ws wr :
  valid_index j → commitments ≠ [] → Z.of_nat (length commitments) < 2 ^ 31 →
  canonical s → canonical r → nonzero ws → nonzero wr →
  ∃ pf e, dkgEncShareProve commitments (Int j) pkR u v s r ws wr = Ok pf ∧
    dkgChallenge commitments (Int j) pkR u v pf.(es_a1) pf.(es_a2) pf.(es_a3) = Ok e ∧ honest_proof BASE pkR s r ws wr e pf.
Proof.
  intros Hv Hne Hlen Hs Hr Hws Hwr. unfold dkgEncShareProve. rewrite !assertScalar_total by auto using nonzero_canonical. cbn [rbind].
  destruct Hws as [? ?], Hwr as [? ?].
  rewrite (proj2 (Z.eqb_neq ws 0)), (proj2 (Z.eqb_neq wr 0)) by lia. cbn [orb throw_if rbind].
  assert ((length commitments =? 0)%nat = false) as -> by by destruct commitments.
  rewrite (proj2 (badIndex_valid j) Hv). cbn [throw_if rbind]. change mulBase with (mulPoint BASE).
  destruct (mulPoint_total BASE ws ltac:(done)) as (a1 & Ea1 & Ha1), (mulPoint_total BASE wr ltac:(done)) as (a2 & Ea2 & Ha2),
    (mulPoint_total pkR wr ltac:(done)) as (b2 & Eb2 & Hb2). rewrite Ea1. cbn [rbind]. rewrite Ea2. cbn [rbind].
  rewrite Eb2. cbn [rbind].
  destruct (dkgChallenge_ok commitments j pkR u v a1 a2 (pointAdd a1 b2) Hv Hlen) as (e & Ee & He). rewrite Ee. cbn [rbind].
  eexists _, e. split; [reflexivity|]. split; [exact Ee|]. split; try done. cbn [es_a3]. unfold pointAdd. by rewrite Ha1, Hb2.
Qed.

(** The key generation's encrypted-share proof: the ciphertext [(u, v)]
    under [pkR] carries the point [s*G] of a share [s] consistent with the
    dealer's commitments at index [j].  The honest prover succeeds and its
    proof is accepted (or a zero scalar makes the verifier throw); two
    accepted answers yield [s] and [r]; the recipient decrypts to [s*G]. *)
Theorem dkgEncShare_correct commitments j (pkR u v evalJ : P) :
  valid_index j → commitments ≠ [] → Z.of_nat (length commitments) < 2 ^ 31 →
  evalJ ≡ horner j commitments →
  (∀ s r ws wr, canonical s → canonical r → nonzero ws → nonzero wr → share_statement evalJ BASE pkR u v s r →
     ∃ pf e, dkgEncShareProve commitments (Int j) pkR u v s r ws wr = Ok pf ∧
       dkgChallenge commitments (Int j) pkR u v pf.(es_a1) pf.(es_a2) pf.(es_a3) = Ok e ∧
       is_ok (dkgEncShareVerify commitments (Int j) pkR u v pf) = negb ((pf.(es_s1) =? 0) || (pf.(es_sr) =? 0) || (e =? 0)) ∧
       ∀ b, dkgEncShareVerify commitments (Int j) pkR u v pf = Ok b → b = true) ∧
  (∀ a1 a2 a3 s1 sr s1' sr' e1 e2,
     canonical s1 → canonical sr → canonical s1' → canonical sr' → canonical e1 → canonical e2 →
     encShareEquations evalJ BASE pkR u v (mkES a1 a2 a3 s1 sr) e1 = Ok true →
     encShareEquations evalJ BASE pkR u v (mkES a1 a2 a3 s1' sr') e2 = Ok true →
     e1 ≠ e2 →
     share_statement evalJ BASE pkR u v (quotient s1 s1' e1 e2) (quotient sr sr' e1 e2)) ∧
  (∀ s r sk, share_statement evalJ BASE pkR u v s r → pkR ≡ zmul sk BASE → nonzero sk →
     ∃ m, elgamalDecrypt sk (mkCt u v) = Ok m ∧ m ≡ zmul s BASE).
Proof.
  intros Hv Hne Hlen Heval. split; [|split; [intros a1 a2 a3 s1 sr s1' sr' e1 e2; apply encShare_sound|apply share_decrypts]].
  intros s r ws wr Hs Hr Hws Hwr Hst.
  destruct (dkgEncShareProve_ok commitments j pkR u v s r ws wr Hv Hne Hlen Hs Hr Hws Hwr) as (pf & e & Ep & Ee & Hpf).
  exists pf, e. do 2 (split; [done|]). unfold dkgEncShareVerify. rewrite (hp_s1 _ _ _ _ _ _ _ _ Hpf), (hp_sr _ _ _ _ _ _ _ _ Hpf).
  rewrite !assertScalar_total by apply scalarAdd_canonical. cbn [rbind].
  assert ((length commitments =? 0)%nat = false) as -> by by destruct commitments. rewrite (proj2 (badIndex_valid j) Hv).
  destruct (evalCommitments_ok j commitments Hv Hne) as (ev & -> & Hev). rewrite Ee. cbn [rbind].
  rewrite <-(hp_s1 _ _ _ _ _ _ _ _ Hpf), <-(hp_sr _ _ _ _ _ _ _ _ Hpf). destruct Hst as (HX & Hst).
  eapply honest_complete; [split; [by rewrite Hev, <-Heval|exact Hst]|]. by destruct Hpf.
Qed.

(** ** Delivering the share scalar *)

(** The share scalar sent with [encryptShareScalar] is the one
    [decryptShareScalar] recovers: sender and recipient derive the same key
    from [r*pkR] and [skR*u]; the ciphertext has 48 bytes. *)
Lemma shareScalar_delivered r s (pkR : P) proofBytes :
  nonzero r → canonical s →
  ∃ ct, encryptShareScalar pkR r s proofBytes = Ok ct ∧ length ct = DKG_SCALAR_AEAD_CT_BYTES ∧
    ∀ skR u, nonzero skR → pkR ≡ zmul skR BASE → u ≡ zmul r BASE → decryptShareScalar skR u proofBytes ct = Ok s.
Proof.
  intros Hr Hs. unfold encryptShareScalar, decryptShareScalar.
  destruct (mulPoint_total pkR r Hr) as (dh & -> & Hdh), (scalarToBytes_ok s Hs) as (pt & -> & Hl & Hok & He). cbn [rbind]. rewrite gcm_length, Hl.
  cbn [Nat.add Nat.eqb negb throw_if rbind SCALAR_BYTES DKG_SCALAR_AEAD_CT_BYTES].
  eexists. split; [reflexivity|]. rewrite gcm_length, Hl. split; [done|]. intros skR u Hsk Hpk Hu.
  cbn [Nat.add Nat.eqb negb throw_if rbind SCALAR_BYTES]. destruct (mulPoint_total u skR Hsk) as (dh' & -> & Hdh'). cbn [rbind].
  assert (Hkey : deriveAeadKey dh = deriveAeadKey dh').
  { unfold deriveAeadKey, groupElementToBytes. rewrite (toRawBytes_Proper dh dh'); [done|].
    by rewrite Hdh, Hdh', Hpk, Hu, zmul_comm. }
  rewrite Hkey, gcm_decrypt_encrypt, Hl. cbn [Nat.eqb negb throw_if rbind SCALAR_BYTES]. by apply scalarFromBytes_ok.
Qed.

(** ** Encodings *)

Lemma slice_here (a b : bytes) n : length a = n → slice (a ++ b) 0 n = a.
Proof. intros <-. unfold slice. rewrite drop_0, Nat.sub_0_r. apply take_app_length. Qed.

Lemma slice_skip (a b : bytes) n from to :
  length a = n → (n <= from)%nat → slice (a ++ b) from to = slice b (from - n) (to - n).
Proof.
  intros <- Hn. unfold slice. rewrite drop_app_ge by done. f_equal. lia.
Qed.

Lemma slice_length (bs : bytes) from to : (from <= to <= length bs)%nat → length (slice bs from to) = (to - from)%nat.
Proof. intros Hl. unfold slice. rewrite length_take, length_drop. lia. Qed.

Lemma slice_join (bs : bytes) from to : (from <= to)%nat → slice bs from to ++ drop to bs = drop from bs.
Proof.
  intros Hle. unfold slice. rewrite <-(take_drop (to - from) (drop from bs)) at 2. f_equal. rewrite drop_drop. f_equal. lia.
Qed.

Lemma slice_ok (bs : bytes) from to : bytes_ok bs → bytes_ok (slice bs from to).
Proof. intros Hok. unfold slice, bytes_ok. by apply Forall_take, Forall_drop. Qed.

Lemma fromBytes_toBytes p : ∃ p', groupElementFromBytes (groupElementToBytes p) = Ok p' ∧ p' ≡ p.
Proof. apply groupElement_decode. Qed.

Lemma point_length p : length (groupElementToBytes p) = 32%nat.
Proof. apply toRawBytes_ok. Qed.

Lemma encShareProof_roundtrip (p : EncShareProof P) : canonical p.(es_s1) → canonical p.(es_sr) →
  ∃ bs (p' : EncShareProof P), encodeEncShareProof p = Ok bs ∧ length bs = 160%nat ∧ decodeEncShareProof bs = Ok p' ∧
    p'.(es_a1) ≡ p.(es_a1) ∧ p'.(es_a2) ≡ p.(es_a2) ∧ p'.(es_a3) ≡ p.(es_a3) ∧ p'.(es_s1) = p.(es_s1) ∧ p'.(es_sr) = p.(es_sr).
Proof.
  revert p.
  intros [a1 a2 a3 s1 sr] Hs1 Hsr. unfold encodeEncShareProof, decodeEncShareProof. cbn [es_a1 es_a2 es_a3 es_s1 es_sr] in *.
  destruct (scalarToBytes_ok s1 Hs1) as (b1 & -> & Hl1 & Hok1 & He1), (scalarToBytes_ok sr Hsr) as (b2 & -> & Hl2 & Hok2 & He2).
  cbn [rbind]. eexists.
  destruct (fromBytes_toBytes a1) as (a1' & E1 & Ha1), (fromBytes_toBytes a2) as (a2' & E2 & Ha2), (fromBytes_toBytes a3) as (a3' & E3 & Ha3).
  exists (mkES a1' a2' a3' s1 sr). split; [reflexivity|]. unfold concatBytes. cbn [concat]. rewrite app_nil_r.
  pose proof (point_length a1) as L1. pose proof (point_length a2) as L2. pose proof (point_length a3) as L3.
  change SCALAR_BYTES with 32%nat in *.
  assert (Hlen : length (groupElementToBytes a1 ++ groupElementToBytes a2 ++ groupElementToBytes a3 ++ b1 ++ b2) = 160%nat)
    by (rewrite !length_app; lia).
  split; [done|]. split; [|done]. rewrite Hlen. cbn [Nat.eqb negb throw_if rbind].
  rewrite slice_here, E1 by done. cbn [rbind]. rewrite !(slice_skip (groupElementToBytes a1) _ 32) by (done || lia). cbn [Nat.sub].
  rewrite slice_here, E2 by done. cbn [rbind]. rewrite !(slice_skip (groupElementToBytes a2) _ 32) by (done || lia). cbn [Nat.sub].
  rewrite slice_here, E3 by done. cbn [rbind]. rewrite !(slice_skip (groupElementToBytes a3) _ 32) by (done || lia). cbn [Nat.sub].
  rewrite slice_here by done. rewrite (proj2 (scalarFromBytes_ok b1 s1 Hok1)) by done. cbn [rbind].
  rewrite (slice_skip b1 _ 32) by (done || lia). cbn [Nat.sub].
  rewrite <-(app_nil_r b2), slice_here by done. by rewrite (proj2 (scalarFromBytes_ok b2 sr Hok2)).
Qed.

(** The proof encodings are canonical: the encoding of a proof with
    canonical scalars has the fixed length (96 or 160 bytes) and decodes to the
    same proof up to equality of points, and whatever decodes re-encodes to
    the same bytes. *)
Theorem proof_encodings :
  (∀ p : ChaumPedersenProof P, canonical p.(cp_s) →
     ∃ bs (p' : ChaumPedersenProof P), encodeChaumPedersenProof p = Ok bs ∧ length bs = 96%nat ∧ decodeChaumPedersenProof bs = Ok p' ∧
       p'.(cp_a) ≡ p.(cp_a) ∧ p'.(cp_b) ≡ p.(cp_b) ∧ p'.(cp_s) = p.(cp_s)) ∧
  (∀ bs (p : ChaumPedersenProof P), bytes_ok bs → decodeChaumPedersenProof bs = Ok p → encodeChaumPedersenProof p = Ok bs) ∧
  (∀ p : EncShareProof P, canonical p.(es_s1) → canonical p.(es_sr) →
     ∃ bs (p' : EncShareProof P), encodeEncShareProof p = Ok bs ∧ length bs = 160%nat ∧ decodeEncShareProof bs = Ok p' ∧
       p'.(es_a1) ≡ p.(es_a1) ∧ p'.(es_a2) ≡ p.(es_a2) ∧ p'.(es_a3) ≡ p.(es_a3) ∧
       p'.(es_s1) = p.(es_s1) ∧ p'.(es_sr) = p.(es_sr)) ∧
  (∀ bs (p : EncShareProof P), bytes_ok bs → decodeEncShareProof bs = Ok p → encodeEncShareProof p = Ok bs).
Proof.
  split; [|split; [|split]].
  - intros [a b s] Hs. unfold encodeChaumPedersenProof, decodeChaumPedersenProof. cbn [cp_a cp_b cp_s] in *.
    destruct (scalarToBytes_ok s Hs) as (sb & -> & Hl & Hok & He). cbn [rbind]. eexists.
    destruct (fromBytes_toBytes a) as (a' & Ea & Ha), (fromBytes_toBytes b) as (b' & Eb & Hb).
    exists (mkCP a' b' s). split; [reflexivity|]. unfold concatBytes. cbn [concat]. rewrite app_nil_r.
    pose proof (point_length a) as La. pose proof (point_length b) as Lb. change SCALAR_BYTES with 32%nat in Hl.
    assert (Hlen : length (groupElementToBytes a ++ groupElementToBytes b ++ sb) = 96%nat) by (rewrite !length_app; lia).
    split; [done|]. split; [|done]. rewrite Hlen. cbn [Nat.eqb negb throw_if rbind].
    rewrite slice_here, Ea by done. cbn [rbind]. rewrite !(slice_skip (groupElementToBytes a) _ 32) by (done || lia). cbn [Nat.sub].
    rewrite slice_here, Eb by done. cbn [rbind]. rewrite !(slice_skip (groupElementToBytes b) _ 32) by (done || lia). cbn [Nat.sub].
    rewrite <-(app_nil_r sb), slice_here by done. by rewrite (proj2 (scalarFromBytes_ok sb s Hok)).
  - intros bs [a b s] Hok. unfold encodeChaumPedersenProof, decodeChaumPedersenProof.
    destruct (length bs =? 96)%nat eqn:El; [|done]. b2p. cbn [negb throw_if rbind].
    intros (a0 & Ea & (b0 & Eb & (s0 & Es & Ep)%rbind_ok)%rbind_ok)%rbind_ok. injection Ep as -> -> ->. cbn [cp_a cp_b cp_s].
    apply groupElement_encode in Ea, Eb. apply scalar_reencode in Es as [_ ->]; [|by apply slice_ok]. cbn [rbind]. f_equal.
    unfold concatBytes. cbn [concat]. rewrite Ea, Eb, app_nil_r.
    rewrite <-(app_nil_r (slice bs 64 96)), <-(drop_ge bs 96) by lia. by rewrite !slice_join, drop_0 by lia.
  - exact encShareProof_roundtrip.
  - intros bs [a1 a2 a3 s1 sr] Hok. unfold encodeEncShareProof, decodeEncShareProof.
    destruct (length bs =? 160)%nat eqn:El; [|done]. b2p. cbn [negb throw_if rbind].
    intros (x1 & E1 & (x2 & E2 & (x3 & E3 & (x4 & E4 & (x5 & E5 & Ep)%rbind_ok)%rbind_ok)%rbind_ok)%rbind_ok)%rbind_ok.
    injection Ep as -> -> -> -> ->. cbn [es_a1 es_a2 es_a3 es_s1 es_sr].
    apply groupElement_encode in E1, E2, E3. apply scalar_reencode in E4 as [_ ->]; [|by apply slice_ok].
    apply scalar_reencode in E5 as [_ ->]; [|by apply slice_ok]. cbn [rbind]. f_equal.
    unfold concatBytes. cbn [concat]. rewrite E1, E2, E3, app_nil_r.
    rewrite <-(app_nil_r (slice bs 128 160)), <-(drop_ge bs 160) by lia. by rewrite !slice_join, drop_0 by lia.
Qed.
End thms.

(** ** Witnesses: the residues, the toy hash and a cipher that only pads *)

Module ToyAead.
#[export] Instance toy_aead : AeadOps := {
  gcm_encrypt key iv aad pt := pt ++ replicate 16 0;
  gcm_decrypt key iv aad ct := Some (take (length ct - 16) ct)
}.
#[export] Instance toy_aead_laws : AeadLaws.
Proof.
  split; intros key iv aad pt; cbn [gcm_encrypt gcm_decrypt toy_aead].
  - by rewrite length_app, length_replicate.
  - rewrite length_app, length_replicate. replace (length pt + 16 - 16)%nat with (length pt) by lia. by rewrite take_app_length.
Qed.
End ToyAead.
Import Residue Toy ToyAead.

Lemma zmul_residue k (p : Z) : k * p ≡ zmul k p.
Proof.
  rewrite residue_equiv. unfold zmul. rewrite times_residue, Z2Nat.id by by apply Z.mod_pos_bound.
  by rewrite Zmult_mod_idemp_l.
Qed.

Lemma elgamal_correct_witness :
  ∃ ct m', elgamalEncrypt (5 : Z) 11 3 = Ok ct ∧ elgamalDecrypt 5 ct = Ok m' ∧ m' ≡ (11 : Z).
Proof.
  apply (elgamal_correct 5 (5 : Z) 11 3); [split; vm_compute; reflexivity|exact (zmul_residue 5 1)|split; vm_compute; reflexivity].
Defined.

Lemma chaumPedersen_correct_witness :
  ∃ pf e, chaumPedersenProve (5 : Z) 2 10 5 7 = Ok pf ∧ cpChallenge (5 : Z) 2 10 pf.(cp_a) pf.(cp_b) = Ok e ∧
    (∀ b, chaumPedersenVerify (5 : Z) 2 10 pf = Ok b → b = true).
Proof.
  destruct (chaumPedersen_correct (5 : Z) 2 10) as [Hc _].
  destruct (Hc 5 7) as (pf & e & H1 & H2 & _ & H3);
    [split; vm_compute; congruence|split; vm_compute; reflexivity|exact (zmul_residue 5 1)|exact (zmul_residue 5 2)|].
  exists pf, e. split; [exact H1|]. split; [exact H2|exact H3].
Defined.

Lemma encShare_correct_witness :
  ∃ m, elgamalDecrypt 9 (mkCt (3 : Z) 37) = Ok m ∧ m ≡ zmul 5 (2 : Z).
Proof.
  destruct (encShare_correct (5 : Z) 2 9 3 37) as (_ & _ & Hd). apply (Hd 5 3 9).
  - split; [exact (zmul_residue 5 1)|]. split; [exact (zmul_residue 3 1)|].
    rewrite <-(zmul_residue 5 2), <-(zmul_residue 3 9). reflexivity.
  - exact (zmul_residue 9 1).
  - split; vm_compute; reflexivity.
Defined.

Lemma evalCommitments_feldman_witness :
  ∃ r, evalCommitments [4 : Z; 7; 1] (Int 3) = Ok r ∧ r ≡ zmul (4 + 3 * (7 + 3 * 1)) (1 : Z).
Proof.
  destruct (evalCommitments_feldman [4 : Z; 7; 1] 3) as [Hok _].
  destruct Hok as (r & E & _ & Hr); [split; vm_compute; congruence|discriminate|].
  exists r. split; [exact E|]. apply (Hr [4; 7; 1]).
  constructor; [exact (zmul_residue 4 1)|]. constructor; [exact (zmul_residue 7 1)|]. constructor; [exact (zmul_residue 1 1)|constructor].
Defined.

Lemma dkgEncShare_correct_witness :
  ∃ m, elgamalDecrypt 9 (mkCt (3 : Z) 61) = Ok m ∧ m ≡ zmul 34 (1 : Z).
Proof.
  destruct (dkgEncShare_correct [4 : Z; 7; 1] 3 9 3 61 (horner 3 [4 : Z; 7; 1])) as (_ & _ & Hd);
    [split; vm_compute; congruence|discriminate|reflexivity|reflexivity|].
  apply (Hd 34 3 9).
  - split.
    + unfold horner. cbn [foldr]. rewrite <-!zmul_residue. reflexivity.
    + split; [exact (zmul_residue 3 1)|]. rewrite <-(zmul_residue 34), <-(zmul_residue 3). reflexivity.
  - exact (zmul_residue 9 1).
  - split; vm_compute; reflexivity.
Defined.

Lemma proof_encodings_witness :
  ∃ bs, encodeChaumPedersenProof (mkCP (5 : Z) 6 7) = Ok bs ∧ length bs = 96%nat.
Proof.
  destruct proof_encodings as (Hc & _). destruct (Hc (mkCP (5 : Z) 6 7)) as (bs & p' & H1 & H2 & _);
    [split; vm_compute; congruence|]. exists bs. split; [exact H1|exact H2].
Defined.

End ProofsThms.
