(* ===== verification/OcpShuffle.v ===== *)
(** * The verifiable shuffle: [packages/ocp-shuffle/src]

    A deck is re-encrypted through rounds of disjoint adjacent switches, each
    with a proof that its two outputs re-encrypt its two inputs in one order
    or the other; a position without a partner is re-encrypted alone.  The
    prover draws its randomness from a counter-mode generator and the verifier
    reads its proof from a byte stream: both thread a state ([St]) and may
    throw.  The prover's rejection loops take fuel. *)
From stdpp Require Import base option list strings.
From Stdlib Require Import ZArith Lia.
From S2P Require Import Prelude OcpBytes OcpGroup OcpTranscript OcpProofs.
Import Bytes Group Hashing Proofs.

Module Shuffle.

(** ** A state that may throw *)

Definition St (S A : Type) : Type := S → res (A * S).
Definition st_ret {S A} (a : A) : St S A := λ s, Ok (a, s).
Definition st_bind {S A B} (c : St S A) (k : A → St S B) : St S B := λ s, let! (a, s) := c s in k a s.
Definition st_lift {S A} (c : res A) : St S A := λ s, let! a := c in Ok (a, s).

Notation "'do!' x ':=' c 'in' k" := (st_bind c (fun x => k))
  (at level 10, x pattern, c at level 100, k at level 200) : result_scope.

(** ** encoding.ts *)

Definition u16ToBytesLE (x : number) : res bytes :=
  match x with
  | NotInteger => Err "u16ToBytesLE: out of range"%string
  | Int x =>
      let! _ := throw_if ((x <? 0) || (65535 <? x)) "u16ToBytesLE: out of range"%string in
      Ok [Z.land x 255; Z.land (Z.shiftr x 8) 255]
  end.

Definition u16FromBytesLE (bs : bytes) : res Z :=
  match bs with
  | [b0; b1] => Ok (Z.lor b0 (Z.shiftl b1 8))
  | _ => Err "u16FromBytesLE: expected 2 bytes"%string
  end.

Record Reader := mkReader { rd_bytes : bytes; rd_off : nat }.

Definition reader_take (n : nat) : St Reader bytes := λ r,
  let! _ := throw_if (length r.(rd_bytes) <? r.(rd_off) + n)%nat "Reader: out of bounds"%string in
  Ok (slice r.(rd_bytes) r.(rd_off) (r.(rd_off) + n), mkReader r.(rd_bytes) (r.(rd_off) + n)).

Definition takeU8 : St Reader Z := do! b := reader_take 1 in st_ret (rd 0 b 0).
Definition takeU16LE : St Reader Z := do! b := reader_take 2 in st_lift (u16FromBytesLE b).
Definition reader_done (r : Reader) : bool := (r.(rd_off) =? length r.(rd_bytes))%nat.

(** ** rng.ts *)

Record Rng := mkRng { seed : bytes; counter : Z }.

Section shuffle.
Context {P : Type} `{RistrettoOps P} `{HashOps}.

Definition newRng (s : bytes) : res Rng :=
  let! _ := throw_if (length s =? 0)%nat "DeterministicRng: empty seed"%string in Ok (mkRng s 0).

Definition nextScalar : St Rng Scalar := λ g,
  let! c := u32le (Int g.(counter)) in
  let! s := hashToScalar "ocp/v1/shuffle/rng" [g.(seed); c] in
  Ok (s, mkRng g.(seed) (g.(counter) + 1)).

(** Each turn yields at least one byte, so [len] turns are enough. *)
Fixpoint nextBytes_loop (fuel left : nat) : St Rng bytes :=
  match fuel, left with
  | _, O => st_ret []
  | O, _ => st_lift (Err "nextBytes: fuel"%string)
  | S fuel, _ =>
      do! s := nextScalar in
      do! b := st_lift (scalarToBytes s) in
      let k := Nat.min (length b) left in
      do! rest := nextBytes_loop fuel (left - k) in
      st_ret (take k b ++ rest)
  end.
Definition nextBytes (len : nat) : St Rng bytes := nextBytes_loop len len.

(** ** elgamal.ts *)

Definition elgamalKeygen (sk : Scalar) : res (Scalar * P) := let! pk := mulBase sk in Ok (sk, pk).

Definition elgamalReencrypt (pk : P) (ct : ElGamalCiphertext P) (rho : Scalar) : res (ElGamalCiphertext P) :=
  let! g := mulBase rho in
  let! k := mulPoint pk rho in
  Ok (mkCt (pointAdd ct.(ct_c1) g) (pointAdd ct.(ct_c2) k)).

Definition encodeCiphertext (ct : ElGamalCiphertext P) : bytes :=
  concatBytes [groupElementToBytes ct.(ct_c1); groupElementToBytes ct.(ct_c2)].

Definition decodeCiphertext (bs : bytes) : res (ElGamalCiphertext P) :=
  let! _ := throw_if (negb (length bs =? 64)%nat) "decodeCiphertext: expected 64 bytes"%string in
  let! c1 := groupElementFromBytes (slice bs 0 32) in
  let! c2 := groupElementFromBytes (slice bs 32 64) in
  Ok (mkCt c1 c2).

(** ** eqdlog.ts *)

Record EqDlogProof := mkEq { eq_t1 : P; eq_t2 : P; eq_z : Scalar }.

(** [if (context !== undefined) tr.appendMessage("ctx", context)] *)
Definition appendContext (tr : bytes) (context : option bytes) : res bytes :=
  match context with Some c => appendMessage tr "ctx" c | None => Ok tr end.

Definition eqDlogChallenge (domain : string) (A B X Y t1 t2 : P) (context : option bytes) : res Scalar :=
  let! tr := newTranscript domain in
  let! tr := appendContext tr context in
  let! tr := appendMessage tr "A" (groupElementToBytes A) in
  let! tr := appendMessage tr "B" (groupElementToBytes B) in
  let! tr := appendMessage tr "X" (groupElementToBytes X) in
  let! tr := appendMessage tr "Y" (groupElementToBytes Y) in
  let! tr := appendMessage tr "t1" (groupElementToBytes t1) in
  let! tr := appendMessage tr "t2" (groupElementToBytes t2) in
  let! (e, _) := challengeScalar tr "e" in
  Ok e.

Definition proveEqDlog (domain : string) (A B X Y : P) (x : Scalar) (context : option bytes) : St Rng EqDlogProof :=
  do! w := nextScalar in
  do! t1 := st_lift (mulPoint A w) in
  do! t2 := st_lift (mulPoint B w) in
  do! e := st_lift (eqDlogChallenge domain A B X Y t1 t2 context) in
  st_ret (mkEq t1 t2 (scalarAdd w (scalarMul e x))).

(** [z*A == t1 + e*X] and [z*B == t2 + e*Y], the check of one relation. *)
Definition eqDlogEquations (A B X Y t1 t2 : P) (z e : Scalar) : res bool :=
  let! ok := checkEq A t1 X z e in
  if negb ok then Ok false else checkEq B t2 Y z e.

Definition verifyEqDlog (domain : string) (A B X Y : P) (proof : EqDlogProof) (context : option bytes) : res bool :=
  let! e := eqDlogChallenge domain A B X Y proof.(eq_t1) proof.(eq_t2) context in
  eqDlogEquations A B X Y proof.(eq_t1) proof.(eq_t2) proof.(eq_z) e.

Definition simulateEqDlogCommitments (A B X Y : P) (e z : Scalar) : res (P * P) :=
  let! zA := mulPoint A z in
  let! eX := mulPoint X e in
  let! zB := mulPoint B z in
  let! eY := mulPoint Y e in
  Ok (pointSub zA eX, pointSub zB eY).

Definition encodeEqDlogProof (p : EqDlogProof) : res bytes :=
  let! z := scalarToBytes p.(eq_z) in
  Ok (concatBytes [groupElementToBytes p.(eq_t1); groupElementToBytes p.(eq_t2); z]).

Definition decodeEqDlogProof (bs : bytes) : res EqDlogProof :=
  let! _ := throw_if (negb (length bs =? 96)%nat) "decodeEqDlogProof: expected 96 bytes"%string in
  let! t1 := groupElementFromBytes (slice bs 0 32) in
  let! t2 := groupElementFromBytes (slice bs 32 64) in
  let! z := scalarFromBytes (slice bs 64 96) in
  Ok (mkEq t1 t2 z).

(** [decodePoint(reader.take(32))] and [decodeScalar(reader.take(32))] *)
Definition takePoint : St Reader P := do! b := reader_take 32 in st_lift (groupElementFromBytes b).
Definition takeScalar : St Reader Scalar := do! b := reader_take 32 in st_lift (scalarFromBytes b).

Definition decodeEqDlogProofFromReader : St Reader EqDlogProof :=
  do! t1 := takePoint in
  do! t2 := takePoint in
  do! z := takeScalar in
  st_ret (mkEq t1 t2 z).

Definition encodeEqDlogProofV1 (p : EqDlogProof) : res bytes := encodeEqDlogProof p.

(** ** switch_or.ts *)

(** The four relations in the order of the source: branch 0 (straight) first,
    then branch 1 (crossed). *)
Record SwitchProof := mkSwitch { sw_e0 : Scalar; sw_t1 : list P; sw_t2 : list P; sw_z : list Scalar }.

Definition DOMAIN_SWITCH : string := "ocp/v1/shuffle/switch-or".
Definition T1_LABELS : list string := ["t1.0"; "t1.1"; "t1.2"; "t1.3"]%string.
Definition T2_LABELS : list string := ["t2.0"; "t2.1"; "t2.2"; "t2.3"]%string.

Definition dlogDiff (inCt outCt : ElGamalCiphertext P) : P * P :=
  (pointSub outCt.(ct_c1) inCt.(ct_c1), pointSub outCt.(ct_c2) inCt.(ct_c2)).

(** The loop over the four labels. *)
Definition appendPoints (tr : bytes) (labels : list string) (ps : list P) : res bytes :=
  appendMessages tr (zip labels (map groupElementToBytes ps)).

Definition switchChallenge (pk : P) (in0 in1 out0 out1 : ElGamalCiphertext P) (t1 t2 : list P) (context : option bytes)
  : res Scalar :=
  let! tr := newTranscript DOMAIN_SWITCH in
  let! tr := appendContext tr context in
  let! tr := appendMessage tr "pk" (groupElementToBytes pk) in
  let! tr := appendMessage tr "in0.c1" (groupElementToBytes in0.(ct_c1)) in
  let! tr := appendMessage tr "in0.c2" (groupElementToBytes in0.(ct_c2)) in
  let! tr := appendMessage tr "in1.c1" (groupElementToBytes in1.(ct_c1)) in
  let! tr := appendMessage tr "in1.c2" (groupElementToBytes in1.(ct_c2)) in
  let! tr := appendMessage tr "out0.c1" (groupElementToBytes out0.(ct_c1)) in
  let! tr := appendMessage tr "out0.c2" (groupElementToBytes out0.(ct_c2)) in
  let! tr := appendMessage tr "out1.c1" (groupElementToBytes out1.(ct_c1)) in
  let! tr := appendMessage tr "out1.c2" (groupElementToBytes out1.(ct_c2)) in
  let! tr := appendPoints tr T1_LABELS t1 in
  let! tr := appendPoints tr T2_LABELS t2 in
  let! (e, _) := challengeScalar tr "e" in
  Ok e.

(** One simulated relation: the answer is drawn first, then the commitments. *)
Definition simulateRelation (pk : P) (inCt outCt : ElGamalCiphertext P) (eSim : Scalar) : St Rng (P * P * Scalar) :=
  let (X, Y) := dlogDiff inCt outCt in
  do! zSim := nextScalar in
  do! (t1, t2) := st_lift (simulateEqDlogCommitments basePoint pk X Y eSim zSim) in
  st_ret (t1, t2, zSim).

Definition proveSwitch (pk : P) (in0 in1 out0 out1 : ElGamalCiphertext P) (swapped : bool) (rho0 rho1 : Scalar)
    (context : option bytes) : St Rng SwitchProof :=
  do! eSim := nextScalar in
  do! (t1a, t2a, za) := simulateRelation pk (if swapped then in0 else in1) out0 eSim in
  do! (t1b, t2b, zb) := simulateRelation pk (if swapped then in1 else in0) out1 eSim in
  do! w0 := nextScalar in
  do! w1 := nextScalar in
  do! g0 := st_lift (mulPoint basePoint w0) in
  do! k0 := st_lift (mulPoint pk w0) in
  do! g1 := st_lift (mulPoint basePoint w1) in
  do! k1 := st_lift (mulPoint pk w1) in
  let t1 := if swapped then [t1a; t1b; g0; g1] else [g0; g1; t1a; t1b] in
  let t2 := if swapped then [t2a; t2b; k0; k1] else [k0; k1; t2a; t2b] in
  do! e := st_lift (switchChallenge pk in0 in1 out0 out1 t1 t2 context) in
  let eReal := scalarSub e eSim in
  let z0 := scalarAdd w0 (scalarMul eReal rho0) in
  let z1 := scalarAdd w1 (scalarMul eReal rho1) in
  st_ret (if swapped then mkSwitch eSim t1 t2 [za; zb; z0; z1] else mkSwitch eReal t1 t2 [z0; z1; za; zb]).

(** One block of [verifySwitch]: relation [i] between two ciphertexts. *)
Definition verifyRelation (pk : P) (inCt outCt : ElGamalCiphertext P) (proof : SwitchProof) (i : nat) (e : Scalar) : res bool :=
  let (X, Y) := dlogDiff inCt outCt in
  eqDlogEquations basePoint pk X Y (rd ZERO proof.(sw_t1) i) (rd ZERO proof.(sw_t2) i) (rd 0 proof.(sw_z) i) e.

(** The four blocks, for a challenge [e]. *)
Definition switchEquations (pk : P) (in0 in1 out0 out1 : ElGamalCiphertext P) (proof : SwitchProof) (e : Scalar) : res bool :=
  let e1 := scalarSub e proof.(sw_e0) in
  let! ok := verifyRelation pk in0 out0 proof 0 proof.(sw_e0) in
  if negb ok then Ok false else
  let! ok := verifyRelation pk in1 out1 proof 1 proof.(sw_e0) in
  if negb ok then Ok false else
  let! ok := verifyRelation pk in1 out0 proof 2 e1 in
  if negb ok then Ok false else
  verifyRelation pk in0 out1 proof 3 e1.

Definition verifySwitch (pk : P) (in0 in1 out0 out1 : ElGamalCiphertext P) (proof : SwitchProof) (context : option bytes) : res bool :=
  if pointEq out0.(ct_c1) in0.(ct_c1) || pointEq out0.(ct_c1) in1.(ct_c1) then Ok false else
  if pointEq out1.(ct_c1) in0.(ct_c1) || pointEq out1.(ct_c1) in1.(ct_c1) then Ok false else
  let! e := switchChallenge pk in0 in1 out0 out1 proof.(sw_t1) proof.(sw_t2) context in
  switchEquations pk in0 in1 out0 out1 proof e.

(** The chunks of relation [i]. *)
Definition encodeRelation (p : SwitchProof) (i : nat) : res bytes :=
  let! z := scalarToBytes (rd 0 p.(sw_z) i) in
  Ok (concatBytes [groupElementToBytes (rd ZERO p.(sw_t1) i); groupElementToBytes (rd ZERO p.(sw_t2) i); z]).

Definition encodeSwitchProof (p : SwitchProof) : res bytes :=
  let! e0 := scalarToBytes p.(sw_e0) in
  let! rels := mapR (encodeRelation p) [0; 1; 2; 3]%nat in
  Ok (concatBytes (e0 :: rels)).

Definition takeRelation : St Reader (P * P * Scalar) :=
  do! t1 := takePoint in
  do! t2 := takePoint in
  do! z := takeScalar in
  st_ret (t1, t2, z).

Definition decodeSwitchProofFromReader : St Reader SwitchProof :=
  do! e0 := takeScalar in
  do! (t10, t20, z0) := takeRelation in
  do! (t11, t21, z1) := takeRelation in
  do! (t12, t22, z2) := takeRelation in
  do! (t13, t23, z3) := takeRelation in
  st_ret (mkSwitch e0 [t10; t11; t12; t13] [t20; t21; t22; t23] [z0; z1; z2; z3]).

(** ** shuffle_v1.ts *)

Definition SHUFFLE_PROOF_V1_VERSION : Z := 1.
Definition SHUFFLE_PROOF_V2_VERSION : Z := 2.
Definition DOMAIN_REENC : string := "ocp/v1/shuffle/reenc-eqdlog".

Definition buildShuffleContext (tableId handId : Z) (round : number) (shuffler : string) : res bytes :=
  let! _ := throw_if ((tableId <? 0) || (18446744073709551615 <? tableId)) "buildShuffleContext: tableId out of range"%string in
  let! _ := throw_if ((handId <? 0) || (18446744073709551615 <? handId)) "buildShuffleContext: handId out of range"%string in
  match round with
  | NotInteger => Err "buildShuffleContext: round out of range"%string
  | Int round =>
      let! _ := throw_if ((round <? 0) || (65535 <? round)) "buildShuffleContext: round out of range"%string in
      let shufflerBytes := utf8 shuffler in
      let! _ := throw_if (65535 <? Z.of_nat (length shufflerBytes)) "buildShuffleContext: shuffler too long"%string in
      Ok ((bytesLE_loop tableId 8).1 ++ (bytesLE_loop handId 8).1 ++ (bytesLE_loop round 2).1 ++
          (bytesLE_loop (Z.of_nat (length shufflerBytes)) 2).1 ++ shufflerBytes)
  end.

(** [while (true)], with fuel. *)
Fixpoint sampleNonzeroScalar (fuel : nat) : St Rng Scalar :=
  match fuel with
  | O => st_lift (Err "sampleNonzeroScalar: fuel"%string)
  | S fuel => do! s := nextScalar in if negb (s =? 0) then st_ret s else sampleNonzeroScalar fuel
  end.

Fixpoint reencryptAvoidingC1Collisions (fuel : nat) (pk : P) (src : ElGamalCiphertext P) (avoidC1s : list P)
  : St Rng (ElGamalCiphertext P * Scalar) :=
  match fuel with
  | O => st_lift (Err "reencryptAvoidingC1Collisions: fuel"%string)
  | S fuel' =>
      do! rho := sampleNonzeroScalar fuel in
      do! ct := st_lift (elgamalReencrypt pk src rho) in
      if negb (existsb (pointEq ct.(ct_c1)) avoidC1s) then st_ret (ct, rho)
      else reencryptAvoidingC1Collisions fuel' pk src avoidC1s
  end.

Definition swap (perm : list nat) (i j : nat) : list nat :=
  <[j := rd 0%nat perm i]> (<[i := rd 0%nat perm j]> perm).

(** [for (let i = n - 1; i > 0; i--)] *)
Fixpoint permLoop (i : nat) (perm : list nat) : St Rng (list nat) :=
  match i with
  | O => st_ret perm
  | S i' =>
      do! b := nextBytes 4 in
      let x := Z.lor (Z.lor (Z.lor (rd 0 b 0) (Z.shiftl (rd 0 b 1) 8)) (Z.shiftl (rd 0 b 2) 16)) (Z.shiftl (rd 0 b 3) 24) mod 2 ^ 32 in
      let j := Z.to_nat (x mod Z.of_nat (i + 1)) in
      permLoop i' (swap perm i j)
  end.
Definition randomPermutation (n : nat) : St Rng (list nat) := permLoop (n - 1) (seq 0 n).

(** [for (let i = start; i + 1 < n; i += 2)]; [n] turns are enough. *)
Fixpoint pairsFrom (fuel i n : nat) : list (nat * nat) :=
  match fuel with
  | O => []
  | S fuel => if (i + 1 <? n)%nat then (i, i + 1)%nat :: pairsFrom fuel (i + 2) n else []
  end.

Definition roundPairs (n round : nat) : list (nat * nat) * list nat :=
  let start := (round mod 2)%nat in
  let pairs := pairsFrom n start n in
  let used i := existsb (λ p : nat * nat, (p.1 =? i)%nat || (p.2 =? i)%nat) pairs in
  (pairs, List.filter (λ i, negb (used i)) (seq 0 n)).

(** A position of the deck: its ciphertext and its sorting key. *)
Local Abbreviation item := (ElGamalCiphertext P * nat)%type.
Definition zero_ct : ElGamalCiphertext P := mkCt ZERO ZERO.
Definition item_at (items : list item) (i : nat) : item := rd (zero_ct, 0%nat) items i.

(** One switch of a round: reads [items], writes [next]. *)
Definition provePair (fuel : nat) (pk : P) (context : option bytes) (items next : list item) (p : nat * nat)
  : St Rng (list item * bytes) :=
  let (i, j) := p in
  let left0 := (item_at items i).1 in
  let left1 := (item_at items j).1 in
  let swapped := ((item_at items j).2 <? (item_at items i).2)%nat in
  let src0 := if swapped then left1 else left0 in
  let src1 := if swapped then left0 else left1 in
  do! (out0, rho0) := reencryptAvoidingC1Collisions fuel pk src0 [left0.(ct_c1); left1.(ct_c1)] in
  do! (out1, rho1) := reencryptAvoidingC1Collisions fuel pk src1 [left0.(ct_c1); left1.(ct_c1)] in
  do! sp := proveSwitch pk left0 left1 out0 out1 swapped rho0 rho1 context in
  do! enc := st_lift (encodeSwitchProof sp) in
  let ki := (item_at next i).2 in
  let kj := (item_at next j).2 in
  let next := <[j := (out1, if swapped then ki else kj)]> (<[i := (out0, if swapped then kj else ki)]> next) in
  st_ret (next, enc).

Definition proveSingle (fuel : nat) (pk : P) (context : option bytes) (items next : list item) (idx : nat)
  : St Rng (list item * bytes) :=
  let inCt := (item_at items idx).1 in
  do! rho := sampleNonzeroScalar fuel in
  do! outCt := st_lift (elgamalReencrypt pk inCt rho) in
  let (X, Y) := dlogDiff inCt outCt in
  do! p := proveEqDlog DOMAIN_REENC basePoint pk X Y rho context in
  do! enc := st_lift (encodeEqDlogProofV1 p) in
  st_ret (<[idx := (outCt, (item_at next idx).2)]> next, enc).

(** A [for ... of] loop that updates [next] and pushes one chunk per element. *)
Fixpoint proveAll {A} (step : list item → A → St Rng (list item * bytes)) (next : list item) (l : list A)
  : St Rng (list item * list bytes) :=
  match l with
  | [] => st_ret (next, [])
  | x :: l =>
      do! (next, enc) := step next x in
      do! (next, encs) := proveAll step next l in
      st_ret (next, enc :: encs)
  end.

(** One round: the new items, and the chunks pushed (snapshot, switches,
    singles). *)
Definition proveRound (fuel : nat) (pk : P) (context : option bytes) (items : list item) (round : nat)
  : St Rng (list item * list bytes) :=
  let (pairs, singles) := roundPairs (length items) round in
  do! (next, switchProofs) := proveAll (provePair fuel pk context items) items pairs in
  do! (next, singleProofs) := proveAll (proveSingle fuel pk context items) next singles in
  let deckBytes := concat (map (λ it : item, encodeCiphertext it.1) next) in
  st_ret (next, deckBytes :: switchProofs ++ singleProofs).

Fixpoint proveRounds (fuel : nat) (pk : P) (context : option bytes) (rounds round : nat) (items : list item)
  : St Rng (list item * list bytes) :=
  match rounds with
  | O => st_ret (items, [])
  | S rounds =>
      do! (items, chunks) := proveRound fuel pk context items round in
      do! (items, more) := proveRounds fuel pk context rounds (S round) items in
      st_ret (items, chunks ++ more)
  end.

(** types.ts *)
Record ShuffleProveOpts := mkOpts { seedUnsafeForTestsOnly : option bytes; o_rounds : option number; o_context : option bytes }.
Inductive ShuffleVerifyResult := VOk (deckOut : list (ElGamalCiphertext P)) | VFail (error : string).

Definition proofHeader (n rounds : Z) (context : option bytes) : res bytes :=
  match context with
  | Some c =>
      let! _ := throw_if (65535 <? Z.of_nat (length c)) "shuffleProveV1: context too long (>65535 bytes)"%string in
      let! nb := u16ToBytesLE (Int n) in
      let! rb := u16ToBytesLE (Int rounds) in
      let! cb := u16ToBytesLE (Int (Z.of_nat (length c))) in
      Ok (concatBytes [[SHUFFLE_PROOF_V2_VERSION]; nb; rb; cb; c])
  | None =>
      let! nb := u16ToBytesLE (Int n) in
      let! rb := u16ToBytesLE (Int rounds) in
      Ok (concatBytes [[SHUFFLE_PROOF_V1_VERSION]; nb; rb])
  end.

(** [testHook] is the environment test on [NODE_ENV] and
    [OCP_ALLOW_UNSAFE_SEED], [random32] what [randomBytes(32)] returns. *)
Definition shuffleProveV1 (fuel : nat) (testHook : bool) (random32 : bytes) (pk : P)
    (deckIn : list (ElGamalCiphertext P)) (opts : ShuffleProveOpts) : res (list (ElGamalCiphertext P) * bytes) :=
  let n := length deckIn in
  let! _ := throw_if (n <? 2)%nat "shuffleProveV1: deck too small"%string in
  let! rounds := match default (Int (Z.of_nat n)) opts.(o_rounds) with
                 | Int r => if r <=? 0 then Err "shuffleProveV1: rounds must be > 0"%string else Ok r
                 | NotInteger => Err "shuffleProveV1: rounds must be > 0"%string
                 end in
  let! seed := match opts.(seedUnsafeForTestsOnly) with
               | Some s => if testHook then Ok s else Err "seedUnsafeForTestsOnly is a test hook"%string
               | None => Ok random32
               end in
  let! rng := newRng seed in
  let! _ := throw_if (match opts.(o_context) with Some c => (length c =? 0)%nat | None => false end)
              "shuffleProveV1: context must be non-empty for v2"%string in
  let! (perm, rng) := randomPermutation n rng in
  let items := zip deckIn perm in
  let! header := proofHeader (Z.of_nat n) rounds opts.(o_context) in
  let! (out, _) := proveRounds fuel pk opts.(o_context) (Z.to_nat rounds) 0 items rng in
  Ok (map fst out.1, concatBytes (header :: out.2)).

(** The ciphertexts of a snapshot: [n] slices of 64 bytes. *)
Definition decodeDeck (n : nat) (deckBytes : bytes) : res (list (ElGamalCiphertext P)) :=
  mapR (λ i, decodeCiphertext (slice deckBytes (i * 64) (i * 64 + 64))) (seq 0 n).

Definition ct_at (deck : list (ElGamalCiphertext P)) (i : nat) : ElGamalCiphertext P := rd zero_ct deck i.

Definition verifyPair (pk : P) (ctx : option bytes) (cur next : list (ElGamalCiphertext P)) (p : nat * nat) : St Reader unit :=
  let (i, j) := p in
  do! sp := decodeSwitchProofFromReader in
  do! ok := st_lift (verifySwitch pk (ct_at cur i) (ct_at cur j) (ct_at next i) (ct_at next j) sp ctx) in
  st_lift (throw_if (negb ok) "invalid switch proof"%string).

Definition verifySingle (pk : P) (ctx : option bytes) (cur next : list (ElGamalCiphertext P)) (idx : nat) : St Reader unit :=
  do! p := decodeEqDlogProofFromReader in
  do! _ := st_lift (throw_if (pointEq (ct_at next idx).(ct_c1) (ct_at cur idx).(ct_c1)) "single not rerandomized"%string) in
  let (X, Y) := dlogDiff (ct_at cur idx) (ct_at next idx) in
  do! ok := st_lift (verifyEqDlog DOMAIN_REENC basePoint pk X Y p ctx) in
  st_lift (throw_if (negb ok) "invalid single proof"%string).

Fixpoint verifyAll {A} (step : A → St Reader unit) (l : list A) : St Reader unit :=
  match l with
  | [] => st_ret tt
  | x :: l => do! _ := step x in verifyAll step l
  end.

(** The positions without a partner, as the verifier lists them. *)
Definition verifierSingles (n start : nat) : list nat :=
  if (n mod 2 =? 1)%nat then [if (start =? 0)%nat then n - 1 else 0]%nat
  else if (start =? 1)%nat then [0; n - 1]%nat else [].

Definition verifyRound (pk : P) (ctx : option bytes) (n round : nat) (cur : list (ElGamalCiphertext P))
  : St Reader (list (ElGamalCiphertext P)) :=
  let start := Nat.land round 1 in
  do! deckBytes := reader_take (n * 64) in
  do! next := st_lift (decodeDeck n deckBytes) in
  do! _ := verifyAll (verifyPair pk ctx cur next) (pairsFrom n start n) in
  do! _ := verifyAll (verifySingle pk ctx cur next) (verifierSingles n start) in
  st_ret next.

Fixpoint verifyRounds (pk : P) (ctx : option bytes) (n rounds round : nat) (cur : list (ElGamalCiphertext P))
  : St Reader (list (ElGamalCiphertext P)) :=
  match rounds with
  | O => st_ret cur
  | S rounds => do! next := verifyRound pk ctx n round cur in verifyRounds pk ctx n rounds (S round) next
  end.

(** The version byte against the context the caller supplies. *)
Definition versionContext (version : Z) (context : option bytes) : res (option bytes) :=
  if version =? SHUFFLE_PROOF_V1_VERSION then
    match context with
    | Some _ => Err "context supplied for v1 proof; v1 must omit context"%string
    | None => Ok None
    end
  else if version =? SHUFFLE_PROOF_V2_VERSION then
    match context with
    | None => Err "context required for v2 proof"%string
    | Some c => let! _ := throw_if (length c =? 0)%nat "context must be non-empty for v2"%string in Ok (Some c)
    end
  else Err "unsupported version"%string.

(** The embedded context of a v2 proof must be the caller's. *)
Definition checkContext (ctx : option bytes) : St Reader unit :=
  match ctx with
  | None => st_ret tt
  | Some c =>
      do! ctxLen := takeU16LE in
      do! ctxBytes := reader_take (Z.to_nat ctxLen) in
      do! _ := st_lift (throw_if (negb (length ctxBytes =? length c)%nat) "context length mismatch"%string) in
      st_lift (throw_if (negb (forallb (λ i, rd 0 ctxBytes i =? rd 0 c i) (seq 0 (length ctxBytes)))) "context mismatch"%string)
  end.

(** The body of the [try]; an early [return { ok: false, error }] and an
    exception both end as [Err]. *)
Definition shuffleVerify_body (pk : P) (deckIn : list (ElGamalCiphertext P)) (context : option bytes)
  : St Reader (list (ElGamalCiphertext P)) :=
  do! version := takeU8 in
  do! ctx := st_lift (versionContext version context) in
  do! n := takeU16LE in
  do! rounds := takeU16LE in
  do! _ := checkContext ctx in
  do! _ := st_lift (throw_if (negb (n =? Z.of_nat (length deckIn))) "n mismatch"%string) in
  do! _ := st_lift (throw_if (n <? 2) "deck too small"%string) in
  do! _ := st_lift (throw_if (rounds <=? 0) "rounds must be > 0"%string) in
  verifyRounds pk ctx (Z.to_nat n) (Z.to_nat rounds) 0 deckIn.

Definition shuffleVerifyV1 (pk : P) (deckIn : list (ElGamalCiphertext P)) (proofBytes : bytes) (context : option bytes)
  : ShuffleVerifyResult :=
  match shuffleVerify_body pk deckIn context (mkReader proofBytes 0) with
  | Ok (deckOut, rd) => if negb (reader_done rd) then VFail "trailing bytes in proof" else VOk deckOut
  | Err e => VFail e
  end.
End shuffle.
Arguments EqDlogProof : clear implicits.
Arguments SwitchProof : clear implicits.
Arguments ShuffleVerifyResult : clear implicits.

End Shuffle.
