(* ===== verification/OcpShuffleNet.v ===== *)
(** * The switching network of the shuffle

    The permutation drawn, the schedule of pairs and single positions, and the
    odd-even transposition network: which positions a round touches, that the
    prover and the verifier agree on them, and that as many rounds as there
    are cards sort any keys. *)
From stdpp Require Import base option list strings.
From Stdlib Require Import ZArith Lia.
From S2P Require Import Prelude OcpBytes OcpGroup OcpTranscript OcpProofs OcpShuffle.
Import Bytes Group Hashing Proofs Shuffle.

Module ShuffleNet.

(** ** Computations with a state *)

Lemma st_bind_ok {S A B} (c : St S A) (k : A → St S B) s b s' :
  st_bind c k s = Ok (b, s') ↔ ∃ a s1, c s = Ok (a, s1) ∧ k a s1 = Ok (b, s').
Proof.
  unfold st_bind. rewrite rbind_ok. split; [intros ([a s1] & ? & ?); by exists a, s1|intros (a & s1 & ? & ?); by exists (a, s1)].
Qed.

Lemma st_lift_ok {S A} (c : res A) (s : S) a s' : st_lift c s = Ok (a, s') ↔ c = Ok a ∧ s' = s.
Proof.
  unfold st_lift. destruct c as [x|]; simpl; [|by split; [|intros [? _]]]. split; [by intros [= -> ->]|by intros [[= ->] ->]].
Qed.

Lemma st_ret_ok {S A} (a : A) (s : S) b s' : st_ret a s = Ok (b, s') ↔ b = a ∧ s' = s.
Proof. unfold st_ret. split; [by intros [= -> ->]|by intros [-> ->]]. Qed.

(** ** Swapping two positions *)

Lemma swap_Permutation {A} (l : list A) i j x y :
  l !! i = Some x → l !! j = Some y → i ≠ j → <[j := x]> (<[i := y]> l) ≡ₚ l.
Proof.
  intros Hi Hj Hne. symmetry. apply Permutation_inj. split; [by rewrite !length_insert|].
  exists (λ k, if decide (k = i) then j else if decide (k = j) then i else k). split.
  - intros a b. repeat case_decide; intros ?; congruence.
  - intros k. repeat case_decide; subst.
    + rewrite list_lookup_insert_eq; [done|]. rewrite length_insert. by eapply lookup_lt_Some.
    + rewrite list_lookup_insert_ne, list_lookup_insert_eq; [done| |done]. by eapply lookup_lt_Some.
    + by rewrite !list_lookup_insert_ne.
Qed.

Lemma swap_perm (perm : list nat) i j :
  (i < length perm)%nat → (j < length perm)%nat → swap perm i j ≡ₚ perm.
Proof.
  intros Hi Hj. unfold swap. destruct (decide (i = j)) as [->|Hne].
  - rewrite list_insert_insert_eq, list_insert_id; [done|]. by apply lookup_rd.
  - apply swap_Permutation; [by apply lookup_rd..|done].
Qed.

(** ** The schedule *)

Definition flatten (pairs : list (nat * nat)) : list nat := flat_map (λ p, [p.1; p.2]) pairs.

(** The pairs cover a stretch from [i], leaving at most the last position. *)
Lemma pairsFrom_flatten fuel i n :
  (i <= n)%nat → (n - i <= 2 * fuel + 1)%nat →
  flatten (pairsFrom fuel i n) = seq i (2 * ((n - i) / 2)) ∧ Forall (λ p, p.2 = S p.1 ∧ (p.2 < n)%nat) (pairsFrom fuel i n).
Proof.
  revert i. induction fuel as [|fuel IH]; intros i Hi Hf; cbn [pairsFrom].
  - replace ((n - i) / 2)%nat with 0%nat; [by split|]. symmetry. apply Nat.div_small. lia.
  - destruct (i + 1 <? n)%nat eqn:E; b2p.
    + destruct (IH (i + 2)%nat) as [Hfl HF]; [lia..|]. cbn [flatten flat_map fst snd app]. fold (flatten (pairsFrom fuel (i + 2) n)).
      rewrite Hfl. replace (n - i)%nat with (n - (i + 2) + 1 * 2)%nat by lia. rewrite Nat.div_add by lia.
      replace (2 * ((n - (i + 2)) / 2 + 1))%nat with (S (S (2 * ((n - (i + 2)) / 2)))) by lia. cbn [seq].
      split; [by replace (i + 1)%nat with (S i) by lia; replace (i + 2)%nat with (S (S i)) by lia|].
      constructor; [simpl; lia|done].
    + replace ((n - i) / 2)%nat with 0%nat; [by split|]. symmetry. apply Nat.div_small. lia.
Qed.

Lemma used_flatten pairs i :
  existsb (λ p : nat * nat, (p.1 =? i)%nat || (p.2 =? i)%nat) pairs = bool_decide (i ∈ flatten pairs).
Proof.
  apply eq_true_iff_eq. rewrite bool_decide_eq_true, existsb_exists, list_elem_of_In. unfold flatten. rewrite in_flat_map.
  split; intros (p & Hp & H); exists p; (split; [done|]); rewrite orb_true_iff, !Nat.eqb_eq in *; simpl in *; tauto.
Qed.

Lemma filter_seq_outside a b n :
  (a + b <= n)%nat →
  List.filter (λ i, negb (bool_decide (i ∈ seq a b))) (seq 0 n) = seq 0 a ++ seq (a + b) (n - a - b).
Proof.
  intros Hle. replace n with (a + (b + (n - a - b)))%nat at 1 by lia. rewrite !seq_app, !List.filter_app. cbn [Nat.add].
  assert (Hall : ∀ l : list nat, (∀ i, In i l → i ∉ seq a b) → List.filter (λ i, negb (bool_decide (i ∈ seq a b))) l = l).
  { induction l as [|x l IH]; intros H; simpl; [done|]. rewrite bool_decide_false by (apply H; by left). simpl.
    rewrite IH; [done|]. intros i Hi. apply H. by right. }
  rewrite (Hall (seq 0 a)), (Hall (seq (a + b) _)).
  - rewrite (filter_none _ (seq a b)); [done|]. intros i Hi. by rewrite bool_decide_true by by apply list_elem_of_In.
  - intros i Hi. apply in_seq in Hi. rewrite list_elem_of_In, in_seq. lia.
  - intros i Hi. apply in_seq in Hi. rewrite list_elem_of_In, in_seq. lia.
Qed.

Lemma land_1 r : Nat.land r 1 = (r mod 2)%nat.
Proof. change 1%nat with (Nat.ones 1). by rewrite Nat.land_ones. Qed.

Lemma roundPairs_eq n round :
  (2 <= n)%nat →
  let start := (round mod 2)%nat in
  let m := ((n - start) / 2)%nat in
  flatten (roundPairs n round).1 = seq start (2 * m) ∧ (roundPairs n round).2 = seq 0 start ++ seq (start + 2 * m) (n - start - 2 * m).
Proof.
  intros Hn start m. assert (Hs : (start < 2)%nat) by by apply Nat.mod_upper_bound.
  destruct (pairsFrom_flatten n start n) as [Hf _]; [lia..|]. unfold roundPairs. fold start. cbn [fst snd].
  split; [exact Hf|]. rewrite (List.filter_ext _ (λ i, negb (bool_decide (i ∈ seq start (2 * m))))).
  - apply filter_seq_outside. pose proof (Nat.div_mod_eq (n - start) 2) as Hd. fold m in Hd. lia.
  - intros i. by rewrite used_flatten, Hf.
Qed.

(** In each round the pairs and the single positions cover every position
    of the deck exactly once, each pair is made of neighbours, and the
    positions that the verifier hard-codes are those of the prover. *)
Lemma roundPairs_partition n round :
  (2 <= n)%nat →
  let (pairs, singles) := roundPairs n round in
  flatten pairs ++ singles ≡ₚ seq 0 n ∧
  Forall (λ p, p.2 = S p.1) pairs ∧
  pairs = pairsFrom n (Nat.land round 1) n ∧ singles = verifierSingles n (Nat.land round 1).
Proof.
  intros Hn. pose proof (roundPairs_eq n round Hn) as [Hf Hs]. rewrite land_1. cbv zeta in *.
  destruct (roundPairs n round) as [pairs singles] eqn:E. cbn [fst snd] in *. set (start := (round mod 2)%nat) in *.
  assert (Hst : (start < 2)%nat) by by apply Nat.mod_upper_bound.
  set (m := ((n - start) / 2)%nat) in *. pose proof (Nat.div_mod_eq (n - start) 2) as Hdm. fold m in Hdm.
  pose proof (Nat.mod_upper_bound (n - start) 2 ltac:(done)) as Hr.
  assert (Hpairs : pairs = pairsFrom n start n) by (unfold roundPairs in E; by injection E as <- _).
  split; [|split; [|split; [done|]]].
  - rewrite Hf, Hs. rewrite (Permutation_app_comm (seq start (2 * m))), <-app_assoc, (Permutation_app_comm (seq (start + 2 * m) _)).
    rewrite <-!seq_app. replace (start + (2 * m + (n - start - 2 * m)))%nat with n by lia. done.
  - rewrite Hpairs. destruct (pairsFrom_flatten n start n) as [_ HF]; [lia..|]. eapply Forall_impl; [exact HF|]. by intros p [? _].
  - rewrite Hs. unfold verifierSingles. pose proof (Nat.div_mod_eq n 2) as Hdn.
    pose proof (Nat.mod_upper_bound n 2 ltac:(done)). assert (Hcase : start = 0%nat ∨ start = 1%nat) by lia.
    destruct Hcase as [->| ->]; destruct (n mod 2 =? 1)%nat eqn:En; b2p; cbn [Nat.eqb seq app] in *.
    + replace (0 + 2 * m)%nat with (n - 1)%nat by lia. replace (n - 0 - 2 * m)%nat with 1%nat by lia. done.
    + replace (n - 0 - 2 * m)%nat with 0%nat by lia. done.
    + replace (n - 1 - 2 * m)%nat with 0%nat by lia. done.
    + replace (1 + 2 * m)%nat with (n - 1)%nat by lia. replace (n - 1 - 2 * m)%nat with 1%nat by lia. done.
Qed.

(** ** Odd-even transposition *)

(** Compare and exchange the pairs (0,1), (2,3), ... *)
Fixpoint exchange (l : list nat) : list nat :=
  match l with
  | x :: y :: l => Nat.min x y :: Nat.max x y :: exchange l
  | _ => l
  end.

(** One round: from position 0 or from position 1. *)
Definition roundKeys (round : nat) (l : list nat) : list nat :=
  if (round mod 2 =? 0)%nat then exchange l
  else match l with [] => [] | x :: l => x :: exchange l end.

Fixpoint network (rounds round : nat) (l : list nat) : list nat :=
  match rounds with
  | O => l
  | S rounds => network rounds (S round) (roundKeys round l)
  end.

Lemma exchange_ind (Q : list nat → Prop) :
  Q [] → (∀ x, Q [x]) → (∀ x y l, Q l → Q (x :: y :: l)) → ∀ l, Q l.
Proof.
  intros H0 H1 H2 l. enough (Q l ∧ ∀ x, Q (x :: l)) as [? _] by done.
  induction l as [|y l [IH1 IH2]]; split; auto.
Qed.

(** How many keys from position [i] on are at least [t]. *)
Definition above (t : nat) (l : list nat) (i : nat) : Z :=
  Z.of_nat (length (List.filter (λ k, t <=? k)%nat (drop i l))).

Lemma above_cons_0 t x l : above t (x :: l) 0 = (if (t <=? x)%nat then 1 else 0) + above t l 0.
Proof. unfold above. rewrite !drop_0. cbn [List.filter]. destruct (t <=? x)%nat; cbn [length]; lia. Qed.
Lemma above_cons_S t x l i : above t (x :: l) (S i) = above t l i.
Proof. done. Qed.
Lemma above_nil t i : above t [] i = 0.
Proof. unfold above. by rewrite drop_nil. Qed.
Lemma above_nonneg t l i : 0 <= above t l i.
Proof. unfold above. lia. Qed.

Lemma above_step t l i : above t l (S i) <= above t l i <= above t l (S i) + 1.
Proof.
  revert i. induction l as [|x l IH]; intros i; [rewrite !above_nil; lia|]. destruct i as [|i]; [|apply IH].
  rewrite above_cons_S, above_cons_0. destruct (t <=? x)%nat; lia.
Qed.

Lemma above_end t l i : (length l <= i)%nat → above t l i = 0.
Proof. intros H. unfold above. by rewrite drop_ge. Qed.

Lemma above_le_rest t l i : above t l i <= Z.of_nat (length l) - Z.of_nat i ∨ (length l < i)%nat.
Proof.
  destruct (decide (length l < i)%nat) as [|Hi]; [by right|left]. unfold above.
  pose proof (List.filter_length_le (λ k, t <=? k)%nat (drop i l)) as Hl. rewrite length_drop in Hl. lia.
Qed.

(** A boundary between pairs sees no change; a boundary inside a pair sees the
    larger key move above it. *)
Lemma above_exchange t l i :
  above t (exchange l) i =
  if Nat.even i || (length l <=? i)%nat then above t l i else Z.min (above t l (i - 1)) (above t l (i + 1) + 1).
Proof.
  revert i. induction l as [| x |x y l IH] using exchange_ind; intros i.
  - by rewrite orb_true_r.
  - destruct i as [|i]; [done|]. cbn [exchange length Nat.leb]. by rewrite orb_true_r.
  - destruct i as [|[|i]]; cbn [exchange].
    + cbn [Nat.even orb]. rewrite !above_cons_0, IH. cbn [Nat.even orb].
      destruct (t <=? x)%nat eqn:Ex, (t <=? y)%nat eqn:Ey, (t <=? Nat.min x y)%nat eqn:Em, (t <=? Nat.max x y)%nat eqn:EM; b2p; lia.
    + cbn [Nat.even orb length Nat.leb Nat.sub Nat.add]. rewrite !above_cons_S, !above_cons_0, IH. cbn [Nat.even orb].
      destruct (t <=? x)%nat eqn:Ex, (t <=? y)%nat eqn:Ey, (t <=? Nat.max x y)%nat eqn:EM; b2p; lia.
    + cbn [Nat.even length Nat.leb]. rewrite !above_cons_S, IH.
      destruct (Nat.even i || (length l <=? i)%nat) eqn:E; [done|]. apply orb_false_iff in E as [Ei _].
      destruct i as [|i]; [done|]. cbn [Nat.sub Nat.add]. rewrite !above_cons_S. by rewrite Nat.sub_0_r.
Qed.

Lemma exchange_length l : length (exchange l) = length l.
Proof. induction l as [| |x y l IH] using exchange_ind; simpl; auto. Qed.
Lemma roundKeys_length r l : length (roundKeys r l) = length l.
Proof. unfold roundKeys. destruct (_ =? 0)%nat; [apply exchange_length|]. destruct l; simpl; [done|]. by rewrite exchange_length. Qed.

Lemma exchange_perm l : exchange l ≡ₚ l.
Proof.
  induction l as [| |x y l IH] using exchange_ind; simpl; [done..|]. rewrite IH.
  destruct (Nat.le_ge_cases x y); [rewrite Nat.min_l, Nat.max_r by done; done|rewrite Nat.min_r, Nat.max_l by done; constructor].
Qed.
Lemma roundKeys_perm r l : roundKeys r l ≡ₚ l.
Proof. unfold roundKeys. destruct (_ =? 0)%nat; [apply exchange_perm|]. destruct l; [done|]. by rewrite exchange_perm. Qed.

(** The boundary [b] is inside a pair of round [r]. *)
Definition active (r b n : nat) : bool := (0 <? b)%nat && (b <? n)%nat && (b mod 2 =? S r mod 2)%nat.

Lemma even_mod b : Nat.even b = (b mod 2 =? 0)%nat.
Proof.
  destruct (Nat.even b) eqn:E.
  - apply Nat.even_spec in E as [k ->]. by rewrite Nat.mul_comm, Nat.Div0.mod_mul.
  - assert (Ho : Nat.odd b = true) by (unfold Nat.odd; by rewrite E). apply Nat.odd_spec in Ho as [k ->].
    rewrite Nat.add_comm, Nat.mul_comm, Nat.Div0.mod_add. done.
Qed.

Lemma above_roundKeys t r l b :
  (b <= length l)%nat →
  above t (roundKeys r l) b =
  if active r b (length l) then Z.min (above t l (b - 1)) (above t l (b + 1) + 1) else above t l b.
Proof.
  intros Hb. unfold roundKeys, active. assert (Hr : (r mod 2 < 2)%nat) by by apply Nat.mod_upper_bound.
  assert (HSr : (S r mod 2 = if (r mod 2 =? 0)%nat then 1 else 0)%nat).
  { rewrite <-Nat.add_1_l, <-Nat.Div0.add_mod_idemp_r. destruct (r mod 2)%nat as [|[|]]; [done..|lia]. }
  rewrite HSr. destruct (r mod 2 =? 0)%nat.
  - rewrite above_exchange, even_mod. pose proof (Nat.mod_upper_bound b 2 ltac:(done)).
    destruct (b mod 2 =? 0)%nat eqn:E0, (b mod 2 =? 1)%nat eqn:E1, (length l <=? b)%nat eqn:El, (0 <? b)%nat eqn:E2, (b <? length l)%nat eqn:E3;
      b2p; simpl; try done; try lia. subst. assert (b = 0%nat) as -> by lia. done.
  - destruct l as [|x l]; [destruct b; [done|simpl in Hb; lia]|]. destruct b as [|b].
    + rewrite !above_cons_0, above_exchange. done.
    + rewrite above_cons_S, above_exchange, even_mod. cbn [length] in *. pose proof (Nat.mod_upper_bound b 2 ltac:(done)).
      assert (HSb : (S b mod 2 = if (b mod 2 =? 0)%nat then 1 else 0)%nat).
      { rewrite <-Nat.add_1_l, <-Nat.Div0.add_mod_idemp_r. destruct (b mod 2)%nat as [|[|]]; [done..|lia]. }
      rewrite HSb. destruct (b mod 2 =? 0)%nat eqn:E0; cbn [orb Nat.eqb]; rewrite ?andb_false_r, ?andb_true_r; [done|].
      destruct (length l <=? b)%nat eqn:El, (0 <? S b)%nat eqn:E2, (S b <? S (length l))%nat eqn:E3; b2p; cbn [andb]; try done; try lia.
      destruct b as [|b]; [done|]. cbn [Nat.sub]. by rewrite Nat.sub_0_r, !above_cons_S.
Qed.

(** After [r] rounds the large keys have moved up far enough: the bound grows
    by one half per round. *)
Definition progress (t : nat) (m : Z) (n r : nat) (l : list nat) : Prop :=
  ∀ b, (b <= n)%nat →
    Z.min (2 * m) (Z.min (2 * (Z.of_nat n - Z.of_nat b))
      (m - Z.of_nat b + Z.of_nat r - (if (b mod 2 =? r mod 2)%nat then 0 else 1))) <= 2 * above t l b.

Lemma progress_0 t l r : (r = 0)%nat → progress t (above t l 0) (length l) r l.
Proof.
  intros -> b Hb. assert (H : above t l 0 - Z.of_nat b <= above t l b).
  { induction b as [|b IH]; [lia|]. pose proof (above_step t l b). specialize (IH ltac:(lia)). lia. }
  pose proof (above_nonneg t l b). destruct (_ =? _)%nat; lia.
Qed.

Lemma mod2_S x y : ((S x) mod 2 =? (S y) mod 2)%nat = (x mod 2 =? y mod 2)%nat.
Proof.
  assert (HS : ∀ b, (S b mod 2 = if (b mod 2 =? 0)%nat then 1 else 0)%nat).
  { intros b. rewrite <-Nat.add_1_l, <-Nat.Div0.add_mod_idemp_r. pose proof (Nat.mod_upper_bound b 2 ltac:(done)).
    destruct (b mod 2)%nat as [|[|]]; [done..|lia]. }
  rewrite !HS. pose proof (Nat.mod_upper_bound x 2 ltac:(done)). pose proof (Nat.mod_upper_bound y 2 ltac:(done)).
  destruct (x mod 2)%nat as [|[|]], (y mod 2)%nat as [|[|]]; try done; lia.
Qed.

Lemma mod2_flip x y : (S x mod 2 =? y mod 2)%nat = negb (x mod 2 =? y mod 2)%nat.
Proof.
  assert (HS : (S x mod 2 = if (x mod 2 =? 0)%nat then 1 else 0)%nat).
  { rewrite <-Nat.add_1_l, <-Nat.Div0.add_mod_idemp_r. pose proof (Nat.mod_upper_bound x 2 ltac:(done)).
    destruct (x mod 2)%nat as [|[|]]; [done..|lia]. }
  rewrite HS. pose proof (Nat.mod_upper_bound x 2 ltac:(done)). pose proof (Nat.mod_upper_bound y 2 ltac:(done)).
  destruct (x mod 2)%nat as [|[|]], (y mod 2)%nat as [|[|]]; try done; lia.
Qed.

Lemma progress_round t m r l :
  m = above t l 0 → progress t m (length l) r l → progress t m (length l) (S r) (roundKeys r l).
Proof.
  intros Hm Hp b Hb. rewrite above_roundKeys by done. unfold active. rewrite (Nat.eqb_sym (b mod 2) (S r mod 2)), (mod2_flip r b), (Nat.eqb_sym (r mod 2)).
  pose proof (Hp b Hb) as Hb0. destruct (b mod 2 =? r mod 2)%nat eqn:Epar; cbn [negb]; rewrite ?andb_false_r, ?andb_true_r; [lia|].
  destruct (0 <? b)%nat eqn:E0; b2p; cbn [andb].
  2:{ assert (b = 0%nat) as -> by lia. lia. }
  destruct (b <? length l)%nat eqn:E1; b2p; cbn [andb].
  2:{ assert (b = length l) as -> by lia. pose proof (above_nonneg t l (length l)). lia. }
  pose proof (Hp (b - 1)%nat ltac:(lia)) as H1. pose proof (Hp (b + 1)%nat ltac:(lia)) as H2.
  assert (Hpar1 : ((b - 1) mod 2 =? r mod 2)%nat = true).
  { pose proof (mod2_flip (b - 1) r) as Hf. replace (S (b - 1)) with b in Hf by lia.
    rewrite (proj2 (Nat.eqb_neq _ _) Epar) in Hf. by destruct ((b - 1) mod 2 =? r mod 2)%nat. }
  assert (Hpar2 : ((b + 1) mod 2 =? r mod 2)%nat = true).
  { by rewrite Nat.add_1_r, mod2_flip, (proj2 (Nat.eqb_neq _ _) Epar). }
  rewrite Hpar1 in H1. rewrite Hpar2 in H2. lia.
Qed.

Lemma network_progress t m rounds r l :
  m = above t l 0 → progress t m (length l) r l → progress t m (length l) (r + rounds) (network rounds r l).
Proof.
  revert r l. induction rounds as [|k IH]; intros r l Hm Hp; cbn [network]; [by rewrite Nat.add_0_r|].
  assert (Hm' : m = above t (roundKeys r l) 0) by (by rewrite above_roundKeys by lia).
  pose proof (IH (S r) (roundKeys r l) Hm') as H. rewrite roundKeys_length in H.
  replace (r + S k)%nat with (S r + k)%nat by lia. apply H. by apply progress_round.
Qed.

Lemma network_perm rounds r l : network rounds r l ≡ₚ l.
Proof. revert r l. induction rounds as [|k IH]; intros r l; cbn [network]; [done|]. by rewrite IH, roundKeys_perm. Qed.

Lemma above_seq t s n : (s <= t)%nat → above t (seq s n) 0 = Z.max 0 (Z.of_nat (s + n) - Z.of_nat t).
Proof.
  revert s. induction n as [|n IH]; intros s Hs; cbn [seq]; [rewrite above_nil; lia|]. rewrite above_cons_0.
  destruct (decide (s = t)) as [->|Hne].
  - rewrite (proj2 (Nat.leb_le t t)) by done. unfold above. rewrite drop_0.
    assert (Hall : List.filter (λ k, t <=? k)%nat (seq (S t) n) = seq (S t) n).
    { apply forallb_filter_id, forallb_forall. intros x Hx. apply in_seq in Hx. apply Nat.leb_le. lia. }
    rewrite Hall, length_seq. lia.
  - rewrite (proj2 (Nat.leb_gt t s)), IH by lia. lia.
Qed.

Lemma above_perm t l k : l ≡ₚ k → above t l 0 = above t k 0.
Proof.
  intros H. unfold above. rewrite !drop_0. f_equal. induction H; simpl; repeat case_goal; simpl; try lia; congruence.
Qed.

(** Odd-even transposition sorts: as many rounds as there are keys (or more)
    bring any permutation of [0 .. n-1] into order. *)
Lemma network_sorted n rounds keys :
  keys ≡ₚ seq 0 n → (n <= rounds)%nat → network rounds 0 keys = seq 0 n.
Proof.
  intros Hk Hr. assert (Hlen : length keys = n) by by rewrite (Permutation_length Hk), length_seq.
  set (out := network rounds 0 keys). assert (Hlo : length out = n)
    by (unfold out; by rewrite (Permutation_length (network_perm rounds 0 keys))).
  assert (Hcount : ∀ t b, (t <= n)%nat → (b <= n)%nat → above t out b = Z.of_nat n - Z.max (Z.of_nat t) (Z.of_nat b)).
  { intros t b Ht Hb. assert (Hm : above t keys 0 = Z.of_nat n - Z.of_nat t) by (rewrite (above_perm t _ _ Hk), above_seq by lia; lia).
    pose proof (network_progress t _ rounds 0 keys eq_refl (progress_0 t keys 0 eq_refl) b ltac:(lia)) as Hp. fold out in Hp.
    rewrite Hlen, Hm in Hp. cbn [Nat.add] in Hp.
    assert (Hm' : above t out 0 = Z.of_nat n - Z.of_nat t) by (unfold out; by rewrite (above_perm t _ keys (network_perm rounds 0 keys))).
    assert (Hmono : above t out b <= above t out 0).
    { clear. induction b as [|b IH]; [lia|]. pose proof (above_step t out b). lia. }
    destruct (above_le_rest t out b) as [Hrest|]; [|lia]. rewrite Hlo in Hrest.
    destruct (b mod 2 =? rounds mod 2)%nat; lia. }
  apply list_eq_same_length with n; [by rewrite length_seq|done|]. intros i x y Hi Hx Hy.
  apply lookup_seq in Hy as [-> _]. cbn [Nat.add].
  assert (Hkey : ∀ t, above t out i = (if (t <=? x)%nat then 1 else 0) + above t out (S i)).
  { intros t. unfold above. rewrite (drop_S out x i Hx). cbn [List.filter]. destruct (t <=? x)%nat; cbn [length]; lia. }
  pose proof (Hkey i) as H1. pose proof (Hkey (S i)) as H2. rewrite !Hcount in H1, H2 by lia.
  destruct (i <=? x)%nat eqn:E1, (S i <=? x)%nat eqn:E2; b2p; lia.
Qed.

End ShuffleNet.
