(* ===== verification/OcpShuffleProver.v ===== *)
(** * What the shuffle prover does

    The permutation drawn is a permutation; every round re-encrypts the cards
    it moves together with their sorting keys; so the output deck holds, at
    the position that the drawn permutation gives each card, a re-encryption
    of that card. *)
From stdpp Require Import base option list strings.
From Stdlib Require Import ZArith Lia.
From S2P Require Import Prelude OcpBytes OcpGroup OcpTranscript OcpProofs OcpProofsThms OcpShuffle OcpShuffleNet.
Import Bytes Group Hashing Proofs ProofsThms Shuffle ShuffleNet.

Module ShuffleProver.

Section prover.
Context {P : Type} `{RistrettoLaws P} `{HashLaws}.

(** ** Re-encryption *)

(** [b] re-encrypts [a] with randomness [rho]. *)
Definition reencrypts (pk : P) (rho : Scalar) (a b : ElGamalCiphertext P) : Prop :=
  b.(ct_c1) ≡ p_add a.(ct_c1) (zmul rho BASE) ∧ b.(ct_c2) ≡ p_add a.(ct_c2) (zmul rho pk).
Definition reenc (pk : P) (a b : ElGamalCiphertext P) : Prop := ∃ rho, reencrypts pk rho a b.

Lemma reenc_refl pk a : reenc pk a a.
Proof. exists 0. unfold reencrypts. by rewrite !zmul_0, !(add_comm _ ZERO), !add_zero. Qed.

Lemma reenc_trans pk a b c : reenc pk a b → reenc pk b c → reenc pk a c.
Proof.
  intros (r & Ha1 & Ha2) (s & Hb1 & Hb2). exists (r + s). unfold reencrypts. rewrite !zmul_add, !add_assoc.
  by rewrite Hb1, Hb2, Ha1, Ha2.
Qed.

Lemma reenc_sym pk a b : reenc pk a b → reenc pk b a.
Proof.
  intros (r & Hx1 & Hx2). exists (- r). unfold reencrypts. rewrite Hx1, Hx2, <-!add_assoc, <-!zmul_add.
  by rewrite Z.add_opp_diag_r, !zmul_0, !(add_comm _ ZERO), !add_zero.
Qed.

(** Re-encryption does not change what the key holder decrypts. *)
Lemma reenc_decrypt sk (pk : P) a b m :
  nonzero sk → pk ≡ zmul sk BASE → reenc pk a b → elgamalDecrypt sk a = Ok m →
  ∃ m', elgamalDecrypt sk b = Ok m' ∧ m' ≡ m.
Proof.
  intros Hsk Hpk (r & Hx1 & Hx2). unfold elgamalDecrypt.
  destruct (mulPoint_total (ct_c1 a) sk Hsk) as (x & -> & Hx), (mulPoint_total (ct_c1 b) sk Hsk) as (y & -> & Hy). cbn [rbind].
  intros <-%Ok_inj. eexists. split; [reflexivity|]. unfold pointSub. apply sub_unique.
  rewrite Hy, Hx1, Hx2, zmul_distr, Hpk, (zmul_comm sk r), add_assoc, <-Hx, subtract_add. done.
Qed.

Lemma elgamalReencrypt_ok pk ct rho ct' : elgamalReencrypt pk ct rho = Ok ct' → nonzero rho ∧ reencrypts pk rho ct ct'.
Proof.
  unfold elgamalReencrypt. intros (g & Hg & (k & Hk & <-%Ok_inj)%rbind_ok)%rbind_ok.
  change mulBase with (mulPoint BASE) in Hg. apply mulPoint_ok in Hg as [? Hg]. apply mulPoint_ok in Hk as [_ Hk].
  split; [done|]. unfold reencrypts, pointAdd. cbn [ct_c1 ct_c2]. by rewrite Hg, Hk.
Qed.

Lemma reencryptAvoiding_ok fuel pk src avoid g ct rho g' :
  reencryptAvoidingC1Collisions fuel pk src avoid g = Ok ((ct, rho), g') →
  nonzero rho ∧ reencrypts pk rho src ct ∧ Forall (λ a, pointEq ct.(ct_c1) a = false) avoid.
Proof.
  revert g. induction fuel as [|fuel IH]; intros g; cbn [reencryptAvoidingC1Collisions]; [by intros [? _]%st_lift_ok|].
  intros (r & g1 & _ & (c & g2 & [Hc ->]%st_lift_ok & Hk)%st_bind_ok)%st_bind_ok.
  destruct (existsb _ avoid) eqn:Ea; cbn [negb] in Hk; [by eapply IH|].
  apply st_ret_ok in Hk as [[= -> ->] _]. apply elgamalReencrypt_ok in Hc as [Hr Hc].
  do 2 (split; [done|]). apply List.Forall_forall. intros a Ha. apply not_true_iff_false. intros E.
  rewrite <-not_true_iff_false in Ea. apply Ea, existsb_exists. eauto.
Qed.

(** ** The drawn permutation *)

Lemma permLoop_perm i perm g perm' g' :
  (i < length perm)%nat → permLoop i perm g = Ok (perm', g') → perm' ≡ₚ perm.
Proof.
  revert perm g. induction i as [|i IH]; intros perm g Hi; cbn [permLoop]; [by intros [-> _]%st_ret_ok|].
  intros (b & g1 & _ & Hk)%st_bind_ok. cbv zeta in Hk. set (x := _ mod 2 ^ 32) in Hk.
  assert (Hj : (Z.to_nat (x mod Z.of_nat (S i + 1)) < length perm)%nat).
  { pose proof (Z.mod_pos_bound x (Z.of_nat (S i + 1)) ltac:(lia)). lia. }
  assert (Hsw := swap_perm perm (S i) _ ltac:(lia) Hj). apply IH in Hk; [by rewrite Hk|].
  rewrite (Permutation_length Hsw). lia.
Qed.

Definition rng_ok (g : Rng) (draws : nat) : Prop :=
  small g.(seed) ∧ 0 <= g.(counter) ∧ g.(counter) + Z.of_nat draws <= 2 ^ 32.

Lemma nextScalar_total g draws :
  rng_ok g (S draws) → ∃ s, nextScalar g = Ok (s, mkRng g.(seed) (g.(counter) + 1)) ∧ canonical s ∧
    rng_ok (mkRng g.(seed) (g.(counter) + 1)) draws.
Proof.
  intros (Hs & Hc & Hd). unfold nextScalar. destruct (u32le_total (counter g)) as (c & -> & Hc'); [lia|]. cbn [rbind].
  unfold hashToScalar. rewrite (proj2 (updateLenBytes_ok _ _ _) (conj (eq_refl : small (utf8 "ocp/v1/shuffle/rng")) eq_refl)).
  cbn [rbind updateAll]. rewrite (proj2 (updateLenBytes_ok _ _ _) (conj Hs eq_refl)). cbn [rbind].
  rewrite (proj2 (updateLenBytes_ok _ _ _) (conj Hc' eq_refl)). cbn [rbind].
  set (d := sha512 _). assert (Hl : length d = 64%nat) by apply sha512_length.
  rewrite scalarFromBytesModOrder_ok by by destruct d. cbn [rbind]. eexists. split; [reflexivity|].
  split; [apply scalarMod_canonical|]. unfold rng_ok. cbn [seed counter]. repeat split; [done|lia|lia].
Qed.

Lemma nextBytes_4 g draws :
  rng_ok g (S draws) → ∃ b g', nextBytes 4 g = Ok (b, g') ∧ rng_ok g' draws.
Proof.
  intros Hg. unfold nextBytes. cbn [nextBytes_loop]. destruct (nextScalar_total g draws Hg) as (s & E & Hs & Hg').
  unfold st_bind at 1. rewrite E. cbn [rbind]. destruct (scalarToBytes_ok s Hs) as (b & Eb & Hl & _).
  unfold st_bind at 1, st_lift. rewrite Eb. cbn [rbind]. change SCALAR_BYTES with 32%nat in Hl. rewrite Hl.
  cbn [Nat.min Nat.sub nextBytes_loop]. unfold st_bind, st_ret. cbn [rbind]. eexists _, _. split; [reflexivity|done].
Qed.

Lemma permLoop_total i perm g :
  rng_ok g i → ∃ perm' g', permLoop i perm g = Ok (perm', g').
Proof.
  revert perm g. induction i as [|i IH]; intros perm g Hg; cbn [permLoop]; [by eexists _, _|].
  destruct (nextBytes_4 g i Hg) as (b & g' & E & Hg'). unfold st_bind. rewrite E. cbn [rbind]. by apply IH.
Qed.

(** The prover's [randomPermutation] returns, after at most one draw per
    position, a list that contains each of [0 .. n-1] exactly once. *)
Theorem randomPermutation_correct n g :
  rng_ok g n → ∃ perm g', randomPermutation n g = Ok (perm, g') ∧ perm ≡ₚ seq 0 n.
Proof.
  intros Hg. unfold randomPermutation.
  assert (Hg1 : rng_ok g (n - 1)) by (destruct Hg as (? & ? & ?); repeat split; [done..|lia]).
  destruct (permLoop_total (n - 1) (seq 0 n) g Hg1) as (perm & g' & E). exists perm, g'. split; [done|].
  destruct n as [|n]; [by apply st_ret_ok in E as [-> _]|]. eapply permLoop_perm; [|exact E]. rewrite length_seq. lia.
Qed.

(** ** One round *)

(** The card and its key. *)
Definition same_card (pk : P) (a b : ElGamalCiphertext P * nat) : Prop := reenc pk a.1 b.1 ∧ a.2 = b.2.

(** The switch of the pair: the smaller key goes first. *)
Definition linked (pk : P) (items next : list (ElGamalCiphertext P * nat)) (p : nat * nat) : Prop :=
  let (i, j) := p in
  if ((item_at items j).2 <? (item_at items i).2)%nat
  then same_card pk (item_at items j) (item_at next i) ∧ same_card pk (item_at items i) (item_at next j)
  else same_card pk (item_at items i) (item_at next i) ∧ same_card pk (item_at items j) (item_at next j).

Lemma item_at_insert (l : list (ElGamalCiphertext P * nat)) i x k :
  (i < length l)%nat → item_at (<[i:=x]> l) k = if decide (i = k) then x else item_at l k.
Proof. intros Hi. unfold item_at. rewrite rd_insert. by repeat case_decide; intuition. Qed.

Lemma provePair_ok fuel pk ctx items next i j g next' enc g' :
  provePair fuel pk ctx items next (i, j) g = Ok ((next', enc), g') →
  i ≠ j → (i < length next)%nat → (j < length next)%nat → item_at next i = item_at items i → item_at next j = item_at items j →
  length next' = length next ∧ linked pk items next' (i, j) ∧ ∀ k, k ≠ i → k ≠ j → item_at next' k = item_at next k.
Proof.
  unfold provePair. intros Hk Hne Hi Hj Ei Ej. cbv zeta in Hk. set (sw := (_ <? _)%nat) in Hk.
  apply st_bind_ok in Hk as ([o0 r0] & g1 & Hp0 & Hk). apply st_bind_ok in Hk as ([o1 r1] & g2 & Hp1 & Hk).
  apply st_bind_ok in Hk as (sp & g3 & _ & Hk). apply st_bind_ok in Hk as (e & g4 & _ & Hk).
  apply st_ret_ok in Hk as [[= -> ->] _]. rewrite !length_insert. split; [done|].
  apply reencryptAvoiding_ok in Hp0 as (_ & Hp0 & _). apply reencryptAvoiding_ok in Hp1 as (_ & Hp1 & _).
  split; [|intros k Hki Hkj; by rewrite !item_at_insert, !decide_False by (rewrite ?length_insert; done || congruence)].
  unfold linked. fold sw. rewrite !item_at_insert by by rewrite ?length_insert.
  rewrite (decide_False (P := j = i)), !decide_True by congruence. unfold same_card. cbn [fst snd]. rewrite Ei, Ej.
  destruct sw; repeat split; by eexists.
Qed.

Lemma proveAll_pairs fuel pk ctx items l next g next' encs g' :
  proveAll (provePair fuel pk ctx items) next l g = Ok ((next', encs), g') →
  NoDup (flatten l) → (∀ k, k ∈ flatten l → (k < length next)%nat ∧ item_at next k = item_at items k) →
  length next' = length next ∧ Forall (linked pk items next') l ∧ ∀ k, k ∉ flatten l → item_at next' k = item_at next k.
Proof.
  revert next g encs. induction l as [|[i j] l IH]; intros next g encs; cbn [proveAll].
  - intros [[= -> ->] _]%st_ret_ok _ _. by repeat split.
  - intros ([n1 e1] & g1 & Hs1 & ([n2 e2] & g2 & Hs2 & [[= -> ->] ->]%st_ret_ok)%st_bind_ok)%st_bind_ok Hnd Hk.
    cbn [flatten flat_map fst snd app] in Hnd, Hk. fold (flatten l) in Hnd, Hk.
    apply NoDup_cons in Hnd as [Hi Hnd]. apply NoDup_cons in Hnd as [Hj Hnd]. rewrite not_elem_of_cons in Hi. destruct Hi as [Hij Hi].
    destruct (Hk i) as [Li Ei]; [apply list_elem_of_here|]. destruct (Hk j) as [Lj Ej]; [apply list_elem_of_further, list_elem_of_here|].
    destruct (provePair_ok _ _ _ _ _ _ _ _ _ _ _ Hs1 Hij Li Lj Ei Ej) as (Hl1 & Hlink & Hframe).
    destruct (IH n1 g1 e2 Hs2 Hnd) as (Hl2 & HF & Hframe2).
    { intros k Hkl. rewrite Hl1. rewrite Hframe by (intros ->; done). apply Hk. by do 2 apply list_elem_of_further. }
    split; [congruence|]. split.
    + constructor; [|done]. unfold linked in *. by rewrite !(Hframe2 i), !(Hframe2 j) by done.
    + cbn [flatten flat_map fst snd app]. fold (flatten l). intros k. rewrite !not_elem_of_cons. intros (? & ? & ?).
      by rewrite Hframe2, Hframe.
Qed.

Lemma proveAll_singles fuel pk ctx items l next g next' encs g' :
  proveAll (proveSingle fuel pk ctx items) next l g = Ok ((next', encs), g') →
  NoDup l → (∀ k, k ∈ l → (k < length next)%nat ∧ item_at next k = item_at items k) →
  length next' = length next ∧ (∀ k, k ∈ l → same_card pk (item_at items k) (item_at next' k)) ∧
  ∀ k, k ∉ l → item_at next' k = item_at next k.
Proof.
  revert next g encs. induction l as [|i l IH]; intros next g encs; cbn [proveAll].
  - intros [[= -> ->] _]%st_ret_ok _ _. split; [done|]. split; [by intros k ?%not_elem_of_nil|done].
  - intros ([n1 e1] & g1 & Hs1 & ([n2 e2] & g2 & Hs2 & [[= -> ->] ->]%st_ret_ok)%st_bind_ok)%st_bind_ok Hnd Hk.
    apply NoDup_cons in Hnd as [Hi Hnd]. destruct (Hk i) as [Li Ei]; [apply list_elem_of_here|].
    unfold proveSingle in Hs1. apply st_bind_ok in Hs1 as (rho & g3 & _ & Hs1). apply st_bind_ok in Hs1 as (out & g4 & [Ho ->]%st_lift_ok & Hs1).
    apply st_bind_ok in Hs1 as (pf & g5 & _ & Hs1). apply st_bind_ok in Hs1 as (en & g6 & _ & Hs1). apply st_ret_ok in Hs1 as [[= -> ->] _].
    apply elgamalReencrypt_ok in Ho as [_ Ho].
    destruct (IH _ g1 e2 Hs2 Hnd) as (Hl & Hs & Hframe).
    { intros k Hkl. rewrite length_insert, item_at_insert, decide_False by (done || by intros ->). apply Hk. by apply list_elem_of_further. }
    rewrite length_insert in Hl. split; [done|]. split.
    + intros k [->|Hkl]%elem_of_cons; [|by apply Hs]. rewrite Hframe, item_at_insert, decide_True by done.
      split; cbn [fst snd]; [by exists rho|by rewrite Ei].
    + intros k. rewrite not_elem_of_cons. intros [? ?]. by rewrite Hframe, item_at_insert, decide_False by (done || congruence).
Qed.

(** The items after the exchanges of a round, before the cards are
    re-encrypted. *)
Fixpoint exchangeItems (l : list (ElGamalCiphertext P * nat)) : list (ElGamalCiphertext P * nat) :=
  match l with
  | x :: y :: l => if (y.2 <? x.2)%nat then y :: x :: exchangeItems l else x :: y :: exchangeItems l
  | _ => l
  end.
Definition roundItems (round : nat) (l : list (ElGamalCiphertext P * nat)) : list (ElGamalCiphertext P * nat) :=
  if (round mod 2 =? 0)%nat then exchangeItems l else match l with [] => [] | x :: l => x :: exchangeItems l end.

Lemma items_ind (Q : list (ElGamalCiphertext P * nat) → Prop) :
  Q [] → (∀ x, Q [x]) → (∀ x y l, Q l → Q (x :: y :: l)) → ∀ l, Q l.
Proof.
  intros Q0 Q1 Q2 l. enough (Q l ∧ ∀ x, Q (x :: l)) as [? _] by done.
  induction l as [|y l [IH1 IH2]]; split; auto.
Qed.

Lemma exchangeItems_keys l : (exchangeItems l).*2 = exchange l.*2.
Proof.
  induction l as [| |x y l IH] using items_ind; [done..|]. cbn [exchangeItems fmap list_fmap exchange].
  destruct (y.2 <? x.2)%nat eqn:E; b2p; cbn [fmap list_fmap]; rewrite IH.
  - by rewrite Nat.min_r, Nat.max_l by lia.
  - by rewrite Nat.min_l, Nat.max_r by lia.
Qed.
Lemma exchangeItems_perm l : exchangeItems l ≡ₚ l.
Proof.
  induction l as [| |x y l IH] using items_ind; [done..|]. cbn [exchangeItems].
  destruct (_ <? _)%nat; rewrite IH; [constructor|done].
Qed.

Lemma roundItems_keys r l : (roundItems r l).*2 = roundKeys r l.*2.
Proof. unfold roundItems, roundKeys. destruct (_ =? _)%nat; [apply exchangeItems_keys|]. destruct l; [done|]. cbn. by rewrite exchangeItems_keys. Qed.
Lemma roundItems_perm r l : roundItems r l ≡ₚ l.
Proof. unfold roundItems. destruct (_ =? _)%nat; [apply exchangeItems_perm|]. destruct l; [done|]. by rewrite exchangeItems_perm. Qed.

(** At an even position starts a pair, unless it is the last position. *)
Lemma exchangeItems_at (l : list (ElGamalCiphertext P * nat)) k :
  let i := (2 * k)%nat in
  if (S i <? length l)%nat
  then if ((item_at l (S i)).2 <? (item_at l i).2)%nat
       then item_at (exchangeItems l) i = item_at l (S i) ∧ item_at (exchangeItems l) (S i) = item_at l i
       else item_at (exchangeItems l) i = item_at l i ∧ item_at (exchangeItems l) (S i) = item_at l (S i)
  else item_at (exchangeItems l) i = item_at l i.
Proof.
  revert k. induction l as [| |x y l IH] using items_ind; intros k.
  1,2: cbn [length]; rewrite (proj2 (Nat.ltb_ge _ _)) by lia; done.
  destruct k as [|k].
  - cbv zeta. cbn [length]. rewrite (proj2 (Nat.ltb_lt _ _)) by lia. unfold item_at, rd. simpl. by destruct (y.2 <? x.2)%nat.
  - specialize (IH k). cbv zeta in *. replace (2 * S k)%nat with (S (S (2 * k))) by lia. cbn [length exchangeItems].
    change (S (S (S (2 * k))) <? S (S (length l)))%nat with (S (2 * k) <? length l)%nat.
    unfold item_at in *. by destruct (y.2 <? x.2)%nat.
Qed.

Lemma pairsFrom_starts fuel i n : Forall (λ p, ∃ k, p = (i + 2 * k, S (i + 2 * k)) ∧ S (i + 2 * k) < n)%nat (pairsFrom fuel i n).
Proof.
  revert i. induction fuel as [|fuel IH]; intros i; cbn [pairsFrom]; [done|]. destruct (_ <? _)%nat eqn:E; b2p; [|done]. constructor.
  - exists 0%nat. split; [f_equal; lia|lia].
  - eapply Forall_impl; [exact (IH (i + 2)%nat)|]. intros p (k & -> & Hk). exists (S k). split; [f_equal; lia|lia].
Qed.

(** A pair of the schedule is exchanged, a single position is not. *)
Lemma roundItems_pair pk round (items next : list (ElGamalCiphertext P * nat)) p :
  p ∈ (roundPairs (length items) round).1 → linked pk items next p →
  same_card pk (item_at (roundItems round items) p.1) (item_at next p.1) ∧
  same_card pk (item_at (roundItems round items) p.2) (item_at next p.2).
Proof.
  intros Hp. assert (Hs := pairsFrom_starts (length items) (round mod 2) (length items)).
  rewrite Forall_forall in Hs. destruct (Hs p Hp) as (k & -> & Hk). cbn [linked fst snd]. unfold roundItems.
  assert (Hr : (round mod 2 < 2)%nat) by by apply Nat.mod_upper_bound. destruct (round mod 2)%nat as [|[|]]; [..|lia]; cbn [Nat.eqb Nat.add] in *.
  - pose proof (exchangeItems_at items k) as He. cbv zeta in He. rewrite (proj2 (Nat.ltb_lt _ _) Hk) in He.
    destruct (_ <? _)%nat; destruct He as [-> ->]; tauto.
  - destruct items as [|x items]; [simpl in Hk; lia|]. cbn [length] in Hk.
    pose proof (exchangeItems_at items k) as He. cbv zeta in He. rewrite (proj2 (Nat.ltb_lt _ _)) in He by lia.
    unfold item_at, rd in *. simpl in He |- *. destruct (_ <? _)%nat; destruct He as [-> ->]; tauto.
Qed.

Lemma roundItems_single round (items : list (ElGamalCiphertext P * nat)) i :
  (2 <= length items)%nat → i ∈ (roundPairs (length items) round).2 → item_at (roundItems round items) i = item_at items i.
Proof.
  intros Hn. destruct (roundPairs_eq (length items) round Hn) as [_ ->]. set (start := (round mod 2)%nat).
  assert (Hr : (start < 2)%nat) by by apply Nat.mod_upper_bound. unfold roundItems. fold start.
  pose proof (Nat.div_mod_eq (length items - start) 2) as Hd. pose proof (Nat.mod_upper_bound (length items - start) 2 ltac:(done)).
  set (m := ((length items - start) / 2)%nat) in *. rewrite elem_of_app, !elem_of_seq. destruct start as [|[|]]; [..|lia]; cbn [Nat.eqb].
  - intros Hi. assert (i = 2 * m)%nat as -> by lia. pose proof (exchangeItems_at items m) as He. cbv zeta in He.
    by rewrite (proj2 (Nat.ltb_ge _ _)) in He by lia.
  - destruct items as [|x items]; [done|]. cbn [length] in *. intros Hi. destruct i as [|i]; [done|]. assert (i = 2 * m)%nat as -> by lia.
    pose proof (exchangeItems_at items m) as He. cbv zeta in He. by rewrite (proj2 (Nat.ltb_ge _ _)) in He by lia.
Qed.

(** [next] holds re-encryptions of the cards of [items] in another order, each
    with its key. *)
Definition moved (pk : P) : relation (list (ElGamalCiphertext P * nat)) := permuted (same_card pk).

#[global] Instance reenc_preorder pk : PreOrder (reenc pk).
Proof. split; [exact (reenc_refl pk)|exact (reenc_trans pk)]. Qed.
#[global] Instance same_card_preorder pk : PreOrder (same_card pk).
Proof.
  split; [intros x; by split|]. intros x y z [? ?] [? ?]. split; [by etransitivity|congruence].
Qed.

Lemma moved_length pk a b : moved pk a b → length b = length a.
Proof. apply permuted_length. Qed.

Lemma proveRound_ok fuel pk ctx items round g next chunks g' :
  (2 <= length items)%nat → proveRound fuel pk ctx items round g = Ok ((next, chunks), g') →
  moved pk items next ∧ next.*2 = roundKeys round items.*2.
Proof.
  intros Hn. unfold proveRound. pose proof (roundItems_single round items) as Hsing.
  assert (Hpair := λ nx p, roundItems_pair pk round items nx p).
  destruct (roundPairs_eq (length items) round Hn) as [Hfl Hsg]. cbv zeta in Hfl, Hsg.
  set (start := (round mod 2)%nat) in *. set (m := ((length items - start) / 2)%nat) in *.
  assert (Hr : (start < 2)%nat) by by apply Nat.mod_upper_bound. pose proof (Nat.div_mod_eq (length items - start) 2) as Hd. fold m in Hd.
  destruct (roundPairs (length items) round) as [pairs singles]. cbn [fst snd] in *.
  intros ([n1 e1] & g1 & Hs1 & ([n2 e2] & g2 & Hs2 & [[= -> _] _]%st_ret_ok)%st_bind_ok)%st_bind_ok.
  apply proveAll_pairs in Hs1 as (Hl1 & HF & Hf1).
  2:{ rewrite Hfl. apply NoDup_seq. }
  2:{ intros k. rewrite Hfl, elem_of_seq. intros Hk. split; [lia|done]. }
  apply proveAll_singles in Hs2 as (Hl2 & HS & Hf2).
  2:{ rewrite Hsg. apply NoDup_app. split; [apply NoDup_seq|]. split; [|apply NoDup_seq]. intros x. rewrite !elem_of_seq. lia. }
  2:{ intros k Hk. rewrite Hl1. split; [|apply Hf1].
      - revert Hk. rewrite Hsg, elem_of_app, !elem_of_seq. lia.
      - revert Hk. rewrite Hfl, Hsg, elem_of_app, !elem_of_seq. lia. }
  assert (Hall : Forall2 (same_card pk) (roundItems round items) n2).
  { apply Forall2_same_length_lookup. assert (Hlr := Permutation_length (roundItems_perm round items)). split; [congruence|].
    intros i x y Hx Hy. rewrite <-(rd_lookup (zero_ct, 0%nat) _ i x Hx), <-(rd_lookup (zero_ct, 0%nat) _ i y Hy).
    change (same_card pk (item_at (roundItems round items) i) (item_at n2 i)).
    assert (Hi : (i < length items)%nat) by (apply lookup_lt_Some in Hx; lia).
    destruct (decide (i ∈ singles)) as [Hs|Hs]; [by rewrite Hsing by done; apply HS|]. rewrite Hf2 by done.
    assert (Hin : i ∈ flatten pairs) by (revert Hs; rewrite Hfl, Hsg, elem_of_app, !elem_of_seq; lia).
    apply list_elem_of_In, in_flat_map in Hin as (p & Hp%list_elem_of_In & Hpi).
    pose proof (proj1 (Forall_forall _ _) HF p Hp) as Hl. destruct (Hpair n1 p Hp Hl). simpl in Hpi. by destruct Hpi as [<-|[<-|[]]]. }
  split; [by exists (roundItems round items); split; [apply roundItems_perm|]|].
  rewrite <-roundItems_keys. clear -Hall. induction Hall as [|x y l k [_ Hxy] _ IH]; [done|]. cbn. by rewrite Hxy, IH.
Qed.

Lemma proveRounds_ok fuel pk ctx rounds round items g out chunks g' :
  (2 <= length items)%nat → proveRounds fuel pk ctx rounds round items g = Ok ((out, chunks), g') →
  moved pk items out ∧ out.*2 = network rounds round items.*2.
Proof.
  revert round items g chunks. induction rounds as [|k IH]; intros round items g chunks Hn; cbn [proveRounds network].
  - intros [[= -> _] _]%st_ret_ok. split; [exact (permuted_refl (same_card pk) _)|done].
  - intros ([n1 e1] & g1 & Hs1 & ([n2 e2] & g2 & Hs2 & [[= -> _] ->]%st_ret_ok)%st_bind_ok)%st_bind_ok.
    apply proveRound_ok in Hs1 as [Hm1 Hk1]; [|done]. apply IH in Hs2 as [Hm2 Hk2]; [|by rewrite (moved_length _ _ _ Hm1)].
    split; [exact (permuted_trans (same_card pk) _ _ _ Hm1 Hm2)|]. by rewrite Hk2, Hk1.
Qed.

Lemma rd_index {A} (d : A) (l : list A) i x : (i < length l)%nat → rd d l i = x → l !! i = Some x.
Proof. intros Hi <-. by apply lookup_rd. Qed.

(** The shuffle permutes and re-encrypts.  When [shuffleProveV1] returns,
    the generator has drawn a permutation of the positions; the output deck
    has as many cards as the input, and the card that the network brings to
    position [p] is a re-encryption of the card whose key it carries.  With
    the default number of rounds, card [i] ends at position [perm[i]].  The
    key holder decrypts output and input to the same plaintexts. *)
Theorem shuffleProve_permutes fuel testHook random32 pk deckIn opts deckOut proof :
  shuffleProveV1 fuel testHook random32 pk deckIn opts = Ok (deckOut, proof) →
  let n := length deckIn in
  ∃ perm rounds g, randomPermutation n (mkRng (default random32 opts.(seedUnsafeForTestsOnly)) 0) = Ok (perm, g) ∧
    perm ≡ₚ seq 0 n ∧ default (Int (Z.of_nat n)) opts.(o_rounds) = Int rounds ∧ length deckOut = n ∧
    (∀ i p, (i < n)%nat → (p < n)%nat → rd 0%nat (network (Z.to_nat rounds) 0 perm) p = rd 0%nat perm i →
       reenc pk (ct_at deckIn i) (ct_at deckOut p)) ∧
    (opts.(o_rounds) = None → ∀ i, (i < n)%nat → reenc pk (ct_at deckIn i) (ct_at deckOut (rd 0%nat perm i))) ∧
    (∀ sk i p m, nonzero sk → pk ≡ zmul sk BASE → reenc pk (ct_at deckIn i) (ct_at deckOut p) →
       elgamalDecrypt sk (ct_at deckIn i) = Ok m → ∃ m', elgamalDecrypt sk (ct_at deckOut p) = Ok m' ∧ m' ≡ m).
Proof.
  unfold shuffleProveV1. cbv zeta. intros ([] & Hn & Hk)%rbind_ok. apply throw_if_ok in Hn. b2p.
  apply rbind_ok in Hk as (rounds & Hrounds & Hk). apply rbind_ok in Hk as (sd & Hsd & Hk). apply rbind_ok in Hk as (g0 & Hg0 & Hk).
  apply rbind_ok in Hk as ([] & _ & Hk). apply rbind_ok in Hk as ([perm g1] & Hperm & Hk). apply rbind_ok in Hk as (hdr & _ & Hk).
  apply rbind_ok in Hk as ([[out chunks] g2] & Hout & Hk). apply Ok_inj in Hk. cbn [fst snd] in Hk. injection Hk as <- <-.
  apply rbind_ok in Hg0 as ([] & _ & <-%Ok_inj).
  assert (Hpm : perm ≡ₚ seq 0 (length deckIn)) by (eapply permLoop_perm; [|exact Hperm]; rewrite length_seq; lia).
  assert (Hlp : length perm = length deckIn) by by rewrite (Permutation_length Hpm), length_seq.
  apply proveRounds_ok in Hout as [Hmoved Hkeys]; [|rewrite length_zip_with; lia].
  rewrite snd_zip in Hkeys by lia. pose proof (moved_length _ _ _ Hmoved) as Hlo. rewrite length_zip_with in Hlo.
  assert (Hdef : default (Int (Z.of_nat (length deckIn))) opts.(o_rounds) = Int rounds)
    by (revert Hrounds; destruct (default _ _); [|done]; destruct (_ <=? 0); [done|]; by intros ->%Ok_inj).
  exists perm, rounds, g1. split.
  { destruct (seedUnsafeForTestsOnly opts); [destruct testHook; [|done]|]; by apply Ok_inj in Hsd as ->. }
  split; [exact Hpm|]. split; [exact Hdef|]. split; [rewrite length_map; lia|].
  assert (Hmain : ∀ i p, (i < length deckIn)%nat → (p < length deckIn)%nat →
    rd 0%nat (network (Z.to_nat rounds) 0 perm) p = rd 0%nat perm i → reenc pk (ct_at deckIn i) (ct_at (map fst out) p)).
  { intros i p Hi Hp Hkey. rewrite <-Hkeys in Hkey. destruct Hmoved as (mid & Hmid & Hf).
    destruct (lookup_lt_is_Some_2 out p ltac:(lia)) as [[co ko] Eo].
    destruct (Forall2_lookup_r _ _ _ _ _ Hf Eo) as ([ci ki] & Ei & [Hre Hki]). cbn [fst snd] in *. subst ko.
    assert (Hin : (ci, ki) ∈ zip deckIn perm) by (rewrite <-Hmid; by eapply list_elem_of_lookup_2).
    apply list_elem_of_lookup in Hin as (q & Hq). apply lookup_zip_with_Some in Hq as (ci' & ki' & [= <- <-] & Hci & Hki).
    rewrite (rd_lookup _ out.*2 p ki) in Hkey by (rewrite list_lookup_fmap, Eo; done).
    assert (q = i) as ->.
    { eapply NoDup_lookup; [|exact Hki|rewrite Hkey; apply lookup_rd; lia]. rewrite Hpm. apply NoDup_seq. }
    unfold ct_at. rewrite (rd_lookup _ deckIn i ci), (rd_lookup _ (map fst out) p co); [done|by rewrite list_lookup_fmap, Eo|done]. }
  split; [exact Hmain|]. split; [|intros sk i p m Hsk Hpk Hre Hd; by eapply reenc_decrypt].
  intros Ho i Hi. rewrite Ho in Hdef. injection Hdef as <-.
  assert (Hpi : (rd 0%nat perm i < length deckIn)%nat).
  { assert (Hin : rd 0%nat perm i ∈ seq 0 (length deckIn)) by (rewrite <-Hpm; eapply list_elem_of_lookup_2, lookup_rd; lia).
    apply elem_of_seq in Hin. lia. }
  apply Hmain; [done..|]. rewrite (network_sorted _ _ _ Hpm) by lia. apply rd_lookup. apply lookup_seq. lia.
Qed.
End prover.

Import Residue Toy.

Lemma randomPermutation_correct_witness :
  ∃ perm g', randomPermutation 5 (mkRng [1; 2; 3] 0) = Ok (perm, g') ∧ perm ≡ₚ seq 0 5.
Proof. apply randomPermutation_correct. repeat split; vm_compute; congruence. Defined.

(** Three cards under the key 9, with the default three rounds. *)
Definition sampleDeck : list (ElGamalCiphertext Z) := [mkCt 3 5; mkCt 7 11; mkCt 13 17].
Definition sampleOpts : ShuffleProveOpts := mkOpts None None (Some [7]).
Definition sampleShuffle : list (ElGamalCiphertext Z) * bytes :=
  match shuffleProveV1 5 false [1; 2; 3] 9 sampleDeck sampleOpts with Ok r => r | Err _ => ([], []) end.

Lemma shuffleProve_permutes_witness :
  ∃ perm, perm ≡ₚ seq 0 3 ∧ ∀ i, (i < 3)%nat → reenc 9 (ct_at sampleDeck i) (ct_at sampleShuffle.1 (rd 0%nat perm i)).
Proof.
  destruct (shuffleProve_permutes 5 false [1; 2; 3] 9 sampleDeck sampleOpts sampleShuffle.1 sampleShuffle.2)
    as (perm & rounds & g & _ & Hp & _ & _ & _ & Hd & _); [by vm_compute|].
  exists perm. split; [exact Hp|]. intros i Hi. exact (Hd eq_refl i Hi).
Defined.

End ShuffleProver.
