(* ===== verification/OcpShuffleVerify.v ===== *)
(** * The verifier accepts what the prover makes

    A shuffle proof is read back chunk by chunk: [parses] says that a reader
    set before a chunk consumes exactly it, with a result of the stated form,
    or stops because a scalar is zero (which [multiply] refuses).  The honest
    switches and single re-encryptions are accepted, hence whole rounds, hence
    the proof. *)
From stdpp Require Import base option list strings.
From Stdlib Require Import ZArith Lia.
From S2P Require Import Prelude OcpBytes OcpGroup OcpTranscript OcpProofs OcpProofsThms OcpShuffle OcpShuffleNet OcpShuffleProver.
Import Bytes Group Hashing Proofs ProofsThms Shuffle ShuffleNet ShuffleProver.

Module ShuffleVerify.

(** What [multiply] throws at a scalar that is zero or not below the order. *)
Definition INVALID_SCALAR : string := "Expected valid scalar".

(** The reader, set before [chunk], reads exactly it. *)
Definition parses {A} (c : St Reader A) (chunk : bytes) (Q : A → Prop) : Prop :=
  ∀ pre rest,
    match c (mkReader (pre ++ chunk ++ rest) (length pre)) with
    | Ok (a, r) => r = mkReader (pre ++ chunk ++ rest) (length pre + length chunk) ∧ Q a
    | Err e => e = INVALID_SCALAR
    end.

Lemma parses_ret {A} (a : A) (Q : A → Prop) : Q a → parses (st_ret a) [] Q.
Proof. intros HQ pre rest. cbn. split; [by rewrite Nat.add_0_r|done]. Qed.

Lemma parses_bind {A B} (c : St Reader A) (k : A → St Reader B) ch1 ch2 Q R :
  parses c ch1 Q → (∀ a, Q a → parses (k a) ch2 R) → parses (st_bind c k) (ch1 ++ ch2) R.
Proof.
  intros Hc Hk pre rest. rewrite <-app_assoc. specialize (Hc pre (ch2 ++ rest)). unfold st_bind.
  destruct (c _) as [[a r]|e]; cbn [rbind]; [|done]. destruct Hc as [-> Ha]. specialize (Hk a Ha (pre ++ ch1) rest).
  rewrite <-app_assoc, length_app in Hk. by rewrite length_app, Nat.add_assoc.
Qed.

(** A step that reads nothing before one that does, and after. *)
Lemma parses_bind_l {A B} (c : St Reader A) (k : A → St Reader B) ch Q R :
  parses c [] Q → (∀ a, Q a → parses (k a) ch R) → parses (st_bind c k) ch R.
Proof. exact (parses_bind c k [] ch Q R). Qed.
Lemma parses_bind_r {A B} (c : St Reader A) (k : A → St Reader B) ch Q R :
  parses c ch Q → (∀ a, Q a → parses (k a) [] R) → parses (st_bind c k) ch R.
Proof. rewrite <-(app_nil_r ch) at 2. apply parses_bind. Qed.

Lemma parses_mono {A} (c : St Reader A) ch (Q R : A → Prop) : parses c ch Q → (∀ a, Q a → R a) → parses c ch R.
Proof. intros Hc HQR pre rest. specialize (Hc pre rest). destruct (c _) as [[a r]|e]; [|done]. destruct Hc; auto. Qed.

Lemma parses_lift {A} (c : res A) (Q : A → Prop) :
  match c with Ok a => Q a | Err e => e = INVALID_SCALAR end → parses (st_lift c) [] Q.
Proof. intros Hc pre rest. unfold st_lift. destruct c; cbn [rbind]; [|done]. by rewrite Nat.add_0_r. Qed.

Lemma parses_guard (b : bool) e : b = false → parses (st_lift (throw_if b e)) [] (λ _, True).
Proof. intros ->. by apply parses_lift. Qed.

Lemma slice_middle pre (ch : bytes) rest : slice (pre ++ ch ++ rest) (length pre) (length pre + length ch) = ch.
Proof.
  unfold slice. rewrite drop_app_length. replace (length pre + length ch - length pre)%nat with (length ch) by lia.
  apply take_app_length.
Qed.

Lemma parses_take n ch : length ch = n → parses (reader_take n) ch (λ b, b = ch).
Proof.
  intros <- pre rest. unfold reader_take. cbn [rd_bytes rd_off]. rewrite !length_app.
  rewrite (proj2 (Nat.ltb_ge _ _)) by lia. cbn [throw_if rbind]. by rewrite slice_middle.
Qed.

Section verify.
Context {P : Type} `{RistrettoLaws P} `{HashLaws}.

(** ** Equal ciphertexts *)

#[global] Instance ct_equiv : Equiv (ElGamalCiphertext P) := λ a b, a.(ct_c1) ≡ b.(ct_c1) ∧ a.(ct_c2) ≡ b.(ct_c2).
#[global] Instance ct_equivalence : Equivalence (≡@{ElGamalCiphertext P}).
Proof.
  split; [by intros a; split|by intros a b [? ?]; split|intros a b c [E1 E2] [F1 F2]; split; by rewrite ?E1, ?E2].
Qed.

Lemma takePoint_ok (p : P) : parses takePoint (groupElementToBytes p) (λ p', p' ≡ p).
Proof.
  unfold takePoint. eapply parses_bind_r; [apply parses_take, toRawBytes_ok|]. intros b ->. apply parses_lift.
  destruct (groupElement_decode p) as (p' & -> & Hp). done.
Qed.

Lemma takeScalar_ok s bs : scalarToBytes s = Ok bs → parses takeScalar bs (λ s', s' = s ∧ canonical s).
Proof.
  intros E. unfold scalarToBytes in E. apply rbind_ok in E as ([] & Hs%assertScalar_ok & E).
  destruct (scalarToBytes_ok s Hs) as (bs' & E' & Hl & Hok & He). unfold scalarToBytes in E'.
  rewrite (assertScalar_total s Hs) in E'. cbn [rbind] in E'. rewrite E in E'. apply Ok_inj in E' as <-.
  unfold takeScalar. eapply parses_bind_r; [by apply parses_take|]. intros b ->. apply parses_lift.
  by rewrite (proj2 (scalarFromBytes_ok bs s Hok) (conj Hl (conj He Hs))).
Qed.

Lemma decodeCiphertext_ok (ct : ElGamalCiphertext P) :
  length (encodeCiphertext ct) = 64%nat ∧ ∃ ct', decodeCiphertext (encodeCiphertext ct) = Ok ct' ∧ ct' ≡ ct.
Proof.
  unfold encodeCiphertext, concatBytes. cbn [concat]. rewrite app_nil_r.
  set (a := groupElementToBytes (ct_c1 ct)). set (b := groupElementToBytes (ct_c2 ct)).
  assert (Ha : length a = 32%nat) by apply toRawBytes_ok. assert (Hb : length b = 32%nat) by apply toRawBytes_ok.
  assert (Hl : length (a ++ b) = 64%nat) by (rewrite length_app; lia). split; [done|]. unfold decodeCiphertext. rewrite Hl.
  cbn [Nat.eqb negb throw_if rbind].
  assert (slice (a ++ b) 0 32 = a) as -> by (unfold slice; rewrite drop_0; by apply take_app_length').
  assert (slice (a ++ b) 32 64 = b) as -> by (unfold slice; rewrite drop_app_length' by done; apply take_ge; lia).
  destruct (groupElement_decode (ct_c1 ct)) as (x & Hx & Ex), (groupElement_decode (ct_c2 ct)) as (y & Hy & Ey).
  unfold a, b. rewrite Hx. cbn [rbind]. rewrite Hy. cbn [rbind]. eexists. split; [reflexivity|]. by split.
Qed.

(** ** The checks accept *)

(** What an honest check returns. *)
Definition accepts (c : res bool) : Prop := c = Ok true ∨ c = Err INVALID_SCALAR.

Lemma mulPoint_message (p : P) k e : mulPoint p k = Err e → e = INVALID_SCALAR.
Proof. unfold mulPoint, multiply. destruct (p_multiply p k); [done|]. by intros [= <-]. Qed.

Lemma checkEq_accepts (A t X : P) s e :
  canonical s → canonical e → zmul s A ≡ p_add t (zmul e X) → accepts (checkEq A t X s e).
Proof.
  intros Hs He Heq. destruct (checkEq_spec A t X s e Hs He) as [_ Hb]. unfold accepts.
  destruct (checkEq A t X s e) as [b|m] eqn:E; [left; f_equal; by apply (Hb b eq_refl)|right].
  unfold checkEq in E. destruct (mulPoint A s) eqn:E1; cbn [rbind] in E; [|injection E as <-; f_equal; by eapply mulPoint_message].
  destruct (mulPoint X e) eqn:E2; cbn [rbind] in E; [done|]. injection E as <-. f_equal. by eapply mulPoint_message.
Qed.

Lemma accepts_and (a b : res bool) : accepts a → accepts b → accepts (let! ok := a in if negb ok then Ok false else b).
Proof. intros [->| ->] Hb; [exact Hb|by right]. Qed.

Lemma eqDlogEquations_accepts (A B X Y t1 t2 : P) z e :
  canonical z → canonical e → zmul z A ≡ p_add t1 (zmul e X) → zmul z B ≡ p_add t2 (zmul e Y) →
  accepts (eqDlogEquations A B X Y t1 t2 z e).
Proof. intros Hz He H1' H2'. apply accepts_and; by apply checkEq_accepts. Qed.

(** ** One relation *)

(** The answer [z] is right for the commitments and the challenge [e]. *)
Definition relation_ok (pk : P) (inCt outCt : ElGamalCiphertext P) (t1 t2 : P) (z e : Scalar) : Prop :=
  canonical z ∧ canonical e ∧
  zmul z BASE ≡ p_add t1 (zmul e (p_subtract outCt.(ct_c1) inCt.(ct_c1))) ∧
  zmul z pk ≡ p_add t2 (zmul e (p_subtract outCt.(ct_c2) inCt.(ct_c2))).

Lemma relation_transfer (pk : P) (a a' b b' : ElGamalCiphertext P) (t1 t1' t2 t2' : P) z e :
  a ≡ a' → b ≡ b' → t1 ≡ t1' → t2 ≡ t2' → relation_ok pk a b t1 t2 z e → relation_ok pk a' b' t1' t2' z e.
Proof. intros [Ea1 Ea2] [Eb1 Eb2] E1 E2 (Hz & He & HA & HB). split; [done|]. split; [done|]. split; [rewrite <-Ea1, <-Eb1, <-E1; exact HA|rewrite <-Ea2, <-Eb2, <-E2; exact HB]. Qed.

Lemma verifyRelation_accepts (pk : P) inCt outCt pf i e :
  relation_ok pk inCt outCt (rd ZERO pf.(sw_t1) i) (rd ZERO pf.(sw_t2) i) (rd 0 pf.(sw_z) i) e →
  accepts (verifyRelation pk inCt outCt pf i e).
Proof. intros (Hz & He & HA & HB). unfold verifyRelation, dlogDiff. by apply eqDlogEquations_accepts. Qed.

Lemma nextScalar_canonical g s g' : nextScalar g = Ok (s, g') → canonical s.
Proof.
  unfold nextScalar. intros (c & _ & (s' & Hs & [= <- _])%rbind_ok)%rbind_ok. unfold hashToScalar in Hs.
  apply rbind_ok in Hs as (h & _ & (h' & _ & Hs)%rbind_ok). unfold scalarFromBytesModOrder in Hs.
  apply rbind_ok in Hs as ([] & _ & <-%Ok_inj). apply scalarMod_canonical.
Qed.

(** A simulated relation: the commitments are computed from the answer. *)
Lemma simulateRelation_ok (pk : P) inCt outCt e g t1 t2 z g' :
  canonical e → simulateRelation pk inCt outCt e g = Ok ((t1, t2, z), g') → relation_ok pk inCt outCt t1 t2 z e.
Proof.
  intros He. unfold simulateRelation, dlogDiff.
  intros (zs & g1 & Hz & ([u v] & g2 & [Hs ->]%st_lift_ok & [[= -> -> ->] _]%st_ret_ok)%st_bind_ok)%st_bind_ok.
  apply nextScalar_canonical in Hz. unfold simulateEqDlogCommitments in Hs.
  apply rbind_ok in Hs as (zA & HzA & Hs). apply rbind_ok in Hs as (eX & HeX & Hs).
  apply rbind_ok in Hs as (zB & HzB & Hs). apply rbind_ok in Hs as (eY & HeY & [= <- <-]%Ok_inj).
  apply mulPoint_ok in HzA as [_ HzA], HeX as [_ HeX], HzB as [_ HzB], HeY as [_ HeY].
  split; [done|]. split; [done|]. unfold pointSub in *. by rewrite <-HzA, <-HzB, <-HeX, <-HeY, !subtract_add.
Qed.

(** A proved relation: the answer is computed from the randomness. *)
Lemma provedRelation_ok (pk : P) rho (src out : ElGamalCiphertext P) w e (g k : P) :
  reencrypts pk rho src out → canonical e → mulPoint basePoint w = Ok g → mulPoint pk w = Ok k →
  relation_ok pk src out g k (scalarAdd w (scalarMul e rho)) e.
Proof.
  intros [Hr1 Hr2] He Hg Hk. apply mulPoint_ok in Hg as [_ Hg], Hk as [_ Hk]. unfold basePoint in *.
  assert (HX : p_subtract (ct_c1 out) (ct_c1 src) ≡ zmul rho BASE) by (apply sub_unique; by rewrite Hr1, add_comm).
  assert (HY : p_subtract (ct_c2 out) (ct_c2 src) ≡ zmul rho pk) by (apply sub_unique; by rewrite Hr2, add_comm).
  split; [apply scalarAdd_canonical|]. split; [done|]. by rewrite HX, HY, !zmul_answer, Hg, Hk.
Qed.

(** ** Switches *)

Lemma scalarSub_sub e x : canonical x → scalarSub e (scalarSub e x) = x.
Proof.
  intros Hx. unfold scalarSub. rewrite !scalarMod_mod, Zminus_mod_idemp_r by done.
  replace (e - (e - x)) with x by lia. by apply Z.mod_small.
Qed.

(** The four relations of a switch proof, under its challenge. *)
Definition switch_ok (pk : P) (in0 in1 out0 out1 : ElGamalCiphertext P) (pf : SwitchProof P) (ctx : option bytes) : Prop :=
  ∃ e, switchChallenge pk in0 in1 out0 out1 pf.(sw_t1) pf.(sw_t2) ctx = Ok e ∧
    length pf.(sw_t1) = 4%nat ∧ length pf.(sw_t2) = 4%nat ∧ length pf.(sw_z) = 4%nat ∧
    let rel a b i e := relation_ok pk a b (rd ZERO pf.(sw_t1) i) (rd ZERO pf.(sw_t2) i) (rd 0 pf.(sw_z) i) e in
    rel in0 out0 0%nat pf.(sw_e0) ∧ rel in1 out1 1%nat pf.(sw_e0) ∧
    rel in1 out0 2%nat (scalarSub e pf.(sw_e0)) ∧ rel in0 out1 3%nat (scalarSub e pf.(sw_e0)).

Lemma proveSwitch_ok (pk : P) in0 in1 out0 out1 (sw : bool) rho0 rho1 ctx g pf g' :
  reencrypts pk rho0 (if sw then in1 else in0) out0 → reencrypts pk rho1 (if sw then in0 else in1) out1 →
  proveSwitch pk in0 in1 out0 out1 sw rho0 rho1 ctx g = Ok (pf, g') → switch_ok pk in0 in1 out0 out1 pf ctx.
Proof.
  intros Hr0 Hr1. unfold proveSwitch. intros (eS & g1 & HeS & Hk)%st_bind_ok. apply nextScalar_canonical in HeS.
  apply st_bind_ok in Hk as ([[t1a t2a] za] & g2 & Ha & Hk). apply st_bind_ok in Hk as ([[t1b t2b] zb] & g3 & Hb & Hk).
  apply simulateRelation_ok in Ha, Hb; [|done..].
  apply st_bind_ok in Hk as (w0 & g4 & _ & Hk). apply st_bind_ok in Hk as (w1 & g5 & _ & Hk).
  apply st_bind_ok in Hk as (g0 & g6 & [Hg0 ->]%st_lift_ok & Hk). apply st_bind_ok in Hk as (k0 & g7 & [Hk0 ->]%st_lift_ok & Hk).
  apply st_bind_ok in Hk as (gg1 & g8 & [Hg1 ->]%st_lift_ok & Hk). apply st_bind_ok in Hk as (k1 & g9 & [Hk1 ->]%st_lift_ok & Hk).
  apply st_bind_ok in Hk as (e & g10 & [He ->]%st_lift_ok & [-> _]%st_ret_ok). exists e.
  assert (Hc : canonical (scalarSub e eS)) by apply scalarMod_canonical.
  destruct sw; cbn [sw_t1 sw_t2 sw_z sw_e0]; (split; [exact He|]); do 3 (split; [done|]).
  - split; [exact Ha|]. split; [exact Hb|]. split; by apply provedRelation_ok.
  - rewrite scalarSub_sub by done. split; [by apply provedRelation_ok|]. split; [by apply provedRelation_ok|]. split; [exact Ha|exact Hb].
Qed.

Lemma encode_equiv (a b : P) : a ≡ b → groupElementToBytes a = groupElementToBytes b.
Proof. apply toRawBytes_Proper. Qed.
Lemma encode_all (l k : list P) : Forall2 (≡) l k → map groupElementToBytes l = map groupElementToBytes k.
Proof. induction 1 as [|a b l k E _ IH]; [done|]. cbn [map]. by rewrite (encode_equiv a b E), IH. Qed.

Lemma switchChallenge_equiv (pk : P) (in0 in0' in1 in1' out0 out0' out1 out1' : ElGamalCiphertext P) (t1 t1' t2 t2' : list P) ctx :
  in0 ≡ in0' → in1 ≡ in1' → out0 ≡ out0' → out1 ≡ out1' → Forall2 (≡) t1 t1' → Forall2 (≡) t2 t2' →
  switchChallenge pk in0 in1 out0 out1 t1 t2 ctx = switchChallenge pk in0' in1' out0' out1' t1' t2' ctx.
Proof.
  intros [E1 E2] [E3 E4] [E5 E6] [E7 E8] Ht1 Ht2. unfold switchChallenge, appendPoints.
  by rewrite (encode_equiv _ _ E1), (encode_equiv _ _ E2), (encode_equiv _ _ E3), (encode_equiv _ _ E4), (encode_equiv _ _ E5),
    (encode_equiv _ _ E6), (encode_equiv _ _ E7), (encode_equiv _ _ E8), (encode_all _ _ Ht1), (encode_all _ _ Ht2).
Qed.

(** What the verifier reads of a switch proof. *)
Definition same_switch (a b : SwitchProof P) : Prop :=
  a.(sw_e0) = b.(sw_e0) ∧ Forall2 (≡) a.(sw_t1) b.(sw_t1) ∧ Forall2 (≡) a.(sw_t2) b.(sw_t2) ∧ a.(sw_z) = b.(sw_z).

Lemma Forall2_rd (l k : list P) i : Forall2 (≡) l k → rd ZERO l i ≡ rd ZERO k i.
Proof.
  intros Hf. unfold rd. destruct (l !! i) as [x|] eqn:E.
  - destruct (Forall2_lookup_l _ _ _ _ _ Hf E) as (y & -> & Hxy). done.
  - apply lookup_ge_None in E. rewrite (Forall2_length _ _ _ Hf) in E. by apply lookup_ge_None in E as ->.
Qed.

Lemma verifySwitch_accepts (pk : P) (in0 in0' in1 in1' out0 out0' out1 out1' : ElGamalCiphertext P) pf pf' ctx :
  switch_ok pk in0 in1 out0 out1 pf ctx → same_switch pf' pf →
  in0' ≡ in0 → in1' ≡ in1 → out0' ≡ out0 → out1' ≡ out1 →
  Forall (λ a, pointEq out0.(ct_c1) a = false) [in0.(ct_c1); in1.(ct_c1)] →
  Forall (λ a, pointEq out1.(ct_c1) a = false) [in0.(ct_c1); in1.(ct_c1)] →
  accepts (verifySwitch pk in0' in1' out0' out1' pf' ctx).
Proof.
  intros (e & He & _ & _ & _ & R0 & R1 & R2 & R3) (Ee & E1 & E2 & Ez) EA EB EC ED HF0 HF1. unfold verifySwitch.
  assert (Hne : ∀ a b a' b' : ElGamalCiphertext P, a' ≡ a → b' ≡ b → pointEq a.(ct_c1) b.(ct_c1) = false → pointEq a'.(ct_c1) b'.(ct_c1) = false).
  { intros a b a' b' [Eq1 _] [Eq2 _]. rewrite <-!not_true_iff_false, !pointEq_spec. by rewrite Eq1, Eq2. }
  rewrite !Forall_cons in HF0, HF1. destruct HF0 as (F1 & F2 & _), HF1 as (F3 & F4 & _).
  rewrite (Hne out0 in0), (Hne out0 in1), (Hne out1 in0), (Hne out1 in1) by done. cbn [orb].
  rewrite (switchChallenge_equiv pk in0' in0 in1' in1 out0' out0 out1' out1 _ pf.(sw_t1) _ pf.(sw_t2)), He by done. cbn [rbind].
  unfold switchEquations. rewrite Ee. cbv zeta.
  assert (Hrel : ∀ (a b a' b' : ElGamalCiphertext P) i c,
    relation_ok pk a b (rd ZERO (sw_t1 pf) i) (rd ZERO (sw_t2 pf) i) (rd 0 (sw_z pf) i) c → a' ≡ a → b' ≡ b →
    accepts (verifyRelation pk a' b' pf' i c)).
  { intros a b a' b' i c HR Ha Hb. apply verifyRelation_accepts. rewrite Ez.
    eapply relation_transfer; [by symmetry|by symmetry|symmetry; by apply Forall2_rd|symmetry; by apply Forall2_rd|exact HR]. }
  apply accepts_and; [|apply accepts_and; [|apply accepts_and]]; eapply Hrel; eassumption.
Qed.

Lemma takeRelation_ok pf i bs :
  encodeRelation pf i = Ok bs →
  parses takeRelation bs (λ r, r.1.1 ≡ rd ZERO pf.(sw_t1) i ∧ r.1.2 ≡ rd ZERO pf.(sw_t2) i ∧ r.2 = rd 0 pf.(sw_z) i).
Proof.
  unfold encodeRelation, concatBytes. intros (z & Hz & <-%Ok_inj)%rbind_ok. cbn [concat]. rewrite app_nil_r. unfold takeRelation.
  eapply parses_bind; [apply takePoint_ok|]. intros t1 Ht1. eapply parses_bind; [apply takePoint_ok|]. intros t2 Ht2.
  eapply parses_bind_r; [by apply takeScalar_ok|]. intros z' [-> _]. by apply parses_ret.
Qed.

Lemma decodeSwitchProof_ok pf bs :
  length pf.(sw_t1) = 4%nat → length pf.(sw_t2) = 4%nat → length pf.(sw_z) = 4%nat → encodeSwitchProof pf = Ok bs →
  parses decodeSwitchProofFromReader bs (λ pf', same_switch pf' pf).
Proof.
  intros L1 L2 L3. unfold encodeSwitchProof, concatBytes. intros (e0 & He & (rels & Hr & <-%Ok_inj)%rbind_ok)%rbind_ok.
  apply mapR_Forall2 in Hr. repeat match goal with Hr : Forall2 _ _ ?r |- _ => inversion Hr; clear Hr; subst end.
  cbn [concat]. rewrite app_nil_r. unfold decodeSwitchProofFromReader.
  eapply parses_bind; [by apply takeScalar_ok|]. intros e' [-> _].
  eapply parses_bind; [by apply takeRelation_ok|]. intros [[a0 b0] z0] R0.
  eapply parses_bind; [by apply takeRelation_ok|]. intros [[a1 b1] z1] R1.
  eapply parses_bind; [by apply takeRelation_ok|]. intros [[a2 b2] z2] R2.
  eapply parses_bind_r; [by apply takeRelation_ok|]. intros [[a3 b3] z3] R3. apply parses_ret.
  destruct pf as [e t1 t2 z]. cbn [sw_e0 sw_t1 sw_t2 sw_z] in *.
  destruct t1 as [|? [|? [|? [|? [|]]]]]; try done. destruct t2 as [|? [|? [|? [|? [|]]]]]; try done.
  destruct z as [|? [|? [|? [|? [|]]]]]; try done. unfold rd in *. simpl in *.
  destruct R0 as (?&?&?), R1 as (?&?&?), R2 as (?&?&?), R3 as (?&?&?).
  split; [done|]. split; [by repeat constructor|]. split; [by repeat constructor|]. cbn. congruence.
Qed.

Lemma parses_check (c : res bool) e :
  accepts c → parses (do! ok := st_lift c in st_lift (throw_if (negb ok) e)) [] (λ _, True).
Proof.
  intros [->| ->]; [|by intros pre rest]. apply (parses_bind_l _ _ _ (λ b, b = true)); [by apply parses_lift|].
  intros b ->. by apply parses_guard.
Qed.

(** ** Pairs *)

Lemma provePair_verifies fuel pk ctx items next i j g next' enc g' :
  provePair fuel pk ctx items next (i, j) g = Ok ((next', enc), g') →
  i ≠ j → (i < length next)%nat → (j < length next)%nat →
  ∀ cur nxt, ct_at cur i ≡ (item_at items i).1 → ct_at cur j ≡ (item_at items j).1 →
    ct_at nxt i ≡ (item_at next' i).1 → ct_at nxt j ≡ (item_at next' j).1 →
    parses (verifyPair pk ctx cur nxt (i, j)) enc (λ _, True).
Proof.
  unfold provePair. intros Hk Hne Hi Hj. cbv zeta in Hk. set (sw := (_ <? _)%nat) in Hk.
  apply st_bind_ok in Hk as ([o0 r0] & g1 & Hp0 & Hk). apply st_bind_ok in Hk as ([o1 r1] & g2 & Hp1 & Hk).
  apply st_bind_ok in Hk as (sp & g3 & Hsp & Hk). apply st_bind_ok in Hk as (e & g4 & [He ->]%st_lift_ok & Hk).
  apply st_ret_ok in Hk as [[= -> ->] _].
  apply reencryptAvoiding_ok in Hp0 as (_ & Hp0 & Ha0). apply reencryptAvoiding_ok in Hp1 as (_ & Hp1 & Ha1).
  apply (proveSwitch_ok pk _ _ o0 o1 sw r0 r1) in Hsp; [|done..].
  intros cur nxt Hci Hcj. rewrite !item_at_insert by by rewrite ?length_insert.
  rewrite (decide_False (P := j = i)), !decide_True by congruence. cbn [fst]. intros Hni Hnj.
  destruct (id Hsp) as (? & _ & L1 & L2 & L3 & _). unfold verifyPair.
  eapply parses_bind_r; [by apply decodeSwitchProof_ok|]. intros pf' Hpf'.
  apply parses_check.
  by apply (verifySwitch_accepts pk (item_at items i).1 (ct_at cur i) (item_at items j).1 (ct_at cur j) o0 (ct_at nxt i) o1 (ct_at nxt j) sp).
Qed.

(** ** Single positions *)

Lemma eqDlogChallenge_equiv d (A B X X' Y Y' t1 t1' t2 t2' : P) ctx :
  X ≡ X' → Y ≡ Y' → t1 ≡ t1' → t2 ≡ t2' → eqDlogChallenge d A B X Y t1 t2 ctx = eqDlogChallenge d A B X' Y' t1' t2' ctx.
Proof.
  intros E1 E2 E3 E4. unfold eqDlogChallenge.
  by rewrite (encode_equiv _ _ E1), (encode_equiv _ _ E2), (encode_equiv _ _ E3), (encode_equiv _ _ E4).
Qed.

Lemma challengeScalar_canonical h l e h' : challengeScalar h l = Ok (e, h') → canonical e.
Proof.
  unfold challengeScalar. intros (c & _ & (h1 & _ & (h2 & _ & (e' & He & [= <- _]%Ok_inj)%rbind_ok)%rbind_ok)%rbind_ok)%rbind_ok.
  unfold scalarFromBytesModOrder in He. apply rbind_ok in He as ([] & _ & <-%Ok_inj). apply scalarMod_canonical.
Qed.

Lemma eqDlogChallenge_canonical d (A B X Y t1 t2 : P) ctx e :
  eqDlogChallenge d A B X Y t1 t2 ctx = Ok e → canonical e.
Proof.
  unfold eqDlogChallenge. intros Hk. do 8 (apply rbind_ok in Hk as (? & _ & Hk)). apply rbind_ok in Hk as ([e' h] & He & <-%Ok_inj).
  by eapply challengeScalar_canonical.
Qed.

Lemma takeEqDlog_ok (p : EqDlogProof P) bs :
  encodeEqDlogProof p = Ok bs →
  parses decodeEqDlogProofFromReader bs (λ p', p'.(eq_t1) ≡ p.(eq_t1) ∧ p'.(eq_t2) ≡ p.(eq_t2) ∧ p'.(eq_z) = p.(eq_z)).
Proof.
  unfold encodeEqDlogProof, concatBytes. intros (z & Hz & <-%Ok_inj)%rbind_ok. cbn [concat]. rewrite app_nil_r.
  unfold decodeEqDlogProofFromReader.
  eapply parses_bind; [apply takePoint_ok|]. intros t1 Ht1. eapply parses_bind; [apply takePoint_ok|]. intros t2 Ht2.
  eapply parses_bind_r; [by apply takeScalar_ok|]. intros z' [-> _]. by apply parses_ret.
Qed.

(** A re-encryption with a scalar in range changes the first component. *)
Lemma reencrypts_moves (pk : P) rho (a b : ElGamalCiphertext P) :
  nonzero rho → reencrypts pk rho a b → ¬ b.(ct_c1) ≡ a.(ct_c1).
Proof.
  intros Hr [Hb _] E. apply (base_order rho Hr). rewrite times_mod by (unfold nonzero in Hr; lia).
  apply (add_cancel_l _ _ (ct_c1 a)). by rewrite <-Hb, E, add_comm, add_zero.
Qed.

Lemma proveSingle_verifies fuel pk ctx items next idx g next' enc g' :
  proveSingle fuel pk ctx items next idx g = Ok ((next', enc), g') → (idx < length next)%nat →
  ∀ cur nxt, ct_at cur idx ≡ (item_at items idx).1 → ct_at nxt idx ≡ (item_at next' idx).1 →
    parses (verifySingle pk ctx cur nxt idx) enc (λ _, True).
Proof.
  unfold proveSingle. intros Hk Hi. apply st_bind_ok in Hk as (rho & g1 & _ & Hk).
  apply st_bind_ok in Hk as (out & g2 & [Ho ->]%st_lift_ok & Hk). apply elgamalReencrypt_ok in Ho as [Hrho Hre].
  unfold dlogDiff in Hk. apply st_bind_ok in Hk as (p & g3 & Hp & Hk). apply st_bind_ok in Hk as (en & g4 & [He ->]%st_lift_ok & Hk).
  apply st_ret_ok in Hk as [[= -> ->] _]. intros cur nxt Hc. rewrite item_at_insert, decide_True by done. cbn [fst]. intros Hn.
  unfold verifySingle. eapply parses_bind_r; [by apply takeEqDlog_ok|]. intros p' (E1 & E2 & Ez).
  eapply parses_bind_l. { apply parses_guard. apply not_true_iff_false. rewrite pointEq_spec. destruct Hc as [-> _], Hn as [-> _].
    by eapply reencrypts_moves. }
  intros _ _. unfold dlogDiff. unfold proveEqDlog in Hp. apply st_bind_ok in Hp as (w & g5 & _ & Hp).
  apply st_bind_ok in Hp as (t1 & g6 & [Ht1 ->]%st_lift_ok & Hp). apply st_bind_ok in Hp as (t2 & g7 & [Ht2 ->]%st_lift_ok & Hp).
  apply st_bind_ok in Hp as (e & g8 & [Hch ->]%st_lift_ok & [-> _]%st_ret_ok). cbn [eq_t1 eq_t2 eq_z] in *.
  assert (Hec := eqDlogChallenge_canonical _ _ _ _ _ _ _ _ _ Hch).
  assert (Hrel := provedRelation_ok pk rho _ out w e t1 t2 Hre Hec Ht1 Ht2).
  assert (Hacc : accepts (verifyEqDlog DOMAIN_REENC basePoint pk (pointSub (ct_c1 (ct_at nxt idx)) (ct_c1 (ct_at cur idx)))
    (pointSub (ct_c2 (ct_at nxt idx)) (ct_c2 (ct_at cur idx))) p' ctx)).
  { unfold verifyEqDlog. destruct (id Hc) as [Ec1 Ec2], (id Hn) as [En1 En2]. unfold pointSub in *.
    rewrite (eqDlogChallenge_equiv _ _ _ _ (p_subtract (ct_c1 out) (ct_c1 (item_at items idx).1)) _
      (p_subtract (ct_c2 out) (ct_c2 (item_at items idx).1)) _ t1 _ t2), Hch by (done || by rewrite ?Ec1, ?Ec2, ?En1, ?En2).
    cbn [rbind]. rewrite Ez. assert (Ht : relation_ok pk (ct_at cur idx) (ct_at nxt idx) (eq_t1 p') (eq_t2 p') (scalarAdd w (scalarMul e rho)) e)
      by (eapply relation_transfer; [..|exact Hrel]; by symmetry).
    destruct Ht as (? & ? & ? & ?). by apply eqDlogEquations_accepts. }
  by apply parses_check.
Qed.

(** ** Rounds *)

(** The verifier's deck holds the prover's cards. *)
Definition agree (cur : list (ElGamalCiphertext P)) (items : list (ElGamalCiphertext P * nat)) : Prop :=
  length cur = length items ∧ ∀ k, ct_at cur k ≡ (item_at items k).1.

Lemma pairs_verify fuel pk ctx (items : list (ElGamalCiphertext P * nat)) l next g next' encs g' cur nxt :
  proveAll (provePair fuel pk ctx items) next l g = Ok ((next', encs), g') →
  NoDup (flatten l) → (∀ k, k ∈ flatten l → (k < length next)%nat ∧ item_at next k = item_at items k) →
  (∀ k, ct_at cur k ≡ (item_at items k).1) → (∀ k, k ∈ flatten l → ct_at nxt k ≡ (item_at next' k).1) →
  parses (verifyAll (verifyPair pk ctx cur nxt) l) (concat encs) (λ _, True).
Proof.
  revert next g encs. induction l as [|[i j] l IH]; intros next g encs; cbn [proveAll verifyAll].
  - intros [[= -> ->] _]%st_ret_ok _ _ _ _. by apply parses_ret.
  - intros ([n1 e1] & g1 & Hs1 & ([n2 e2] & g2 & Hs2 & [[= -> ->] ->]%st_ret_ok)%st_bind_ok)%st_bind_ok Hnd Hk Hc Hx.
    cbn [flatten flat_map fst snd app] in Hnd, Hk, Hx. fold (flatten l) in Hnd, Hk, Hx.
    apply NoDup_cons in Hnd as [Hi Hnd]. apply NoDup_cons in Hnd as [Hj Hnd]. rewrite not_elem_of_cons in Hi. destruct Hi as [Hij Hi].
    destruct (Hk i) as [Li Ei]; [apply list_elem_of_here|]. destruct (Hk j) as [Lj Ej]; [apply list_elem_of_further, list_elem_of_here|].
    destruct (provePair_ok _ _ _ _ _ _ _ _ _ _ _ Hs1 Hij Li Lj Ei Ej) as (Hl1 & _ & Hframe).
    assert (Hk1 : ∀ k, k ∈ flatten l → (k < length n1)%nat ∧ item_at n1 k = item_at items k).
    { intros k Hkl. rewrite Hl1, Hframe by (intros ->; done). apply Hk. by do 2 apply list_elem_of_further. }
    destruct (proveAll_pairs _ _ _ _ _ _ _ _ _ _ Hs2 Hnd Hk1) as (_ & _ & Hframe2). cbn [concat].
    eapply parses_bind.
    + eapply provePair_verifies; [exact Hs1|done|done|done|apply Hc|apply Hc|..];
        rewrite <-Hframe2 by done; apply Hx; [apply list_elem_of_here|apply list_elem_of_further, list_elem_of_here].
    + intros _ _. eapply (IH n1); [exact Hs2|done|done|done|]. intros k Hkl. apply Hx. by do 2 apply list_elem_of_further.
Qed.

Lemma singles_verify fuel pk ctx (items : list (ElGamalCiphertext P * nat)) l next g next' encs g' cur nxt :
  proveAll (proveSingle fuel pk ctx items) next l g = Ok ((next', encs), g') →
  NoDup l → (∀ k, k ∈ l → (k < length next)%nat) →
  (∀ k, ct_at cur k ≡ (item_at items k).1) → (∀ k, k ∈ l → ct_at nxt k ≡ (item_at next' k).1) →
  parses (verifyAll (verifySingle pk ctx cur nxt) l) (concat encs) (λ _, True) ∧
  length next' = length next ∧ ∀ k, k ∉ l → item_at next' k = item_at next k.
Proof.
  revert next g encs. induction l as [|i l IH]; intros next g encs; cbn [proveAll verifyAll].
  - intros [[= -> ->] _]%st_ret_ok _ _ _ _. split; [by apply parses_ret|done].
  - intros ([n1 e1] & g1 & Hs1 & ([n2 e2] & g2 & Hs2 & [[= -> ->] ->]%st_ret_ok)%st_bind_ok)%st_bind_ok Hnd Hk Hc Hx.
    apply NoDup_cons in Hnd as [Hi Hnd]. assert (Li : (i < length next)%nat) by apply Hk, list_elem_of_here.
    assert (Hn1 : ∃ v, n1 = <[i := v]> next).
    { unfold proveSingle in Hs1. apply st_bind_ok in Hs1 as (rho & g3 & _ & Hs1). apply st_bind_ok in Hs1 as (out & g4 & _ & Hs1).
      unfold dlogDiff in Hs1. apply st_bind_ok in Hs1 as (p & g5 & _ & Hs1). apply st_bind_ok in Hs1 as (en & g6 & _ & Hs1).
      apply st_ret_ok in Hs1 as [[= -> _] _]. by eexists. }
    destruct Hn1 as [v ->]. destruct (IH _ _ _ Hs2 Hnd) as (Hp & Hl & Hframe).
    { intros k Hkl. rewrite length_insert. apply Hk. by apply list_elem_of_further. }
    { done. }
    { intros k Hkl. apply Hx. by apply list_elem_of_further. }
    rewrite length_insert in Hl. cbn [concat]. split; [|split; [done|]].
    + eapply parses_bind; [|intros _ _; exact Hp]. eapply proveSingle_verifies; [exact Hs1|done|apply Hc|].
      rewrite <-Hframe by done. apply Hx, list_elem_of_here.
    + intros k. rewrite not_elem_of_cons. intros [? ?]. by rewrite Hframe, item_at_insert, decide_False by (done || congruence).
Qed.

Lemma slice_concat (l : list bytes) w i x :
  Forall (λ b, length b = w) l → l !! i = Some x → slice (concat l) (i * w) (i * w + w) = x.
Proof.
  unfold slice. replace (i * w + w - i * w)%nat with w by lia. intros Hf. revert i.
  induction Hf as [|b l Hb _ IH]; intros i; [done|]. destruct i as [|i]; cbn [concat].
  - intros [= ->]. rewrite Nat.mul_0_l, drop_0. by apply take_app_length'.
  - intros Hi. etransitivity; [|exact (IH i Hi)]. replace (S i * w)%nat with (length b + i * w)%nat by lia.
    by rewrite <-drop_drop, drop_app_length.
Qed.

Lemma length_concat (l : list bytes) w : Forall (λ b, length b = w) l → length (concat l) = (length l * w)%nat.
Proof. induction 1 as [|b l Hb _ IH]; [done|]. cbn [concat length]. rewrite length_app, IH, Hb. lia. Qed.

Definition snapshot (items : list (ElGamalCiphertext P * nat)) : bytes := concat (map (λ it, encodeCiphertext it.1) items).

Lemma snapshot_widths (items : list (ElGamalCiphertext P * nat)) :
  Forall (λ b, length b = 64%nat) (map (λ it, encodeCiphertext it.1) items).
Proof. apply Forall_map, Forall_true. intros it. apply decodeCiphertext_ok. Qed.

Lemma decodeDeck_ok (items : list (ElGamalCiphertext P * nat)) :
  ∃ deck, decodeDeck (length items) (snapshot items) = Ok deck ∧ agree deck items.
Proof.
  unfold decodeDeck, snapshot.
  destruct (mapR_total (λ i, decodeCiphertext (slice (concat (map (λ it, encodeCiphertext it.1) items)) (i * 64) (i * 64 + 64)))
    (λ i ct, ct ≡ (item_at items i).1) (seq 0 (length items))) as (deck & Hd & Hf).
  { apply Forall_seq. intros i [_ Hi]. cbn [Nat.add] in Hi. destruct (lookup_lt_is_Some_2 items i Hi) as [it Hit].
    rewrite (slice_concat _ 64 i (encodeCiphertext it.1)) by (apply snapshot_widths || by rewrite list_lookup_fmap, Hit).
    unfold item_at. rewrite (rd_lookup _ items i it Hit). apply decodeCiphertext_ok. }
  exists deck. split; [exact Hd|]. assert (Hl := Forall2_length _ _ _ Hf). rewrite length_seq in Hl. split; [done|]. intros k.
  destruct (decide (k < length items)%nat) as [Hk|Hk].
  - destruct (lookup_lt_is_Some_2 deck k ltac:(lia)) as [c Hc]. destruct (Forall2_lookup_r _ _ _ _ _ Hf Hc) as (i & Hi & Hci).
    apply lookup_seq in Hi as [-> _]. unfold ct_at. by rewrite (rd_lookup _ deck k c Hc).
  - unfold ct_at, item_at, rd. by rewrite !lookup_ge_None_2 by lia.
Qed.

Lemma proveRound_verifies fuel pk ctx (items : list (ElGamalCiphertext P * nat)) round g next chunks g' cur :
  (2 <= length items)%nat → proveRound fuel pk ctx items round g = Ok ((next, chunks), g') → agree cur items →
  parses (verifyRound pk ctx (length items) round cur) (concat chunks) (λ nxt, agree nxt next) ∧ length next = length items.
Proof.
  intros Hn Hr [_ Hc]. unfold proveRound in Hr.
  destruct (roundPairs_eq (length items) round Hn) as [Hfl Hsg]. cbv zeta in Hfl, Hsg.
  assert (Hv := roundPairs_partition (length items) round Hn).
  set (start := (round mod 2)%nat) in *. set (m := ((length items - start) / 2)%nat) in *.
  assert (Hst : (start < 2)%nat) by by apply Nat.mod_upper_bound. pose proof (Nat.div_mod_eq (length items - start) 2) as Hd. fold m in Hd.
  destruct (roundPairs (length items) round) as [pairs singles]. cbn [fst snd] in *. destruct Hv as (_ & _ & Hvp & Hvs).
  apply st_bind_ok in Hr as ([n1 e1] & g1 & Hs1 & Hr). apply st_bind_ok in Hr as ([n2 e2] & g2 & Hs2 & Hr).
  apply st_ret_ok in Hr as [[= -> ->] _].
  assert (Hnd1 : NoDup (flatten pairs)) by (rewrite Hfl; apply NoDup_seq).
  assert (Hk1 : ∀ k, k ∈ flatten pairs → (k < length items)%nat ∧ item_at items k = item_at items k).
  { intros k. rewrite Hfl, elem_of_seq. intros Hk. split; [lia|done]. }
  assert (Hnd2 : NoDup singles).
  { rewrite Hsg. apply NoDup_app. split; [apply NoDup_seq|]. split; [|apply NoDup_seq]. intros x. rewrite !elem_of_seq. lia. }
  destruct (proveAll_pairs _ _ _ _ _ _ _ _ _ _ Hs1 Hnd1 Hk1) as (Hl1 & _ & _).
  assert (Hk2 : ∀ k, k ∈ singles → (k < length n1)%nat) by (intros k; rewrite Hl1, Hsg, elem_of_app, !elem_of_seq; lia).
  assert (Hln : length n2 = length items).
  { destruct (singles_verify _ _ _ _ _ _ _ _ _ _ cur (map fst n2) Hs2 Hnd2 Hk2 Hc) as (_ & Hl2 & _); [|lia].
    intros k _. unfold ct_at, item_at, rd. rewrite list_lookup_fmap. by destruct (n2 !! k). }
  split; [|done]. unfold verifyRound. cbn [concat]. rewrite concat_app. fold (snapshot n2).
  eapply parses_bind; [apply parses_take; unfold snapshot; by rewrite (length_concat _ 64 (snapshot_widths n2)), length_map, Hln|]. intros db ->.
  eapply (parses_bind_l _ _ _ (λ d, agree d n2)).
  { apply parses_lift. destruct (decodeDeck_ok n2) as (d & Hd2 & Ha). rewrite Hln in Hd2. by rewrite Hd2. }
  intros nxt [Hlx Hx]. destruct (singles_verify _ _ _ _ _ _ _ _ _ _ cur nxt Hs2 Hnd2 Hk2 Hc) as (Hps & _ & Hframe); [by intros k _|].
  rewrite <-Hvp, <-Hvs. eapply parses_bind; [|intros _ _; eapply parses_bind_r; [exact Hps|intros _ _; by apply parses_ret]].
  eapply pairs_verify; [exact Hs1|done|done|done|]. intros k Hk. rewrite <-Hframe; [apply Hx|].
  revert Hk. rewrite Hfl, Hsg, elem_of_app, !elem_of_seq. lia.
Qed.

Lemma proveRounds_verifies fuel pk ctx rounds round (items : list (ElGamalCiphertext P * nat)) g out chunks g' cur :
  (2 <= length items)%nat → proveRounds fuel pk ctx rounds round items g = Ok ((out, chunks), g') → agree cur items →
  parses (verifyRounds pk ctx (length items) rounds round cur) (concat chunks) (λ nxt, agree nxt out).
Proof.
  revert round items g chunks cur. induction rounds as [|k IH]; intros round items g chunks cur Hn; cbn [proveRounds verifyRounds].
  - intros [[= -> ->] _]%st_ret_ok Hc. by apply parses_ret.
  - intros ([n1 e1] & g1 & Hs1 & ([n2 e2] & g2 & Hs2 & [[= -> ->] ->]%st_ret_ok)%st_bind_ok)%st_bind_ok Hc.
    destruct (proveRound_verifies _ _ _ _ _ _ _ _ _ cur Hn Hs1 Hc) as [Hp Hl]. rewrite concat_app.
    eapply parses_bind; [exact Hp|]. intros nxt Hx. rewrite <-Hl. by eapply IH; [rewrite Hl|exact Hs2|].
Qed.

(** ** The header *)

Lemma u16_roundtrip x b :
  u16ToBytesLE (Int x) = Ok b → length b = 2%nat ∧ u16FromBytesLE b = Ok x ∧ 0 <= x <= 65535.
Proof.
  unfold u16ToBytesLE. intros ([] & Hx%throw_if_ok & <-%Ok_inj)%rbind_ok. b2p. split; [done|]. split; [|lia].
  cbn [u16FromBytesLE]. f_equal. change 255 with (Z.ones 8). rewrite !Z.land_ones, Z.shiftr_div_pow2, Z.shiftl_mul_pow2 by done.
  apply Z.bits_inj'. intros n Hbit. rewrite Z.lor_spec. assert (Hhi : (x / 2 ^ 8) mod 2 ^ 8 = x / 2 ^ 8).
  { apply Z.mod_small. split; [apply Z.div_pos; lia|apply Z.div_lt_upper_bound; lia]. }
  rewrite Hhi. destruct (decide (n < 8)) as [Hn|Hn].
  - rewrite Z.mod_pow2_bits_low, Z.mul_pow2_bits_low by lia. by rewrite orb_false_r.
  - rewrite Z.mod_pow2_bits_high, Z.mul_pow2_bits, Z.div_pow2_bits by lia. cbn [orb]. f_equal. lia.
Qed.

Lemma takeU16LE_ok x b : u16ToBytesLE (Int x) = Ok b → parses takeU16LE b (λ y, y = x).
Proof.
  intros (Hl & Hf & _)%u16_roundtrip. unfold takeU16LE. eapply parses_bind_r; [by apply parses_take|]. intros b' ->.
  apply parses_lift. by rewrite Hf.
Qed.

Lemma takeU8_ok v : parses takeU8 [v] (λ y, y = v).
Proof. unfold takeU8. eapply parses_bind_r; [by apply (parses_take 1)|]. intros b ->. by apply parses_ret. Qed.

Lemma loop_refl (c : bytes) : forallb (λ i, rd 0 c i =? rd 0 c i) (seq 0 (length c)) = true.
Proof. apply forallb_forall. intros i _. apply Z.eqb_refl. Qed.

(** The header read back, and the checks on it. *)
Lemma header_ok n rounds ctx header (k : option bytes → Z → Z → St Reader (list (ElGamalCiphertext P))) ch Q :
  proofHeader n rounds ctx = Ok header → match ctx with Some c => c ≠ [] | None => True end →
  parses (k ctx n rounds) ch Q →
  parses (do! version := takeU8 in
          do! c := st_lift (versionContext version ctx) in
          do! n := takeU16LE in
          do! rounds := takeU16LE in
          do! _ := checkContext c in k c n rounds) (header ++ ch) Q.
Proof.
  unfold proofHeader, concatBytes. intros Hh Hne Hk. destruct ctx as [c|].
  - apply rbind_ok in Hh as ([] & Hlen & Hh). apply rbind_ok in Hh as (nb & Hnb & Hh). apply rbind_ok in Hh as (rb & Hrb & Hh).
    apply rbind_ok in Hh as (cb & Hcb & <-%Ok_inj). cbn [concat]. rewrite app_nil_r, <-!app_assoc.
    eapply parses_bind; [apply takeU8_ok|]. intros v ->. apply (parses_bind_l _ _ _ (λ x, x = Some c)).
    { apply parses_lift. cbn. by destruct c. }
    intros x ->. eapply parses_bind; [by apply takeU16LE_ok|]. intros n' ->. eapply parses_bind; [by apply takeU16LE_ok|]. intros r' ->.
    rewrite (app_assoc cb). apply (parses_bind _ _ _ _ (λ _, True)); [|by intros _ _]. unfold checkContext.
    eapply parses_bind; [by apply takeU16LE_ok|]. intros l ->.
    eapply parses_bind_r; [apply parses_take; by rewrite Nat2Z.id|]. intros c' ->.
    apply (parses_bind_l _ _ _ (λ _, True)); [apply parses_guard; by rewrite Nat.eqb_refl|]. intros _ _. apply parses_guard.
    by rewrite loop_refl.
  - apply rbind_ok in Hh as (nb & Hnb & Hh). apply rbind_ok in Hh as (rb & Hrb & <-%Ok_inj). cbn [concat]. rewrite app_nil_r, <-!app_assoc.
    eapply parses_bind; [apply takeU8_ok|]. intros v ->. apply (parses_bind_l _ _ _ (λ x, x = None)); [by apply parses_lift|].
    intros x ->. eapply parses_bind; [by apply takeU16LE_ok|]. intros n' ->. eapply parses_bind; [by apply takeU16LE_ok|]. intros r' ->.
    apply (parses_bind_l _ _ _ (λ _, True)); [by apply parses_ret|]. by intros _ _.
Qed.

Lemma agree_zip (deck : list (ElGamalCiphertext P)) (perm : list nat) : length perm = length deck → agree deck (zip deck perm).
Proof.
  intros Hl. split; [rewrite length_zip_with; lia|]. intros k. unfold ct_at, item_at, rd.
  destruct (decide (k < length deck)%nat) as [Hk|Hk].
  - destruct (lookup_lt_is_Some_2 deck k Hk) as [c Hc], (lookup_lt_is_Some_2 perm k ltac:(lia)) as [q Hq].
    rewrite Hc, (proj2 (lookup_zip_with_Some pair deck perm k (c, q))); [done|]. by exists c, q.
  - by rewrite !lookup_ge_None_2 by (rewrite ?length_zip_with; lia).
Qed.

(** C19. Completeness of the verifiable shuffle: the verifier, given the deck
    that went in, the context and the bytes that [shuffleProveV1] returned,
    reads all of them and returns the prover's output deck, card by card equal
    as points.  The only other outcome is that some scalar of the proof was
    zero, which makes [multiply] throw. *)
Theorem shuffle_complete fuel testHook random32 pk deckIn opts deckOut proof :
  shuffleProveV1 fuel testHook random32 pk deckIn opts = Ok (deckOut, proof) →
  match shuffleVerifyV1 pk deckIn proof opts.(o_context) with
  | VOk deck => Forall2 (≡) deck deckOut
  | VFail e => e = INVALID_SCALAR
  end.
Proof.
  unfold shuffleProveV1. cbv zeta. intros ([] & Hn & Hk)%rbind_ok. apply throw_if_ok in Hn. b2p.
  apply rbind_ok in Hk as (rounds & Hrounds & Hk). apply rbind_ok in Hk as (sd & _ & Hk). apply rbind_ok in Hk as (g0 & _ & Hk).
  apply rbind_ok in Hk as ([] & Hctx%throw_if_ok & Hk). apply rbind_ok in Hk as ([perm g1] & Hperm & Hk). apply rbind_ok in Hk as (hdr & Hhdr & Hk).
  apply rbind_ok in Hk as ([[out chunks] g2] & Hout & Hk). apply Ok_inj in Hk. cbn [fst snd] in Hk. injection Hk as <- <-.
  assert (Hpm : perm ≡ₚ seq 0 (length deckIn)) by (eapply permLoop_perm; [|exact Hperm]; rewrite length_seq; lia).
  assert (Hlp : length perm = length deckIn) by by rewrite (Permutation_length Hpm), length_seq.
  assert (Hr0 : 0 < rounds).
  { destruct (default _ _); [|done]. destruct (_ <=? 0) eqn:E; [done|]. apply Ok_inj in Hrounds as <-. b2p. lia. }
  assert (Hlz : length (zip deckIn perm) = length deckIn) by (rewrite length_zip_with; lia).
  assert (Hrounds' := proveRounds_verifies _ _ _ _ _ _ _ _ _ _ deckIn ltac:(rewrite Hlz; lia) Hout (agree_zip deckIn perm Hlp)).
  rewrite Hlz in Hrounds'.
  assert (Hbody : parses (shuffleVerify_body pk deckIn opts.(o_context)) (hdr ++ concat chunks) (λ nxt, agree nxt out)).
  { unfold shuffleVerify_body. eapply (header_ok _ _ _ _ (λ ctx n rounds,
      do! _ := st_lift (throw_if (negb (n =? Z.of_nat (length deckIn))) "n mismatch"%string) in
      do! _ := st_lift (throw_if (n <? 2) "deck too small"%string) in
      do! _ := st_lift (throw_if (rounds <=? 0) "rounds must be > 0"%string) in
      verifyRounds pk ctx (Z.to_nat n) (Z.to_nat rounds) 0 deckIn)); [exact Hhdr| |].
    { destruct (o_context opts) as [c|]; [|done]. by intros ->. }
    eapply parses_bind_l; [apply parses_guard; by rewrite Z.eqb_refl|intros _ _].
    eapply parses_bind_l; [apply parses_guard, Z.ltb_ge; lia|intros _ _].
    eapply parses_bind_l; [apply parses_guard, Z.leb_gt; lia|intros _ _]. by rewrite Nat2Z.id. }
  specialize (Hbody [] []). rewrite app_nil_r in Hbody. cbn [app length Nat.add] in Hbody. unfold shuffleVerifyV1, concatBytes. cbn [concat].
  destruct (shuffleVerify_body _ _ _ _) as [[deck r]|e]; [|done]. destruct Hbody as [-> [Hl Ha]]. unfold reader_done. cbn [rd_off rd_bytes].
  rewrite Nat.eqb_refl. cbn [negb]. apply Forall2_same_length_lookup. split; [by rewrite length_map|]. intros i x y Hx Hy.
  rewrite list_lookup_fmap in Hy. destruct (out !! i) as [it|] eqn:Ei; [|done]. injection Hy as <-.
  specialize (Ha i). unfold ct_at, item_at in Ha. by rewrite (rd_lookup _ deck i x Hx), (rd_lookup _ out i it Ei) in Ha.
Qed.
End verify.

Import Residue Toy.

Lemma shuffle_complete_witness :
  match shuffleVerifyV1 9 sampleDeck sampleShuffle.2 (Some [7]) with
  | VOk deck => Forall2 (≡) deck sampleShuffle.1
  | VFail e => e = INVALID_SCALAR
  end.
Proof. apply (shuffle_complete 5 false [1; 2; 3] 9 sampleDeck sampleOpts sampleShuffle.1 sampleShuffle.2). by vm_compute. Defined.

(** On this deck the verifier does return the deck. *)
Example sample_verifies : shuffleVerifyV1 9 sampleDeck sampleShuffle.2 (Some [7]) = VOk sampleShuffle.1.
Proof. by vm_compute. Qed.
End ShuffleVerify.
