(* ===== verification/OcpShuffleSound.v ===== *)
(** * What the shuffle verifier establishes

    A switch proof answers two challenges only if one of its two branches is
    true (special soundness); a proof that [shuffleVerifyV1] accepts is a chain
    of decks, from the deck that went in to the deck returned, in which every
    pair and every single position of every round carries an accepted proof;
    and when those statements are true the deck returned is a permutation of
    re-encryptions of the deck that went in. *)
From stdpp Require Import base option list strings.
From Stdlib Require Import ZArith Lia.
From S2P Require Import Prelude OcpBytes OcpPrime OcpGroup OcpTranscript OcpProofs OcpProofsThms OcpShuffle OcpShuffleNet OcpShuffleProver.
Import Bytes GroupOrder Group Hashing Proofs ProofsThms Shuffle ShuffleNet ShuffleProver.

Module ShuffleSound.

Section sound.
Context {P : Type} `{RistrettoLaws P} `{HashLaws}.

(** ** Special soundness of the switch *)

Lemma checkEq_true (A t X : P) s e : canonical s → canonical e → checkEq A t X s e = Ok true → zmul s A ≡ p_add t (zmul e X).
Proof. intros Hs He E. by apply (proj2 (checkEq_spec A t X s e Hs He) true E). Qed.

Lemma both_true (a b : res bool) : (let! ok := a in if negb ok then Ok false else b) = Ok true → a = Ok true ∧ b = Ok true.
Proof. intros ([] & Ha & Hb)%rbind_ok; done. Qed.

Lemma verifyRelation_true (pk : P) a b pf i e :
  canonical (rd 0 pf.(sw_z) i) → canonical e → verifyRelation pk a b pf i e = Ok true →
  zmul (rd 0 pf.(sw_z) i) BASE ≡ p_add (rd ZERO pf.(sw_t1) i) (zmul e (p_subtract b.(ct_c1) a.(ct_c1))) ∧
  zmul (rd 0 pf.(sw_z) i) pk ≡ p_add (rd ZERO pf.(sw_t2) i) (zmul e (p_subtract b.(ct_c2) a.(ct_c2))).
Proof.
  intros Hz He. unfold verifyRelation, dlogDiff, eqDlogEquations. intros [HA HB]%both_true.
  apply checkEq_true in HA, HB; done.
Qed.

(** Two answers to one pair of commitments give the re-encryption scalar. *)
Lemma relation_extract (pk : P) a b pf pf' i e e' :
  canonical (rd 0 pf.(sw_z) i) → canonical (rd 0 pf'.(sw_z) i) → canonical e → canonical e' →
  pf.(sw_t1) = pf'.(sw_t1) → pf.(sw_t2) = pf'.(sw_t2) → e ≠ e' →
  verifyRelation pk a b pf i e = Ok true → verifyRelation pk a b pf' i e' = Ok true → reenc pk a b.
Proof.
  intros Hz Hz' He He' E1 E2 Hne HA HB. assert (Hk := difference_inverse e e' He He' Hne). apply verifyRelation_true in HA as [HA1 HA2], HB as [HB1 HB2]; [|done..].
  rewrite <-E1 in HB1. rewrite <-E2 in HB2.
  pose proof (extract1 _ _ _ _ _ _ _ _ HA1 HB1 Hk) as HX. pose proof (extract1 _ _ _ _ _ _ _ _ HA2 HB2 Hk) as HY.
  eexists. split; rewrite (add_comm (_ a)); [rewrite <-HX|rewrite <-HY]; by rewrite subtract_add.
Qed.

Definition straight (pk : P) (in0 in1 out0 out1 : ElGamalCiphertext P) : Prop := reenc pk in0 out0 ∧ reenc pk in1 out1.

(** C36. Special soundness of the switch proof: if for the same commitments two
    different challenges are answered, each with its own split into two
    branch challenges, then the outputs re-encrypt the inputs, in order or
    crossed. *)
Theorem switch_sound pk in0 in1 out0 out1 pf pf' e e' :
  pf.(sw_t1) = pf'.(sw_t1) → pf.(sw_t2) = pf'.(sw_t2) →
  (∀ i, canonical (rd 0 pf.(sw_z) i) ∧ canonical (rd 0 pf'.(sw_z) i)) →
  canonical pf.(sw_e0) → canonical pf'.(sw_e0) → canonical e → canonical e' → e ≠ e' →
  switchEquations pk in0 in1 out0 out1 pf e = Ok true →
  switchEquations pk in0 in1 out0 out1 pf' e' = Ok true →
  straight pk in0 in1 out0 out1 ∨ straight pk in1 in0 out0 out1.
Proof.
  intros E1 E2 Hz He0 He0' He He' Hne HA HB. unfold switchEquations in HA, HB. cbv zeta in HA, HB.
  apply both_true in HA as [HA0 HA], HB as [HB0 HB]. apply both_true in HA as [HA1 HA], HB as [HB1 HB].
  apply both_true in HA as [HA2 HA3], HB as [HB2 HB3].
  destruct (decide (pf.(sw_e0) = pf'.(sw_e0))) as [Eq|Hd].
  - right. assert (Hd : scalarSub e pf.(sw_e0) ≠ scalarSub e' pf'.(sw_e0)).
    { rewrite <-Eq. unfold scalarSub. rewrite !scalarMod_mod. intros Hm. apply Hne.
      rewrite <-(Z.mod_small e CURVE_ORDER He), <-(Z.mod_small e' CURVE_ORDER He').
      replace e with (e - sw_e0 pf + sw_e0 pf) by lia. replace e' with (e' - sw_e0 pf + sw_e0 pf) by lia.
      by rewrite <-Zplus_mod_idemp_l, Hm, Zplus_mod_idemp_l. }
    split; (eapply relation_extract; [exact (proj1 (Hz _))|exact (proj2 (Hz _))|apply scalarMod_canonical|apply scalarMod_canonical|exact E1|exact E2|exact Hd|eassumption|eassumption]).
  - left. split; (eapply relation_extract; [exact (proj1 (Hz _))|exact (proj2 (Hz _))|exact He0|exact He0'|exact E1|exact E2|exact Hd|eassumption|eassumption]).
Qed.

(** ** The chain of decks *)

(** What an accepted round has checked. *)
Definition pair_verified (pk : P) (ctx : option bytes) (cur nxt : list (ElGamalCiphertext P)) (p : nat * nat) : Prop :=
  ∃ sp, verifySwitch pk (ct_at cur p.1) (ct_at cur p.2) (ct_at nxt p.1) (ct_at nxt p.2) sp ctx = Ok true.
Definition single_verified (pk : P) (ctx : option bytes) (cur nxt : list (ElGamalCiphertext P)) (i : nat) : Prop :=
  let (X, Y) := dlogDiff (ct_at cur i) (ct_at nxt i) in
  pointEq (ct_at nxt i).(ct_c1) (ct_at cur i).(ct_c1) = false ∧
  ∃ p, verifyEqDlog DOMAIN_REENC basePoint pk X Y p ctx = Ok true.
Definition round_verified (pk : P) (ctx : option bytes) (n round : nat) (cur nxt : list (ElGamalCiphertext P)) : Prop :=
  length nxt = n ∧ Forall (pair_verified pk ctx cur nxt) (roundPairs n round).1 ∧
  Forall (single_verified pk ctx cur nxt) (roundPairs n round).2.

(** What the proofs of a round claim. *)
Definition pair_true (pk : P) (cur nxt : list (ElGamalCiphertext P)) (p : nat * nat) : Prop :=
  straight pk (ct_at cur p.1) (ct_at cur p.2) (ct_at nxt p.1) (ct_at nxt p.2) ∨
  straight pk (ct_at cur p.2) (ct_at cur p.1) (ct_at nxt p.1) (ct_at nxt p.2).
Definition round_true (pk : P) (n round : nat) (cur nxt : list (ElGamalCiphertext P)) : Prop :=
  length nxt = n ∧ Forall (pair_true pk cur nxt) (roundPairs n round).1 ∧
  Forall (λ i, reenc pk (ct_at cur i) (ct_at nxt i)) (roundPairs n round).2.

Lemma verifyAll_ok {A} (step : A → St Reader unit) (Q : A → Prop) l r r' :
  (∀ x r u r', step x r = Ok (u, r') → Q x) → verifyAll step l r = Ok (tt, r') → Forall Q l.
Proof.
  intros HQ. revert r. induction l as [|x l IH]; intros r; cbn [verifyAll]; [constructor|].
  intros (u & r1 & Hx & Hl)%st_bind_ok. constructor; [by eapply HQ|by eapply IH].
Qed.

Lemma guard_ok b e (r : Reader) u r' : st_lift (throw_if b e) r = Ok (u, r') → b = false ∧ r' = r.
Proof. intros [Hb ->]%st_lift_ok. by apply throw_if_ok in Hb. Qed.

Lemma verifyPair_ok pk ctx cur nxt p r u r' : verifyPair pk ctx cur nxt p r = Ok (u, r') → pair_verified pk ctx cur nxt p.
Proof.
  unfold verifyPair. destruct p as [i j]. intros (sp & r1 & _ & (ok & r2 & [Hok ->]%st_lift_ok & [Hb _]%guard_ok)%st_bind_ok)%st_bind_ok.
  exists sp. cbn [fst snd]. by destruct ok.
Qed.

Lemma verifySingle_ok pk ctx cur nxt i r u r' : verifySingle pk ctx cur nxt i r = Ok (u, r') → single_verified pk ctx cur nxt i.
Proof.
  unfold verifySingle, single_verified, dlogDiff.
  intros (p & r1 & _ & ([] & r2 & [Hg ->]%guard_ok & (ok & r3 & [Hok ->]%st_lift_ok & [Hb _]%guard_ok)%st_bind_ok)%st_bind_ok)%st_bind_ok.
  split; [done|]. exists p. by destruct ok.
Qed.

Lemma verifyRound_ok pk ctx n round cur r nxt r' :
  (2 <= n)%nat → verifyRound pk ctx n round cur r = Ok (nxt, r') → round_verified pk ctx n round cur nxt.
Proof.
  intros Hn. unfold verifyRound. assert (Hs := roundPairs_partition n round Hn). unfold round_verified.
  destruct (roundPairs n round) as [pairs singles]. cbn [fst snd]. destruct Hs as (_ & _ & <- & <-).
  intros (db & r1 & _ & (d & r2 & [Hd ->]%st_lift_ok & ([] & r3 & Hp & ([] & r4 & Hsg & [-> _]%st_ret_ok)%st_bind_ok)%st_bind_ok)%st_bind_ok)%st_bind_ok.
  split; [|split].
  - unfold decodeDeck in Hd. apply mapR_Forall2 in Hd. apply Forall2_length in Hd. by rewrite length_seq in Hd.
  - eapply verifyAll_ok; [|exact Hp]. intros. by eapply verifyPair_ok.
  - eapply verifyAll_ok; [|exact Hsg]. intros. by eapply verifySingle_ok.
Qed.

(** The decks after each round, from the round numbered [round] on. *)
Inductive chain (R : nat → relation (list (ElGamalCiphertext P))) :
  nat → list (list (ElGamalCiphertext P)) → relation (list (ElGamalCiphertext P)) :=
| chain_nil round deck : chain R round [] deck deck
| chain_cons round decks deck next out :
    R round deck next → chain R (S round) decks next out → chain R round (next :: decks) deck out.

Lemma verifyRounds_ok pk ctx n rounds round cur r out r' :
  (2 <= n)%nat → verifyRounds pk ctx n rounds round cur r = Ok (out, r') →
  ∃ decks, length decks = rounds ∧ chain (round_verified pk ctx n) round decks cur out.
Proof.
  intros Hn. revert round cur r. induction rounds as [|k IH]; intros round cur r; cbn [verifyRounds].
  - intros [-> _]%st_ret_ok. exists []. split; [done|constructor].
  - intros (nxt & r1 & Hr & Hk)%st_bind_ok. destruct (IH _ _ _ Hk) as (decks & <- & Hch). exists (nxt :: decks).
    split; [done|]. econstructor; [by eapply verifyRound_ok|done].
Qed.

(** True statements about disjoint pairs permute the deck. *)
Lemma pairs_true_perm pk cur nxt l :
  NoDup (flatten l) → (∀ k, k ∈ flatten l → (k < length cur)%nat) → Forall (pair_true pk cur nxt) l →
  ∃ mid, mid ≡ₚ cur ∧ (∀ k, k ∈ flatten l → reenc pk (ct_at mid k) (ct_at nxt k)) ∧ (∀ k, k ∉ flatten l → ct_at mid k = ct_at cur k).
Proof.
  intros Hnd Hb Hf. induction Hf as [|[i j] l Hp _ IH].
  { exists cur. split; [done|]. split; [by intros k ?%not_elem_of_nil|done]. }
  cbn [flatten flat_map fst snd app] in Hnd, Hb |- *. fold (flatten l) in Hnd, Hb |- *.
  apply NoDup_cons in Hnd as [Hi Hnd]. apply NoDup_cons in Hnd as [Hj Hnd]. rewrite not_elem_of_cons in Hi. destruct Hi as [Hij Hi].
  destruct IH as (mid & Hm & Hin & Hout); [done|intros; apply Hb; by do 2 apply list_elem_of_further|].
  assert (Hlen := Permutation_length Hm). cbn [fst snd] in Hp.
  assert (Li : (i < length mid)%nat) by (rewrite Hlen; apply Hb, list_elem_of_here).
  assert (Lj : (j < length mid)%nat) by (rewrite Hlen; apply Hb, list_elem_of_further, list_elem_of_here).
  assert (Hrd : ∀ (m : list (ElGamalCiphertext P)) a b k, (a < length m)%nat → ct_at (<[a:=b]> m) k = if decide (a = k) then b else ct_at m k).
  { intros m a b k Ha. unfold ct_at. rewrite rd_insert. by repeat case_decide; intuition. }
  destruct Hp as [[Hp0 Hp1]|[Hp0 Hp1]]; cbn [fst snd] in *.
  - exists mid. split; [done|]. split.
    + intros k. rewrite !elem_of_cons. intros [->|[->|Hk]]; [by rewrite Hout|by rewrite Hout|by apply Hin].
    + intros k. rewrite !not_elem_of_cons. intros (_ & _ & Hk). by apply Hout.
  - exists (<[j := ct_at mid i]> (<[i := ct_at mid j]> mid)). split; [|split].
    + etransitivity; [|exact Hm]. by apply swap_Permutation; [apply lookup_rd..|].
    + intros k. rewrite !Hrd by by rewrite ?length_insert. rewrite !elem_of_cons. intros [->|[->|Hk]].
      * rewrite decide_False, decide_True by congruence. by rewrite Hout.
      * rewrite decide_True by done. by rewrite Hout.
      * rewrite !decide_False by congruence. by apply Hin.
    + intros k. rewrite !Hrd by by rewrite ?length_insert. rewrite !not_elem_of_cons. intros (? & ? & Hk).
      rewrite !decide_False by congruence. by apply Hout.
Qed.

Lemma round_true_permuted pk n round cur nxt :
  (2 <= n)%nat → length cur = n → round_true pk n round cur nxt → permuted (reenc pk) cur nxt.
Proof.
  intros Hn Hl. unfold round_true. assert (Hs := roundPairs_partition n round Hn).
  destruct (roundPairs n round) as [pairs singles]. cbn [fst snd]. destruct Hs as (Hperm & _).
  intros (Hlx & Hp & Hsg). assert (Hnd : NoDup (flatten pairs ++ singles)) by (rewrite Hperm; apply NoDup_seq).
  assert (Hdom : ∀ k, k ∈ flatten pairs ++ singles ↔ (k < n)%nat) by (intros k; rewrite Hperm, elem_of_seq; lia).
  apply NoDup_app in Hnd as (Hnd & _ & _).
  destruct (pairs_true_perm pk cur nxt pairs) as (mid & Hm & Hin & Hout); [done| |done|].
  { intros k Hk. rewrite Hl. apply Hdom, elem_of_app. by left. }
  exists mid. split; [done|]. assert (Hlm := Permutation_length Hm). apply Forall2_same_length_lookup. split; [congruence|].
  intros i x y Hx Hy. rewrite <-(rd_lookup zero_ct _ i x Hx), <-(rd_lookup zero_ct _ i y Hy).
  change (reenc pk (ct_at mid i) (ct_at nxt i)). destruct (decide (i ∈ flatten pairs)) as [|Hni]; [by apply Hin|].
  rewrite Hout by done. assert (Hi : i ∈ flatten pairs ++ singles) by (apply Hdom; apply lookup_lt_Some in Hx; lia).
  apply elem_of_app in Hi as [|Hi]; [done|]. rewrite Forall_forall in Hsg. by apply Hsg.
Qed.

(** C34. What acceptance means.  If [shuffleVerifyV1] returns a deck, the proof
    holds a positive number of rounds and a chain of decks of the same size
    from the input deck to the returned one; in every round each pair of the
    schedule carries an accepted switch proof and each single position an
    accepted re-encryption proof under the caller's context.  If the
    statements of this chain are true, the returned deck holds re-encryptions
    of the cards of the input deck in another order. *)
Theorem shuffle_accepted pk deckIn proof ctx deckOut :
  shuffleVerifyV1 pk deckIn proof ctx = VOk deckOut →
  let n := length deckIn in
  ∃ decks, decks ≠ [] ∧ chain (round_verified pk ctx n) 0 decks deckIn deckOut ∧
    (chain (round_true pk n) 0 decks deckIn deckOut → permuted (reenc pk) deckIn deckOut).
Proof.
  unfold shuffleVerifyV1. destruct (shuffleVerify_body _ _ _ _) as [[d r]|] eqn:E; [|done]. destruct (negb _) eqn:Ed; [done|].
  intros [= ->]. apply negb_false_iff in Ed. unfold shuffleVerify_body in E. apply st_bind_ok in E as (v & r1 & _ & E).
  apply st_bind_ok in E as (c & r2 & [Hc _]%st_lift_ok & E). apply st_bind_ok in E as (n & r3 & _ & E).
  apply st_bind_ok in E as (rounds & r4 & _ & E). apply st_bind_ok in E as ([] & r5 & _ & E).
  apply st_bind_ok in E as ([] & r6 & [Hn _]%guard_ok & E). apply st_bind_ok in E as ([] & r7 & [Hn2 _]%guard_ok & E).
  apply st_bind_ok in E as ([] & r8 & [Hr _]%guard_ok & E).
  assert (c = ctx) as ->.
  { unfold versionContext in Hc. destruct (v =? SHUFFLE_PROOF_V1_VERSION); [|destruct (v =? SHUFFLE_PROOF_V2_VERSION)];
      destruct ctx as [x|]; try done; [by injection Hc|]. apply rbind_ok in Hc as ([] & _ & Hc). by injection Hc. }
  clear Hc. b2p. subst n. rewrite Nat2Z.id in E.
  destruct (verifyRounds_ok pk ctx (length deckIn) (Z.to_nat rounds) 0 deckIn r8 deckOut r ltac:(lia) E) as (decks & Hl & Hch).
  exists decks. split; [by destruct decks; [simpl in Hl; lia|]|]. split; [done|]. clear E Hch Hl.
  assert (Hlen : (2 <= length deckIn)%nat) by lia. generalize 0%nat. intros round Hch. remember (length deckIn) as n eqn:Hln.
  induction Hch as [|round decks deck next out Hround _ IH]; [apply permuted_refl, _|].
  eapply permuted_trans; [apply _|by eapply round_true_permuted|]. destruct Hround as [Hx _]. by apply IH.
Qed.
End sound.

Import Residue Toy.

(** A straight switch of two cards under the key 9, with two answers. *)
Definition sampleSwitch (e0 z0 z1 : Z) : SwitchProof Z :=
  mkSwitch e0 [1; 1; 62; 12] [9; 9; 378; 288] [z0; z1; 50; 60].

Ltac canonically := split; [vm_compute; congruence|vm_compute; reflexivity].

Lemma switch_sound_witness :
  straight (9 : Z) (mkCt 3 5) (mkCt 7 11) (mkCt 5 23) (mkCt 11 47) ∨ straight (9 : Z) (mkCt 7 11) (mkCt 3 5) (mkCt 5 23) (mkCt 11 47).
Proof.
  apply (switch_sound 9 (mkCt 3 5) (mkCt 7 11) (mkCt 5 23) (mkCt 11 47) (sampleSwitch 10 21 41) (sampleSwitch 11 23 45) 16 17);
    [reflexivity|reflexivity| |canonically|canonically|canonically|canonically|discriminate|by vm_compute|by vm_compute].
  intros [|[|[|[|i]]]]; split; canonically.
Defined.

Lemma shuffle_accepted_witness :
  ∃ decks, decks ≠ [] ∧ chain (round_verified 9 (Some [7]) 3) 0 decks sampleDeck sampleShuffle.1 ∧
    (chain (round_true 9 3) 0 decks sampleDeck sampleShuffle.1 → permuted (reenc 9) sampleDeck sampleShuffle.1).
Proof. apply (shuffle_accepted 9 sampleDeck sampleShuffle.2 (Some [7]) sampleShuffle.1). by vm_compute. Defined.

End ShuffleSound.
