(* ===== verification/PokerEngineRaise.v ===== *)
(** * What a raise is measured against

    An invariant of the betting engine that the general one does not need: the
    minimum raise is never below the big blind, and no seat has more on the
    street than the bet to match, except that a small blind may exceed what a
    short big blind could post.  It is what a player who sizes raises from the
    published [betTo] and [minRaiseSize] relies on. *)
From stdpp Require Import base option list.
From Stdlib Require Import ZArith Lia.
From S2P Require Import Prelude PokerEngine PokerEngineInv PokerEngineProps.
Import Engine EngineInv EngineProps.

Module EngineRaise.

Record raise_ok (p : TableParams) (h : HandState) : Prop := {
  raise_min : p.(bigBlind) <= h.(minRaiseSize);
  raise_commit : ∀ i, rd 0 h.(streetCommit) i <= Z.max h.(betTo) p.(smallBlind)
}.

Definition raise_table (st : TableState) : Prop := ∀ h, st.(hand) = Some h → raise_ok st.(params) h.

(** A hand with the same bet, minimum raise and commitments. *)
Lemma raise_ok_ext p h h' :
  raise_ok p h → h'.(minRaiseSize) = h.(minRaiseSize) → h'.(betTo) = h.(betTo) → h'.(streetCommit) = h.(streetCommit) →
  raise_ok p h'.
Proof. intros [H1 H2] E1 E2 E3. split; rewrite ?E1, ?E2, ?E3; [done|]. intros i. apply H2. Qed.

Section raise.
Context (p : TableParams) (Hbl : 0 < p.(smallBlind) < p.(bigBlind)).

Lemma commitChips_raise ss h seat pay :
  raise_ok p h → (seat < length h.(streetCommit))%nat →
  rd 0 h.(streetCommit) seat + pay <= Z.max h.(betTo) p.(smallBlind) → raise_ok p (commitChips ss h seat pay).2.
Proof.
  intros [H1 H2] Hs Hp. unfold commitChips. cbn [snd]. case_goal; split; rds; try done; intros i; rds; subst; auto.
Qed.

Lemma perform_raise ss h i a r :
  hand_ok ss h → (i < 9)%nat → raise_ok p h → perform p ss h i a = Ok r → raise_ok p r.2.
Proof.
  intros Hok Hi Hr. pose proof (ok_len_street _ _ Hok) as Hl. pose proof (raise_commit _ _ Hr) as Hc.
  pose proof (raise_min _ _ Hr) as Hm. destruct a; cbn [perform].
  - intros <-%Ok_inj. by eapply raise_ok_ext.
  - intros (h' & H & <-%Ok_inj)%rbind_ok. unfold applyCheck in H. inv_ok H. subst h'. by eapply raise_ok_ext.
  - unfold applyCall. intros H. inv_ok H.
    set (pay := if _ <=? _ then toCall h i else stack_at ss i) in *.
    assert (Hp : rd 0 (streetCommit h) i + pay <= Z.max (betTo h) (smallBlind p)).
    { specialize (Hc i). assert (toCall h i <= Z.max 0 (betTo h - rd 0 (streetCommit h) i)) by (unfold toCall; case_goal; b2p; lia).
      assert (pay <= toCall h i) by (subst pay; case_goal; b2p; lia). lia. }
    pose proof (commitChips_raise ss h i pay Hr ltac:(lia) Hp) as H'.
    destruct (commitChips ss h i pay) as [ss1 h1]. subst r. cbn [snd] in *. simplify_eq. by eapply raise_ok_ext.
  - intros (Hamt & Hbet & _ & h0 & Hacc & ->)%applyBetTo_inv.
    assert (Hb : betTo h0 = amt ∧ streetCommit h0 = streetCommit h ∧ bigBlind p <= minRaiseSize h0)
      by (destruct Hacc as [(_ & _ & ->)|[(_ & _ & _ & ->)|(_ & ? & ->)]]; (split; [done|split; [done|]]);
          cbn [acted set_lastIntervalActed set_betTo set_minRaiseSize set_intervalId minRaiseSize]; lia).
    destruct Hb as (Hb & Hs & Hm0). apply commitChips_raise; [|by rewrite Hs; lia|by rewrite Hs, Hb; lia].
    split; [done|]. intros j. rewrite Hs, Hb. specialize (Hc j). lia.
Qed.

Lemma returnUncalled_raise ss h : hand_ok ss h → raise_ok p h → raise_ok p (returnUncalledStreetExcess ss h).2.
Proof.
  intros Hok Hr. destruct (returnUncalled_cases ss h) as [->|(i & x & Hi & Ho & Hx & ->)]; [done|].
  cbn zeta. cbn [snd]. destruct Hr as [H1 H2], Hok.
  case_goal; split; rds; try done; intros j; rds; subst; auto; specialize (H2 i); lia.
Qed.

Lemma rd_zeros i : rd 0 (replicate 9 0) i = 0.
Proof. by do 9 (destruct i as [|i]; [done|]). Qed.

Lemma zero_commits_raise h : p.(bigBlind) <= h.(minRaiseSize) → h.(streetCommit) = replicate 9 0 → raise_ok p h.
Proof. intros Hm Hs. split; [done|]. intros i. rewrite Hs, rd_zeros. lia. Qed.

Lemma completeByFolds_raise ss h : hand_ok ss h → raise_ok p h → raise_ok p (completeByFolds ss h).2.
Proof.
  intros Hok Hr. unfold completeByFolds. destruct (List.find _ _) as [w|]; [|done].
  pose proof (returnUncalled_raise ss h Hok Hr) as H. destruct (returnUncalledStreetExcess ss h) as [ss1 h1]. cbn [snd] in H.
  destruct (negb _); [done|]. apply zero_commits_raise; [exact (raise_min _ _ H)|reflexivity].
Qed.

Lemma maybeAdvance_raise ss h now : hand_ok ss h → raise_ok p h → raise_ok p (maybeAdvance p ss h now).2.
Proof.
  intros Hok Hr. unfold maybeAdvance. destruct (_ <=? 1)%nat; [by apply completeByFolds_raise|].
  destruct (negb _); [by eapply raise_ok_ext|].
  pose proof (returnUncalled_raise ss h Hok Hr) as H. destruct (returnUncalledStreetExcess ss h) as [ss1 h1]. cbn [snd] in H.
  case_bool_decide; [by eapply raise_ok_ext|]. destruct (_ <? 2)%nat; [by eapply raise_ok_ext|].
  apply zero_commits_raise; [apply Z.le_refl|reflexivity].
Qed.

Lemma refundSeat_raise ss h i : raise_ok p h → raise_ok p (refundSeat p (ss, h) i).2.
Proof.
  intros Hr. unfold refundSeat. destruct (negb _); [done|]. destruct (_ && _); [done|]. cbn [snd].
  destruct Hr as [H1 H2]. split; rds; [done|]. intros j. destruct (decide (j = i)) as [->|Hj].
  - destruct (decide (i < length (streetCommit h))%nat).
    + rewrite rd_insert by done. rewrite decide_True by done. lia.
    + rewrite list_insert_ge by lia. apply H2.
  - rewrite rd_insert_ne by done. apply H2.
Qed.

Lemma refund_loop_raise l r : raise_ok p r.2 → raise_ok p (fold_left (refundSeat p) l r).2.
Proof.
  revert r. induction l as [|i l IH]; intros [ss h] Hr; [done|]. apply IH, refundSeat_raise, Hr.
Qed.
End raise.

Lemma startHand_raise st now st' : wf_table st → startHand st now = Ok st' → raise_table st'.
Proof.
  intros Hwf (t & btn & sb & bb & E)%startHand_inv. cbv zeta in E.
  destruct E as (_ & _ & _ & _ & _ & _ & Hs9 & Hb9 & Hne & ->). pose proof (wf_blinds _ Hwf) as Hbl.
  set (h0 := freshHand _ _ _ _ _ _ _ _ _). set (on := nextActiveInHand h0 _). clearbody on.
  intros h Hh. cbn [hand params] in *.
  assert (H0 : raise_ok (params st) h0).
  { split; subst h0; cbn [freshHand minRaiseSize streetCommit betTo]; [lia|]. intros i.
    assert (Hsb : blindPay (seats st) sb (smallBlind (params st)) <= smallBlind (params st))
      by (unfold blindPay; case_goal; b2p; lia).
    rewrite !rd_insert by (rewrite ?length_insert, length_replicate; done). repeat case_decide; [lia|lia|].
    rewrite rd_zeros. lia. }
  injection Hh as <-. destruct on; by eapply raise_ok_ext.
Qed.

Lemma applyAction_raise st a now st' : wf_table st → raise_table st → applyAction st a now = Ok st' → raise_table st'.
Proof.
  intros Hwf Hr (t & h & i & -> & Ht & Hh & Hph & Hi & Ha & Ho & Hin & Hon & r & Hp & ->)%applyAction_inv.
  destruct (wf_hand _ Hwf h Hh) as [Hok Hpok]. unfold phase_ok in Hpok. rewrite Hph in Hpok. destruct Hpok as [Hall _].
  pose proof (wf_blinds _ Hwf) as Hbl. pose proof (perform_raise _ _ _ _ _ _ Hok Hi (Hr h Hh) Hp) as H1.
  apply perform_ok in Hp as [H2 _ _ _ _]; [|lia|done..].
  intros h' [= <-]. cbn [params settle]. apply maybeAdvance_raise; [done|by hand_ext|by eapply raise_ok_ext].
Qed.

Lemma exec_raise st op st' : wf_table st → raise_table st → exec st op = Ok st' → raise_table st'.
Proof.
  intros Hwf Hr H. destruct op; cbn [exec] in H.
  - unfold sit in H. inv_ok H. subst st'. exact Hr.
  - by eapply startHand_raise.
  - by eapply applyAction_raise.
  - destruct now as [t|]; [|done]. destruct (decide (0 <= t)) as [Ht|Ht].
    2:{ unfold applyTick, assertIntTimestamp in H. by rewrite (proj2 (Z.ltb_lt t 0)) in H by lia. }
    destruct (applyTick_spec st t Hwf Ht) as [H'|(h & i & d & a & st1 & Hh & _ & _ & _ & _ & _ & Ha & H')];
      rewrite H' in H; apply Ok_inj in H as <-; [done|].
    pose proof (applyAction_raise _ _ _ _ Hwf Hr Ha) as H1. intros h' Hh'. cbn [hand params] in *.
    destruct (hand st1) as [h1|] eqn:E; [|done]. injection Hh' as <-. by eapply raise_ok_ext; [exact (H1 h1 E)|..].
  - apply abortHand_inv in H as (h & Hh & H). destruct (_ || _); [by subst|]. destruct H as (r & Hf & ->).
    pose proof (refund_loop_raise (params st) (wf_blinds _ Hwf) seats9 (seats st, h) (Hr h Hh)) as H1. rewrite <-Hf in H1.
    clear Hf. intros h' <-%Some_inj. cbn [params]. by apply (raise_ok_ext _ r.2).
Qed.

Lemma reachable_raise p st n : reachable p st n → wf_table st ∧ raise_table st.
Proof.
  induction 1 as [st H|st n op st' Hst [Hwf IH] H].
  - destruct (createTableState_wf p st H) as (Hwf & Hh & _). split; [done|]. intros h. by rewrite Hh.
  - destruct (exec_wf_chips _ _ _ Hwf H) as [Hwf' _]. split; [done|]. exact (exec_raise _ _ _ Hwf IH H).
Qed.

End EngineRaise.
