(* ===== verification/Json.v ===== *)
(** * JSON values as the clients read them

    What the bot and the daemons receive from the chain is untyped JSON in two
    spellings (camelCase and snake_case); bytes may also be a [Uint8Array].  Numbers of the chain's JSON are
    integers here, and a field that the code uses as an array is an array or
    missing: [elems] of anything else is empty. *)
From stdpp Require Import base option list strings pretty.
From Stdlib Require Import ZArith Lia Ascii.
From S2P Require Import Prelude OcpBytes.
Import Bytes.

Module Json.

(** ** Strings as numbers *)

Definition trimStart (l : list ascii) : list ascii := skipSpace l.
Definition trim (l : list ascii) : list ascii := rev (trimStart (rev (trimStart l))).

(** A decimal digit, and [parseInt(s, 10)]; [None] is [NaN]. *)
Definition decimalValue (c : ascii) : option Z :=
  let n := Z.of_nat (nat_of_ascii c) in
  if (48 <=? n) && (n <=? 57) then Some (n - 48) else None.

Fixpoint parseDecimals (acc : option Z) (l : list ascii) : option Z :=
  match l with
  | c :: l' => match decimalValue c with
               | Some d => parseDecimals (Some (default 0 acc * 10 + d)) l'
               | None => acc
               end
  | [] => acc
  end.

Definition parseInt10 (s : string) : option Z :=
  let s := skipSpace (String.list_ascii_of_string s) in
  let '(neg, s) := match s with
                   | "-"%char :: s => (true, s)
                   | "+"%char :: s => (false, s)
                   | _ => (false, s)
                   end in
  (λ v, if neg then - v else v) <$> parseDecimals None s.

(** ** Values *)

#[warnings="-register-all"]
Inductive json :=
| JUndefined | JNull | JBool (b : bool) | JNum (z : Z) | JBig (z : Z) | JStr (s : string)
| JBytes (bs : bytes) | JArr (l : list json) | JObj (fields : list (string * json)).

(** [obj?.[k]] *)
Definition field (obj : json) (k : string) : json :=
  match obj with
  | JObj fields => default JUndefined (snd <$> List.find (λ kv, bool_decide (fst kv = k)) fields)
  | _ => JUndefined
  end.

Definition defined (j : json) : bool := match j with JUndefined => false | _ => true end.
Definition nullish (j : json) : bool := match j with JUndefined | JNull => true | _ => false end.

(** [a ?? b] *)
Definition orElse (a b : json) : json := if nullish a then b else a.

Definition truthy (j : json) : bool :=
  match j with
  | JUndefined | JNull => false
  | JBool b => b
  | JNum z | JBig z => negb (z =? 0)
  | JStr s => negb (bool_decide (s = EmptyString))
  | JBytes _ | JArr _ | JObj _ => true
  end.

Definition elems (j : json) : list json := match j with JArr l => l | _ => [] end.

(** [l[i]] *)
Definition item (l : list json) (i : Z) : json := if i <? 0 then JUndefined else rd JUndefined l (Z.to_nat i).

(** [x === s] for a string [s] *)
Definition isStr (j : json) (s : string) : bool := match j with JStr s' => bool_decide (s' = s) | _ => false end.

(** [String(x)] *)
Fixpoint toStr (j : json) : string :=
  match j with
  | JUndefined => "undefined"
  | JNull => "null"
  | JBool b => if b then "true" else "false"
  | JNum z | JBig z => pretty z
  | JStr s => s
  | JBytes bs => String.concat "," (map pretty bs)
  | JArr l => String.concat "," (map (λ x, match x with JUndefined | JNull => EmptyString | _ => toStr x end) l)
  | JObj _ => "[object Object]"
  end%string.

(** The digits of a [BigInt] literal: at least one, all of the base. *)
Fixpoint allDigits (base : Z) (acc : Z) (l : list ascii) : option Z :=
  match l with
  | [] => Some acc
  | c :: l => match digitValue c with
              | Some d => if d <? base then allDigits base (acc * base + d) l else None
              | None => None
              end
  end.
Definition someDigits (base : Z) (l : list ascii) : option Z := if l is [] then None else allDigits base 0 l.

(** [BigInt(s)]: an integer literal between white space; [None] is a
    [SyntaxError]. *)
Definition stringToBigInt (s : string) : option Z :=
  match trim (String.list_ascii_of_string s) with
  | [] => Some 0
  | "-"%char :: l => Z.opp <$> someDigits 10 l
  | "+"%char :: l => someDigits 10 l
  | "0"%char :: ("x" | "X")%char :: l => someDigits 16 l
  | "0"%char :: ("o" | "O")%char :: l => someDigits 8 l
  | "0"%char :: ("b" | "B")%char :: l => someDigits 2 l
  | l => someDigits 10 l
  end.

(** [Number(x)], [None] for [NaN]: a string is a literal as for [BigInt]
    (fractions and exponents do not occur). *)
Definition jsNumber (j : json) : option Z :=
  match j with
  | JNull => Some 0
  | JBool b => Some (if b then 1 else 0)
  | JNum z | JBig z => Some z
  | JStr s => stringToBigInt s
  | _ => None
  end.

(** [x | 0] *)
Definition toInt32 (x : option Z) : Z :=
  let z := default 0 x in (z + 2147483648) mod 4294967296 - 2147483648.

(** [s.toLowerCase()] of an ASCII string. *)
Definition lowerChar (c : ascii) : ascii :=
  let n := nat_of_ascii c in if ((65 <=? n) && (n <=? 90))%nat then ascii_of_nat (n + 32) else c.
Definition lower (s : string) : string := String.string_of_list_ascii (map lowerChar (String.list_ascii_of_string s)).

Example bigint_dec : stringToBigInt " 120 " = Some 120.
Proof. vm_compute. reflexivity. Qed.
Example bigint_hex : stringToBigInt "0x1F" = Some 31.
Proof. vm_compute. reflexivity. Qed.
Example bigint_bad : stringToBigInt "12a" = None.
Proof. vm_compute. reflexivity. Qed.
Example bigint_frac : stringToBigInt "1.5" = None.
Proof. vm_compute. reflexivity. Qed.

End Json.
