(* ===== verification/BotHoleCards.v ===== *)
(** * Decrypting hole cards: [apps/bot/src/holeCards.ts]

    A seat's two cards are deck positions encrypted under the committee's key.
    Each validator publishes its decryption share of a position, encrypted to
    the player; the player decrypts the shares it finds in the chain's JSON,
    combines them with Lagrange coefficients and looks the point up in a table
    of the 52 cards.  The JSON fields that the code reads in two spellings are
    two optional fields here; a field that is a byte array or a string is [raw],
    one that is a number or a string is [jnum].  [Buffer.from(s, "base64")] is
    the parameter [base64].  Numbers written in strings are exact here, where a
    JavaScript number rounds beyond 2^53. *)
From stdpp Require Import base option list strings gmap.
From Stdlib Require Import ZArith Lia Ascii.
From S2P Require Import Prelude OcpBytes OcpGroup OcpProofs Json.
Import Bytes Group Proofs Json.

Module HoleCards.

(** ** Scalar field arithmetic *)

Definition modQ (n : Z) : Z :=
  let x := Z.rem n CURVE_ORDER in
  if x <? 0 then x + CURVE_ORDER else x.

(** The loop of [invMod]: the pairs [old_r, r] and [old_s, s]. *)
Fixpoint invLoop (fuel : nat) (old_r r old_s s : Z) : option Z :=
  match fuel with
  | O => None
  | S fuel =>
      if r =? 0 then Some old_s
      else let q := Z.quot old_r r in invLoop fuel r (old_r - q * r) s (old_s - q * s)
  end.

(** Two steps of the loop halve [old_r]. *)
Definition inv_fuel (m : Z) : nat := 2 * Z.to_nat (Z.log2 m) + 8.

Definition invMod (a m : Z) : res Z :=
  let a0 := modQ a in
  let! _ := throw_if (a0 =? 0) "invMod: cannot invert zero"%string in
  match invLoop (inv_fuel m) a0 m 1 0 with
  | Some old_s => Ok (Z.rem (Z.rem old_s m + m) m)
  | None => Err "out of fuel"%string
  end.

Definition lagrangeStep (xCoords : list Z) (j : nat) (acc : Z * Z) (m : nat) : Z * Z :=
  let '(num, den) := acc in
  if (m =? j)%nat then (num, den)
  else (modQ (num * modQ (CURVE_ORDER - rd 0 xCoords m)),
        modQ (den * modQ (rd 0 xCoords j - rd 0 xCoords m))).

Definition lagrangeCoefficients (xCoords : list Z) : res (list Z) :=
  let n := length xCoords in
  mapR (λ j, let '(num, den) := fold_left (lagrangeStep xCoords j) (seq 0 n) (1, 1) in
             let! inv := invMod den CURVE_ORDER in
             Ok (modQ (num * inv))) (seq 0 n).

(** ** Bytes in the JSON *)

Definition isHexDigit (c : ascii) : bool := if digitValue c is Some _ then true else false.

Section codec.
Context (base64 : list ascii → bytes).

(** The loop over the pairs of digits. *)
Fixpoint hexBytes (l : list ascii) : bytes :=
  match l with
  | a :: b :: l => default 0 (parseInt16 [a; b]) mod 256 :: hexBytes l
  | _ => []
  end.

Definition decodeBytes (s0 : string) : bytes :=
  let s := trim (String.list_ascii_of_string s0) in
  let hexBody := match s with
                 | "0"%char :: "x"%char :: body => body
                 | _ => s
                 end in
  if forallb isHexDigit hexBody && ((length hexBody =? 64)%nat || (length hexBody =? 128)%nat)
  then hexBytes hexBody
  else base64 s.

Inductive raw := RawBytes (bs : bytes) | RawString (s : string).

(** [toBytes] of a missing field reads a property of [undefined]. *)
Definition toBytes (r : option raw) : res bytes :=
  match r with
  | None => Err "Cannot read properties of undefined (reading 'trim')"%string
  | Some (RawBytes bs) => Ok bs
  | Some (RawString s) => Ok (decodeBytes s)
  end.
End codec.

Definition bytesEqual (a b : bytes) : bool :=
  if negb (length a =? length b)%nat then false
  else forallb (λ i, rd 0 a i =? rd 0 b i) (seq 0 (length a)).

(** A field that is a string, an integer, or anything else ([undefined], a
    fraction). *)
Inductive jnum := NumString (s : string) | NumInt (z : Z) | NumOther.

(** [typeof x === "string" ? parseInt(x, 10) : x] *)
Definition readNum (x : jnum) : option Z :=
  match x with NumString s => parseInt10 s | NumInt z => Some z | NumOther => None end.

(** ** The chain's JSON *)

Record EncShareJson := mkEncShareJson {
  es_pos : jnum;
  es_pkPlayer : option raw; es_pk_player : option raw;
  es_encShare : option raw; es_enc_share : option raw;
  es_index : jnum
}.

Record DealerHandJson := mkDealerHandJson {
  (** An entry is an object whose [c2] may be missing, or [null]. *)
  dh_deck : option (list (option (option raw)));
  dh_encShares : option (list EncShareJson);
  dh_enc_shares : option (list EncShareJson)
}.

(** [a ?? b] *)
Definition coalesce {A} (a b : option A) : option A := if a is Some _ then a else b.

(** ** Cards *)

Section cards.
Context {P : Type} `{RistrettoOps P}.
Context (base64 : list ascii → bytes).

(** [Array.from(bytes).map(toString(16).padStart(2, "0")).join("")] *)
Definition pointHex (p : P) : string := bytesToHex (groupElementToBytes p).

Definition CARD_TABLE : res (gmap string nat) :=
  foldl (λ table id,
    let! table := table in
    let! pt := mulBase (Z.of_nat (id + 1)) in
    Ok (<[pointHex pt := id]> table)) (Ok ∅) (seq 0 52).

Definition lookupCardId (point : P) : res (option nat) :=
  let! table := CARD_TABLE in Ok (table !! pointHex point).

Definition decryptEncShare (encShareBytes : bytes) (skPlayer : Scalar) : res P :=
  let! _ := throw_if (negb (length encShareBytes =? 64)%nat) "enc share must be 64 bytes"%string in
  let! U := groupElementFromBytes (slice encShareBytes 0 32) in
  let! V := groupElementFromBytes (slice encShareBytes 32 64) in
  let! skU := mulPoint U skPlayer in
  Ok (pointSub V skU).

(** A decrypted share: the validator's index and the point. *)
Definition share : Type := Z * P.

Definition recoverLoop (D : P) (rest : list (share * Z)) : res P :=
  foldl (λ D sc, let! D := D in
                 let! t := mulPoint (snd (fst sc)) (snd sc) in
                 Ok (pointAdd D t)) (Ok D) rest.

Definition recoverCard (c2 : P) (decryptedShares : list share) : res (option nat) :=
  match decryptedShares with
  | [] => Ok None
  | s0 :: rest =>
      let! coeffs := lagrangeCoefficients (map fst decryptedShares) in
      let! D0 := mulPoint (snd s0) (rd 0 coeffs 0) in
      let! D := recoverLoop D0 (zip rest (drop 1 coeffs)) in
      lookupCardId (pointSub c2 D)
  end.

(** One round of the loop over the shares: those of another position or player
    are passed over; a malformed share is skipped by the [catch]. *)
Definition collectShare (pos : Z) (pkPlayerBytes : bytes) (skPlayer : Scalar)
    (shares : list share) (es : EncShareJson) : res (list share) :=
  if negb (bool_decide (readNum es.(es_pos) = Some pos)) then Ok shares
  else
    let! esPk := toBytes base64 (coalesce es.(es_pkPlayer) es.(es_pk_player)) in
    if negb (bytesEqual esPk pkPlayerBytes) then Ok shares
    else
      let! esBytes := toBytes base64 (coalesce es.(es_encShare) es.(es_enc_share)) in
      let idx := readNum es.(es_index) in
      match decryptEncShare esBytes skPlayer, idx with
      | Ok d, Some idx => Ok (shares ++ [(idx, d)])
      | _, _ => Ok shares
      end.

Definition collectShares (pos : Z) (pkPlayerBytes : bytes) (skPlayer : Scalar) (encShares : list EncShareJson) : res (list share) :=
  foldl (λ shares es, let! shares := shares in collectShare pos pkPlayerBytes skPlayer shares es) (Ok []) encShares.

(** [!raw]: a missing field or an empty string. *)
Definition falsyRaw (r : option raw) : bool :=
  match r with
  | None => true
  | Some (RawString s) => bool_decide (s = ""%string)
  | Some (RawBytes _) => false
  end.

(** The body of the loop over the two positions; [None] is [return null]. *)
Definition decryptPosition (deck : list (option (option raw))) (encShares : list EncShareJson)
    (pkPlayerBytes : bytes) (skPlayer : Scalar) (pos : Z) : res (option nat) :=
  if (pos =? 255) || (pos <? 0) then Ok None
  else
    match deck !! Z.to_nat pos with
    | None | Some None => Ok None
    | Some (Some c2Raw) =>
        if falsyRaw c2Raw then Ok None
        else
          let! c2Bytes := toBytes base64 c2Raw in
          let! c2 := groupElementFromBytes c2Bytes in
          let! shares := collectShares pos pkPlayerBytes skPlayer encShares in
          if (length shares =? 0)%nat then Ok None else recoverCard c2 shares
    end.

Definition decryptHoleCards (dealerHand : option DealerHandJson) (holePositions : Z * Z)
    (pkPlayerBytes : bytes) (skPlayer : Scalar) : res (option (nat * nat)) :=
  let deck := default [] (dealerHand ≫= dh_deck) in
  let encShares := default [] (dealerHand ≫= λ dh, coalesce dh.(dh_encShares) dh.(dh_enc_shares)) in
  let! card0 := decryptPosition deck encShares pkPlayerBytes skPlayer (fst holePositions) in
  match card0 with
  | None => Ok None
  | Some card0 =>
      let! card1 := decryptPosition deck encShares pkPlayerBytes skPlayer (snd holePositions) in
      match card1 with
      | None => Ok None
      | Some card1 => Ok (Some (card0, card1))
      end
  end.
End cards.

Example lagrange_1_2 : lagrangeCoefficients [1; 2] = Ok [2; CURVE_ORDER - 1].
Proof. vm_compute. reflexivity. Qed.

End HoleCards.
