(* ===== verification/BotHoleThms.v ===== *)
(** * Correctness of the hole-card decryption

    The inversion loop terminates and inverts; the coefficients interpolate at
    zero every polynomial of degree below the number of distinct indices (they
    are undefined on a repeated index); the table of the cards is injective; so
    the cards that a committee dealt are the ones the player recovers, from
    the JSON of the chain down to the two identifiers. *)
From stdpp Require Import base option list strings gmap.
From Stdlib Require Import ZArith Lia Ascii.
From Stdlib Require Import Zdiv.
From S2P Require Import Prelude OcpBytes OcpPrime OcpGroup OcpTranscript OcpProofs OcpProofsThms BotHoleCards.
Import Bytes GroupOrder Group Proofs ProofsThms HoleCards.

Module HoleThms.

Abbreviation q := CURVE_ORDER.
Lemma q_pos : 0 < q.
Proof. done. Qed.

(** ** The inversion loop *)

Lemma modQ_mod n : modQ n = n mod q.
Proof.
  pose proof (scalarMod_mod n) as H. unfold scalarMod in H. unfold modQ. cbv zeta in *.
  destruct (0 <=? Z.rem n q) eqn:E1, (Z.rem n q <? 0) eqn:E2; b2p; lia.
Qed.

(** With [r < old_r < 2^n], twice [n] rounds and one are enough, and the loop
    keeps both Bezout congruences and the divisors. *)
Lemma invLoop_ok (m a : Z) (n : nat) :
  ∀ old_r r old_s s, 0 <= r < old_r → old_r < 2 ^ Z.of_nat n →
  (m | old_s * a - old_r) → (m | s * a - r) →
  ∃ s' g, invLoop (2 * n + 1) old_r r old_s s = Some s' ∧ 0 < g ∧ (g | old_r) ∧ (g | r) ∧ (m | s' * a - g).
Proof.
  assert (Hdone : ∀ fuel old_r old_s s, 0 < old_r → (m | old_s * a - old_r) →
    ∃ s' g, invLoop (S fuel) old_r 0 old_s s = Some s' ∧ 0 < g ∧ (g | old_r) ∧ (g | 0) ∧ (m | s' * a - g)).
  { intros fuel old_r old_s s Hpos Ho. exists old_s, old_r. split; [done|]. do 2 (split; [done|]). split; [apply Z.divide_0_r|done]. }
  induction n as [|n IH]; intros old_r r old_s s Hr Hn Ho Hs; [simpl in Hn; lia|].
  replace (2 * S n + 1)%nat with (S (S (2 * n + 1))) by lia. rewrite Nat2Z.inj_succ, Z.pow_succ_r in Hn by lia.
  destruct (decide (r = 0)) as [->|Hr0]; [apply Hdone; [lia|done]|].
  cbn [invLoop]. rewrite (proj2 (Z.eqb_neq r 0)) by done. rewrite Z.quot_div_nonneg by lia.
  set (k := old_r / r). assert (Hrem : 0 <= old_r - k * r < r).
  { pose proof (Z.mod_pos_bound old_r r ltac:(lia)). pose proof (Z.div_mod old_r r ltac:(lia)). unfold k. lia. }
  set (r2 := old_r - k * r) in *.
  assert (Hk : 1 <= k) by (apply Z.div_le_lower_bound; lia).
  assert (Hs2 : (m | (old_s - k * s) * a - r2)).
  { replace ((old_s - k * s) * a - r2) with ((old_s * a - old_r) - k * (s * a - r)) by (unfold r2; lia).
    apply Z.divide_sub_r; [done|]. by apply Z.divide_mul_r. }
  assert (Hback : ∀ g, (g | r) → (g | r2) → (g | old_r)).
  { intros g H1 H2. replace old_r with (r2 + k * r) by (unfold r2; lia). apply Z.divide_add_r; [done|]. by apply Z.divide_mul_r. }
  destruct (decide (r2 = 0)) as [Hz|Hz].
  - rewrite Hz in *. rewrite Z.eqb_refl. exists s, r. split; [done|]. split; [lia|]. split; [apply Hback; [done|apply Z.divide_0_r]|]. split; [done|exact Hs].
  - cbn [invLoop]. rewrite (proj2 (Z.eqb_neq r2 0)) by done. rewrite Z.quot_div_nonneg by lia.
    set (k' := r / r2). assert (Hrem' : 0 <= r - k' * r2 < r2).
    { pose proof (Z.mod_pos_bound r r2 ltac:(lia)). pose proof (Z.div_mod r r2 ltac:(lia)). unfold k'. lia. }
    destruct (IH r2 (r - k' * r2) (old_s - k * s) (s - k' * (old_s - k * s))) as (s' & g & E & Hg & Hg1 & Hg2 & Hm); [lia|nia|done| |].
    { replace ((s - k' * (old_s - k * s)) * a - (r - k' * r2)) with ((s * a - r) - k' * ((old_s - k * s) * a - r2)) by lia.
      apply Z.divide_sub_r; [done|]. by apply Z.divide_mul_r. }
    exists s', g. split; [exact E|]. split; [done|].
    assert (Hgr : (g | r)). { replace r with ((r - k' * r2) + k' * r2) by lia. apply Z.divide_add_r; [done|]. by apply Z.divide_mul_r. }
    split; [by apply Hback|]. done.
Qed.

Lemma invLoop_more fuel fuel' old_r r old_s s x :
  (fuel <= fuel')%nat → invLoop fuel old_r r old_s s = Some x → invLoop fuel' old_r r old_s s = Some x.
Proof.
  revert fuel' old_r r old_s s. induction fuel as [|fuel IH]; intros [|fuel'] old_r r old_s s Hle; cbn [invLoop]; try done; [lia|].
  destruct (r =? 0); [done|]. apply IH. lia.
Qed.

Lemma invLoop_S fuel old_r r old_s s :
  invLoop (S fuel) old_r r old_s s =
  if r =? 0 then Some old_s else let k := Z.quot old_r r in invLoop fuel r (old_r - k * r) s (old_s - k * s).
Proof. done. Qed.

Lemma inv_steps a : a mod q ≠ 0 →
  ∃ s', invLoop (inv_fuel q) (a mod q) q 1 0 = Some s' ∧ (s' * a) mod q = 1.
Proof.
  intros Ha. set (a0 := a mod q) in *. assert (Hb : 0 <= a0 < q) by apply Z.mod_pos_bound, q_pos.
  destruct (invLoop_ok q a0 253 q a0 0 1) as (s' & g & E & Hg & Hgq & Hga & Hm).
  { lia. } { vm_compute. reflexivity. } { exists (-1). lia. } { exists 0. lia. }
  exists s'. split.
  - change (inv_fuel q) with (S 511). rewrite invLoop_S, (proj2 (Z.eqb_neq q 0)) by done. cbv zeta.
    rewrite Z.quot_small by lia. rewrite !Z.mul_0_l, !Z.sub_0_r. by apply (invLoop_more (2 * 253 + 1)); [lia|].
  - assert (g = 1) as ->.
    { destruct curve_order_prime as [_ Hp]. destruct (decide (a0 = 0)) as [|Hne]; [done|].
      apply Z.divide_pos_le in Hga; [|lia]. destruct (decide (g = 1)) as [|Hg1]; [done|]. by destruct (Hp g); [lia|]. }
    destruct Hm as [k Hk]. rewrite <-Zmult_mod_idemp_r. fold a0. replace (s' * a0) with (1 + k * q) by lia.
    rewrite Z_mod_plus_full. done.
Qed.

Lemma invMod_ok a : a mod q ≠ 0 → ∃ i, invMod a q = Ok i ∧ canonical i ∧ (i * a) mod q = 1.
Proof.
  intros Ha. unfold invMod. rewrite modQ_mod, (proj2 (Z.eqb_neq _ 0)) by done. cbn [throw_if rbind].
  destruct (inv_steps a Ha) as (s' & -> & Hs). eexists. split; [reflexivity|].
  assert (E : Z.rem (Z.rem s' q + q) q = s' mod q).
  { pose proof (Z.rem_bound_abs s' q ltac:(done)) as Hb. pose proof (Z.quot_rem' s' q) as Eq. pose proof q_pos.
    rewrite Z.rem_mod_nonneg by lia. replace (Z.rem s' q + q) with (s' + (1 - s' ÷ q) * q) by lia. apply Z_mod_plus_full. }
  rewrite E. split; [apply Z.mod_pos_bound, q_pos|]. by rewrite Zmult_mod_idemp_l.
Qed.

(** [invMod] terminates and inverts: for every [a] that is not a multiple
    of the group order the loop of Euclid's algorithm ends within the fuel and
    the result is the canonical inverse; a multiple of the order makes it
    throw. *)
Theorem invMod_correct a :
  (a mod q ≠ 0 → ∃ i, invMod a q = Ok i ∧ canonical i ∧ scalarMul i a = 1) ∧
  (a mod q = 0 → ∃ msg, invMod a q = Err msg).
Proof.
  split.
  - intros Ha. destruct (invMod_ok a Ha) as (i & E & Hi & H). exists i. split; [done|]. split; [done|].
    unfold scalarMul. by rewrite scalarMod_mod.
  - intros Ha. unfold invMod. rewrite modQ_mod, Ha. by eexists.
Qed.

Lemma invMod_correct_witness : ∃ i, invMod (-7) q = Ok i ∧ scalarMul i (-7) = 1.
Proof.
  destruct (proj1 (invMod_correct (-7))) as (i & E & _ & H); [vm_compute; discriminate|]. exists i. by split.
Defined.

(** ** Congruence and polynomials modulo the order *)

Record cong (a b : Z) : Prop := Cong { cong_eq : a mod q = b mod q }.

#[export] Instance cong_equivalence : Equivalence cong.
Proof. split; [done|intros a b [H]; by split|intros a b c [H1] [H2]; split; congruence]. Qed.
#[export] Instance cong_add : Proper (cong ==> cong ==> cong) Z.add.
Proof. intros a a' [Ha] b b' [Hb]. split. by rewrite Zplus_mod, Ha, Hb, <-Zplus_mod. Qed.
#[export] Instance cong_mul : Proper (cong ==> cong ==> cong) Z.mul.
Proof. intros a a' [Ha] b b' [Hb]. split. by rewrite Zmult_mod, Ha, Hb, <-Zmult_mod. Qed.
#[export] Instance cong_sub : Proper (cong ==> cong ==> cong) Z.sub.
Proof. intros a a' [Ha] b b' [Hb]. split. by rewrite Zminus_mod, Ha, Hb, <-Zminus_mod. Qed.

Lemma cong_modQ a : cong (modQ a) a.
Proof. split. rewrite modQ_mod. apply Zmod_mod. Qed.
Lemma cong_zero a : cong a 0 ↔ a mod q = 0.
Proof. split; [by intros [H]|by split]. Qed.
Lemma cong_one a : cong a 1 ↔ a mod q = 1.
Proof. split; [by intros [H]|by split]. Qed.
Lemma cong_mul_zero a b : cong (a * b) 0 → cong a 0 ∨ cong b 0.
Proof.
  rewrite !cong_zero. intros H. destruct (decide (a mod q = 0)) as [|Ha]; [by left|]. right.
  destruct (decide (b mod q = 0)) as [|Hb]; [done|]. by destruct (mul_nonzero a b Ha Hb).
Qed.
Lemma cong_diff a b : cong (a - b) 0 ↔ cong a b.
Proof.
  split; intros H.
  - replace a with ((a - b) + b) by lia. by rewrite H.
  - by rewrite H, Z.sub_diag.
Qed.

(** Functions given by a list of at most [n] coefficients. *)
Definition is_poly (n : nat) (f : Z → Z) : Prop := ∃ c, (length c <= n)%nat ∧ ∀ x, f x = poly_value x c.

Fixpoint add_coeffs (c d : list Z) : list Z :=
  match c, d with
  | a :: c, b :: d => a + b :: add_coeffs c d
  | [], d => d
  | c, [] => c
  end.

Lemma poly_value_cons x a c : poly_value x (a :: c) = a + x * poly_value x c.
Proof. done. Qed.
Lemma add_coeffs_value x c d : poly_value x (add_coeffs c d) = poly_value x c + poly_value x d.
Proof.
  revert d. induction c as [|a c IH]; intros [|b d]; cbn [add_coeffs]; rewrite ?poly_value_cons; [done|cbn; lia..|]. rewrite IH. lia.
Qed.
Lemma add_coeffs_length c d : length (add_coeffs c d) = Nat.max (length c) (length d).
Proof. revert d. induction c as [|a c IH]; intros [|b d]; cbn; [done..|]. by rewrite IH. Qed.
Lemma scale_value x k c : poly_value x (map (Z.mul k) c) = k * poly_value x c.
Proof. induction c as [|a c IH]; cbn [map]; rewrite ?poly_value_cons; [cbn; lia|]. rewrite IH. lia. Qed.

Lemma is_poly_const n k : is_poly (S n) (λ _, k).
Proof. exists [k]. split; [simpl; lia|]. intros x. cbn. lia. Qed.
Lemma is_poly_zero n : is_poly n (λ _, 0).
Proof. exists []. split; [simpl; lia|done]. Qed.
Lemma is_poly_add n f g : is_poly n f → is_poly n g → is_poly n (λ x, f x + g x).
Proof.
  intros (c & Hc & Ef) (d & Hd & Eg). exists (add_coeffs c d). rewrite add_coeffs_length. split; [lia|].
  intros x. by rewrite add_coeffs_value, Ef, Eg.
Qed.
Lemma is_poly_scale n k f : is_poly n f → is_poly n (λ x, k * f x).
Proof. intros (c & Hc & Ef). exists (map (Z.mul k) c). rewrite length_map. split; [done|]. intros x. by rewrite scale_value, Ef. Qed.
Lemma is_poly_sub n f g : is_poly n f → is_poly n g → is_poly n (λ x, f x - g x).
Proof.
  intros Hf Hg. apply (is_poly_scale n (-1)) in Hg. destruct (is_poly_add n _ _ Hf Hg) as (c & Hc & E).
  exists c. split; [done|]. intros x. rewrite <-E. lia.
Qed.
Lemma is_poly_linear n a f : is_poly n f → is_poly (S n) (λ x, (x - a) * f x).
Proof.
  intros (c & Hc & Ef). exists (add_coeffs (0 :: c) (map (Z.mul (- a)) c)). rewrite add_coeffs_length, length_map.
  split; [simpl; lia|]. intros x. rewrite add_coeffs_value, scale_value, poly_value_cons, Ef. lia.
Qed.
Lemma is_poly_sum {A} n (h : A → Z → Z) (l : list A) :
  (∀ a, In a l → is_poly n (h a)) → is_poly n (λ x, sumZ (map (λ a, h a x) l)).
Proof.
  induction l as [|a l IH]; intros Hl; cbn [map]; [apply is_poly_zero|]. apply is_poly_add; [apply Hl; by left|].
  apply IH. intros b Hb. apply Hl. by right.
Qed.

(** Synthetic division by [x - r]. *)
Lemma divide_linear r c : ∃ d, (length d <= pred (length c))%nat ∧ ∀ x, poly_value x c = poly_value r c + (x - r) * poly_value x d.
Proof.
  induction c as [|a c (d & Hd & E)]; [exists []; split; [done|cbn; lia]|].
  exists (add_coeffs c (map (Z.mul r) d)). rewrite add_coeffs_length, length_map. split; [simpl; lia|].
  intros x. rewrite add_coeffs_value, scale_value, !poly_value_cons. specialize (E x). nia.
Qed.

(** Distinct nodes. *)
Definition distinct (xs : list Z) : Prop := NoDup (map (λ x, x mod q) xs).

(** A polynomial with as many roots as coefficients vanishes everywhere. *)
Lemma roots_zero xs f : distinct xs → is_poly (length xs) f → Forall (λ x, cong (f x) 0) xs → ∀ x, cong (f x) 0.
Proof.
  revert f. induction xs as [|r xs IH]; intros f Hd (c & Hc & Ef) Hr x.
  - destruct c; [by rewrite Ef|simpl in Hc; lia].
  - apply NoDup_cons in Hd as [Hin Hd]. apply Forall_cons in Hr as [Hr Hrs].
    destruct (divide_linear r c) as (d & Hlen & E). cbn [length] in Hc.
    assert (Hg : ∀ y, cong (poly_value y d) 0).
    { apply (IH (λ y, poly_value y d) Hd); [exists d; split; [lia|done]|]. clear IH Hd Hc Hlen. induction Hrs as [|y xs Hy _ IH']; constructor.
      - rewrite Ef, E, <-Ef, Hr, Z.add_0_l in Hy. apply cong_mul_zero in Hy as [Hy|Hy]; [|done].
        apply (proj1 (cong_diff _ _)) in Hy as [Hy]. destruct Hin. cbn [map]. rewrite Hy. by left.
      - apply IH'. intros Hn. apply Hin. cbn [map]. by right. }
    by rewrite Ef, E, <-Ef, Hr, Hg, Z.mul_0_r.
Qed.

(** ** The coefficients *)

Lemma mapR_err {E A B} (f : A → result E B) l x : In x l → (∃ e, f x = Err e) → ∃ e, mapR f l = Err e.
Proof.
  intros Hin (e & He). induction l as [|y l IH]; [done|]. cbn [mapR]. destruct (f y) eqn:Ey; cbn [rbind]; [|by eexists].
  destruct Hin as [->|Hin]; [congruence|]. destruct (IH Hin) as (e' & ->). by eexists.
Qed.

(** The product of [x - x_m] over the [m] of a list, except [j]. *)
Definition lprod (xs : list Z) (j : nat) (ms : list nat) (x : Z) : Z :=
  foldr (λ m acc, if (m =? j)%nat then acc else (x - rd 0 xs m) * acc) 1 ms.

Lemma lprod_cons xs j m ms x :
  lprod xs j (m :: ms) x = if (m =? j)%nat then lprod xs j ms x else (x - rd 0 xs m) * lprod xs j ms x.
Proof. done. Qed.

#[export] Instance lprod_Proper xs j ms : Proper (cong ==> cong) (lprod xs j ms).
Proof. intros x y E. induction ms as [|m ms IH]; [done|]. rewrite !lprod_cons. destruct (m =? j)%nat; [done|]. by rewrite IH, E. Qed.

Lemma lprod_poly_S xs j ms : is_poly (S (length ms)) (lprod xs j ms).
Proof.
  induction ms as [|m ms IH]; [apply is_poly_const|].
  destruct (m =? j)%nat eqn:E.
  - destruct IH as (c & Hc & Ef). exists c. split; [simpl; lia|]. intros x. by rewrite lprod_cons, E.
  - destruct (is_poly_linear _ (rd 0 xs m) _ IH) as (c & Hc & Ef). exists c. split; [done|]. intros x. by rewrite lprod_cons, E, <-Ef.
Qed.

Lemma lprod_poly xs j ms : In j ms → is_poly (length ms) (lprod xs j ms).
Proof.
  induction ms as [|m ms IH]; [done|]. intros Hj. destruct (m =? j)%nat eqn:E; b2p.
  - subst m. destruct (lprod_poly_S xs j ms) as (c & Hc & Ef). exists c. split; [done|]. intros x. by rewrite lprod_cons, Nat.eqb_refl.
  - destruct Hj as [Hj|Hj]; [done|]. destruct (is_poly_linear _ (rd 0 xs m) _ (IH Hj)) as (c & Hc & Ef).
    exists c. split; [done|]. intros x. by rewrite lprod_cons, (proj2 (Nat.eqb_neq m j)), <-Ef.
Qed.

Lemma lprod_root xs j ms i x : In i ms → i ≠ j → cong x (rd 0 xs i) → cong (lprod xs j ms x) 0.
Proof.
  intros Hin Hne Hx. induction ms as [|m ms IH]; [done|]. rewrite lprod_cons. destruct Hin as [->|Hin].
  - rewrite (proj2 (Nat.eqb_neq i j)) by done. by rewrite Hx, Z.sub_diag.
  - destruct (m =? j)%nat; [by apply IH|]. by rewrite IH, Z.mul_0_r.
Qed.

Lemma lprod_nonzero xs j ms x :
  (∀ m, In m ms → m ≠ j → ¬ cong x (rd 0 xs m)) → ¬ cong (lprod xs j ms x) 0.
Proof.
  induction ms as [|m ms IH]; intros Hm; [by intros [?]|]. rewrite lprod_cons. specialize (IH (λ k Hk, Hm k (or_intror Hk))).
  destruct (m =? j)%nat eqn:E; [done|]. b2p. intros [H|H]%cong_mul_zero; [|done].
  by apply (Hm m (or_introl eq_refl) E), (proj1 (cong_diff _ _)).
Qed.

(** What the loop accumulates. *)
Lemma lagrangeStep_fold xs j ms num den :
  let r := fold_left (lagrangeStep xs j) ms (num, den) in
  cong (fst r) (num * lprod xs j ms 0) ∧ cong (snd r) (den * lprod xs j ms (rd 0 xs j)).
Proof.
  revert num den. induction ms as [|m ms IH]; intros num den; [cbn; by rewrite !Z.mul_1_r|].
  cbn [fold_left]. unfold lagrangeStep at 2 4. rewrite !lprod_cons. destruct (m =? j)%nat; [apply IH|].
  destruct (IH (modQ (num * modQ (q - rd 0 xs m))) (modQ (den * modQ (rd 0 xs j - rd 0 xs m)))) as [H1 H2].
  split; [rewrite H1|rewrite H2]; rewrite !cong_modQ, <-Z.mul_assoc; [|done]. f_equiv. f_equiv.
  rewrite (proj2 (cong_zero q)); [done|]. apply Z_mod_same_full.
Qed.

(** The basis polynomial, through the inverse of [GroupOrder]. *)
Definition basis (xs : list Z) (j : nat) (x : Z) : Z :=
  let ms := seq 0 (length xs) in inverse (lprod xs j ms (rd 0 xs j)) * lprod xs j ms x.

Lemma distinct_spec xs i j : distinct xs → (i < length xs)%nat → (j < length xs)%nat → cong (rd 0 xs i) (rd 0 xs j) → i = j.
Proof.
  intros Hd Hi Hj E. apply (NoDup_lookup _ i j (rd 0 xs i mod q) Hd); change (@map Z Z) with (@fmap list _ Z Z); rewrite list_lookup_fmap.
  - by rewrite (lookup_rd 0 xs i Hi).
  - rewrite (lookup_rd 0 xs j Hj). cbn. by rewrite (cong_eq _ _ E).
Qed.

Lemma den_nonzero xs j : distinct xs → (j < length xs)%nat → ¬ cong (lprod xs j (seq 0 (length xs)) (rd 0 xs j)) 0.
Proof.
  intros Hd Hj. apply lprod_nonzero. intros m Hm Hne E. rewrite in_seq in Hm. apply Hne. symmetry.
  by apply (distinct_spec xs j m Hd Hj); [lia|].
Qed.

Lemma inverse_unique i a : (i * a) mod q = 1 → cong i (inverse a).
Proof.
  intros Hi. assert (Ha : a mod q ≠ 0). { intros E. by rewrite <-Zmult_mod_idemp_r, E, Z.mul_0_r in Hi. }
  assert (E1 : cong (i * a) 1) by by apply cong_one. assert (E2 : cong (inverse a * a) 1) by by apply cong_one, inverse_ok.
  rewrite <-(Z.mul_1_r i), <-E2. replace (i * (inverse a * a)) with ((i * a) * inverse a) by lia. by rewrite E1, Z.mul_1_l.
Qed.

Lemma lagrange_ok xs : distinct xs →
  ∃ ls, lagrangeCoefficients xs = Ok ls ∧ Forall2 (λ j l, canonical l ∧ cong l (basis xs j 0)) (seq 0 (length xs)) ls.
Proof.
  intros Hd. unfold lagrangeCoefficients. apply mapR_total, Forall_forall. intros j Hj%elem_of_seq.
  destruct (lagrangeStep_fold xs j (seq 0 (length xs)) 1 1) as [H1 H2]. destruct (fold_left _ _ _) as [num den]. cbn [fst snd] in *.
  rewrite Z.mul_1_l in H1, H2. assert (Hden : ¬ cong den 0) by (rewrite H2; apply den_nonzero; [done|lia]). rewrite cong_zero in Hden.
  destruct (invMod_ok den) as (i & -> & Hi & Hid); [done|]. cbn [rbind]. eexists. split; [reflexivity|].
  split; [rewrite modQ_mod; apply Z.mod_pos_bound, q_pos|]. rewrite cong_modQ, H1. unfold basis. rewrite Z.mul_comm. f_equiv.
  apply inverse_unique. apply (proj1 (cong_one _)). rewrite <-H2. by apply cong_one.
Qed.

Lemma lagrange_err xs : ¬ distinct xs → ∃ msg, lagrangeCoefficients xs = Err msg.
Proof.
  intros Hd. assert (Hij : ∃ i j, (i < j < length xs)%nat ∧ cong (rd 0 xs j) (rd 0 xs i)).
  { clear -Hd. induction xs as [|x xs IH]; [destruct Hd; constructor|].
    destruct (decide (x mod q ∈ map (λ x, x mod q) xs)) as [Hin|Hin].
    - apply list_elem_of_fmap in Hin as (y & Hy & Hin). apply list_elem_of_lookup in Hin as (k & Hk).
      exists 0%nat, (S k). split; [apply lookup_lt_Some in Hk; simpl; lia|]. split. by rewrite (rd_lookup 0 (x :: xs) (S k) y Hk).
    - destruct IH as (i & j & Hij & E). { intros Hx. apply Hd. by constructor. } exists (S i), (S j). split; [simpl; lia|exact E]. }
  destruct Hij as (i & j & Hij & E). unfold lagrangeCoefficients.
  apply (mapR_err _ _ j); [apply in_seq; lia|]. destruct (lagrangeStep_fold xs j (seq 0 (length xs)) 1 1) as [_ H2].
  destruct (fold_left _ _ _) as [num den]. cbn [snd] in H2. rewrite Z.mul_1_l, (lprod_root xs j _ i) in H2; [|apply in_seq; lia|lia|done].
  unfold invMod. rewrite modQ_mod. apply cong_zero in H2. rewrite H2. by eexists.
Qed.

Lemma sum_single {A} (h : A → Z) l i : NoDup l → i ∈ l → (∀ j, j ∈ l → j ≠ i → cong (h j) 0) → cong (sumZ (map h l)) (h i).
Proof.
  intros Hn Hi Hj. induction Hn as [|a l Ha Hn IH]; [by apply not_elem_of_nil in Hi|]. cbn [map]. rewrite sumZ_cons.
  apply elem_of_cons in Hi as [<-|Hi].
  - assert (Hz : cong (sumZ (map h l)) 0); [|by rewrite Hz, Z.add_0_r].
    assert (Hl : ∀ j, j ∈ l → cong (h j) 0). { intros j Hjl. apply Hj; [by right|]. intros ->. done. }
    clear -Hl. induction l as [|b l IH]; [done|]. cbn [map]. rewrite sumZ_cons, Hl by by left. rewrite IH; [done|].
    intros j Hjl. apply Hl. by right.
  - rewrite IH by (done || intros j Hjl; apply Hj; by right). rewrite Hj; [done|by left|]. by intros ->.
Qed.

(** Interpolation: the combination of the values at the nodes is the value
    anywhere, for a polynomial with no more coefficients than nodes. *)
Lemma interpolate xs coeffs x : distinct xs → (length coeffs <= length xs)%nat →
  cong (sumZ (map (λ j, poly_value (rd 0 xs j) coeffs * basis xs j x) (seq 0 (length xs)))) (poly_value x coeffs).
Proof.
  intros Hd Hc. apply cong_diff. pose (g y := sumZ (map (λ j, poly_value (rd 0 xs j) coeffs * basis xs j y) (seq 0 (length xs))) - poly_value y coeffs).
  apply (roots_zero xs g Hd).
  - apply is_poly_sub; [|by exists coeffs]. apply (is_poly_sum _ (λ j y, poly_value (rd 0 xs j) coeffs * basis xs j y)). intros j Hj. apply is_poly_scale. unfold basis.
    apply is_poly_scale. pose proof (lprod_poly xs j _ Hj) as Hp. by rewrite length_seq in Hp.
  - apply Forall_forall. intros y (i & Hi)%list_elem_of_lookup. pose proof (lookup_lt_Some _ _ _ Hi) as Hlt.
    pose proof (rd_lookup 0 xs i y Hi) as Hy. unfold g. rewrite (sum_single _ _ i).
    + apply cong_diff. rewrite Hy. unfold basis. rewrite Hy. rewrite <-(Z.mul_1_r (poly_value y coeffs)) at 2. f_equiv.
      apply cong_one, inverse_ok. rewrite <-cong_zero, <-Hy. by apply den_nonzero.
    + apply NoDup_seq.
    + apply elem_of_seq. lia.
    + intros j Hj Hne. unfold basis. rewrite (lprod_root xs j _ i y); [by rewrite !Z.mul_0_r|apply in_seq; lia|done|by rewrite Hy].
Qed.

Lemma map_rd_seq (xs : list Z) : map (rd 0 xs) (seq 0 (length xs)) = xs.
Proof.
  apply list_eq_same_length with (length xs); [done|by rewrite length_map, length_seq|]. intros i x y Hi. change (@map nat Z) with (@fmap list _ nat Z).
  rewrite list_lookup_fmap, lookup_seq_lt by done. rewrite (lookup_rd 0 xs i Hi). by intros [= <-] [= <-].
Qed.

(** The weighted sum, term by term. *)
Lemma weighted_sum (F : Z → Z) (x b : nat → Z) js ls :
  Forall2 (λ j l, canonical l ∧ cong l (b j)) js ls →
  cong (sumZ (zip_with (λ l x, l * F x) ls (map x js))) (sumZ (map (λ j, F (x j) * b j) js)).
Proof.
  induction 1 as [|j l js ls [_ Hl] _ IH]; [done|]. cbn [map zip_with]. rewrite !sumZ_cons, IH, Hl. by rewrite (Z.mul_comm (b j)).
Qed.

Lemma lagrange_at_zero xs ls coeffs :
  distinct xs → Forall2 (λ j l, canonical l ∧ cong l (basis xs j 0)) (seq 0 (length xs)) ls → (length coeffs <= length xs)%nat →
  cong (sumZ (zip_with (λ l x, l * poly_value x coeffs) ls xs)) (poly_value 0 coeffs).
Proof.
  intros Hd HF Hc. rewrite <-(map_rd_seq xs) at 1.
  rewrite (weighted_sum (λ x, poly_value x coeffs) (rd 0 xs) (λ j, basis xs j 0)) by done. by apply interpolate.
Qed.

(** Lagrange interpolation at zero: on indices that are distinct modulo the
    order [lagrangeCoefficients] succeeds, and its coefficients combine the
    values of any polynomial with at most as many coefficients as indices into
    the value at zero; a repeated index makes it throw. *)
Theorem lagrange_interpolates xs :
  (distinct xs → ∃ ls, lagrangeCoefficients xs = Ok ls ∧ length ls = length xs ∧ Forall canonical ls ∧
     ∀ coeffs, (length coeffs <= length xs)%nat →
       sumZ (zip_with (λ l x, l * poly_value x coeffs) ls xs) mod q = poly_value 0 coeffs mod q) ∧
  (¬ distinct xs → ∃ msg, lagrangeCoefficients xs = Err msg).
Proof.
  split; [|apply lagrange_err]. intros Hd. destruct (lagrange_ok xs Hd) as (ls & E & HF). exists ls. split; [done|].
  split; [transitivity (length (seq 0 (length xs))); [symmetry; exact (Forall2_length _ _ _ HF)|apply length_seq]|]. split.
  - clear E. induction HF as [|j l js ls' [Hl _] _ IH]; by constructor.
  - intros coeffs Hc. by apply lagrange_at_zero.
Qed.

Lemma lagrange_interpolates_witness :
  ∃ ls, lagrangeCoefficients [1; 3; 4] = Ok ls ∧ sumZ (zip_with (λ l x, l * poly_value x [42; 5; 6]) ls [1; 3; 4]) mod q = 42.
Proof.
  destruct (proj1 (lagrange_interpolates [1; 3; 4])) as (ls & E & _ & _ & H).
  - apply (bool_decide_unpack _). vm_compute. exact I.
  - exists ls. split; [exact E|]. rewrite (H [42; 5; 6]) by reflexivity. reflexivity.
Defined.

(** ** The table of the cards *)

Section cards.
Context {P : Type} `{RistrettoLaws P}.
Implicit Types (p D C : P).

Lemma bytesToHex_inj a b : bytes_ok a → bytes_ok b → bytesToHex a = bytesToHex b → a = b.
Proof.
  intros Ha Hb E. unfold bytesToHex in E. apply (f_equal String.list_ascii_of_string) in E. rewrite !string_list_ascii in E.
  apply (f_equal hexPairs) in E. rewrite !hexPairs_bytes in E by done. by injection E.
Qed.

Lemma pointHex_equiv (a b : P) : pointHex a = pointHex b ↔ a ≡ b.
Proof.
  unfold pointHex. split; [|by intros E%toRawBytes_Proper; unfold groupElementToBytes; rewrite E]. intros E.
  apply bytesToHex_inj in E; [by apply groupElement_roundtrip|apply toRawBytes_ok..].
Qed.

Lemma base_multiples i j : 0 < i < q → 0 < j < q → zmul i (BASE : P) ≡ zmul j BASE → i = j.
Proof.
  assert (Hle : ∀ i j, 0 < j < i → i < q → ¬ zmul i (BASE : P) ≡ zmul j BASE).
  { intros a b Hab Haq E. apply (base_order (P := P) (a - b)); [lia|]. rewrite times_mod by lia.
    apply (add_cancel_r _ _ (zmul b BASE)). by rewrite zmul_sub, E, add_zero. }
  intros Hi Hj E. destruct (decide (i = j)) as [|Hne]; [done|].
  destruct (decide (j < i)); [by destruct (Hle i j); [lia..|]|by destruct (Hle j i); [lia..|]].
Qed.

(** The point of a card. *)
Definition cardPoint (id : nat) : P := zmul (Z.of_nat (id + 1)) BASE.

Lemma table_prefix n : (n <= 52)%nat →
  ∃ t : gmap string nat,
    foldl (λ table id, let! table := table in let! pt := mulBase (P := P) (Z.of_nat (id + 1)) in Ok (<[pointHex pt := id]> table)) (Ok ∅) (seq 0 n) = Ok t ∧
    ∀ p id, t !! pointHex p = Some id ↔ (id < n)%nat ∧ p ≡ cardPoint id.
Proof.
  induction n as [|n IH]; intros Hn.
  { exists ∅. split; [done|]. intros p id. rewrite lookup_empty. split; [done|lia]. }
  destruct IH as (t & E & Ht); [lia|]. rewrite seq_S, foldl_app, E. cbn [foldl rbind Nat.add].
  assert (Hq : 52 < q) by done.
  destruct (mulPoint_total (BASE : P) (Z.of_nat (n + 1))) as (pt & Ept & Hpt); [lia|]. change (mulPoint BASE) with (mulBase (P := P)) in Ept.
  rewrite Ept. cbn [rbind]. eexists. split; [reflexivity|]. intros p id. rewrite lookup_insert_Some, Ht, pointHex_equiv. split.
  - intros [[Ep <-]|(Hne & Hid & Ep)]; [|by split; [lia|]]. split; [lia|]. unfold cardPoint. by rewrite <-Ep, Hpt.
  - intros [Hid Ep]. destruct (decide (id = n)) as [->|Hne]; [left; split; [|done]; by rewrite Ep, Hpt|].
    right. split; [|by split; [lia|]]. rewrite Ep, Hpt. unfold cardPoint. intros Eb. apply base_multiples in Eb; lia.
Qed.

Lemma lookupCardId_ok p : ∃ r, lookupCardId p = Ok r ∧ ∀ id, r = Some id ↔ (id < 52)%nat ∧ p ≡ cardPoint id.
Proof.
  unfold lookupCardId, CARD_TABLE. destruct (table_prefix 52) as (t & -> & Ht); [lia|]. cbn [rbind].
  eexists. split; [reflexivity|]. intros id. apply Ht.
Qed.

(** ** Recovering a card *)

Lemma mulPoint_nonzero p k : canonical k → ¬ cong k 0 → ∃ r : P, mulPoint p k = Ok r ∧ r ≡ zmul k p.
Proof.
  intros [Hk Hq] Hn. apply mulPoint_total. destruct (decide (k = 0)) as [->|]; [by destruct Hn|lia].
Qed.

Lemma recoverLoop_ok D (l : list (share * Z)) :
  Forall (λ sc, canonical (snd sc) ∧ ¬ cong (snd sc) 0) l →
  ∃ D', recoverLoop D l = Ok D' ∧ D' ≡ p_add D (foldr (λ sc acc, p_add (zmul (snd sc) (snd (fst sc))) acc) ZERO l).
Proof.
  intros Hl. revert D. induction Hl as [|[[x d] k] l [Hk Hn] _ IH]; intros D; cbn [fst snd] in *.
  - exists D. split; [done|]. cbn. by rewrite add_comm, add_zero.
  - destruct (mulPoint_nonzero d k Hk Hn) as (r & Er & Hr). destruct (IH (pointAdd D r)) as (D' & E & HD).
    exists D'. unfold recoverLoop in *. cbn [foldl foldr rbind fst snd]. rewrite Er. cbn [rbind]. split; [exact E|].
    rewrite HD. unfold pointAdd. by rewrite Hr, add_assoc.
Qed.

(** The combination of points that are multiples of one point. *)
Lemma combine_multiples (F : Z → Z) C (shares : list (@share P)) ls :
  Forall (λ s, snd s ≡ zmul (F (fst s)) C) shares →
  foldr (λ sc acc, p_add (zmul (snd sc) (snd (fst sc))) acc) ZERO (zip shares ls) ≡
  zmul (sumZ (zip_with (λ l x, l * F x) ls (map fst shares))) C.
Proof.
  intros HF. revert ls. induction HF as [|[x d] shares Hd _ IH]; intros [|l ls]; cbn [zip zip_with map foldr fst snd] in *; try done.
  rewrite sumZ_cons, zmul_add, IH, Hd. by rewrite zmul_mul.
Qed.

Lemma zmul_cong a b C : cong a b → zmul a C = zmul b C.
Proof. intros [E]. by apply zmul_mod. Qed.

Lemma coefficients_nonzero xs ls :
  distinct xs → Forall (λ x, ¬ cong x 0) xs → Forall2 (λ j l, canonical l ∧ cong l (basis xs j 0)) (seq 0 (length xs)) ls →
  Forall (λ l, canonical l ∧ ¬ cong l 0) ls.
Proof.
  intros Hd Hx HF. apply Forall_lookup_2. intros j l Hl. destruct (Forall2_lookup_r _ _ _ _ _ HF Hl) as (j' & Hj' & Hc & Hb).
  apply lookup_seq in Hj' as [-> Hj]. cbn [Nat.add] in Hb. split; [done|]. rewrite Hb. unfold basis. intros [E|E]%cong_mul_zero.
  - pose proof (den_nonzero xs j Hd Hj) as Hden. pose proof (inverse_ok _ (fun E0 => Hden (proj2 (cong_zero _) E0))) as Hi.
    apply cong_one in Hi. rewrite E, Z.mul_0_l in Hi. by destruct Hi.
  - revert E. apply lprod_nonzero. intros m Hm _ E. apply in_seq in Hm.
    rewrite Forall_lookup in Hx. apply (Hx m (rd 0 xs m)); [apply lookup_rd; lia|by symmetry].
Qed.

(** Shares of a point [C]: distinct, non-zero indices, enough of them, and the
    values of the polynomial at the indices as multiples of [C]. *)
Record shares_of (coeffs : list Z) (C : P) (shares : list (@share P)) : Prop := {
  so_distinct : distinct (map fst shares);
  so_nonzero : Forall (λ s, ¬ cong (fst s) 0) shares;
  so_enough : (length coeffs <= length shares)%nat;
  so_some : shares ≠ [];
  so_values : Forall (λ s, snd s ≡ zmul (poly_value (fst s) coeffs) C) shares
}.

Lemma recoverCard_ok coeffs C (cipher : P) shares id :
  shares_of coeffs C shares → (id < 52)%nat → cipher ≡ p_add (cardPoint id) (zmul (poly_value 0 coeffs) C) →
  recoverCard cipher shares = Ok (Some id).
Proof.
  intros [Hd Hn Hlen Hne Hv] Hid Hc. destruct shares as [|s0 rest]; [done|]. unfold recoverCard. set (shares := s0 :: rest) in *.
  destruct (lagrange_ok (map fst shares) Hd) as (ls & -> & HF). cbn [rbind].
  assert (Hnz := coefficients_nonzero _ _ Hd (proj2 (Forall_fmap fst (λ x, ¬ cong x 0) shares) Hn) HF).
  assert (Hsum := lagrange_at_zero _ _ coeffs Hd HF ltac:(by rewrite length_map)).
  assert (Hcomb : foldr (λ sc acc, p_add (zmul (snd sc) (snd (fst sc))) acc) ZERO (zip shares ls) ≡ zmul (poly_value 0 coeffs) C).
  { rewrite <-(zmul_cong _ _ C Hsum). exact (combine_multiples (λ x, poly_value x coeffs) C shares ls Hv). }
  destruct ls as [|l0 ls]; [by inversion HF|]. apply Forall_cons in Hnz as [[Hl0 Hl0n] Hnz]. change (rd 0 (l0 :: ls) 0) with l0. change (drop 1 (l0 :: ls)) with ls.
  destruct (mulPoint_nonzero (snd s0) l0 Hl0 Hl0n) as (D0 & -> & HD0). cbn [rbind].
  destruct (recoverLoop_ok D0 (zip rest ls)) as (D & ED & HD).
  { clear -Hnz. revert rest. induction Hnz as [|l ls Hl _ IH]; intros [|s rest]; constructor; [done|apply IH]. }
  rewrite ED. cbn [rbind]. destruct (lookupCardId_ok (pointSub cipher D)) as (r & -> & Hr). f_equal. apply Hr. split; [done|].
  apply sub_unique. rewrite Hc. f_equiv. rewrite HD, HD0. exact Hcomb.
Qed.

(** Threshold recovery: from decryption shares [f(x_j)*C] at distinct,
    non-zero indices, at least as many as the committee's polynomial [f] has
    coefficients, [recoverCard] finds the card [id] in the ciphertext component
    [(id+1)*G + f(0)*C]; without shares it finds no card, and a repeated index
    makes it throw. *)
Theorem recoverCard_threshold coeffs C (cipher : P) shares :
  (∀ id, shares_of coeffs C shares → (id < 52)%nat → cipher ≡ p_add (cardPoint id) (zmul (poly_value 0 coeffs) C) →
     recoverCard cipher shares = Ok (Some id)) ∧
  recoverCard cipher [] = Ok None ∧
  (¬ distinct (map fst shares) → ∃ msg, recoverCard cipher shares = Err msg).
Proof.
  split; [intros id; apply recoverCard_ok|]. split; [done|]. intros Hd. destruct shares as [|s0 rest]; [by destruct Hd; constructor|].
  unfold recoverCard. destruct (lagrange_err _ Hd) as (msg & ->). by exists msg.
Qed.

(** ** From the JSON *)

Lemma bytesEqual_spec (a b : bytes) : bytesEqual a b = bool_decide (a = b).
Proof.
  unfold bytesEqual. destruct (length a =? length b)%nat eqn:E; cbn [negb]; b2p.
  2:{ symmetry. apply bool_decide_eq_false. intros ->. done. }
  apply eq_true_iff_eq. rewrite bool_decide_eq_true, forallb_forall. split; [|intros -> i _; apply Z.eqb_refl].
  intros Hi. apply list_eq_same_length with (length b); [done..|]. intros i u v Hlt Hu Hv. specialize (Hi i).
  rewrite in_seq, Z.eqb_eq, (rd_lookup _ a i u), (rd_lookup _ b i v) in Hi by done. apply Hi. lia.
Qed.

Section json.
Context (base64 : list ascii → bytes) (pkPlayerBytes : bytes) (PK : P) (skPlayer : Scalar).
Hypothesis sk_ok : nonzero skPlayer.
Hypothesis PK_ok : PK ≡ zmul skPlayer BASE.

(** An encrypted share of the position for the player: [V] carries [D] under
    the player's key. *)
Definition honest_share (pos idx : Z) (D : P) (es : EncShareJson) : Prop :=
  readNum es.(es_pos) = Some pos ∧
  toBytes base64 (coalesce es.(es_pkPlayer) es.(es_pk_player)) = Ok pkPlayerBytes ∧
  readNum es.(es_index) = Some idx ∧
  ∃ U V r, toBytes base64 (coalesce es.(es_encShare) es.(es_enc_share)) = Ok (groupElementToBytes U ++ groupElementToBytes V) ∧
    U ≡ zmul r (BASE : P) ∧ V ≡ p_add D (zmul r PK).

(** One that is for another position or player, or malformed. *)
Definition ignored_share (pos : Z) (es : EncShareJson) : Prop :=
  readNum es.(es_pos) ≠ Some pos ∨
  ∃ pk, toBytes base64 (coalesce es.(es_pkPlayer) es.(es_pk_player)) = Ok pk ∧
    (pk ≠ pkPlayerBytes ∨
     ∃ bs, toBytes base64 (coalesce es.(es_encShare) es.(es_enc_share)) = Ok bs ∧
       (is_ok (decryptEncShare (P := P) bs skPlayer) = false ∨ readNum es.(es_index) = None)).

(** The list delivers shares of [C] at these indices, among ignored ones. *)
Inductive delivers (coeffs : list Z) (C : P) (pos : Z) : list EncShareJson → list Z → Prop :=
| delivers_nil : delivers coeffs C pos [] []
| delivers_skip es l idxs : ignored_share pos es → delivers coeffs C pos l idxs → delivers coeffs C pos (es :: l) idxs
| delivers_take es l idx idxs : honest_share pos idx (zmul (poly_value idx coeffs) C) es →
    delivers coeffs C pos l idxs → delivers coeffs C pos (es :: l) (idx :: idxs).

Lemma decryptEncShare_ok U V r D :
  U ≡ zmul r (BASE : P) → V ≡ p_add D (zmul r PK) →
  ∃ d, decryptEncShare (groupElementToBytes U ++ groupElementToBytes V) skPlayer = Ok d ∧ d ≡ D.
Proof.
  intros HU HV. unfold decryptEncShare. rewrite length_app, !point_length. cbn [Nat.add Nat.eqb negb throw_if rbind].
  rewrite slice_here by apply point_length. rewrite (slice_skip (groupElementToBytes U) _ 32) by (apply point_length || lia). cbn [Nat.sub].
  rewrite <-(app_nil_r (groupElementToBytes V)), slice_here by apply point_length.
  destruct (groupElement_decode U) as (U' & -> & HU'), (groupElement_decode V) as (V' & -> & HV'). cbn [rbind].
  destruct (mulPoint_total U' skPlayer sk_ok) as (skU & -> & HskU). cbn [rbind]. eexists. split; [reflexivity|].
  apply sub_unique. by rewrite HskU, HU', HV', HU, HV, PK_ok, (zmul_comm skPlayer r).
Qed.

Lemma collectShare_ignored pos shares es : ignored_share pos es → collectShare base64 pos pkPlayerBytes skPlayer shares es = Ok shares.
Proof.
  unfold collectShare. intros [Hp|(pk & Epk & Hpk)]; [by rewrite bool_decide_false|].
  case_bool_decide; [|done]. cbn [negb]. rewrite Epk. cbn [rbind]. rewrite bytesEqual_spec.
  destruct Hpk as [Hpk|(bs & Ebs & Hbs)]; [by rewrite bool_decide_false|]. case_bool_decide; [|done]. cbn [negb]. rewrite Ebs. cbn [rbind].
  destruct Hbs as [Hbs| ->]; [|by destruct (decryptEncShare _ _)]. by destruct (decryptEncShare bs skPlayer).
Qed.

Lemma collectShare_honest pos idx D shares es :
  honest_share pos idx D es → ∃ d, collectShare base64 pos pkPlayerBytes skPlayer shares es = Ok (shares ++ [(idx, d)]) ∧ d ≡ D.
Proof.
  intros (Hp & Hpk & Hidx & U & V & r & Ebs & HU & HV). unfold collectShare. rewrite Hp, bool_decide_true by done. cbn [negb].
  rewrite Hpk. cbn [rbind]. rewrite bytesEqual_spec, bool_decide_true by done. cbn [negb]. rewrite Ebs, Hidx. cbn [rbind].
  destruct (decryptEncShare_ok U V r D HU HV) as (d & -> & Hd). by exists d.
Qed.

Lemma collectShares_ok coeffs C pos l idxs : delivers coeffs C pos l idxs →
  ∃ shares, collectShares base64 pos pkPlayerBytes skPlayer l = Ok shares ∧ map fst shares = idxs ∧
    Forall (λ s, snd s ≡ zmul (poly_value (fst s) coeffs) C) shares.
Proof.
  intros Hl. enough (H' : ∀ acc, ∃ shares : list (@share P),
    foldl (λ shares es, let! shares := shares in collectShare base64 pos pkPlayerBytes skPlayer shares es) (Ok acc) l = Ok (acc ++ shares) ∧
    map fst shares = idxs ∧ Forall (λ s, snd s ≡ zmul (poly_value (fst s) coeffs) C) shares).
  { destruct (H' []) as (shares & E & Hs). by exists shares. }
  induction Hl as [|es l idxs Hi _ IH|es l idx idxs Hh _ IH]; intros acc.
  - exists []. split; [by rewrite app_nil_r|]. split; [done|constructor].
  - cbn [foldl rbind]. rewrite collectShare_ignored by done. apply IH.
  - cbn [foldl rbind]. destruct (collectShare_honest pos idx _ acc es Hh) as (d & -> & Hd).
    destruct (IH (acc ++ [(idx, d)])) as (shares & E & Em & Hf). exists ((idx, d) :: shares). rewrite E, <-app_assoc.
    split; [done|]. split; [by cbn [map fst]; rewrite Em|by constructor].
Qed.

(** A position dealt to the player: the deck holds [(id+1)*G + f(0)*C], and
    enough validators published a share. *)
Record dealt (deck : list (option (option raw))) (encShares : list EncShareJson) (coeffs : list Z) (pos : Z) (id : nat) : Prop := {
  dealt_pos : 0 <= pos ∧ pos ≠ 255;
  dealt_id : (id < 52)%nat;
  dealt_entry : ∃ c2Raw cipher C idxs,
    deck !! Z.to_nat pos = Some (Some c2Raw) ∧ falsyRaw c2Raw = false ∧ toBytes base64 c2Raw = Ok (groupElementToBytes cipher) ∧
    cipher ≡ p_add (cardPoint id) (zmul (poly_value 0 coeffs) C) ∧
    delivers coeffs C pos encShares idxs ∧ distinct idxs ∧ Forall (λ x, ¬ cong x 0) idxs ∧ (length coeffs <= length idxs)%nat ∧ idxs ≠ []
}.

Lemma decryptPosition_ok deck encShares coeffs pos id :
  dealt deck encShares coeffs pos id →
  decryptPosition (P := P) base64 deck encShares pkPlayerBytes skPlayer pos = Ok (Some id).
Proof.
  intros [[Hpos H255] Hid (c2Raw & cipher & C & idxs & Hdeck & Hfal & Hraw & Hcipher & Hdel & Hd & Hn & Hlen & Hne)].
  unfold decryptPosition. rewrite (proj2 (Z.eqb_neq pos 255)), (proj2 (Z.ltb_ge pos 0)) by lia. cbn [orb].
  rewrite Hdeck, Hfal, Hraw. cbn [rbind]. destruct (groupElement_decode cipher) as (c & -> & Hc). cbn [rbind].
  destruct (collectShares_ok coeffs C pos encShares idxs Hdel) as (shares & -> & Hmap & Hval). cbn [rbind].
  assert (Hls : length shares = length idxs) by (by rewrite <-Hmap, length_map).
  rewrite (proj2 (Nat.eqb_neq _ 0)); [|intros E; destruct idxs; [done|simpl in Hls; lia]].
  apply (recoverCard_ok coeffs C); [|done|by rewrite Hc].
  split; [by rewrite Hmap| |by rewrite Hls| |done].
  - rewrite <-Hmap in Hn. by apply (proj1 (Forall_fmap fst (λ x, ¬ cong x 0) shares)).
  - intros ->. by subst idxs.
Qed.

(** End to end: when two deck positions are dealt to the player - for each,
    validators with distinct non-zero indices, at least as many as the
    committee's polynomial has coefficients, published shares encrypted to the
    player's key, among shares of other positions or players and malformed
    ones - [decryptHoleCards] returns the two cards, reading either spelling of
    the field that holds the shares.  A position that is not dealt ([255]), or
    a missing hand, gives no cards. *)
Theorem decryptHoleCards_correct dh encShares coeffs pos0 pos1 id0 id1 :
  coalesce dh.(dh_encShares) dh.(dh_enc_shares) = Some encShares →
  dealt (default [] dh.(dh_deck)) encShares coeffs pos0 id0 →
  dealt (default [] dh.(dh_deck)) encShares coeffs pos1 id1 →
  decryptHoleCards (P := P) base64 (Some dh) (pos0, pos1) pkPlayerBytes skPlayer = Ok (Some (id0, id1)) ∧
  decryptHoleCards (P := P) base64 (Some dh) (255, pos1) pkPlayerBytes skPlayer = Ok None ∧
  decryptHoleCards (P := P) base64 (Some dh) (pos0, 255) pkPlayerBytes skPlayer = Ok None ∧
  decryptHoleCards (P := P) base64 None (pos0, pos1) pkPlayerBytes skPlayer = Ok None.
Proof.
  intros Hes H0' H1'. unfold decryptHoleCards. cbn [mbind option_bind fst snd]. rewrite Hes. cbn [default from_option id].
  change (option_bind _ _ dh_deck (Some dh)) with (dh_deck dh). rewrite (decryptPosition_ok _ _ _ _ _ H0'), (decryptPosition_ok _ _ _ _ _ H1').
  split; [done|]. split; [done|]. split; [done|]. unfold decryptPosition. rewrite lookup_nil. by destruct (_ || _).
Qed.
End json.
End cards.

(** ** Witnesses: the residues *)

Import Residue.

Lemma zmul_is k (p y : Z) : k * p mod q = y mod q → y ≡ zmul k p.
Proof. intros E. rewrite <-zmul_residue. by apply residue_equiv. Qed.

Lemma not_cong_zero x : 0 < x < q → ¬ cong x 0.
Proof. intros Hx [E]. rewrite !Z.mod_small in E by lia. lia. Qed.

Lemma residue_cipher (coeffs : list Z) (C : Z) id (y : Z) :
  (y - (Z.of_nat (id + 1) * 1 + poly_value 0 coeffs * C)) mod q = 0 → y ≡ p_add (cardPoint id) (zmul (poly_value 0 coeffs) C).
Proof.
  intros E. unfold cardPoint. rewrite <-(zmul_residue (poly_value 0 coeffs)), <-zmul_residue. apply residue_equiv, cong_eq, cong_diff.
  by apply cong_zero.
Qed.

Lemma recoverCard_threshold_witness : recoverCard (19 : Z) [(1, 20); (2, 26)] = Ok (Some 4%nat).
Proof.
  destruct (recoverCard_threshold [7; 3] (2 : Z) 19 [(1, 20); (2, 26)]) as [Hok _]. apply (Hok 4%nat).
  - split.
    + apply (bool_decide_unpack _). vm_compute. exact I.
    + repeat constructor; apply not_cong_zero; split; vm_compute; reflexivity.
    + reflexivity.
    + discriminate.
    + repeat constructor; apply zmul_is; vm_compute; reflexivity.
  - apply (bool_decide_unpack _). vm_compute. exact I.
  - apply residue_cipher. vm_compute. reflexivity.
Defined.

(** A share in the JSON, with the position as a string and the key and the
    ciphertext in one of the two spellings. *)
Definition json_share (pos : string) (idx U V : Z) : EncShareJson :=
  mkEncShareJson (NumString pos) (Some (RawBytes (encode 5))) None None (Some (RawBytes (encode U ++ encode V))) (NumInt idx).

Definition json_hand : DealerHandJson :=
  mkDealerHandJson (Some [Some (Some (RawBytes (encode 19))); Some (Some (RawBytes (encode 33)))]) None
    (Some [json_share "0" 1 3 35; json_share "1" 1 2 40; json_share "1" 2 2 49; json_share "0" 2 1 31]).

Lemma json_share_honest (pos : string) (posZ idx U V D : Z) :
  readNum (NumString pos) = Some posZ → (V - (D + U * 5)) mod q = 0 → 0 <= U < q → 0 <= V < q →
  honest_share (λ _, []) (encode 5) 5 posZ idx D (json_share pos idx U V).
Proof.
  intros Hp HV HU HVq. split; [done|]. split; [done|]. split; [done|]. exists U, V, U. split; [|split].
  - cbn [json_share coalesce toBytes es_encShare es_enc_share groupElementToBytes toRawBytes residue_ops].
    unfold groupElementToBytes. cbn [toRawBytes residue_ops]. by rewrite !Z.mod_small.
  - apply zmul_is. by rewrite Z.mul_1_r.
  - rewrite <-zmul_residue. apply residue_equiv. apply cong_eq, cong_diff. by apply cong_zero.
Qed.

Ltac honest := eapply json_share_honest; [vm_compute; reflexivity|vm_compute; reflexivity|split; vm_compute; congruence..].

Lemma decryptHoleCards_correct_witness :
  decryptHoleCards (P := Z) (λ _, []) (Some json_hand) (0, 1) (encode 5) 5 = Ok (Some (4%nat, 11%nat)).
Proof.
  destruct (decryptHoleCards_correct (λ _, []) (encode 5) (5 : Z) 5 ltac:(split; vm_compute; reflexivity) ltac:(apply zmul_is; reflexivity)
    json_hand [json_share "0" 1 3 35; json_share "1" 1 2 40; json_share "1" 2 2 49; json_share "0" 2 1 31] [7; 3] 0 1 4%nat 11%nat)
    as [Hok _]; [reflexivity| | |exact Hok].
  - split; [split; vm_compute; congruence|lia|]. exists (Some (RawBytes (encode 19))), 19, 2, [1; 2].
    split; [reflexivity|]. split; [reflexivity|]. split; [vm_compute; reflexivity|]. split.
    { apply residue_cipher. vm_compute. reflexivity. }
    split.
    { apply delivers_take; [honest|]. apply delivers_skip; [by left|]. apply delivers_skip; [by left|].
      apply delivers_take; [honest|]. apply delivers_nil. }
    split; [apply (bool_decide_unpack _); vm_compute; exact I|].
    split; [repeat constructor; apply not_cong_zero; split; vm_compute; reflexivity|]. split; [simpl; lia|discriminate].
  - split; [split; vm_compute; congruence|lia|]. exists (Some (RawBytes (encode 33))), 33, 3, [1; 2].
    split; [reflexivity|]. split; [reflexivity|]. split; [vm_compute; reflexivity|]. split.
    { apply residue_cipher. vm_compute. reflexivity. }
    split.
    { apply delivers_skip; [by left|]. apply delivers_take; [honest|]. apply delivers_take; [honest|].
      apply delivers_skip; [by left|]. apply delivers_nil. }
    split; [apply (bool_decide_unpack _); vm_compute; exact I|].
    split; [repeat constructor; apply not_cong_zero; split; vm_compute; reflexivity|]. split; [simpl; lia|discriminate].
Defined.

End HoleThms.
