(* ===== verification/Monads.v ===== *)
(** * Imperative code that may throw

    A computation over a state [S] either throws (the state is then lost, as
    the callers that matter let the exception out) or returns a value and the
    new state.  [triple P m Q] is the specification of such a computation that
    may throw only the exceptions a predicate allows; the rules below are the
    ones the proofs about loops and handlers use. *)
From stdpp Require Import base option list.
From Stdlib Require Import ZArith Lia.
From S2P Require Import Prelude.


Module StateM.

Section monad.
Context {S E : Type}.

Definition M (A : Type) : Type := S → result E (A * S).

#[export] Instance M_ret : MRet M := λ A a s, Ok (a, s).
#[export] Instance M_bind : MBind M := λ A B k m s,
  match m s with Ok (a, s') => k a s' | Err e => Err e end.

Definition get : M S := λ s, Ok (s, s).
Definition modify (f : S → S) : M unit := λ s, Ok (tt, f s).
Definition throw {A} (e : E) : M A := λ _, Err e.
(** [if (b) throw e] *)
Definition throwIf (b : bool) (e : E) : M unit := if b then throw e else mret tt.
(** A value that must be there. *)
Definition orThrow {A} (o : option A) (e : E) : M A := match o with Some a => mret a | None => throw e end.
Definition lift {A} (r : result E A) : M A := λ s, match r with Ok a => Ok (a, s) | Err e => Err e end.

(** [for (const x of l) body(x)] *)
Fixpoint forEach {A} (l : list A) (body : A → M unit) : M unit :=
  match l with
  | [] => mret tt
  | x :: l => body x ≫= λ _, forEach l body
  end.

(** ** Specifications *)

Context (allowed : E → Prop).

Definition triple {A} (P : S → Prop) (m : M A) (Q : A → S → Prop) : Prop :=
  ∀ s, P s → match m s with Ok (a, s') => Q a s' | Err e => allowed e end.

Lemma triple_ret {A} (P : S → Prop) (a : A) (Q : A → S → Prop) : (∀ s, P s → Q a s) → triple P (mret a) Q.
Proof. done. Qed.

Lemma triple_bind {A B} P (m : M A) (k : A → M B) (R : A → S → Prop) Q :
  triple P m R → (∀ a, triple (R a) (k a) Q) → triple P (m ≫= k) Q.
Proof.
  intros Hm Hk s Hs. specialize (Hm s Hs). unfold mbind, M_bind. destruct (m s) as [[a s']|e]; [by apply Hk|done].
Qed.

Lemma triple_get {A} P (k : S → M A) Q : (∀ s, P s → triple (λ s', s' = s) (k s) Q) → triple P (get ≫= k) Q.
Proof. intros H s Hs. by apply (H s Hs). Qed.

Lemma triple_modify P f (Q : unit → S → Prop) : (∀ s, P s → Q tt (f s)) → triple P (modify f) Q.
Proof. intros H s Hs. by apply H. Qed.

Lemma triple_throw {A} P e (Q : A → S → Prop) : (∀ s, P s → allowed e) → triple P (throw e) Q.
Proof. intros H s Hs. by apply (H s). Qed.

Lemma triple_throwIf P b e Q : (∀ s, P s → b = true → allowed e) → (∀ s, P s → b = false → Q tt s) → triple P (throwIf b e) Q.
Proof. intros H1 H2 s Hs. unfold throwIf. destruct b; [by apply (H1 s)|by apply H2]. Qed.

Lemma triple_orThrow {A} P (o : option A) e Q :
  (∀ s, P s → o = None → allowed e) → (∀ s a, P s → o = Some a → Q a s) → triple P (orThrow o e) Q.
Proof. intros H1 H2 s Hs. unfold orThrow. destruct o; [by apply H2|by apply (H1 s)]. Qed.

Lemma triple_lift {A} P (r : result E A) Q :
  (∀ s e, P s → r = Err e → allowed e) → (∀ s a, P s → r = Ok a → Q a s) → triple P (lift r) Q.
Proof. intros H1 H2 s Hs. unfold lift. destruct r; [by apply H2|by apply (H1 s)]. Qed.

Lemma triple_pre {A} (P P' : S → Prop) (m : M A) Q : (∀ s, P s → P' s) → triple P' m Q → triple P m Q.
Proof. intros HP Hm s Hs. by apply Hm, HP. Qed.

Lemma triple_post {A} P (m : M A) (Q Q' : A → S → Prop) : triple P m Q' → (∀ a s, Q' a s → Q a s) → triple P m Q.
Proof. intros Hm HQ s Hs. specialize (Hm s Hs). destruct (m s) as [[a s']|e]; [by apply HQ|done]. Qed.

(** One state at a time. *)
Lemma triple_at {A} P (m : M A) Q : (∀ s, P s → triple (λ s', s' = s) m Q) → triple P m Q.
Proof. intros H s Hs. by apply (H s Hs). Qed.

(** A pure fact of the precondition. *)
Lemma triple_fact {A} (φ : Prop) P (m : M A) Q : (φ → triple P m Q) → triple (λ s, φ ∧ P s) m Q.
Proof. intros H s [Hφ Hs]. by apply H. Qed.

(** A loop with an invariant on what is left to do. *)
Lemma triple_forEach {A} (I : list A → S → Prop) (l : list A) (body : A → M unit) :
  (∀ x rest, triple (I (x :: rest)) (body x) (λ _, I rest)) → triple (I l) (forEach l body) (λ _, I []).
Proof.
  intros H. induction l as [|x l IH]; [by intros s Hs|]. cbn [forEach]. by eapply triple_bind; [apply H|intros u; exact IH].
Qed.
End monad.
Arguments M : clear implicits.

End StateM.

(** ** Effectful code that may throw and catch

    A computation over a state [S] ends with a value or an exception and, either
    way, with the state its effects have left: [try], [catch] and [finally]
    observe the assignments made before the exception. *)


Module ExceptM.

Section monad.
Context {S E : Type}.

Definition X (A : Type) : Type := S → result E A * S.

#[export] Instance X_ret : MRet X := λ A a s, (Ok a, s).
#[export] Instance X_bind : MBind X := λ A B k m s,
  match m s with (Ok a, s') => k a s' | (Err e, s') => (Err e, s') end.

Definition read {A} (f : S → A) : X A := λ s, (Ok (f s), s).
Definition write (f : S → S) : X unit := λ s, (Ok tt, f s).
Definition raise {A} (e : E) : X A := λ s, (Err e, s).
Definition ofRes {A} (r : result E A) : X A := λ s, (r, s).

(** [try { m } catch (e) { h(e) }] *)
Definition tryCatch {A} (m : X A) (h : E → X A) : X A := λ s,
  match m s with (Ok a, s') => (Ok a, s') | (Err e, s') => h e s' end.

(** [try { m } finally { f }], for an [f] that does not throw. *)
Definition finally {A} (m : X A) (f : S → S) : X A := λ s, let '(r, s') := m s in (r, f s').

Lemma bind_ok {A B} (m : X A) (k : A → X B) s a s' : m s = (Ok a, s') → (m ≫= k) s = k a s'.
Proof. intros H. unfold mbind, X_bind. by rewrite H. Qed.

Lemma bind_err {A B} (m : X A) (k : A → X B) s e s' : m s = (Err e, s') → (m ≫= k) s = (Err e, s').
Proof. intros H. unfold mbind, X_bind. by rewrite H. Qed.

Lemma bind_read {A B} (f : S → A) (k : A → X B) s : (read f ≫= k) s = k (f s) s.
Proof. done. Qed.

Lemma bind_write {B} (f : S → S) (k : unit → X B) s : (write f ≫= k) s = k tt (f s).
Proof. done. Qed.

Lemma bind_ofRes {A B} (r : result E A) (a : A) (k : A → X B) s : r = Ok a → (ofRes r ≫= k) s = k a s.
Proof. by intros ->. Qed.

Lemma bind_inv {A B} (m : X A) (k : A → X B) s b s' :
  (m ≫= k) s = (Ok b, s') → ∃ a s1, m s = (Ok a, s1) ∧ k a s1 = (Ok b, s').
Proof. unfold mbind, X_bind. destruct (m s) as [[a|e] s1]; [by exists a, s1|done]. Qed.

Lemma bind_ofRes_inv {A B} (r : result E A) (k : A → X B) s b s' :
  (ofRes r ≫= k) s = (Ok b, s') → ∃ a, r = Ok a ∧ k a s = (Ok b, s').
Proof. intros (a & s1 & [= -> <-] & Hk)%bind_inv. by exists a. Qed.

(** Whatever [m] does, [finally] leaves [f] of its state and [m]'s outcome. *)
Lemma finally_eq {A} (m : X A) f s : finally m f s = ((m s).1, f (m s).2).
Proof. unfold finally. by destruct (m s). Qed.

(** A computation after which [I] still holds, however it ends. *)
Definition maintains {A} (I : S → Prop) (m : X A) : Prop := ∀ s, I s → I (m s).2.

Lemma maintains_ret {A} (I : S → Prop) (a : A) : maintains I (mret a : X A).
Proof. by intros s. Qed.
Lemma maintains_raise {A} (I : S → Prop) (e : E) : maintains I (raise e : X A).
Proof. by intros s. Qed.
Lemma maintains_ofRes {A} (I : S → Prop) (r : result E A) : maintains I (ofRes r).
Proof. by intros s. Qed.
Lemma maintains_read {A} (I : S → Prop) (f : S → A) : maintains I (read f).
Proof. by intros s. Qed.
Lemma maintains_write (I : S → Prop) (f : S → S) : (∀ s, I s → I (f s)) → maintains I (write f).
Proof. intros H s. apply H. Qed.
Lemma maintains_bind {A B} (I : S → Prop) (m : X A) (k : A → X B) :
  maintains I m → (∀ a, maintains I (k a)) → maintains I (m ≫= k).
Proof.
  intros Hm Hk s Hs. specialize (Hm s Hs). unfold mbind, X_bind. destruct (m s) as [[a|e] s']; [by apply Hk|done].
Qed.
Lemma maintains_tryCatch {A} (I : S → Prop) (m : X A) h : maintains I m → (∀ e, maintains I (h e)) → maintains I (tryCatch m h).
Proof.
  intros Hm Hh s Hs. specialize (Hm s Hs). unfold tryCatch. destruct (m s) as [[a|e] s']; [done|by apply Hh].
Qed.
Lemma maintains_finally {A} (I : S → Prop) (m : X A) f : maintains I m → (∀ s, I s → I (f s)) → maintains I (finally m f).
Proof. intros Hm Hf s Hs. rewrite finally_eq. by apply Hf, Hm. Qed.
End monad.
Arguments X : clear implicits.

End ExceptM.
