(* ===== verification/SimTypes.v ===== *)
(** * The protocol simulator's data: [apps/sim/src/types.ts], [prng.ts], [invariants.ts]

    The simulator plays whole hands of the dealer protocol against behaviours
    of validators and players.  An identifier such as [P3] or [V3] is the number
    3.  The [Map] of the validators holds the keys [V0], [V1], ... in order of
    insertion, so it is a list indexed by the number; the tables of behaviours,
    which the caller makes, are finite maps.  Chip amounts are integers.  The
    three fields that the code adds to the world object ([__committeeIndex],
    [__nextCommittee], [__initialTotal]) are fields of [World]. *)
From stdpp Require Import base option list strings gmap pretty.
From Stdlib Require Import ZArith Lia.
From S2P Require Import Prelude Monads.
Import StateM.

Module SimTypes.

Abbreviation PlayerId := nat (only parsing).
Abbreviation ValidatorId := nat (only parsing).

Inductive PlayerStatus := Seated | InHand | Folded | SitOut | Ejected.
Inductive ValidatorStatus := Active | Jailed.
Inductive HandPhase :=
  HandInit | Shuffle | DealHole | PreflopBetting | FlopReveal | TurnReveal | RiverReveal | Showdown | HandComplete | HandAborted.
Inductive Street := Flop | Turn | River.

#[export] Instance PlayerStatus_eq : EqDecision PlayerStatus.
Proof. solve_decision. Defined.
#[export] Instance ValidatorStatus_eq : EqDecision ValidatorStatus.
Proof. solve_decision. Defined.
#[export] Instance HandPhase_eq : EqDecision HandPhase.
Proof. solve_decision. Defined.

Record TableParams := mkTableParams {
  smallBlind : Z; bigBlind : Z; playerBondMin : Z; playerTimeoutSlash : Z; dealerSlash : Z
}.

Record SimConfig := mkSimConfig {
  seed : Z; tableId : string; params : TableParams;
  playerCount : number; startingStack : Z; startingBond : Z;
  validatorSetSize : Z; committeeSize : Z; thresholdT : Z; startingValidatorStake : Z;
  committeePlan : option (list (list ValidatorId));
  refundBlindsOnPreActionAbort : bool; coordinatorOnline : bool;
  hands : Z; rotateCommitteeEveryHand : bool
}.

Record Player := mkPlayer {
  p_id : PlayerId; p_seat : nat; p_stack : Z; p_committed : Z; p_bond : Z; p_status : PlayerStatus; p_timeoutCount : Z
}.
Record Validator := mkValidator { v_id : ValidatorId; v_stake : Z; v_status : ValidatorStatus; v_slashCount : Z }.
Record Committee := mkCommittee { c_epochId : Z; c_members : list ValidatorId; c_thresholdT : Z }.
Record DealerState := mkDealerState { d_committee : Committee; d_deck : option (list Z); d_deckCommit : option string; d_deckCursor : Z }.
Record HandState := mkHandState {
  h_handId : Z; h_phase : HandPhase; h_dealer : DealerState; h_board : list Z;
  h_holeCards : gmap PlayerId (list Z); h_potTotal : Z; h_didBetBeyondBlinds : bool; h_abortedReason : option string
}.
Record TableState := mkTableState {
  t_tableId : string; t_params : TableParams; t_players : list Player; t_hand : option HandState; t_buttonSeat : nat
}.
Record World := mkWorld {
  w_config : SimConfig; w_treasury : Z; w_validators : list Validator; w_table : TableState; w_epochId : Z; w_nextHandId : Z;
  w_committeeIndex : nat; w_nextCommittee : option Committee; w_initialTotal : option Z
}.

Inductive Event :=
| TableCreated (tableId : string)
| HandStarted (tableId : string) (handId epochId : Z) (committee : list ValidatorId)
| DeckFinalized (tableId : string) (handId : Z) (deckCommit : string)
| StreetRevealed (tableId : string) (handId : Z) (street : Street) (cards : list Z)
| ActionApplied (tableId : string) (handId : Z) (playerId : PlayerId) (action : string)
| TimeoutApplied (tableId : string) (handId : Z) (playerId : PlayerId) (timeoutResult : string)
| PlayerSlashed (playerId : PlayerId) (reason : string) (amount : Z)
| PlayerEjected (playerId : PlayerId) (reason : string)
| ValidatorSlashed (validatorId : ValidatorId) (reason : string) (amount : Z)
| EvHandAborted (tableId : string) (handId : Z) (reason : string)
| HandCompleted (tableId : string) (handId : Z) (winner : PlayerId) (pot : Z).

Inductive ValidatorDecision := SubmitValid | SubmitInvalid | Withhold.

Record ValidatorBehavior := mkValidatorBehavior {
  onShuffle : Z → Z → nat → ValidatorDecision;              (* epochId, handId, round *)
  onEncShare : Z → Z → Z → PlayerId → ValidatorDecision;    (* epochId, handId, pos, playerId *)
  onPubShare : Z → Z → Z → ValidatorDecision                (* epochId, handId, pos *)
}.

Inductive PlayerAction := Fold | Call | CheckAct | RaiseTo (amount : Z) | WithholdAct.

Record PlayerBehavior := mkPlayerBehavior {
  onPreflopAction : Z → PlayerId → Z → Z → PlayerAction     (* handId, playerId, toCall, minRaiseTo *)
}.

Record Behaviors := mkBehaviors {
  validator : gmap ValidatorId ValidatorBehavior;
  player : gmap PlayerId PlayerBehavior
}.

(** The exceptions, with the data of their messages. *)
Inductive SimError :=
| NegativeStake (id : ValidatorId) | NegativeStack (id : PlayerId) | NegativeCommitted (id : PlayerId) | NegativeBond (id : PlayerId)
| ConservationViolated (total initial : Z) | DeckCursorOutOfBounds (cursor : Z)
| HandNotStarted | DeckNotInitialized | InvalidDeckPos (pos : Z) | HandCommitteeMissing
| EncShareCtxIncomplete | PubShareCtxIncomplete | HoleCardsMissing | NoSeatedPlayerFound
| PrngBounds
| BadPlayerCount | NotEnoughValidators (have need : Z) | PlanSize (idx : nat) | PlanUnknownValidator (idx : nat) (id : ValidatorId)
| PlanNonActiveValidator (idx : nat) (id : ValidatorId)
| TooFewSeated | InsufficientStackForBlinds
| MissingValidatorBehavior (id : ValidatorId) | MissingPlayerBehavior (id : PlayerId).

(** ** Assignments to a field *)

Definition set_stack (f : Z → Z) (p : Player) := mkPlayer p.(p_id) p.(p_seat) (f p.(p_stack)) p.(p_committed) p.(p_bond) p.(p_status) p.(p_timeoutCount).
Definition set_committed (f : Z → Z) (p : Player) := mkPlayer p.(p_id) p.(p_seat) p.(p_stack) (f p.(p_committed)) p.(p_bond) p.(p_status) p.(p_timeoutCount).
Definition set_bond (f : Z → Z) (p : Player) := mkPlayer p.(p_id) p.(p_seat) p.(p_stack) p.(p_committed) (f p.(p_bond)) p.(p_status) p.(p_timeoutCount).
Definition set_status (st : PlayerStatus) (p : Player) := mkPlayer p.(p_id) p.(p_seat) p.(p_stack) p.(p_committed) p.(p_bond) st p.(p_timeoutCount).
Definition set_timeouts (f : Z → Z) (p : Player) := mkPlayer p.(p_id) p.(p_seat) p.(p_stack) p.(p_committed) p.(p_bond) p.(p_status) (f p.(p_timeoutCount)).

Definition set_phase (ph : HandPhase) (h : HandState) := mkHandState h.(h_handId) ph h.(h_dealer) h.(h_board) h.(h_holeCards) h.(h_potTotal) h.(h_didBetBeyondBlinds) h.(h_abortedReason).
Definition set_dealer (d : DealerState) (h : HandState) := mkHandState h.(h_handId) h.(h_phase) d h.(h_board) h.(h_holeCards) h.(h_potTotal) h.(h_didBetBeyondBlinds) h.(h_abortedReason).
Definition set_board (b : list Z) (h : HandState) := mkHandState h.(h_handId) h.(h_phase) h.(h_dealer) b h.(h_holeCards) h.(h_potTotal) h.(h_didBetBeyondBlinds) h.(h_abortedReason).
Definition set_holeCards (m : gmap PlayerId (list Z)) (h : HandState) := mkHandState h.(h_handId) h.(h_phase) h.(h_dealer) h.(h_board) m h.(h_potTotal) h.(h_didBetBeyondBlinds) h.(h_abortedReason).
Definition set_pot (v : Z) (h : HandState) := mkHandState h.(h_handId) h.(h_phase) h.(h_dealer) h.(h_board) h.(h_holeCards) v h.(h_didBetBeyondBlinds) h.(h_abortedReason).
Definition set_didBet (b : bool) (h : HandState) := mkHandState h.(h_handId) h.(h_phase) h.(h_dealer) h.(h_board) h.(h_holeCards) h.(h_potTotal) b h.(h_abortedReason).
Definition set_abortedReason (r : string) (h : HandState) := mkHandState h.(h_handId) h.(h_phase) h.(h_dealer) h.(h_board) h.(h_holeCards) h.(h_potTotal) h.(h_didBetBeyondBlinds) (Some r).
Definition set_deck (k : list Z) (d : DealerState) := mkDealerState d.(d_committee) (Some k) d.(d_deckCommit) d.(d_deckCursor).
Definition set_deckCommit (c : string) (d : DealerState) := mkDealerState d.(d_committee) d.(d_deck) (Some c) d.(d_deckCursor).
Definition set_deckCursor (n : Z) (d : DealerState) := mkDealerState d.(d_committee) d.(d_deck) d.(d_deckCommit) n.

Definition set_table (t : TableState) (w : World) := mkWorld w.(w_config) w.(w_treasury) w.(w_validators) t w.(w_epochId) w.(w_nextHandId) w.(w_committeeIndex) w.(w_nextCommittee) w.(w_initialTotal).
Definition set_players (ps : list Player) (w : World) := let t := w.(w_table) in set_table (mkTableState t.(t_tableId) t.(t_params) ps t.(t_hand) t.(t_buttonSeat)) w.
Definition set_hand (h : option HandState) (w : World) := let t := w.(w_table) in set_table (mkTableState t.(t_tableId) t.(t_params) t.(t_players) h t.(t_buttonSeat)) w.
Definition set_button (b : nat) (w : World) := let t := w.(w_table) in set_table (mkTableState t.(t_tableId) t.(t_params) t.(t_players) t.(t_hand) b) w.
Definition set_treasury (v : Z) (w : World) := mkWorld w.(w_config) v w.(w_validators) w.(w_table) w.(w_epochId) w.(w_nextHandId) w.(w_committeeIndex) w.(w_nextCommittee) w.(w_initialTotal).
Definition set_validators (vs : list Validator) (w : World) := mkWorld w.(w_config) w.(w_treasury) vs w.(w_table) w.(w_epochId) w.(w_nextHandId) w.(w_committeeIndex) w.(w_nextCommittee) w.(w_initialTotal).
Definition set_epoch (n : Z) (w : World) := mkWorld w.(w_config) w.(w_treasury) w.(w_validators) w.(w_table) n w.(w_nextHandId) w.(w_committeeIndex) w.(w_nextCommittee) w.(w_initialTotal).
Definition set_nextHandId (n : Z) (w : World) := mkWorld w.(w_config) w.(w_treasury) w.(w_validators) w.(w_table) w.(w_epochId) n w.(w_committeeIndex) w.(w_nextCommittee) w.(w_initialTotal).
Definition set_committeeIndex (n : nat) (w : World) := mkWorld w.(w_config) w.(w_treasury) w.(w_validators) w.(w_table) w.(w_epochId) w.(w_nextHandId) n w.(w_nextCommittee) w.(w_initialTotal).
Definition set_nextCommittee (c : Committee) (w : World) := mkWorld w.(w_config) w.(w_treasury) w.(w_validators) w.(w_table) w.(w_epochId) w.(w_nextHandId) w.(w_committeeIndex) (Some c) w.(w_initialTotal).
Definition set_initialTotal (n : Z) (w : World) := mkWorld w.(w_config) w.(w_treasury) w.(w_validators) w.(w_table) w.(w_epochId) w.(w_nextHandId) w.(w_committeeIndex) w.(w_nextCommittee) (Some n).

(** ** prng.ts

    [this.a] is a number that is never truncated (exact below 2^53); the
    operators truncate their operands to 32 bits. *)

Definition toUint32 (x : Z) : Z := x mod 2 ^ 32.
Definition toInt32 (x : Z) : Z := let u := toUint32 x in if u <? 2 ^ 31 then u else u - 2 ^ 32.
Definition xor32 (x y : Z) : Z := toInt32 (Z.lxor (toUint32 x) (toUint32 y)).
Definition or32 (x y : Z) : Z := toInt32 (Z.lor (toUint32 x) (toUint32 y)).
Definition ushr32 (x : Z) (k : Z) : Z := Z.shiftr (toUint32 x) k.
Definition imul (x y : Z) : Z := toInt32 (x * y).

Definition newPrng (seed : Z) : Z :=
  let a := ushr32 seed 0 in if a =? 0 then 0x6d2b79f5 else a.

(** The new state and the output. *)
Definition nextU32 (a : Z) : Z * Z :=
  let a := a + 0x6d2b79f5 in
  let t := a in
  let t := imul (xor32 t (ushr32 t 15)) (or32 t 1) in
  let t := xor32 t (t + imul (xor32 t (ushr32 t 7)) (or32 t 61)) in
  (a, ushr32 (xor32 t (ushr32 t 14)) 0).

Definition prngInt (a minInclusive maxExclusive : Z) : result SimError (Z * Z) :=
  if maxExclusive <=? minInclusive then Err PrngBounds
  else
    let span := maxExclusive - minInclusive in
    let '(a, u) := nextU32 a in
    Ok (a, minInclusive + u mod span).

(** [[arr[i], arr[j]] = [arr[j], arr[i]]] *)
Definition swap {A} (arr : list A) (i j : nat) : list A :=
  match arr !! i, arr !! j with
  | Some x, Some y => <[j:=x]> (<[i:=y]> arr)
  | _, _ => arr
  end.

(** The loop for [i] from [n] down to 1. *)
Fixpoint shuffleLoop {A} (n : nat) (a : Z) (arr : list A) : result SimError (Z * list A) :=
  match n with
  | O => Ok (a, arr)
  | S n' =>
      let! (a, j) := prngInt a 0 (Z.of_nat n + 1) in
      shuffleLoop n' a (swap arr n (Z.to_nat j))
  end.

Definition shuffleInPlace {A} (a : Z) (arr : list A) : result SimError (Z * list A) := shuffleLoop (pred (length arr)) a arr.

(** ** invariants.ts *)

Fixpoint checkValidators (total : Z) (vs : list Validator) : result SimError Z :=
  match vs with
  | [] => Ok total
  | v :: vs =>
      let! _ := throw_if (v.(v_stake) <? 0) (NegativeStake v.(v_id)) in
      checkValidators (total + v.(v_stake)) vs
  end.

Fixpoint checkPlayers (total : Z) (ps : list Player) : result SimError Z :=
  match ps with
  | [] => Ok total
  | p :: ps =>
      let! _ := throw_if (p.(p_stack) <? 0) (NegativeStack p.(p_id)) in
      let! _ := throw_if (p.(p_committed) <? 0) (NegativeCommitted p.(p_id)) in
      let! _ := throw_if (p.(p_bond) <? 0) (NegativeBond p.(p_id)) in
      checkPlayers (total + (p.(p_stack) + p.(p_committed) + p.(p_bond))) ps
  end.

Definition checkInvariants (w : World) : result SimError World :=
  let! total := checkValidators w.(w_treasury) w.(w_validators) in
  let! total := checkPlayers total w.(w_table).(t_players) in
  let! w := match w.(w_initialTotal) with
            | None => Ok (set_initialTotal total w)
            | Some initial => if total =? initial then Ok w else Err (ConservationViolated total initial)
            end in
  match w.(w_table).(t_hand) with
  | None => Ok w
  | Some hand =>
      let cursor := hand.(h_dealer).(d_deckCursor) in
      if (cursor <? 0) || (52 <? cursor) then Err (DeckCursorOutOfBounds cursor) else Ok w
  end.

(** ** The state of a run: the world, the events so far, the generator *)

Record Sim := mkSim { s_world : World; s_events : list Event; s_prng : Z }.

Abbreviation sim := (M Sim SimError).

Definition getWorld : sim World := s ← get; mret s.(s_world).
Definition modifyWorld (f : World → World) : sim unit := modify (λ s, mkSim (f s.(s_world)) s.(s_events) s.(s_prng)).
Definition emit (e : Event) : sim unit := modify (λ s, mkSim s.(s_world) (s.(s_events) ++ [e]) s.(s_prng)).
Definition withPrng {A} (f : Z → result SimError (Z * A)) : sim A :=
  s ← get; ax ← lift (f s.(s_prng)); modify (λ s, mkSim s.(s_world) s.(s_events) (fst ax)) ;; mret (snd ax).

Definition assertInvariants : sim unit :=
  w ← getWorld; w' ← lift (checkInvariants w); modifyWorld (λ _, w').

Definition getHand : sim HandState := w ← getWorld; orThrow w.(w_table).(t_hand) HandNotStarted.
Definition modifyHand (f : HandState → HandState) : sim unit := modifyWorld (λ w, set_hand (f <$> w.(w_table).(t_hand)) w).
Definition modifyPlayers (f : list Player → list Player) : sim unit := modifyWorld (λ w, set_players (f w.(w_table).(t_players)) w).
(** An assignment through a reference to the player at an index. *)
Definition modifyPlayer (i : nat) (f : Player → Player) : sim unit := modifyPlayers (alter f i).

Example prng_first : nextU32 (newPrng 1) = (1831565814, 2693262067).
Proof. vm_compute. reflexivity. Qed.

End SimTypes.
