(* ===== verification/SimWorld.v ===== *)
(** * The protocol simulator: [apps/sim/src/sim.ts]

    One definition per function of the file, as computations over the world,
    the list of events and the generator.  A reference to a player object is an
    index of the array of players: what the code reads through the reference
    after an assignment is read again from the array.  The digest of the deck
    is the parameter [sha256Hex] of [hash.ts]. *)
From stdpp Require Import base option list strings gmap pretty.
From Stdlib Require Import ZArith Lia.
From S2P Require Import Prelude Monads SimTypes.
Import StateM SimTypes.

Module SimWorld.

(** [arr.slice(0, n)] *)
Definition slice0 {A} (n : Z) (l : list A) : list A :=
  if n <? 0 then take (Z.to_nat (Z.of_nat (length l) + n)) l else take (Z.to_nat n) l.

(** The numbers in a template string. *)
Definition showNat (n : nat) : string := pretty (Z.of_nat n).
Definition showZ (n : Z) : string := pretty n.

(** ** Reading the table *)

Definition sumCommitted (players : list Player) : Z := foldl (λ pot p, pot + p.(p_committed)) 0 players.

(** References to the players that satisfy a test. *)
Definition refs (f : Player → bool) (players : list Player) : list nat :=
  List.filter (λ i, match players !! i with Some p => f p | None => false end) (seq 0 (length players)).

Definition isActiveInHand (p : Player) : bool :=
  bool_decide (p.(p_status) = InHand) || bool_decide (p.(p_status) = Folded) || bool_decide (p.(p_status) = Ejected).

Definition remainingPlayers (players : list Player) : list nat := refs (λ p, bool_decide (p.(p_status) = InHand)) players.

(** [players.find((x) => x.seat === seat)] *)
Definition findSeat (seat : nat) (players : list Player) : option (nat * Player) := list_find (λ p, p.(p_seat) = seat) players.
Definition findId (id : PlayerId) (players : list Player) : option (nat * Player) := list_find (λ p, p.(p_id) = id) players.

Definition isActive (v : Validator) : bool := bool_decide (v.(v_status) = Active).

Definition activeValidators (w : World) (committee : Committee) : list Validator :=
  List.filter isActive (omap (λ id, w.(w_validators) !! id) committee.(c_members)).

(** ** Slashing *)

Definition slashValidator (id : ValidatorId) (reason : string) : sim unit :=
  w ← getWorld;
  match w.(w_validators) !! id with
  | None => mret tt
  | Some v =>
      if negb (isActive v) then mret tt
      else
        let amt := Z.min w.(w_config).(params).(dealerSlash) v.(v_stake) in
        let v' := mkValidator v.(v_id) (v.(v_stake) - amt) Jailed (v.(v_slashCount) + 1) in
        modifyWorld (λ w, set_treasury (w.(w_treasury) + amt) (set_validators (<[id:=v']> w.(w_validators)) w)) ;;
        emit (ValidatorSlashed id reason amt)
  end.

Definition slashPlayer (id : PlayerId) (reason : string) : sim unit :=
  w ← getWorld;
  match findId id w.(w_table).(t_players) with
  | None => mret tt
  | Some (i, p) =>
      let amt := Z.min w.(w_config).(params).(playerTimeoutSlash) p.(p_bond) in
      modifyPlayer i (λ p, set_timeouts (λ n, n + 1) (set_bond (λ b, b - amt) p)) ;;
      modifyWorld (λ w, set_treasury (w.(w_treasury) + amt) w) ;;
      emit (PlayerSlashed id reason amt) ;;
      if (p.(p_bond) - amt <? w.(w_config).(params).(playerBondMin)) && negb (bool_decide (p.(p_status) = Ejected))
      then modifyPlayer i (set_status Ejected) ;; emit (PlayerEjected id "bond below minimum")
      else mret tt
  end.

Definition applyTimeoutDefaultAction (toCall : Z) : PlayerAction * string :=
  if toCall =? 0 then (CheckAct, "check"%string) else (Fold, "fold"%string).

Definition normalizePlayerAction (action : PlayerAction) (toCall : Z) : PlayerAction :=
  match action with
  | CheckAct => if negb (toCall =? 0) then Fold else CheckAct
  | Call => if toCall =? 0 then CheckAct else Call
  | _ => action
  end.

(** ** The deck *)

Definition dealFromDeck (pos : Z) : sim Z :=
  w ← getWorld;
  match w.(w_table).(t_hand) ≫= (λ h, h.(h_dealer).(d_deck)) with
  | None => throw DeckNotInitialized
  | Some deck =>
      throwIf ((pos <? 0) || (Z.of_nat (length deck) <=? pos)) (InvalidDeckPos pos) ;;
      mret (rd 0 deck (Z.to_nat pos))
  end.

Definition verifyShuffleIsPermutation (prev next : list Z) : bool :=
  if negb (length prev =? length next)%nat then false
  else
    let a := sort_by Z.leb prev in
    let b := sort_by Z.leb next in
    forallb (λ i, rd 0 a i =? rd 0 b i) (seq 0 (length a)).

(** [decisions.set(id, d)] of a [Map]: a key that is there keeps its place. *)
Fixpoint mapSet (id : ValidatorId) (d : ValidatorDecision) (m : list (ValidatorId * ValidatorDecision)) : list (ValidatorId * ValidatorDecision) :=
  match m with
  | [] => [(id, d)]
  | (id', d') :: m => if (id' =? id)%nat then (id, d) :: m else (id', d') :: mapSet id d m
  end.

Inductive DecisionKind := KShuffle | KEnc | KPub.
Record DecisionCtx := mkDecisionCtx { x_epochId : Z; x_handId : Z; x_round : option nat; x_pos : option Z; x_playerId : option PlayerId }.

Definition decide1 (b : ValidatorBehavior) (kind : DecisionKind) (ctx : DecisionCtx) : result SimError ValidatorDecision :=
  match kind with
  | KShuffle => Ok (b.(onShuffle) ctx.(x_epochId) ctx.(x_handId) (default 0%nat ctx.(x_round)))
  | KEnc => match ctx.(x_pos), ctx.(x_playerId) with
            | Some pos, Some playerId => Ok (b.(onEncShare) ctx.(x_epochId) ctx.(x_handId) pos playerId)
            | _, _ => Err EncShareCtxIncomplete
            end
  | KPub => match ctx.(x_pos) with
            | Some pos => Ok (b.(onPubShare) ctx.(x_epochId) ctx.(x_handId) pos)
            | None => Err PubShareCtxIncomplete
            end
  end.

Fixpoint decideAll (w : World) (behavior : gmap ValidatorId ValidatorBehavior) (kind : DecisionKind) (ctx : DecisionCtx)
    (members : list ValidatorId) (decisions : list (ValidatorId * ValidatorDecision)) : result SimError (list (ValidatorId * ValidatorDecision)) :=
  match members with
  | [] => Ok decisions
  | vId :: members =>
      match w.(w_validators) !! vId with
      | Some v =>
          if isActive v then
            match behavior !! vId with
            | None => Err (MissingValidatorBehavior vId)
            | Some b => let! d := decide1 b kind ctx in decideAll w behavior kind ctx members (mapSet vId d decisions)
            end
          else decideAll w behavior kind ctx members decisions
      | None => decideAll w behavior kind ctx members decisions
      end
  end.

Definition collectValidatorDecisions (w : World) (behavior : gmap ValidatorId ValidatorBehavior) (kind : DecisionKind) (ctx : DecisionCtx)
    : result SimError (list (ValidatorId * ValidatorDecision)) :=
  match w.(w_table).(t_hand) with
  | None => Err HandCommitteeMissing
  | Some hand => decideAll w behavior kind ctx hand.(h_dealer).(d_committee).(c_members) []
  end.

(** ** The world at the start *)

Definition createDefaultConfig (seed : Z) : SimConfig :=
  mkSimConfig seed "T1" (mkTableParams 1 2 10 2 50) (Int 6) 100 20 6 4 3 200 None true true 1 false.

Definition newValidators (config : SimConfig) : list Validator :=
  map (λ i, mkValidator i config.(startingValidatorStake) Active 0) (seq 0 (Z.to_nat config.(validatorSetSize))).

Definition newPlayers (config : SimConfig) (n : Z) : list Player :=
  map (λ i, mkPlayer i i config.(startingStack) 0 config.(startingBond) Seated 0) (seq 0 (Z.to_nat n)).

Definition selectCommittee : sim Committee :=
  w ← getWorld;
  let all := map v_id (List.filter isActive w.(w_validators)) in
  throwIf (Z.of_nat (length all) <? w.(w_config).(committeeSize)) (NotEnoughValidators (Z.of_nat (length all)) w.(w_config).(committeeSize)) ;;
  all ← withPrng (λ a, shuffleInPlace a all);
  mret (mkCommittee w.(w_epochId) (slice0 w.(w_config).(committeeSize) all) w.(w_config).(thresholdT)).

(** The world object before the committee is chosen; the run starts with no
    events. *)
Definition initialWorld (config : SimConfig) (n : Z) : World :=
  mkWorld config 0 (newValidators config)
    (mkTableState config.(tableId) config.(params) (newPlayers config n) None 0) 1 1 0 None None.

Definition createWorld : sim unit :=
  w ← getWorld;
  let config := w.(w_config) in
  match config.(playerCount) with
  | NotInteger => throw BadPlayerCount
  | Int n =>
      throwIf ((n <? 2) || (9 <? n)) BadPlayerCount ;;
      modifyWorld (λ _, initialWorld config n) ;;
      w ← getWorld;
      match config.(committeePlan) ≫= (λ plan, plan !! 0%nat) with
      | Some members => modifyWorld (set_nextCommittee (mkCommittee w.(w_epochId) members config.(thresholdT)))
      | None => c ← selectCommittee; modifyWorld (set_nextCommittee c)
      end ;;
      assertInvariants
  end.

Fixpoint checkPlanned (w : World) (idx : nat) (members : list ValidatorId) : result SimError unit :=
  match members with
  | [] => Ok tt
  | id :: members =>
      match w.(w_validators) !! id with
      | None => Err (PlanUnknownValidator idx id)
      | Some v => let! _ := throw_if (negb (isActive v)) (PlanNonActiveValidator idx id) in checkPlanned w idx members
      end
  end.

Definition getNextCommittee : sim Committee :=
  w ← getWorld;
  let idx := w.(w_committeeIndex) in
  match w.(w_config).(committeePlan) ≫= (λ plan, plan !! idx) with
  | Some members =>
      throwIf (negb (Z.of_nat (length members) =? w.(w_config).(committeeSize))) (PlanSize idx) ;;
      lift (checkPlanned w idx members) ;;
      mret (mkCommittee w.(w_epochId) members w.(w_config).(thresholdT))
  | None =>
      match w.(w_nextCommittee) with
      | Some c => mret c
      | None => c ← selectCommittee; modifyWorld (set_nextCommittee c) ;; mret c
      end
  end.

Definition rotateCommittee : sim Committee :=
  modifyWorld (λ w, set_epoch (w.(w_epochId) + 1) w) ;;
  w ← getWorld;
  match w.(w_config).(committeePlan) with
  | Some _ => getNextCommittee
  | None => c ← selectCommittee; modifyWorld (set_nextCommittee c) ;; mret c
  end.

(** ** A hand *)

Definition resetPlayer (bondMin : Z) (p : Player) : Player :=
  let p := set_committed (λ _, 0) p in
  if bool_decide (p.(p_status) = Ejected) then p
  else if p.(p_bond) <? bondMin then set_status SitOut p else set_status Seated p.

Definition startHand : sim unit :=
  committee ← getNextCommittee;
  w ← getWorld;
  modifyPlayers (map (resetPlayer w.(w_table).(t_params).(playerBondMin))) ;;
  let handId := w.(w_nextHandId) in
  modifyWorld (set_nextHandId (handId + 1)) ;;
  modifyWorld (set_hand (Some (mkHandState handId HandInit (mkDealerState committee None None 0) [] ∅ 0 false None))) ;;
  emit (HandStarted w.(w_table).(t_tableId) handId committee.(c_epochId) committee.(c_members)) ;;
  match w.(w_config).(committeePlan) with
  | Some _ => modifyWorld (λ w, set_committeeIndex (S w.(w_committeeIndex)) w)
  | None => mret tt
  end.

(** [nextSeatedFrom]: the loop over [i] from 1. *)
Fixpoint nextSeatedLoop (players : list Player) (start : nat) (steps : list nat) : option nat :=
  match steps with
  | [] => None
  | i :: steps =>
      match findSeat ((start + i) mod length players) players with
      | Some (k, p) => if bool_decide (p.(p_status) = Seated) then Some k else nextSeatedLoop players start steps
      | None => nextSeatedLoop players start steps
      end
  end.

Definition nextSeatedFrom (players : list Player) (start : nat) : option nat := nextSeatedLoop players start (seq 1 (length players)).

(** The player behind a reference. *)
Definition noPlayer : Player := mkPlayer 0%nat 0%nat 0 0 0 SitOut 0.
Definition getPlayer (i : nat) : sim Player := w ← getWorld; mret (rd noPlayer w.(w_table).(t_players) i).

Definition pay (amt : Z) (p : Player) : Player := set_committed (λ c, c + amt) (set_stack (λ s, s - amt) p).

(** [hand.potTotal = sumCommitted(world.table.players)] *)
Definition updatePot : sim unit := w ← getWorld; modifyHand (set_pot (sumCommitted w.(w_table).(t_players))).

Definition postBlinds : sim unit :=
  _ ← getHand;
  w ← getWorld;
  let players := w.(w_table).(t_players) in
  throwIf (length (refs (λ p, bool_decide (p.(p_status) = Seated)) players) <? 2)%nat TooFewSeated ;;
  sb ← orThrow (nextSeatedFrom players w.(w_table).(t_buttonSeat)) NoSeatedPlayerFound;
  bb ← orThrow (nextSeatedFrom players (rd noPlayer players sb).(p_seat)) NoSeatedPlayerFound;
  let sbAmt := w.(w_table).(t_params).(smallBlind) in
  let bbAmt := w.(w_table).(t_params).(bigBlind) in
  throwIf (((rd noPlayer players sb).(p_stack) <? sbAmt) || ((rd noPlayer players bb).(p_stack) <? bbAmt)) InsufficientStackForBlinds ;;
  modifyPlayer sb (pay sbAmt) ;;
  modifyPlayer bb (pay bbAmt) ;;
  updatePot.

Definition initDeck : sim unit :=
  _ ← getHand;
  modifyHand (λ h, set_dealer (set_deck (map Z.of_nat (seq 0 52)) h.(h_dealer)) h).

Section run.
Context (sha256Hex : string → string) (behaviors : Behaviors).

(** [deck.join(",")] *)
Definition joinDeck (deck : list Z) : string := String.concat "," (map showZ deck).

Definition shuffleRound (committee : Committee) (handId : Z) (round : nat) : sim unit :=
  let shufflerId := rd 0%nat committee.(c_members) round in
  w ← getWorld;
  match w.(w_validators) !! shufflerId with
  | None => mret tt
  | Some shuffler =>
      if negb (isActive shuffler) then mret tt
      else
        b ← orThrow (behaviors.(validator) !! shufflerId) (MissingValidatorBehavior shufflerId);
        match b.(onShuffle) committee.(c_epochId) handId round with
        | Withhold => slashValidator shufflerId ("withheld shuffle round " +:+ showNat round)
        | SubmitInvalid => slashValidator shufflerId ("invalid shuffle proof round " +:+ showNat round)
        | SubmitValid =>
            let prev := default [] (w.(w_table).(t_hand) ≫= (λ h, h.(h_dealer).(d_deck))) in
            next ← withPrng (λ a, shuffleInPlace a prev);
            if negb (verifyShuffleIsPermutation prev next)
            then slashValidator shufflerId ("shuffle not a permutation round " +:+ showNat round)
            else modifyHand (λ h, set_dealer (set_deck next h.(h_dealer)) h)
        end
  end.

Definition runShuffle : sim unit :=
  hand ← getHand;
  modifyHand (set_phase Shuffle) ;;
  _ ← orThrow hand.(h_dealer).(d_deck) DeckNotInitialized;
  let committee := hand.(h_dealer).(d_committee) in
  forEach (seq 0 (length committee.(c_members))) (shuffleRound committee hand.(h_handId)) ;;
  w ← getWorld;
  let commit := sha256Hex (joinDeck (default [] (w.(w_table).(t_hand) ≫= (λ h, h.(h_dealer).(d_deck))))) in
  modifyHand (λ h, set_dealer (set_deckCommit commit h.(h_dealer)) h) ;;
  emit (DeckFinalized w.(w_table).(t_tableId) hand.(h_handId) commit).

(** The refunds of [abortHand]: the players and the treasury after the loop. *)
Fixpoint refundLoop (refundBlinds : bool) (treasury : Z) (players : list Player) : Z * list Player :=
  match players with
  | [] => (treasury, [])
  | p :: players =>
      let '(treasury, p) :=
        if p.(p_committed) =? 0 then (treasury, p)
        else if refundBlinds then (treasury, set_committed (λ _, 0) (set_stack (λ s, s + p.(p_committed)) p))
        else (treasury + p.(p_committed), set_committed (λ _, 0) p) in
      let '(treasury, players) := refundLoop refundBlinds treasury players in
      (treasury, p :: players)
  end.

Definition abortHand (reason : string) : sim unit :=
  hand ← getHand;
  modifyHand (λ h, set_abortedReason reason (set_phase HandAborted h)) ;;
  w ← getWorld;
  let refundBlinds := hand.(h_didBetBeyondBlinds) || w.(w_config).(refundBlindsOnPreActionAbort) in
  let '(treasury, players) := refundLoop refundBlinds w.(w_treasury) w.(w_table).(t_players) in
  modifyWorld (λ w, set_treasury treasury (set_players players w)) ;;
  modifyHand (set_pot 0) ;;
  emit (EvHandAborted w.(w_table).(t_tableId) hand.(h_handId) reason).

Inductive ShareKind := EncShare | PubShare.
Definition showKind (kind : ShareKind) : string := match kind with EncShare => "enc" | PubShare => "pub" end.

Definition countDecision (kind : ShareKind) (pos : Z) (vd : ValidatorId * ValidatorDecision) : sim unit :=
  match snd vd with
  | SubmitValid => mret tt
  | SubmitInvalid => slashValidator (fst vd) (showKind kind +:+ " share invalid proof pos " +:+ showZ pos)
  | Withhold => slashValidator (fst vd) (showKind kind +:+ " share withheld pos " +:+ showZ pos)
  end.

Definition isValidDecision (vd : ValidatorId * ValidatorDecision) : bool := match snd vd with SubmitValid => true | _ => false end.

Definition collectSharesOrAbort (kind : ShareKind) (pos : Z) (playerId : option PlayerId) : sim bool :=
  hand ← getHand;
  let committee := hand.(h_dealer).(d_committee) in
  w ← getWorld;
  decisions ← lift (collectValidatorDecisions w behaviors.(validator) (match kind with EncShare => KEnc | PubShare => KPub end)
                      (mkDecisionCtx committee.(c_epochId) hand.(h_handId) None (Some pos) playerId));
  let valid := Z.of_nat (length (List.filter isValidDecision decisions)) in
  forEach decisions (countDecision kind pos) ;;
  if valid <? committee.(c_thresholdT)
  then abortHand ("threshold failure for " +:+ showKind kind +:+ " shares at pos " +:+ showZ pos +:+ ": have=" +:+ showZ valid +:+ " need=" +:+ showZ committee.(c_thresholdT)) ;;
       mret false
  else mret true.

(** [hand.dealer.deckCursor++] *)
Definition nextPos : sim Z :=
  hand ← getHand;
  let pos := hand.(h_dealer).(d_deckCursor) in
  modifyHand (λ h, set_dealer (set_deckCursor (pos + 1) h.(h_dealer)) h) ;;
  mret pos.

(** The first loop of [dealHoleCards], on one player. *)
Definition seatPlayer (i : nat) : sim unit :=
  w ← getWorld;
  p ← getPlayer i;
  if negb (bool_decide (p.(p_status) = Seated)) then mret tt
  else if p.(p_bond) <? w.(w_table).(t_params).(playerBondMin) then modifyPlayer i (set_status SitOut)
  else modifyPlayer i (set_status InHand) ;;
       modifyHand (λ h, set_holeCards (<[p.(p_id) := []]> h.(h_holeCards)) h).

(** The card [h] of the loop; [false] when the hand was aborted. *)
Definition dealHoleCard (id : PlayerId) : sim bool :=
  pos ← nextPos;
  ok ← collectSharesOrAbort EncShare pos (Some id);
  if negb ok then mret false
  else
    card ← dealFromDeck pos;
    hand ← getHand;
    cards ← orThrow (hand.(h_holeCards) !! id) HoleCardsMissing;
    modifyHand (λ h, set_holeCards (<[id := cards ++ [card]]> h.(h_holeCards)) h) ;;
    assertInvariants ;;
    mret true.

Fixpoint dealLoop (ids : list PlayerId) : sim unit :=
  match ids with
  | [] => mret tt
  | id :: ids => ok ← dealHoleCard id; if negb ok then mret tt else dealLoop ids
  end.

Definition dealHoleCards : sim unit :=
  _ ← getHand;
  modifyHand (set_phase DealHole) ;;
  w ← getWorld;
  forEach (seq 0 (length w.(w_table).(t_players))) seatPlayer ;;
  w ← getWorld;
  let players := w.(w_table).(t_players) in
  dealLoop (concat (map (λ i, replicate 2 (rd noPlayer players i).(p_id)) (remainingPlayers players))).

Definition clearCommitted (p : Player) : Player := if isActiveInHand p then set_committed (λ _, 0) p else p.

(** The pot goes to the winner and the commitments are cleared. *)
Definition settle (winner : nat) (pot : Z) : sim unit :=
  modifyPlayer winner (set_stack (λ s, s + pot)) ;;
  modifyPlayers (map clearCommitted).

Definition didBet : sim unit := modifyHand (set_didBet true).

Definition applyAction (i : nat) (toCall minRaiseTo currentBet : Z) (action : PlayerAction) : sim Z :=
  w ← getWorld;
  hand ← getHand;
  p ← getPlayer i;
  let applied := λ s, emit (ActionApplied w.(w_table).(t_tableId) hand.(h_handId) p.(p_id) s) in
  match action with
  | Fold =>
      (if negb (bool_decide (p.(p_status) = Ejected)) then modifyPlayer i (set_status Folded) else mret tt) ;;
      applied "fold"%string ;; mret currentBet
  | CheckAct => applied "check"%string ;; didBet ;; mret currentBet
  | Call =>
      let amt := Z.min toCall p.(p_stack) in
      modifyPlayer i (pay amt) ;; applied ("call " +:+ showZ amt) ;; didBet ;; mret currentBet
  | RaiseTo amount =>
      let raiseTo := Z.max amount minRaiseTo in
      let need := Z.max 0 (raiseTo - p.(p_committed)) in
      if p.(p_stack) <? need then
        let amt := Z.min toCall p.(p_stack) in
        modifyPlayer i (pay amt) ;; applied ("call " +:+ showZ amt) ;; didBet ;; mret currentBet
      else
        modifyPlayer i (pay need) ;; applied ("raiseTo " +:+ showZ raiseTo) ;; didBet ;; mret raiseTo
  | WithholdAct => mret currentBet
  end.

(** One seat of the loop: the new bet, and whether the hand is over. *)
Definition preflopSeat (minRaiseTo currentBet : Z) (seat : nat) : sim (Z * bool) :=
  w ← getWorld;
  hand ← getHand;
  match findSeat seat w.(w_table).(t_players) with
  | None => mret (currentBet, false)
  | Some (i, p) =>
      if negb (bool_decide (p.(p_status) = InHand)) then mret (currentBet, false)
      else
        let toCall := Z.max 0 (currentBet - p.(p_committed)) in
        b ← orThrow (behaviors.(player) !! p.(p_id)) (MissingPlayerBehavior p.(p_id));
        action ← match b.(onPreflopAction) hand.(h_handId) p.(p_id) toCall minRaiseTo with
                 | WithholdAct =>
                     let '(def, res) := applyTimeoutDefaultAction toCall in
                     emit (TimeoutApplied w.(w_table).(t_tableId) hand.(h_handId) p.(p_id) res) ;;
                     slashPlayer p.(p_id) "player action timeout" ;;
                     mret def
                 | action => mret action
                 end;
        currentBet ← applyAction i toCall minRaiseTo currentBet (normalizePlayerAction action toCall);
        updatePot ;;
        w ← getWorld;
        match remainingPlayers w.(w_table).(t_players) with
        | [winner] =>
            hand ← getHand;
            let pot := hand.(h_potTotal) in
            settle winner pot ;;
            modifyHand (λ h, set_phase HandComplete (set_pot 0 h)) ;;
            emit (HandCompleted w.(w_table).(t_tableId) hand.(h_handId) (rd noPlayer w.(w_table).(t_players) winner).(p_id) pot) ;;
            mret (currentBet, true)
        | _ => assertInvariants ;; mret (currentBet, false)
        end
  end.

Fixpoint preflopLoop (minRaiseTo currentBet : Z) (seats : list nat) : sim unit :=
  match seats with
  | [] => mret tt
  | seat :: seats =>
      r ← preflopSeat minRaiseTo currentBet seat;
      if snd r : bool then mret tt else preflopLoop minRaiseTo (fst r) seats
  end.

Definition runPreflopBetting : sim unit :=
  _ ← getHand;
  modifyHand (set_phase PreflopBetting) ;;
  w ← getWorld;
  let n := length w.(w_table).(t_players) in
  let startSeat := ((w.(w_table).(t_buttonSeat) + 3) mod n)%nat in
  let seatsOrdered := map (λ i, (startSeat + i) mod n)%nat (seq 0 n) in
  let currentBet := w.(w_table).(t_params).(bigBlind) in
  preflopLoop (currentBet * 2) currentBet seatsOrdered.

(** The loop over the cards of a street; [None] when the hand was aborted. *)
Fixpoint revealLoop (count : nat) (cards : list Z) : sim (option (list Z)) :=
  match count with
  | O => mret (Some cards)
  | S count =>
      pos ← nextPos;
      ok ← collectSharesOrAbort PubShare pos None;
      if negb ok then mret None else card ← dealFromDeck pos; revealLoop count (cards ++ [card])
  end.

Definition revealStreet (street : Street) : sim bool :=
  hand ← getHand;
  cards ← revealLoop (match street with Flop => 3 | _ => 1 end) [];
  match cards with
  | None => mret false
  | Some cards =>
      modifyHand (λ h, set_board (h.(h_board) ++ cards) h) ;;
      w ← getWorld;
      emit (StreetRevealed w.(w_table).(t_tableId) hand.(h_handId) street cards) ;;
      assertInvariants ;;
      mret true
  end.

(** The heuristic: the first player with the least sum of hole cards; [None]
    is the initial infinity. *)
Definition score (hand : HandState) (p : Player) : Z := foldl Z.add 0 (default [] (hand.(h_holeCards) !! p.(p_id))).
Definition bestStep (hand : HandState) (players : list Player) (acc : nat * option Z) (i : nat) : nat * option Z :=
  let s := score hand (rd noPlayer players i) in
  match snd acc with
  | Some best => if s <? best then (i, Some s) else acc
  | None => (i, Some s)
  end.

Definition showdownAndSettle : sim unit :=
  hand ← getHand;
  w ← getWorld;
  let players := w.(w_table).(t_players) in
  match remainingPlayers players with
  | [] => abortHand "no remaining players"
  | first :: rest =>
      let winner := match rest with [] => first | _ => fst (foldl (bestStep hand players) (first, None) (first :: rest)) end in
      settle winner hand.(h_potTotal) ;;
      emit (HandCompleted w.(w_table).(t_tableId) hand.(h_handId) (rd noPlayer players winner).(p_id) hand.(h_potTotal)) ;;
      modifyHand (λ h, set_phase HandComplete (set_pot 0 h))
  end.

(** ** The run *)

Definition phaseIs (ph : HandPhase) : sim bool :=
  w ← getWorld;
  mret (match w.(w_table).(t_hand) with Some h => bool_decide (h.(h_phase) = ph) | None => false end).

(** [continue] is the end of the body. *)
Definition playHand (i : nat) : sim unit :=
  w ← getWorld;
  (if w.(w_config).(rotateCommitteeEveryHand) && (0 <? i)%nat then _ ← rotateCommittee; mret tt else mret tt) ;;
  startHand ;; postBlinds ;; initDeck ;; runShuffle ;; assertInvariants ;;
  dealHoleCards ;; assertInvariants ;;
  aborted ← phaseIs HandAborted;
  if aborted : bool then mret tt
  else
    runPreflopBetting ;; assertInvariants ;;
    complete ← phaseIs HandComplete;
    if complete : bool then mret tt
    else
      aborted ← phaseIs HandAborted;
      if aborted : bool then mret tt
      else
        modifyHand (set_phase FlopReveal) ;;
        flop ← revealStreet Flop;
        if negb flop then mret tt
        else
          modifyHand (set_phase TurnReveal) ;;
          turn ← revealStreet Turn;
          if negb turn then mret tt
          else
            modifyHand (set_phase RiverReveal) ;;
            river ← revealStreet River;
            if negb river then mret tt
            else
              modifyHand (set_phase Showdown) ;;
              showdownAndSettle ;; assertInvariants ;;
              modifyWorld (λ w, set_button ((w.(w_table).(t_buttonSeat) + 1) mod length w.(w_table).(t_players))%nat w).

Definition runSimulation (config : SimConfig) : result SimError (World * list Event) :=
  let s0 := mkSim (initialWorld config 0) [] (newPrng config.(seed)) in
  match (createWorld ;; emit (TableCreated config.(tableId)) ;; forEach (seq 0 (Z.to_nat config.(hands))) playHand) s0 with
  | Ok (_, s) => Ok (s.(s_world), s.(s_events))
  | Err e => Err e
  end.
End run.

End SimWorld.
