(* ===== verification/SimScenarios.v ===== *)
(** * The scenarios of the simulator: [apps/sim/src/scenarios.ts], [behaviors.ts]

    The four registered scenarios, run by evaluation, with what their test
    ([apps/sim/test/ws9_scenarios.test.ts]) expects of them. *)
From stdpp Require Import base option list strings gmap.
From Stdlib Require Import ZArith Lia.
From S2P Require Import Prelude Monads SimTypes SimWorld.
Import StateM SimTypes SimWorld.

Module SimScenarios.

Definition honestValidatorBehavior : ValidatorBehavior :=
  mkValidatorBehavior (λ _ _ _, SubmitValid) (λ _ _ _ _, SubmitValid) (λ _ _ _, SubmitValid).

Definition alwaysTimeoutPlayerBehavior : PlayerBehavior := mkPlayerBehavior (λ _ _ _ _, WithholdAct).

Definition alwaysCallPlayerBehavior : PlayerBehavior :=
  mkPlayerBehavior (λ _ _ toCall _, if toCall =? 0 then CheckAct else Call).

(** A table of [n] equal behaviours. *)
Definition all_of {A} (n : nat) (b : A) : gmap nat A := list_to_map (map (λ i, (i, b)) (seq 0 n)).

Definition with_validators (size committee threshold : Z) (c : SimConfig) : SimConfig :=
  mkSimConfig c.(seed) c.(tableId) c.(params) c.(playerCount) c.(startingStack) c.(startingBond) size committee threshold
    c.(startingValidatorStake) c.(committeePlan) c.(refundBlindsOnPreActionAbort) c.(coordinatorOnline) c.(hands) c.(rotateCommitteeEveryHand).
Definition with_hands (n bond : Z) (plan : option (list (list ValidatorId))) (rotate : bool) (c : SimConfig) : SimConfig :=
  mkSimConfig c.(seed) c.(tableId) c.(params) c.(playerCount) c.(startingStack) bond c.(validatorSetSize) c.(committeeSize) c.(thresholdT)
    c.(startingValidatorStake) plan c.(refundBlindsOnPreActionAbort) c.(coordinatorOnline) n rotate.

(** [mid-hand-slash-continues] *)
Definition scenario_mid_hand_slash (sha256Hex : string → string) : result SimError (World * list Event) :=
  let cfg := with_validators 4 4 3 (createDefaultConfig 1) in
  let v0 := mkValidatorBehavior (λ _ _ _, SubmitInvalid) (λ _ _ _ _, SubmitValid) (λ _ _ _, SubmitValid) in
  runSimulation sha256Hex (mkBehaviors (<[0%nat := v0]> (all_of 4 honestValidatorBehavior)) (all_of 6 alwaysCallPlayerBehavior)) cfg.

(** [threshold-failure-abort-refund] *)
Definition scenario_threshold_failure (sha256Hex : string → string) : result SimError (World * list Event) :=
  let cfg := with_validators 3 3 2 (createDefaultConfig 2) in
  let withholds := mkValidatorBehavior (λ _ _ _, SubmitValid) (λ _ _ _ _, SubmitValid) (λ _ _ _, Withhold) in
  let raiser := mkPlayerBehavior (λ _ _ toCall minRaiseTo, if toCall =? 0 then CheckAct else RaiseTo minRaiseTo) in
  runSimulation sha256Hex
    (mkBehaviors (<[1%nat := withholds]> (<[2%nat := withholds]> (all_of 3 honestValidatorBehavior)))
                 (<[1%nat := raiser]> (all_of 6 alwaysCallPlayerBehavior))) cfg.

(** [repeated-grief-timeouts-drain-bond] *)
Definition scenario_repeated_timeouts (sha256Hex : string → string) : result SimError (World * list Event) :=
  let cfg := with_hands 3 12 None false (with_validators 4 4 3 (createDefaultConfig 3)) in
  runSimulation sha256Hex
    (mkBehaviors (all_of 4 honestValidatorBehavior) (<[1%nat := alwaysTimeoutPlayerBehavior]> (all_of 6 alwaysCallPlayerBehavior))) cfg.

(** [committee-rotation-two-hands] *)
Definition scenario_committee_rotation (sha256Hex : string → string) : result SimError (World * list Event) :=
  let cfg := with_hands 2 20 (Some [[0; 1; 2; 3]; [2; 3; 4; 5]]%nat) true (with_validators 6 4 3 (createDefaultConfig 4)) in
  let v0 := mkValidatorBehavior (λ _ handId _, if handId =? 1 then SubmitInvalid else SubmitValid) (λ _ _ _ _, SubmitValid) (λ _ _ _, SubmitValid) in
  runSimulation sha256Hex
    (mkBehaviors (<[0%nat := v0]> (all_of 6 honestValidatorBehavior)) (all_of 6 alwaysCallPlayerBehavior)) cfg.

(** ** What the tests expect *)

Definition on_world (r : result SimError (World * list Event)) (f : World → list Event → bool) : bool :=
  match r with Ok (w, es) => f w es | Err _ => false end.
Definition phase_is (ph : HandPhase) (w : World) : bool :=
  match w.(w_table).(t_hand) with Some h => bool_decide (h.(h_phase) = ph) | None => false end.
Definition is_slash (e : Event) : bool := match e with ValidatorSlashed _ _ _ => true | _ => false end.
Definition is_start (e : Event) : bool := match e with HandStarted _ _ _ _ => true | _ => false end.

Example mid_hand_slash_completes :
  on_world (scenario_mid_hand_slash id) (λ w es, existsb is_slash es && phase_is HandComplete w) = true.
Proof. vm_compute. reflexivity. Qed.

Example threshold_failure_refunds :
  on_world (scenario_threshold_failure id) (λ w _, phase_is HandAborted w &&
    forallb (λ p, (p.(p_committed) =? 0) && (p.(p_stack) =? 100)) (take 3 w.(w_table).(t_players))) = true.
Proof. vm_compute. reflexivity. Qed.

Example repeated_timeouts_eject :
  on_world (scenario_repeated_timeouts id) (λ w _,
    match findId 1%nat w.(w_table).(t_players) with
    | Some (_, p) => (1 <=? p.(p_timeoutCount)) && (p.(p_bond) <=? 10) && bool_decide (p.(p_status) = Ejected)
    | None => false
    end) = true.
Proof. vm_compute. reflexivity. Qed.

Example committee_rotates :
  on_world (scenario_committee_rotation id) (λ w es,
    (length (List.filter is_start es) =? 2)%nat &&
    match w.(w_validators) !! 0%nat with Some v => bool_decide (v.(v_status) = Jailed) | None => false end) = true.
Proof. vm_compute. reflexivity. Qed.

End SimScenarios.
