(* ===== verification/SimInv.v ===== *)
(** * Reasoning about the simulator

    The exceptions a run may throw, the invariant on chips and players that
    every operation keeps, and specifications of computations over the world:
    [wtriple P m Q] says that from a world with [P] the computation [m] throws
    only expected exceptions and otherwise ends in a world with [Q].  The
    tactic [step] runs straight-line code on a known world. *)
From stdpp Require Import base option list strings gmap pretty.
From Stdlib Require Import ZArith Lia.
From S2P Require Import Prelude SimTypes SimWorld Monads.
Import StateM SimTypes SimWorld.

Module SimLogic.

(** The exceptions that stem from the configuration and the behaviours; the
    others are failures of the simulator's own invariants. *)
Definition expected (e : SimError) : Prop :=
  match e with
  | BadPlayerCount | NotEnoughValidators _ _ | PlanSize _ | PlanUnknownValidator _ _ | PlanNonActiveValidator _ _
  | TooFewSeated | InsufficientStackForBlinds | MissingValidatorBehavior _ | MissingPlayerBehavior _ => True
  | _ => False
  end.

Definition wtriple {A} (P : World → Prop) (m : sim A) (Q : A → World → Prop) : Prop :=
  triple expected (λ s, P s.(s_world)) m (λ a s, Q a s.(s_world)).

Section rules.
Context {A B : Type}.
Implicit Types (P : World → Prop) (w : World).

Lemma wt_bind P (m : sim A) (k : A → sim B) R Q : wtriple P m R → (∀ a, wtriple (R a) (k a) Q) → wtriple P (m ≫= k) Q.
Proof. apply (triple_bind expected (λ s, P s.(s_world)) m k (λ a s, R a s.(s_world))). Qed.

Lemma wt_call w P (m : sim A) (k : A → sim B) R Q :
  wtriple P m R → P w → (∀ a, wtriple (R a) (k a) Q) → wtriple (λ w', w' = w) (m ≫= k) Q.
Proof. intros Hm HP Hk. eapply wt_bind; [|exact Hk]. intros s Hs. apply Hm. by rewrite Hs. Qed.

Lemma wt_assoc {C} P (m : sim C) (k : C → sim A) (k' : A → sim B) Q :
  wtriple P (m ≫= λ a, k a ≫= k') Q → wtriple P ((m ≫= k) ≫= k') Q.
Proof. intros H s Hs. specialize (H s Hs). unfold mbind, M_bind in *. by destruct (m s) as [[a s']|]. Qed.

Lemma wt_tail P (m : sim A) Q : wtriple P (m ≫= λ a, mret a) Q → wtriple P m Q.
Proof. intros H s Hs. specialize (H s Hs). unfold mbind, M_bind in H. by destruct (m s) as [[a s']|]. Qed.

Lemma wt_ret w (a : A) (Q : A → World → Prop) : Q a w → wtriple (λ w', w' = w) (mret a) Q.
Proof. intros H s Hs. unfold mret, M_ret. by rewrite Hs. Qed.

Lemma wt_ret_bind P (a : A) (k : A → sim B) Q : wtriple P (k a) Q → wtriple P (mret a ≫= k) Q.
Proof. done. Qed.

Lemma wt_at P (m : sim A) Q : (∀ w, P w → wtriple (λ w', w' = w) m Q) → wtriple P m Q.
Proof. intros H s Hs. by apply (H _ Hs). Qed.

Lemma wt_post P (m : sim A) Q Q' : wtriple P m Q' → (∀ a w, Q' a w → Q a w) → wtriple P m Q.
Proof. intros Hm HQ. eapply triple_post; [exact Hm|]. intros a s. apply HQ. Qed.

Lemma wt_pre P P' (m : sim A) Q : (∀ w, P w → P' w) → wtriple P' m Q → wtriple P m Q.
Proof. intros HP. apply triple_pre. intros s. apply HP. Qed.

Lemma wt_getWorld w (k : World → sim B) Q : wtriple (λ w', w' = w) (k w) Q → wtriple (λ w', w' = w) (getWorld ≫= k) Q.
Proof. intros H s Hs. unfold getWorld, mbind, M_bind, get, mret, M_ret. rewrite Hs. by apply H. Qed.

Lemma wt_modifyWorld w f (k : unit → sim B) Q :
  wtriple (λ w', w' = f w) (k tt) Q → wtriple (λ w', w' = w) (modifyWorld f ≫= k) Q.
Proof. intros H s Hs. unfold mbind, M_bind, modifyWorld, modify. apply H. cbn. by rewrite Hs. Qed.

Lemma wt_modifyHand w f (k : unit → sim B) Q :
  wtriple (λ w', w' = set_hand (f <$> w.(w_table).(t_hand)) w) (k tt) Q → wtriple (λ w', w' = w) (modifyHand f ≫= k) Q.
Proof. apply (wt_modifyWorld w (λ w, set_hand (f <$> w.(w_table).(t_hand)) w)). Qed.

Lemma wt_modifyPlayers w f (k : unit → sim B) Q :
  wtriple (λ w', w' = set_players (f w.(w_table).(t_players)) w) (k tt) Q → wtriple (λ w', w' = w) (modifyPlayers f ≫= k) Q.
Proof. apply (wt_modifyWorld w (λ w, set_players (f w.(w_table).(t_players)) w)). Qed.

Lemma wt_modifyPlayer w i f (k : unit → sim B) Q :
  wtriple (λ w', w' = set_players (alter f i w.(w_table).(t_players)) w) (k tt) Q → wtriple (λ w', w' = w) (modifyPlayer i f ≫= k) Q.
Proof. apply wt_modifyPlayers. Qed.

Lemma wt_emit P e (k : unit → sim B) Q : wtriple P (k tt) Q → wtriple P (emit e ≫= k) Q.
Proof. intros H s Hs. unfold mbind, M_bind, emit, modify. by apply H. Qed.

Lemma wt_throwIf P b e (k : unit → sim B) Q :
  (b = true → expected e) → (b = false → wtriple P (k tt) Q) → wtriple P (throwIf b e ≫= k) Q.
Proof. intros H1 H2 s Hs. unfold throwIf. destruct b; [by apply H1|by apply H2]. Qed.

Lemma wt_orThrow P (o : option A) e (k : A → sim B) Q :
  (o = None → expected e) → (∀ a, o = Some a → wtriple P (k a) Q) → wtriple P (orThrow o e ≫= k) Q.
Proof. intros H1 H2 s Hs. unfold orThrow. destruct o; [by apply H2|by apply H1]. Qed.

Lemma wt_lift P (r : result SimError A) (k : A → sim B) Q :
  (∀ e, r = Err e → expected e) → (∀ a, r = Ok a → wtriple P (k a) Q) → wtriple P (lift r ≫= k) Q.
Proof. intros H1 H2 s Hs. unfold lift, mbind, M_bind. destruct r; [by apply H2|by apply H1]. Qed.

Lemma wt_withPrng P (f : Z → result SimError (Z * A)) (k : A → sim B) Q :
  (∀ a e, f a = Err e → expected e) → (∀ a a' x, f a = Ok (a', x) → wtriple P (k x) Q) → wtriple P (withPrng f ≫= k) Q.
Proof.
  intros H1 H2 s Hs. unfold withPrng, mbind, M_bind, get, lift, modify. destruct (f (s_prng s)) as [[a' x]|e] eqn:E; [|by eapply H1].
  by apply (H2 _ _ _ E).
Qed.
End rules.

Lemma wt_getHand {B} w h (k : HandState → sim B) Q :
  w.(w_table).(t_hand) = Some h → wtriple (λ w', w' = w) (k h) Q → wtriple (λ w', w' = w) (getHand ≫= k) Q.
Proof. intros Hh H. unfold getHand. apply wt_assoc, wt_getWorld. rewrite Hh. exact H. Qed.

Lemma wt_getPlayer {B} w i (k : Player → sim B) Q :
  wtriple (λ w', w' = w) (k (rd noPlayer w.(w_table).(t_players) i)) Q → wtriple (λ w', w' = w) (getPlayer i ≫= k) Q.
Proof. intros H. unfold getPlayer. apply wt_assoc, wt_getWorld. exact H. Qed.

Lemma wt_throw {A} P e (Q : A → World → Prop) : expected e → wtriple P (throw e) Q.
Proof. by intros H s Hs. Qed.

Lemma wt_forEach {A} (I : list A → World → Prop) (l : list A) (body : A → sim unit) :
  (∀ x rest, wtriple (I (x :: rest)) (body x) (λ _, I rest)) → wtriple (I l) (forEach l body) (λ _, I []).
Proof. intros H. apply (triple_forEach expected (λ l s, I l s.(s_world))). intros x rest. apply H. Qed.

(** Run one statement on a known world. *)
Ltac step :=
  lazymatch goal with
  | |- wtriple _ (mret _ ≫= _) _ => apply wt_ret_bind
  | |- wtriple _ ((_ ≫= _) ≫= _) _ => apply wt_assoc
  | |- wtriple _ (getWorld ≫= _) _ => apply wt_getWorld
  | |- wtriple _ (modifyWorld _ ≫= _) _ => apply wt_modifyWorld
  | |- wtriple _ (modifyHand _ ≫= _) _ => apply wt_modifyHand
  | |- wtriple _ (modifyPlayers _ ≫= _) _ => apply wt_modifyPlayers
  | |- wtriple _ (modifyPlayer _ _ ≫= _) _ => apply wt_modifyPlayer
  | |- wtriple _ (getPlayer _ ≫= _) _ => apply wt_getPlayer
  | |- wtriple _ (emit _ ≫= _) _ => apply wt_emit
  | |- wtriple _ (getHand ≫= _) _ => eapply wt_getHand; [first [eassumption|reflexivity|cbn; eassumption|cbn; reflexivity]|]
  | |- wtriple _ (throwIf _ _ ≫= _) _ => apply wt_throwIf; [|intros ?]
  | |- wtriple _ (orThrow _ _ ≫= _) _ => apply wt_orThrow; [|intros ? ?]
  | |- wtriple _ (lift _ ≫= _) _ => apply wt_lift; [intros ? ?|intros ? ?]
  | |- wtriple _ (withPrng _ ≫= _) _ => apply wt_withPrng; [intros ? ? ?|intros ? ? ? ?]
  | |- wtriple _ (mret _) _ => apply wt_ret
  | |- wtriple _ (throw _) _ => apply wt_throw
  | |- wtriple _ (modifyWorld _) _ => apply wt_tail
  | |- wtriple _ (modifyHand _) _ => apply wt_tail
  | |- wtriple _ (modifyPlayers _) _ => apply wt_tail
  | |- wtriple _ (modifyPlayer _ _) _ => apply wt_tail
  | |- wtriple _ (emit _) _ => apply wt_tail
  end.

End SimLogic.

(** ** The simulator's invariant

    [ok T w]: the chips of the world add up to [T] and none is negative, and
    the players keep their places.  [in_play ph k t] is what holds of the
    table while a hand is played: the deck is a permutation of the 52 cards,
    what was dealt comes from the part before the cursor, the pot is the sum of
    the commitments, and only players of the hand have chips committed. *)
Import StateM SimTypes SimWorld SimLogic.

Module SimInv.

Definition chips (p : Player) : Z := p.(p_stack) + p.(p_committed) + p.(p_bond).
Definition allChips (ps : list Player) : Z := sumZ (map chips ps).
Definition totalChips (w : World) : Z := w.(w_treasury) + sumZ (map v_stake w.(w_validators)) + allChips w.(w_table).(t_players).

Definition nonneg (p : Player) : Prop := 0 <= p.(p_stack) ∧ 0 <= p.(p_committed) ∧ 0 <= p.(p_bond).

(** The player at index [i] is [P<i>] on seat [i]. *)
Definition placed (ps : list Player) : Prop := map p_id ps = seq 0 (length ps) ∧ map p_seat ps = seq 0 (length ps).

Record players_ok (ps : list Player) : Prop := {
  po_nonneg : Forall nonneg ps;
  po_placed : placed ps;
  po_count : (2 <= length ps <= 9)%nat
}.

Record ok (T : Z) (w : World) : Prop := {
  ok_total : totalChips w = T;
  ok_initial : w.(w_initialTotal) = Some T;
  ok_stakes : Forall (λ v, 0 <= v.(v_stake)) w.(w_validators);
  ok_players : players_ok w.(w_table).(t_players);
  ok_blinds : 0 <= w.(w_table).(t_params).(smallBlind) ∧ 0 <= w.(w_table).(t_params).(bigBlind)
}.

Definition cursor_ok (t : TableState) : Prop := ∀ h, t.(t_hand) = Some h → 0 <= h.(h_dealer).(d_deckCursor) <= 52.

(** ** The check passes *)

Lemma checkValidators_ok total vs : Forall (λ v, 0 <= v.(v_stake)) vs → checkValidators total vs = Ok (total + sumZ (map v_stake vs)).
Proof.
  intros H. revert total. induction H as [|v vs Hv _ IH]; intros total; cbn [checkValidators map]; [by rewrite sumZ_nil, Z.add_0_r|].
  rewrite (proj2 (Z.ltb_ge _ 0)) by done. cbn [throw_if rbind]. rewrite IH, sumZ_cons. f_equal. lia.
Qed.

Lemma checkPlayers_ok total ps : Forall nonneg ps → checkPlayers total ps = Ok (total + allChips ps).
Proof.
  intros H. unfold allChips. revert total. induction H as [|p ps (H1 & H2 & H3) _ IH]; intros total; cbn [checkPlayers map]; [by rewrite sumZ_nil, Z.add_0_r|].
  rewrite !(proj2 (Z.ltb_ge _ 0)) by done. cbn [throw_if rbind]. rewrite IH, sumZ_cons. f_equal. unfold chips. lia.
Qed.

Lemma checkInvariants_ok T w : ok T w → cursor_ok w.(w_table) → checkInvariants w = Ok w.
Proof.
  intros [Ht Hi Hs [Hn _ _] _] Hc. unfold checkInvariants. rewrite checkValidators_ok by done. cbn [rbind].
  rewrite checkPlayers_ok by done. cbn [rbind]. rewrite Hi. unfold totalChips in Ht. rewrite Ht, Z.eqb_refl. cbn [rbind].
  destruct (t_hand _) as [h|] eqn:Eh; [|done]. destruct (Hc h Eh).
  by rewrite (proj2 (Z.ltb_ge _ 0)), (proj2 (Z.ltb_ge 52 _)) by done.
Qed.

Lemma wt_assert {B} T w (k : unit → sim B) Q :
  ok T w → cursor_ok w.(w_table) → wtriple (λ w', w' = w) (k tt) Q → wtriple (λ w', w' = w) (assertInvariants ≫= k) Q.
Proof.
  intros Hok Hc H. unfold assertInvariants. apply wt_assoc, wt_getWorld. rewrite (checkInvariants_ok T w) by done.
  apply wt_assoc, wt_lift; [done|]. intros w' <-%Ok_inj. apply wt_modifyWorld. exact H.
Qed.

(** ** Assignments to players *)

Lemma sumZ_alter {A} (f : A → Z) (g : A → A) (l : list A) i x :
  l !! i = Some x → sumZ (map f (alter g i l)) = sumZ (map f l) - f x + f (g x).
Proof.
  revert i. induction l as [|y l IH]; intros [|i] Hi; try done.
  - injection Hi as ->. cbn. rewrite !sumZ_cons. lia.
  - change (sumZ (f y :: map f (alter g i l)) = sumZ (f y :: map f l) - f x + f (g x)). rewrite !sumZ_cons, (IH i Hi). lia.
Qed.

Lemma map_alter_same {A B} (f : A → B) (g : A → A) (l : list A) i : (∀ x, f (g x) = f x) → map f (alter g i l) = map f l.
Proof.
  intros H. revert i. induction l as [|y l IH]; intros [|i]; [done|done|cbn; by rewrite H|].
  change (f y :: map f (alter g i l) = f y :: map f l). by rewrite IH.
Qed.

Lemma Forall_alter_at {A} (P : A → Prop) (g : A → A) (l : list A) i x :
  l !! i = Some x → Forall P l → P (g x) → Forall P (alter g i l).
Proof. intros Hx HP Hg. apply Forall_alter; [done|]. intros y Hy _. congruence. Qed.

(** An assignment that keeps the sum of a player's chips, or moves the
    difference to the treasury. *)
Lemma ok_set_players T w ps :
  ok T w → Forall nonneg ps → placed ps → length ps = length w.(w_table).(t_players) →
  allChips ps = allChips w.(w_table).(t_players) → ok T (set_players ps w).
Proof.
  intros [Ht Hi Hs [Hn Hp Hc] Hb] Hn' Hp' Hl Ha. split; cbn; try done.
  - unfold totalChips in *. cbn. lia.
  - split; [done|done|by rewrite Hl].
Qed.

Lemma placed_alter g ps i : (∀ p, p_id (g p) = p_id p) → (∀ p, p_seat (g p) = p_seat p) → placed ps → placed (alter g i ps).
Proof. intros H1 H2 [Hi Hs]. unfold placed. by rewrite !map_alter_same, length_alter. Qed.

Lemma ok_alter T w i g p :
  ok T w → w.(w_table).(t_players) !! i = Some p →
  (∀ p, p_id (g p) = p_id p) → (∀ p, p_seat (g p) = p_seat p) → nonneg (g p) → chips (g p) = chips p →
  ok T (set_players (alter g i w.(w_table).(t_players)) w).
Proof.
  intros Hok Hp H1 H2 Hn Hc. pose proof (ok_players _ _ Hok) as [Hpn Hpp _]. apply ok_set_players; [done| | | |].
  - by apply (Forall_alter_at nonneg g _ i p).
  - by apply placed_alter.
  - by apply length_alter.
  - unfold allChips. rewrite (sumZ_alter chips g _ i p) by done. lia.
Qed.

Lemma ok_set_hand T w h : ok T w → ok T (set_hand h w).
Proof. intros [Ht Hi Hs Hp Hb]. by split. Qed.

Lemma ok_nonneg T w i p : ok T w → w.(w_table).(t_players) !! i = Some p → nonneg p.
Proof. intros [_ _ _ [Hn _ _] _] Hp. by apply (Forall_lookup_1 _ _ i p Hn). Qed.

(** ** Places *)

Lemma placed_lookup ps (i : nat) p : placed ps → ps !! i = Some p → p_id p = i ∧ p_seat p = i.
Proof.
  intros [Hi Hs] Hp. assert (Hlt := lookup_lt_Some _ _ _ Hp).
  assert (H : ∀ f : Player → nat, map f ps = seq 0 (length ps) → f p = i); [|by split; apply H].
  intros f Hf. pose proof (list_lookup_fmap f ps i) as E. change (f <$> ps) with (map f ps) in E.
  rewrite Hf, lookup_seq_lt, Hp in E by done. by injection E.
Qed.

Lemma list_find_placed (f : Player → nat) ps n :
  (∀ i p, ps !! i = Some p → f p = i) →
  list_find (λ p, f p = n) ps = (λ p, (n, p)) <$> ps !! n.
Proof.
  intros Hf. destruct (ps !! n) as [p|] eqn:Ep; cbn.
  - apply list_find_Some. split; [done|]. split; [by apply Hf|]. intros j y Hy Hj. rewrite (Hf _ _ Hy). lia.
  - apply list_find_None, Forall_forall. intros y (j & Hy)%list_elem_of_lookup ->%eq_sym. rewrite (Hf _ _ Hy) in Ep. congruence.
Qed.

Lemma findSeat_ok ps seat : placed ps → findSeat seat ps = (λ p, (seat, p)) <$> ps !! seat.
Proof. intros Hp. apply list_find_placed. intros i p Hi. by apply (placed_lookup ps i p). Qed.

Lemma findId_ok ps (id : nat) : placed ps → findId id ps = (λ p, (id, p)) <$> ps !! id.
Proof. intros Hp. apply list_find_placed. intros i p Hi. by apply (placed_lookup ps i p). Qed.

Lemma refs_spec f ps i : In i (refs f ps) ↔ ∃ p, ps !! i = Some p ∧ f p = true.
Proof.
  unfold refs. rewrite filter_In, in_seq. split.
  - intros [_ H]. destruct (ps !! i) as [p|]; [by exists p|done].
  - intros (p & Hp & Hf). rewrite Hp. split; [apply lookup_lt_Some in Hp; lia|done].
Qed.

(** ** Committed chips *)

Lemma sumCommitted_sum ps : sumCommitted ps = sumZ (map p_committed ps).
Proof.
  unfold sumCommitted. enough (H : ∀ acc, foldl (λ pot p, pot + p_committed p) acc ps = acc + sumZ (map p_committed ps)) by apply H.
  induction ps as [|p ps IH]; intros acc; cbn [foldl map]; [by rewrite sumZ_nil, Z.add_0_r|]. rewrite IH, sumZ_cons. lia.
Qed.

(** Nobody has chips in a pot. *)
Definition idle (ps : list Player) : Prop := Forall (λ p, p.(p_committed) = 0) ps.

Lemma idle_sum ps : idle ps → sumCommitted ps = 0.
Proof. rewrite sumCommitted_sum. induction 1 as [|p ps Hp _ IH]; [done|]. cbn [map]. rewrite sumZ_cons, Hp, IH. lia. Qed.

Lemma refundLoop_ok refund treasury ps :
  let r := refundLoop refund treasury ps in
  fst r + allChips (snd r) = treasury + allChips ps ∧ (Forall nonneg ps → Forall nonneg (snd r)) ∧ idle (snd r) ∧
  map p_id (snd r) = map p_id ps ∧ map p_seat (snd r) = map p_seat ps.
Proof.
  revert treasury. induction ps as [|p ps IH]; intros treasury; cbn [refundLoop]; [repeat split; constructor|].
  destruct (p_committed p =? 0) eqn:E0; b2p.
  - specialize (IH treasury). destruct (refundLoop refund treasury ps) as [tr' ps']. cbn [fst snd] in *.
    destruct IH as (Ht & Hn & Hid & E1 & E2). unfold allChips in *. cbn [map]. rewrite !sumZ_cons, E1, E2. repeat split; [lia| |by constructor].
    intros Hf. apply Forall_cons in Hf as [? ?]. constructor; [done|by apply Hn].
  - set (p' := if refund then _ else _). cbv zeta.
    assert (Hp : fst p' + chips (snd p') = treasury + chips p ∧ (nonneg p → nonneg (snd p')) ∧ p_committed (snd p') = 0 ∧
      p_id (snd p') = p_id p ∧ p_seat (snd p') = p_seat p).
    { unfold p', chips, nonneg. destruct refund; cbn; lia. }
    destruct p' as [tr1 p1]. cbn [fst snd] in Hp. destruct Hp as (Hc & Hpn & H0 & H1 & H2).
    specialize (IH tr1). destruct (refundLoop refund tr1 ps) as [tr' ps']. cbn [fst snd] in *.
    destruct IH as (Ht & Hn & Hid & E1 & E2). unfold allChips in *. cbn [map]. rewrite !sumZ_cons, E1, E2, H1, H2. repeat split; [lia| |by constructor].
    intros Hf. apply Forall_cons in Hf as [? ?]. constructor; [by apply Hpn|by apply Hn].
Qed.

(** ** Cards *)

Definition fullDeck : list Z := map Z.of_nat (seq 0 52).

(** The cards in the players' hands and on the board. *)
Definition dealtCards (h : HandState) : list Z := concat (map snd (map_to_list h.(h_holeCards))) ++ h.(h_board).

Lemma fullDeck_NoDup : NoDup fullDeck.
Proof. apply (bool_decide_unpack _). vm_compute. exact I. Qed.

Lemma deal_hole (m : gmap PlayerId (list Z)) id cards c :
  m !! id = Some cards →
  concat (map snd (map_to_list (<[id := cards ++ [c]]> m))) ≡ₚ c :: concat (map snd (map_to_list m)).
Proof.
  intros Hm. assert (Hc : ∀ l k : list (PlayerId * list Z), l ≡ₚ k → concat (map snd l) ≡ₚ concat (map snd k)).
  { intros l k H. induction H as [|x l k _ IH|x y l|l k o _ IH1 _ IH2]; cbn; [done|by rewrite IH| |by rewrite IH1]. 
    rewrite !app_assoc. by rewrite (Permutation_app_comm (snd y)). }
  rewrite <-(insert_delete_id m id cards Hm) at 2. rewrite <-insert_delete_eq.
  rewrite (Hc _ _ (map_to_list_insert _ id (cards ++ [c]) (lookup_delete_eq m id))), (Hc _ _ (map_to_list_insert _ id cards (lookup_delete_eq m id))). cbn. rewrite <-app_assoc. cbn [app]. symmetry. apply Permutation_middle.
Qed.

Lemma take_deal (deck : list Z) pos :
  0 <= pos < Z.of_nat (length deck) → take (Z.to_nat (pos + 1)) deck = take (Z.to_nat pos) deck ++ [rd 0 deck (Z.to_nat pos)].
Proof.
  intros Hp. replace (Z.to_nat (pos + 1)) with (S (Z.to_nat pos)) by lia. apply take_S_r. apply lookup_rd. lia.
Qed.

End SimInv.

(** ** The simulator's operations keep the invariant

    Specifications of the functions of [sim.ts] in the terms of [SimInv], from
    slashing and shuffling up to the phases of a hand. *)
Import StateM SimTypes SimWorld SimLogic SimInv.

Module SimOps.

(** Only players of the hand have chips committed. *)
Definition live (ps : list Player) : Prop := Forall (λ p, p.(p_committed) ≠ 0 → isActiveInHand p = true) ps.
(** Players of the hand have a place for their cards. *)
Definition holes (ps : list Player) (h : HandState) : Prop :=
  Forall (λ p, p.(p_status) = InHand → is_Some (h.(h_holeCards) !! p.(p_id))) ps.

(** The cards: what was dealt, and [pending] cards not on the board yet, come
    from the first [d] positions of the deck; the cursor is at [c]. *)
Definition cards_at (c d : Z) (pending : list Z) (h : HandState) : Prop :=
  ∃ deck, h.(h_dealer).(d_deck) = Some deck ∧ deck ≡ₚ fullDeck ∧ h.(h_dealer).(d_deckCursor) = c ∧ 0 <= d <= c ∧ c <= 52 ∧
    dealtCards h ++ pending ⊆+ take (Z.to_nat d) deck.

Record playing (T : Z) (ph : HandPhase) (c d : Z) (pending : list Z) (w : World) (h : HandState) : Prop := {
  pl_ok : ok T w;
  pl_hand : w.(w_table).(t_hand) = Some h;
  pl_phase : h.(h_phase) = ph;
  pl_cards : cards_at c d pending h;
  pl_live : live w.(w_table).(t_players);
  pl_holes : holes w.(w_table).(t_players) h;
  pl_pot : h.(h_potTotal) = sumCommitted w.(w_table).(t_players)
}.

Definition in_play (T : Z) (ph : HandPhase) (k : Z) (w : World) : Prop := ∃ c h, c <= k ∧ playing T ph c c [] w h.

(** Between hands. *)
Record settled (T : Z) (w : World) : Prop := {
  st_ok : ok T w;
  st_idle : idle w.(w_table).(t_players);
  st_cursor : cursor_ok w.(w_table);
  st_hand : ∀ h, w.(w_table).(t_hand) = Some h → h.(h_potTotal) = 0 ∧ NoDup (dealtCards h)
}.

Definition ended (T : Z) (ph : HandPhase) (w : World) : Prop :=
  settled T w ∧ ∃ h, w.(w_table).(t_hand) = Some h ∧ h.(h_phase) = ph.

Lemma cards_NoDup c d pending h : cards_at c d pending h → NoDup (dealtCards h).
Proof.
  intros (deck & _ & Hp & _ & _ & _ & Hs). assert (Hd : NoDup deck) by (rewrite Hp; apply fullDeck_NoDup).
  assert (Ht : dealtCards h ⊆+ deck).
  { transitivity (take (Z.to_nat d) deck); [|apply submseteq_take]. etransitivity; [apply submseteq_inserts_r|exact Hs]. done. }
  apply submseteq_Permutation in Ht as [k Hk]. rewrite Hk in Hd. by apply NoDup_app in Hd as (? & _ & _).
Qed.

Lemma cards_cursor c d pending h : cards_at c d pending h → 0 <= h.(h_dealer).(d_deckCursor) <= 52.
Proof. intros (deck & _ & _ & <- & Hd & Hc & _). lia. Qed.

Lemma playing_cursor T ph c d pending w h : playing T ph c d pending w h → cursor_ok w.(w_table).
Proof. intros [_ Hh _ Hc _ _ _] h' Hh'. rewrite Hh in Hh'. injection Hh' as <-. by apply (cards_cursor c d pending). Qed.

(** ** Validators *)

Lemma slashValidator_ok T t id reason :
  wtriple (λ w, ok T w ∧ w.(w_table) = t) (slashValidator id reason) (λ _ w, ok T w ∧ w.(w_table) = t).
Proof.
  apply wt_at. intros w [Hok Ht]. unfold slashValidator. step. destruct (w_validators w !! id) as [v|] eqn:Ev; [|by step].
  destruct (negb (isActive v)); [by step|]. cbv zeta. repeat step. split; [|done]. destruct Hok as [Htot Hi Hs Hp Hb].
  pose proof (Forall_lookup_1 _ _ _ _ Hs Ev) as Hv. cbn beta in Hv. split; cbn; try done.
  - unfold totalChips in *. cbn. pose proof (sumZ_alter v_stake (λ _, mkValidator (v_id v) (v_stake v - Z.min (dealerSlash (params (w_config w))) (v_stake v)) Jailed (v_slashCount v + 1)) _ _ _ Ev) as E.
    rewrite <-list_insert_alter in E by (by apply lookup_lt_Some in Ev). cbn [v_stake] in E. lia.
  - apply Forall_insert; [done|]. cbn. lia.
Qed.

Lemma decideAll_ok w behavior kind ctx members acc :
  (∀ b e, decide1 b kind ctx = Err e → expected e) →
  ∀ e, decideAll w behavior kind ctx members acc = Err e → expected e.
Proof.
  intros Hd. revert acc. induction members as [|m ms IH]; intros acc e; cbn [decideAll]; [done|].
  destruct (w_validators w !! m) as [v|]; [|apply IH]. destruct (isActive v); [|apply IH].
  destruct (behavior !! m) as [b|]; [|by intros [= <-]]. destruct (decide1 b kind ctx) eqn:E; cbn [rbind]; [apply IH|].
  intros [= <-]. by apply (Hd b).
Qed.

(** ** Aborting *)

Lemma abortHand_ok T t h reason :
  t.(t_hand) = Some h → NoDup (dealtCards h) → 0 <= h.(h_dealer).(d_deckCursor) <= 52 →
  wtriple (λ w, ok T w ∧ w.(w_table) = t) (abortHand reason) (λ _, ended T HandAborted).
Proof.
  intros Hh Hn Hc. apply wt_at. intros w [Hok Ht]. unfold abortHand. subst t. repeat step. cbn.
  pose proof (refundLoop_ok (h_didBetBeyondBlinds h || refundBlindsOnPreActionAbort (w_config w)) (w_treasury w) (t_players (w_table w))) as Hr.
  destruct (refundLoop _ _ _) as [treasury players]. cbv zeta in Hr. cbn [fst snd] in Hr. destruct Hr as (Htot & Hnn & Hid & E1 & E2).
  repeat step. cbn. rewrite Hh. cbn. destruct Hok as [Ht Hi Hs [Hpn [Hp1 Hp2] Hpc] Hb].
  assert (El : length players = length (t_players (w_table w))) by (by rewrite <-(length_map p_id players), E1, length_map).
  split; [split|]; cbn.
  - split; cbn; try done.
    + unfold totalChips in *. cbn. lia.
    + split; [by apply Hnn|split; rewrite ?E1, ?E2, El; done|by rewrite El].
  - done.
  - intros h'. cbn. intros [= <-]. exact Hc.
  - intros h' [= <-]. split; [done|exact Hn].
  - eexists. split; [reflexivity|done].
Qed.

Lemma collectSharesOrAbort_ok T t h kind pos playerId behaviors :
  t.(t_hand) = Some h → NoDup (dealtCards h) → 0 <= h.(h_dealer).(d_deckCursor) <= 52 → (kind = EncShare → is_Some playerId) →
  wtriple (λ w, ok T w ∧ w.(w_table) = t) (collectSharesOrAbort behaviors kind pos playerId)
    (λ b w, if b then ok T w ∧ w.(w_table) = t else ended T HandAborted w).
Proof.
  intros Hh Hn Hc Hpid. apply wt_at. intros w [Hok Ht]. unfold collectSharesOrAbort. subst t. repeat step.
  - revert H. unfold collectValidatorDecisions. rewrite Hh. apply decideAll_ok. intros b e0. unfold decide1. cbn.
    destruct kind; [|done]. by destruct (Hpid eq_refl) as [pid ->].
  - eapply (wt_call w (λ w', ok T w' ∧ w_table w' = w_table w)); [|done|].
    + eapply (wt_forEach (λ _ w', ok T w' ∧ w_table w' = w_table w)). intros x rest. unfold countDecision.
      destruct (snd x); [|apply slashValidator_ok..]. intros s Hs. exact Hs.
    + intros u. cbv beta. destruct (_ <? _).
      * eapply wt_bind; [by apply (abortHand_ok T _ h)|]. intros u0. apply wt_at. intros w' Hw'. by step.
      * apply wt_at. intros w' Hw'. by step.
Qed.

End SimOps.
