(* ===== verification/SimHand.v ===== *)
(** * The phases of a hand

    From the generator and the choice of the committee to the end of the
    shuffle: every step keeps the chips, and the shuffled deck is the deck. *)
From stdpp Require Import base option list strings gmap pretty.
From Stdlib Require Import ZArith Lia.
From S2P Require Import Prelude Monads SimTypes SimWorld SimInv.
Import StateM SimTypes SimWorld SimLogic SimInv SimOps.

Module SimHand.

(** ** The generator *)

Lemma ushr32_range x k : 0 <= k → 0 <= ushr32 x k < 2 ^ 32.
Proof.
  intros Hk. unfold ushr32, toUint32. pose proof (Z.mod_pos_bound x (2 ^ 32) ltac:(lia)). rewrite Z.shiftr_div_pow2 by done.
  assert (0 < 2 ^ k) by lia. split; [apply Z.div_pos; lia|]. apply Z.div_lt_upper_bound; [lia|]. nia.
Qed.

Lemma prngInt_spec a lo hi : lo < hi → ∃ a' v, prngInt a lo hi = Ok (a', v) ∧ lo <= v < hi.
Proof.
  intros H. unfold prngInt. rewrite (proj2 (Z.leb_gt hi lo)) by done. destruct (nextU32 a) as [a' u]. eexists _, _. split; [reflexivity|].
  pose proof (Z.mod_pos_bound u (hi - lo) ltac:(lia)). lia.
Qed.

Lemma swap_permutes {A} (arr : list A) i j : swap arr i j ≡ₚ arr.
Proof.
  unfold swap. destruct (arr !! i) as [x|] eqn:Ei; [|done]. destruct (arr !! j) as [y|] eqn:Ej; [|done].
  by apply Permutation_insert_swap.
Qed.

Lemma shuffle_spec {A} n a (arr : list A) : ∃ a' arr', shuffleLoop n a arr = Ok (a', arr') ∧ arr' ≡ₚ arr.
Proof.
  revert a arr. induction n as [|n IH]; intros a arr; [by exists a, arr|]. cbn [shuffleLoop].
  destruct (prngInt_spec a 0 (Z.of_nat (S n) + 1)) as (a1 & j & -> & _); [lia|]. cbn [rbind].
  destruct (IH a1 (swap arr (S n) (Z.to_nat j))) as (a' & arr' & -> & Hp). exists a', arr'. split; [done|]. by rewrite Hp, swap_permutes.
Qed.

Lemma sort_leb_unique (l k : list Z) : l ≡ₚ k → sort_by Z.leb l = sort_by Z.leb k.
Proof. apply sort_by_Proper; intros; b2p; rewrite ?Z.leb_le in *; lia. Qed.

(** The check of the shuffle is exact. *)
Lemma verifyShuffle_spec prev next : verifyShuffleIsPermutation prev next = true ↔ prev ≡ₚ next.
Proof.
  unfold verifyShuffleIsPermutation. split.
  - destruct (length prev =? length next)%nat eqn:El; [|done]. b2p. cbn [negb]. rewrite forallb_forall. intros Hf.
    rewrite <-(sort_by_perm Z.leb prev), <-(sort_by_perm Z.leb next).
    assert (E : sort_by Z.leb prev = sort_by Z.leb next); [|by rewrite E].
    assert (L1 : length (sort_by Z.leb prev) = length prev) by apply Permutation_length, sort_by_perm.
    assert (L2 : length (sort_by Z.leb next) = length next) by apply Permutation_length, sort_by_perm.
    apply list_eq_same_length with (length prev); [congruence|congruence|]. intros i x y Hi Hx Hy.
    specialize (Hf i). rewrite in_seq, Z.eqb_eq, (rd_lookup _ _ _ _ Hx), (rd_lookup _ _ _ _ Hy) in Hf. apply Hf. lia.
  - intros Hp. rewrite (Permutation_length Hp), Nat.eqb_refl. cbn [negb]. apply forallb_forall. intros i _.
    rewrite (sort_leb_unique _ _ Hp). apply Z.eqb_refl.
Qed.

Lemma wt_shuffle {A B} P (arr : list A) (k : list A → sim B) Q :
  (∀ arr', arr' ≡ₚ arr → wtriple P (k arr') Q) → wtriple P (withPrng (λ a, shuffleInPlace a arr) ≫= k) Q.
Proof.
  intros H. apply wt_withPrng; intros a; unfold shuffleInPlace; destruct (shuffle_spec (pred (length arr)) a arr) as (a0 & arr0 & -> & Hp); [done|].
  intros a' x [= <- <-]. by apply H.
Qed.

(** ** The committee *)

Lemma selectCommittee_pure w : wtriple (λ w', w' = w) selectCommittee (λ _ w', w' = w).
Proof. unfold selectCommittee. step. cbv zeta. step; [done|]. apply wt_shuffle. intros all' _. by step. Qed.

Lemma selectCommittee_ok T t : wtriple (λ w, ok T w ∧ w.(w_table) = t) selectCommittee (λ _ w, ok T w ∧ w.(w_table) = t).
Proof. apply wt_at. intros w Hw. eapply wt_post; [apply selectCommittee_pure|]. by intros c w' ->. Qed.

Lemma setCommittee_ok T w c t : ok T w ∧ w.(w_table) = t → ok T (set_nextCommittee c w) ∧ (set_nextCommittee c w).(w_table) = t.
Proof. intros [[Ht Hi Hs Hp Hb] E]. split; [by split|done]. Qed.

Lemma selectAndSet_ok T t :
  wtriple (λ w, ok T w ∧ w.(w_table) = t) (c ← selectCommittee; modifyWorld (set_nextCommittee c) ;; mret c) (λ _ w, ok T w ∧ w.(w_table) = t).
Proof.
  eapply wt_bind; [apply selectCommittee_ok|]. intros c. apply wt_at. intros w Hw. step. step. by apply setCommittee_ok.
Qed.

Lemma checkPlanned_ok w idx members e : checkPlanned w idx members = Err e → expected e.
Proof.
  induction members as [|m ms IH]; cbn [checkPlanned]; [done|]. destruct (w_validators w !! m) as [v|]; [|by intros [= <-]].
  destruct (negb _); cbn [throw_if rbind]; [by intros [= <-]|done].
Qed.

Lemma getNextCommittee_ok T t : wtriple (λ w, ok T w ∧ w.(w_table) = t) getNextCommittee (λ _ w, ok T w ∧ w.(w_table) = t).
Proof.
  apply wt_at. intros w Hw. unfold getNextCommittee. step. cbv zeta.
  destruct (committeePlan (w_config w) ≫= _) as [members|].
  - step; [done|]. step; [by apply (checkPlanned_ok w (w_committeeIndex w) members)|]. by step.
  - destruct (w_nextCommittee w) as [c|]; [by step|]. eapply wt_pre; [|apply selectAndSet_ok]. by intros w' ->.
Qed.

Lemma rotateCommittee_ok T t : wtriple (λ w, ok T w ∧ w.(w_table) = t) rotateCommittee (λ _ w, ok T w ∧ w.(w_table) = t).
Proof.
  apply wt_at. intros w [[Ht Hi Hs Hp Hb] E]. unfold rotateCommittee. step. step.
  destruct (committeePlan _); (eapply wt_pre; [|apply getNextCommittee_ok || apply selectAndSet_ok]); intros w' ->; (split; [by split|done]).
Qed.

(** ** The start of a hand *)

(** The table of a hand that has just started. *)
Record started (w : World) (h : HandState) : Prop := {
  sd_hand : w.(w_table).(t_hand) = Some h;
  sd_holeCards : h.(h_holeCards) = ∅;
  sd_board : h.(h_board) = [];
  sd_cursor : h.(h_dealer).(d_deckCursor) = 0;
  sd_status : Forall (λ p, p.(p_status) = SitOut ∨ p.(p_status) = Ejected ∨
                           (p.(p_status) = Seated ∧ w.(w_table).(t_params).(playerBondMin) <= p.(p_bond))) w.(w_table).(t_players);
  (** Only seated players have posted chips. *)
  sd_posted : Forall (λ p, p.(p_committed) ≠ 0 → p.(p_status) = Seated) w.(w_table).(t_players)
}.

Lemma resetPlayer_chips bondMin p : p.(p_committed) = 0 → chips (resetPlayer bondMin p) = chips p ∧ (nonneg p → nonneg (resetPlayer bondMin p)).
Proof.
  intros H0. unfold resetPlayer, chips, nonneg. case_bool_decide; [cbn; lia|]. destruct (_ <? _); cbn; lia.
Qed.
Lemma resetPlayer_same bondMin p : p_id (resetPlayer bondMin p) = p_id p ∧ p_seat (resetPlayer bondMin p) = p_seat p ∧ p_committed (resetPlayer bondMin p) = 0.
Proof. unfold resetPlayer. case_bool_decide; [done|]. by destruct (_ <? _). Qed.

Lemma reset_all T w bondMin : ok T w → idle w.(w_table).(t_players) → ok T (set_players (map (resetPlayer bondMin) w.(w_table).(t_players)) w).
Proof.
  intros Hok Hid. pose proof (ok_players _ _ Hok) as [Hn [Hp1 Hp2] Hc]. apply ok_set_players; [done| | |by rewrite length_map|].
  - clear -Hn Hid. induction Hn as [|p ps Hp _ IH]; [constructor|]. apply Forall_cons in Hid as [H0 Hid]. constructor; [by apply resetPlayer_chips|by apply IH].
  - unfold placed. rewrite length_map, !map_map, <-Hp1. rewrite Hp1 at 2. rewrite <-Hp2.
    split; apply map_ext; intros p; apply resetPlayer_same.
  - unfold allChips. rewrite map_map. clear -Hid. induction Hid as [|p ps Hp _ IH]; [done|]. cbn [map].
    rewrite !sumZ_cons, IH. f_equal. by apply resetPlayer_chips.
Qed.

Lemma startHand_ok T : wtriple (settled T) startHand (λ _ w, ok T w ∧ (∃ h, started w h) ∧ idle w.(w_table).(t_players)).
Proof.
  apply wt_at. intros w [Hok Hid Hcur Hst]. unfold startHand.
  eapply (wt_call w (λ w', ok T w' ∧ w_table w' = w_table w)); [apply getNextCommittee_ok|done|]. intros committee. cbv beta.
  apply wt_at. intros w1 [Hok1 Ht1]. step. step. repeat step. cbn.
  set (ps := map _ _). assert (Hps : idle ps). { apply Forall_forall. intros p (p0 & -> & _)%list_elem_of_fmap. apply resetPlayer_same. }
  assert (Hfin : ∀ n, let w' := set_committeeIndex n (set_hand (Some (mkHandState (w_nextHandId w1) HandInit (mkDealerState committee None None 0) [] ∅ 0 false None))
      (set_nextHandId (w_nextHandId w1 + 1) (set_players ps w1))) in ok T w' ∧ (∃ h, started w' h) ∧ idle (t_players (w_table w'))).
  { intros n w'. split; [|split; [|done]].
    - rewrite <-Ht1 in Hid. destruct (reset_all T w1 (playerBondMin (t_params (w_table w1))) Hok1 Hid) as [H1 H2 H3 H4 H5]. by split.
    - eexists. split; [reflexivity|reflexivity..| |]; apply Forall_forall; intros p (p0 & -> & _)%list_elem_of_fmap.
      + unfold resetPlayer. case_bool_decide as He; [by right; left|]. destruct (p_bond _ <? _) eqn:Eb; [by left|]. b2p. right; right. split; [done|]. exact Eb.
      + intros Hne. by destruct (resetPlayer_same (playerBondMin (t_params (w_table w1))) p0) as (_ & _ & ?). }
  destruct (committeePlan _); [step|]; apply wt_tail; repeat step; apply (Hfin).
Qed.

(** ** The blinds *)

Lemma nextSeatedLoop_spec players start steps k :
  placed players → nextSeatedLoop players start steps = Some k →
  ∃ pre i post p, steps = pre ++ i :: post ∧ k = ((start + i) mod length players)%nat ∧ players !! k = Some p ∧ p.(p_status) = Seated ∧
    Forall (λ j, ∀ p, players !! ((start + j) mod length players)%nat = Some p → p.(p_status) ≠ Seated) pre.
Proof.
  intros Hp. induction steps as [|i steps IH]; cbn [nextSeatedLoop]; [done|]. rewrite findSeat_ok by done.
  destruct (players !! ((start + i) mod length players)%nat) as [p|] eqn:Ep; cbn [fmap option_fmap option_map].
  - case_bool_decide as Hs.
    + intros [= <-]. exists [], i, steps, p. repeat split; [done|done|constructor].
    + intros H. destruct (IH H) as (pre & j & post & q & -> & -> & Hq & Hsq & Hf). exists (i :: pre), j, post, q. repeat split; [done|done|].
      constructor; [|done]. intros p'. rewrite Ep. by intros [= <-].
  - intros H. destruct (IH H) as (pre & j & post & q & -> & -> & Hq & Hsq & Hf). exists (i :: pre), j, post, q. repeat split; [done|done|].
    constructor; [|done]. intros p'. by rewrite Ep.
Qed.

Lemma nextSeatedLoop_found players start steps i p :
  placed players → In i steps → players !! ((start + i) mod length players)%nat = Some p → p.(p_status) = Seated →
  is_Some (nextSeatedLoop players start steps).
Proof.
  intros Hp Hin Hi Hs. induction steps as [|j steps IH]; [done|]. cbn [nextSeatedLoop]. rewrite findSeat_ok by done.
  destruct (players !! ((start + j) mod length players)%nat) as [q|] eqn:Eq; cbn [fmap option_fmap option_map].
  - case_bool_decide as Hq; [by eexists|]. destruct Hin as [->|Hin]; [congruence|by apply IH].
  - destruct Hin as [->|Hin]; [congruence|by apply IH].
Qed.

(** Some step between 1 and [n] reaches every place. *)
Lemma step_to n start k : (k < n)%nat → ∃ i, (1 <= i <= n)%nat ∧ ((start + i) mod n = k)%nat ∧ ((start mod n ≠ k → i < n)%nat).
Proof.
  intros Hk. pose proof (Nat.mod_upper_bound start n ltac:(lia)) as Hm. pose proof (Nat.div_mod_eq start n) as Hd.
  destruct (decide (start mod n < k)%nat).
  - exists (k - start mod n)%nat. split; [lia|]. split; [|lia]. rewrite <-Nat.Div0.add_mod_idemp_l.
    replace (start mod n + (k - start mod n))%nat with k by lia. by apply Nat.mod_small.
  - exists (n - start mod n + k)%nat. split; [lia|]. split; [|lia]. rewrite <-Nat.Div0.add_mod_idemp_l.
    replace (start mod n + (n - start mod n + k))%nat with (k + 1 * n)%nat by lia. rewrite Nat.Div0.mod_add. by apply Nat.mod_small.
Qed.

Lemma nextSeated_ok players start k p :
  placed players → players !! k = Some p → p.(p_status) = Seated →
  ∃ j q, nextSeatedFrom players start = Some j ∧ players !! j = Some q ∧ q.(p_status) = Seated ∧ ((start mod length players ≠ k)%nat → j ≠ (start mod length players)%nat).
Proof.
  intros Hp Hk Hs. pose proof (lookup_lt_Some _ _ _ Hk) as Hlt. destruct (step_to (length players) start k Hlt) as (i & Hi & Em & Hne).
  unfold nextSeatedFrom. assert (Hin : In i (seq 1 (length players))) by (apply in_seq; lia). rewrite <-Em in Hk.
  destruct (nextSeatedLoop_found players start _ i p Hp Hin Hk Hs) as (j & Ej). rewrite Ej.
  destruct (nextSeatedLoop_spec players start _ j Hp Ej) as (pre & i' & post & q & Esteps & -> & Hq & Hsq & Hf).
  exists ((start + i') mod length players)%nat, q. split; [done|]. split; [done|]. split; [done|]. intros Hst Hj.
  (* the first hit is at or before [i], hence within the lap *)
  assert (Hi' : (1 <= i' <= length players)%nat). { assert (H : In i' (seq 1 (length players))) by (rewrite Esteps; apply in_app_iff; right; by left). apply in_seq in H. lia. }
  assert (i' = length players) as ->.
  { rewrite <-(Nat.Div0.add_mod_idemp_l start) in Hj. pose proof (Nat.mod_upper_bound start (length players) ltac:(lia)) as Hm.
    set (a := (start mod length players)%nat) in *. destruct (decide (a + i' < length players)%nat); [rewrite Nat.mod_small in Hj; lia|].
    destruct (decide (i' = length players)); [done|]. replace (a + i')%nat with (a + i' - length players + 1 * length players)%nat in Hj by lia.
    rewrite Nat.Div0.mod_add, Nat.mod_small in Hj; lia. }
  assert (Hpre : In i pre).
  { rewrite Esteps in Hin. apply in_app_iff in Hin as [Hin|[E|Hin]]; [done|specialize (Hne Hst); lia|].
    assert (Hl : (length pre + length post = length players - 1)%nat) by (apply (f_equal length) in Esteps; rewrite length_seq, length_app in Esteps; simpl in Esteps; lia).
    exfalso. assert (Hlast : seq 1 (length players) !! length pre = Some (length players)) by by rewrite Esteps, lookup_app_r, Nat.sub_diag.
    apply lookup_seq in Hlast. assert (post = []) as -> by (destruct post; [done|simpl in Hl; lia]). done. }
  rewrite Forall_forall in Hf. exfalso. apply (Hf i (proj2 (list_elem_of_In _ _) Hpre) p Hk Hs).
Qed.

Lemma pay_ok amt p : 0 <= amt <= p.(p_stack) → nonneg p → nonneg (pay amt p) ∧ chips (pay amt p) = chips p.
Proof. unfold pay, nonneg, chips. cbn. lia. Qed.

Lemma ok_pay T w i p amt : ok T w → w.(w_table).(t_players) !! i = Some p → 0 <= amt <= p.(p_stack) →
  ok T (set_players (alter (pay amt) i w.(w_table).(t_players)) w).
Proof.
  intros Hok Hp Ha. pose proof (ok_nonneg T w i p Hok Hp) as Hn. apply (ok_alter T w i (pay amt) p); try done; by apply pay_ok.
Qed.

(** What the phases before the first card agree on. *)
Definition posted (T : Z) (w : World) : Prop :=
  ok T w ∧ ∃ h, started w h ∧ h.(h_potTotal) = sumCommitted w.(w_table).(t_players).

Lemma two_refs f ps : (length (refs f ps) <? 2)%nat = false → ∃ i j, i ≠ j ∧ In i (refs f ps) ∧ In j (refs f ps).
Proof.
  intros H. b2p. assert (Hn : NoDup (refs f ps)) by (apply NoDup_ListNoDup, List.NoDup_filter, NoDup_ListNoDup, NoDup_seq).
  destruct (refs f ps) as [|i [|j l]]; [simpl in H; lia..|]. apply NoDup_cons in Hn as [Hn _].
  exists i, j. split; [|split; [by left|by right; left]]. intros ->. apply Hn. by left.
Qed.

Lemma postBlinds_ok T : wtriple (λ w, ok T w ∧ (∃ h, started w h) ∧ idle w.(w_table).(t_players)) postBlinds (λ _, posted T).
Proof.
  apply wt_at. intros w (Hok & (h & Hst) & Hid). unfold postBlinds. pose proof (ok_players _ _ Hok) as [Hn Hp Hc].
  pose proof (ok_blinds _ _ Hok) as [Hsb Hbb]. pose proof (sd_hand _ _ Hst) as Hh. set (ps := t_players (w_table w)) in *.
  step. step. cbv zeta. step; [done|]. fold ps. destruct (two_refs _ _ H) as (i & j & Hij & Hi & Hj).
  apply refs_spec in Hi as (pi & Epi & Hsi), Hj as (pj & Epj & Hsj). apply bool_decide_eq_true in Hsi, Hsj.
  destruct (nextSeated_ok ps (t_buttonSeat (w_table w)) i pi Hp Epi Hsi) as (sb & psb & Esb & Hpsb & Hssb & _). rewrite Esb.
  step; [done|]. injection H0 as <-.
  assert (Hseat : p_seat (rd noPlayer ps sb) = sb) by (rewrite (rd_lookup _ _ _ _ Hpsb); by apply (placed_lookup ps sb psb)).
  pose proof (lookup_lt_Some _ _ _ Hpsb) as Hsblt.
  assert (Hother : ∃ k pk, ps !! k = Some pk ∧ p_status pk = Seated ∧ k ≠ sb).
  { destruct (decide (i = sb)) as [->|]; [exists j, pj|exists i, pi]; naive_solver. }
  destruct Hother as (k & pk & Hpk & Hsk & Hksb).
  destruct (nextSeated_ok ps sb k pk Hp Hpk Hsk) as (bb & pbb & Ebb & Hpbb & Hsbb & Hne). fold ps. rewrite Hseat, Ebb.
  rewrite Nat.mod_small in Hne by done. specialize (Hne (not_eq_sym Hksb)).
  step; [done|]. injection H0 as <-. step; [done|]. rewrite (rd_lookup _ _ _ _ Hpsb), (rd_lookup _ _ _ _ Hpbb) in H0. b2p.
  step. step. cbn. fold ps. set (ps1 := alter _ sb ps). set (ps2 := alter _ bb ps1).
  assert (Hpbb1 : ps1 !! bb = Some pbb) by (unfold ps1; by rewrite list_lookup_alter_ne).
  pose proof (ok_pay T w sb psb _ Hok Hpsb ltac:(split; [exact Hsb|exact H0])) as Hok1. fold ps ps1 in Hok1.
  pose proof (ok_pay T _ bb pbb _ Hok1 Hpbb1 ltac:(split; [exact Hbb|exact H1])) as Hok2. cbn in Hok2. fold ps2 in Hok2.
  unfold updatePot. step. repeat step. cbn. rewrite Hh. cbn. split; [exact (ok_set_hand _ _ _ Hok2)|].
  eexists. destruct Hst as [_ Hs1 Hs2 Hs3 Hs4 _]. split; [split; cbn; try done|done].
  - unfold ps2. apply (Forall_alter_at _ _ _ bb pbb Hpbb1); [apply (Forall_alter_at _ _ _ sb psb Hpsb); [done|]|].
    + exact (Forall_lookup_1 _ _ _ _ Hs4 Hpsb).
    + exact (Forall_lookup_1 _ _ _ _ Hs4 Hpbb).
  - unfold ps2. apply (Forall_alter_at _ _ _ bb pbb Hpbb1); [apply (Forall_alter_at _ _ _ sb psb Hpsb); [|done]|done].
    eapply Forall_impl; [exact Hid|]. intros q Hq Hq0. by destruct Hq0.
Qed.

(** ** The shuffle *)

Definition ready (T : Z) (w : World) : Prop :=
  ok T w ∧ ∃ h deck, started w h ∧ h.(h_potTotal) = sumCommitted w.(w_table).(t_players) ∧
    h.(h_dealer).(d_deck) = Some deck ∧ deck ≡ₚ fullDeck.

(** [ready] only looks at some fields of the hand. *)
Lemma ready_set_hand T w h h' deck :
  ok T w → started w h → h.(h_potTotal) = sumCommitted w.(w_table).(t_players) →
  h'.(h_holeCards) = h.(h_holeCards) → h'.(h_board) = h.(h_board) → h'.(h_dealer).(d_deckCursor) = h.(h_dealer).(d_deckCursor) →
  h'.(h_potTotal) = h.(h_potTotal) → h'.(h_dealer).(d_deck) = Some deck → deck ≡ₚ fullDeck →
  ready T (set_hand (Some h') w).
Proof.
  intros Hok [Hh H1 H2 H3 H4 H5] Hpot E1 E2 E3 E4 Hd Hp. split; [by apply ok_set_hand|]. exists h', deck.
  split; [|by rewrite E4]. split; cbn; [done|congruence|congruence|congruence|done|done].
Qed.

Lemma initDeck_ok T : wtriple (posted T) initDeck (λ _, ready T).
Proof.
  apply wt_at. intros w (Hok & h & Hst & Hpot). pose proof (sd_hand _ _ Hst) as Hh. unfold initDeck. step. step. step. step. rewrite Hh. cbn.
  by apply (ready_set_hand T w h _ fullDeck).
Qed.

Lemma slash_ready T id reason : wtriple (ready T) (slashValidator id reason) (λ _, ready T).
Proof.
  apply wt_at. intros w (Hok & h & deck & Hst & Hrest).
  eapply wt_post; [eapply wt_pre; [|apply (slashValidator_ok T (w_table w))]; by intros w' ->|]. intros u w' [Hok' Ht]. split; [done|].
  exists h, deck. rewrite Ht. split; [|done]. destruct Hst as [H1 H2 H3 H4 H5 H6]. split; rewrite ?Ht; done.
Qed.

Lemma shuffleRound_ok T behaviors committee handId round :
  wtriple (ready T) (shuffleRound behaviors committee handId round) (λ _, ready T).
Proof.
  apply wt_at. intros w Hw. unfold shuffleRound. step. destruct (w_validators w !! _) as [v|]; [|by step].
  destruct (negb (isActive v)); [by step|]. step; [done|].
  destruct (onShuffle _ _ _ _); [|eapply wt_pre; [|apply slash_ready]; by intros w' ->..].
  destruct Hw as (Hok & h & deck & Hst & Hpot & Hd & Hp). pose proof (sd_hand _ _ Hst) as Hh. rewrite Hh. cbn [mbind option_bind]. rewrite Hd. cbn [default from_option id]. cbv zeta.
  apply wt_shuffle. intros next Hn. rewrite (proj2 (verifyShuffle_spec deck next)) by done. cbn [negb]. step. step. step. rewrite Hh. cbn.
  apply (ready_set_hand T w h _ next); try done. cbn. by rewrite Hn.
Qed.

Lemma runShuffle_ok T sha256Hex behaviors : wtriple (ready T) (runShuffle sha256Hex behaviors) (λ _, ready T).
Proof.
  apply wt_at. intros w (Hok & h & deck & Hst & Hpot & Hd & Hp). pose proof (sd_hand _ _ Hst) as Hh. unfold runShuffle. step. step. rewrite Hd.
  step; [done|]. cbv zeta. rewrite Hh.
  eapply (wt_call _ (ready T)); [apply (wt_forEach (λ _, ready T)); intros round rest; apply shuffleRound_ok|by apply (ready_set_hand T w h _ deck)|].
  intros u. apply wt_at. intros w1 (Hok1 & h1 & deck1 & Hst1 & Hpot1 & Hd1 & Hp1). pose proof (sd_hand _ _ Hst1) as Hh1. step. cbv zeta. repeat step. rewrite Hh1. cbn.
  by apply (ready_set_hand T w1 h1 _ deck1).
Qed.

(** ** The hole cards *)

(** The table while [seatPlayer] has the indices [rest] to go. *)
Record seating (T : Z) (rest : list nat) (w : World) (h : HandState) : Prop := {
  sg_ok : ok T w;
  sg_hand : w.(w_table).(t_hand) = Some h;
  sg_phase : h.(h_phase) = DealHole;
  sg_deck : ∃ deck, h.(h_dealer).(d_deck) = Some deck ∧ deck ≡ₚ fullDeck;
  sg_cursor : h.(h_dealer).(d_deckCursor) = 0;
  sg_board : h.(h_board) = [];
  sg_empty : ∀ id l, h.(h_holeCards) !! id = Some l → l = [];
  sg_pot : h.(h_potTotal) = sumCommitted w.(w_table).(t_players);
  sg_holes : holes w.(w_table).(t_players) h;
  sg_rest : NoDup rest;
  sg_todo : ∀ i p, w.(w_table).(t_players) !! i = Some p → i ∈ rest →
    (p.(p_status) = SitOut ∨ p.(p_status) = Ejected ∨ (p.(p_status) = Seated ∧ w.(w_table).(t_params).(playerBondMin) <= p.(p_bond))) ∧
    (p.(p_committed) ≠ 0 → p.(p_status) = Seated);
  sg_done : ∀ i p, w.(w_table).(t_players) !! i = Some p → i ∉ rest → p.(p_committed) ≠ 0 → isActiveInHand p = true
}.

Lemma set_status_ok T w i p st : ok T w → w.(w_table).(t_players) !! i = Some p → ok T (set_players (alter (set_status st) i w.(w_table).(t_players)) w).
Proof. intros Hok Hp. pose proof (ok_nonneg T w i p Hok Hp) as Hn. by apply (ok_alter T w i (set_status st) p). Qed.

Lemma sumCommitted_alter g ps i : (∀ p, p_committed (g p) = p_committed p) → sumCommitted (alter g i ps) = sumCommitted ps.
Proof. intros H. by rewrite !sumCommitted_sum, map_alter_same. Qed.

(** One player done without a change. *)
Lemma seating_skip T i rest w h :
  seating T (i :: rest) w h → (∀ p, w.(w_table).(t_players) !! i = Some p → p.(p_committed) ≠ 0 → isActiveInHand p = true) → seating T rest w h.
Proof.
  intros [H1 H2 H3 H4 H5 H6 H7 H8 H9 H10 H11 H12] Hi. apply NoDup_cons in H10 as [Hni Hn]. split; try done.
  - intros j p Hj Hin. apply (H11 j); [done|by right].
  - intros j p Hj Hnin. destruct (decide (j = i)) as [->|Hne]; [by apply Hi|]. apply (H12 j); [done|].
    rewrite not_elem_of_cons. done.
Qed.

Lemma seatPlayer_ok T i rest :
  wtriple (λ w, ∃ h, seating T (i :: rest) w h) (seatPlayer i) (λ _ w, ∃ h, seating T rest w h).
Proof.
  apply wt_at. intros w (h & Hsg). pose proof Hsg as [Hok Hh Hph Hdk Hcur Hbd Hem Hpot Hho Hnd Htodo Hdone]. unfold seatPlayer. step. step.
  unfold rd. destruct (t_players (w_table w) !! i) as [p|] eqn:Ep; cbn [default from_option id].
  2:{ rewrite bool_decide_false by done. cbn [negb]. step. exists h. apply (seating_skip _ i); [done|]. intros p Hp. congruence. }
  destruct (Htodo i p Ep ltac:(by left)) as [Hcase Hc].
  destruct (bool_decide (p_status p = Seated)) eqn:Es; cbn [negb].
  2:{ apply bool_decide_eq_false in Es. step. exists h. apply (seating_skip _ i); [done|]. intros p' Hp' Hne. rewrite Ep in Hp'. injection Hp' as <-. by destruct Es; apply Hc. }
  apply bool_decide_eq_true in Es. destruct Hcase as [Hs|[Hs|[_ Hbond]]]; [congruence..|].
  rewrite (proj2 (Z.ltb_ge _ _)) by done. repeat step. cbn. rewrite Hh. cbn. eexists.
  apply NoDup_cons in Hnd as [Hni Hn]. split; cbn; try done.
  - exact (ok_set_hand T _ _ (set_status_ok T w i p InHand Hok Ep)).
  - intros id l. cbn. rewrite lookup_insert_Some. intros [[_ <-]|[_ Hl]]; [done|by apply (Hem id)].
  - by rewrite sumCommitted_alter.
  - unfold holes in *. apply (Forall_alter_at _ _ _ i p Ep).
    + eapply Forall_impl; [exact Hho|]. intros q Hq Hs. cbn. rewrite lookup_insert_is_Some. destruct (decide (p_id p = p_id q)); [by left|right]. by split; [|apply Hq].
    + intros _. cbn. by rewrite lookup_insert_eq.
  - intros j q Hj Hin. assert (j ≠ i) by (by intros ->). rewrite list_lookup_alter_ne in Hj by done. apply (Htodo j); [done|by right].
  - intros j q Hj Hnin. destruct (decide (j = i)) as [->|Hne].
    + rewrite list_lookup_alter_eq, Ep in Hj. cbn in Hj. injection Hj as <-. by intros _.
    + rewrite list_lookup_alter_ne in Hj by done. apply (Hdone j); [done|]. rewrite not_elem_of_cons. done.
Qed.

Lemma no_cards (m : gmap PlayerId (list Z)) : (∀ id l, m !! id = Some l → l = []) → concat (map snd (map_to_list m)) = [].
Proof.
  intros H. assert (Hl : Forall (λ kv : PlayerId * list Z, snd kv = []) (map_to_list m)).
  { apply Forall_forall. intros [id l] Hin. apply elem_of_map_to_list in Hin. by apply (H id). }
  induction Hl as [|[id l] ms Hx _ IH]; [done|]. cbn in *. by rewrite Hx, IH.
Qed.

Lemma seated_all T w h : seating T [] w h → playing T DealHole 0 0 [] w h.
Proof.
  intros [Hok Hh Hph (deck & Hd & Hp) Hcur Hbd Hem Hpot Hho _ _ Hdone]. split; try done.
  - exists deck. repeat split; [done|done|done|lia..|]. unfold dealtCards. rewrite no_cards, Hbd by done. apply submseteq_nil_l.
  - apply Forall_lookup. intros i p Hi. apply (Hdone i); [done|]. by apply not_elem_of_nil.
Qed.

End SimHand.
