(* ===== verification/SimPlay.v ===== *)
(** * Dealing, betting, revealing and settling in the simulator *)
From stdpp Require Import base option list strings gmap pretty.
From Stdlib Require Import ZArith Lia.
From S2P Require Import Prelude Monads SimTypes SimWorld SimInv SimHand.
Import StateM SimTypes SimWorld SimLogic SimInv SimOps SimHand.

Module SimPlay.

(** ** One card *)

Lemma cards_next c pending h d' :
  cards_at c c pending h → c < 52 → d' = set_deckCursor (c + 1) h.(h_dealer) →
  cards_at (c + 1) c pending (set_dealer d' h).
Proof.
  intros (deck & Hd & Hp & Hcur & Hc & H52 & Hs) Hlt ->. exists deck. cbn. repeat split; [done|done|lia..|exact Hs].
Qed.

Lemma playing_next T ph c pending w h :
  playing T ph c c pending w h → c < 52 →
  let h' := set_dealer (set_deckCursor (c + 1) h.(h_dealer)) h in playing T ph (c + 1) c pending (set_hand (Some h') w) h'.
Proof.
  intros [Hok Hh Hph Hca Hl Hho Hpot] Hc h'. split; cbn; try done; [by apply ok_set_hand|by apply cards_next].
Qed.

(** Another card of the deck becomes dealt. *)
Lemma cards_deal c pending pending' h h' deck :
  h.(h_dealer).(d_deck) = Some deck → cards_at (c + 1) c pending h → h'.(h_dealer) = h.(h_dealer) →
  dealtCards h' ++ pending' ≡ₚ rd 0 deck (Z.to_nat c) :: dealtCards h ++ pending →
  cards_at (c + 1) (c + 1) pending' h'.
Proof.
  intros Hdeck (deck' & Hd & Hp & Hcur & Hc & H52 & Hs) Ed Hperm. rewrite Hdeck in Hd. injection Hd as <-.
  assert (Hlen : length deck = 52%nat) by (by rewrite (Permutation_length Hp)).
  exists deck. rewrite Ed. repeat split; [done|done|done|lia..|]. rewrite Hperm, take_deal by lia.
  rewrite (Permutation_app_comm (take _ _)). by apply submseteq_skip.
Qed.

Lemma dealFromDeck_ok {B} w h deck pos (k : Z → sim B) Q :
  w.(w_table).(t_hand) = Some h → h.(h_dealer).(d_deck) = Some deck → 0 <= pos < Z.of_nat (length deck) →
  wtriple (λ w', w' = w) (k (rd 0 deck (Z.to_nat pos))) Q → wtriple (λ w', w' = w) (dealFromDeck pos ≫= k) Q.
Proof.
  intros Hh Hd Hpos H. unfold dealFromDeck. step. step. rewrite Hh. cbn [mbind option_bind]. rewrite Hd. step. step.
  - intros E. apply orb_true_iff in E as [E|E]; b2p; lia.
  - by step.
Qed.

Lemma cards_deck c d pending h : cards_at c d pending h → ∃ deck, h.(h_dealer).(d_deck) = Some deck ∧ length deck = 52%nat.
Proof. intros (deck & Hd & Hp & _). exists deck. split; [done|]. by rewrite (Permutation_length Hp). Qed.

(** The hand of a player who still plays keeps its place. *)
Definition keyed (ids : list PlayerId) (h : HandState) : Prop := Forall (λ id, is_Some (h.(h_holeCards) !! id)) ids.

Lemma dealHoleCard_ok T behaviors c id ids :
  c < 52 →
  wtriple (λ w, ∃ h, playing T DealHole c c [] w h ∧ keyed (id :: ids) h) (dealHoleCard behaviors id)
    (λ b w, if b then ∃ h, playing T DealHole (c + 1) (c + 1) [] w h ∧ keyed ids h else ended T HandAborted w).
Proof.
  intros Hc. apply wt_at. intros w (h & Hpl & Hk). unfold dealHoleCard, nextPos. pose proof (pl_hand _ _ _ _ _ _ _ Hpl) as Hh.
  assert (Hcur : h.(h_dealer).(d_deckCursor) = c) by (by destruct (pl_cards _ _ _ _ _ _ _ Hpl) as (? & _ & _ & ? & _)).
  step. step. cbv zeta. step. step. rewrite Hh, Hcur. step. cbn [fmap option_fmap option_map].
  pose proof (playing_next T DealHole c [] w h Hpl Hc) as Hpl1. cbv zeta in Hpl1.
  set (h1 := set_dealer _ h) in *. set (w1 := set_hand (Some h1) w) in *.
  pose proof (pl_hand _ _ _ _ _ _ _ Hpl1) as Hh1. pose proof (pl_cards _ _ _ _ _ _ _ Hpl1) as Hca1.
  eapply (wt_call w1 (λ w', ok T w' ∧ w_table w' = w_table w1)); [|split; [apply (pl_ok _ _ _ _ _ _ _ Hpl1)|done]|].
  { apply (collectSharesOrAbort_ok T _ h1); [done|by eapply cards_NoDup|by eapply cards_cursor|]. by eexists. }
  intros [|]; cbn [negb].
  2:{ apply wt_at. intros w' Hw'. by step. }
  apply wt_at. intros w2 [Hok2 Ht2]. destruct (cards_deck _ _ _ _ Hca1) as (deck & Hdeck & Hlen).
  assert (Hc0 : 0 <= c) by (destruct Hca1 as (? & _ & _ & _ & ? & _); lia).
  assert (Hh2 : t_hand (w_table w2) = Some h1) by (by rewrite Ht2).
  apply (dealFromDeck_ok w2 h1 deck); [done|done|lia|]. step. step.
  { intros E. apply Forall_cons in Hk as [[cards Hcards] _]. cbn in E. congruence. }
  step. rewrite Hh2. cbn [fmap option_fmap option_map]. set (h3 := set_holeCards _ h1). set (w3 := set_hand (Some h3) w2).
  assert (Hpl3 : playing T DealHole (c + 1) (c + 1) [] w3 h3).
  { destruct Hpl1 as [Hok1 _ Hph1 _ Hl1 Hho1 Hpot1]. split.
    - by apply ok_set_hand.
    - done.
    - done.
    - apply (cards_deal c [] [] h1 h3 deck Hdeck Hca1); [done|]. rewrite !app_nil_r.
      change (concat (map snd (map_to_list (<[id := a ++ [rd 0 deck (Z.to_nat c)]]> (h_holeCards h1)))) ++ h_board h1
        ≡ₚ (rd 0 deck (Z.to_nat c) :: concat (map snd (map_to_list (h_holeCards h1)))) ++ h_board h1).
      by rewrite (deal_hole _ _ _ _ H).
    - change (live (t_players (w_table w2))). by rewrite Ht2.
    - change (holes (t_players (w_table w2)) h3). rewrite Ht2. eapply Forall_impl; [exact Hho1|]. intros q Hq Hs. unfold h3. cbn.
      rewrite lookup_insert_is_Some. destruct (decide (id = p_id q)); [by left|right]. by split; [|apply Hq].
    - change (h_potTotal h1 = sumCommitted (t_players (w_table w2))). by rewrite Ht2. }
  eapply (wt_assert T); [apply (pl_ok _ _ _ _ _ _ _ Hpl3)|by eapply playing_cursor|]. step. exists h3. split; [done|].
  apply Forall_cons in Hk as [_ Hk]. eapply Forall_impl; [exact Hk|]. intros j Hj. unfold h3. cbn.
  rewrite lookup_insert_is_Some. destruct (decide (id = j)); [by left|right]. by split.
Qed.

Lemma dealLoop_ok T behaviors c ids :
  c + Z.of_nat (length ids) <= 18 →
  wtriple (λ w, ∃ h, playing T DealHole c c [] w h ∧ keyed ids h) (dealLoop behaviors ids)
    (λ _ w, in_play T DealHole 18 w ∨ ended T HandAborted w).
Proof.
  revert c. induction ids as [|id ids IH]; intros c Hc; cbn [dealLoop].
  - apply wt_at. intros w (h & Hpl & _). step. left. exists c, h. split; [simpl in Hc; lia|done].
  - cbn [length] in Hc. eapply wt_bind; [apply (dealHoleCard_ok T behaviors c id ids); lia|]. intros [|]; cbn [negb].
    + apply IH. lia.
    + apply wt_at. intros w Hw. step. by right.
Qed.

Lemma refs_length f ps : (length (refs f ps) <= length ps)%nat.
Proof. unfold refs. etransitivity; [apply filter_length_le|]. by rewrite length_seq. Qed.

Lemma dealHoleCards_ok T behaviors : wtriple (ready T) (dealHoleCards behaviors) (λ _ w, in_play T DealHole 18 w ∨ ended T HandAborted w).
Proof.
  apply wt_at. intros w (Hok & h & deck & Hst & Hpot & Hd & Hp). pose proof (sd_hand _ _ Hst) as Hh. unfold dealHoleCards. step. step. step. rewrite Hh. cbn [fmap option_fmap option_map].
  change (length (t_players (w_table (set_hand (Some (set_phase DealHole h)) w)))) with (length (t_players (w_table w))).
  set (n := length (t_players (w_table w))).
  eapply (wt_call _ (λ w, ∃ h, seating T (seq 0 n) w h)).
  - apply (wt_forEach (λ rest w, ∃ h, seating T rest w h)). intros i rest. apply seatPlayer_ok.
  - exists (set_phase DealHole h). destruct Hst as [_ H1 H2 H3 H4 H5]. split; cbn; try done; [by apply ok_set_hand|by exists deck| | |apply NoDup_seq| |].
    + intros id l. by rewrite H1, lookup_empty.
    + eapply Forall_impl; [exact H4|]. intros p Hc Hs. cbv beta in Hc. rewrite Hs in Hc. by destruct Hc as [?|[?|[? _]]].
    + intros i p Hi _. split; [exact (Forall_lookup_1 _ _ _ _ H4 Hi)|exact (Forall_lookup_1 _ _ _ _ H5 Hi)].
    + intros i p Hi Hnin. destruct Hnin. apply elem_of_seq. apply lookup_lt_Some in Hi. lia.
  - intros u. apply wt_at. intros w1 (h1 & Hsg%seated_all). step. cbv zeta. eapply wt_pre; [|apply (dealLoop_ok T behaviors 0)].
    + intros w' ->. exists h1. split; [done|]. destruct Hsg as [Hok1 _ _ _ _ Hho _]. apply Forall_forall. intros id Hid.
      apply list_elem_of_In, in_concat in Hid as (l & Hl & Hin). apply in_map_iff in Hl as (i & <- & Hi). apply list_elem_of_In, elem_of_replicate in Hin as [-> _].
      apply refs_spec in Hi as (p & Hp1 & Hs). apply bool_decide_eq_true in Hs. rewrite (rd_lookup _ _ _ _ Hp1).
      by apply (Forall_lookup_1 _ _ _ _ Hho Hp1).
    + pose proof (po_count _ (ok_players _ _ (pl_ok _ _ _ _ _ _ _ Hsg))) as Hc. unfold remainingPlayers.
      pose proof (refs_length (λ p, bool_decide (p_status p = InHand)) (t_players (w_table w1))) as Hr.
      assert (El : ∀ l : list nat, length (concat (map (λ i, replicate 2 (p_id (rd noPlayer (t_players (w_table w1)) i))) l)) = (2 * length l)%nat).
      { induction l as [|i l IH]; [done|]. cbn [map concat]. rewrite length_app, IH, length_replicate. simpl. lia. }
      rewrite El. lia.
Qed.

(** ** Betting *)

(** [playing], before the pot is brought up to date. *)
Record betting (T c : Z) (w : World) (h : HandState) : Prop := {
  bt_ok : ok T w;
  bt_hand : w.(w_table).(t_hand) = Some h;
  bt_phase : h.(h_phase) = PreflopBetting;
  bt_cards : cards_at c c [] h;
  bt_live : live w.(w_table).(t_players);
  bt_holes : holes w.(w_table).(t_players) h
}.

(** The player at [i] takes part in the hand. *)
Definition active_at (i : nat) (w : World) : Prop := ∃ p, w.(w_table).(t_players) !! i = Some p ∧ isActiveInHand p = true.

Lemma betting_players T c w h i g p treasury :
  betting T c w h → w.(w_table).(t_players) !! i = Some p →
  (∀ p, p_id (g p) = p_id p) → (∀ p, p_seat (g p) = p_seat p) → nonneg (g p) → treasury + chips (g p) = w.(w_treasury) + chips p →
  (p_committed (g p) ≠ 0 → isActiveInHand (g p) = true) → (p_status (g p) = InHand → p_status p = InHand) →
  betting T c (set_treasury treasury (set_players (alter g i w.(w_table).(t_players)) w)) h.
Proof.
  intros [Hok Hh Hph Hca Hl Hho] Hp H1 H2 Hn Hc Hact Hin. destruct Hok as [Ht Hi Hs [Hpn Hpp Hpc] Hb]. split; cbn; try done.
  - split; cbn; try done.
    + unfold totalChips, allChips in *. cbn. rewrite (sumZ_alter chips g _ i p) by done. lia.
    + split; [by apply (Forall_alter_at nonneg g _ i p)|by apply placed_alter|by rewrite length_alter].
  - by apply (Forall_alter_at _ g _ i p).
  - apply (Forall_alter_at _ g _ i p Hp); [exact Hho|]. intros Hst. rewrite H1. by apply (Forall_lookup_1 _ _ _ _ Hho Hp), Hin.
Qed.

Lemma set_treasury_id w : set_treasury w.(w_treasury) w = w.
Proof. by destruct w. Qed.

Lemma betting_alter T c w h i g p :
  betting T c w h → w.(w_table).(t_players) !! i = Some p →
  (∀ p, p_id (g p) = p_id p) → (∀ p, p_seat (g p) = p_seat p) → nonneg (g p) → chips (g p) = chips p →
  (p_committed (g p) ≠ 0 → isActiveInHand (g p) = true) → (p_status (g p) = InHand → p_status p = InHand) →
  betting T c (set_players (alter g i w.(w_table).(t_players)) w) h.
Proof. intros Hb Hp H1 H2 Hn Hc Ha Hs. apply (betting_players T c w h i g p w.(w_treasury)); try done. lia. Qed.

Lemma betting_nonneg T c w h i p : betting T c w h → w.(w_table).(t_players) !! i = Some p → nonneg p.
Proof. intros Hb. apply (ok_nonneg T). apply Hb. Qed.

Lemma betting_pay T c w h i p amt :
  betting T c w h → w.(w_table).(t_players) !! i = Some p → isActiveInHand p = true → 0 <= amt <= p.(p_stack) →
  betting T c (set_players (alter (pay amt) i w.(w_table).(t_players)) w) h.
Proof.
  intros Hb Hp Ha Hamt. pose proof (betting_nonneg _ _ _ _ _ _ Hb Hp) as Hn. apply (betting_alter T c w h i (pay amt) p); try done; by apply pay_ok.
Qed.

Lemma betting_status T c w h i p st :
  betting T c w h → w.(w_table).(t_players) !! i = Some p → st = Folded ∨ st = Ejected →
  betting T c (set_players (alter (set_status st) i w.(w_table).(t_players)) w) h.
Proof.
  intros Hb Hp Hst. pose proof (betting_nonneg _ _ _ _ _ _ Hb Hp) as Hn. apply (betting_alter T c w h i (set_status st) p); try done.
  - intros _. by destruct Hst as [->| ->].
  - by destruct Hst as [->| ->].
Qed.

Lemma betting_didBet T c w h b : betting T c w h → betting T c (set_hand (Some (set_didBet b h)) w) (set_didBet b h).
Proof. intros [Hok Hh Hph Hca Hl Hho]. split; cbn; try done. by apply ok_set_hand. Qed.

Lemma active_alter i j g w :
  active_at i w → (∀ p, isActiveInHand p = true → isActiveInHand (g p) = true) → active_at i (set_players (alter g j w.(w_table).(t_players)) w).
Proof.
  intros (p & Hp & Ha) Hg. unfold active_at. cbn. destruct (decide (i = j)) as [->|Hne].
  - exists (g p). rewrite list_lookup_alter_eq, Hp. split; [done|by apply Hg].
  - exists p. rewrite list_lookup_alter_ne by done. done.
Qed.

Lemma slashPlayer_ok T c h i id reason :
  wtriple (λ w, betting T c w h ∧ active_at i w) (slashPlayer id reason) (λ _ w, betting T c w h ∧ active_at i w).
Proof.
  apply wt_at. intros w [Hb Ha]. unfold slashPlayer. step. rewrite findId_ok by apply (po_placed _ (ok_players _ _ (bt_ok _ _ _ _ Hb))).
  destruct (t_players (w_table w) !! id) as [p|] eqn:Ep; cbn [fmap option_fmap option_map]; [|by step]. cbv zeta.
  set (amt := Z.min _ _). set (g := λ p, set_timeouts (λ n, n + 1) (set_bond (λ b, b - amt) p)).
  pose proof (betting_nonneg _ _ _ _ _ _ Hb Ep) as Hn.
  assert (Hb1 : betting T c (set_treasury (w_treasury w + amt) (set_players (alter g id (t_players (w_table w))) w)) h).
  { apply (betting_players T c w h id g p); try done.
    - unfold nonneg in *. cbn. unfold amt. lia.
    - unfold chips. cbn. lia.
    - intros Hc. apply (Forall_lookup_1 _ _ _ _ (bt_live _ _ _ _ Hb) Ep Hc). }
  assert (Ha1 : active_at i (set_treasury (w_treasury w + amt) (set_players (alter g id (t_players (w_table w))) w))) by (by apply (active_alter i id g w)).
  step. step. step. destruct (_ && _); [|by step].
  step. step. step. assert (Ep1 : alter g id (t_players (w_table w)) !! id = Some (g p)) by (by rewrite list_lookup_alter_eq, Ep).
  step. split; [exact (betting_status T c _ h id (g p) Ejected Hb1 Ep1 (or_intror eq_refl))|exact (active_alter i id (set_status Ejected) _ Ha1 (λ _ _, eq_refl))].
Qed.

Lemma applyAction_ok T c i toCall minRaiseTo currentBet action :
  0 <= toCall →
  wtriple (λ w, (∃ h, betting T c w h) ∧ active_at i w) (applyAction i toCall minRaiseTo currentBet action) (λ _ w, ∃ h, betting T c w h).
Proof.
  intros Htc. apply wt_at. intros w [(h & Hb) (p & Hp & Ha)]. pose proof (bt_hand _ _ _ _ Hb) as Hh. unfold applyAction.
  step. step. step. rewrite (rd_lookup _ _ _ _ Hp). cbv zeta. pose proof (betting_nonneg _ _ _ _ _ _ Hb Hp) as Hn.
  assert (Hpay : ∀ amt, 0 <= amt <= p_stack p → ∃ h', betting T c (set_hand (set_didBet true <$> t_hand (w_table (set_players (alter (pay amt) i (t_players (w_table w))) w)))
      (set_players (alter (pay amt) i (t_players (w_table w))) w)) h').
  { intros amt Hamt. exists (set_didBet true h). change (t_hand (w_table (set_players _ w))) with (t_hand (w_table w)). rewrite Hh. by apply betting_didBet, (betting_pay T c w h i p). }
  unfold nonneg in Hn. destruct action as [| | |amount|]; cbv zeta.
  - destruct (negb _); repeat step; exists h; [|exact Hb]. apply (betting_status T c w h i p); [done..|by left].
  - unfold didBet. repeat step. apply Hpay. lia.
  - unfold didBet. repeat step. exists (set_didBet true h). rewrite Hh. by apply betting_didBet.
  - destruct (p_stack p <? _) eqn:E; b2p; unfold didBet; repeat step; apply Hpay; lia.
  - step. by exists h.
Qed.

(** ** Settling *)

Lemma clear_chips ps : live ps → Forall nonneg ps →
  allChips (map clearCommitted ps) = allChips ps - sumCommitted ps ∧ idle (map clearCommitted ps) ∧ Forall nonneg (map clearCommitted ps) ∧
  map p_id (map clearCommitted ps) = map p_id ps ∧ map p_seat (map clearCommitted ps) = map p_seat ps.
Proof.
  rewrite sumCommitted_sum. unfold allChips. induction 1 as [|p ps Hl _ IH]; intros Hn; [repeat split; constructor|]. apply Forall_cons in Hn as [Hp Hn].
  destruct (IH Hn) as (E & Hid & Hnn & E1 & E2). cbn [map]. rewrite !sumZ_cons, E, E1, E2.
  assert (Hc : chips (clearCommitted p) = chips p - p_committed p ∧ p_committed (clearCommitted p) = 0 ∧ nonneg (clearCommitted p) ∧
    p_id (clearCommitted p) = p_id p ∧ p_seat (clearCommitted p) = p_seat p).
  { unfold clearCommitted, chips, nonneg in *. destruct (isActiveInHand p) eqn:Ea; cbn; [lia|].
    assert (p_committed p = 0); [|lia]. destruct (decide (p_committed p = 0)); [done|]. by specialize (Hl ltac:(done)). }
  destruct Hc as (H1 & H2 & H3 & H4 & H5). rewrite H4, H5. repeat split; [lia|by constructor|by constructor].
Qed.

Lemma settle_ok T ph c w h winner p :
  playing T ph c c [] w h → w.(w_table).(t_players) !! winner = Some p →
  let ps := map clearCommitted (alter (set_stack (λ s, s + h.(h_potTotal))) winner w.(w_table).(t_players)) in
  ok T (set_players ps w) ∧ idle ps.
Proof.
  intros [Hok Hh Hph Hca Hl Hho Hpot] Hp ps. pose proof (ok_players _ _ Hok) as [Hn Hpl Hc]. set (g := set_stack _) in *.
  assert (Hsum : 0 <= sumCommitted (t_players (w_table w))).
  { rewrite sumCommitted_sum. apply sumZ_nonneg. apply Forall_fmap. eapply Forall_impl; [exact Hn|]. by intros q (_ & ? & _). }
  pose proof (Forall_lookup_1 _ _ _ _ Hn Hp) as Hpn.
  assert (Hl1 : live (alter g winner (t_players (w_table w)))).
  { apply (Forall_alter_at _ g _ winner p Hp); [exact Hl|]. exact (Forall_lookup_1 _ _ _ _ Hl Hp). }
  assert (Hn1 : Forall nonneg (alter g winner (t_players (w_table w)))).
  { apply (Forall_alter_at _ g _ winner p Hp); [exact Hn|]. unfold nonneg in *. cbn. rewrite Hpot. lia. }
  destruct (clear_chips _ Hl1 Hn1) as (E & Hid & Hnn & E1 & E2). split; [|done].
  destruct Hpl as [P1 P2]. apply ok_set_players; [done|done| | |].
  - unfold ps. split; rewrite ?E1, ?E2, length_map, length_alter, map_alter_same; done.
  - unfold ps. by rewrite length_map, length_alter.
  - unfold ps. rewrite E, sumCommitted_alter by done. unfold allChips. rewrite (sumZ_alter chips g _ winner p) by done.
    unfold g, chips. cbn. rewrite Hpot. lia.
Qed.

(** The world at the end of a settled hand. *)
Lemma settle_ended T ph c w h winner p :
  playing T ph c c [] w h → w.(w_table).(t_players) !! winner = Some p →
  let ps := map clearCommitted (alter (set_stack (λ s, s + h.(h_potTotal))) winner w.(w_table).(t_players)) in
  ended T HandComplete (set_hand (Some (set_phase HandComplete (set_pot 0 h))) (set_players ps w)).
Proof.
  intros Hpl Hp ps. destruct (settle_ok T ph c w h winner p Hpl Hp) as [Hok Hid]. destruct Hpl as [_ Hh Hph Hca _ _ _]. split.
  - split; cbn; [by apply ok_set_hand|exact Hid| |].
    + intros h' [= <-]. cbn. by apply (cards_cursor c c []).
    + intros h' [= <-]. split; [done|]. by apply (cards_NoDup c c []).
  - eexists. split; [reflexivity|done].
Qed.

End SimPlay.
