(* ===== verification/SimThms.v ===== *)
(** * What the simulator guarantees

    A whole run, from [createWorld] to the last hand, throws only exceptions
    that the configuration or the behaviours cause; no chip appears or
    disappears; nothing is left committed between hands; and the cards dealt
    in a hand are distinct. *)
From stdpp Require Import base option list strings gmap pretty.
From Stdlib Require Import ZArith Lia.
From S2P Require Import Prelude Monads SimTypes SimWorld SimScenarios SimInv SimHand SimPlay.
Import StateM SimTypes SimWorld SimScenarios SimLogic SimInv SimOps SimHand SimPlay.

Module SimThms.

(** ** Betting *)

Lemma playing_betting T c w h : playing T PreflopBetting c c [] w h → betting T c w h.
Proof. intros [Hok Hh Hph Hca Hl Hho Hpot]. by split. Qed.

Lemma betting_playing T c w h :
  betting T c w h → let h' := set_pot (sumCommitted w.(w_table).(t_players)) h in playing T PreflopBetting c c [] (set_hand (Some h') w) h'.
Proof. intros [Hok Hh Hph Hca Hl Hho] h'. split; cbn; try done. by apply ok_set_hand. Qed.

Lemma normalize_withhold toCall : normalizePlayerAction WithholdAct toCall = WithholdAct.
Proof. done. Qed.

Lemma preflopSeat_ok T c behaviors minRaiseTo currentBet seat :
  wtriple (λ w, ∃ h, playing T PreflopBetting c c [] w h) (preflopSeat behaviors minRaiseTo currentBet seat)
    (λ r w, if snd r then ended T HandComplete w else ∃ h, playing T PreflopBetting c c [] w h).
Proof.
  apply wt_at. intros w (h & Hpl). pose proof (pl_hand _ _ _ _ _ _ _ Hpl) as Hh. unfold preflopSeat. step. step.
  pose proof (ok_players _ _ (pl_ok _ _ _ _ _ _ _ Hpl)) as [_ Hplc _]. rewrite findSeat_ok by done.
  destruct (t_players (w_table w) !! seat) as [p|] eqn:Ep; cbn [fmap option_fmap option_map]; [|step; by exists h].
  destruct (bool_decide (p_status p = InHand)) eqn:Es; cbn [negb]; [|step; by exists h]. apply bool_decide_eq_true in Es.
  cbv zeta. set (toCall := Z.max 0 _). step; [done|].
  eapply (wt_bind _ _ _ (λ _ w, betting T c w h ∧ active_at seat w)).
  { assert (Hw : betting T c w h ∧ active_at seat w).
    { split; [by apply playing_betting|]. exists p. split; [done|]. unfold isActiveInHand. by rewrite Es, bool_decide_true. }
    destruct (onPreflopAction _ _ _ _ _); [step; exact Hw..|]. destruct (applyTimeoutDefaultAction toCall) as [def res]. step.
    eapply wt_call; [apply (slashPlayer_ok T c h seat)|exact Hw|]. intros u. apply wt_at. intros w' Hw'. by step. }
  intros action. eapply wt_bind; [eapply wt_pre; [|apply (applyAction_ok T c seat)]|].
  { intros w' [Hb Ha]. split; [by exists h|done]. } { lia. }
  intros bet. apply wt_at. intros w1 (h1 & Hb1). unfold updatePot. step. step. step. rewrite (bt_hand _ _ _ _ Hb1).
  pose proof (betting_playing _ _ _ _ Hb1) as Hpl2. cbv zeta in Hpl2. cbn [fmap option_fmap option_map]. set (h2 := set_pot _ h1) in *. set (w2 := set_hand (Some h2) w1) in *.
  assert (Hgo : wtriple (λ w', w' = w2) (assertInvariants ≫= λ _, mret (bet, false))
    (λ (r : Z * bool) w0, if r.2 then ended T HandComplete w0 else ∃ h0, playing T PreflopBetting c c [] w0 h0)).
  { eapply (wt_assert T); [apply (pl_ok _ _ _ _ _ _ _ Hpl2)|by eapply playing_cursor|]. step. by exists h2. }
  step. destruct (remainingPlayers _) as [|winner [|]] eqn:Er; [exact Hgo| |exact Hgo].
  pose proof (pl_hand _ _ _ _ _ _ _ Hpl2) as Hh2. step. unfold settle. do 6 step.
  assert (Hwin : In winner (remainingPlayers (t_players (w_table w2)))) by (rewrite Er; by left).
  apply refs_spec in Hwin as (pw & Hpw & _). cbn [snd]. exact (settle_ended T _ c w2 h2 winner pw Hpl2 Hpw).
Qed.

Lemma preflopLoop_ok T c behaviors minRaiseTo currentBet seats :
  wtriple (λ w, ∃ h, playing T PreflopBetting c c [] w h) (preflopLoop behaviors minRaiseTo currentBet seats)
    (λ _ w, ended T HandComplete w ∨ ∃ h, playing T PreflopBetting c c [] w h).
Proof.
  revert currentBet. induction seats as [|seat seats IH]; intros currentBet; cbn [preflopLoop].
  - apply wt_at. intros w Hw. step. by right.
  - eapply wt_bind; [apply preflopSeat_ok|]. intros [bet [|]]; cbn [fst snd]; [|apply IH]. apply wt_at. intros w Hw. step. by left.
Qed.

Lemma set_phase_playing T ph ph' c d pending w h :
  playing T ph c d pending w h → playing T ph' c d pending (set_hand (Some (set_phase ph' h)) w) (set_phase ph' h).
Proof. intros [Hok Hh Hph Hca Hl Hho Hpot]. split; cbn; try done. by apply ok_set_hand. Qed.

Lemma runPreflopBetting_ok T ph k behaviors :
  wtriple (in_play T ph k) (runPreflopBetting behaviors) (λ _ w, ended T HandComplete w ∨ in_play T PreflopBetting k w).
Proof.
  apply wt_at. intros w (c & h & Hc & Hpl). pose proof (pl_hand _ _ _ _ _ _ _ Hpl) as Hh. unfold runPreflopBetting. step. step. step. rewrite Hh. cbv zeta.
  eapply wt_post; [eapply wt_pre; [|apply (preflopLoop_ok T c)]|].
  - intros w' ->. eexists. by apply (set_phase_playing T ph).
  - intros u w' [H|(h' & H)]; [by left|right]. by exists c, h'.
Qed.

(** ** Revealing *)

Lemma playing_pending T ph c pending pending' w h h' deck :
  playing T ph (c + 1) c pending w h → h.(h_dealer).(d_deck) = Some deck → h' = h → pending' = pending ++ [rd 0 deck (Z.to_nat c)] →
  playing T ph (c + 1) (c + 1) pending' w h'.
Proof.
  intros [Hok Hh Hph Hca Hl Hho Hpot] Hd -> ->. split; try done. apply (cards_deal c pending _ h h deck); [done..|].
  rewrite app_assoc, (Permutation_app_comm _ [_]). done.
Qed.

Lemma revealLoop_ok T ph behaviors count c cards :
  c + Z.of_nat count <= 52 →
  wtriple (λ w, ∃ h, playing T ph c c cards w h) (revealLoop behaviors count cards)
    (λ r w, match r with
            | Some cards => ∃ h, playing T ph (c + Z.of_nat count) (c + Z.of_nat count) cards w h
            | None => ended T HandAborted w
            end).
Proof.
  revert c cards. induction count as [|count IH]; intros c cards Hc; cbn [revealLoop].
  { apply wt_at. intros w Hw. step. by rewrite Z.add_0_r. }
  apply wt_at. intros w (h & Hpl). unfold nextPos. pose proof (pl_hand _ _ _ _ _ _ _ Hpl) as Hh.
  assert (Hcur : h.(h_dealer).(d_deckCursor) = c) by (by destruct (pl_cards _ _ _ _ _ _ _ Hpl) as (? & _ & _ & ? & _)).
  step. step. cbv zeta. step. step. rewrite Hh, Hcur. step. cbn [fmap option_fmap option_map].
  pose proof (playing_next T ph c cards w h Hpl ltac:(lia)) as Hpl1. cbv zeta in Hpl1.
  set (h1 := set_dealer _ h) in *. set (w1 := set_hand (Some h1) w) in *.
  pose proof (pl_hand _ _ _ _ _ _ _ Hpl1) as Hh1. pose proof (pl_cards _ _ _ _ _ _ _ Hpl1) as Hca1.
  eapply (wt_call w1 (λ w', ok T w' ∧ w_table w' = w_table w1)); [|split; [apply (pl_ok _ _ _ _ _ _ _ Hpl1)|done]|].
  { apply (collectSharesOrAbort_ok T _ h1); [done|by eapply cards_NoDup|by eapply cards_cursor|]. done. }
  intros [|]; cbn [negb].
  2:{ apply wt_at. intros w' Hw'. by step. }
  apply wt_at. intros w2 [Hok2 Ht2]. destruct (cards_deck _ _ _ _ Hca1) as (deck & Hdeck & Hlen).
  assert (Hc0 : 0 <= c) by (destruct Hca1 as (? & _ & _ & _ & ? & _); lia).
  apply (dealFromDeck_ok w2 h1 deck); [by rewrite Ht2|done|lia|].
  eapply wt_post; [eapply wt_pre; [|apply (IH (c + 1)); lia]|].
  - intros w' ->. exists h1. apply (playing_pending T ph c cards _ w2 h1 h1 deck); [|done..].
    destruct Hpl1 as [_ _ H3 H4 H5 H6 H7]. split; rewrite ?Ht2; done.
  - intros r w'. cbv beta. by replace (c + 1 + Z.of_nat count) with (c + Z.of_nat (S count)) by lia.
Qed.

Lemma revealStreet_ok T ph k street behaviors :
  k + 3 <= 52 →
  wtriple (in_play T ph k) (revealStreet behaviors street) (λ b w, if b then in_play T ph (k + (match street with Flop => 3 | _ => 1 end)) w else ended T HandAborted w).
Proof.
  intros Hk. apply wt_at. intros w (c & h & Hc & Hpl). pose proof (pl_hand _ _ _ _ _ _ _ Hpl) as Hh. unfold revealStreet. step.
  set (count := (match street with Flop => 3 | _ => 1 end)%nat). assert (Hcount : (count <= 3)%nat) by (by destruct street; cbn; lia).
  eapply wt_call; [apply (revealLoop_ok T ph behaviors count c []); lia|by exists h|]. intros [cards|]; cbv beta.
  2:{ apply wt_at. intros w' Hw'. by step. }
  apply wt_at. intros w1 (h1 & Hpl1). pose proof (pl_hand _ _ _ _ _ _ _ Hpl1) as Hh1. step. rewrite Hh1. cbn [fmap option_fmap option_map].
  set (h2 := set_board _ h1). set (w2 := set_hand (Some h2) w1).
  assert (Hpl2 : playing T ph (c + Z.of_nat count) (c + Z.of_nat count) [] w2 h2).
  { destruct Hpl1 as [Hok1 _ H3 H4 H5 H6 H7]. split; try done; [by apply ok_set_hand|].
    destruct H4 as (deck & D1 & D2 & D3 & D4 & D5 & D6). exists deck. repeat split; try done; try lia.
    rewrite app_nil_r. unfold dealtCards in *. cbn. by rewrite app_assoc. }
  step. step. eapply (wt_assert T); [apply (pl_ok _ _ _ _ _ _ _ Hpl2)|by eapply playing_cursor|]. step.
  exists (c + Z.of_nat count), h2. split; [|done]. unfold count. destruct street; lia.
Qed.

(** ** Showdown *)

Lemma best_in hand players l acc : In (fst (foldl (bestStep hand players) acc l)) (fst acc :: l).
Proof.
  revert acc. induction l as [|i l IH]; intros acc; cbn [foldl]; [by left|].
  specialize (IH (bestStep hand players acc i)). destruct IH as [IH|IH]; [|by right; right].
  rewrite <-IH. unfold bestStep. destruct (snd acc); [destruct (_ <? _)|]; [by right; left|by left|by right; left].
Qed.

Lemma showdown_ok T ph k : wtriple (in_play T ph k) showdownAndSettle (λ _, settled T).
Proof.
  apply wt_at. intros w (c & h & Hc & Hpl). pose proof (pl_hand _ _ _ _ _ _ _ Hpl) as Hh. unfold showdownAndSettle. step. step. cbv zeta.
  destruct (remainingPlayers _) as [|first rest] eqn:Er.
  - eapply wt_post; [eapply wt_pre; [|apply (abortHand_ok T (w_table w) h); [done|eapply cards_NoDup; apply Hpl|eapply cards_cursor; apply Hpl]]|].
    + intros w' ->. split; [apply Hpl|done].
    + by intros u w' [Hst _].
  - set (winner := match rest with [] => first | _ => _ end).
    assert (Hwin : In winner (remainingPlayers (t_players (w_table w)))).
    { rewrite Er. unfold winner. destruct rest; [by left|]. destruct (best_in h (t_players (w_table w)) (first :: n :: rest) (first, None)) as [E|E]; [|exact E]. rewrite <-E. by left. }
    apply refs_spec in Hwin as (pw & Hpw & _). unfold settle. do 6 step. cbn. rewrite Hh. cbn. step.
    exact (proj1 (settle_ended T _ c w h winner pw Hpl Hpw)).
Qed.

(** ** A hand *)

Lemma phaseIs_ok {B} w h ph (k : bool → sim B) Q :
  w.(w_table).(t_hand) = Some h → wtriple (λ w', w' = w) (k (bool_decide (h.(h_phase) = ph))) Q → wtriple (λ w', w' = w) (phaseIs ph ≫= k) Q.
Proof. intros Hh H. unfold phaseIs. step. step. rewrite Hh. by step. Qed.

Lemma in_play_phase T ph ph' k w h :
  in_play T ph k w → w.(w_table).(t_hand) = Some h → in_play T ph' k (set_hand (Some (set_phase ph' h)) w).
Proof.
  intros (c & h0 & Hc & Hpl) Hh. pose proof (pl_hand _ _ _ _ _ _ _ Hpl) as Hh0. rewrite Hh in Hh0. injection Hh0 as <-.
  exists c, (set_phase ph' h). split; [done|by apply (set_phase_playing T ph)].
Qed.

Lemma in_play_hand T ph k w : in_play T ph k w → ∃ h, w.(w_table).(t_hand) = Some h ∧ h.(h_phase) = ph.
Proof. intros (c & h & Hc & Hpl). exists h. split; apply Hpl. Qed.

Lemma in_play_checks T ph k w : in_play T ph k w → ok T w ∧ cursor_ok w.(w_table).
Proof. intros (c & h & Hc & Hpl). split; [apply Hpl|by eapply playing_cursor]. Qed.

Lemma settled_button T w n : settled T w → settled T (set_button n w).
Proof. intros [[H1 H2 H3 H4 H5] Hid Hc Hh]. by split. Qed.

Lemma wt_done {A} P (a : A) (Q : A → World → Prop) : (∀ w, P w → Q a w) → wtriple P (mret a) Q.
Proof. intros H s Hs. by apply H. Qed.

(** One street: abort, or go on. *)
Lemma wt_street T ph ph' k street behaviors (rest : sim unit) :
  k + 3 <= 52 →
  wtriple (in_play T ph' (k + (match street with Flop => 3 | _ => 1 end))) rest (λ _, settled T) →
  wtriple (in_play T ph k) (modifyHand (set_phase ph') ;; b ← revealStreet behaviors street; if negb b then mret tt else rest) (λ _, settled T).
Proof.
  intros Hk H. apply wt_at. intros w Hw. destruct (in_play_hand _ _ _ _ Hw) as (h & Hh & _). step. rewrite Hh. cbn [fmap option_fmap option_map].
  eapply wt_call; [apply (revealStreet_ok T ph' k street); exact Hk|by apply (in_play_phase T ph)|]. intros [|]; cbn [negb]; [exact H|].
  apply wt_done. by intros w' [Hst _].
Qed.

Lemma ended_hand T ph w : ended T ph w → settled T w ∧ ∃ h, w.(w_table).(t_hand) = Some h ∧ h.(h_phase) = ph.
Proof. done. Qed.

Lemma playHand_ok T sha256Hex behaviors i : wtriple (settled T) (playHand sha256Hex behaviors i) (λ _, settled T).
Proof.
  apply wt_at. intros w Hst. unfold playHand. step.
  eapply (wt_bind _ _ _ (λ _, settled T)).
  { destruct (_ && _); [|by step].
    eapply wt_call; [apply (rotateCommittee_ok T (w_table w))|split; [apply Hst|done]|]. intros c. apply wt_at. intros w' [Hok Ht].
    step. destruct Hst as [_ H1 H2 H3]. split; rewrite ?Ht; done. }
  intros _u. eapply wt_bind; [apply startHand_ok|]. intros u1. eapply wt_bind; [apply postBlinds_ok|]. intros u2.
  eapply wt_bind; [apply initDeck_ok|]. intros u3. eapply wt_bind; [apply runShuffle_ok|]. intros u4.
  apply wt_at. intros w1 Hr. pose proof Hr as (Hok1 & h1 & deck1 & Hst1 & _).
  eapply (wt_assert T); [done|intros h' Hh'; rewrite (sd_hand _ _ Hst1) in Hh'; injection Hh' as <-; rewrite (sd_cursor _ _ Hst1); lia|].
  eapply wt_call; [apply (dealHoleCards_ok T)|exact Hr|]. intros u5. apply wt_at. intros w2 [Hip|Hend].
  2:{ destruct Hend as [Hst2 (h2 & Hh2 & Hph2)]. eapply (wt_assert T); [apply Hst2|apply Hst2|]. apply (phaseIs_ok w2 h2); [done|].
      rewrite Hph2, bool_decide_true by done. by step. }
  destruct (in_play_checks _ _ _ _ Hip) as [Hok2 Hc2], (in_play_hand _ _ _ _ Hip) as (h2 & Hh2 & Hph2).
  eapply (wt_assert T); [done..|]. apply (phaseIs_ok w2 h2); [done|]. rewrite Hph2, bool_decide_false by done.
  eapply wt_call; [apply (runPreflopBetting_ok T DealHole 18)|exact Hip|]. intros u6. apply wt_at. intros w3 [Hend|Hip3].
  { destruct Hend as [Hst3 (h3 & Hh3 & Hph3)]. eapply (wt_assert T); [apply Hst3|apply Hst3|]. apply (phaseIs_ok w3 h3); [done|].
    rewrite Hph3, bool_decide_true by done. by step. }
  destruct (in_play_checks _ _ _ _ Hip3) as [Hok3 Hc3], (in_play_hand _ _ _ _ Hip3) as (h3 & Hh3 & Hph3).
  eapply (wt_assert T); [done..|]. apply (phaseIs_ok w3 h3); [done|]. rewrite Hph3, bool_decide_false by done.
  apply (phaseIs_ok w3 h3); [done|]. rewrite Hph3, bool_decide_false by done.
  eapply wt_pre; [|apply (wt_street T PreflopBetting FlopReveal 18 Flop); [lia|apply (wt_street T FlopReveal TurnReveal 21 Turn); [lia|
    apply (wt_street T TurnReveal RiverReveal 22 River); [lia|]]]]. { intros w' ->. exact Hip3. }
  apply wt_at. intros w4 Hip4. destruct (in_play_hand _ _ _ _ Hip4) as (h4 & Hh4 & _). step. rewrite Hh4. cbn [fmap option_fmap option_map].
  eapply wt_call; [apply (showdown_ok T Showdown 23)|by apply (in_play_phase T RiverReveal Showdown 23)|]. intros u7. apply wt_at. intros w5 Hst5.
  eapply (wt_assert T); [apply Hst5|apply Hst5|]. do 3 step. by apply settled_button.
Qed.

(** ** The run *)

(** A configuration with no negative amounts. *)
Definition sane (config : SimConfig) : Prop :=
  0 <= config.(params).(smallBlind) ∧ 0 <= config.(params).(bigBlind) ∧ 0 <= config.(startingStack) ∧ 0 <= config.(startingBond) ∧
  0 <= config.(startingValidatorStake).

(** The chips that the configuration puts into the world. *)
Definition initialChips (config : SimConfig) (n : Z) : Z :=
  Z.of_nat (Z.to_nat config.(validatorSetSize)) * config.(startingValidatorStake) + n * (config.(startingStack) + config.(startingBond)).

Lemma initial_total config n : 0 <= n → totalChips (initialWorld config n) = initialChips config n.
Proof.
  intros Hn. unfold totalChips, allChips, initialChips. cbn. unfold newValidators, newPlayers. rewrite !map_map. cbn. unfold chips. cbn.
  rewrite !sumZ_map_const, !length_seq, (Z2Nat.id n) by done. ring.
Qed.

Lemma initial_players config n : 2 <= n <= 9 → sane config → players_ok (newPlayers config n).
Proof.
  intros Hn (Hsb & Hbb & Hs & Hb & Hv). split.
  - apply Forall_fmap, Forall_true. intros i. unfold nonneg. cbn. lia.
  - unfold placed, newPlayers. rewrite length_map, length_seq, !map_map. cbn. by rewrite map_id.
  - unfold newPlayers. rewrite length_map, length_seq. lia.
Qed.

Lemma assert_initial {B} config n c (k : unit → sim B) Q :
  2 <= n <= 9 → sane config →
  (∀ w, settled (initialChips config n) w → wtriple (λ w', w' = w) (k tt) Q) →
  wtriple (λ w', w' = set_nextCommittee c (initialWorld config n)) (assertInvariants ≫= k) Q.
Proof.
  intros Hn Hsane H. pose proof (initial_players config n Hn Hsane) as Hp. pose proof (initial_total config n ltac:(lia)) as Ht.
  assert (Hstakes : Forall (λ v, 0 <= v.(v_stake)) (newValidators config)).
  { apply Forall_fmap, Forall_true. intros i. cbn. unfold sane in Hsane. lia. }
  assert (E : checkInvariants (set_nextCommittee c (initialWorld config n)) =
    Ok (set_initialTotal (initialChips config n) (set_nextCommittee c (initialWorld config n)))).
  { unfold checkInvariants. cbn -[initialChips newPlayers newValidators]. rewrite checkValidators_ok by done. cbn [rbind].
    rewrite checkPlayers_ok by apply Hp. cbn [rbind]. unfold totalChips in Ht. cbn -[initialChips newPlayers newValidators] in Ht. by rewrite Ht. }
  unfold assertInvariants. apply wt_assoc, wt_getWorld. rewrite E. apply wt_assoc, wt_lift; [done|]. intros w' <-%Ok_inj.
  apply wt_modifyWorld, H. split; cbn -[initialChips newPlayers newValidators].
  - split; try done. unfold sane in Hsane. cbn. lia.
  - apply Forall_fmap, Forall_true. done.
  - by intros h.
  - by intros h.
Qed.

Lemma createWorld_ok config :
  sane config →
  wtriple (λ w, w.(w_config) = config) createWorld (λ _ w, ∃ n, config.(playerCount) = Int n ∧ 2 <= n <= 9 ∧ settled (initialChips config n) w).
Proof.
  intros Hsane. apply wt_at. intros w Hw. unfold createWorld. step. cbv zeta. rewrite Hw. destruct (playerCount config) as [n|]; [|by step].
  step; [done|]. apply orb_false_iff in H as [H1 H2]. b2p. step. step.
  assert (Hfin : ∀ c, wtriple (λ w', w' = set_nextCommittee c (initialWorld config n)) assertInvariants
    (λ _ w, ∃ n0, Int n = Int n0 ∧ 2 <= n0 <= 9 ∧ settled (initialChips config n0) w)).
  { intros c. apply wt_tail, (assert_initial config n c); [lia|done|]. intros w' Hw'. step. exists n. split; [done|]. split; [lia|done]. }
  destruct (committeePlan config ≫= _) as [members|].
  - step. apply Hfin.
  - step. eapply wt_bind; [apply selectCommittee_pure|]. intros c. step. apply Hfin.
Qed.

Lemma run_ok sha256Hex behaviors config :
  sane config →
  match runSimulation sha256Hex behaviors config with
  | Ok (w, _) => ∃ n, config.(playerCount) = Int n ∧ 2 <= n <= 9 ∧ settled (initialChips config n) w
  | Err e => expected e
  end.
Proof.
  intros Hsane. unfold runSimulation.
  assert (H : wtriple (λ w, w.(w_config) = config)
    (createWorld ;; emit (TableCreated (tableId config)) ;; forEach (seq 0 (Z.to_nat (hands config))) (playHand sha256Hex behaviors))
    (λ _ w, ∃ n, config.(playerCount) = Int n ∧ 2 <= n <= 9 ∧ settled (initialChips config n) w)).
  { eapply wt_bind; [by apply createWorld_ok|]. intros u. step.
    apply (wt_forEach (λ _ w, ∃ n, config.(playerCount) = Int n ∧ 2 <= n <= 9 ∧ settled (initialChips config n) w)). intros i rest.
    apply wt_at. intros w (n & Hn & Hb & Hst). eapply wt_post; [eapply wt_pre; [|apply (playHand_ok (initialChips config n))]|].
    - by intros w' ->.
    - intros u0 w' Hw'. by exists n. }
  specialize (H (mkSim (initialWorld config 0) [] (newPrng (seed config))) eq_refl).
  match type of H with match ?x with _ => _ end => destruct x as [[u s]|e]; exact H end.
Qed.

(** C18. A run of the simulator conserves chips and deals distinct cards.  For a
    configuration without negative amounts and any behaviours of validators
    and players, [runSimulation] ends in a world where the treasury, the
    stakes and the players' chips add up to what the configuration put in,
    no stake, stack or bond is negative, nothing is committed to a pot, and
    the cards of the last hand are distinct; or it throws an exception that the
    configuration or the behaviours cause - never one of the simulator's own
    invariants (conservation, negative amounts, deck bounds), a missing deck
    or hand. *)
Theorem runSimulation_conserves sha256Hex behaviors config :
  sane config →
  match runSimulation sha256Hex behaviors config with
  | Ok (w, _) =>
      (∃ n, config.(playerCount) = Int n ∧ totalChips w = initialChips config n) ∧
      Forall (λ v, 0 <= v.(v_stake)) w.(w_validators) ∧ Forall nonneg w.(w_table).(t_players) ∧
      Forall (λ p, p.(p_committed) = 0) w.(w_table).(t_players) ∧
      ∀ h, w.(w_table).(t_hand) = Some h → h.(h_potTotal) = 0 ∧ NoDup (dealtCards h)
  | Err e => expected e
  end.
Proof.
  intros Hsane. pose proof (run_ok sha256Hex behaviors config Hsane) as H. destruct (runSimulation _ _ _) as [[w es]|e]; [|done].
  destruct H as (n & Hn & _ & [[Ht _ Hs [Hp _ _] _] Hid _ Hh]). split; [by exists n|]. done.
Qed.

Definition slash_config : SimConfig := with_validators 4 4 3 (createDefaultConfig 1).
Definition slash_behaviors : Behaviors :=
  mkBehaviors (<[0%nat := mkValidatorBehavior (λ _ _ _, SubmitInvalid) (λ _ _ _ _, SubmitValid) (λ _ _ _, SubmitValid)]> (all_of 4 honestValidatorBehavior))
    (all_of 6 alwaysCallPlayerBehavior).

Lemma runSimulation_conserves_witness :
  ∃ w es, runSimulation id slash_behaviors slash_config = Ok (w, es) ∧ ∃ n, Int 6 = Int n ∧ totalChips w = initialChips slash_config n.
Proof.
  assert (Hs : sane slash_config) by (unfold sane; cbn; lia).
  pose proof (runSimulation_conserves id slash_behaviors slash_config Hs) as H.
  assert (Hok : is_ok (runSimulation id slash_behaviors slash_config) = true) by (vm_compute; reflexivity).
  revert H Hok. generalize (runSimulation id slash_behaviors slash_config). intros [[w es]|e] H Hok; [|discriminate Hok].
  exists w, es. split; [reflexivity|exact (proj1 H)].
Defined.

(** The bet of a street can fall: a raise is raised to the fixed minimum of the
    street, not to the bet it raises. *)
Definition lowering_behaviors : Behaviors :=
  mkBehaviors (all_of 6 honestValidatorBehavior)
    (<[3%nat := mkPlayerBehavior (λ _ _ _ _, RaiseTo 10)]> (<[4%nat := mkPlayerBehavior (λ _ _ _ _, RaiseTo 4)]> (all_of 6 alwaysCallPlayerBehavior))).

Lemma raise_lowers_bet :
  on_world (runSimulation id lowering_behaviors (createDefaultConfig 1)) (λ _ es,
    existsb (λ e, match e with ActionApplied _ _ 4%nat a => bool_decide (a = "raiseTo 4"%string) | _ => false end) es &&
    existsb (λ e, match e with ActionApplied _ _ 5%nat a => bool_decide (a = "call 4"%string) | _ => false end) es) = true.
Proof. vm_compute. reflexivity. Qed.

End SimThms.
