(* ===== verification/BotStrategies.v ===== *)
(** * The bots' strategies: [apps/bot/src/strategies], [strategy.ts], [sanitizeAction.ts]

    A strategy maps what a seat can see of a hand to an action; the two that
    look at cards classify them before the flop by a table of the 169 starting
    hands and afterwards with the evaluator.  [sanitizeAction] then turns the
    action into one the chain should accept.  Amounts are [bigint]s ([/] and [%]
    truncate), cards are the numbers of [holdem-eval]; a bet or raise amount is
    the street total to raise {e to}. *)
From stdpp Require Import base option list strings gmap.
From Stdlib Require Import ZArith Lia Ascii.
From S2P Require Import Prelude HoldemEval.
Import Holdem.

Module Strategies.

(** ** strategy.ts *)

Inductive BotStreet := SPreflop | SFlop | STurn | SRiver.
Inductive Position := Early | Middle | Late | Blinds.
Inductive ActionKind := AFold | ACheck | ACall | ABet | ARaise.

#[export] Instance BotStreet_eq : EqDecision BotStreet.
Proof. solve_decision. Defined.
#[export] Instance Position_eq : EqDecision Position.
Proof. solve_decision. Defined.
#[export] Instance ActionKind_eq : EqDecision ActionKind.
Proof. solve_decision. Defined.

Record GameState := mkGameState {
  g_street : BotStreet; g_holeCards : option (Z * Z); g_board : list Z; g_myStack : Z; g_pot : Z; g_betTo : Z;
  g_myStreetCommit : Z; g_toCall : Z; g_minRaise : Z; g_bigBlind : Z; g_position : Position; g_playersInHand : Z; g_isLastToAct : bool
}.

Record BotAction := mkBotAction { ba_action : ActionKind; ba_amount : option Z }.

Definition act (k : ActionKind) : BotAction := mkBotAction k None.
Definition actTo (k : ActionKind) (amount : Z) : BotAction := mkBotAction k (Some amount).

(** ** preflopRanges.ts *)

Inductive PreflopTier := Premium | Strong | Playable | Marginal | Trash.

#[export] Instance PreflopTier_eq : EqDecision PreflopTier.
Proof. solve_decision. Defined.

(** The display character of a rank. *)
Definition rankChar (r : Z) : string :=
  rd EmptyString [EmptyString; EmptyString; "2"; "3"; "4"; "5"; "6"; "7"; "8"; "9"; "T"; "J"; "Q"; "K"; "A"]%string (Z.to_nat r).

Definition handKey (c1 c2 : Z) : res string :=
  let! r1 := cardRank (Int c1) in
  let! r2 := cardRank (Int c2) in
  let hi := Z.max r1 r2 in
  let lo := Z.min r1 r2 in
  if hi =? lo then Ok (rankChar hi +:+ rankChar lo)%string
  else
    let! s1 := cardSuit (Int c1) in
    let! s2 := cardSuit (Int c2) in
    Ok (rankChar hi +:+ rankChar lo +:+ (if (s1 =? s2)%Z then "s" else "o"))%string.

Definition t (tier : PreflopTier) (hands : list string) (tiers : gmap string PreflopTier) : gmap string PreflopTier :=
  fold_left (λ m h, <[h := tier]> m) hands tiers.

Definition TIERS : gmap string PreflopTier :=
  t Marginal ["55"; "44"; "33"; "22"; "A9s"; "A8s"; "A7s"; "A6s"; "K9s"; "Q9s"; "J9s"; "T8s"; "97s"; "86s"; "75s"; "65s"; "54s";
              "KQo"; "KJo"; "QJo"; "JTo"; "ATo"]%string
  (t Playable ["99"; "88"; "77"; "66"; "ATs"; "A5s"; "A4s"; "A3s"; "A2s"; "KJs"; "KTs"; "QJs"; "QTs"; "JTs"; "T9s"; "98s"; "87s"; "76s";
               "AQo"; "AJo"]%string
  (t Strong ["JJ"; "TT"; "AKo"; "AQs"; "AJs"; "KQs"]%string
  (t Premium ["AA"; "KK"; "QQ"; "AKs"]%string ∅))).

Definition preflopTier (c1 c2 : Z) : res PreflopTier :=
  let! key := handKey c1 c2 in Ok (default Trash (TIERS !! key)).

(** ** shared.ts *)

Fixpoint bestOf6 (cards : list Z) (skips : list nat) (best : option HandRank) : res (option HandRank) :=
  match skips with
  | [] => Ok best
  | skip :: skips =>
      let! rank := evaluate5 (map Int (take skip cards ++ drop (S skip) cards)) in
      bestOf6 cards skips (keepBetter best rank)
  end.

Definition evaluateBest (cards : list Z) : res HandRank :=
  let n := length cards in
  if (n =? 7)%nat then evaluate7 (map Int cards)
  else if (n =? 5)%nat then evaluate5 (map Int cards)
  else if (n =? 6)%nat then
    let! best := bestOf6 cards (seq 0 6) None in
    match best with Some r => Ok r | None => Err (TypeError "undefined") end
  else Err (RangeError "evaluateBest: expected 5-7 cards").

Definition hasFlushDraw (hole : Z * Z) (board : list Z) : res bool :=
  let! suits := mapR (λ c, cardSuit (Int c)) (fst hole :: snd hole :: board) in
  Ok (existsb (λ s, (length (List.filter (Z.eqb s) suits) =? 4)%nat) [0; 1; 2; 3]).

(** The count of the ranks from [high - 4] to [high] that are present. *)
Definition straightCount (ranks : list Z) (high : Z) : nat :=
  length (List.filter (λ r, existsb (Z.eqb r) ranks) [high - 4; high - 3; high - 2; high - 1; high]).

Definition hasStraightDraw (hole : Z * Z) (board : list Z) : res bool :=
  let! ranks := mapR (λ c, cardRank (Int c)) (fst hole :: snd hole :: board) in
  let ranks := if existsb (Z.eqb 14) ranks then 1 :: ranks else ranks in
  Ok (existsb (λ high, (straightCount ranks high =? 4)%nat) [5; 6; 7; 8; 9; 10; 11; 12; 13; 14]).

Inductive PostflopStrength := PMonster | PStrong | PMedium | PDraw | PWeak.

Definition categorizePostflop (hole : Z * Z) (board : list Z) : res PostflopStrength :=
  let all := fst hole :: snd hole :: board in
  if (length all <? 5)%nat then Ok PWeak
  else
    let! handRank := evaluateBest all in
    let cat := category_value handRank.(category) in
    if category_value TwoPair <=? cat then Ok PMonster
    else if cat =? category_value OnePair then
      let pairRank := rd 0 handRank.(tiebreakers) 0 in
      let! boardRanks := mapR (λ c, cardRank (Int c)) board in
      let topBoardRank := rd 0 (sortDesc boardRanks) 0 in
      if topBoardRank <? pairRank then Ok PStrong
      else if pairRank =? topBoardRank then
        let kicker := rd 0 handRank.(tiebreakers) 1 in
        Ok (if 12 <=? kicker then PStrong else PMedium)
      else Ok PMedium
    else
      let! flush := hasFlushDraw hole board in
      if flush : bool then Ok PDraw
      else
        let! straight := hasStraightDraw hole board in
        Ok (if straight : bool then PDraw else PWeak).

Definition clampBet (desired minRaise stack : Z) : Z :=
  if stack <? desired then stack
  else if desired <? minRaise then (if stack <? minRaise then stack else minRaise)
  else desired.

Definition potFraction (pot num den : Z) : Z := Z.quot (pot * num) den.

(** ** The strategies *)

Section decide.
Context (s : GameState).

(** The street total of an all-in, the clamp every sizing uses. *)
Definition maxTo : Z := s.(g_myStack) + s.(g_myStreetCommit).
Definition sized (desired : Z) : Z := clampBet desired s.(g_minRaise) maxTo.
Definition raiseTo (desired : Z) : BotAction := actTo ARaise (sized desired).
(** [bet] of the clamped size, [check] when that is zero. *)
Definition betOrCheck (desired : Z) : BotAction :=
  let betAmt := sized desired in if betAmt =? 0 then act ACheck else actTo ABet betAmt.
Definition positiveBetOr (desired : Z) (other : BotAction) : BotAction :=
  let betAmt := sized desired in if 0 <? betAmt then actTo ABet betAmt else other.
Definition facingBet : bool := 0 <? s.(g_toCall).
Definition bb : Z := if 0 <? s.(g_bigBlind) then s.(g_bigBlind) else s.(g_minRaise).
Definition withoutCards (other : ActionKind) : BotAction := if s.(g_toCall) =? 0 then act ACheck else act other.
Definition passive : BotAction := if facingBet then act AFold else act ACheck.
Definition isEarly : bool := bool_decide (s.(g_position) = Early).
Definition isLate : bool := bool_decide (s.(g_position) = Late).
Definition isBlinds : bool := bool_decide (s.(g_position) = Blinds).

Definition callingStation_decide : BotAction := if s.(g_toCall) =? 0 then act ACheck else act ACall.

(** *** tag.ts *)

Definition tag_tier (tier : PreflopTier) : BotAction :=
  match tier with
  | Premium => if facingBet then raiseTo (s.(g_betTo) * 3) else raiseTo (bb * 3)
  | Strong =>
      if facingBet then
        if s.(g_toCall) <=? potFraction s.(g_pot) 1 3 then raiseTo (s.(g_betTo) * 3) else act ACall
      else raiseTo (Z.quot (bb * 5) 2)
  | Playable =>
      if facingBet then
        if isEarly && (potFraction s.(g_pot) 1 4 <? s.(g_toCall)) then act AFold else act ACall
      else if isBlinds then act ACheck
      else raiseTo (Z.quot (bb * 5) 2)
  | Marginal =>
      if facingBet then
        if isLate && (s.(g_toCall) <=? potFraction s.(g_pot) 1 5) then act ACall else act AFold
      else act ACheck
  | Trash => passive
  end.

Definition tag_preflop : res BotAction :=
  match s.(g_holeCards) with
  | None => Ok (withoutCards ACall)
  | Some (c0, c1) => let! tier := preflopTier c0 c1 in Ok (tag_tier tier)
  end.

Definition tag_strength (strength : PostflopStrength) : BotAction :=
  match strength with
  | PMonster => if facingBet then raiseTo (Z.quot (s.(g_betTo) * 5) 2) else betOrCheck (potFraction s.(g_pot) 2 3)
  | PStrong => if facingBet then act ACall else betOrCheck (potFraction s.(g_pot) 1 2)
  | PMedium =>
      if facingBet then if s.(g_toCall) <=? potFraction s.(g_pot) 1 3 then act ACall else act AFold
      else act ACheck
  | PDraw =>
      if facingBet then if s.(g_toCall) <=? potFraction s.(g_pot) 2 5 then act ACall else act AFold
      else if Z.rem s.(g_pot) 3 =? 0 then positiveBetOr (potFraction s.(g_pot) 1 2) (act ACheck)
      else act ACheck
  | PWeak => passive
  end.

Definition tag_postflop : res BotAction :=
  match s.(g_holeCards) with
  | None => Ok (withoutCards AFold)
  | Some hole => let! strength := categorizePostflop hole s.(g_board) in Ok (tag_strength strength)
  end.

Definition tag_decide : res BotAction := if bool_decide (s.(g_street) = SPreflop) then tag_preflop else tag_postflop.

(** *** lag.ts *)

Definition lagPreflopTier (tier : PreflopTier) : PreflopTier :=
  match tier with Marginal => Playable | Trash => Marginal | _ => tier end.

Definition lag_tier (tier : PreflopTier) : BotAction :=
  match tier with
  | Premium => if facingBet then raiseTo (Z.quot (s.(g_betTo) * 7) 2) else raiseTo (Z.quot (bb * 7) 2)
  | Strong => if facingBet then raiseTo (s.(g_betTo) * 3) else raiseTo (bb * 3)
  | Playable =>
      if facingBet then
        if s.(g_toCall) <=? potFraction s.(g_pot) 1 4 then raiseTo (s.(g_betTo) * 3) else act ACall
      else raiseTo (Z.quot (bb * 5) 2)
  | Marginal =>
      if facingBet then
        if isLate && (s.(g_toCall) <=? potFraction s.(g_pot) 1 3) then act ACall
        else if negb isEarly && (s.(g_toCall) <=? potFraction s.(g_pot) 1 5) then act ACall
        else act AFold
      else if isEarly then act ACheck
      else raiseTo (Z.quot (bb * 5) 2)
  | Trash => passive
  end.

Definition lag_preflop : res BotAction :=
  match s.(g_holeCards) with
  | None => Ok (withoutCards ACall)
  | Some (c0, c1) => let! rawTier := preflopTier c0 c1 in Ok (lag_tier (lagPreflopTier rawTier))
  end.

Definition lag_strength (strength : PostflopStrength) : BotAction :=
  match strength with
  | PMonster => if facingBet then raiseTo (s.(g_betTo) * 3) else betOrCheck (potFraction s.(g_pot) 4 5)
  | PStrong => if facingBet then raiseTo (Z.quot (s.(g_betTo) * 5) 2) else betOrCheck (potFraction s.(g_pot) 7 10)
  | PMedium =>
      if facingBet then if s.(g_toCall) <=? potFraction s.(g_pot) 1 2 then act ACall else act AFold
      else betOrCheck (potFraction s.(g_pot) 1 2)
  | PDraw =>
      if bool_decide (s.(g_street) = SRiver) then
        if facingBet then act AFold
        else if Z.rem s.(g_pot) 10 <? 3 then positiveBetOr (potFraction s.(g_pot) 3 4) (act ACheck)
        else act ACheck
      else if facingBet then
        if Z.rem s.(g_pot) 5 <? 2 then raiseTo (Z.quot (s.(g_betTo) * 5) 2)
        else if s.(g_toCall) <=? potFraction s.(g_pot) 1 2 then act ACall
        else act AFold
      else positiveBetOr (potFraction s.(g_pot) 7 10) (act ACheck)
  | PWeak => passive
  end.

Definition lag_postflop : res BotAction :=
  match s.(g_holeCards) with
  | None => Ok (withoutCards AFold)
  | Some hole => let! strength := categorizePostflop hole s.(g_board) in Ok (lag_strength strength)
  end.

Definition lag_decide : res BotAction := if bool_decide (s.(g_street) = SPreflop) then lag_preflop else lag_postflop.
End decide.

Inductive Strategy := CallingStation | Tag | Lag.

Definition decide_with (strategy : Strategy) (s : GameState) : res BotAction :=
  match strategy with
  | CallingStation => Ok (callingStation_decide s)
  | Tag => tag_decide s
  | Lag => lag_decide s
  end.

(** ** sanitizeAction.ts *)

Record SanitizeContext := mkCtx { sc_allIn : Z; sc_betTo : Z; sc_toCall : Z; sc_minRaise : Z }.

Definition isBetOrRaise (k : ActionKind) : bool := match k with ABet | ARaise => true | _ => false end.

Definition sanitizeAction (decision : BotAction) (ctx : SanitizeContext) : ActionKind * Z :=
  let action := decision.(ba_action) in
  let amount := default 0 decision.(ba_amount) in
  let amount := if isBetOrRaise action && (ctx.(sc_allIn) <? amount) then ctx.(sc_allIn) else amount in
  if isBetOrRaise action && (ctx.(sc_allIn) <=? ctx.(sc_betTo)) then
    (if 0 <? ctx.(sc_toCall) then ACall else ACheck, 0)
  else if bool_decide (action = ARaise) && (amount <? ctx.(sc_minRaise)) then
    (action, if ctx.(sc_minRaise) <=? ctx.(sc_allIn) then ctx.(sc_minRaise) else ctx.(sc_allIn))
  else (action, amount).

(** ** The tests of the repository, evaluated *)

Definition card (rank suit : Z) : Z := suit * 13 + (rank - 2).

Example tier_AKs : preflopTier (card 14 0) (card 13 0) = Ok Premium.
Proof. vm_compute. reflexivity. Qed.
Example tier_AKo : preflopTier (card 14 0) (card 13 2) = Ok Strong.
Proof. vm_compute. reflexivity. Qed.
Example tier_72o : preflopTier (card 7 0) (card 2 1) = Ok Trash.
Proof. vm_compute. reflexivity. Qed.
Example sanitize_short_raise : sanitizeAction (actTo ARaise 150) (mkCtx 150 100 100 200) = (ARaise, 150).
Proof. reflexivity. Qed.
Example sanitize_to_call : sanitizeAction (actTo ARaise 10) (mkCtx 10 50 50 52) = (ACall, 0).
Proof. reflexivity. Qed.

End Strategies.
