(* ===== verification/BotLegal.v ===== *)
(** * The bots' actions are legal

    [poker-engine] is the reference for the rules the chain enforces.  A seat
    that reads the engine's state as [bot.ts] reads the chain's, decides with
    any of the strategies and passes the decision through [sanitizeAction]
    submits an action the engine accepts, with one exception that the code does
    not avoid: a bet or raise by a seat that has acted since the last full
    raise. *)
From stdpp Require Import base option list strings gmap.
From Stdlib Require Import ZArith Lia.
From S2P Require Import Prelude PokerEngine PokerEngineInv PokerEngineProps PokerEngineThms PokerEngineRaise BotStrategies.
Import Engine EngineInv EngineProps EngineThms EngineRaise Strategies.

Module BotLegal.

(** ** What a strategy can decide *)

(** A check when nothing is owed, a call when something is, and bets between
    the smaller of the minimum raise and the all-in, and the all-in. *)
Definition sound (s : GameState) (d : BotAction) : Prop :=
  match d.(ba_action) with
  | AFold => True
  | ACheck => s.(g_toCall) <= 0
  | ACall => s.(g_toCall) ≠ 0
  | ABet | ARaise => ∃ amt, d.(ba_amount) = Some amt ∧ Z.min s.(g_minRaise) (maxTo s) <= amt <= maxTo s
  end.

Lemma clampBet_bounds desired minRaise stack : Z.min minRaise stack <= clampBet desired minRaise stack <= stack.
Proof. unfold clampBet. repeat case_goal; b2p; lia. Qed.

Section sound.
Context (s : GameState).

Lemma sized_sound k desired : isBetOrRaise k = true → sound s (actTo k (sized s desired)).
Proof.
  intros Hk. pose proof (clampBet_bounds desired (g_minRaise s) (maxTo s)). destruct k; try done; cbn; eexists; split; done.
Qed.

Lemma passive_sound : sound s (passive s).
Proof. unfold passive, facingBet. case_goal; b2p; done. Qed.

Lemma withoutCards_sound k : k = AFold ∨ k = ACall → sound s (withoutCards s k).
Proof. intros Hk. unfold withoutCards. case_goal; b2p; cbn; [lia|]. by destruct Hk as [-> | ->]. Qed.

Lemma betOrCheck_sound desired : facingBet s = false → sound s (betOrCheck s desired).
Proof.
  unfold facingBet, betOrCheck. intros Hf. b2p. case_goal; [cbn; lia|]. by apply sized_sound.
Qed.

Lemma positiveBet_sound desired : facingBet s = false → sound s (positiveBetOr s desired (act ACheck)).
Proof.
  unfold facingBet, positiveBetOr. intros Hf. b2p. case_goal; [by apply sized_sound|done].
Qed.

Lemma call_sound : facingBet s = true → sound s (act ACall).
Proof. unfold facingBet. intros Hf. b2p. cbn. lia. Qed.

Lemma check_sound : facingBet s = false → sound s (act ACheck).
Proof. unfold facingBet. intros Hf. b2p. done. Qed.
End sound.

Create HintDb bots.
#[local] Hint Resolve passive_sound betOrCheck_sound positiveBet_sound call_sound check_sound sized_sound : bots.

(** Every branch of a strategy is one of these. *)
Ltac by_branch :=
  repeat match goal with
  | |- sound _ (if facingBet ?s then _ else _) => let E := fresh "Hf" in destruct (facingBet s) eqn:E
  | |- sound _ (if ?b then _ else _) => destruct b
  end; try (unfold raiseTo); auto with bots; done.

Lemma tag_tier_sound s tier : sound s (tag_tier s tier).
Proof. destruct tier; cbn [tag_tier]; by_branch. Qed.
Lemma tag_strength_sound s strength : sound s (tag_strength s strength).
Proof. destruct strength; cbn [tag_strength]; by_branch. Qed.
Lemma lag_tier_sound s tier : sound s (lag_tier s tier).
Proof. destruct tier; cbn [lag_tier]; by_branch. Qed.
Lemma lag_strength_sound s strength : sound s (lag_strength s strength).
Proof. destruct strength; cbn [lag_strength]; by_branch. Qed.

Lemma decide_sound strategy s d : decide_with strategy s = Ok d → sound s d.
Proof.
  destruct strategy; cbn [decide_with].
  - intros <-%Ok_inj. unfold callingStation_decide. case_goal; b2p; cbn; lia.
  - unfold tag_decide, tag_preflop, tag_postflop. case_goal; destruct (g_holeCards s) as [[c0 c1]|].
    + intros (tier & _ & <-%Ok_inj)%rbind_ok. apply tag_tier_sound.
    + intros <-%Ok_inj. apply withoutCards_sound. by right.
    + intros (strength & _ & <-%Ok_inj)%rbind_ok. apply tag_strength_sound.
    + intros <-%Ok_inj. apply withoutCards_sound. by left.
  - unfold lag_decide, lag_preflop, lag_postflop. case_goal; destruct (g_holeCards s) as [[c0 c1]|].
    + intros (tier & _ & <-%Ok_inj)%rbind_ok. apply lag_tier_sound.
    + intros <-%Ok_inj. apply withoutCards_sound. by right.
    + intros (strength & _ & <-%Ok_inj)%rbind_ok. apply lag_strength_sound.
    + intros <-%Ok_inj. apply withoutCards_sound. by left.
Qed.

(** ** What [sanitizeAction] makes of it *)

(** The context [bot.ts] passes. *)
Definition contextOf (s : GameState) : SanitizeContext :=
  mkCtx (s.(g_myStack) + s.(g_myStreetCommit)) s.(g_betTo) s.(g_toCall) s.(g_minRaise).

Lemma sanitize_sound s d k amount :
  sound s d → sanitizeAction d (contextOf s) = (k, amount) →
  match k with
  | AFold => True
  | ACheck => s.(g_toCall) <= 0
  | ACall => s.(g_toCall) ≠ 0
  | ABet | ARaise => s.(g_betTo) < maxTo s ∧ Z.min s.(g_minRaise) (maxTo s) <= amount <= maxTo s
  end.
Proof.
  destruct d as [a o]. unfold sanitizeAction, contextOf, sound, maxTo. cbn [ba_action ba_amount sc_allIn sc_betTo sc_toCall sc_minRaise].
  destruct a; cbn [isBetOrRaise andb]; repeat case_bool_decide; try done; cbn [andb].
  all: try (intros Hs [= <- <-]; exact Hs).
  all: intros (amt & -> & Hamt); cbn [default]; unfold from_option, id.
  all: rewrite (proj2 (Z.ltb_ge _ amt)) by lia.
  all: destruct (_ <=? g_betTo s) eqn:E1; b2p.
  all: try (destruct (0 <? g_toCall s) eqn:E2; b2p; intros [= <- <-]; lia).
  destruct (amt <? _) eqn:E2; [destruct (_ <=? _) eqn:E3|]; b2p; intros [= <- <-]; lia.
Qed.

(** ** The engine's verdict *)

(** What [bot.ts] reads off the state for the seat to act. *)
Record sees (st : TableState) (h : HandState) (i : nat) (s : GameState) : Prop := {
  sees_stack : s.(g_myStack) = stack_at st.(seats) i;
  sees_commit : s.(g_myStreetCommit) = rd 0 h.(streetCommit) i;
  sees_betTo : s.(g_betTo) = h.(betTo);
  sees_toCall : s.(g_toCall) = toCall h i;
  sees_minRaise : s.(g_minRaise) = h.(betTo) + h.(minRaiseSize)
}.

(** The rules read a [bet] and a [raise] amount as a street total. *)
Definition submitted (i : nat) (ka : ActionKind * Z) : Action :=
  match ka with
  | (AFold, _) => Fold (Z.of_nat i)
  | (ACheck, _) => Check_ (Z.of_nat i)
  | (ACall, _) => Call (Z.of_nat i)
  | (ABet, amt) | (ARaise, amt) => BetTo (Z.of_nat i) amt
  end.

Definition not_reopened (h : HandState) (i : nat) : Prop := rd 0 h.(lastIntervalActed) i = h.(intervalId).

(** A legal bet but for the round of betting not having been reopened. *)
Lemma bet_not_reopened p ss h i amt :
  rd 0 h.(streetCommit) i < amt <= rd 0 h.(streetCommit) i + stack_at ss i → h.(betTo) < amt → not_reopened h i →
  ∃ e, applyBetTo p ss h i amt = Err e ∧ e.(code) = ILLEGAL_ACTION.
Proof.
  intros [H1 H2] H3 H4. unfold applyBetTo, validateRaiseAllowed.
  rewrite (proj2 (Z.leb_gt _ _) H1), (proj2 (Z.ltb_ge _ _) H2), (proj2 (Z.leb_gt _ _) H3), (proj2 (Z.eqb_eq _ _) H4).
  eexists. split; reflexivity.
Qed.

Section verdict.
Context (st : TableState) (h : HandState) (i : nat) (s : GameState).
Context (Hwf : wf_table st) (Hr : raise_table st) (Hh : st.(hand) = Some h) (Hph : h.(phase) = betting).
Context (Hon : h.(actionOn) = Some i) (Hs : sees st h i s).

Lemma bet_between_legal amt :
  s.(g_betTo) < maxTo s → Z.min s.(g_minRaise) (maxTo s) <= amt <= maxTo s →
  (rd 0 h.(streetCommit) i < amt <= rd 0 h.(streetCommit) i + stack_at st.(seats) i ∧ h.(betTo) < amt) ∧
  (¬ not_reopened h i → legal_bet st.(params) st.(seats) h i amt).
Proof.
  intros Hlt Hamt. destruct Hs as [E1 E2 E3 E4 E5]. unfold maxTo in *. rewrite E1, E2, E3, ?E5 in *.
  destruct (turn_facts st h i Hwf Hh Hph Hon) as (Hi & _ & _ & Hstk & Hc & Hb & Hm).
  destruct (Hr h Hh) as [Hmin Hcom]. specialize (Hcom i). pose proof (wf_blinds _ Hwf).
  assert (H1 : rd 0 h.(streetCommit) i < amt <= rd 0 h.(streetCommit) i + stack_at st.(seats) i ∧ h.(betTo) < amt) by lia.
  split; [exact H1|]. intros Hn. destruct H1 as [H1 H2]. split; [exact H1|]. split; [exact H2|]. split; [exact Hn|].
  destruct (betTo h =? 0) eqn:E0; b2p; destruct (decide (amt = rd 0 (streetCommit h) i + stack_at (seats st) i)); auto; left; lia.
Qed.

Lemma sanitized_verdict d t :
  sound s d → 0 <= t →
  let sent := sanitizeAction d (contextOf s) in
  let outcome := applyAction st (submitted i sent) (Int t) in
  if isBetOrRaise (fst sent) && (rd 0 h.(lastIntervalActed) i =? h.(intervalId))
  then ∃ e, outcome = Err e ∧ e.(code) = ILLEGAL_ACTION else is_ok outcome = true.
Proof.
  intros Hd Ht. cbv zeta. destruct (sanitizeAction d (contextOf s)) as [k amount] eqn:E.
  pose proof (sanitize_sound s d k amount Hd E) as Hk. clear E Hd. cbn [fst].
  pose proof (sees_toCall _ _ _ _ Hs) as Hcall.
  assert (Hneed : 0 <= toCall h i) by (unfold toCall; case_goal; b2p; lia).
  assert (Hbet : isBetOrRaise k = true →
    if rd 0 h.(lastIntervalActed) i =? h.(intervalId)
    then ∃ e, applyAction st (BetTo (Z.of_nat i) amount) (Int t) = Err e ∧ e.(code) = ILLEGAL_ACTION
    else is_ok (applyAction st (BetTo (Z.of_nat i) amount) (Int t)) = true).
  { intros Hbr. assert (Hb : s.(g_betTo) < maxTo s ∧ Z.min s.(g_minRaise) (maxTo s) <= amount <= maxTo s) by by destruct k.
    destruct Hb as [Hb Hb']. destruct (bet_between_legal amount Hb Hb') as [[H1 H2] H3].
    destruct (_ =? intervalId h) eqn:En; b2p.
    - destruct (bet_not_reopened st.(params) st.(seats) h i amount H1 H2 En) as (e & He & Hc).
      destruct (wf_turn st h Hwf Hh Hph) as (_ & _ & j & dl & Hj & Hon' & _ & Hn & Ho & _). rewrite Hon in Hon'. simplify_eq.
      exists e. rewrite (applyAction_on_turn st _ t h j) by (done || by apply wf_seats). cbn [perform]. by rewrite He.
    - rewrite (applyAction_turn st h i Hwf Hh Hph Hon) by done. by apply H3. }
  destruct k; cbn [isBetOrRaise andb submitted] in *; [| | |by apply Hbet..].
  all: rewrite (applyAction_turn st h i Hwf Hh Hph Hon) by done; cbn [legal_move]; first [done|lia].
Qed.
End verdict.

(** ** The exception, on a table *)

(** Seat 0 raises to 30, seat 1 goes all in for 45, which is not a full raise,
    and the big blind folds: seat 0 may only call or fold, and a bot with aces
    insists on raising. *)
Definition under_raise_ops : list operation :=
  [OpSit 0 "A" 1000; OpSit 1 "B" 45; OpSit 2 "C" 1000; OpStart (Int 0);
   OpAction (BetTo 0 30) (Int 1); OpAction (BetTo 1 45) (Int 2); OpAction (Fold 2) (Int 3)].
Definition under_raised : TableState := final (play blinds_5_10 under_raise_ops).
Definition aces_under_raised : GameState := mkGameState SPreflop (Some (12, 25)) [] 970 85 45 30 15 65 10 Late 2 false.

Lemma raise_after_under_raise :
  sees under_raised (hand_of under_raised) 0 aces_under_raised ∧
  decide_with Tag aces_under_raised = Ok (actTo ARaise 135) ∧
  sanitizeAction (actTo ARaise 135) (contextOf aces_under_raised) = (ARaise, 135) ∧
  ∃ e, applyAction under_raised (BetTo 0 135) (Int 4) = Err e ∧ e.(code) = ILLEGAL_ACTION.
Proof.
  split; [split; vm_compute; reflexivity|]. split; [vm_compute; reflexivity|]. split; [vm_compute; reflexivity|].
  eexists. split; vm_compute; reflexivity.
Qed.

End BotLegal.
