(* ===== verification/BotLoop.v ===== *)
(** * The bot: [apps/bot/src/bot.ts]

    [PokerBot] polls a table of the chain; when it is its turn it decrypts its
    cards, asks its strategy and submits the sanitized action.  The chain's
    client is a record of operations on a world [W], of which nothing is
    assumed; logging is left out.  The awaits of one poll are run to the end
    before the next event: the code never has two polls under way, and a poll
    returns at once while a rebuy is pending. *)
From stdpp Require Import base option list strings pretty gmap.
From Stdlib Require Import ZArith Lia Ascii.
From S2P Require Import Prelude OcpBytes OcpGroup OcpProofs Json Monads BotHoleCards HoldemEval BotStrategies.
Import Bytes Group Json ExceptM HoleCards Holdem Strategies.

Module Bot.

(** ** Accessing the chain's JSON *)

Fixpoint g (obj : json) (keys : list string) : json :=
  match keys with
  | [] => JUndefined
  | k :: keys => if defined (field obj k) then field obj k else g obj keys
  end.

(** [None] is [NaN]. *)
Definition toInt (v : json) : option Z :=
  match v with JNum z => Some z | JStr s => parseInt10 s | _ => Some 0 end.

Definition toBigInt (v : json) : result string Z :=
  match v with
  | JBig z => Ok z
  | JStr s =>
      if bool_decide (s = EmptyString) then Ok 0
      else match stringToBigInt s with Some z => Ok z | None => Err "SyntaxError"%string end
  | JNum z => Ok z
  | _ => Ok 0
  end.

Definition isBettingPhase (phase : json) : bool :=
  match phase with JNum z => z =? 2 | _ => isStr phase "HAND_PHASE_BETTING" end.

Definition parseStreet (street : json) : BotStreet :=
  match street with
  | JNum z => if z =? 2 then SFlop else if z =? 3 then STurn else if z =? 4 then SRiver else SPreflop
  | _ => if isStr street "STREET_FLOP" then SFlop
         else if isStr street "STREET_TURN" then STurn
         else if isStr street "STREET_RIVER" then SRiver else SPreflop
  end.

(** [Math.ceil(n / 3)] *)
Definition ceil3 (n : Z) : Z := - ((- n) / 3).

(** The distances are [NaN] when a seat is; every comparison is then false. *)
Definition getPosition (mySeat : Z) (buttonSeat sbSeat bbSeat : option Z) : Position :=
  if bool_decide (sbSeat = Some mySeat) || bool_decide (bbSeat = Some mySeat) then Blinds
  else
    match bbSeat, buttonSeat with
    | Some bbSeat, Some buttonSeat =>
        let fromBB := Z.rem (mySeat - bbSeat + 9) 9 in
        let btnFromBB := Z.rem (buttonSeat - bbSeat + 9) 9 in
        if btnFromBB <=? fromBB then Late
        else if btnFromBB <=? 2 then Late
        else if fromBB <=? ceil3 btnFromBB then Early
        else if fromBB <=? ceil3 (2 * btnFromBB) then Middle
        else Late
    | _, _ => Late
    end.

(** ** The bot and its client *)

Record BotConfig := mkConfig {
  strategy : Strategy; tableId : string; buyIn : option string; password : string;
  pollIntervalMs : Z; autoStartHand : bool; autoSit : bool; autoRebuy : bool; rebuyDelayMs : Z
}.

(** [timer] and [rebuyTimer] are the pending timeouts: their delays, and the
    buy-in the second one has captured. *)
Record PokerBot := mkBot {
  mySeat : Z;
  timer : option Z;
  rebuyTimer : option (Z * json);
  processing : bool;
  stopped : bool;
  consecutiveFailures : nat;
  holeCardCache : gmap string (option (Z * Z));
  lastHandId : string;
  rebuyPending : bool
}.

Definition newBot : PokerBot := mkBot (-1) None None false false 0 ∅ EmptyString false.

Definition set_mySeat v b := mkBot v b.(timer) b.(rebuyTimer) b.(processing) b.(stopped) b.(consecutiveFailures) b.(holeCardCache) b.(lastHandId) b.(rebuyPending).
Definition set_timer v b := mkBot b.(mySeat) v b.(rebuyTimer) b.(processing) b.(stopped) b.(consecutiveFailures) b.(holeCardCache) b.(lastHandId) b.(rebuyPending).
Definition set_rebuyTimer v b := mkBot b.(mySeat) b.(timer) v b.(processing) b.(stopped) b.(consecutiveFailures) b.(holeCardCache) b.(lastHandId) b.(rebuyPending).
Definition set_processing v b := mkBot b.(mySeat) b.(timer) b.(rebuyTimer) v b.(stopped) b.(consecutiveFailures) b.(holeCardCache) b.(lastHandId) b.(rebuyPending).
Definition set_stopped v b := mkBot b.(mySeat) b.(timer) b.(rebuyTimer) b.(processing) v b.(consecutiveFailures) b.(holeCardCache) b.(lastHandId) b.(rebuyPending).
Definition set_failures v b := mkBot b.(mySeat) b.(timer) b.(rebuyTimer) b.(processing) b.(stopped) v b.(holeCardCache) b.(lastHandId) b.(rebuyPending).
Definition set_cache v b := mkBot b.(mySeat) b.(timer) b.(rebuyTimer) b.(processing) b.(stopped) b.(consecutiveFailures) v b.(lastHandId) b.(rebuyPending).
Definition set_lastHandId v b := mkBot b.(mySeat) b.(timer) b.(rebuyTimer) b.(processing) b.(stopped) b.(consecutiveFailures) b.(holeCardCache) v b.(rebuyPending).
Definition set_rebuyPending v b := mkBot b.(mySeat) b.(timer) b.(rebuyTimer) b.(processing) b.(stopped) b.(consecutiveFailures) b.(holeCardCache) b.(lastHandId) v.

(** A method of the client: it may reject, and changes the world. *)
Definition call (W A : Type) : Type := W → result string A * W.

Record Client (W : Type) := mkClient {
  getTable : call W (option json);
  getDealerHand : string → call W (option DealerHandJson);
  pokerSit : json → option bytes → call W unit;
  pokerStartHand : call W unit;
  pokerAct : ActionKind → Z → call W unit;
  pokerLeave : call W unit;
  pokerRebuy : json → call W unit
}.
Arguments getTable {W}. Arguments getDealerHand {W}. Arguments pokerSit {W}. Arguments pokerStartHand {W}.
Arguments pokerAct {W}. Arguments pokerLeave {W}. Arguments pokerRebuy {W}.

Definition MAX_BACKOFF_MS : Z := 60000.

Section bot.
Context {W : Type} (client : Client W) (config : BotConfig) (myAddress : string).
(** [decryptHoleCards] with the bot's key, and the two library functions of
    [ensureSeated]. *)
Context (decrypt : DealerHandJson → Z * Z → result string (option (nat * nat))).
Context (base64 : list ascii → bytes) (sha256 : bytes → bytes).

Abbreviation B := (X (PokerBot * W) string).

Definition this : B PokerBot := read fst.
Definition assign (f : PokerBot → PokerBot) : B unit := write (λ s, (f s.1, s.2)).
Definition await {A} (c : call W A) : B A := λ s, let '(r, w) := c s.2 in (r, (s.1, w)).

Definition scheduleNext (delayMs : Z) : B unit :=
  b ← this; if b.(stopped) then mret tt else assign (set_timer (Some delayMs)).

Definition nextDelay (b : PokerBot) : Z :=
  if (b.(consecutiveFailures) =? 0)%nat then config.(pollIntervalMs)
  else Z.min (config.(pollIntervalMs) * 2 ^ Z.of_nat b.(consecutiveFailures)) MAX_BACKOFF_MS.

(** ** Seating *)

(** The loop that looks for the bot's address among the seats. *)
Definition findSeat (seats : list json) : option nat :=
  fst <$> list_find (λ s, isStr (field s "player") myAddress = true) seats.

Definition buyInOf (params : json) : json :=
  match config.(buyIn) with
  | Some s => JStr s
  | None => orElse (g params ["minBuyIn"; "min_buy_in"]) (JStr "1000000")
  end%string.

Definition passwordProof (params : json) : option bytes :=
  if bool_decide (config.(password) = EmptyString) then None
  else
    let saltB64 := orElse (g params ["passwordSalt"; "password_salt"]%string) (JStr EmptyString) in
    let saltBytes := if truthy saltB64 then base64 (String.list_ascii_of_string (toStr saltB64)) else [] in
    Some (sha256 (saltBytes ++ utf8 config.(password))).

Definition ensureSeated : B unit :=
  table ← await client.(getTable);
  match table with
  | None => raise ("Table " +:+ config.(tableId) +:+ " not found")%string
  | Some table =>
      match findSeat (elems (field table "seats")) with
      | Some i => assign (set_mySeat (Z.of_nat i))
      | None =>
          let params := field table "params" in
          await (client.(pokerSit) (buyInOf params) (passwordProof params));;
          updated ← await client.(getTable);
          match findSeat (elems (field (default JUndefined updated) "seats")) with
          | Some i => assign (set_mySeat (Z.of_nat i))
          | None => mret tt
          end
      end
  end.

(** ** Hole cards *)

(** An entry of [holePos]: a deck position, which 255 marks as absent. *)
Definition noPosition (pos : json) : bool := match pos with JUndefined => true | JNum z => z =? 255 | _ => false end.

(** A position that is not a number matches no share: no cards. *)
Definition decryptAt (dealerHand : DealerHandJson) (pos0 pos1 : json) : result string (option (Z * Z)) :=
  match pos0, pos1 with
  | JNum p0, JNum p1 => rmap (option_map (λ c, (Z.of_nat (fst c), Z.of_nat (snd c)))) (decrypt dealerHand (p0, p1))
  | _, _ => Ok None
  end.

Definition remember (handId : string) (result : option (Z * Z)) : B unit :=
  assign (λ b, set_cache (<[handId := result]> b.(holeCardCache)) b).

Definition tryGetHoleCards (table : json) (handId : string) : B (option (Z * Z)) :=
  b ← this;
  match b.(holeCardCache) !! handId with
  | Some cached => mret cached
  | None =>
      tryCatch
        (let dealer := field (field table "hand") "dealer" in
         if negb (truthy dealer) then mret None
         else
           let holePos := elems (g dealer ["holePos"; "hole_pos"]%string) in
           let pos0 := item holePos (b.(mySeat) * 2) in
           let pos1 := item holePos (b.(mySeat) * 2 + 1) in
           if noPosition pos0 || noPosition pos1 then mret None
           else
             dealerHand ← await (client.(getDealerHand) handId);
             match dealerHand with
             | None => mret None
             | Some dealerHand =>
                 result ← ofRes (decryptAt dealerHand pos0 pos1);
                 remember handId result;;
                 mret result
             end)
        (λ _, remember handId None;; mret None)
  end.

(** ** Polling *)

(** The fields the poll reads, as amounts. *)
Fixpoint sumBigInts (l : list json) (acc : Z) : result string Z :=
  match l with [] => Ok acc | x :: l => let! v := toBigInt x in sumBigInts l (acc + v) end.

Definition boardCards (board : json) : list Z :=
  omap (λ c, match c with JNum z => if (0 <=? z) && (z <? 52) then Some z else None | _ => None end) (elems board).

Definition buildGameState (table hand : json) (seats : list json) (seat : Z) (holeCards : option (Z * Z)) : result string GameState :=
  let street := parseStreet (g hand ["street"]) in
  let board := boardCards (field hand "board") in
  let! betTo := toBigInt (g hand ["betTo"; "bet_to"]) in
  let! minRaiseSize := toBigInt (g hand ["minRaiseSize"; "min_raise_size"]) in
  let streetCommits := elems (g hand ["streetCommit"; "street_commit"]) in
  let totalCommits := elems (g hand ["totalCommit"; "total_commit"]) in
  let! myStreetCommit := toBigInt (item streetCommits seat) in
  let! myStack := toBigInt (field (item seats seat) "stack") in
  let! pot := sumBigInts totalCommits 0 in
  let toCall := if myStreetCommit <? betTo then betTo - myStreetCommit else 0 in
  let minRaise := betTo + minRaiseSize in
  let! bigBlind := toBigInt (g (field table "params") ["bigBlind"; "big_blind"]) in
  let buttonSeat := toInt (g hand ["buttonSeat"; "button_seat"]) in
  let sbSeat := toInt (g hand ["smallBlindSeat"; "small_blind_seat"]) in
  let bbSeat := toInt (g hand ["bigBlindSeat"; "big_blind_seat"]) in
  let inHand := elems (g hand ["inHand"; "in_hand"]) in
  let playersInHand := Z.of_nat (length (List.filter truthy inHand)) in
  let position := getPosition seat buttonSeat sbSeat bbSeat in
  let isLastToAct := (playersInHand <=? 2) && (toCall =? 0) in
  Ok (mkGameState street holeCards board myStack pot betTo myStreetCommit toCall minRaise bigBlind position playersInHand isLastToAct).

(** What strategies throw, as the loop sees it. *)
Definition strategyError {A} (r : result EvalError A) : result string A :=
  match r with Ok a => Ok a | Err _ => Err "strategy threw"%string end.

(** The bot's turn: from the hand's identification to the submission. *)
Definition actOnHand (table hand : json) (seats : list json) : B unit :=
  b ← this;
  let handId := toStr (orElse (g hand ["handId"; "hand_id"]) (JStr "0")) in
  (if negb (bool_decide (handId = b.(lastHandId))) then assign (λ b, set_lastHandId handId (set_cache ∅ b)) else mret tt);;
  holeCards ← tryGetHoleCards table handId;
  gameState ← ofRes (buildGameState table hand seats b.(mySeat) holeCards);
  decision ← ofRes (strategyError (decide_with config.(strategy) gameState));
  let allIn := gameState.(g_myStack) + gameState.(g_myStreetCommit) in
  let '(action, amount) := sanitizeAction decision (mkCtx allIn gameState.(g_betTo) gameState.(g_toCall) gameState.(g_minRaise)) in
  await (client.(pokerAct) action amount).

(** [seats.filter((s) => s.player && toBigInt(s.stack) > 0n).length]; a [null]
    seat has no [player] to read. *)
Fixpoint countFunded (seats : list json) (n : nat) : result string nat :=
  match seats with
  | [] => Ok n
  | s :: seats =>
      if nullish s then Err "Cannot read properties of null (reading 'player')"%string
      else if truthy (field s "player") then
        let! stack := toBigInt (field s "stack") in
        countFunded seats (if 0 <? stack then S n else n)
      else countFunded seats n
  end.

Definition maybeStartHand (seats : list json) : B unit :=
  if config.(autoStartHand) then
    seated ← ofRes (countFunded seats 0);
    if (2 <=? seated)%nat then tryCatch (await client.(pokerStartHand)) (λ _, mret tt) else mret tt
  else mret tt.

(** No hand: rebuy when broke, otherwise perhaps start one. *)
Definition betweenHands (table : json) (seats : list json) : B unit :=
  b ← this;
  broke ←
    (if config.(autoRebuy) && negb b.(rebuyPending) then
       myStack ← ofRes (toBigInt (field (item seats b.(mySeat)) "stack"));
       mret ((myStack =? 0) && isStr (field (item seats b.(mySeat)) "player") myAddress)
     else mret false);
  if broke : bool then
    assign (λ b, set_rebuyTimer (Some (config.(rebuyDelayMs), buyInOf (field table "params"))) (set_rebuyPending true b))
  else maybeStartHand seats.

Definition pollTable (table : json) : B unit :=
  let seats := elems (field table "seats") in
  b ← this;
  (if b.(mySeat) =? -1 then
     match findSeat seats with Some i => assign (set_mySeat (Z.of_nat i)) | None => mret tt end
   else mret tt);;
  b ← this;
  if b.(mySeat) =? -1 then mret tt
  else
    let hand := field table "hand" in
    if negb (truthy hand) then betweenHands table seats
    else if negb (isBettingPhase (g hand ["phase"]%string)) then mret tt
    else if negb (bool_decide (toInt (g hand ["actionOn"; "action_on"]%string) = Some b.(mySeat))) then mret tt
    else actOnHand table hand seats.

Definition pollOnce : B unit :=
  b ← this;
  if b.(processing) || b.(rebuyPending) then mret tt
  else
    assign (set_processing true);;
    finally
      (table ← await client.(getTable);
       match table with None => mret tt | Some table => pollTable table end)
      (λ s, (set_processing false s.1, s.2)).

Definition pollLoop : B unit :=
  b ← this;
  if b.(stopped) then mret tt
  else
    tryCatch (pollOnce;; assign (set_failures 0)) (λ _, assign (λ b, set_failures (S b.(consecutiveFailures)) b));;
    b ← this;
    scheduleNext (nextDelay b).

(** ** The other events *)

(** The callback of the rebuy timer. *)
Definition rebuyFires (buyIn : json) : B unit :=
  finally
    (tryCatch (await (client.(pokerRebuy) buyIn))
       (λ _, tryCatch (await client.(pokerLeave);; assign (set_mySeat (-1));; ensureSeated) (λ _, mret tt)))
    (λ s, (set_rebuyPending false s.1, s.2)).

Definition start : B unit :=
  assign (λ b, set_failures 0 (set_stopped false b));;
  (if config.(autoSit) then ensureSeated else mret tt);;
  scheduleNext config.(pollIntervalMs).

Definition stop : B unit := assign (λ b, set_rebuyTimer None (set_timer None (set_stopped true b))).

(** The event loop: a pending timeout fires, or the process is told to stop. *)
Inductive step : PokerBot * W → PokerBot * W → Prop :=
| step_poll b w d : b.(timer) = Some d → step (b, w) (pollLoop (set_timer None b, w)).2
| step_rebuy b w d buyIn : b.(rebuyTimer) = Some (d, buyIn) → step (b, w) (rebuyFires buyIn (set_rebuyTimer None b, w)).2
| step_stop b w : step (b, w) (stop (b, w)).2.

End bot.
End Bot.
