(* ===== verification/BotLoopThms.v ===== *)
(** * The bot plays its turns

    Strategies never throw on the cards of one deal, a poll on the bot's turn
    submits exactly one action and the engine's verdict on it is the one of
    [BotLegal], and between polls the bot is never left without a timer, stuck
    in a poll or waiting for a rebuy that will not come. *)
From stdpp Require Import base option list strings gmap.
From Stdlib Require Import ZArith Lia Ascii.
From S2P Require Import Prelude HoldemEval HoldemThms PokerEngine PokerEngineInv PokerEngineProps PokerEngineThms PokerEngineRaise.
From S2P Require Import OcpBytes Json Monads BotHoleCards BotStrategies BotLegal BotLoop.
Import Holdem HoldemThms Engine EngineInv EngineProps EngineThms EngineRaise Json ExceptM HoleCards Strategies BotLegal Bot.

Module BotLoopThms.

(** ** The strategies are total *)

(** The six ways to leave out one card of six. *)
Definition COMBOS_6_CHOOSE_5 : list (list nat) :=
  [[1; 2; 3; 4; 5]; [0; 2; 3; 4; 5]; [0; 1; 3; 4; 5]; [0; 1; 2; 4; 5]; [0; 1; 2; 3; 5]; [0; 1; 2; 3; 4]]%nat.

Lemma bestOf6_combos cs : length cs = 6%nat → bestOf6 cs (seq 0 6) None = best5 (map Int cs) COMBOS_6_CHOOSE_5 None.
Proof. intros H. do 6 (destruct cs as [|? cs]; [done|]). by destruct cs. Qed.

Lemma combos6_all cs :
  length cs = 6%nat → map (select (map Int cs)) COMBOS_6_CHOOSE_5 = rev (map (map Int) (choose 5 cs)).
Proof. intros H. do 6 (destruct cs as [|? cs]; [done|]). by destruct cs. Qed.

(** The bots' evaluator agrees with the reference on five, six and seven cards:
    the rank it returns is that of some five of the cards, and no five do
    better. *)
Lemma evaluateBest_total n cs :
  deal n cs → (5 <= n <= 7)%nat → ∃ r, evaluateBest cs = Ok r ∧
    (∃ five, sublist five cs ∧ length five = 5%nat ∧ evaluate5 (map Int five) = Ok r) ∧
    ∀ five r', sublist five cs → length five = 5%nat → evaluate5 (map Int five) = Ok r' → rank_le r' r.
Proof.
  intros Hd Hn. pose proof Hd as (Hlen & _). unfold evaluateBest. rewrite Hlen.
  assert (n = 5 ∨ n = 6 ∨ n = 7)%nat as [-> | [-> | ->]] by lia; cbn [Nat.eqb].
  - destruct (evaluate5_fits cs Hd) as (r & E & _). exists r. split; [done|].
    assert (Hall : ∀ five, sublist five cs → length five = 5%nat → five = cs).
    { intros five Hs Hl. apply sublist_choose in Hs. rewrite Hl in Hs.
      do 5 (destruct cs as [|? cs]; [done|]). destruct cs; [|done]. by destruct Hs as [<-|[]]. }
    split; [by exists cs|]. intros five r' Hs Hl E'. rewrite (Hall five Hs Hl), E in E'. injection E' as <-. apply rank_le_refl.
  - destruct (best5_sublists 6 cs COMBOS_6_CHOOSE_5 Hd) as (r & E & H); [done| |].
    { intros k. by rewrite (combos6_all cs Hlen), <-in_rev. }
    exists r. split; [|exact H]. by rewrite bestOf6_combos, E.
  - by apply evaluate7_sublists.
Qed.

(** The hole cards, if known, and the board are of one deal. *)
Definition one_deal (hole : option (Z * Z)) (board : list Z) : Prop :=
  match hole with
  | None => True
  | Some (c0, c1) => deal (2 + length board) (c0 :: c1 :: board) ∧ (length board <= 5)%nat
  end.

Lemma deal_ranks_total n cs : deal n cs → ∃ r, mapR (λ c, cardRank (Int c)) cs = Ok r.
Proof. intros (_ & Hv & _). eexists. apply (mapR_ok _ rank_of). eapply Forall_impl; [exact Hv|]. exact cardRank_ok. Qed.
Lemma deal_suits_total n cs : deal n cs → ∃ r, mapR (λ c, cardSuit (Int c)) cs = Ok r.
Proof. intros (_ & Hv & _). eexists. apply (mapR_ok _ suit_of). eapply Forall_impl; [exact Hv|]. exact cardSuit_ok. Qed.

Lemma categorizePostflop_total c0 c1 board :
  one_deal (Some (c0, c1)) board → ∃ strength, categorizePostflop (c0, c1) board = Ok strength.
Proof.
  intros [Hd Hlen]. unfold categorizePostflop. cbn [fst snd].
  destruct (length (c0 :: c1 :: board) <? 5)%nat eqn:E5; [by eexists|]. b2p. simpl in E5.
  destruct (evaluateBest_total _ _ Hd ltac:(lia)) as (r & -> & _). cbn [rbind].
  destruct (_ <=? _); [by eexists|]. destruct (_ =? _).
  - assert (Hb : deal (length board) board).
    { destruct Hd as (_ & Hv & Hnd). inversion_clear Hv as [|? ? _ Hv']. inversion_clear Hv' as [|? ? _ Hv''].
      apply NoDup_cons in Hnd as [_ Hnd]. apply NoDup_cons in Hnd as [_ Hnd]. done. }
    destruct (deal_ranks_total _ _ Hb) as [rs ->]. cbn [rbind]. repeat case_goal; by eexists.
  - unfold hasFlushDraw, hasStraightDraw. cbn [fst snd].
    destruct (deal_suits_total _ _ Hd) as [ss ->]. destruct (deal_ranks_total _ _ Hd) as [rs ->]. cbn [rbind].
    repeat case_goal; by eexists.
Qed.

Lemma preflopTier_total c0 c1 : valid_card c0 → valid_card c1 → ∃ tier, preflopTier c0 c1 = Ok tier.
Proof.
  intros H0 H1. unfold preflopTier, handKey. rewrite !cardRank_ok, !cardSuit_ok by done. cbn [rbind].
  case_goal; by eexists.
Qed.

Lemma decide_total strategy s : one_deal s.(g_holeCards) s.(g_board) → ∃ d, decide_with strategy s = Ok d.
Proof.
  intros H. destruct strategy; cbn [decide_with]; [by eexists|..].
  all: unfold tag_decide, tag_preflop, tag_postflop, lag_decide, lag_preflop, lag_postflop.
  all: destruct (g_holeCards s) as [[c0 c1]|]; case_goal; try by eexists.
  1,3: destruct H as [(_ & Hv & _) _]; inversion_clear Hv as [|? ? H0 Hv']; inversion_clear Hv' as [|? ? H1 _];
       destruct (preflopTier_total c0 c1 H0 H1) as [tier ->]; by eexists.
  all: destruct (categorizePostflop_total c0 c1 _ H) as [strength ->]; by eexists.
Qed.

(** LAG opens with any two cards outside early position: its own tiers have no
    trash. *)
Lemma lag_opens_any_hand s c0 c1 :
  s.(g_street) = SPreflop → s.(g_holeCards) = Some (c0, c1) → valid_card c0 → valid_card c1 →
  s.(g_toCall) <= 0 → s.(g_position) ≠ Early → ∃ amount, lag_decide s = Ok (actTo ARaise amount).
Proof.
  intros Hst Hc H0 H1 Hcall Hpos. unfold lag_decide, lag_preflop. rewrite Hst, Hc, bool_decide_true by done.
  destruct (preflopTier_total c0 c1 H0 H1) as [tier ->]. cbn [rbind].
  assert (Hf : facingBet s = false) by (unfold facingBet; apply Z.ltb_ge; lia).
  assert (He : isEarly s = false) by (unfold isEarly; by apply bool_decide_false).
  destruct tier; cbn [lagPreflopTier lag_tier]; rewrite Hf, ?He; by eexists.
Qed.

(** ** One poll *)

(** The table's JSON shows the engine's state, as far as the bot at seat [i]
    reads it. *)
Record shows (table : json) (st : TableState) (h : HandState) (i : nat) : Prop := {
  shows_hand : truthy (field table "hand") = true;
  shows_phase : isBettingPhase (g (field table "hand") ["phase"]%string) = bool_decide (h.(phase) = betting);
  shows_actionOn : toInt (g (field table "hand") ["actionOn"; "action_on"]%string) =
                   Some (match h.(actionOn) with Some j => Z.of_nat j | None => -1 end);
  shows_betTo : toBigInt (g (field table "hand") ["betTo"; "bet_to"]%string) = Ok h.(betTo);
  shows_minRaise : toBigInt (g (field table "hand") ["minRaiseSize"; "min_raise_size"]%string) = Ok h.(minRaiseSize);
  shows_commit : toBigInt (item (elems (g (field table "hand") ["streetCommit"; "street_commit"]%string)) (Z.of_nat i)) =
                 Ok (rd 0 h.(streetCommit) i);
  shows_total : is_ok (sumBigInts (elems (g (field table "hand") ["totalCommit"; "total_commit"]%string)) 0) = true;
  shows_stack : toBigInt (field (item (elems (field table "seats")) (Z.of_nat i)) "stack") = Ok (stack_at st.(seats) i);
  shows_bigBlind : toBigInt (g (field table "params") ["bigBlind"; "big_blind"]%string) = Ok st.(params).(bigBlind)
}.

(** The transactions that a client is asked for. *)
Inductive Tx :=
| txSit (buyIn : json) (proof : option Bytes.bytes)
| txStartHand
| txAct (k : ActionKind) (amount : Z)
| txLeave
| txRebuy (buyIn : json).

(** [log] is the record of the transactions asked for, in order: a query adds
    none, and each of the other methods adds its own, once, whatever the
    answer. *)
Record logs {W} (client : Client W) (log : W → list Tx) : Prop := {
  log_getTable w : log (client.(getTable) w).2 = log w;
  log_getDealerHand handId w : log (client.(getDealerHand) handId w).2 = log w;
  log_pokerSit buyIn proof w : log (client.(pokerSit) buyIn proof w).2 = log w ++ [txSit buyIn proof];
  log_pokerStartHand w : log (client.(pokerStartHand) w).2 = log w ++ [txStartHand];
  log_pokerAct k amount w : log (client.(pokerAct) k amount w).2 = log w ++ [txAct k amount];
  log_pokerLeave w : log (client.(pokerLeave) w).2 = log w ++ [txLeave];
  log_pokerRebuy buyIn w : log (client.(pokerRebuy) buyIn w).2 = log w ++ [txRebuy buyIn]
}.

Section poll.
Context {W : Type} (client : Client W) (config : BotConfig) (myAddress : string).
Context (decrypt : DealerHandJson → Z * Z → result string (option (nat * nat))).

(** [tryGetHoleCards] never throws, and changes nothing of the bot but the
    cache. *)
Lemma tryGetHoleCards_total table handId s :
  ∃ hole s', tryGetHoleCards client decrypt table handId s = (Ok hole, s') ∧ s'.1 = set_cache s'.1.(holeCardCache) s.1.
Proof.
  destruct s as [b w]. unfold tryGetHoleCards, this. rewrite bind_read. cbn [fst].
  assert (Hb : b = set_cache (holeCardCache b) b) by by destruct b.
  destruct (holeCardCache b !! handId) as [cached|]; [by eexists _, (b, w)|].
  unfold tryCatch, mbind, X_bind, mret, X_ret, ofRes, remember, assign, write, await. cbn [fst snd].
  destruct (negb (truthy _)); [by eexists _, (b, w)|]. destruct (_ || _); [by eexists _, (b, w)|].
  change (b, w).2 with w. change (b, w).1 with b.
  destruct (getDealerHand client handId w) as [[[dh|]|e] w1]; [|by eexists _, (b, w1)|by eexists _, (_, w1)].
  destruct (decryptAt _ _ _ _) as [r|e]; by eexists _, (_, w1).
Qed.

Lemma tryGetHoleCards_log log table handId s : logs client log →
  log (tryGetHoleCards client decrypt table handId s).2.2 = log s.2.
Proof.
  intros Hlog. destruct s as [b w]. unfold tryGetHoleCards, this. rewrite bind_read. cbn [fst].
  destruct (holeCardCache b !! handId) as [cached|]; [done|].
  unfold tryCatch, mbind, X_bind, mret, X_ret, ofRes, remember, assign, write, await. cbn [fst snd].
  destruct (negb (truthy _)); [done|]. destruct (_ || _); [done|]. cbn [fst snd].
  pose proof (log_getDealerHand _ _ Hlog handId w) as Hw.
  destruct (getDealerHand client handId w) as [[[dh|]|e] w1]; cbn [snd] in *; [|done|done].
  by destruct (decryptAt _ _ _ _) as [r|e].
Qed.

(** The state in which the bot looks for its cards: the cache of a former hand
    has been dropped. *)
Definition handIdOf (table : json) : string :=
  toStr (orElse (g (field table "hand") ["handId"; "hand_id"]%string) (JStr "0")).
Definition enterHand (handId : string) (b : PokerBot) : PokerBot :=
  if negb (bool_decide (handId = b.(lastHandId))) then set_lastHandId handId (set_cache ∅ b) else b.

Lemma buildGameState_ok table st h i hole :
  shows table st h i → h.(phase) = betting →
  ∃ s, buildGameState table (field table "hand") (elems (field table "seats")) (Z.of_nat i) hole = Ok s ∧
    sees st h i s ∧ s.(g_holeCards) = hole ∧ s.(g_board) = boardCards (field (field table "hand") "board").
Proof.
  intros [H1 H2 H3 H4 H5 H6 H7 H8 H9] Hph. unfold buildGameState. rewrite H4, H5, H6, H8, H9. cbn [rbind].
  destruct (sumBigInts _ _) as [pot|]; [|done]. cbn [rbind]. eexists. split; [reflexivity|].
  split; [|done]. constructor; cbn [g_myStack g_myStreetCommit g_betTo g_toCall g_minRaise]; try done.
  unfold toCall. repeat case_goal; b2p; lia.
Qed.

Section turn.
Context (table : json) (st : TableState) (h : HandState) (i : nat) (b : PokerBot) (w w1 : W).
Context (Hget : client.(getTable) w = (Ok (Some table), w1)) (Hshows : shows table st h i).
Context (Hph : h.(phase) = betting) (Hon : h.(actionOn) = Some i).
Context (Hcards : ∀ hole s', tryGetHoleCards client decrypt table (handIdOf table) (enterHand (handIdOf table) (set_processing true (set_mySeat (Z.of_nat i) b)), w1) =
                             (Ok hole, s') → one_deal hole (boardCards (field (field table "hand") "board"))).

(** The world once the bot has looked for its cards. *)
Let afterCards : W :=
  (tryGetHoleCards client decrypt table (handIdOf table) (enterHand (handIdOf table) (set_processing true (set_mySeat (Z.of_nat i) b)), w1)).2.2.

(** The bot's turn ends with one submission, of a decision on what it sees. *)
Lemma actOnHand_submits :
  ∃ s d b2, let w2 := afterCards in
    sees st h i s ∧ decide_with config.(strategy) s = Ok d ∧ b2.(mySeat) = Z.of_nat i ∧
    let '(k, amount) := sanitizeAction d (contextOf s) in
    actOnHand client config decrypt table (field table "hand") (elems (field table "seats"))
      (set_processing true (set_mySeat (Z.of_nat i) b), w1) =
    ((client.(pokerAct) k amount w2).1, (b2, (client.(pokerAct) k amount w2).2)).
Proof.
  unfold actOnHand, this. rewrite bind_read. cbn [fst]. fold (handIdOf table).
  set (b0 := set_processing true (set_mySeat (Z.of_nat i) b)) in *.
  destruct (tryGetHoleCards_total table (handIdOf table) (enterHand (handIdOf table) b0, w1)) as (hole & [b2 w2] & E & Hb2).
  pose proof (Hcards _ _ E) as Hdeal. cbn [fst] in Hb2.
  destruct (buildGameState_ok table st h i hole Hshows Hph) as (s & Es & Hsees & Hh & Hbd).
  destruct (decide_total config.(strategy) s ltac:(by rewrite Hh, Hbd)) as [d Ed].
  exists s, d, b2. unfold afterCards. fold b0. rewrite E. cbn [snd]. split; [done|]. split; [done|].
  assert (Hseat : mySeat b2 = Z.of_nat i) by (rewrite Hb2; unfold enterHand; by case_goal).
  split; [done|].
  destruct (sanitizeAction d (contextOf s)) as [k amount] eqn:Esan.
  erewrite bind_ok; [|instantiate (1 := (enterHand (handIdOf table) b0, w1)); unfold enterHand; by case_goal].
  erewrite bind_ok; [|exact E]. erewrite bind_ofRes; [|exact Es]. erewrite bind_ofRes; [|by rewrite Ed].
  fold (contextOf s). rewrite Esan. unfold await. cbn [fst snd]. by destruct (pokerAct client k amount w2).
Qed.

(** A poll when it is the bot's turn. *)
Lemma pollOnce_submits :
  b.(processing) = false → b.(rebuyPending) = false →
  (b.(mySeat) = Z.of_nat i ∨ b.(mySeat) = -1 ∧ findSeat myAddress (elems (field table "seats")) = Some i) →
  ∃ s d b2, let w2 := afterCards in
    sees st h i s ∧ decide_with config.(strategy) s = Ok d ∧ b2.(mySeat) = Z.of_nat i ∧ b2.(processing) = false ∧
    let '(k, amount) := sanitizeAction d (contextOf s) in
    pollOnce client config myAddress decrypt (b, w) = ((client.(pokerAct) k amount w2).1, (b2, (client.(pokerAct) k amount w2).2)).
Proof.
  intros Hp Hr Hseat. destruct actOnHand_submits as (s & d & b2 & Hs & Hd & Hb2 & Hact).
  exists s, d, (set_processing false b2). cbv zeta in *. set (w2 := afterCards) in *. split; [done|]. split; [done|]. split; [done|]. split; [done|].
  destruct (sanitizeAction d (contextOf s)) as [k amount].
  unfold pollOnce, this. rewrite bind_read. cbn [fst]. rewrite Hp, Hr. cbn [orb]. unfold assign. rewrite bind_write. cbn [fst snd].
  rewrite finally_eq.
  assert (Hpoll : pollTable client config myAddress decrypt table (set_processing true b, w1) =
    ((pokerAct client k amount w2).1, (b2, (pokerAct client k amount w2).2))); [|].
  { rewrite <-Hact. unfold pollTable, this. rewrite bind_read. cbn [fst].
    erewrite bind_ok; [|instantiate (1 := (set_processing true (set_mySeat (Z.of_nat i) b), w1))].
    2:{ change (mySeat (set_processing true b)) with (mySeat b). destruct Hseat as [E|[-> Hf]].
        - rewrite E, (proj2 (Z.eqb_neq _ _)) by lia. rewrite <-E. by destruct b.
        - cbn [Z.eqb Z.opp]. by rewrite Hf. }
    rewrite bind_read. cbn [fst].
    change (mySeat (set_processing true (set_mySeat (Z.of_nat i) b))) with (Z.of_nat i).
    rewrite (proj2 (Z.eqb_neq _ (-1))), (shows_hand _ _ _ _ Hshows), (shows_phase _ _ _ _ Hshows), (shows_actionOn _ _ _ _ Hshows), Hon by lia.
    rewrite !bool_decide_true by done. done. }
  erewrite bind_ok; [|by unfold await; cbn [snd]; rewrite Hget]. cbn [fst snd]. by rewrite Hpoll.
Qed.
End turn.

(** Out of turn, a poll asks for the table and does nothing else. *)
Lemma pollOnce_waits table st h i b w w1 :
  client.(getTable) w = (Ok (Some table), w1) → shows table st h i → b.(mySeat) = Z.of_nat i →
  h.(phase) ≠ betting ∨ h.(actionOn) ≠ Some i → b.(processing) = false → b.(rebuyPending) = false →
  pollOnce client config myAddress decrypt (b, w) = (Ok tt, (b, w1)).
Proof.
  intros Hget Hshows Hseat Hnot Hp Hr. unfold pollOnce, this. rewrite bind_read. cbn [fst]. rewrite Hp, Hr. cbn [orb].
  unfold assign. rewrite bind_write. cbn [fst snd]. rewrite finally_eq.
  erewrite bind_ok; [|by unfold await; cbn [snd]; rewrite Hget].
  assert (Hpoll : pollTable client config myAddress decrypt table (set_processing true b, w1) = (Ok tt, (set_processing true b, w1))).
  { unfold pollTable, this. rewrite bind_read. cbn [fst]. change (mySeat (set_processing true b)) with (mySeat b).
    rewrite Hseat, (proj2 (Z.eqb_neq _ (-1))) by lia. erewrite bind_ok; [|reflexivity]. rewrite bind_read. cbn [fst].
    change (mySeat (set_processing true b)) with (mySeat b). rewrite Hseat, (proj2 (Z.eqb_neq _ (-1))) by lia.
    rewrite (shows_hand _ _ _ _ Hshows), (shows_phase _ _ _ _ Hshows), (shows_actionOn _ _ _ _ Hshows). cbn [negb].
    destruct Hnot as [Hn|Hn]; [by rewrite bool_decide_false|].
    destruct (negb (bool_decide (phase h = betting))); [done|].
    rewrite bool_decide_false; [done|]. destruct (actionOn h) as [j|]; intros [=]; [apply Hn; f_equal|]; lia. }
  cbn [fst snd]. rewrite Hpoll. cbn [fst snd]. destruct b. cbn in *. by subst.
Qed.
End poll.

(** C17. On its turn the bot plays: whatever the strategy, when the table the
    client returns shows a state the engine can reach in which the bot's seat is
    to act, one poll adds exactly one transaction to the record of those asked
    for, an action, and its outcome is that of the action; the engine accepts
    the action, except a bet or raise when the seat has already acted since the
    last full raise.  The cards it decrypts must be of one deal with the
    board. *)
Theorem bot_plays_turn {W} (client : Client W) log config myAddress decrypt p st n h i table b w w1 :
  logs client log → reachable p st n → st.(hand) = Some h → h.(phase) = betting → h.(actionOn) = Some i →
  client.(getTable) w = (Ok (Some table), w1) → shows table st h i →
  b.(processing) = false → b.(rebuyPending) = false →
  (b.(mySeat) = Z.of_nat i ∨ b.(mySeat) = -1 ∧ findSeat myAddress (elems (field table "seats")) = Some i) →
  (∀ hole s', tryGetHoleCards client decrypt table (handIdOf table)
                (enterHand (handIdOf table) (set_processing true (set_mySeat (Z.of_nat i) b)), w1) = (Ok hole, s') →
              one_deal hole (boardCards (field (field table "hand") "board"))) →
  ∃ k amount b2 w2,
    pollOnce client config myAddress decrypt (b, w) = ((client.(pokerAct) k amount w2).1, (b2, (client.(pokerAct) k amount w2).2)) ∧
    log (pollOnce client config myAddress decrypt (b, w)).2.2 = log w ++ [txAct k amount] ∧
    b2.(mySeat) = Z.of_nat i ∧ b2.(processing) = false ∧
    ∀ t, 0 <= t → let outcome := applyAction st (submitted i (k, amount)) (Int t) in
      if isBetOrRaise k && (rd 0 h.(lastIntervalActed) i =? h.(intervalId))
      then ∃ e, outcome = Err e ∧ e.(code) = ILLEGAL_ACTION else is_ok outcome = true.
Proof.
  intros Hlog Hreach Hh Hph Hon Hget Hshows Hp Hr Hseat Hcards. destruct (reachable_raise p st n Hreach) as [Hwf Hrt].
  destruct (pollOnce_submits client config myAddress decrypt table st h i b w w1 Hget Hshows Hph Hon Hcards Hp Hr Hseat)
    as (s & d & b2 & Hsees & Hd & Hb2 & Hp2 & Hpoll).
  pose proof (λ t, sanitized_verdict st h i s Hwf Hrt Hh Hph Hon Hsees d t (decide_sound _ _ _ Hd)) as Hv.
  destruct (sanitizeAction d (contextOf s)) as [k amount]. eexists k, amount, b2, _. split; [exact Hpoll|]. split; [|by repeat split].
  rewrite Hpoll. cbn [snd]. rewrite (log_pokerAct _ _ Hlog), (tryGetHoleCards_log _ _ _ _ _ _ Hlog). cbn [snd].
  by rewrite <-(log_getTable _ _ Hlog w), Hget.
Qed.

(** The heads-up table in the chain's JSON, and a client on it that notes what
    is submitted. *)
Definition heads_up_json : json :=
  JObj [("seats", JArr [JObj [("player", JStr "A"); ("stack", JStr "95")]; JObj [("player", JStr "B"); ("stack", JStr "90")]]);
        ("params", JObj [("big_blind", JStr "10")]);
        ("hand", JObj [("hand_id", JStr "1"); ("phase", JStr "HAND_PHASE_BETTING"); ("street", JStr "STREET_PREFLOP");
          ("action_on", JNum 0); ("bet_to", JStr "10"); ("min_raise_size", JStr "10"); ("button_seat", JNum 0);
          ("small_blind_seat", JNum 0); ("big_blind_seat", JNum 1); ("in_hand", JArr [JBool true; JBool true]);
          ("street_commit", JArr [JStr "5"; JStr "10"]); ("total_commit", JArr [JStr "5"; JStr "10"]);
          ("dealer", JObj [("hole_pos", JArr [JNum 0; JNum 1; JNum 2; JNum 3])])])]%string.

Definition noting : Client (list Tx) :=
  let asks tx w := (Ok tt, w ++ [tx]) in
  mkClient _ (λ w, (Ok (Some heads_up_json), w)) (λ _ w, (Ok (Some (mkDealerHandJson None None None)), w))
    (λ buyIn proof, asks (txSit buyIn proof)) (asks txStartHand) (λ k amount, asks (txAct k amount)) (asks txLeave) (λ buyIn, asks (txRebuy buyIn)).
Definition tag_config : BotConfig := mkConfig Tag "1" None EmptyString 1000 true true true 5000.
Definition aces (_ : DealerHandJson) (_ : Z * Z) : result string (option (nat * nat)) := Ok (Some (12, 25)%nat).

Lemma bot_plays_turn_witness :
  ∃ k amount b2 w2, pollOnce noting tag_config "A" aces (newBot, []) = (Ok tt, (b2, w2 ++ [txAct k amount])) ∧
    (pollOnce noting tag_config "A" aces (newBot, [])).2.2 = [txAct k amount] ∧ b2.(mySeat) = 0.
Proof.
  destruct (bot_plays_turn noting (λ w, w) tag_config "A" aces blinds_5_10 heads_up 200 (hand_of heads_up) 0 heads_up_json newBot [] [])
    as (k & amount & b2 & w2 & H & Hl & Hs & _).
  - by split.
  - apply (play_reachable _ (two_players 100 100)). vm_compute. reflexivity.
  - vm_compute. reflexivity.
  - vm_compute. reflexivity.
  - vm_compute. reflexivity.
  - reflexivity.
  - split; vm_compute; reflexivity.
  - reflexivity.
  - reflexivity.
  - right. split; vm_compute; reflexivity.
  - intros hole s' E. assert (Hole : hole = Some (12, 25)) by (vm_compute in E; congruence). subst hole.
    split; [|vm_compute; lia]. split; [reflexivity|]. split.
    + repeat constructor; vm_compute; congruence.
    + vm_compute. repeat constructor; rewrite ?elem_of_cons, elem_of_nil; lia.
  - exists k, amount, b2, w2. split; [exact H|]. split; [exact Hl|exact Hs].
Defined.

Example aces_raise_to_three_blinds : (pollOnce noting tag_config "A" aces (newBot, [])).2.2 = [txAct ARaise 30].
Proof. vm_compute. reflexivity. Qed.

(** ** Between polls *)

Section loop.
Context {W : Type} (client : Client W) (config : BotConfig) (myAddress : string).
Context (decrypt : DealerHandJson → Z * Z → result string (option (nat * nat))).
Context (base64 : list ascii → OcpBytes.Bytes.bytes) (sha256 : OcpBytes.Bytes.bytes → OcpBytes.Bytes.bytes).

(** Nothing but the loop itself touches these. *)
Definition coreIs (c : bool * nat * option Z) (s : PokerBot * W) : Prop :=
  (s.1.(stopped), s.1.(consecutiveFailures), s.1.(timer)) = c.

(** A pending rebuy has its timer. *)
Definition rebuyOk (s : PokerBot * W) : Prop := s.1.(rebuyPending) = true → is_Some s.1.(rebuyTimer).

Lemma maintains_await {A} (I : PokerBot * W → Prop) (c : call W A) :
  (∀ b w w', I (b, w) → I (b, w')) → maintains I (await c).
Proof. intros HI [b w] Hs. unfold await. cbn [fst snd]. destruct (c w). by eapply HI. Qed.

Ltac maintain :=
  repeat (cbv beta; match goal with
  | |- maintains _ (mbind _ _) => apply maintains_bind; [|intros ?]
  | |- maintains _ (tryCatch _ _) => apply maintains_tryCatch; [|intros ?]
  | |- maintains _ (finally _ _) => apply maintains_finally
  | |- maintains _ (await _) => apply maintains_await; by intros
  | |- maintains _ (match ?x with _ => _ end) => destruct x
  | |- maintains _ (mret _) => apply maintains_ret
  | |- maintains _ (raise _) => apply maintains_raise
  | |- maintains _ (ofRes _) => apply maintains_ofRes
  | |- maintains _ this => apply maintains_read
  | |- maintains _ (remember _ _) => unfold remember
  | |- maintains _ (assign _) => apply maintains_write; by (intros [??])
  end).

Lemma pollOnce_core c : maintains (coreIs c) (pollOnce client config myAddress decrypt).
Proof.
  unfold pollOnce, pollTable, betweenHands, maybeStartHand, actOnHand, tryGetHoleCards. maintain. by intros [??].
Qed.

Lemma pollOnce_rebuyOk : maintains rebuyOk (pollOnce client config myAddress decrypt).
Proof.
  unfold pollOnce, pollTable, betweenHands, maybeStartHand, actOnHand, tryGetHoleCards. maintain; [|by intros [??]].
  apply maintains_write. intros s _ _. by eexists.
Qed.

Lemma ensureSeated_core c : maintains (coreIs c) (ensureSeated client config myAddress base64 sha256).
Proof. unfold ensureSeated. maintain. Qed.
(** ** The loop never stalls *)

(** What the bot starts from, and every event after that. *)
Inductive runs : PokerBot * W → Prop :=
| runs_start w s : start client config myAddress base64 sha256 (newBot, w) = (Ok tt, s) → runs s
| runs_step s s' : runs s → step client config myAddress decrypt base64 sha256 s s' → runs s'.

(** Between events: no poll is under way; until it is stopped the bot has a
    poll scheduled after [nextDelay], and a rebuy it waits for has its timer;
    once stopped it has no timer left. *)
Record alive (s : PokerBot * W) : Prop := {
  alive_idle : s.1.(processing) = false;
  alive_timer : s.1.(timer) = if s.1.(stopped) then None else Some (nextDelay config s.1);
  alive_rebuy : s.1.(stopped) = false → s.1.(rebuyPending) = true → is_Some s.1.(rebuyTimer);
  alive_stopped : s.1.(stopped) = true → s.1.(rebuyTimer) = None
}.

Lemma pollOnce_idle b w : b.(processing) = false → (pollOnce client config myAddress decrypt (b, w)).2.1.(processing) = false.
Proof.
  intros Hp. unfold pollOnce, this. rewrite bind_read. cbn [fst]. rewrite Hp. cbn [orb].
  destruct (rebuyPending b); [exact Hp|]. unfold assign. rewrite bind_write, finally_eq. done.
Qed.

(** A firing poll: the failure count tells how the poll ended, and the next
    poll is scheduled accordingly. *)
Lemma pollLoop_eq b w :
  b.(stopped) = false →
  let '(r, s1) := pollOnce client config myAddress decrypt (b, w) in
  let b2 := set_failures (if r is Ok _ then 0%nat else S b.(consecutiveFailures)) s1.1 in
  pollLoop client config myAddress decrypt (b, w) = (Ok tt, (set_timer (Some (nextDelay config b2)) b2, s1.2)).
Proof.
  intros Hs. pose proof (pollOnce_core (false, b.(consecutiveFailures), b.(timer)) (b, w)) as Hc.
  unfold coreIs in Hc. cbn [fst] in Hc. rewrite <-Hs in Hc. specialize (Hc eq_refl).
  unfold pollLoop, this. rewrite bind_read. cbn [fst]. rewrite Hs.
  destruct (pollOnce client config myAddress decrypt (b, w)) as [r [b1 w1]] eqn:E. cbn [fst snd] in *. injection Hc as Hs1 Hf _.
  rewrite (bind_ok _ _ _ tt (set_failures (if r is Ok _ then 0%nat else S (consecutiveFailures b)) b1, w1)).
  - rewrite bind_read. cbn [fst]. unfold scheduleNext, this. rewrite bind_read. cbn [fst set_failures stopped]. by rewrite Hs1, Hs.
  - unfold tryCatch. destruct r as [[]|e]; [rewrite (bind_ok _ _ _ _ _ E)|rewrite (bind_err _ _ _ _ _ E)]; [done|].
    unfold assign, write. cbn [fst snd]. by rewrite Hf.
Qed.

Lemma alive_poll b w d : alive (b, w) → b.(timer) = Some d → alive (pollLoop client config myAddress decrypt (set_timer None b, w)).2.
Proof.
  intros [H1 H2 H3 H4] Ht. cbn [fst] in *. destruct (stopped b) eqn:Hs; [congruence|].
  pose proof (pollLoop_eq (set_timer None b) w Hs) as E.
  pose proof (pollOnce_idle (set_timer None b) w H1) as Hi.
  pose proof (pollOnce_core (false, b.(consecutiveFailures), None) (set_timer None b, w)) as Hc.
  unfold coreIs in Hc. specialize (Hc ltac:(cbn; by rewrite Hs)).
  pose proof (pollOnce_rebuyOk (set_timer None b, w) (H3 eq_refl)) as Hr.
  destruct (pollOnce client config myAddress decrypt (set_timer None b, w)) as [r [b1 w1]]. rewrite E. cbn [fst snd] in *.
  injection Hc as Hs1 Hf Ht1. constructor; cbn [fst set_timer set_failures processing timer stopped rebuyPending rebuyTimer]; rewrite ?Hs1; try done.
Qed.

Lemma rebuyFires_core c buyIn : maintains (coreIs c) (rebuyFires client config myAddress base64 sha256 buyIn).
Proof.
  unfold rebuyFires. apply maintains_finally; [|by intros [??]].
  apply maintains_tryCatch; [by apply maintains_await|]. intros e. apply maintains_tryCatch; [|intros e2; apply maintains_ret].
  maintain. apply ensureSeated_core.
Qed.

Lemma rebuyFires_idle buyIn :
  maintains (λ s, s.1.(processing) = false) (rebuyFires client config myAddress base64 sha256 buyIn).
Proof.
  unfold rebuyFires, ensureSeated. maintain; by intros [??].
Qed.

Lemma alive_rebuyFires b w d buyIn :
  alive (b, w) → b.(rebuyTimer) = Some (d, buyIn) →
  alive (rebuyFires client config myAddress base64 sha256 buyIn (set_rebuyTimer None b, w)).2.
Proof.
  intros [H1 H2 H3 H4] Ht. cbn [fst] in *. destruct (stopped b) eqn:Hs; [by rewrite H4 in Ht|].
  pose proof (rebuyFires_core (false, b.(consecutiveFailures), b.(timer)) buyIn (set_rebuyTimer None b, w)) as Hc.
  unfold coreIs in Hc. specialize (Hc ltac:(cbn; by rewrite Hs)).
  pose proof (rebuyFires_idle buyIn (set_rebuyTimer None b, w) H1) as Hi.
  assert (Hr : (rebuyFires client config myAddress base64 sha256 buyIn (set_rebuyTimer None b, w)).2.1.(rebuyPending) = false)
    by (unfold rebuyFires; by rewrite finally_eq).
  destruct (rebuyFires _ _ _ _ _ _ _) as [r [b1 w1]]. cbn [fst snd] in *. injection Hc as Hs1 Hf Ht1.
  constructor; cbn [fst]; rewrite ?Hs1, ?Hr; try done. rewrite Ht1, H2. unfold nextDelay. by rewrite Hf.
Qed.

Lemma start_alive w s : start client config myAddress base64 sha256 (newBot, w) = (Ok tt, s) → alive s.
Proof.
  unfold start, assign. rewrite bind_write. cbn [fst snd]. intros H.
  set (b0 := set_failures 0 (set_stopped false newBot)) in *.
  assert (Hseat : ∀ m : X (PokerBot * W) string unit, maintains (λ s, set_mySeat 0 s.1 = set_mySeat 0 b0) m →
    (m ≫= λ _, scheduleNext config.(pollIntervalMs)) (b0, w) = (Ok tt, s) → alive s).
  { intros m Hm E. specialize (Hm (b0, w) eq_refl). destruct (m (b0, w)) as [[[]|e] s1] eqn:Em.
    2:{ rewrite (bind_err _ _ _ _ _ Em) in E. done. }
    rewrite (bind_ok _ _ _ _ _ Em) in E. unfold scheduleNext, this in E. rewrite bind_read in E. cbn [snd] in Hm.
    destruct s1 as [b1 w1]. cbn [fst] in *. destruct b1. cbn in Hm. injection Hm as -> -> -> -> -> -> -> ->. cbn in E.
    injection E as <-. by split. }
  destruct (autoSit config); refine (Hseat _ _ H); [|apply maintains_ret]. unfold ensureSeated. maintain.
Qed.

Lemma runs_alive s : runs s → alive s.
Proof.
  induction 1 as [w s H|s s' _ IH Hstep]; [by eapply start_alive|].
  destruct Hstep as [b w d Ht|b w d buyIn Ht|b w].
  - by eapply alive_poll.
  - by eapply alive_rebuyFires.
  - destruct IH as [H1 H2 H3 H4]. by split.
Qed.

Lemma nextDelay_bounds b :
  0 < config.(pollIntervalMs) <= MAX_BACKOFF_MS → config.(pollIntervalMs) <= nextDelay config b <= MAX_BACKOFF_MS.
Proof.
  intros Hp. unfold nextDelay. case_goal; [lia|]. pose proof (Z.pow_pos_nonneg 2 (Z.of_nat (consecutiveFailures b)) ltac:(lia) ltac:(lia)).
  nia.
Qed.
End loop.

(** The bot never stalls.  After every event since its start (polls that
    succeed or throw, rebuys, a stop) no poll is left marked as under way; until
    it is stopped the next poll is scheduled, after at least the configured
    interval and at most a minute, and a rebuy it waits for has its timer
    pending; and once stopped it leaves no timer behind. *)
Theorem bot_never_stalls {W} (client : Client W) config myAddress decrypt base64 sha256 b w :
  0 < config.(pollIntervalMs) <= MAX_BACKOFF_MS → runs client config myAddress decrypt base64 sha256 (b, w) →
  b.(processing) = false ∧
  if b.(stopped) then b.(timer) = None ∧ b.(rebuyTimer) = None
  else (∃ d, b.(timer) = Some d ∧ config.(pollIntervalMs) <= d <= MAX_BACKOFF_MS) ∧
       (b.(rebuyPending) = true → is_Some b.(rebuyTimer)).
Proof.
  intros Hp [H1 H2 H3 H4]%runs_alive. cbn [fst] in *. split; [done|]. destruct (stopped b); [by auto|].
  split; [|by auto]. eexists. split; [exact H2|]. by apply nextDelay_bounds.
Qed.

Lemma bot_never_stalls_witness :
  ∃ b w d, runs noting tag_config "A" aces (λ _, []) (λ _, []) (b, w) ∧ b.(stopped) = false ∧ b.(timer) = Some d ∧ 1000 <= d.
Proof.
  set (s := (pollLoop noting tag_config "A" aces
    (set_timer None (start noting tag_config "A" (λ _, []) (λ _, []) (newBot, [])).2.1, [])).2).
  assert (H : runs noting tag_config "A" aces (λ _, []) (λ _, []) s).
  { eapply runs_step; [apply (runs_start _ _ _ _ _ _ [] (start noting tag_config "A" (λ _, []) (λ _, []) (newBot, [])).2);
      vm_compute; reflexivity|]. apply (step_poll _ _ _ _ _ _ _ [] 1000). vm_compute. reflexivity. }
  rewrite (surjective_pairing s) in H.
  pose proof (bot_never_stalls noting tag_config "A" aces (λ _, []) (λ _, []) s.1 s.2 ltac:(vm_compute; split; congruence) H) as [_ Hs].
  replace (stopped s.1) with false in Hs by (vm_compute; reflexivity). destruct Hs as [(d & Hd & Hb & _) _].
  exists s.1, s.2, d. split; [exact H|]. split; [vm_compute; reflexivity|]. split; [exact Hd|exact Hb].
Defined.

End BotLoopThms.
