(* ===== verification/DealerTypes.v ===== *)
(** * What the dealer daemon's handlers share

    [config.ts]'s settings, the epoch's secrets of [state.ts] and the interface
    of the store that keeps them, the members of an epoch, and the environment
    a handler runs in: the store, the world behind the chain's client, and the
    blocks that [randomBytes] will return. *)
From stdpp Require Import base option list strings gmap.
From Stdlib Require Import ZArith Lia Ascii.
From S2P Require Import Prelude OcpBytes OcpGroup Json Monads.
Import Bytes Group Json ExceptM.

Module DealerTypes.

Record DealerDaemonConfig := mkDealerConfig {
  validatorAddress : string; mnemonic : option string; privkeyHex : option string;
  cosmosRpcUrl : string; cosmosLcdUrl : string; bech32Prefix : string; gasPrice : string;
  stateDir : string; statePassphrase : string;
  autoBeginEpoch : bool; autoInitHand : bool; autoFinalize : bool;
  pollIntervalMs : Z; committeeSize : Z; threshold : nat; shuffleRounds : Z
}.

(** ** state.ts *)

(** Scalars are hexadecimal strings; [secretShare] is "0" until the shares have
    been aggregated. *)
Record EpochSecrets := mkSecrets {
  epochId : Z; validatorIndex : Z; polyCoeffs : list string; secretShare : string; ephemeralSk : option string
}.

Definition set_secretShare (v : string) (s : EpochSecrets) : EpochSecrets :=
  mkSecrets s.(epochId) s.(validatorIndex) s.(polyCoeffs) v s.(ephemeralSk).

(** [EpochStateStore] as the handlers use it. *)
Class EpochStore (D : Type) := {
  st_has : D → Z → bool;
  st_load : D → Z → result string (option EpochSecrets) * D;
  st_save : D → EpochSecrets → result string unit * D
}.

(** What it promises: what is known of an epoch is what was last saved.
    [st_known d e] is that knowledge, for the states [st_ok] admits. *)
Class EpochStoreLaws (D : Type) `{EpochStore D} := {
  st_ok : D → Prop;
  st_known : D → Z → option EpochSecrets;
  st_has_known d e : st_ok d → st_has d e = bool_decide (is_Some (st_known d e));
  st_load_known d e : st_ok d → ∃ d', st_load d e = (Ok (st_known d e), d') ∧ st_ok d' ∧ ∀ e', st_known d' e' = st_known d e';
  st_save_known d s : st_ok d → ∃ d', st_save d s = (Ok tt, d') ∧ st_ok d' ∧
    ∀ e', st_known d' e' = if decide (e' = s.(epochId)) then Some s else st_known d e'
}.

(** ** Members of an epoch *)

Record Member := mkMember { m_validator : string; m_index : Z; m_ephemeralPubkey : option bytes }.

(** [m.validator.toLowerCase() === addr.toLowerCase()] *)
Definition sameAddress (a b : string) : bool := bool_decide (lower a = lower b).
Definition findMember (members : list Member) (addr : string) : option Member :=
  List.find (λ m, sameAddress m.(m_validator) addr) members.

(** [String(x ?? "").toLowerCase()] *)
Definition address (j : json) : string := lower (toStr (orElse j (JStr EmptyString))).

(** ** Scalars in hexadecimal *)

Fixpoint hexDigits (fuel : nat) (n : Z) (acc : list ascii) : list ascii :=
  match fuel with
  | O => acc
  | S fuel => let acc := hexDigit (n mod 16) :: acc in if n <? 16 then acc else hexDigits fuel (n / 16) acc
  end.
(** [n.toString(16)]; a digit takes four bits. *)
Definition toHex (n : Z) : string := String.string_of_list_ascii (hexDigits (S (Z.to_nat (Z.log2 n))) n []).

(** [BigInt(`0x${s}`)] *)
Definition fromHexString (s : string) : res Z :=
  match stringToBigInt (String "0"%char (String "x"%char s)) with Some z => Ok z | None => Err "SyntaxError"%string end.

(** ** The environment *)

Record Env (D W : Type) := mkEnv { e_store : D; e_world : W; e_random : list bytes }.
Arguments mkEnv {D W}. Arguments e_store {D W}. Arguments e_world {D W}. Arguments e_random {D W}.

Definition call (W A : Type) : Type := W → result string A * W.

(** The methods of [OcpCosmosClient] that the daemon calls, with their
    arguments in the order of the code's object literals. *)
Record DealerClient (W : Type) := mkDealerClient {
  getDealerEpoch : call W (option json);
  getDealerDkg : call W (option json);
  getTables : call W (list string);
  getTable : string → call W (option json);
  getDealerHand : string → string → call W (option json);
  dealerBeaconCommit : string → Z → bytes → call W unit;
  dealerBeaconReveal : string → Z → bytes → call W unit;
  dealerBeginEpoch : Z → nat → call W unit;
  dealerFinalizeEpoch : Z → call W unit;
  dealerDkgCommit : string → Z → list bytes → bytes → call W unit;
  dealerDkgEncryptedShare : string → Z → Z → bytes → bytes → bytes → bytes → call W unit;
  dealerDkgComplaintMissing : string → Z → string → call W unit;
  dealerDkgComplaintAEADBad : string → Z → string → Z → bytes → bytes → call W unit;
  dealerDkgShareReveal : string → Z → json → bytes → call W unit;
  dealerInitHand : string → string → Z → call W unit;
  dealerSubmitShuffle : string → string → string → Z → bytes → call W unit;
  dealerFinalizeDeck : string → string → call W unit;
  dealerSubmitEncShare : string → string → string → Z → bytes → bytes → bytes → call W unit;
  dealerSubmitPubShare : string → string → string → Z → bytes → bytes → call W unit;
  dealerFinalizeReveal : string → string → Z → call W unit;
  dealerTimeout : string → string → call W unit;
  pokerStartHand : string → call W unit;
  pokerTick : string → call W unit
}.
Arguments getDealerEpoch {W}. Arguments getDealerDkg {W}. Arguments getTables {W}. Arguments getTable {W}. Arguments getDealerHand {W}.
Arguments dealerBeaconCommit {W}. Arguments dealerBeaconReveal {W}. Arguments dealerBeginEpoch {W}. Arguments dealerFinalizeEpoch {W}.
Arguments dealerDkgCommit {W}. Arguments dealerDkgEncryptedShare {W}. Arguments dealerDkgComplaintMissing {W}.
Arguments dealerDkgComplaintAEADBad {W}. Arguments dealerDkgShareReveal {W}. Arguments dealerInitHand {W}. Arguments dealerSubmitShuffle {W}.
Arguments dealerFinalizeDeck {W}. Arguments dealerSubmitEncShare {W}. Arguments dealerSubmitPubShare {W}. Arguments dealerFinalizeReveal {W}.
Arguments dealerTimeout {W}. Arguments pokerStartHand {W}. Arguments pokerTick {W}.

Section env.
Context {D W : Type} `{EpochStore D}.

Abbreviation E := (X (Env D W) string).

Definition await {A} (c : call W A) : E A := λ s,
  let '(r, w) := c s.(e_world) in (r, mkEnv s.(e_store) w s.(e_random)).
Definition storeHas (epochId : Z) : E bool := read (λ s, st_has s.(e_store) epochId).
Definition storeLoad (epochId : Z) : E (option EpochSecrets) := λ s,
  let '(r, d) := st_load s.(e_store) epochId in (r, mkEnv d s.(e_world) s.(e_random)).
Definition storeSave (secrets : EpochSecrets) : E unit := λ s,
  let '(r, d) := st_save s.(e_store) secrets in (r, mkEnv d s.(e_world) s.(e_random)).

(** The loop of [nonzeroScalar] over the random blocks to come. *)
Fixpoint nonzeroLoop (blocks : list bytes) : res Scalar * list bytes :=
  match blocks with
  | [] => (Err "out of random bytes"%string, [])
  | b :: blocks => match scalarFromBytesModOrder b with
                   | Err e => (Err e, blocks)
                   | Ok s => if negb (s =? 0) then (Ok s, blocks) else nonzeroLoop blocks
                   end
  end.

Definition nonzeroScalar : E Scalar := λ s,
  let '(r, blocks) := nonzeroLoop s.(e_random) in (r, mkEnv s.(e_store) s.(e_world) blocks).

(** [Array.from({ length: n }, f)] *)
Fixpoint repeatM {A} (n : nat) (f : E A) : E (list A) :=
  match n with
  | O => mret []
  | S n => a ← f; l ← repeatM n f; mret (a :: l)
  end.

(** [for (const x of l) body(x)] *)
Fixpoint forEach {A} (l : list A) (body : A → E unit) : E unit :=
  match l with
  | [] => mret tt
  | x :: l => body x;; forEach l body
  end.

(** [p.catch(() => d)] *)
Definition orDefault {A} (d : A) (m : E A) : E A := tryCatch m (λ _, mret d).
(** A call whose failure is only logged. *)
Definition tolerate (m : E unit) : E unit := orDefault tt m.
(** A call whose failure is reported as [false]. *)
Definition attempt (m : E unit) : E bool := tryCatch (m;; mret true) (λ _, mret false).

(** A loop that [return] may leave: the body says whether to. *)
Fixpoint forUntil {A} (l : list A) (body : A → E bool) : E bool :=
  match l with
  | [] => mret false
  | x :: l => stop ← body x; if stop : bool then mret true else forUntil l body
  end.
End env.

(** ** Reading the chain's JSON *)

(** [msg.includes(part)] *)
Definition includes (msg part : string) : bool := if String.index 0 part msg is Some _ then true else false.

Definition asNumber (v : json) : option Z :=
  match v with
  | JNum z => Some z
  | JStr s => if (length (trim (String.list_ascii_of_string s)) =? 0)%nat then None else stringToBigInt s
  | _ => None
  end.

(** [pick]: the first own field that is not null; [Uint8Array]s and arrays have
    none of the names asked for. *)
Fixpoint pick (obj : json) (keys : list string) : json :=
  match keys with
  | [] => JUndefined
  | k :: keys => if nullish (field obj k) then pick obj keys else field obj k
  end.

(** [BigInt(x)] *)
Definition toBig (j : json) : res Z :=
  match j with
  | JNum z | JBig z => Ok z
  | JBool b => Ok (if b then 1 else 0)
  | JStr s => match stringToBigInt s with Some z => Ok z | None => Err "SyntaxError"%string end
  | _ => Err "TypeError"%string
  end.

(** [Uint8Array.from(l.map(Number))] *)
Definition bytesOfNumbers (l : list json) : bytes := map (λ j, default 0 (jsNumber j) mod 256) l.

End DealerTypes.
