(* ===== verification/DealerDkg.v ===== *)
(** * Distributed key generation: [apps/dealer-daemon/src/handlers/dkg.ts]

    One validator's side of the key generation: it commits to a polynomial,
    sends every other member its share encrypted, reveals shares that are
    complained about, and adds up the shares it has received.  The chain is a
    record of operations on a world; AES-GCM, the group and the hashes are the
    interfaces of the cryptography package; [base64] is [Buffer.from]. *)
From stdpp Require Import base option list strings gmap.
From Stdlib Require Import ZArith Lia Ascii.
From S2P Require Import Prelude OcpBytes OcpGroup OcpTranscript OcpProofs Json Monads DealerTypes.
Import Bytes Group Hashing Proofs Json ExceptM DealerTypes.

Module Dkg.

Definition modQ (n : Z) : Z :=
  let x := Z.rem n CURVE_ORDER in
  if x <? 0 then x + CURVE_ORDER else x.

(** The loop keeps the sum and the power of [x]. *)
Definition evalStep (x : Z) (acc : Z * Z) (a : Z) : Z * Z :=
  let '(acc, pow) := acc in (modQ (acc + modQ a * pow), modQ (pow * x)).
Definition evalPoly (coeffs : list Z) (x : Z) : Z := modQ (foldl (evalStep x) (0, 1) coeffs).1.

(** ** Bytes from the chain *)

Definition isHex (l : list ascii) : bool := negb (length l =? 0)%nat && forallb (λ c, if digitValue c is Some _ then true else false) l.
Fixpoint hexBytes (l : list ascii) : bytes :=
  match l with
  | a :: b :: l => default 0 (parseInt16 [a; b]) mod 256 :: hexBytes l
  | _ => []
  end.
Definition strip0x (l : list ascii) : list ascii :=
  match l with "0"%char :: "x"%char :: l => l | _ => l end.
Section dkg.
Context {P : Type} `{RistrettoOps P} `{HashOps} `{AeadOps} (base64 : list ascii → bytes).

Definition decodeOnchainBytes (raw : json) : option bytes :=
  match raw with
  | JBytes bs => Some bs
  | JArr l => Some (bytesOfNumbers l)
  | JObj fields => if nullish (field raw "length") then None else Some (bytesOfNumbers (map snd fields))
  | JStr s =>
      let l := String.list_ascii_of_string s in
      let body := strip0x l in
      if isHex body && (length body mod 2 =? 0)%nat then Some (hexBytes body) else Some (base64 l)
  | _ => None
  end.

Section handlers.
Context {D W : Type} `{EpochStore D} (client : DealerClient W) (config : DealerDaemonConfig).

Abbreviation E := (X (Env D W) string).
Let me : string := config.(validatorAddress).

(** *** Phase 1: the commitment *)

Definition handleDkgCommit (epochId : Z) (members : list Member) : E unit :=
  known ← storeHas epochId;
  if known : bool then mret tt
  else
    match findMember members me with
    | None => mret tt
    | Some myMember =>
        polyCoeffs ← repeatM config.(threshold) nonzeroScalar;
        commitments ← ofRes (mapR (λ c, let! p := mulBase (P := P) c in Ok (groupElementToBytes p)) polyCoeffs);
        ephemeralSk ← nonzeroScalar;
        ephemeralPk ← ofRes (mulBase (P := P) ephemeralSk);
        await (client.(dealerDkgCommit) me epochId commitments (groupElementToBytes ephemeralPk));;
        storeSave (mkSecrets epochId myMember.(m_index) (map toHex polyCoeffs) "0" (Some (toHex ephemeralSk)))
    end.

(** *** Phase 2: encrypted shares *)

(** Our commitments on the chain, if all are 32 bytes long. *)
Definition ourCommitments (dkg : json) : option (list bytes) :=
  match List.find (λ c, bool_decide (address (field c "dealer") = lower me)) (elems (field dkg "commits")) with
  | None => None
  | Some myCommit =>
      foldr (λ cb rest, match decodeOnchainBytes cb, rest with
                        | Some b, Some rest => if (length b =? 32)%nat then Some (b :: rest) else None
                        | _, _ => None
                        end) (Some []) (elems (field myCommit "commitments"))
  end.

(** [Number(es.recipientIndex ?? es.recipient_index ?? 0) | 0] *)
Definition recipientIndex (es : json) : Z :=
  toInt32 (jsNumber (orElse (field es "recipientIndex") (orElse (field es "recipient_index") (JNum 0)))).

(** The recipients we have already served. *)
Definition served (dkg : json) : list Z :=
  omap (λ es, let j := recipientIndex es in
              if bool_decide (address (field es "dealer") = lower me) && negb (bool_decide (lower me = EmptyString)) && (0 <? j)
              then Some j else None)
       (elems (field dkg "encryptedShares")).

(** What is submitted for one recipient: [u], [v], the proof and the encrypted
    scalar. *)
Definition encryptedShare (commitments : list P) (polyCoeffs : list Z) (j : Z) (pkR : P) : E (bytes * bytes * bytes * bytes) :=
  let s := evalPoly polyCoeffs j in
  r ← nonzeroScalar;
  u ← ofRes (mulBase (P := P) r);
  sG ← ofRes (mulBase (P := P) s);
  rpk ← ofRes (mulPoint pkR r);
  let v := pointAdd sG rpk in
  ws ← nonzeroScalar;
  wr ← nonzeroScalar;
  proof ← ofRes (dkgEncShareProve commitments (Int j) pkR u v s r ws wr);
  proofBytes ← ofRes (encodeDkgEncShareProof proof);
  scalarCt ← ofRes (encryptShareScalar pkR r s proofBytes);
  mret (groupElementToBytes u, groupElementToBytes v, proofBytes, scalarCt).

Definition serveRecipient (epochId : Z) (commitments : list P) (polyCoeffs : list Z) (dkg : json) (recipient : Member) : E unit :=
  if bool_decide (lower recipient.(m_validator) = lower me) || existsb (Z.eqb recipient.(m_index)) (served dkg) then mret tt
  else
    match recipient.(m_ephemeralPubkey) with
    | None => mret tt
    | Some pkRBytes =>
        if negb (length pkRBytes =? 32)%nat then mret tt
        else
          match groupElementFromBytes (P := P) pkRBytes with
          | Err _ => mret tt
          | Ok pkR =>
              '(u, v, proof, ct) ← encryptedShare commitments polyCoeffs recipient.(m_index) pkR;
              tolerate (await (client.(dealerDkgEncryptedShare) me epochId recipient.(m_index) u v proof ct))
          end
    end.

Definition handleDkgEncryptedShares (epochId : Z) (members : list Member) (dkg : json) : E unit :=
  secrets ← storeLoad epochId;
  match secrets with
  | None => mret tt
  | Some secrets =>
      if (length secrets.(polyCoeffs) =? 0)%nat then mret tt
      else
        match findMember members me with
        | None => mret tt
        | Some _ =>
            polyCoeffs ← ofRes (mapR fromHexString secrets.(polyCoeffs));
            match ourCommitments dkg with
            | None => mret tt
            | Some commitmentsBytes =>
                commitments ← ofRes (mapR (groupElementFromBytes (P := P)) commitmentsBytes);
                forEach members (serveRecipient epochId commitments polyCoeffs dkg)
            end
        end
  end.

(** *** Complaints and reveals *)

Definition complaintsBy (dkg : json) : list json :=
  List.filter (λ c, bool_decide (address (field c "complainer") = lower me)) (elems (field dkg "complaints")).

Definition complainAbout (epochId : Z) (myComplaints committedAddrs : list string) (member : Member) : E unit :=
  let memberAddr := lower member.(m_validator) in
  if bool_decide (memberAddr = lower me) || bool_decide (memberAddr ∈ myComplaints) || negb (bool_decide (memberAddr ∈ committedAddrs))
  then mret tt
  else tolerate (await (client.(dealerDkgComplaintMissing) me epochId member.(m_validator))).

Definition handleDkgComplaints (epochId : Z) (members : list Member) (dkg : json) : E unit :=
  let commits := elems (field dkg "commits") in
  if negb (existsb (λ c, bool_decide (address (field c "dealer") = lower me)) commits) then mret tt
  else
    let myComplaints := map (λ c, address (field c "dealer")) (complaintsBy dkg) in
    let committedAddrs := map (λ c, address (field c "dealer")) commits in
    forEach members (complainAbout epochId myComplaints committedAddrs).

(** The answer to one complaint against us. *)
Definition revealTo (epochId : Z) (members : list Member) (polyCoeffs : list Z) (myReveals : list string) (complaint : json) : E unit :=
  let complainerId := address (field complaint "complainer") in
  if bool_decide (complainerId ∈ myReveals) then mret tt
  else
    match List.find (λ m, bool_decide (lower m.(m_validator) = complainerId)) members with
    | None => mret tt
    | Some complainer =>
        shareBytes ← ofRes (scalarToBytes (evalPoly polyCoeffs complainer.(m_index)));
        tolerate (await (client.(dealerDkgShareReveal) me epochId (field complaint "complainer") shareBytes))
    end.

Definition handleDkgReveals (epochId : Z) (members : list Member) (dkg : json) : E unit :=
  secrets ← storeLoad epochId;
  match secrets with
  | None => mret tt
  | Some secrets =>
      polyCoeffs ← ofRes (mapR fromHexString secrets.(polyCoeffs));
      let complaintsAgainstUs := List.filter (λ c, bool_decide (address (field c "dealer") = lower me)) (elems (field dkg "complaints")) in
      let myReveals := map (λ r, address (field r "to"))
                         (List.filter (λ r, bool_decide (address (field r "dealer") = lower me)) (elems (field dkg "reveals"))) in
      forEach complaintsAgainstUs (revealTo epochId members polyCoeffs myReveals)
  end.

(** *** Aggregation *)

(** A [Map] from dealers to scalars, in insertion order. *)
Fixpoint mapSet (k : string) (v : Z) (m : list (string * Z)) : list (string * Z) :=
  match m with
  | [] => [(k, v)]
  | (k', v') :: m => if bool_decide (k' = k) then (k, v) :: m else (k', v') :: mapSet k v m
  end.

Definition isAeadComplaint (c : json) : bool :=
  bool_decide (address (field c "complainer") = lower me) &&
  (let kind := toStr (orElse (field c "kind") (JStr EmptyString)) in
   bool_decide (kind = "aead-bad"%string) || bool_decide (kind = "aead-spurious"%string)).

(** The complaint about a share that does not decrypt or does not match. *)
Definition fileAeadComplaint (epochId myIndex : Z) (skR : Scalar) (u : P) (dealer : string) : E unit :=
  tolerate (
    dh ← ofRes (mulPoint u skR);
    y ← ofRes (mulBase (P := P) skR);
    w ← nonzeroScalar;
    proof ← ofRes (chaumPedersenProve y u dh skR w);
    proofBytes ← ofRes (encodeChaumPedersenProof proof);
    await (client.(dealerDkgComplaintAEADBad) me epochId dealer myIndex (groupElementToBytes dh) proofBytes)).

(** [s*G == V - skR*U]; [None] is a share that fails. *)
Definition openShare (skR : Scalar) (u v : P) (proofBytes ct : bytes) : res (option Scalar) :=
  match decryptShareScalar skR u proofBytes ct with
  | Err _ => Ok None
  | Ok s =>
      let! sG := mulBase (P := P) s in
      let! skU := mulPoint u skR in
      Ok (if pointEq sG (pointSub v skU) then Some s else None)
  end.

(** One turn of the loop: the scalars and the dealers already complained
    about. *)
Definition collectShare (epochId : Z) (skR : Scalar) (myIndex : Z) (acc : list (string * Z) * list string) (es : json)
  : E (list (string * Z) * list string) :=
  let '(out, complained) := acc in
  let canonical := toStr (orElse (field es "dealer") (JStr EmptyString)) in
  let dealerAddr := lower canonical in
  if bool_decide (dealerAddr = lower me) || negb (recipientIndex es =? myIndex) then mret acc
  else
    match decodeOnchainBytes (field es "u"), decodeOnchainBytes (field es "v"), decodeOnchainBytes (field es "proof"),
          decodeOnchainBytes (orElse (field es "scalarCt") (field es "scalar_ct")) with
    | Some uBytes, Some vBytes, Some proofBytes, Some ct =>
        match groupElementFromBytes (P := P) uBytes, groupElementFromBytes (P := P) vBytes with
        | Ok u, Ok v =>
            opened ← ofRes (openShare skR u v proofBytes ct);
            match opened with
            | Some s => mret (mapSet dealerAddr s out, complained)
            | None =>
                if bool_decide (dealerAddr ∈ complained) then mret acc
                else
                  fileAeadComplaint epochId myIndex skR u (if bool_decide (canonical = EmptyString) then dealerAddr else canonical);;
                  mret (out, dealerAddr :: complained)
            end
        | _, _ => mret acc
        end
    | _, _, _, _ => mret acc
    end.

Fixpoint collectLoop (epochId : Z) (skR : Scalar) (myIndex : Z) (acc : list (string * Z) * list string) (shares : list json)
  : E (list (string * Z)) :=
  match shares with
  | [] => mret acc.1
  | es :: shares => acc ← collectShare epochId skR myIndex acc es; collectLoop epochId skR myIndex acc shares
  end.

Definition collectEncryptedShareScalars (epochId : Z) (dkg : json) : E (list (string * Z)) :=
  secrets ← storeLoad epochId;
  match secrets with
  | None => mret []
  | Some secrets =>
      match secrets.(ephemeralSk) with
      | None => mret []
      | Some sk =>
          if bool_decide (sk = EmptyString) then mret []
          else
            skR ← ofRes (fromHexString sk);
            let complained := map (λ c, address (field c "dealer")) (List.filter isAeadComplaint (elems (field dkg "complaints"))) in
            collectLoop epochId skR secrets.(validatorIndex) ([], complained) (elems (field dkg "encryptedShares"))
      end
  end.

(** The little-endian number of a revealed share. *)
Definition revealValue (share : json) : option Z :=
  match share with
  | JBytes bs => Some (modQ (bytesToBigintLE bs))
  | JArr l => if (length l =? 0)%nat then None else Some (modQ (bytesToBigintLE (bytesOfNumbers l)))
  | JObj fields => if truthy (field share "length") then Some (modQ (bytesToBigintLE (bytesOfNumbers (map snd fields)))) else None
  | JStr s =>
      let l := String.list_ascii_of_string s in
      let body := strip0x l in
      if isHex body && (length body =? 64)%nat then Some (modQ (bytesToBigintLE (hexBytes body)))
      else Some (modQ (bytesToBigintLE (base64 l)))
  | _ => None
  end.

(** The sum and the dealers counted so far. *)
Definition addEncrypted (slashed : list string) (acc : Z * gset string) (d : string * Z) : Z * gset string :=
  if bool_decide (d.1 ∈ slashed) then acc else (modQ (acc.1 + d.2), {[d.1]} ∪ acc.2).

Definition addReveal (slashed : list string) (acc : Z * gset string) (reveal : json) : Z * gset string :=
  let dealerAddr := address (field reveal "dealer") in
  let toAddr := address (field reveal "to") in
  if negb (bool_decide (toAddr = lower me)) || bool_decide (dealerAddr = lower me) || bool_decide (dealerAddr ∈ slashed) ||
     bool_decide (dealerAddr ∈ acc.2) || negb (truthy (field reveal "share")) then acc
  else match revealValue (field reveal "share") with
       | None => acc
       | Some s => (modQ (acc.1 + s), {[dealerAddr]} ∪ acc.2)
       end.

Definition handleDkgAggregate (epochId : Z) (members : list Member) (dkg : json) : E bool :=
  secrets ← storeLoad epochId;
  match secrets with
  | None => mret false
  | Some secrets =>
      if negb (bool_decide (secrets.(secretShare) = "0"%string)) then mret true
      else
        match findMember members me with
        | None => mret false
        | Some myMember =>
            polyCoeffs ← ofRes (mapR fromHexString secrets.(polyCoeffs));
            let own := evalPoly polyCoeffs myMember.(m_index) in
            let slashed := map (λ s, lower (toStr s)) (elems (field dkg "slashed")) in
            encScalars ← collectEncryptedShareScalars epochId dkg;
            let acc := foldl (addEncrypted slashed) (own, ∅) encScalars in
            let '(aggregated, counted) := foldl (addReveal slashed) acc (elems (field dkg "reveals")) in
            let expected := length (List.filter (λ m, negb (bool_decide (lower m.(m_validator) = lower me)) &&
                                                      negb (bool_decide (lower m.(m_validator) ∈ slashed))) members) in
            if (size counted <? expected)%nat then mret false
            else
              storeSave (set_secretShare (toHex aggregated) secrets);;
              mret true
        end
  end.
End handlers.
End dkg.

End Dkg.
