(* ===== verification/DealerShares.v ===== *)
(** * The dealer's work on a hand: [handlers/shuffle.ts], [encshares.ts],
      [pubshares.ts] and [beacon.ts] of [apps/dealer-daemon/src]

    A validator shuffles the deck when it is its turn, publishes its decryption
    shares of the hole cards encrypted to the players and of the board in the
    clear, and takes part in the randomness beacon.  The hand's secret is the
    validator's share times a scalar hashed from the hand's identity. *)
From stdpp Require Import base option list strings gmap.
From Stdlib Require Import ZArith Lia Ascii.
From S2P Require Import Prelude OcpBytes OcpGroup OcpTranscript OcpProofs OcpShuffle Json Monads DealerTypes.
Import Bytes Group Hashing Proofs Json ExceptM DealerTypes.

Module DealerShares.

(** ** Encodings *)

(** Eight bytes, least significant first; [i64le] adds 2^64 to a negative. *)
Definition u64le (v : Z) : bytes := (bytesLE_loop v 8).1.
Definition i64le (v : Z) : bytes := u64le (if v <? 0 then v + Z.shiftl 1 64 else v).

(** [BigInt(Number(s))] *)
Definition idNumber (s : string) : res Z :=
  match jsNumber (JStr s) with Some z => Ok z | None => Err "RangeError"%string end.

Section shares.
Context {P : Type} `{RistrettoOps P} `{HashOps} `{AeadOps} (base64 : list ascii → bytes).

(** ** shuffle.ts *)

Definition decodeBytes (raw : json) : res bytes :=
  match raw with
  | JBytes bs => Ok bs
  | JArr l => Ok (bytesOfNumbers l)
  | JStr s => if bool_decide (s = EmptyString) then Err "unsupported bytes value: string"%string
              else Ok (base64 (String.list_ascii_of_string s))
  | _ => Err "unsupported bytes value"%string
  end.

Definition decodeEntry (entry : json) : res (ElGamalCiphertext P) :=
  let! _ := throw_if (negb (truthy entry)) "missing deck entry"%string in
  let! b1 := decodeBytes (field entry "c1") in
  let! c1 := groupElementFromBytes b1 in
  let! b2 := decodeBytes (field entry "c2") in
  let! c2 := groupElementFromBytes b2 in
  Ok (mkCt c1 c2).

Definition decodeDeck (rawDeck : json) : res (list (ElGamalCiphertext P)) := mapR decodeEntry (elems rawDeck).

Section handlers.
Context {D W : Type} `{EpochStore D} (client : DealerClient W) (config : DealerDaemonConfig).

Abbreviation E := (X (Env D W) string).
Let me : string := config.(validatorAddress).

(** [randomBytes(32)] *)
Definition random32 : E bytes := λ s,
  match s.(e_random) with
  | [] => (Err "out of random bytes"%string, s)
  | b :: blocks => (Ok b, mkEnv s.(e_store) s.(e_world) blocks)
  end.

(** The validator whose turn the hand's step is; no member for a step that is
    past the last or not a number. *)
Definition expectedShuffler (dealerHand : json) (epochMembers : list Member) : option (Z * Member) :=
  match jsNumber (orElse (field dealerHand "shuffleStep") (orElse (field dealerHand "shuffle_step") (JNum 0))) with
  | None => None
  | Some step => if step <? 0 then None else (λ m, (step, m)) <$> epochMembers !! Z.to_nat step
  end.

Definition handleShuffle (fuel : nat) (tableId handId : string) (epochMembers : list Member) : E unit :=
  dealerHand ← await (client.(getDealerHand) tableId handId);
  match dealerHand with
  | None => raise ("dealer hand not found for table " +:+ tableId +:+ " hand " +:+ handId)%string
  | Some dealerHand =>
      match expectedShuffler dealerHand epochMembers with
      | None => mret tt
      | Some (step, m) =>
          if bool_decide (m.(m_validator) = EmptyString) || negb (sameAddress m.(m_validator) me) then mret tt
          else
            let round := step + 1 in
            let pkHandRaw := orElse (field dealerHand "pkHand") (field dealerHand "pk_hand") in
            if negb (truthy pkHandRaw) then raise "dealer hand missing pkHand"%string
            else
              pkHand ← ofRes (let! b := decodeBytes pkHandRaw in groupElementFromBytes (P := P) b);
              deck ← ofRes (decodeDeck (field dealerHand "deck"));
              context ← ofRes (let! t := toBig (JStr tableId) in let! h := toBig (JStr handId) in
                               Shuffle.buildShuffleContext t h (Int round) me);
              seed ← random32;
              proof ← ofRes (Shuffle.shuffleProveV1 fuel false seed pkHand deck
                               (Shuffle.mkOpts None (Some (Int config.(shuffleRounds))) (Some context)));
              await (client.(dealerSubmitShuffle) me tableId handId round proof.2)
      end
  end.

(** ** encshares.ts, pubshares.ts *)

Definition decodeSaltBytes (raw : json) : res bytes := decodeBytes raw.

(** The scalar that ties a share to a hand. *)
Definition handScalar (epochId tableId handId initHeight : Z) (initSalt : bytes) : res Scalar :=
  hashToScalar "ocp/v1/dealer/hand-derive/v2" [u64le epochId; u64le tableId; u64le handId; i64le initHeight; initSalt].

(** The height and salt of the hand, if they are there. *)
Definition handEntropy (dealerHand : json) : option (json * json) :=
  let initHeight := orElse (field dealerHand "initHeight") (field dealerHand "init_height") in
  let initSalt := orElse (field dealerHand "initHashSalt") (field dealerHand "init_hash_salt") in
  if nullish initHeight || nullish initSalt then None else Some (initHeight, initSalt).

(** The hand's secret and its public key; [None] when the salt has the wrong
    length. *)
Definition handKeys (secretShare : Z) (epochId : Z) (tableId handId : string) (initHeightRaw initSaltRaw : json)
  : res (option (Scalar * P)) :=
  let! initHeight := toBig initHeightRaw in
  let! initSalt := decodeSaltBytes initSaltRaw in
  if negb (length initSalt =? 32)%nat then Ok None
  else
    let! t := idNumber tableId in
    let! h := idNumber handId in
    let! hs := handScalar epochId t h initHeight initSalt in
    let xHand := scalarMul secretShare hs in
    let! yHand := mulBase xHand in
    Ok (Some (xHand, yHand)).

(** The share of one card for one player: the ciphertext and its proof. *)
Definition encShareFor (xHand : Scalar) (yHand c1 pkPlayer : P) : E (bytes * bytes) :=
  d ← ofRes (mulPoint c1 xHand);
  r ← nonzeroScalar;
  u ← ofRes (mulBase (P := P) r);
  rpk ← ofRes (mulPoint pkPlayer r);
  let v := pointAdd d rpk in
  wx ← nonzeroScalar;
  wr ← nonzeroScalar;
  proof ← ofRes (encShareProve yHand c1 pkPlayer u v xHand r wx wr);
  proofBytes ← ofRes (encodeEncShareProof proof);
  mret (concatBytes [groupElementToBytes u; groupElementToBytes v], proofBytes).

(** Submitting for one position; [true] when the hand has moved on. *)
Definition submitEncShare (tableId handId : string) (pos : Z) (pkPlayerBytes encShare proof : bytes) : E bool :=
  tryCatch (await (client.(dealerSubmitEncShare) me tableId handId pos pkPlayerBytes encShare proof);; mret false)
    (λ msg, if includes msg "already" || includes msg "duplicate" then mret false
            else if includes msg "not in shuffle phase" then mret true
            else raise msg).

Definition sharePosition (tableId handId : string) (xHand : Scalar) (yHand : P) (deck : list (ElGamalCiphertext P))
    (holePos : list Z) (seat : nat) (pkPlayerBytes : bytes) (pkPlayer : P) (cardIdx : nat) : E bool :=
  match holePos !! (seat * 2 + cardIdx)%nat with
  | None => mret false
  | Some pos =>
      if (pos <? 0) || (pos =? 255) then mret false
      else
        match deck !! Z.to_nat pos with
        | None => mret false
        | Some ct =>
            '(encShare, proof) ← encShareFor xHand yHand ct.(ct_c1) pkPlayer;
            submitEncShare tableId handId pos pkPlayerBytes encShare proof
        end
  end.

Definition shareSeat (tableId handId : string) (xHand : Scalar) (yHand : P) (deck : list (ElGamalCiphertext P))
    (holePos : list Z) (seats : list json) (seat : nat) : E bool :=
  let seatData := rd JUndefined seats seat in
  if negb (truthy (field seatData "player")) then mret false
  else
    let pkPlayerRaw := orElse (field seatData "pkPlayer") (orElse (field seatData "pk_player") (field seatData "pk")) in
    if negb (truthy pkPlayerRaw) then mret false
    else
      match decodeBytes pkPlayerRaw with
      | Err _ => mret false
      | Ok pkPlayerBytes =>
          match groupElementFromBytes (P := P) pkPlayerBytes with
          | Err _ => mret false
          | Ok pkPlayer => forUntil [0; 1]%nat (sharePosition tableId handId xHand yHand deck holePos seat pkPlayerBytes pkPlayer)
          end
      end.

(** The secret share, once it has been aggregated. *)
Definition knownShare (secrets : option EpochSecrets) : option string :=
  match secrets with
  | Some s => if bool_decide (s.(secretShare) = "0"%string) then None else Some s.(secretShare)
  | None => None
  end.

Definition handleEncShares (tableId handId : string) (epochId : Z) : E unit :=
  secrets ← storeLoad epochId;
  match knownShare secrets with
  | None => mret tt
  | Some share =>
      secretShare ← ofRes (fromHexString share);
      table ← await (client.(getTable) tableId);
      match table with
      | None => mret tt
      | Some table =>
          let hand := field table "hand" in
          let dealer := orElse (field hand "dealer") (field hand "dealerState") in
          let holePos := omap asNumber (elems (orElse (field dealer "holePos") (field dealer "hole_pos"))) in
          if negb (length holePos =? 18)%nat then mret tt
          else
            dealerHand ← await (client.(getDealerHand) tableId handId);
            match dealerHand with
            | None => mret tt
            | Some dealerHand =>
                match handEntropy dealerHand with
                | None => mret tt
                | Some (initHeight, initSalt) =>
                    keys ← ofRes (handKeys secretShare epochId tableId handId initHeight initSalt);
                    match keys with
                    | None => mret tt
                    | Some (xHand, yHand) =>
                        deck ← ofRes (decodeDeck (field dealerHand "deck"));
                        let seats := elems (field table "seats") in
                        forUntil (seq 0 9) (shareSeat tableId handId xHand yHand deck holePos seats);;
                        mret tt
                    end
                end
            end
      end
  end.

(** The share of a board card, and its proof. *)
Definition pubShareFor (xHand : Scalar) (yHand c1 : P) : E (bytes * bytes) :=
  d ← ofRes (mulPoint c1 xHand);
  w ← nonzeroScalar;
  proof ← ofRes (chaumPedersenProve yHand c1 d xHand w);
  proofBytes ← ofRes (encodeChaumPedersenProof proof);
  mret (groupElementToBytes d, proofBytes).

Definition handlePubShare (tableId handId : string) (epochId pos : Z) : E unit :=
  secrets ← storeLoad epochId;
  match knownShare secrets with
  | None => mret tt
  | Some share =>
      secretShare ← ofRes (fromHexString share);
      dealerHand ← await (client.(getDealerHand) tableId handId);
      match dealerHand with
      | None => mret tt
      | Some dealerHand =>
          match handEntropy dealerHand with
          | None => mret tt
          | Some (initHeight, initSalt) =>
              keys ← ofRes (handKeys secretShare epochId tableId handId initHeight initSalt);
              match keys with
              | None => mret tt
              | Some (xHand, yHand) =>
                  deck ← ofRes (decodeDeck (field dealerHand "deck"));
                  match (if pos <? 0 then None else deck !! Z.to_nat pos) with
                  | None => mret tt
                  | Some cipher =>
                      '(pubShare, proof) ← pubShareFor xHand yHand cipher.(ct_c1);
                      tryCatch (await (client.(dealerSubmitPubShare) me tableId handId pos pubShare proof))
                        (λ msg, if includes msg "already" || includes msg "duplicate" then mret tt else raise msg)
                  end
              end
          end
      end
  end.

(** ** beacon.ts *)

Definition BEACON_COMMIT_DOMAIN : string := "ocp/v1/beacon/commit".
Definition SALT_DOMAIN : string := "ocp/v1/beacon/salt/v1".

(** [writeBigUInt64LE] throws out of range. *)
Definition u64LE (n : Z) : res bytes :=
  let! _ := throw_if ((n <? 0) || (18446744073709551615 <? n)) "ERR_OUT_OF_RANGE"%string in Ok (u64le n).

Fixpoint lengthPrefixed (parts : list bytes) : res bytes :=
  match parts with
  | [] => Ok []
  | p :: parts => let! l := u32le (Int (Z.of_nat (length p))) in let! rest := lengthPrefixed parts in Ok (l ++ p ++ rest)
  end.

Definition hashDomain (domain : string) (parts : list bytes) : res bytes :=
  let! l := lengthPrefixed parts in Ok (sha256 (utf8 domain ++ l)).

Definition computeCommit (validator : string) (epochId : Z) (salt : bytes) : res bytes :=
  let! e := u64LE epochId in hashDomain BEACON_COMMIT_DOMAIN [utf8 validator; e; salt].

(** [createHmac("sha256", key)] over [msg]. *)
Definition hmac_sha256 (key msg : bytes) : bytes :=
  let k := if (64 <? length key)%nat then sha256 key else key in
  let k := k ++ replicate (64 - length k) 0 in
  sha256 (map (Z.lxor 92) k ++ sha256 (map (Z.lxor 54) k ++ msg)).

Definition deriveSalt (passphrase validator : string) (epochId : Z) : res bytes :=
  let! e := u64LE epochId in Ok (hmac_sha256 (utf8 passphrase) (utf8 SALT_DOMAIN ++ utf8 validator ++ e)).

(** The epoch the beacon is for: the one after the current. *)
Definition targetEpoch (epoch : option json) : res Z :=
  match epoch with
  | None => Ok 1
  | Some epoch => rmap (λ e, e + 1) (toBig (orElse (field epoch "epoch_id") (orElse (field epoch "epochId") (JStr "0"))))
  end.

Definition maybeBeaconParticipate : E unit :=
  epoch ← orDefault None (await client.(getDealerEpoch));
  target ← ofRes (targetEpoch epoch);
  salt ← ofRes (deriveSalt config.(statePassphrase) me target);
  commit ← ofRes (computeCommit me target salt);
  tolerate (await (client.(dealerBeaconCommit) me target commit));;
  tolerate (await (client.(dealerBeaconReveal) me target salt)).
End handlers.
End shares.

End DealerShares.
