(* ===== verification/DealerDaemon.v ===== *)
(** * The daemon: [apps/dealer-daemon/src/daemon.ts], [handlers/automation.ts]

    Every interval the daemon reads the epoch and the key generation from the
    chain and does what is due: take part in the beacon, begin an epoch, go
    through the phases of the key generation, and for every table start a hand,
    shuffle, publish shares, and enforce timeouts.  Logging is left out; a call
    whose failure is only logged is [tolerate]d. *)
From stdpp Require Import base option list strings gmap.
From Stdlib Require Import ZArith Lia Ascii Sorting.Sorted.
From S2P Require Import Prelude OcpBytes OcpGroup OcpTranscript OcpProofs Json Monads DealerTypes DealerDkg DealerShares.
Import Bytes Group Hashing Proofs Json ExceptM DealerTypes Dkg DealerShares.

Module Daemon.

(** ** Reading the table *)

(** The phases the daemon distinguishes; any other keeps its name. *)
Definition normalizePhase (raw : json) : string :=
  let s := lower (toStr (orElse raw (JStr EmptyString))) in
  let clean := if String.prefix "hand_phase_" s then String.substring 11 (String.length s - 11) s else s in
  if bool_decide (clean = "await_flop") then "awaitFlop"
  else if bool_decide (clean = "await_turn") then "awaitTurn"
  else if bool_decide (clean = "await_river") then "awaitRiver"
  else if bool_decide (clean = "await_showdown") then "awaitShowdown"
  else clean.

Definition isStreetReveal (phase : string) : bool :=
  bool_decide (phase = "awaitFlop") || bool_decide (phase = "awaitTurn") || bool_decide (phase = "awaitRiver").

(** A position that a card has: not negative, not the mark for none. *)
Definition goodPos (p : option Z) : option Z :=
  match p with Some p => if (0 <=? p) && negb (p =? 255) then Some p else None | None => None end.

(** The positions of the hole cards of the players still in the hand. *)
Definition eligiblePositions (inHand folded : list json) (holePos : list Z) : list Z :=
  flat_map (λ seat,
    if negb (truthy (rd JUndefined inHand seat)) || truthy (rd JUndefined folded seat) then []
    else omap (λ i, goodPos (holePos !! i)) [(seat * 2)%nat; (seat * 2 + 1)%nat]) (seq 0 9).

Definition expectedRevealPos (table : json) : option Z :=
  let h := field table "hand" in
  let dh := field h "dealer" in
  if negb (truthy h) || negb (truthy dh) then None
  else if negb (truthy (pick dh ["finalized"; "deckFinalized"; "deck_finalized"])) then None
  else
    let phase := normalizePhase (field h "phase") in
    match goodPos (asNumber (pick dh ["revealPos"; "reveal_pos"])) with
    | Some pos => Some pos
    | None =>
        if isStreetReveal phase then
          Some (default 0 (asNumber (field dh "cursor")) + Z.of_nat (length (elems (field h "board"))))
        else if bool_decide (phase = "awaitShowdown") then
          let holePos := omap asNumber (elems (pick dh ["holePos"; "hole_pos"])) in
          if negb (length holePos =? 18)%nat then None
          else
            let reveals := omap (λ r, asNumber (field r "pos")) (elems (field dh "reveals")) in
            let eligible := eligiblePositions (elems (pick h ["inHand"; "in_hand"])) (elems (field h "folded")) holePos in
            List.find (λ p, negb (existsb (Z.eqb p) reveals)) (sort_by Z.leb eligible)
        else None
    end.

Section daemon.
Context {P : Type} `{RistrettoOps P} `{HashOps} `{AeadOps} (base64 : list ascii → bytes).

(** The members of an epoch, with the key each has published, if any. *)
Definition parseEphemeral (ephRaw : json) : option bytes :=
  let nonEmpty bs := if (length bs =? 0)%nat then None else Some bs in
  match ephRaw with
  | JBytes bs => nonEmpty bs
  | JArr l => nonEmpty (bytesOfNumbers l)
  | JStr s =>
      if bool_decide (s = EmptyString) then None
      else
        let body := strip0x (String.list_ascii_of_string s) in
        if isHex body && (length body =? 64)%nat then Some (hexBytes body) else nonEmpty (base64 (String.list_ascii_of_string s))
  | JObj fields => if nullish (field ephRaw "length") then None else nonEmpty (bytesOfNumbers (map snd fields))
  | _ => None
  end.

Definition parseMember (m : json) : option Member :=
  let validator := toStr (orElse (field m "validator") (orElse (field m "Validator") (orElse (field m "validatorId") (JStr EmptyString)))) in
  match asNumber (orElse (field m "index") (field m "Index")) with
  | Some index =>
      if bool_decide (validator = EmptyString) then None
      else Some (mkMember validator index
                   (parseEphemeral (orElse (field m "ephemeralPubkey") (orElse (field m "ephemeral_pubkey") (field m "EphemeralPubkey")))))
  | None => None
  end.

Definition parseMembersFromEpoch (epoch : json) : list Member :=
  omap parseMember (elems (orElse (field epoch "members") (field epoch "Members"))).

Context {D W : Type} `{EpochStore D} (client : DealerClient W) (config : DealerDaemonConfig) (fuel : nat).

Abbreviation E := (X (Env D W) string).

(** ** automation.ts *)

Definition maybeBeginEpoch : E bool :=
  if negb config.(autoBeginEpoch) then mret false
  else
    epoch ← orDefault None (await client.(getDealerEpoch));
    match epoch with
    | Some _ => mret false
    | None =>
        dkg ← orDefault None (await client.(getDealerDkg));
        match dkg with
        | Some _ => mret false
        | None => attempt (await (client.(dealerBeginEpoch) config.(committeeSize) config.(threshold)))
        end
    end.

Definition maybeFinalizeEpoch (epochId : Z) : E bool :=
  if negb config.(autoFinalize) then mret false else attempt (await (client.(dealerFinalizeEpoch) epochId)).

Definition maybeStartAndInitHand (tableId : string) (epochId : Z) : E bool :=
  if negb config.(autoInitHand) then mret false
  else
    table ← orDefault None (await (client.(getTable) tableId));
    match table with
    | None => mret false
    | Some table =>
        if truthy (pick (field table "hand") ["handId"; "hand_id"]%string) then mret false
        else if (length (List.filter (λ s, truthy (field s "player")) (elems (field table "seats"))) <? 2)%nat then mret false
        else
          attempt (
            await (client.(pokerStartHand) tableId);;
            updatedTable ← orDefault None (await (client.(getTable) tableId));
            let newHandId := toStr (orElse (pick (field (default JUndefined updatedTable) "hand") ["handId"; "hand_id"]%string) (JStr "1")) in
            await (client.(dealerInitHand) tableId newHandId epochId))
    end.

Definition maybeFinalizeDeck (tableId handId : string) : E bool :=
  if negb config.(autoFinalize) then mret false else attempt (await (client.(dealerFinalizeDeck) tableId handId)).
Definition maybeFinalizeReveal (tableId handId : string) (pos : Z) : E bool :=
  if negb config.(autoFinalize) then mret false else attempt (await (client.(dealerFinalizeReveal) tableId handId pos)).
Definition maybeTick (tableId : string) : E bool := attempt (await (client.(pokerTick) tableId)).
Definition maybeDealerTimeout (tableId handId : string) : E bool := attempt (await (client.(dealerTimeout) tableId handId)).

(** ** daemon.ts *)

(** What is due in the phase of the hand. *)
Definition handlePhase (table : json) (tableId handId : string) (epochId : Z) (epochMembers : list Member) : E unit :=
  let hand := field table "hand" in
  let phase := normalizePhase (field hand "phase") in
  let dealer := orElse (field hand "dealer") (field hand "dealerState") in
  let deckFinalized := truthy (pick dealer ["deckFinalized"; "deck_finalized"]%string) in
  if bool_decide (phase = "shuffle"%string) && negb deckFinalized then
    if default 0 (asNumber (pick dealer ["epochId"; "epoch_id"]%string)) =? 0 then
      tolerate (await (client.(dealerInitHand) tableId handId epochId))
    else
      tolerate (handleShuffle (P := P) base64 client config fuel tableId handId epochMembers);;
      maybeFinalizeDeck tableId handId;;
      mret tt
  else if deckFinalized && (bool_decide (phase = "shuffle"%string) || bool_decide (phase = "betting"%string)) then
    tolerate (handleEncShares (P := P) base64 client config tableId handId epochId)
  else if isStreetReveal phase || bool_decide (phase = "awaitShowdown"%string) then
    match expectedRevealPos table with
    | None => mret tt
    | Some pos =>
        tolerate (handlePubShare (P := P) base64 client config tableId handId epochId pos);;
        maybeFinalizeReveal tableId handId pos;;
        mret tt
    end
  else mret tt.

Definition processTable (tableId : string) (epochId : Z) (epochMembers : list Member) : E unit :=
  table ← orDefault None (await (client.(getTable) tableId));
  match table with
  | None => mret tt
  | Some table =>
      let hand := field table "hand" in
      let handId := toStr (orElse (pick hand ["handId"; "hand_id"]%string) (JStr EmptyString)) in
      if negb (truthy hand) || bool_decide (handId = EmptyString) then
        maybeStartAndInitHand tableId epochId;; mret tt
      else
        handlePhase table tableId handId epochId epochMembers;;
        (if bool_decide (normalizePhase (field hand "phase") = "betting"%string) then maybeTick tableId;; mret tt else mret tt);;
        maybeDealerTimeout tableId handId;;
        mret tt
  end.

(** The phases of the key generation, each on the state the chain is in after
    the one before. *)
Definition runDkg (dkg : json) : E unit :=
  let dkgMembers := parseMembersFromEpoch dkg in
  let epochId := default 0 (asNumber (pick dkg ["epochId"; "epoch_id"]%string)) in
  if (length dkgMembers =? 0)%nat || (epochId <=? 0) then mret tt
  else
    tolerate (handleDkgCommit (P := P) client config epochId dkgMembers);;
    dkgAfterCommit ← orDefault None (await client.(getDealerDkg));
    match dkgAfterCommit with
    | None => mret tt
    | Some dkgAfterCommit =>
        tolerate (handleDkgEncryptedShares (P := P) base64 client config epochId (parseMembersFromEpoch dkgAfterCommit) dkgAfterCommit);;
        tolerate (handleDkgComplaints client config epochId dkgMembers dkgAfterCommit);;
        dkgAfterComplaints ← orDefault None (await client.(getDealerDkg));
        match dkgAfterComplaints with
        | None => mret tt
        | Some dkgAfterComplaints =>
            tolerate (handleDkgReveals client config epochId dkgMembers dkgAfterComplaints);;
            dkgAfterReveals ← orDefault None (await client.(getDealerDkg));
            match dkgAfterReveals with
            | None => mret tt
            | Some dkgAfterReveals =>
                aggregated ← orDefault false (handleDkgAggregate (P := P) base64 client config epochId dkgMembers dkgAfterReveals);
                if aggregated : bool then tolerate (maybeFinalizeEpoch epochId;; mret tt) else mret tt
            end
        end
    end.

Definition pollOnce : E unit :=
  epoch ← orDefault None (await client.(getDealerEpoch));
  dkg ← orDefault None (await client.(getDealerDkg));
  maybeBeaconParticipate client config;;
  match epoch, dkg with
  | None, None => maybeBeginEpoch;; mret tt
  | _, Some dkg => runDkg dkg
  | Some epoch, None =>
      let epochId := default 0 (asNumber (pick epoch ["epochId"; "epoch_id"; "EpochId"]%string)) in
      let epochMembers := parseMembersFromEpoch epoch in
      storeLoad epochId;;
      tableIds ← orDefault [] (await client.(getTables));
      forEach tableIds (λ tableId, tolerate (processTable tableId epochId epochMembers))
  end.

(** The instance: whether a poll is under way, and the interval that is set. *)
Record DealerDaemon := mkDaemon { processing : bool; pollTimer : option Z }.

Definition poll (s : DealerDaemon * Env D W) : DealerDaemon * Env D W :=
  if s.1.(processing) then s
  else (mkDaemon false s.1.(pollTimer), (tolerate pollOnce s.2).2).

Definition startPolling (s : DealerDaemon * Env D W) : DealerDaemon * Env D W :=
  let s := poll s in (mkDaemon s.1.(processing) (Some config.(pollIntervalMs)), s.2).
Definition start : DealerDaemon * Env D W → DealerDaemon * Env D W := startPolling.
Definition stop (s : DealerDaemon * Env D W) : DealerDaemon * Env D W := (mkDaemon s.1.(processing) None, s.2).
End daemon.

End Daemon.

(** ** The daemon's choice of the next card to reveal *)
Import Json ExceptM DealerTypes Daemon.

Module DaemonThms.

(** A hole card of a seat that is still in the hand. *)
Definition live_card (inHand folded : list json) (holePos : list Z) (p : Z) : Prop :=
  ∃ seat i, (seat < 9)%nat ∧ (i < 2)%nat ∧ truthy (rd JUndefined inHand seat) = true ∧ truthy (rd JUndefined folded seat) = false ∧
    holePos !! (seat * 2 + i)%nat = Some p ∧ 0 <= p ∧ p ≠ 255.

Lemma goodPos_some o p : goodPos o = Some p ↔ o = Some p ∧ 0 <= p ∧ p ≠ 255.
Proof.
  unfold goodPos. destruct o as [x|]; [|split; [done|by intros [? _]]]. destruct ((0 <=? x) && negb (x =? 255)) eqn:E; b2p.
  - split; [intros [= ->]; done|by intros [[= ->] _]].
  - split; [done|]. intros ([= ->] & ? & ?). apply andb_false_iff in E as [E|E]; b2p; [lia|done].
Qed.

Lemma eligible_spec inHand folded holePos p : p ∈ eligiblePositions inHand folded holePos ↔ live_card inHand folded holePos p.
Proof.
  unfold eligiblePositions, live_card. rewrite list_elem_of_In, in_flat_map. setoid_rewrite in_seq. split.
  - intros (seat & Hs & Hp). destruct (truthy (rd JUndefined inHand seat)) eqn:E1; [|done]. destruct (truthy (rd JUndefined folded seat)) eqn:E2; [done|].
    cbn [negb orb] in Hp. apply list_elem_of_In, list_elem_of_omap in Hp as (x & Hx & Hg). apply goodPos_some in Hg as (Hl & H0 & H255).
    apply elem_of_cons in Hx as [->|Hx]; [exists seat, 0%nat|apply list_elem_of_singleton in Hx as ->; exists seat, 1%nat];
      repeat split; try lia; try done. by rewrite Nat.add_0_r.
  - intros (seat & i & Hs & Hi & E1 & E2 & Hl & H0 & H255). exists seat. split; [lia|]. rewrite E1, E2. cbn [negb orb].
    apply list_elem_of_In, list_elem_of_omap. exists (seat * 2 + i)%nat. split; [|by apply goodPos_some].
    destruct i as [|[|i]]; [rewrite Nat.add_0_r; left|right; left|lia].
Qed.

Lemma find_sorted (f : Z → bool) l : Sorted Z.le l →
  match List.find f l with Some p => p ∈ l ∧ f p = true ∧ ∀ p', p' ∈ l → f p' = true → p <= p' | None => ∀ p, p ∈ l → f p = false end.
Proof.
  intros Hs. apply Sorted_StronglySorted in Hs; [|intros ???; lia]. induction Hs as [|x l _ IH Hx]; cbn [List.find]; [by intros p ?%elem_of_nil|].
  destruct (f x) eqn:Ex.
  - split; [by left|]. split; [done|]. intros p' [->|Hp']%elem_of_cons _; [lia|]. by apply (proj1 (Forall_forall _ _) Hx).
  - destruct (List.find f l) as [p|].
    + destruct IH as (Hp & Hf & Hmin). split; [by right|]. split; [done|]. intros p' [->|Hp']%elem_of_cons Hf'; [congruence|by apply Hmin].
    + intros p [->|Hp]%elem_of_cons; [done|by apply IH].
Qed.

(** The card the daemon helps to reveal at showdown, when the chain gives no
    hint: the smallest deck position of a hole card of a seat still in the hand
    that has not been revealed; none when all of them have been. *)
Theorem showdown_reveal table :
  let h := field table "hand" in
  let dh := field h "dealer" in
  let holePos := omap asNumber (elems (pick dh ["holePos"; "hole_pos"]%string)) in
  let live := live_card (elems (pick h ["inHand"; "in_hand"]%string)) (elems (field h "folded")) holePos in
  let revealed p := p ∈ omap (λ r, asNumber (field r "pos")) (elems (field dh "reveals")) in
  truthy (pick dh ["finalized"; "deckFinalized"; "deck_finalized"]%string) = true →
  goodPos (asNumber (pick dh ["revealPos"; "reveal_pos"]%string)) = None →
  normalizePhase (field h "phase") = "awaitShowdown"%string → length holePos = 18%nat →
  match expectedRevealPos table with
  | Some p => live p ∧ ¬ revealed p ∧ ∀ p', live p' → ¬ revealed p' → p <= p'
  | None => ∀ p, live p → revealed p
  end.
Proof.
  intros h dh holePos live revealed Hfin Hhint Hphase Hlen. unfold expectedRevealPos. fold h. fold dh.
  assert (Hdh : truthy dh = true ∧ truthy h = true).
  { unfold dh in *. destruct (field h "dealer") eqn:Ed; try done. split; [done|]. by destruct h. }
  destruct Hdh as [-> ->]. cbn [negb orb]. rewrite Hfin, Hhint, Hphase. cbn [negb]. change (isStreetReveal "awaitShowdown") with false. cbv iota.
  rewrite bool_decide_true by done. fold holePos. rewrite Hlen. cbn [Nat.eqb negb]. cbv zeta.
  set (reveals := omap _ (elems (field dh "reveals"))). set (elig := eligiblePositions _ _ _).
  pose proof (find_sorted (λ p, negb (existsb (Z.eqb p) reveals)) (sort_by Z.leb elig) (sort_asc_sorted elig)) as Hfind.
  assert (Hrev : ∀ p, negb (existsb (Z.eqb p) reveals) = true ↔ ¬ revealed p).
  { intros p. rewrite negb_true_iff, <-not_true_iff_false, existsb_exists. unfold revealed. fold reveals. rewrite list_elem_of_In. split.
    - intros Hn Hin. apply Hn. exists p. by rewrite Z.eqb_refl.
    - intros Hn (x & Hx & E). b2p. by subst. }
  assert (Hin : ∀ p, p ∈ sort_by Z.leb elig ↔ live p) by (intros p; rewrite (sort_by_perm Z.leb elig); apply eligible_spec).
  destruct (List.find _ _) as [p|].
  - destruct Hfind as (Hp & Hf & Hmin). rewrite Hin in Hp. apply Hrev in Hf. split; [done|]. split; [done|]. intros p' Hp' Hr. apply Hmin; [by apply Hin|by apply Hrev].
  - intros p Hp. specialize (Hfind p (proj2 (Hin p) Hp)). destruct (decide (p ∈ reveals)) as [|Hn]; [done|]. apply Hrev in Hn. congruence.
Qed.

(** Seats 0 and 2 are in the hand, seat 0's first card has been revealed. *)
Definition showdown_table : json := JObj [("hand"%string, JObj [
  ("phase"%string, JStr "HAND_PHASE_AWAIT_SHOWDOWN"); ("inHand"%string, JArr [JBool true; JBool true; JBool true]); ("folded"%string, JArr [JBool false; JBool true]);
  ("dealer"%string, JObj [("finalized"%string, JBool true); ("holePos"%string, JArr ([JNum 0; JNum 6; JNum 1; JNum 7; JNum 2; JNum 8] ++ repeat (JNum 255) 12));
                          ("reveals"%string, JArr [JObj [("pos"%string, JNum 0)]])])])].

Lemma showdown_reveal_witness :
  expectedRevealPos showdown_table = Some 2 ∧
  live_card [JBool true; JBool true; JBool true] [JBool false; JBool true] ([0; 6; 1; 7; 2; 8] ++ repeat 255 12) 2.
Proof.
  pose proof (showdown_reveal showdown_table eq_refl eq_refl eq_refl eq_refl) as Hs.
  assert (E : expectedRevealPos showdown_table = Some 2) by (vm_compute; reflexivity).
  rewrite E in Hs. split; [exact E|]. exact (proj1 Hs).
Defined.

End DaemonThms.
