(* ===== verification/DealerLemmas.v ===== *)
(** * Lemmas on what the dealer's handlers share

    Polynomials are evaluated modulo the order; scalars survive their trip
    through the hexadecimal strings of the store; the store, the client and the
    random scalars as steps of a computation. *)
From stdpp Require Import base option list strings gmap.
From Stdlib Require Import ZArith Lia Ascii.
From S2P Require Import Prelude OcpBytes OcpGroup OcpTranscript OcpProofs OcpProofsThms Json BotHoleThms Monads DealerTypes DealerDkg.
Import Bytes Group Hashing Proofs ProofsThms HoleThms Json ExceptM DealerTypes Dkg.

Module DealerLemmas.

(** ** Evaluation *)

Lemma modQ_dkg_mod n : modQ n = n mod q.
Proof.
  pose proof (scalarMod_mod n) as H. unfold scalarMod in H. unfold modQ. cbv zeta in *.
  destruct (0 <=? Z.rem n q) eqn:E1, (Z.rem n q <? 0) eqn:E2; b2p; lia.
Qed.

Lemma modQ_cong n : cong (modQ n) n.
Proof. split. rewrite modQ_dkg_mod. apply Zmod_mod. Qed.

Lemma modQ_canonical n : canonical (modQ n).
Proof. rewrite modQ_dkg_mod. apply Z.mod_pos_bound, q_pos. Qed.

Lemma modQ_id n : canonical n → modQ n = n.
Proof. intros Hn. rewrite modQ_dkg_mod. by apply Z.mod_small. Qed.

Lemma evalStep_ok x coeffs acc pow :
  cong (foldl (evalStep x) (acc, pow) coeffs).1 (acc + pow * poly_value x coeffs).
Proof.
  revert acc pow. induction coeffs as [|a coeffs IH]; intros acc pow; cbn [foldl evalStep].
  - cbn. by replace (acc + pow * 0) with acc by lia.
  - rewrite IH, poly_value_cons, !modQ_cong. by replace (acc + a * pow + pow * x * poly_value x coeffs) with (acc + pow * (a + x * poly_value x coeffs)) by lia.
Qed.

(** The loop over the powers computes the value of the polynomial. *)
Lemma evalPoly_value coeffs x : evalPoly coeffs x = poly_value x coeffs mod q.
Proof.
  unfold evalPoly. rewrite modQ_dkg_mod. pose proof (evalStep_ok x coeffs 0 1) as [E]. rewrite E. f_equal. lia.
Qed.

Lemma evalPoly_canonical coeffs x : canonical (evalPoly coeffs x).
Proof. apply modQ_canonical. Qed.

(** ** Hexadecimal *)

Lemma hexDigit_ok d : 0 <= d < 16 → digitValue (hexDigit d) = Some d ∧ isSpace (hexDigit d) = false.
Proof.
  intros Hd. assert (Hall : forallb (λ i, bool_decide (digitValue (hexDigit (Z.of_nat i)) = Some (Z.of_nat i)) && negb (isSpace (hexDigit (Z.of_nat i)))) (seq 0 16) = true) by (vm_compute; reflexivity).
  rewrite forallb_forall in Hall. specialize (Hall (Z.to_nat d)). rewrite in_seq, Z2Nat.id in Hall by lia.
  apply andb_true_iff in Hall as [H1 H2]; [|lia]. apply bool_decide_eq_true in H1. by apply negb_true_iff in H2.
Qed.

Lemma allDigits_app base acc l1 l2 : allDigits base acc (l1 ++ l2) = a ← allDigits base acc l1; allDigits base a l2.
Proof.
  revert acc. induction l1 as [|c l1 IH]; intros acc; [done|]. cbn [app allDigits]. destruct (digitValue c) as [d|]; [|done].
  destruct (d <? base); [apply IH|done].
Qed.

Lemma hexDigits_ok fuel n acc : 0 <= n < 16 ^ Z.of_nat fuel →
  ∃ ds, hexDigits fuel n acc = ds ++ acc ∧ (fuel ≠ 0%nat → ds ≠ []) ∧ Forall (λ c, isSpace c = false) ds ∧ allDigits 16 0 ds = Some n.
Proof.
  revert n acc. induction fuel as [|fuel IH]; intros n acc Hn; cbn [hexDigits].
  - exists []. split; [done|]. split; [done|]. split; [constructor|]. simpl in *. f_equal. lia.
  - pose proof (Z.mod_pos_bound n 16 eq_refl) as Hm. destruct (hexDigit_ok (n mod 16) Hm) as [Hv Hs].
    destruct (n <? 16) eqn:E; b2p.
    + exists [hexDigit (n mod 16)]. split; [done|]. split; [done|]. split; [by constructor|]. cbn [allDigits]. rewrite Hv.
      rewrite (proj2 (Z.ltb_lt _ 16)) by lia. rewrite Z.mod_small by lia. done.
    + rewrite Nat2Z.inj_succ, Z.pow_succ_r in Hn by lia.
      destruct (IH (n / 16) (hexDigit (n mod 16) :: acc)) as (ds & -> & _ & Hf & Hd); [split; [apply Z.div_pos; lia|apply Z.div_lt_upper_bound; lia]|].
      exists (ds ++ [hexDigit (n mod 16)]). rewrite <-app_assoc. split; [done|]. split; [by destruct ds|].
      split; [apply Forall_app; split; [done|by constructor]|]. rewrite allDigits_app, Hd. cbn [mbind option_bind allDigits]. rewrite Hv.
      rewrite (proj2 (Z.ltb_lt _ 16)) by lia. f_equal. pose proof (Z.div_mod n 16 ltac:(lia)). lia.
Qed.

Lemma skipSpace_id l : (∀ c l', l = c :: l' → isSpace c = false) → skipSpace l = l.
Proof. destruct l as [|c l]; [done|]. intros Hl. cbn [skipSpace]. by rewrite (Hl c l eq_refl). Qed.

Lemma trim_id l : Forall (λ c, isSpace c = false) l → trim l = l.
Proof.
  intros Hl. unfold trim, trimStart. rewrite (skipSpace_id l); [|by intros c l' ->; inversion Hl].
  rewrite skipSpace_id; [apply rev_involutive|]. intros c l' E. apply (proj1 (List.Forall_forall _ _) Hl c).
  apply in_rev. rewrite E. by left.
Qed.

(** [n.toString(16)] parsed back. *)
Lemma fromHex_toHex n : 0 <= n → fromHexString (toHex n) = Ok n.
Proof.
  intros Hn. destruct (hexDigits_ok (S (Z.to_nat (Z.log2 n))) n []) as (ds & E & Hne & Hs & Hd).
  { split; [done|]. rewrite Nat2Z.inj_succ, Z2Nat.id by apply Z.log2_nonneg.
    destruct (decide (n = 0)) as [->|]; [by apply Z.pow_pos_nonneg; [|pose proof (Z.log2_nonneg 0); lia]|].
    pose proof (Z.log2_spec n ltac:(lia)). pose proof (Z.log2_nonneg n).
    eapply Z.lt_le_trans; [apply H|]. by apply Z.pow_le_mono_l. }
  unfold fromHexString, toHex. rewrite E, app_nil_r. unfold stringToBigInt. cbn [String.list_ascii_of_string]. rewrite string_list_ascii.
  rewrite trim_id by (repeat constructor; done). destruct ds as [|d ds]; [by destruct Hne|]. unfold someDigits. by rewrite Hd.
Qed.

Lemma toHex_zero n : 0 <= n → toHex n = "0"%string → n = 0.
Proof. intros Hn E. pose proof (fromHex_toHex n Hn) as H. rewrite E in H. vm_compute in H. by injection H. Qed.

Lemma fromHex_toHexs l : Forall (λ n, 0 <= n) l → mapR fromHexString (map toHex l) = Ok l.
Proof. induction 1 as [|n l Hn _ IH]; [done|]. cbn [map mapR]. by rewrite fromHex_toHex, IH. Qed.

Lemma mapR_length {A B E} (f : A → result E B) l k : mapR f l = Ok k → length k = length l.
Proof. intros E1. symmetry. eapply Forall2_length. by apply (mapR_Forall2 f). Qed.

(** ** The scalars that the random blocks give *)

Definition scalarOf (b : bytes) : option Scalar :=
  match scalarFromBytesModOrder b with Ok s => if s =? 0 then None else Some s | Err _ => None end.

(** The environment has these non-zero scalars to come. *)
Record supply {D W} (l : list Scalar) (s : Env D W) : Prop := {
  supply_blocks : Forall (λ b : bytes, b ≠ []) s.(e_random);
  supply_scalars : omap scalarOf s.(e_random) = l
}.

Section env.
Context {D W : Type} `{EpochStore D}.
Implicit Types (s : Env D W).

Lemma nonzeroLoop_ok blocks k l : Forall (λ b : bytes, b ≠ []) blocks → omap scalarOf blocks = k :: l →
  ∃ blocks', nonzeroLoop blocks = (Ok k, blocks') ∧ Forall (λ b : bytes, b ≠ []) blocks' ∧ omap scalarOf blocks' = l ∧ nonzero k.
Proof.
  induction 1 as [|b blocks Hb Hblocks IH]; [done|]. cbn [omap list_omap nonzeroLoop]. unfold scalarOf at 1, scalarFromBytesModOrder.
  rewrite (proj2 (Nat.eqb_neq (length b) 0)) by by destruct b. cbn [throw_if rbind].
  pose proof (scalarMod_canonical (bytesToBigintLE b)) as Hc. destruct (_ =? 0) eqn:E; cbn [negb]; b2p; [exact IH|].
  intros [= <- <-]. exists blocks. split; [done|]. split; [done|]. split; [done|]. unfold canonical, nonzero in *. lia.
Qed.

Lemma nonzeroScalar_ok k l s : supply (k :: l) s →
  ∃ blocks, nonzeroScalar s = (Ok k, mkEnv s.(e_store) s.(e_world) blocks) ∧ supply l (mkEnv s.(e_store) s.(e_world) blocks) ∧ nonzero k.
Proof.
  intros [Hb Hs]. destruct (nonzeroLoop_ok _ _ _ Hb Hs) as (blocks & E & Hf & Hl & Hk). exists blocks. unfold nonzeroScalar. rewrite E.
  split; [done|]. split; [by split|done].
Qed.

Lemma supply_nonzero l s : supply l s → Forall nonzero l.
Proof.
  intros [_ <-]. generalize (e_random s). intros bs. induction bs as [|b bs IH]; [constructor|]. cbn [omap list_omap].
  unfold scalarOf at 1. destruct (scalarFromBytesModOrder b) as [k|] eqn:E; [|done]. destruct (k =? 0) eqn:Ek; b2p; [done|].
  constructor; [|done]. unfold scalarFromBytesModOrder in E. apply rbind_ok in E as (u & _ & E). injection E as <-.
  pose proof (scalarMod_canonical (bytesToBigintLE b)). unfold canonical, nonzero in *. lia.
Qed.

Lemma repeat_scalars n l l' s : length l = n → supply (l ++ l') s →
  ∃ blocks, repeatM n nonzeroScalar s = (Ok l, mkEnv s.(e_store) s.(e_world) blocks) ∧ supply l' (mkEnv s.(e_store) s.(e_world) blocks).
Proof.
  intros <-. revert s. induction l as [|k l IH]; intros s Hs; cbn [repeatM length app] in *.
  - exists s.(e_random). split; [by destruct s|by destruct s].
  - destruct (nonzeroScalar_ok k _ s Hs) as (b1 & E1 & Hs1 & _). erewrite bind_ok; [|exact E1].
    destruct (IH _ Hs1) as (b2 & E2 & Hs2). cbn [e_store e_world] in *. exists b2. erewrite bind_ok; [|exact E2]. by split.
Qed.

Lemma await_ok {A} (c : call W A) a w s : c s.(e_world) = (Ok a, w) → await c s = (Ok a, mkEnv s.(e_store) w s.(e_random)).
Proof. intros E. unfold await. by rewrite E. Qed.

Context `{!EpochStoreLaws D}.

Lemma storeLoad_ok e s : st_ok s.(e_store) →
  ∃ d', storeLoad e s = (Ok (st_known s.(e_store) e), mkEnv d' s.(e_world) s.(e_random)) ∧ st_ok d' ∧
    ∀ e', st_known d' e' = st_known s.(e_store) e'.
Proof. intros Hs. destruct (st_load_known _ e Hs) as (d' & E & Hd). exists d'. unfold storeLoad. by rewrite E. Qed.

Lemma storeSave_ok sec s : st_ok s.(e_store) →
  ∃ d', storeSave sec s = (Ok tt, mkEnv d' s.(e_world) s.(e_random)) ∧ st_ok d' ∧
    ∀ e', st_known d' e' = if decide (e' = sec.(epochId)) then Some sec else st_known s.(e_store) e'.
Proof. intros Hs. destruct (st_save_known _ sec Hs) as (d' & E & Hd). exists d'. unfold storeSave. by rewrite E. Qed.

Lemma storeHas_ok e s : st_ok s.(e_store) → storeHas e s = (Ok (bool_decide (is_Some (st_known s.(e_store) e))), s).
Proof. intros Hs. unfold storeHas, read. by rewrite st_has_known. Qed.
End env.

End DealerLemmas.

(** ** A chain that accepts everything, and a store in memory

    They instantiate the client and the store in the witnesses of the dealer's
    theorems: the chain answers every query with a fixed value and keeps what
    is posted, the store is a finite map. *)
Import Bytes Json ExceptM DealerTypes.

Module DealerToy.

Record world := mkWorld {
  t_dkg : option json; t_table : option json; t_hand : option json;
  t_commits : list (string * Z * list bytes * bytes);
  t_shares : list (string * Z * Z * bytes * bytes * bytes * bytes);
  t_missing : list (string * Z * string);
  t_reveals : list (string * Z * json * bytes)
}.

Definition silent : call world unit := λ w, (Ok tt, w).

Definition toyClient : DealerClient world := {|
  getDealerEpoch := λ w, (Ok None, w);
  getDealerDkg := λ w, (Ok w.(t_dkg), w);
  getTables := λ w, (Ok ["1"%string], w);
  getTable := λ _ w, (Ok w.(t_table), w);
  getDealerHand := λ _ _ w, (Ok w.(t_hand), w);
  dealerBeaconCommit := λ _ _ _, silent;
  dealerBeaconReveal := λ _ _ _, silent;
  dealerBeginEpoch := λ _ _, silent;
  dealerFinalizeEpoch := λ _, silent;
  dealerDkgCommit := λ d e cs pk '(mkWorld a b c l1 l2 l3 l4), (Ok tt, mkWorld a b c (l1 ++ [(d, e, cs, pk)]) l2 l3 l4);
  dealerDkgEncryptedShare := λ d e j u v p ct '(mkWorld a b c l1 l2 l3 l4), (Ok tt, mkWorld a b c l1 (l2 ++ [(d, e, j, u, v, p, ct)]) l3 l4);
  dealerDkgComplaintMissing := λ m e d '(mkWorld a b c l1 l2 l3 l4), (Ok tt, mkWorld a b c l1 l2 (l3 ++ [(m, e, d)]) l4);
  dealerDkgComplaintAEADBad := λ _ _ _ _ _ _, silent;
  dealerDkgShareReveal := λ d e to share '(mkWorld a b c l1 l2 l3 l4), (Ok tt, mkWorld a b c l1 l2 l3 (l4 ++ [(d, e, to, share)]));
  dealerInitHand := λ _ _ _, silent;
  dealerSubmitShuffle := λ _ _ _ _ _, silent;
  dealerFinalizeDeck := λ _ _, silent;
  dealerSubmitEncShare := λ _ _ _ _ _ _ _, silent;
  dealerSubmitPubShare := λ _ _ _ _ _ _, silent;
  dealerFinalizeReveal := λ _ _ _, silent;
  dealerTimeout := λ _ _, silent;
  pokerStartHand := λ _, silent;
  pokerTick := λ _, silent
|}.

#[export] Instance toyStore : EpochStore (gmap Z EpochSecrets) := {
  st_has m e := bool_decide (is_Some (m !! e));
  st_load m e := (Ok (m !! e), m);
  st_save m s := (Ok tt, <[s.(epochId) := s]> m)
}.

#[export] Instance toyStoreLaws : EpochStoreLaws (gmap Z EpochSecrets).
Proof.
  refine {| st_ok := λ _ : gmap Z EpochSecrets, True; st_known := λ (m : gmap Z EpochSecrets) e, m !! e |}.
  - done.
  - intros m e _. by exists m.
  - intros m s _. exists (<[s.(epochId) := s]> m). do 2 (split; [done|]). intros e'. case_decide as E.
    + subst. by rewrite lookup_insert_eq.
    + by rewrite lookup_insert_ne.
Defined.

(** 32 bytes whose number is small. *)
Definition block (k : Z) : bytes := k :: replicate 63 0.
Definition toyConfig (addr : string) (t : nat) : DealerDaemonConfig := 
  mkDealerConfig addr (Some "words"%string) None "http://rpc" "http://lcd" "ocp" "0uchips" "/state" "secret" true true true 2000 3 t 1.

End DealerToy.
