(* ===== verification/DealerDkgThms.v ===== *)
(** * Correctness of the key generation's shares

    What one dealer encrypts for a member is what the member opens, with a proof
    the chain accepts; the committed polynomial is the one stored; and a share
    that decrypts to zero stops the aggregation for good. *)
From stdpp Require Import base option list strings gmap.
From Stdlib Require Import ZArith Lia Ascii.
From S2P Require Import Prelude OcpBytes OcpGroup OcpTranscript OcpProofs OcpProofsThms BotHoleThms Json Monads DealerTypes DealerDkg DealerLemmas.
Import Bytes Group Hashing Proofs ProofsThms HoleThms Json ExceptM DealerTypes Dkg DealerLemmas.

Module DkgThms.

Section thms.
Context {P : Type} `{RistrettoLaws P} `{HashOps} `{AeadLaws} `{!HashLaws} (base64 : list ascii → bytes).
Context {D W : Type} `{EpochStore D} (client : DealerClient W) (config : DealerDaemonConfig).
Implicit Types (u v pkR : P) (s : Env D W).

(** ** A proof that travels as bytes *)

#[local] Instance point_bytes_Proper : Proper ((≡) ==> (=)) (groupElementToBytes (P := P)).
Proof. intros a b. apply toRawBytes_Proper. Qed.

#[local] Instance dkgChallenge_Proper commitments j : Proper ((≡) ==> (≡) ==> (≡) ==> (≡) ==> (≡) ==> (≡) ==> (=)) (dkgChallenge (P := P) commitments j).
Proof.
  intros pk pk' Epk u u' Eu v v' Ev a1 a1' E1 a2 a2' E2 a3 a3' E3. unfold dkgChallenge, appendStatement.
  by rewrite (point_bytes_Proper _ _ Epk), (point_bytes_Proper _ _ Eu), (point_bytes_Proper _ _ Ev), (point_bytes_Proper _ _ E1), (point_bytes_Proper _ _ E2), (point_bytes_Proper _ _ E3).
Qed.

Lemma honest_proof_equiv A pk x r wx wr e (pf pf' : EncShareProof P) :
  pf'.(es_a1) ≡ pf.(es_a1) → pf'.(es_a2) ≡ pf.(es_a2) → pf'.(es_a3) ≡ pf.(es_a3) → pf'.(es_s1) = pf.(es_s1) → pf'.(es_sr) = pf.(es_sr) →
  honest_proof A pk x r wx wr e pf → honest_proof A pk x r wx wr e pf'.
Proof. intros E1 E2 E3 E4 E5 [Hc H1' H2' H3' H4' H5']. split; [done|by rewrite E1|by rewrite E2|by rewrite E3|by rewrite E4|by rewrite E5]. Qed.

Lemma decodeDkg_same bs (pf : EncShareProof P) : decodeEncShareProof bs = Ok pf → decodeDkgEncShareProof bs = Ok pf.
Proof. unfold decodeEncShareProof, decodeDkgEncShareProof. change DKG_ENC_SHARE_PROOF_BYTES with 160%nat. by destruct (_ =? 160)%nat. Qed.

(** What [dkgEncShareVerify] makes of the bytes: the points and the proof
    decode, the proof never fails, and it is accepted unless one of the two
    answers or the challenge is the scalar zero (which [multiply] refuses to
    multiply with: the verifier throws). *)
Definition verifier_accepts (commitments : list P) (j : Z) pkR (uB vB pfB : bytes) : Prop :=
  ∃ u v pf e, groupElementFromBytes uB = Ok u ∧ groupElementFromBytes vB = Ok v ∧ decodeDkgEncShareProof pfB = Ok pf ∧
    dkgChallenge commitments (Int j) pkR u v pf.(es_a1) pf.(es_a2) pf.(es_a3) = Ok e ∧
    (pf.(es_s1) ≠ 0 → pf.(es_sr) ≠ 0 → e ≠ 0 → dkgEncShareVerify commitments (Int j) pkR u v pf = Ok true) ∧
    ∀ b, dkgEncShareVerify commitments (Int j) pkR u v pf = Ok b → b = true.

(** ** Sending and opening a share *)

Context (commitments : list P) (coeffs : list Z).
Hypothesis commitments_ne : commitments ≠ [].
Hypothesis commitments_len : Z.of_nat (length commitments) < 2 ^ 31.
(** Feldman's commitments. *)
Hypothesis committed : Forall2 (λ (c : P) f, c ≡ zmul f BASE) commitments coeffs.

Lemma horner_committed j : horner j commitments ≡ zmul (poly_value j coeffs) BASE.
Proof.
  clear commitments_ne commitments_len. pose proof committed as HF. clear committed.
  induction HF as [|c f cs fs Hc _ IH]; [done|].
  cbn [horner poly_value foldr]. fold (horner j cs). fold (poly_value j fs). by rewrite zmul_add, zmul_mul, Hc, IH.
Qed.

(** The bytes sent carry a share that opens to the value of the polynomial,
    whichever representatives of the points the recipient decodes. *)
Definition opens_to (skR : Scalar) (uB vB pfB ct : bytes) (x : Z) : Prop :=
  ∃ u v, groupElementFromBytes (P := P) uB = Ok u ∧ groupElementFromBytes vB = Ok v ∧ openShare skR u v pfB ct = Ok (Some x).

Lemma mulBase_ok k : nonzero k → ∃ p : P, mulBase k = Ok p ∧ p ≡ zmul k BASE.
Proof. apply mulPoint_total. Qed.

(** The verifier accepts the bytes of an honest proof. *)
Lemma honest_bytes_accepted j pkR u v (x r ws wr e : Scalar) (pf : EncShareProof P) :
  valid_index j → share_statement (zmul (poly_value j coeffs) BASE) BASE pkR u v x r →
  dkgChallenge commitments (Int j) pkR u v pf.(es_a1) pf.(es_a2) pf.(es_a3) = Ok e →
  honest_proof BASE pkR x r ws wr e pf →
  ∃ pfB, encodeDkgEncShareProof pf = Ok pfB ∧
    verifier_accepts commitments j pkR (groupElementToBytes u) (groupElementToBytes v) pfB.
Proof.
  intros Hj (HX & Hu & Hv) Ee Hpf. pose proof Hpf as [He Ha1 Ha2 Ha3 Hs1 Hsr].
  assert (Hcs1 : canonical pf.(es_s1)) by (rewrite Hs1; apply scalarAdd_canonical).
  assert (Hcsr : canonical pf.(es_sr)) by (rewrite Hsr; apply scalarAdd_canonical).
  destruct (encShareProof_roundtrip pf Hcs1 Hcsr) as (pfB & pf' & E & _ & Ed & E1 & E2 & E3 & E4 & E5).
  exists pfB. split; [exact E|]. destruct (groupElement_decode u) as (u' & Eu & Hu'), (groupElement_decode v) as (v' & Ev & Hv').
  assert (Hch : dkgChallenge commitments (Int j) pkR u' v' pf'.(es_a1) pf'.(es_a2) pf'.(es_a3) = Ok e) by (by rewrite Hu', Hv', E1, E2, E3).
  exists u', v', pf', e. split; [done|]. split; [done|]. split; [by apply decodeDkg_same|]. split; [exact Hch|].
  unfold dkgEncShareVerify. rewrite E4, E5, !assertScalar_total by done. cbn [rbind].
  assert ((length commitments =? 0)%nat = false) as -> by by destruct commitments. rewrite (proj2 (badIndex_valid j) Hj).
  destruct (evalCommitments_ok j commitments Hj commitments_ne) as (ev & -> & Hev). rewrite Hch. cbn [rbind].
  destruct (honest_complete ev BASE pkR u' v' x r ws wr e pf') as [Hok Htrue].
  - split; [by rewrite Hev, horner_committed|]. split; [by rewrite Hu'|by rewrite Hv'].
  - eapply honest_proof_equiv, Hpf; done.
  - split; [|exact Htrue]. rewrite E4, E5 in Hok. intros N1 N2 N3.
    rewrite (proj2 (Z.eqb_neq _ _) N1), (proj2 (Z.eqb_neq _ _) N2), (proj2 (Z.eqb_neq _ _) N3) in Hok.
    change basePoint with (BASE (P := P)). destruct (encShareEquations ev BASE pkR u' v' pf' e) as [b|]; [|done]. f_equal. by apply Htrue.
Qed.

Lemma openShare_ok skR j pkR u v r pfB ct :
  nonzero skR → pkR ≡ zmul skR BASE → nonzero (poly_value j coeffs mod q) →
  u ≡ zmul r BASE → v ≡ p_add (zmul (poly_value j coeffs) BASE) (zmul r pkR) →
  decryptShareScalar skR u pfB ct = Ok (poly_value j coeffs mod q) →
  openShare skR u v pfB ct = Ok (Some (poly_value j coeffs mod q)).
Proof.
  intros Hsk Hpk Hs Hu Hv Ed. unfold openShare. rewrite Ed. destruct (mulBase_ok _ Hs) as (sG & -> & HsG).
  destruct (mulPoint_total u skR Hsk) as (skU & -> & HskU). cbn [rbind].
  assert (pointEq sG (pointSub v skU) = true) as ->; [|done]. apply pointEq_spec. unfold pointSub. symmetry. apply sub_unique.
  rewrite HsG, HskU, Hv, Hu, Hpk, (zmul_comm skR r). f_equiv. by rewrite (zmul_mod (poly_value j coeffs mod q) (poly_value j coeffs)) by apply Zmod_mod.
Qed.

Lemma encryptedShare_ok j pkR r ws wr l s :
  valid_index j → nonzero (poly_value j coeffs mod q) → supply (r :: ws :: wr :: l) s →
  ∃ uB vB pfB ct blocks, encryptedShare commitments coeffs j pkR s = (Ok (uB, vB, pfB, ct), mkEnv s.(e_store) s.(e_world) blocks) ∧
    supply l (mkEnv s.(e_store) s.(e_world) blocks) ∧
    verifier_accepts commitments j pkR uB vB pfB ∧
    ∀ skR, nonzero skR → pkR ≡ zmul skR BASE → opens_to skR uB vB pfB ct (poly_value j coeffs mod q).
Proof.
  intros Hj Hs Hsup. unfold encryptedShare. rewrite evalPoly_value. set (x := poly_value j coeffs mod q) in *.
  destruct (nonzeroScalar_ok _ _ _ Hsup) as (b1 & E1 & Hsup1 & Hr). erewrite bind_ok; [|exact E1].
  destruct (mulBase_ok r Hr) as (u & Eu & Hu). erewrite bind_ofRes; [|exact Eu].
  destruct (mulBase_ok x Hs) as (sG & EsG & HsG). erewrite bind_ofRes; [|exact EsG].
  destruct (mulPoint_total pkR r Hr) as (rpk & Erpk & Hrpk). erewrite bind_ofRes; [|exact Erpk]. cbv zeta. set (v := pointAdd sG rpk).
  destruct (nonzeroScalar_ok _ _ _ Hsup1) as (b2 & E2 & Hsup2 & Hws). erewrite bind_ok; [|exact E2].
  destruct (nonzeroScalar_ok _ _ _ Hsup2) as (b3 & E3 & Hsup3 & Hwr). erewrite bind_ok; [|exact E3]. cbn [e_store e_world] in *.
  assert (Hx : canonical x) by by apply nonzero_canonical. assert (Hrc := nonzero_canonical r Hr).
  destruct (dkgEncShareProve_ok commitments j pkR u v x r ws wr Hj commitments_ne commitments_len Hx Hrc Hws Hwr)
    as (pf & e & Ep & Ee & Hpf). erewrite bind_ofRes; [|exact Ep].
  assert (Hxz : zmul x BASE ≡@{P} zmul (poly_value j coeffs) BASE) by (unfold x; by rewrite (zmul_mod (poly_value j coeffs mod q) (poly_value j coeffs)) by apply Zmod_mod).
  assert (Hv : v ≡ p_add (zmul x BASE) (zmul r pkR)) by (unfold v, pointAdd; by rewrite HsG, Hrpk).
  destruct (honest_bytes_accepted j pkR u v x r ws wr e pf Hj) as (pfB & EpB & Hacc); [by split; [rewrite Hxz|split]|done|done|].
  erewrite bind_ofRes; [|exact EpB].
  destruct (shareScalar_delivered r x pkR pfB Hr Hx) as (ct & Ect & _ & Edec).
  erewrite bind_ofRes; [|exact Ect]. do 5 eexists. split; [reflexivity|]. split; [done|]. split; [done|]. intros skR Hsk Hpk.
  destruct (groupElement_decode u) as (u' & Eu' & Hu'), (groupElement_decode v) as (v' & Ev' & Hv').
  exists u', v'. split; [done|]. split; [done|]. specialize (Edec skR u' Hsk Hpk ltac:(by rewrite Hu')).
  apply (openShare_ok skR j pkR u' v' r); [done..|by rewrite Hu'|by rewrite Hv', Hv, Hxz|done].
Qed.

(** ** Serving the members *)

Variable posted : W → list (string * Z * Z * bytes * bytes * bytes * bytes).
Hypothesis client_posts : ∀ d e j uB vB pfB ct w,
  ∃ w', client.(dealerDkgEncryptedShare) d e j uB vB pfB ct w = (Ok tt, w') ∧ posted w' = posted w ++ [(d, e, j, uB, vB, pfB, ct)].

Let me := config.(validatorAddress).

(** The key to encrypt to, for a member that is to be served. *)
Definition recipientKey (dkg : json) (m : Member) : option P :=
  if bool_decide (lower m.(m_validator) = lower me) || existsb (Z.eqb m.(m_index)) (served config dkg) then None
  else match m.(m_ephemeralPubkey) with
       | Some pkB => if (length pkB =? 32)%nat then match groupElementFromBytes pkB with Ok p => Some p | Err _ => None end else None
       | None => None
       end.
Definition recipients (dkg : json) (members : list Member) : list (Member * P) := omap (λ m, (m,.) <$> recipientKey dkg m) members.

(** What a served member gets. *)
Record sent_share (epoch : Z) (mp : Member * P) (t : string * Z * Z * bytes * bytes * bytes * bytes) : Prop := {
  sent : ∃ uB vB pfB ct, t = (me, epoch, mp.1.(m_index), uB, vB, pfB, ct) ∧
    verifier_accepts commitments mp.1.(m_index) mp.2 uB vB pfB ∧
    ∀ skR, nonzero skR → mp.2 ≡ zmul skR BASE → opens_to skR uB vB pfB ct (poly_value mp.1.(m_index) coeffs mod q)
}.

Lemma serve_skip epoch dkg m s : recipientKey dkg m = None → serveRecipient client config epoch commitments coeffs dkg m s = (Ok tt, s).
Proof.
  unfold recipientKey, serveRecipient, me. destruct (_ || _); [done|]. destruct (m_ephemeralPubkey m) as [pkB|]; [|done].
  destruct (length pkB =? 32)%nat; [|done]. cbn [negb]. by destruct (groupElementFromBytes pkB).
Qed.

Lemma serve_one epoch dkg m p l s :
  recipientKey dkg m = Some p → valid_index m.(m_index) → nonzero (poly_value m.(m_index) coeffs mod q) →
  (∃ r ws wr, supply (r :: ws :: wr :: l) s) →
  ∃ s' t, serveRecipient client config epoch commitments coeffs dkg m s = (Ok tt, s') ∧ supply l s' ∧ s'.(e_store) = s.(e_store) ∧
    posted s'.(e_world) = posted s.(e_world) ++ [t] ∧ sent_share epoch (m, p) t.
Proof.
  unfold recipientKey, serveRecipient, me. intros Hk Hj Hx (r & ws & wr & Hs). destruct (_ || _); [done|].
  destruct (m_ephemeralPubkey m) as [pkB|]; [|done]. destruct (length pkB =? 32)%nat; [|done]. cbn [negb].
  destruct (groupElementFromBytes pkB) as [p'|]; [|done]. injection Hk as ->.
  destruct (encryptedShare_ok (m_index m) p r ws wr l s Hj Hx Hs) as (uB & vB & pfB & ct & bl & E & Hsup & Hacc & Hop).
  erewrite bind_ok; [|exact E].
  destruct (client_posts (validatorAddress config) epoch (m_index m) uB vB pfB ct s.(e_world)) as (w' & Ew & Hw).
  exists (mkEnv s.(e_store) w' bl), (validatorAddress config, epoch, m_index m, uB, vB, pfB, ct).
  unfold tolerate, orDefault, tryCatch. erewrite await_ok; [|exact Ew]. cbn [e_store e_random e_world]. split; [done|].
  split; [by destruct Hsup|]. split; [done|]. split; [exact Hw|]. split. do 4 eexists. split; [reflexivity|]. by split.
Qed.

Lemma serve_all epoch dkg members l ks s :
  (∀ m p, (m, p) ∈ recipients dkg members → valid_index m.(m_index) ∧ nonzero (poly_value m.(m_index) coeffs mod q)) →
  length ks = (3 * length (recipients dkg members))%nat → supply (ks ++ l) s →
  ∃ s' ts, forEach members (serveRecipient client config epoch commitments coeffs dkg) s = (Ok tt, s') ∧ supply l s' ∧
    s'.(e_store) = s.(e_store) ∧ posted s'.(e_world) = posted s.(e_world) ++ ts ∧ Forall2 (sent_share epoch) (recipients dkg members) ts.
Proof.
  revert ks s. unfold recipients. induction members as [|m members IH]; intros ks s Hm Hlen Hs; cbn [omap list_omap forEach] in *.
  - destruct ks; [|done]. exists s, []. rewrite app_nil_r. split; [done|]. split; [done|]. split; [done|]. split; [done|constructor].
  - destruct (recipientKey dkg m) as [p|] eqn:Ek; cbn [fmap option_fmap option_map] in *.
    + destruct ks as [|r [|ws [|wr ks]]]; cbn [length] in Hlen; [lia..|].
      destruct (Hm m p (list_elem_of_here _ _)) as [Hj Hx].
      destruct (serve_one epoch dkg m p (ks ++ l) s Ek Hj Hx) as (s1 & t & E1 & Hs1 & Hd1 & Hw1 & Ht); [by exists r, ws, wr|].
      destruct (IH ks s1) as (s2 & ts & E2 & Hs2 & Hd2 & Hw2 & Hts); [|lia|done|].
      { intros m' p' Hin. apply (Hm m' p'). by apply list_elem_of_further. }
      exists s2, (t :: ts). erewrite bind_ok; [|exact E1]. split; [exact E2|]. split; [done|]. split; [congruence|].
      split; [by rewrite Hw2, Hw1, <-app_assoc|by constructor].
    + erewrite bind_ok; [|by apply serve_skip]. by apply (IH ks).
Qed.
End thms.

End DkgThms.
