(* ===== verification/DealerSend.v ===== *)
(** * The dealing side of the key generation

    [handleDkgCommit] and [handleDkgEncryptedShares]: what is posted to the
    chain, what is kept in the store, and that each served member can open its
    share.  [handleDkgReveals]: what the complaints of a threshold of members
    make the dealer disclose. *)
From stdpp Require Import base option list strings gmap.
From Stdlib Require Import ZArith Lia Ascii.
From S2P Require Import Prelude OcpBytes OcpGroup OcpTranscript OcpProofs OcpProofsThms BotHoleCards BotHoleThms Json Monads DealerTypes DealerDkg DealerLemmas DealerDkgThms.
Import Bytes Group Hashing Proofs ProofsThms HoleThms Json ExceptM DealerTypes Dkg DealerLemmas DkgThms DealerToy.

Module DealerSend.

Section send.
Context {P : Type} `{RistrettoLaws P} `{HashOps} `{AeadLaws} `{!HashLaws} (base64 : list ascii → bytes).
Context {D W : Type} `{EpochStoreLaws D} (client : DealerClient W) (config : DealerDaemonConfig).
Implicit Types (s : Env D W).
Let me := config.(validatorAddress).

(** ** The commitment *)

Variable commits : W → list (string * Z * list bytes * bytes).
Hypothesis client_commits : ∀ d e cs pk w,
  ∃ w', client.(dealerDkgCommit) d e cs pk w = (Ok tt, w') ∧ commits w' = commits w ++ [(d, e, cs, pk)].

Lemma commitments_ok (coeffs : list Z) : Forall nonzero coeffs →
  ∃ cs (points : list P), mapR (λ c, let! p := mulBase (P := P) c in Ok (groupElementToBytes p)) coeffs = Ok cs ∧
    mapR groupElementFromBytes cs = Ok points ∧ Forall2 (λ (c : P) f, c ≡ zmul f BASE) points coeffs.
Proof.
  induction 1 as [|f coeffs Hf _ (cs & points & E1 & E2 & Hall)]; [by exists [], []|].
  destruct (mulBase_ok f Hf) as (p & Ep & Hp), (groupElement_decode p) as (p' & Ep' & Hp').
  exists (groupElementToBytes p :: cs), (p' :: points). cbn [mapR]. rewrite Ep. cbn [rbind]. rewrite E1. cbn [rbind]. rewrite Ep'. cbn [rbind]. rewrite E2.
  cbn [rbind]. do 2 (split; [done|]). constructor; [by rewrite Hp'|done].
Qed.

(** What the store knows of an epoch in which [coeffs] and [sk] were drawn. *)
Record secrets_of (m : Member) (coeffs : list Z) (sk : Scalar) (sec : EpochSecrets) : Prop := {
  so_coeffs : mapR fromHexString sec.(polyCoeffs) = Ok coeffs;
  so_index : sec.(validatorIndex) = m.(m_index);
  so_share : sec.(secretShare) = "0"%string;
  so_key : fromHexString <$> sec.(ephemeralSk) = Some (Ok sk)
}.

(** What is on the chain: the commitments of the polynomial and the key. *)
Definition posted_commit (coeffs : list Z) (sk : Scalar) (epoch : Z) (t : string * Z * list bytes * bytes) : Prop :=
  ∃ cs pkB (points : list P) pk, t = (me, epoch, cs, pkB) ∧ mapR groupElementFromBytes cs = Ok points ∧
    Forall2 (λ (c : P) f, c ≡ zmul f BASE) points coeffs ∧ groupElementFromBytes pkB = Ok pk ∧ pk ≡ zmul sk BASE.

(** The dealer's commitment.  A member that knows nothing of the epoch draws
    a polynomial with as many coefficients as the threshold and a key, posts
    commitments and a public key that are those of the drawn secrets, and only
    then stores the secrets, from which they can be parsed back; called again,
    the handler does nothing.  When the chain refuses the commitment the
    handler throws and the store is left without secrets. *)
Theorem commit_publishes epoch members m coeffs sk l s :
  st_ok s.(e_store) → st_known s.(e_store) epoch = None → findMember members me = Some m →
  length coeffs = config.(threshold) → supply (coeffs ++ sk :: l) s →
  (∃ s' t sec, handleDkgCommit (P := P) client config epoch members s = (Ok tt, s') ∧
     commits s'.(e_world) = commits s.(e_world) ++ [t] ∧ posted_commit coeffs sk epoch t ∧
     st_ok s'.(e_store) ∧ st_known s'.(e_store) epoch = Some sec ∧ secrets_of m coeffs sk sec ∧ supply l s' ∧
     handleDkgCommit (P := P) client config epoch members s' = (Ok tt, s')) ∧
  (∀ client' msg, (∀ d e cs pk w, (client'.(dealerDkgCommit) d e cs pk w).1 = Err msg) →
     ∃ s', handleDkgCommit (P := P) client' config epoch members s = (Err msg, s') ∧ s'.(e_store) = s.(e_store)).
Proof.
  intros Hok Hnone Hm Hlen Hs. destruct (repeat_scalars _ coeffs (sk :: l) s Hlen Hs) as (b1 & E1 & Hs1).
  destruct (nonzeroScalar_ok sk l _ Hs1) as (b2 & E2 & Hs2 & Hsk). cbn [e_store e_world] in *.
  assert (Hnz := supply_nonzero _ _ Hs). apply Forall_app in Hnz as [Hnz _].
  destruct (commitments_ok coeffs Hnz) as (cs & points & Ecs & Epts & Hcs), (mulBase_ok sk Hsk) as (pk & Epk & Hpk), (groupElement_decode pk) as (pk' & Epk' & Hpk').
  assert (Hpre : ∀ client' : DealerClient W, handleDkgCommit (P := P) client' config epoch members s =
    (await (client'.(dealerDkgCommit) me epoch cs (groupElementToBytes pk));;
     storeSave (mkSecrets epoch m.(m_index) (map toHex coeffs) "0" (Some (toHex sk)))) (mkEnv s.(e_store) s.(e_world) b2)).
  { intros client'. unfold handleDkgCommit. erewrite bind_ok; [|by apply storeHas_ok]. rewrite Hnone. rewrite bool_decide_false by by intros [? ?].
    fold me. rewrite Hm. erewrite bind_ok; [|exact E1]. erewrite bind_ofRes; [|exact Ecs]. erewrite bind_ok; [|exact E2]. by erewrite bind_ofRes; [|exact Epk]. }
  split.
  - destruct (client_commits me epoch cs (groupElementToBytes pk) s.(e_world)) as (w' & Ew & Hw).
    set (sec := mkSecrets epoch m.(m_index) (map toHex coeffs) "0" (Some (toHex sk))).
    destruct (storeSave_ok sec (mkEnv s.(e_store) w' b2) Hok) as (d' & Ed & Hd & Hk). cbn [e_store e_world e_random] in *.
    eexists _, (me, epoch, cs, groupElementToBytes pk), sec. rewrite Hpre. erewrite bind_ok; [|by apply await_ok]. cbn [e_store e_random]. fold sec.
    split; [exact Ed|]. cbn [e_world e_store]. split; [done|].
    split; [exists cs, (groupElementToBytes pk), points, pk'; repeat split; [done..|by rewrite Hpk']|].
    assert (Hsec : st_known d' epoch = Some sec) by (rewrite Hk; by rewrite decide_True).
    split; [done|]. split; [done|]. split; [split; [|done..|]|].
    + cbn [sec polyCoeffs]. apply fromHex_toHexs. eapply Forall_impl; [exact Hnz|]. unfold nonzero. simpl. lia.
    + cbn [sec ephemeralSk fmap option_fmap option_map]. f_equal. apply fromHex_toHex. unfold nonzero in *. lia.
    + split; [by destruct Hs2|]. unfold handleDkgCommit. erewrite bind_ok; [|by apply storeHas_ok]. cbn [e_store]. rewrite Hsec. by rewrite bool_decide_true.
  - intros client' msg Herr. specialize (Herr me epoch cs (groupElementToBytes pk) s.(e_world)).
    destruct (dealerDkgCommit client' me epoch cs (groupElementToBytes pk) s.(e_world)) as [r w'] eqn:Ew. cbn [fst] in Herr. subst r.
    exists (mkEnv s.(e_store) w' b2). split; [|done]. rewrite Hpre. apply bind_err. unfold await. cbn [e_world e_store e_random]. by rewrite Ew.
Qed.

(** ** The encrypted shares *)

Variable shares : W → list (string * Z * Z * bytes * bytes * bytes * bytes).
Hypothesis client_posts : ∀ d e j uB vB pfB ct w,
  ∃ w', client.(dealerDkgEncryptedShare) d e j uB vB pfB ct w = (Ok tt, w') ∧ shares w' = shares w ++ [(d, e, j, uB, vB, pfB, ct)].

(** C6. The encrypted shares of the key generation.  Once the dealer's own
    commitments are on the chain, it posts one share, in order, for each other
    member that has published a valid key of 32 bytes and is not yet served
    ([recipients]), and none for the rest; [dkgEncShareVerify] accepts the
    share unless a scalar of its proof is zero, when it throws, and never
    answers false; and the member whose key it is opens the share to the value
    of the dealer's polynomial at the member's index.  The store keeps what it
    knows. *)
Theorem encrypted_shares_sent epoch sec members dkg cs (points : list P) coeffs ks l s :
  st_ok s.(e_store) → st_known s.(e_store) epoch = Some sec → mapR fromHexString sec.(polyCoeffs) = Ok coeffs →
  is_Some (findMember members me) → ourCommitments base64 config dkg = Some cs → mapR groupElementFromBytes cs = Ok points →
  points ≠ [] → Z.of_nat (length points) < 2 ^ 31 → Forall2 (λ (c : P) f, c ≡ zmul f BASE) points coeffs →
  (∀ m p, (m, p) ∈ recipients (P := P) config dkg members → valid_index m.(m_index) ∧ nonzero (poly_value m.(m_index) coeffs mod q)) →
  length ks = (3 * length (recipients (P := P) config dkg members))%nat → supply (ks ++ l) s →
  ∃ s' ts, handleDkgEncryptedShares (P := P) base64 client config epoch members dkg s = (Ok tt, s') ∧
    shares s'.(e_world) = shares s.(e_world) ++ ts ∧
    Forall2 (sent_share config points coeffs epoch) (recipients config dkg members) ts ∧
    st_ok s'.(e_store) ∧ (∀ e, st_known s'.(e_store) e = st_known s.(e_store) e).
Proof.
  intros Hok Hsec Hco [m0 Hm0] Hcs Hpts Hne Hlen HF Hrec Hks Hs. unfold handleDkgEncryptedShares.
  destruct (storeLoad_ok epoch s Hok) as (d1 & E1 & Hok1 & Hk1). erewrite bind_ok; [|exact E1]. rewrite Hsec.
  assert (Hl : length (polyCoeffs sec) ≠ 0%nat).
  { rewrite <-(mapR_length _ _ _ Hco), <-(Forall2_length _ _ _ HF). by destruct points. }
  rewrite (proj2 (Nat.eqb_neq _ _) Hl). fold me. rewrite Hm0. erewrite bind_ofRes; [|exact Hco]. rewrite Hcs. erewrite bind_ofRes; [|exact Hpts].
  destruct (serve_all client config points coeffs Hne Hlen HF shares client_posts epoch dkg members l ks
    (mkEnv d1 s.(e_world) s.(e_random)) Hrec Hks) as (s' & ts & E2 & _ & Hd & Hw & Ht); [by destruct Hs|].
  exists s', ts. split; [exact E2|]. split; [exact Hw|]. split; [exact Ht|]. rewrite Hd. by split.
Qed.

(** ** The reveals *)

Variable reveals : W → list (string * Z * json * bytes).
Hypothesis client_reveals : ∀ d e to share w,
  ∃ w', client.(dealerDkgShareReveal) d e to share w = (Ok tt, w') ∧ reveals w' = reveals w ++ [(d, e, to, share)].

(** Complaints about the dealer, by these members, not yet answered. *)
Record complaint_of (members : list Member) (dkg c : json) (j : Z) : Prop := {
  co_dealer : address (field c "dealer") = lower me;
  co_open : ∀ r, r ∈ elems (field dkg "reveals") → address (field r "dealer") = lower me → address (field r "to") ≠ address (field c "complainer");
  co_member : ∃ m, List.find (λ m, bool_decide (lower m.(m_validator) = address (field c "complainer"))) members = Some m ∧ m.(m_index) = j
}.

(** The number in a reveal's 32 bytes. *)
Definition revealed (t : string * Z * json * bytes) : Z := bytesToBigintLE t.2.

Lemma reveal_all epoch members dkg coeffs cs js s :
  Forall2 (complaint_of members dkg) cs js →
  let myReveals := map (λ r, address (field r "to")) (List.filter (λ r, bool_decide (address (field r "dealer") = lower me)) (elems (field dkg "reveals"))) in
  ∃ s' ts, forEach cs (revealTo client config epoch members coeffs myReveals) s = (Ok tt, s') ∧
    reveals s'.(e_world) = reveals s.(e_world) ++ ts ∧ map revealed ts = map (evalPoly coeffs) js ∧ s'.(e_store) = s.(e_store).
Proof.
  intros HF myReveals. revert s. induction HF as [|c j cs js [Hd Ho (m & Hm & Hj)] _ IH]; intros s.
  - exists s, []. rewrite app_nil_r. done.
  - destruct (scalarToBytes_ok (evalPoly coeffs j) (evalPoly_canonical _ _)) as (bs & Eb & _ & _ & Hbs).
    destruct (client_reveals me epoch (field c "complainer") bs s.(e_world)) as (w' & Ew & Hw).
    assert (Hstep : revealTo client config epoch members coeffs myReveals c s = (Ok tt, mkEnv s.(e_store) w' s.(e_random))).
    { unfold revealTo. rewrite bool_decide_false.
      2:{ intros Hin. unfold myReveals in Hin. apply list_elem_of_fmap in Hin as (r & Er & Hr). apply list_elem_of_In, filter_In in Hr as [Hr1 Hr2].
          apply bool_decide_eq_true in Hr2. apply list_elem_of_In in Hr1. by apply (Ho r Hr1 Hr2). }
      rewrite Hm, Hj. erewrite bind_ofRes; [|exact Eb]. unfold tolerate, orDefault, tryCatch. by erewrite await_ok; [|exact Ew]. }
    destruct (IH (mkEnv s.(e_store) w' s.(e_random))) as (s' & ts & E & Hr & Hm' & Hs). cbn [e_world e_store] in *.
    exists s', ((me, epoch, field c "complainer", bs) :: ts). cbn [forEach]. erewrite bind_ok; [|exact Hstep]. split; [exact E|].
    split; [by rewrite Hr, Hw, <-app_assoc|]. split; [|done]. cbn [map]. rewrite Hm'. unfold revealed at 1. cbn [snd]. by rewrite Hbs.
Qed.

Variable missing : W → list (string * Z * string).
Hypothesis client_missing : ∀ m e d w,
  ∃ w', client.(dealerDkgComplaintMissing) m e d w = (Ok tt, w') ∧ missing w' = missing w ++ [(m, e, d)].

(** Whom the daemon complains about: every other committed member it has not
    complained about. *)
Definition accused (dkg : json) (m : Member) : bool :=
  negb (bool_decide (lower m.(m_validator) = lower me)) &&
  negb (bool_decide (lower m.(m_validator) ∈ map (λ c, address (field c "dealer")) (complaintsBy config dkg))) &&
  bool_decide (lower m.(m_validator) ∈ map (λ c, address (field c "dealer")) (elems (field dkg "commits"))).

Lemma complainAbout_eq epoch dkg m :
  complainAbout client config epoch (map (λ c, address (field c "dealer")) (complaintsBy config dkg))
    (map (λ c, address (field c "dealer")) (elems (field dkg "commits"))) m =
  if accused dkg m then tolerate (await (client.(dealerDkgComplaintMissing) me epoch m.(m_validator))) else (mret tt : X (Env D W) string unit).
Proof. unfold complainAbout, accused, me. by destruct (bool_decide _), (bool_decide _), (bool_decide _). Qed.

Lemma complain_all epoch members dkg s :
  ∃ s', forEach members (complainAbout client config epoch (map (λ c, address (field c "dealer")) (complaintsBy config dkg))
      (map (λ c, address (field c "dealer")) (elems (field dkg "commits")))) s = (Ok tt, s') ∧
    missing s'.(e_world) = missing s.(e_world) ++ map (λ m, (me, epoch, m.(m_validator))) (List.filter (accused dkg) members).
Proof.
  revert s. induction members as [|m members IH]; intros s; cbn [forEach List.filter]; [exists s; by rewrite app_nil_r|].
  rewrite complainAbout_eq. destruct (accused dkg m); [|erewrite bind_ok; [|reflexivity]; apply IH].
  destruct (client_missing me epoch m.(m_validator) s.(e_world)) as (w' & Ew & Hw).
  destruct (IH (mkEnv s.(e_store) w' s.(e_random))) as (s' & E & Hs). cbn [e_world] in Hs. exists s'.
  erewrite bind_ok; [|unfold tolerate, orDefault, tryCatch; by erewrite await_ok; [|exact Ew]]. split; [exact E|]. cbn [map]. by rewrite Hs, Hw, <-app_assoc.
Qed.

(** C38. Complaints disclose the dealer's secret.  Once it has committed, the
    daemon files a complaint about every other committed member, whether or not
    that member's encrypted share has arrived; and a dealer answers complaints
    by posting, in the clear, the value of its polynomial at each complainer's
    index.  When complaints come from at least as many distinct indices as the
    polynomial has coefficients, the Lagrange coefficients of the indices
    combine the posted bytes into the dealer's secret [f(0)]. *)
Theorem complaints_disclose_secret epoch sec members dkg coeffs cs js s :
  (existsb (λ c, bool_decide (address (field c "dealer") = lower me)) (elems (field dkg "commits")) = true →
   ∃ s', handleDkgComplaints client config epoch members dkg s = (Ok tt, s') ∧
     missing s'.(e_world) = missing s.(e_world) ++ map (λ m, (me, epoch, m.(m_validator))) (List.filter (accused dkg) members)) ∧
  (st_ok s.(e_store) → st_known s.(e_store) epoch = Some sec → mapR fromHexString sec.(polyCoeffs) = Ok coeffs →
   List.filter (λ c, bool_decide (address (field c "dealer") = lower me)) (elems (field dkg "complaints")) = cs →
   Forall2 (complaint_of members dkg) cs js → distinct js → (length coeffs <= length js)%nat →
   ∃ s' ts ls, handleDkgReveals client config epoch members dkg s = (Ok tt, s') ∧
     reveals s'.(e_world) = reveals s.(e_world) ++ ts ∧
     HoleCards.lagrangeCoefficients js = Ok ls ∧ sumZ (zip_with (λ l t, l * revealed t) ls ts) mod q = poly_value 0 coeffs mod q).
Proof.
  split.
  - intros Hc. unfold handleDkgComplaints. fold me. rewrite Hc. apply complain_all.
  - intros Hok Hsec Hco Hcs HF Hd Hlen. unfold handleDkgReveals. destruct (storeLoad_ok epoch s Hok) as (d1 & E1 & _ & _).
    erewrite bind_ok; [|exact E1]. rewrite Hsec. erewrite bind_ofRes; [|exact Hco]. fold me. rewrite Hcs.
    destruct (reveal_all epoch members dkg coeffs cs js (mkEnv d1 s.(e_world) s.(e_random)) HF) as (s' & ts & E & Hr & Hm & _).
    destruct (lagrange_ok js Hd) as (ls & Els & HL). exists s', ts, ls. split; [exact E|]. split; [exact Hr|]. split; [exact Els|].
    pose proof (lagrange_at_zero js ls coeffs Hd HL Hlen) as [Hz]. rewrite <-Hz. apply cong_eq.
    assert (Hl : zip_with (λ l t, l * revealed t) ls ts = zip_with Z.mul ls (map (evalPoly coeffs) js)).
    { rewrite <-Hm. clear. revert ts. induction ls as [|l ls IH]; intros [|t ts]; cbn; [done..|]. by rewrite IH. }
    rewrite Hl. clear. revert js. induction ls as [|l ls IH]; intros [|j js]; cbn [map zip_with]; [done..|].
    rewrite !sumZ_cons, IH, evalPoly_value. f_equiv. f_equiv. split. apply Zmod_mod.
Qed.
End send.

(** ** Witnesses *)
Import Residue Toy ToyAead.

Definition toy_members : list Member := [mkMember "V1" 1 (Some (encode 9)); mkMember "v2" 2 (Some (encode 4)); mkMember "v3" 3 None].
Definition toy_env (st : gmap Z EpochSecrets) (rnd : list Z) : Env (gmap Z EpochSecrets) world :=
  mkEnv st (mkWorld None None None [] [] [] []) (map block rnd).

Lemma toy_supply st rnd : omap scalarOf (map block rnd) = rnd → supply rnd (toy_env st rnd).
Proof. intros E. split; [|done]. cbn [toy_env e_random]. clear E. induction rnd; by constructor. Qed.

Lemma commit_publishes_witness :
  ∃ s' t, handleDkgCommit (P := Z) toyClient (toyConfig "v1" 2) 7 toy_members (toy_env ∅ [3; 5; 9]) = (Ok tt, s') ∧ t_commits s'.(e_world) = [t].
Proof.
  destruct (commit_publishes (P := Z) toyClient (toyConfig "v1" 2) t_commits ltac:(intros d e cs pk []; by eexists) 7 toy_members
    (mkMember "V1" 1 (Some (encode 9))) [3; 5] 9 [] (toy_env ∅ [3; 5; 9])) as [(s' & t & _ & E & Ht & _) _];
    [exact I|vm_compute; reflexivity|vm_compute; reflexivity|reflexivity|apply toy_supply; vm_compute; reflexivity|].
  exists s', t. split; [exact E|exact Ht].
Defined.

(** Our commitments, and two complaints. *)
Definition toy_dkg : json := JObj [
  ("commits"%string, JArr [JObj [("dealer"%string, JStr "V1"); ("commitments"%string, JArr [JBytes (encode 3); JBytes (encode 5)])]]);
  ("complaints"%string, JArr [JObj [("dealer"%string, JStr "v1"); ("complainer"%string, JStr "V2")]; JObj [("dealer"%string, JStr "v1"); ("complainer"%string, JStr "v3")]])].
Definition toy_secrets (sk : string) : EpochSecrets := mkSecrets 7 1 ["3"; "5"]%string "0" (Some sk).

Lemma encrypted_shares_sent_witness :
  ∃ s' t, handleDkgEncryptedShares (P := Z) (λ _, []) toyClient (toyConfig "v1" 2) 7 toy_members toy_dkg (toy_env {[7 := toy_secrets "9"]} [2; 6; 8]) = (Ok tt, s') ∧
    t_shares s'.(e_world) = [t].
Proof.
  destruct (encrypted_shares_sent (P := Z) (λ _, []) toyClient (toyConfig "v1" 2) t_shares ltac:(intros d e j uB vB pfB ct []; by eexists) 7 (toy_secrets "9")
    toy_members toy_dkg [encode 3; encode 5] [3; 5] [3; 5] [2; 6; 8] [] (toy_env {[7 := toy_secrets "9"]} [2; 6; 8]))
    as (s' & ts & E & Hts & HF & _);
    [exact I|reflexivity|vm_compute; reflexivity|eexists; vm_compute; reflexivity|vm_compute; reflexivity|vm_compute; reflexivity|discriminate|reflexivity| | | | |].
  - constructor; [exact (zmul_residue 3 1)|]. constructor; [exact (zmul_residue 5 1)|constructor].
  - intros m p Hin. assert (Er : recipients (P := Z) (toyConfig "v1" 2) toy_dkg toy_members = [(mkMember "v2" 2 (Some (encode 4)), 4)]) by (vm_compute; reflexivity).
    rewrite Er in Hin. apply list_elem_of_singleton in Hin as [= -> ->]. split; [split; vm_compute; congruence|split; vm_compute; reflexivity].
  - vm_compute. reflexivity.
  - apply toy_supply. vm_compute. reflexivity.
  - destruct ts as [|t [|t2 ts]]; [| |].
    + exfalso. apply Forall2_length in HF. vm_compute in HF. discriminate.
    + exists s', t. split; [exact E|exact Hts].
    + exfalso. apply Forall2_length in HF. vm_compute in HF. discriminate.
Defined.

Lemma complaints_disclose_secret_witness :
  ∃ s' ts ls, handleDkgReveals toyClient (toyConfig "v1" 2) 7 toy_members toy_dkg (toy_env {[7 := toy_secrets "9"]} []) = (Ok tt, s') ∧
    t_reveals s'.(e_world) = ts ∧ sumZ (zip_with (λ l t, l * revealed t) ls ts) mod q = 3.
Proof.
  destruct (complaints_disclose_secret toyClient (toyConfig "v1" 2) t_reveals ltac:(intros d e to sh []; by eexists) t_missing ltac:(intros m e d []; by eexists)
    7 (toy_secrets "9") toy_members toy_dkg [3; 5] (elems (field toy_dkg "complaints")) [2; 3] (toy_env {[7 := toy_secrets "9"]} [])) as [_ Hr].
  destruct Hr as (s' & ts & ls & E & Hts & _ & Hsum); [exact I|reflexivity|vm_compute; reflexivity|vm_compute; reflexivity| | |reflexivity|].
  - constructor; [|constructor; [|constructor]].
    + split; [vm_compute; reflexivity|intros r Hr; by apply elem_of_nil in Hr|]. eexists. split; vm_compute; reflexivity.
    + split; [vm_compute; reflexivity|intros r Hr; by apply elem_of_nil in Hr|]. eexists. split; vm_compute; reflexivity.
  - apply (bool_decide_unpack _). vm_compute. exact I.
  - exists s', ts, ls. split; [exact E|]. split; [exact Hts|exact Hsum].
Defined.

End DealerSend.
