(* ===== verification/DealerAggregate.v ===== *)
(** * Adding up the shares: correctness of [handleDkgAggregate]

    The shares that open and the legacy reveals give each dealer one
    contribution; the secret share is stored exactly when every member in
    good standing has contributed, and it is then the sum of the
    polynomials' values. *)
From stdpp Require Import base option list strings gmap.
From Stdlib Require Import ZArith Lia Ascii.
From S2P Require Import Prelude OcpBytes OcpGroup OcpTranscript OcpProofs OcpProofsThms BotHoleThms Json Monads DealerTypes DealerDkg DealerLemmas DealerDkgThms.
Import Bytes Group Hashing Proofs ProofsThms HoleThms Json ExceptM DealerTypes Dkg DealerLemmas DkgThms DealerToy.

Module DealerAggregate.

(** ** The map of contributions *)

Lemma mapSet_keys d x m d' : d' ∈ map fst (mapSet d x m) ↔ d' = d ∨ d' ∈ map fst m.
Proof.
  induction m as [|[k v] m IH]; cbn [mapSet map fst]; [by rewrite list_elem_of_singleton, elem_of_nil; tauto|].
  case_bool_decide as E; cbn [map fst]; rewrite !elem_of_cons; [subst; tauto|]. rewrite IH. tauto.
Qed.

Lemma mapSet_in d x m kv : kv ∈ mapSet d x m → kv = (d, x) ∨ kv ∈ m.
Proof.
  induction m as [|[k v] m IH]; cbn [mapSet]; [by intros ->%list_elem_of_singleton; left|].
  case_bool_decide as E; rewrite !elem_of_cons; [tauto|]. intros [->|Hin]; [by right; left|]. destruct (IH Hin); tauto.
Qed.

Lemma mapSet_NoDup d x m : NoDup (map fst m) → NoDup (map fst (mapSet d x m)).
Proof.
  induction m as [|[k v] m IH]; cbn [mapSet map fst]; intros Hm; [apply NoDup_singleton|].
  apply NoDup_cons in Hm as [Hk Hm]. case_bool_decide as E; cbn [map fst]; apply NoDup_cons; [by subst|].
  split; [|by apply IH]. rewrite mapSet_keys. by intros [->|?].
Qed.

Section aggregate.
Context {P : Type} `{RistrettoLaws P} `{HashOps} `{AeadOps} (base64 : list ascii → bytes).
Context {D W : Type} `{EpochStoreLaws D} (client : DealerClient W) (config : DealerDaemonConfig).
Implicit Types (s : Env D W) (d : string).
Let me := config.(validatorAddress).

(** ** What an encrypted share contributes *)

(** The dealer and the scalar of a share that is for us and opens; an exception
    of [openShare] goes through. *)
Definition shareOf (skR : Scalar) (myIndex : Z) (es : json) : res (option (string * Z)) :=
  let dealerAddr := lower (toStr (orElse (field es "dealer") (JStr EmptyString))) in
  if bool_decide (dealerAddr = lower me) || negb (recipientIndex es =? myIndex) then Ok None
  else
    match decodeOnchainBytes base64 (field es "u"), decodeOnchainBytes base64 (field es "v"), decodeOnchainBytes base64 (field es "proof"),
          decodeOnchainBytes base64 (orElse (field es "scalarCt") (field es "scalar_ct")) with
    | Some uB, Some vB, Some pfB, Some ct =>
        match groupElementFromBytes (P := P) uB, groupElementFromBytes (P := P) vB with
        | Ok u, Ok v => let! opened := openShare skR u v pfB ct in Ok (pair dealerAddr <$> opened)
        | _, _ => Ok None
        end
    | _, _, _, _ => Ok None
    end.

Definition addOpened (out : list (string * Z)) (r : option (string * Z)) : list (string * Z) :=
  match r with Some (d, x) => mapSet d x out | None => out end.

Lemma tolerate_ok (m : X (Env D W) string unit) s : tolerate m s = (Ok tt, (m s).2).
Proof. unfold tolerate, orDefault, tryCatch. by destruct (m s) as [[[]|e] s']. Qed.

Lemma fileAeadComplaint_ok epoch i skR (u : P) d s :
  ∃ s', fileAeadComplaint client config epoch i skR u d s = (Ok tt, s') ∧ s'.(e_store) = s.(e_store).
Proof.
  unfold fileAeadComplaint. rewrite tolerate_ok. eexists. split; [reflexivity|].
  pose (I := λ s' : Env D W, s'.(e_store) = s.(e_store)).
  assert (Haw : ∀ c : call W unit, maintains I (await c)) by (intros c s1 Hs1; unfold await; by destruct (c _)).
  assert (Hnz : maintains I nonzeroScalar) by (intros s1 Hs1; unfold nonzeroScalar; by destruct (nonzeroLoop _)).
  enough (maintains I (dh ← ofRes (mulPoint u skR); y ← ofRes (mulBase (P := P) skR); w ← nonzeroScalar;
    proof ← ofRes (chaumPedersenProve y u dh skR w); proofBytes ← ofRes (encodeChaumPedersenProof proof);
    await (client.(dealerDkgComplaintAEADBad) config.(validatorAddress) epoch d i (groupElementToBytes dh) proofBytes))) as Hm by by apply Hm.
  repeat (apply maintains_bind; [first [apply maintains_ofRes|exact Hnz]|intros ?]). apply Haw.
Qed.

Lemma collectShare_ok epoch skR i es r out complained s : shareOf skR i es = Ok r →
  ∃ s' complained', collectShare (P := P) base64 client config epoch skR i (out, complained) es s = (Ok (addOpened out r, complained'), s') ∧
    s'.(e_store) = s.(e_store).
Proof.
  unfold shareOf, collectShare, me. destruct (_ || _); [intros [= <-]; by exists s, complained|].
  destruct (decodeOnchainBytes base64 (field es "u")) as [uB|]; [|intros [= <-]; by exists s, complained].
  destruct (decodeOnchainBytes base64 (field es "v")) as [vB|]; [|intros [= <-]; by exists s, complained].
  destruct (decodeOnchainBytes base64 (field es "proof")) as [pfB|]; [|intros [= <-]; by exists s, complained].
  destruct (decodeOnchainBytes base64 (orElse _ _)) as [ct|]; [|intros [= <-]; by exists s, complained].
  destruct (groupElementFromBytes uB) as [u|]; [|intros [= <-]; by exists s, complained].
  destruct (groupElementFromBytes vB) as [v|]; [|intros [= <-]; by exists s, complained].
  destruct (openShare skR u v pfB ct) as [[x|]|] eqn:Eo; cbn [rbind fmap option_fmap option_map]; intros [= <-];
    (erewrite bind_ofRes; [|reflexivity]); [by exists s, complained|].
  case_bool_decide; [by exists s, complained|].
  match goal with |- context [fileAeadComplaint client config epoch i skR u ?d] => destruct (fileAeadComplaint_ok epoch i skR u d s) as (s' & E & Hs) end.
  eexists s', _. erewrite bind_ok; [|exact E]. by split.
Qed.

Lemma collectShare_err epoch skR i es msg acc s : shareOf skR i es = Err msg →
  collectShare (P := P) base64 client config epoch skR i acc es s = (Err msg, s).
Proof.
  unfold shareOf, collectShare, me. destruct acc as [out complained]. destruct (_ || _); [done|].
  destruct (decodeOnchainBytes base64 (field es "u")) as [uB|]; [|done].
  destruct (decodeOnchainBytes base64 (field es "v")) as [vB|]; [|done].
  destruct (decodeOnchainBytes base64 (field es "proof")) as [pfB|]; [|done].
  destruct (decodeOnchainBytes base64 (orElse _ _)) as [ct|]; [|done].
  destruct (groupElementFromBytes uB) as [u|]; [|done]. destruct (groupElementFromBytes vB) as [v|]; [|done].
  by destruct (openShare skR u v pfB ct) as [o|e]; cbn [rbind]; [|intros [= <-]].
Qed.

Lemma collectLoop_ok epoch skR i shares rs out complained s : mapR (shareOf skR i) shares = Ok rs →
  ∃ s', collectLoop (P := P) base64 client config epoch skR i (out, complained) shares s = (Ok (foldl addOpened out rs), s') ∧ s'.(e_store) = s.(e_store).
Proof.
  revert rs out complained s. induction shares as [|es shares IH]; intros rs out complained s; cbn [mapR collectLoop].
  - intros [= <-]. by exists s.
  - intros (r & Er & (rs' & Ers & <-%Ok_inj)%rbind_ok)%rbind_ok.
    destruct (collectShare_ok epoch skR i es r out complained s Er) as (s1 & c1 & E1 & Hs1). erewrite bind_ok; [|exact E1].
    destruct (IH rs' (addOpened out r) c1 s1 Ers) as (s2 & E2 & Hs2). exists s2. cbn [foldl]. split; [done|congruence].
Qed.

Lemma opened_spec rs out :
  NoDup (map fst out) →
  NoDup (map fst (foldl addOpened out rs)) ∧
  (∀ d, d ∈ map fst (foldl addOpened out rs) ↔ d ∈ map fst out ∨ ∃ x, Some (d, x) ∈ rs) ∧
  (∀ kv, kv ∈ foldl addOpened out rs → kv ∈ out ∨ Some kv ∈ rs).
Proof.
  revert out. induction rs as [|[[d0 x0]|] rs IH]; intros out Hn; cbn [foldl addOpened].
  - split; [done|]. split; [|tauto]. intros d. split; [tauto|]. intros [?|[x Hx]]; [done|by apply elem_of_nil in Hx].
  - destruct (IH _ (mapSet_NoDup d0 x0 out Hn)) as (H1' & H2' & H3'). split; [done|]. split.
    + intros d. rewrite H2', mapSet_keys. setoid_rewrite elem_of_cons. split.
      * intros [[->|?]|[x Hx]]; [right; exists x0; by left|by left|right; exists x; by right].
      * intros [?|[x [[= -> ->]|Hx]]]; [by left; right|by left; left|right; by exists x].
    + intros kv Hkv. destruct (H3' kv Hkv) as [Hin|Hin]; [|right; by apply list_elem_of_further].
      apply mapSet_in in Hin as [->|Hin]; [right; apply list_elem_of_here|by left].
  - destruct (IH out Hn) as (H1' & H2' & H3'). split; [done|]. split.
    + intros d. rewrite H2'. setoid_rewrite elem_of_cons. split; [intros [?|[x Hx]]; [by left|right; exists x; by right]|].
      intros [?|[x [?|Hx]]]; [by left|done|right; by exists x].
    + intros kv Hkv. destruct (H3' kv Hkv) as [|Hin]; [by left|right; by apply list_elem_of_further].
Qed.

(** ** Reveals *)

(** What a reveal contributes. *)
Definition revealOf (slashed : list string) (r : json) : option (string * Z) :=
  let dealerAddr := address (field r "dealer") in
  if negb (bool_decide (address (field r "to") = lower me)) || bool_decide (dealerAddr = lower me) || bool_decide (dealerAddr ∈ slashed) ||
     negb (truthy (field r "share")) then None
  else pair dealerAddr <$> revealValue base64 (field r "share").

Lemma addReveal_eq slashed acc r :
  addReveal base64 config slashed acc r =
  match revealOf slashed r with
  | Some (d, x) => if bool_decide (d ∈ acc.2) then acc else (modQ (acc.1 + x), {[d]} ∪ acc.2)
  | None => acc
  end.
Proof.
  unfold addReveal, revealOf, me. destruct (negb (bool_decide (address (field r "to") = _))); [done|].
  destruct (bool_decide (_ = lower _)); [done|]. destruct (bool_decide (_ ∈ slashed)); [done|]. cbn [orb].
  destruct (negb (truthy _)); [by destruct (bool_decide _)|]. rewrite orb_false_r.
  destruct (revealValue base64 (field r "share")) as [x|]; cbn [fmap option_fmap option_map]; by destruct (bool_decide _).
Qed.

(** ** The two folds *)

Lemma sumZ_perm (l k : list Z) : l ≡ₚ k → sumZ l = sumZ k.
Proof. induction 1; rewrite ?sumZ_cons; lia. Qed.

Section sum.
Variables (slashed others : list string) (f : string → Z) (own : Z).
Hypothesis others_NoDup : NoDup others.

(** The sum so far is that of the dealers counted so far. *)
Record counts (acc : Z * gset string) : Prop := {
  c_canonical : canonical acc.1;
  c_sum : cong acc.1 (own + sumZ (map f (elements acc.2)));
  c_others : ∀ d, d ∈ acc.2 → d ∈ others
}.

(** What may be counted: one of the others, with its value. *)
Definition right_share (d : string) (x : Z) : Prop := d ∈ others ∧ cong x (f d).

Lemma counts_add acc d x : counts acc → d ∉ acc.2 → right_share d x → counts (modQ (acc.1 + x), {[d]} ∪ acc.2).
Proof.
  intros [Hc Hs Ho] Hd [Hin Hx]. split; cbn [fst snd]; [apply modQ_canonical| |].
  - rewrite (sumZ_perm _ (map f (d :: elements acc.2))); [|by apply Permutation_map, elements_union_singleton].
    cbn [map]. rewrite sumZ_cons, modQ_cong, Hs, Hx. by replace (own + sumZ (map f (elements acc.2)) + f d) with (own + (f d + sumZ (map f (elements acc.2)))) by lia.
  - intros d'. rewrite elem_of_union, elem_of_singleton. intros [->|?]; auto.
Qed.

Lemma counts_subset acc : counts acc → acc.2 ⊆ (list_to_set others : gset string).
Proof. intros [_ _ Ho] d Hd. by apply elem_of_list_to_set, Ho. Qed.

Lemma counts_complete acc : counts acc → (∀ d, d ∈ others → d ∈ acc.2) →
  (size acc.2 <? length others)%nat = false ∧ acc.1 = (own + sumZ (map f others)) mod q.
Proof.
  intros Hc Hall. assert (E : acc.2 = list_to_set others).
  { apply leibniz_equiv, set_equiv_subseteq. split; [by apply counts_subset|]. intros d Hd. by apply Hall, (elem_of_list_to_set (C := gset string)). }
  rewrite E, size_list_to_set by done. split; [apply Nat.ltb_irrefl|]. destruct Hc as [Hcan [Hs] _]. unfold canonical in Hcan.
  rewrite <-(Z.mod_small acc.1 q), Hs, E by done. do 2 f_equal. apply sumZ_perm, Permutation_map. by apply elements_list_to_set.
Qed.

Lemma counts_incomplete acc d : counts acc → d ∈ others → d ∉ acc.2 → (size acc.2 <? length others)%nat = true.
Proof.
  intros Hc Hin Hd. apply Nat.ltb_lt. rewrite <-(size_list_to_set (C := gset string) others) by done. apply subset_size.
  split; [by apply counts_subset|]. intros Hsub. by apply Hd, Hsub, elem_of_list_to_set.
Qed.

Lemma encrypted_fold l acc :
  counts acc → NoDup (map fst l) → (∀ d, d ∈ map fst l → d ∉ acc.2) → (∀ d x, (d, x) ∈ l → d ∉ slashed → right_share d x) →
  counts (foldl (addEncrypted slashed) acc l) ∧
  ∀ d, d ∈ (foldl (addEncrypted slashed) acc l).2 ↔ d ∈ acc.2 ∨ ((d ∉ slashed) ∧ d ∈ map fst l).
Proof.
  revert acc. induction l as [|[d0 x0] l IH]; intros acc Hc Hn Hnew Hl; cbn [foldl map fst] in *.
  - split; [done|]. intros d. rewrite elem_of_nil. tauto.
  - apply NoDup_cons in Hn as [Hd0 Hn]. unfold addEncrypted at 2 4. cbn [fst snd]. case_bool_decide as Hsl.
    + destruct (IH acc Hc Hn) as [H1' H2'].
      { intros d Hd. apply Hnew. by apply list_elem_of_further. } { intros d x Hin. apply Hl. by apply list_elem_of_further. }
      split; [done|]. intros d. rewrite H2', elem_of_cons. split; [tauto|]. intros [?|[? [->|?]]]; tauto.
    + destruct (IH (modQ (acc.1 + x0), {[d0]} ∪ acc.2)) as [H1' H2'].
      { apply counts_add; [done|apply Hnew, list_elem_of_here|]. apply Hl; [apply list_elem_of_here|done]. } { done. }
      { intros d Hd. cbn [snd]. rewrite elem_of_union, elem_of_singleton. intros [->|Hin]; [done|]. by apply (Hnew d); [apply list_elem_of_further|]. }
      { intros d x Hin. apply Hl. by apply list_elem_of_further. }
      split; [done|]. intros d. rewrite H2', elem_of_cons. cbn [snd]. rewrite elem_of_union, elem_of_singleton. split; [|tauto].
      intros [[->|?]|?]; tauto.
Qed.

Lemma reveal_fold l acc :
  counts acc → (∀ r d x, r ∈ l → revealOf slashed r = Some (d, x) → right_share d x) →
  counts (foldl (addReveal base64 config slashed) acc l) ∧
  ∀ d, d ∈ (foldl (addReveal base64 config slashed) acc l).2 ↔ d ∈ acc.2 ∨ ∃ r x, r ∈ l ∧ revealOf slashed r = Some (d, x).
Proof.
  revert acc. induction l as [|r l IH]; intros acc Hc Hl; cbn [foldl].
  - split; [done|]. intros d. split; [tauto|]. intros [?|(r & x & Hr & _)]; [done|by apply elem_of_nil in Hr].
  - assert (Hl' : ∀ r' d x, r' ∈ l → revealOf slashed r' = Some (d, x) → right_share d x).
    { intros r' d x Hr. apply Hl. by apply list_elem_of_further. }
    rewrite !addReveal_eq. destruct (revealOf slashed r) as [[d0 x0]|] eqn:Er; [case_bool_decide as Hd0|].
    + destruct (IH acc Hc Hl') as [H1' H2']. split; [done|]. intros d. rewrite H2'. setoid_rewrite elem_of_cons. split.
      * intros [?|(r' & x & Hr & E)]; [by left|right; exists r', x; tauto].
      * intros [?|(r' & x & [->|Hr] & E)]; [by left| |right; by exists r', x]. rewrite Er in E. injection E as <- _. by left.
    + destruct (IH (modQ (acc.1 + x0), {[d0]} ∪ acc.2)) as [H1' H2']; [|done|].
      { apply counts_add; [done..|]. apply (Hl r); [apply list_elem_of_here|done]. }
      split; [done|]. intros d. rewrite H2'. setoid_rewrite elem_of_cons. cbn [snd]. rewrite elem_of_union, elem_of_singleton. split.
      * intros [[->|?]|(r' & x & Hr & E)]; [right; exists r, x0; tauto|by left|right; exists r', x; tauto].
      * intros [?|(r' & x & [->|Hr] & E)]; [tauto| |right; by exists r', x]. rewrite Er in E. injection E as <- _. tauto.
    + destruct (IH acc Hc Hl') as [H1' H2']. split; [done|]. intros d. rewrite H2'. setoid_rewrite elem_of_cons. split.
      * intros [?|(r' & x & Hr & E)]; [by left|right; exists r', x; tauto].
      * intros [?|(r' & x & [->|Hr] & E)]; [by left|congruence|right; by exists r', x].
Qed.
End sum.

(** ** The handler *)

Definition slashedOf (dkg : json) : list string := map (λ j, lower (toStr j)) (elems (field dkg "slashed")).
(** The other members in good standing. *)
Definition othersOf (members : list Member) (slashed : list string) : list string :=
  map (λ m, lower m.(m_validator))
    (List.filter (λ m, negb (bool_decide (lower m.(m_validator) = lower me)) && negb (bool_decide (lower m.(m_validator) ∈ slashed))) members).

Lemma others_not_slashed members slashed d : d ∈ othersOf members slashed → d ∉ slashed.
Proof.
  intros Hd. apply list_elem_of_In, in_map_iff in Hd as (m & <- & [_ Hm]%filter_In). apply andb_true_iff in Hm as [_ Hm].
  by apply negb_true_iff, bool_decide_eq_false in Hm.
Qed.

(** The secrets a member has while the shares come in. *)
Record waiting (epoch : Z) (coeffs : list Z) (skR : Scalar) (i : Z) (sec : EpochSecrets) : Prop := {
  w_epoch : sec.(epochId) = epoch;
  w_index : sec.(validatorIndex) = i;
  w_share : sec.(secretShare) = "0"%string;
  w_coeffs : mapR fromHexString sec.(polyCoeffs) = Ok coeffs;
  w_key : ∃ sk, sec.(ephemeralSk) = Some sk ∧ sk ≠ EmptyString ∧ fromHexString sk = Ok skR
}.

Lemma collect_ok epoch dkg coeffs skR i sec rs s :
  st_ok s.(e_store) → st_known s.(e_store) epoch = Some sec → waiting epoch coeffs skR i sec →
  mapR (shareOf skR i) (elems (field dkg "encryptedShares")) = Ok rs →
  ∃ s', collectEncryptedShareScalars (P := P) base64 client config epoch dkg s = (Ok (foldl addOpened [] rs), s') ∧
    st_ok s'.(e_store) ∧ ∀ e, st_known s'.(e_store) e = st_known s.(e_store) e.
Proof.
  intros Hok Hsec [_ Hi _ _ (sk & Hsk & Hne & Hhex)] Hrs. unfold collectEncryptedShareScalars.
  destruct (storeLoad_ok epoch s Hok) as (d1 & E1 & Hok1 & Hk1). erewrite bind_ok; [|exact E1]. rewrite Hsec, Hsk, bool_decide_false by done.
  erewrite bind_ofRes; [|exact Hhex]. rewrite Hi.
  match goal with |- context [collectLoop _ _ _ _ _ _ ([], ?c) _ _] =>
    destruct (collectLoop_ok epoch skR i _ rs [] c (mkEnv d1 s.(e_world) s.(e_random)) Hrs) as (s' & E & Hs) end.
  exists s'. split; [exact E|]. rewrite Hs. by split.
Qed.

(** C5. Aggregation.  Suppose every scalar that an encrypted share for us opens
    to, and every legacy reveal to us, is - for dealers that are not slashed -
    from one of the other members in good standing and is that member's [f].
    When each of these has contributed at least once, by a share or a reveal,
    [handleDkgAggregate] reports success and has stored the sum of the [f] and
    of our own polynomial at our index, modulo the order, each counted once
    however many shares and reveals came; when one has contributed nothing
    usable it reports failure and the store knows what it knew. *)
Theorem aggregate_sums epoch sec m members dkg coeffs skR i rs f s :
  let slashed := slashedOf dkg in
  let others := othersOf members slashed in
  let given d := (∃ x, Some (d, x) ∈ rs) ∨ ∃ r x, r ∈ elems (field dkg "reveals") ∧ revealOf slashed r = Some (d, x) in
  st_ok s.(e_store) → st_known s.(e_store) epoch = Some sec → waiting epoch coeffs skR i sec →
  findMember members me = Some m → NoDup others →
  mapR (shareOf skR i) (elems (field dkg "encryptedShares")) = Ok rs →
  (∀ d x, Some (d, x) ∈ rs → d ∉ slashed → right_share others f d x) →
  (∀ r d x, r ∈ elems (field dkg "reveals") → revealOf slashed r = Some (d, x) → right_share others f d x) →
  ((∀ d, d ∈ others → given d) →
   ∃ s', handleDkgAggregate (P := P) base64 client config epoch members dkg s = (Ok true, s') ∧ st_ok s'.(e_store) ∧
     st_known s'.(e_store) epoch = Some (set_secretShare (toHex ((poly_value m.(m_index) coeffs + sumZ (map f others)) mod q)) sec)) ∧
  (∀ d, d ∈ others → ¬ given d →
   ∃ s', handleDkgAggregate (P := P) base64 client config epoch members dkg s = (Ok false, s') ∧ st_ok s'.(e_store) ∧
     ∀ e, st_known s'.(e_store) e = st_known s.(e_store) e).
Proof.
  intros slashed others given Hok Hsec Hw Hm Hnd Hrs Hr1 Hr2.
  destruct (storeLoad_ok epoch s Hok) as (d1 & E1 & Hok1 & Hk1).
  assert (Hsec1 : st_known d1 epoch = Some sec) by by rewrite Hk1.
  destruct (collect_ok epoch dkg coeffs skR i sec rs (mkEnv d1 s.(e_world) s.(e_random)) Hok1 Hsec1 Hw Hrs) as (s2 & E2 & Hok2 & Hk2).
  cbn [e_store] in Hk2.
  set (own := evalPoly coeffs m.(m_index)). destruct (opened_spec rs [] ltac:(constructor)) as (Hn & Hkeys & Hin).
  assert (Hc0 : counts others f own (own, ∅)).
  { split; cbn [fst snd]; [apply evalPoly_canonical| |by intros d Hd%elem_of_empty]. rewrite elements_empty. cbn. by rewrite Z.add_0_r. }
  destruct (encrypted_fold slashed others f own (foldl addOpened [] rs) (own, ∅) Hc0 Hn) as [Hc1 Hm1].
  { intros d _. cbn [snd]. apply not_elem_of_empty. }
  { intros d x Hdx. apply Hr1. by destruct (Hin _ Hdx) as [Hnil|]; [apply elem_of_nil in Hnil|]. }
  destruct (reveal_fold slashed others f own (elems (field dkg "reveals")) _ Hc1 Hr2) as [Hc2 Hm2].
  set (acc2 := foldl (addReveal base64 config slashed) _ _) in *.
  assert (Hpre : handleDkgAggregate (P := P) base64 client config epoch members dkg s =
    (if (size acc2.2 <? length others)%nat then mret false else (storeSave (set_secretShare (toHex acc2.1) sec);; mret true)) s2).
  { unfold handleDkgAggregate. erewrite bind_ok; [|exact E1]. rewrite Hsec. rewrite (w_share _ _ _ _ _ Hw), bool_decide_true by done. cbn [negb].
    fold me. rewrite Hm. erewrite bind_ofRes; [|exact (w_coeffs _ _ _ _ _ Hw)]. cbv zeta. fold own. erewrite bind_ok; [|exact E2].
    fold (slashedOf dkg). fold slashed. fold acc2. unfold others, othersOf, me. rewrite length_map. by destruct acc2. }
  assert (Hgiven : ∀ d, d ∈ others → d ∈ acc2.2 ↔ given d).
  { intros d Hd. rewrite Hm2, Hm1. unfold given. rewrite Hkeys. cbn [snd map]. rewrite elem_of_nil, elem_of_empty.
    pose proof (others_not_slashed _ _ _ Hd). tauto. }
  split.
  - intros Hall. destruct (counts_complete others f own Hnd acc2 Hc2) as [Hsz Hval]; [intros d Hd; by apply Hgiven, Hall|].
    set (sec' := set_secretShare (toHex acc2.1) sec). destruct (storeSave_ok sec' s2 Hok2) as (d3 & E3 & Hok3 & Hk3).
    exists (mkEnv d3 s2.(e_world) s2.(e_random)). rewrite Hpre, Hsz. fold sec'. erewrite bind_ok; [|exact E3]. split; [done|]. split; [done|].
    cbn [e_store]. rewrite Hk3. rewrite decide_True by (symmetry; exact (w_epoch _ _ _ _ _ Hw)). unfold sec'. rewrite Hval. do 3 f_equal. unfold own.
    apply cong_eq. rewrite evalPoly_value. f_equiv. split. apply Zmod_mod.
  - intros d Hd Hng. exists s2. rewrite Hpre, (counts_incomplete others f own Hnd acc2 d Hc2 Hd) by by rewrite Hgiven. split; [done|].
    split; [done|]. intros e. by rewrite Hk2, Hk1.
Qed.

(** An encrypted share for us, from another dealer, whose ciphertext opens to
    the scalar zero. *)
Record zero_share (skR : Scalar) (myIndex : Z) (es : json) : Prop := {
  zs_dealer : lower (toStr (orElse (field es "dealer") (JStr EmptyString))) ≠ lower me;
  zs_index : recipientIndex es = myIndex;
  zs_opens : ∃ uB vB pfB ct (u v : P), decodeOnchainBytes base64 (field es "u") = Some uB ∧ decodeOnchainBytes base64 (field es "v") = Some vB ∧
    decodeOnchainBytes base64 (field es "proof") = Some pfB ∧ decodeOnchainBytes base64 (orElse (field es "scalarCt") (field es "scalar_ct")) = Some ct ∧
    groupElementFromBytes uB = Ok u ∧ groupElementFromBytes vB = Ok v ∧ decryptShareScalar skR u pfB ct = Ok 0
}.

Lemma zero_share_throws skR i es : zero_share skR i es → ∃ msg, shareOf skR i es = Err msg.
Proof.
  intros [Hd Hi (uB & vB & pfB & ct & u & v & E1 & E2 & E3 & E4 & E5 & E6 & E7)]. unfold shareOf.
  rewrite bool_decide_false, Hi, Z.eqb_refl, E1, E2, E3, E4, E5, E6 by done. cbn [orb negb]. unfold openShare. rewrite E7.
  change mulBase with (mulPoint (BASE : P)). destruct (mulPoint_err (BASE : P) 0) as (msg & ->); [lia|]. by exists msg.
Qed.

Lemma collectLoop_err epoch skR i pre es post rs msg out complained s :
  mapR (shareOf skR i) pre = Ok rs → shareOf skR i es = Err msg →
  ∃ s', collectLoop (P := P) base64 client config epoch skR i (out, complained) (pre ++ es :: post) s = (Err msg, s') ∧ s'.(e_store) = s.(e_store) ∧
    (pre = [] → s' = s).
Proof.
  intros Hpre Hes. revert rs out complained s Hpre. induction pre as [|es0 pre IH]; intros rs out complained s; cbn [mapR app collectLoop].
  - intros _. exists s. split; [|done]. apply bind_err. by apply collectShare_err.
  - intros (r & Er & (rs' & Ers & _)%rbind_ok)%rbind_ok.
    destruct (collectShare_ok epoch skR i es0 r out complained s Er) as (s1 & c1 & E1 & Hs1). erewrite bind_ok; [|exact E1].
    destruct (IH rs' (addOpened out r) c1 s1 Ers) as (s2 & E2 & Hs2 & _). exists s2. split; [done|]. split; [congruence|done].
Qed.

(** A share of zero stops the aggregation.  When an encrypted share for us
    decrypts to the scalar zero, its check [s*G == V - skR*U] multiplies the
    base point by zero and throws, so the handler throws - whatever else the
    chain holds, as long as the shares before it do not - the secret share is
    never stored, and about this share no complaint is filed: when it is the
    first the chain is not called at all.  The daemon takes the exception for
    "not yet" and polls again. *)
Theorem zero_share_stalls epoch sec m members dkg coeffs skR i pre es post rs s :
  st_ok s.(e_store) → st_known s.(e_store) epoch = Some sec → waiting epoch coeffs skR i sec →
  findMember members me = Some m →
  elems (field dkg "encryptedShares") = pre ++ es :: post → mapR (shareOf skR i) pre = Ok rs → zero_share skR i es →
  ∃ msg s', handleDkgAggregate (P := P) base64 client config epoch members dkg s = (Err msg, s') ∧
    orDefault false (handleDkgAggregate (P := P) base64 client config epoch members dkg) s = (Ok false, s') ∧
    (∀ e, st_known s'.(e_store) e = st_known s.(e_store) e) ∧ (pre = [] → s'.(e_world) = s.(e_world)).
Proof.
  intros Hok Hsec Hw Hm Hes Hpre Hz. destruct (zero_share_throws skR i es Hz) as (msg & Hmsg).
  destruct (storeLoad_ok epoch s Hok) as (d1 & E1 & Hok1 & Hk1).
  destruct (storeLoad_ok epoch (mkEnv d1 s.(e_world) s.(e_random)) Hok1) as (d2 & E2 & Hok2 & Hk2). cbn [e_store] in Hk2.
  destruct Hw as [_ Hi Hsh Hco (sk & Hsk & Hne & Hhex)].
  assert (Hrun : ∃ s', handleDkgAggregate (P := P) base64 client config epoch members dkg s = (Err msg, s') ∧
    s'.(e_store) = d2 ∧ (pre = [] → s' = mkEnv d2 s.(e_world) s.(e_random))).
  { unfold handleDkgAggregate. erewrite bind_ok; [|exact E1]. rewrite Hsec, Hsh, bool_decide_true by done. cbn [negb].
    fold me. rewrite Hm. erewrite bind_ofRes; [|exact Hco]. cbv zeta.
    match goal with |- context [collectEncryptedShareScalars _ _ _ _ _ ≫= ?k] => set (K := k) end.
    assert (Hcol : ∃ s', collectEncryptedShareScalars (P := P) base64 client config epoch dkg (mkEnv d1 s.(e_world) s.(e_random)) = (Err msg, s') ∧
      s'.(e_store) = d2 ∧ (pre = [] → s' = mkEnv d2 s.(e_world) s.(e_random))).
    { unfold collectEncryptedShareScalars. erewrite bind_ok; [|exact E2]. cbn [e_store e_world e_random]. rewrite Hk1, Hsec, Hsk, bool_decide_false by done.
      erewrite bind_ofRes; [|exact Hhex]. rewrite Hi, Hes. by eapply collectLoop_err. }
    destruct Hcol as (s' & Hcol & Hs'). exists s'. split; [|done]. by apply bind_err. }
  destruct Hrun as (s' & Hrun & Hst & Hw'). exists msg, s'. split; [done|]. split; [unfold orDefault, tryCatch; by rewrite Hrun|].
  split; [intros e; by rewrite Hst, Hk2, Hk1|]. intros Hp. by rewrite (Hw' Hp).
Qed.
End aggregate.

(** ** Witnesses *)
Import Residue Toy ToyAead.

(** A share from [d] at index 1 for the key 9, with randomness 2. *)
Definition toy_share (d : string) (x : Z) : json := JObj [
  ("dealer"%string, JStr d); ("recipientIndex"%string, JNum 1); ("u"%string, JBytes (encode 2)); ("v"%string, JBytes (encode (x + 2 * 9)));
  ("proof"%string, JBytes []); ("scalarCt"%string, JBytes (encode x ++ replicate 16 0))].
Definition toy_round (shares : list json) : json := JObj [
  ("encryptedShares"%string, JArr shares);
  ("reveals"%string, JArr [JObj [("dealer"%string, JStr "v2"); ("to"%string, JStr "V1"); ("share"%string, JBytes [13])];
                           JObj [("dealer"%string, JStr "v3"); ("to"%string, JStr "V1"); ("share"%string, JBytes [4])]])].
Definition toy_committee : list Member := [mkMember "V1" 1 None; mkMember "v2" 2 None; mkMember "V3" 3 None].
Definition toy_state : Env (gmap Z EpochSecrets) world :=
  mkEnv {[7 := mkSecrets 7 1 ["3"; "5"]%string "0" (Some "9"%string)]} (mkWorld None None None [] [] [] []) [].

Lemma toy_waiting : waiting 7 [3; 5] 9 1 (mkSecrets 7 1 ["3"; "5"]%string "0" (Some "9"%string)).
Proof. split; [done..|vm_compute; reflexivity|]. exists "9"%string. split; [done|]. split; [discriminate|vm_compute; reflexivity]. Qed.

(** The second member sends a share and reveals it too; the third only
    reveals: 8 of our own, 13 and 4. *)
Lemma aggregate_sums_witness :
  ∃ s', handleDkgAggregate (P := Z) (λ _, []) toyClient (toyConfig "v1" 2) 7 toy_committee (toy_round [toy_share "V2" 13]) toy_state = (Ok true, s') ∧
    st_known s'.(e_store) 7 = Some (mkSecrets 7 1 ["3"; "5"]%string "19" (Some "9"%string)).
Proof.
  destruct (aggregate_sums (P := Z) (λ _, []) toyClient (toyConfig "v1" 2) 7 (mkSecrets 7 1 ["3"; "5"]%string "0" (Some "9"%string))
    (mkMember "V1" 1 None) toy_committee (toy_round [toy_share "V2" 13]) [3; 5] 9 1 [Some ("v2"%string, 13)]
    (λ d, if bool_decide (d = "v2"%string) then 13 else 4) toy_state) as [Hok _];
    [exact I|vm_compute; reflexivity|exact toy_waiting|vm_compute; reflexivity| |vm_compute; reflexivity| | |].
  - apply (bool_decide_unpack _). vm_compute. exact I.
  - intros d x Hd _. apply list_elem_of_singleton in Hd as [= -> ->]. split; [apply (bool_decide_unpack _); vm_compute; exact I|by split].
  - intros r d x Hr. apply elem_of_cons in Hr as [->|Hr]; [|apply list_elem_of_singleton in Hr as ->].
    + intros E. vm_compute in E. injection E as <- <-. split; [apply (bool_decide_unpack _); vm_compute; exact I|by split].
    + intros E. vm_compute in E. injection E as <- <-. split; [apply (bool_decide_unpack _); vm_compute; exact I|by split].
  - destruct Hok as (s' & E & _ & Hk).
    + intros d Hd. assert (Ho : d ∈ ["v2"%string; "v3"%string]) by exact Hd. apply elem_of_cons in Ho as [->|Ho]; [left; exists 13; by left|].
      apply list_elem_of_singleton in Ho as ->. right. eexists _, 4. split; [right; left|vm_compute; reflexivity].
    + exists s'. split; [exact E|]. rewrite Hk. vm_compute. reflexivity.
Defined.

Lemma zero_share_stalls_witness :
  ∃ msg s', handleDkgAggregate (P := Z) (λ _, []) toyClient (toyConfig "v1" 2) 7 toy_committee (toy_round [toy_share "V2" 0; toy_share "v3" 4]) toy_state = (Err msg, s') ∧
    s'.(e_world) = toy_state.(e_world).
Proof.
  destruct (zero_share_stalls (P := Z) (λ _, []) toyClient (toyConfig "v1" 2) 7 (mkSecrets 7 1 ["3"; "5"]%string "0" (Some "9"%string))
    (mkMember "V1" 1 None) toy_committee (toy_round [toy_share "V2" 0; toy_share "v3" 4]) [3; 5] 9 1 [] (toy_share "V2" 0) [toy_share "v3" 4] [] toy_state)
    as (msg & s' & E & _ & _ & Hw); [exact I|vm_compute; reflexivity|exact toy_waiting|vm_compute; reflexivity|reflexivity|reflexivity| |].
  - split; [vm_compute; discriminate|vm_compute; reflexivity|].
    exists (encode 2), (encode (0 + 2 * 9)), [], (encode 0 ++ replicate 16 0), 2, 18. repeat split; vm_compute; reflexivity.
  - exists msg, s'. split; [exact E|by apply Hw].
Defined.

End DealerAggregate.
