(* ===== verification/DealerDeal.v ===== *)
(** * From the committee to the player

    The shares that the dealers publish for a hand are accepted by the chain,
    and a player's bot that reads them from the chain recovers its cards: the
    key generation's sums, [handKeys] and [encShareFor] of the daemon on one
    side, [decryptHoleCards] of the bot on the other. *)
From stdpp Require Import base option list strings gmap.
From Stdlib Require Import ZArith Lia Ascii.
From S2P Require Import Prelude OcpBytes OcpGroup OcpTranscript OcpProofs OcpProofsThms BotHoleCards BotHoleThms Json Monads DealerTypes DealerDkg DealerShares DealerLemmas DealerDkgThms.
Import Bytes Group Hashing Proofs ProofsThms HoleCards HoleThms Json ExceptM DealerTypes DealerShares DealerLemmas DkgThms DealerToy.

Module DealerDeal.

Section deal.
Context {P : Type} `{RistrettoLaws P} `{HashOps} `{!HashLaws} (base64 : list ascii → bytes).
Context {D W : Type}.
Implicit Types (s : Env D W) (pk : P).

(** ** Shares of hole cards *)

(** A ciphertext of the decryption share [x*c1] under [pk]. *)
Definition enc_share_of (x : Z) (c1 pk : P) (encShare : bytes) : Prop :=
  ∃ (u v : P) r, encShare = groupElementToBytes u ++ groupElementToBytes v ∧ u ≡ zmul r BASE ∧ v ≡ p_add (zmul x c1) (zmul r pk).

Lemma encShareFor_inv xHand (yHand c1 pk : P) s encShare pfB s' :
  encShareFor xHand yHand c1 pk s = (Ok (encShare, pfB), s') → enc_share_of xHand c1 pk encShare.
Proof.
  unfold encShareFor. intros (d & Ed & E)%bind_ofRes_inv. apply bind_inv in E as (r & s1 & _ & E).
  apply bind_ofRes_inv in E as (u & Eu & E). apply bind_ofRes_inv in E as (rpk & Er & E). cbv zeta in E.
  apply bind_inv in E as (wx & s2 & _ & E). apply bind_inv in E as (wr & s3 & _ & E).
  apply bind_ofRes_inv in E as (pf & _ & E). apply bind_ofRes_inv in E as (b & _ & [= <- _ _]).
  change (mulBase (P := P)) with (mulPoint (BASE : P)) in Eu. apply mulPoint_ok in Ed as [_ Hd], Eu as [_ Hu], Er as [_ Hr].
  exists u, (pointAdd d rpk), r. unfold concatBytes. cbn [concat]. rewrite app_nil_r. split; [done|]. split; [done|].
  unfold pointAdd. by rewrite Hd, Hr.
Qed.

(** The chain's verifier does not refuse the proof that comes with it. *)
Definition enc_share_accepted (yHand c1 pk : P) (encShare pfB : bytes) : Prop :=
  ∃ (u v : P) pf, groupElementFromBytes (slice encShare 0 32) = Ok u ∧ groupElementFromBytes (slice encShare 32 64) = Ok v ∧
    decodeEncShareProof pfB = Ok pf ∧ ∀ b, encShareVerify yHand c1 pk u v pf = Ok b → b = true.

#[local] Instance point_bytes_Proper : Proper ((≡) ==> (=)) (groupElementToBytes (P := P)).
Proof. intros a b. apply toRawBytes_Proper. Qed.

#[local] Instance encShareChallenge_Proper y c1 pk : Proper ((≡) ==> (≡) ==> (≡) ==> (≡) ==> (≡) ==> (=)) (encShareChallenge (P := P) y c1 pk).
Proof.
  intros u u' Eu v v' Ev a1 a1' E1 a2 a2' E2 a3 a3' E3. unfold encShareChallenge.
  by rewrite (point_bytes_Proper _ _ Eu), (point_bytes_Proper _ _ Ev), (point_bytes_Proper _ _ E1), (point_bytes_Proper _ _ E2), (point_bytes_Proper _ _ E3).
Qed.

Lemma encShareFor_ok xHand (yHand c1 pk : P) r wx wr l s :
  nonzero xHand → yHand ≡ zmul xHand BASE → supply (r :: wx :: wr :: l) s →
  ∃ encShare pfB blocks, encShareFor xHand yHand c1 pk s = (Ok (encShare, pfB), mkEnv s.(e_store) s.(e_world) blocks) ∧
    supply l (mkEnv s.(e_store) s.(e_world) blocks) ∧ enc_share_of xHand c1 pk encShare ∧ enc_share_accepted yHand c1 pk encShare pfB.
Proof.
  intros Hx Hy Hs. unfold encShareFor. destruct (mulPoint_total c1 xHand Hx) as (d & Ed & Hd). erewrite bind_ofRes; [|exact Ed].
  destruct (nonzeroScalar_ok _ _ _ Hs) as (b1 & E1 & Hs1 & Hr). erewrite bind_ok; [|exact E1].
  destruct (mulBase_ok r Hr) as (u & Eu & Hu). erewrite bind_ofRes; [|exact Eu].
  destruct (mulPoint_total pk r Hr) as (rpk & Erpk & Hrpk). erewrite bind_ofRes; [|exact Erpk]. cbv zeta. set (v := pointAdd d rpk).
  destruct (nonzeroScalar_ok _ _ _ Hs1) as (b2 & E2 & Hs2 & Hwx). erewrite bind_ok; [|exact E2].
  destruct (nonzeroScalar_ok _ _ _ Hs2) as (b3 & E3 & Hs3 & Hwr). erewrite bind_ok; [|exact E3]. cbn [e_store e_world] in *.
  destruct (encShareProve_ok yHand c1 pk u v xHand r wx wr (nonzero_canonical _ Hx) (nonzero_canonical _ Hr) Hwx Hwr) as (pf & e & Ep & Ee & Hpf).
  erewrite bind_ofRes; [|exact Ep]. pose proof Hpf as [He Ha1 Ha2 Ha3 Hs1' Hsr'].
  assert (Hcs1 : canonical pf.(es_s1)) by (rewrite Hs1'; apply scalarAdd_canonical).
  assert (Hcsr : canonical pf.(es_sr)) by (rewrite Hsr'; apply scalarAdd_canonical).
  destruct (encShareProof_roundtrip pf Hcs1 Hcsr) as (pfB & pf' & EpB & _ & Edec & F1 & F2 & F3 & F4 & F5).
  erewrite bind_ofRes; [|exact EpB]. unfold concatBytes. cbn [concat]. rewrite app_nil_r.
  assert (Hv : v ≡ p_add (zmul xHand c1) (zmul r pk)) by (unfold v, pointAdd; by rewrite Hd, Hrpk).
  do 3 eexists. split; [reflexivity|]. split; [done|]. split; [by exists u, v, r|].
  destruct (groupElement_decode u) as (u' & Eu' & Hu'), (groupElement_decode v) as (v' & Ev' & Hv').
  exists u', v', pf'. rewrite slice_here by apply point_length. rewrite (slice_skip (groupElementToBytes u) _ 32) by (apply point_length || lia).
  cbn [Nat.sub]. rewrite <-(app_nil_r (groupElementToBytes v)), slice_here by apply point_length.
  split; [done|]. split; [done|]. split; [done|]. unfold encShareVerify. rewrite F4, F5, !assertScalar_total by done. cbn [rbind].
  assert (encShareChallenge yHand c1 pk u' v' pf'.(es_a1) pf'.(es_a2) pf'.(es_a3) = Ok e) as -> by by rewrite Hu', Hv', F1, F2, F3.
  cbn [rbind]. eapply honest_complete; [split; [exact Hy|split; [by rewrite Hu'|by rewrite Hv', Hv]]|].
  eapply honest_proof_equiv, Hpf; done.
Qed.

(** One share of a hole card.  For a position of the deck [sharePosition]
    computes a ciphertext of its decryption share under the player's key with a
    proof the chain's verifier does not refuse, and submits them; it goes on
    when the chain accepts them or has them already, stops serving when the
    hand has moved on, and throws any other refusal.  A hole position that is
    missing, marked as none, or outside the deck is skipped without drawing a
    scalar or calling the chain. *)
Theorem sharePosition_submits `{AeadOps} (client : DealerClient W) config tableId handId xHand (yHand : P) deck holePos seat pkB pk cardIdx s :
  let me := config.(validatorAddress) in
  let share := sharePosition client config tableId handId xHand yHand deck holePos seat pkB pk cardIdx in
  (∀ pos ct r wx wr l, nonzero xHand → yHand ≡ zmul xHand BASE → supply (r :: wx :: wr :: l) s →
     holePos !! (seat * 2 + cardIdx)%nat = Some pos → 0 <= pos → pos ≠ 255 → deck !! Z.to_nat pos = Some ct →
     ∃ encShare pfB blocks, enc_share_of xHand ct.(ct_c1) pk encShare ∧ enc_share_accepted yHand ct.(ct_c1) pk encShare pfB ∧
       ∀ r w', client.(dealerSubmitEncShare) me tableId handId pos pkB encShare pfB s.(e_world) = (r, w') →
         share s = (match r with
                    | Ok _ => Ok false
                    | Err msg => if includes msg "already" || includes msg "duplicate" then Ok false
                                 else if includes msg "not in shuffle phase" then Ok true else Err msg
                    end, mkEnv s.(e_store) w' blocks)) ∧
  (match holePos !! (seat * 2 + cardIdx)%nat with
   | Some pos => pos < 0 ∨ pos = 255 ∨ deck !! Z.to_nat pos = None
   | None => True
   end → share s = (Ok false, s)).
Proof.
  cbv zeta. unfold sharePosition. split.
  - intros pos ct r wx wr l Hx Hy Hs Hpos H0' H255 Hct. rewrite Hpos, (proj2 (Z.ltb_ge pos 0)), (proj2 (Z.eqb_neq pos 255)), Hct by done. cbn [orb].
    destruct (encShareFor_ok xHand yHand ct.(ct_c1) pk r wx wr l s Hx Hy Hs) as (encShare & pfB & bl & E & _ & Hof & Hacc).
    exists encShare, pfB, bl. split; [done|]. split; [done|]. intros res w' Ew. erewrite bind_ok; [|exact E].
    unfold submitEncShare, tryCatch. destruct res as [[]|msg].
    + erewrite bind_ok; [|by apply await_ok]. done.
    + erewrite bind_err; [|unfold await; cbn [e_world e_store e_random]; by rewrite Ew].
      destruct (_ || _); [done|]. by destruct (includes msg "not in shuffle phase").
  - destruct (holePos !! _) as [pos|]; [|done]. intros Hp. destruct ((pos <? 0) || (pos =? 255)) eqn:E; [done|]. b2p.
    by destruct Hp as [Hp|[Hp| ->]]; [lia..|].
Qed.

(** ** The hand's secret *)

(** The scalar that the hand's data determine, the same for every dealer. *)
Definition handHash (epochId : Z) (tableId handId : string) (initHeightRaw initSaltRaw : json) : res Scalar :=
  let! initHeight := toBig initHeightRaw in
  let! initSalt := decodeSaltBytes base64 initSaltRaw in
  let! t := idNumber tableId in
  let! h := idNumber handId in
  handScalar epochId t h initHeight initSalt.

Lemma handKeys_inv share epochId tableId handId ih salt xHand (yHand : P) :
  handKeys base64 share epochId tableId handId ih salt = Ok (Some (xHand, yHand)) →
  ∃ hs, handHash epochId tableId handId ih salt = Ok hs ∧ xHand = scalarMul share hs ∧ nonzero xHand ∧ yHand ≡ zmul xHand BASE.
Proof.
  unfold handKeys, handHash. intros (h & -> & (b & -> & E)%rbind_ok)%rbind_ok. cbn [rbind].
  destruct (negb (length b =? 32)%nat); [done|]. revert E. intros (t & -> & (hd & -> & (hs & Ehs & (y & Ey & E)%rbind_ok)%rbind_ok)%rbind_ok)%rbind_ok.
  cbn [rbind]. rewrite Ehs. injection E as <- <-. change (mulBase (P := P)) with (mulPoint (BASE : P)) in Ey. apply mulPoint_ok in Ey as [Hn Hy]. by exists hs.
Qed.

(** ** The committee *)

Section committee.
Variables (polys : list (list Z)) (t : nat) (epoch : Z) (tableId handId : string) (initHeight initSalt : json) (hs : Scalar).
Hypothesis polys_degree : Forall (λ f : list Z, (length f <= t)%nat) polys.
Hypothesis hand_hash : handHash epoch tableId handId initHeight initSalt = Ok hs.

(** The secret share of the member with index [x], as the aggregation stores it. *)
Definition secretOf (x : Z) : Z := sumZ (map (poly_value x) polys) mod q.

(** The hand's polynomial. *)
Definition handPoly : list Z := map (Z.mul hs) (foldr add_coeffs [] polys).

Lemma sum_value x : poly_value x (foldr add_coeffs [] polys) = sumZ (map (poly_value x) polys).
Proof. clear. induction polys as [|f fs IH]; [done|]. cbn [foldr map]. by rewrite add_coeffs_value, IH, sumZ_cons. Qed.

Lemma handPoly_value x : poly_value x handPoly = hs * sumZ (map (poly_value x) polys).
Proof. unfold handPoly. by rewrite scale_value, sum_value. Qed.

Lemma handPoly_length : (length handPoly <= t)%nat.
Proof.
  unfold handPoly. rewrite length_map. pose proof polys_degree as Hp. clear -Hp. induction Hp as [|f fs Hf _ IH]; [simpl; lia|]. cbn [foldr].
  rewrite add_coeffs_length. lia.
Qed.

Variables (pkB : bytes) (PK : P) (skPlayer : Scalar).

(** The entry of the chain's list with the share that the member with index
    [x] computed, for the player, of the card at [pos] with first component
    [c1]. *)
Record published (pos x : Z) (c1 : P) (es : EncShareJson) : Prop := {
  pub_pos : readNum es.(es_pos) = Some pos;
  pub_key : toBytes base64 (coalesce es.(es_pkPlayer) es.(es_pk_player)) = Ok pkB;
  pub_index : readNum es.(es_index) = Some x;
  pub_share : ∃ xHand (yHand : P) s s' encShare pfB,
    handKeys base64 (secretOf x) epoch tableId handId initHeight initSalt = Ok (Some (xHand, yHand)) ∧
    encShareFor xHand yHand c1 PK s = (Ok (encShare, pfB), s') ∧
    toBytes base64 (coalesce es.(es_encShare) es.(es_enc_share)) = Ok encShare
}.

Lemma published_honest pos x c1 es : published pos x c1 es → honest_share base64 pkB PK pos x (zmul (poly_value x handPoly) c1) es.
Proof.
  intros [Hp Hk Hx (xHand & yHand & s & s' & encShare & pfB & Ek & Es & Eb)]. split; [done|]. split; [done|]. split; [done|].
  destruct (encShareFor_inv _ _ _ _ _ _ _ _ Es) as (u & v & r & -> & Hu & Hv). exists u, v, r. split; [done|]. split; [done|]. rewrite Hv. f_equiv.
  destruct (handKeys_inv _ _ _ _ _ _ _ _ Ek) as (hs' & Ehs & -> & _ & _). rewrite hand_hash in Ehs. injection Ehs as <-.
  unfold scalarMul. rewrite zmul_scalarMod, handPoly_value. rewrite (zmul_mod (secretOf x * hs) (hs * sumZ (map (poly_value x) polys))); [done|].
  unfold secretOf. rewrite Zmult_mod_idemp_l. f_equal. lia.
Qed.

(** The chain's list has the shares of [c1] of the members [xs], in that order,
    among entries for other cards and players and malformed ones. *)
Inductive publishes (c1 : P) (pos : Z) : list EncShareJson → list Z → Prop :=
| publishes_nil : publishes c1 pos [] []
| publishes_skip es l xs : ignored_share (P := P) base64 pkB skPlayer pos es → publishes c1 pos l xs → publishes c1 pos (es :: l) xs
| publishes_take es l x xs : published pos x c1 es → publishes c1 pos l xs → publishes c1 pos (es :: l) (x :: xs).

Lemma publishes_delivers c1 pos l xs : publishes c1 pos l xs → delivers base64 pkB PK skPlayer handPoly c1 pos l xs.
Proof.
  induction 1 as [|es l xs Hi _ IH|es l x xs Hp _ IH]; [constructor|by apply delivers_skip|]. apply delivers_take; [|done].
  by apply published_honest.
Qed.

(** A card dealt at a position: the deck's entry encrypts it under the hand's
    public key, which is the committee's public key times [hs], and at least
    [t] members with distinct indices published their shares of it. *)
Record hand_dealt (deck : list (option (option raw))) (encShares : list EncShareJson) (pos : Z) (id : nat) : Prop := {
  hd_pos : 0 <= pos ∧ pos ≠ 255;
  hd_id : (id < 52)%nat;
  hd_entry : ∃ c2Raw (c1 c2 pkHand : P) rho xs,
    deck !! Z.to_nat pos = Some (Some c2Raw) ∧ falsyRaw c2Raw = false ∧ toBytes base64 c2Raw = Ok (groupElementToBytes c2) ∧
    pkHand ≡ zmul hs (zmul (sumZ (map (poly_value 0) polys)) BASE) ∧ c1 ≡ zmul rho BASE ∧ c2 ≡ p_add (cardPoint id) (zmul rho pkHand) ∧
    publishes c1 pos encShares xs ∧ distinct xs ∧ Forall (λ x, ¬ cong x 0) xs ∧ (t <= length xs)%nat ∧ xs ≠ []
}.

Lemma hand_dealt_dealt deck encShares pos id : hand_dealt deck encShares pos id → dealt base64 pkB PK skPlayer deck encShares handPoly pos id.
Proof.
  intros [Hpos Hid (c2Raw & c1 & c2 & pkHand & rho & xs & Hdeck & Hf & Hraw & Hpk & Hc1 & Hc2 & Hpub & Hd & Hn & Hlen & Hne)].
  split; [done|done|]. exists c2Raw, c2, c1, xs. do 3 (split; [done|]). split.
  { rewrite Hc2, Hpk, Hc1, handPoly_value, zmul_mul. f_equiv. by rewrite (zmul_comm rho hs), (zmul_comm rho), zmul_comm. }
  split; [by apply publishes_delivers|]. do 2 (split; [done|]). split; [|done]. pose proof handPoly_length. lia.
Qed.

(** C4. From the committee to the player.  Let each committee member hold the
    secret share that the aggregation stores, the sum of all dealers'
    polynomials at its index; let two cards be dealt, encrypted under the hand
    key derived from the committee's key; and let, for each, members with
    distinct indices, at least as many as any polynomial has coefficients,
    publish what [handKeys] and [encShareFor] of the daemon compute for the
    player.  Then [decryptHoleCards] of the player's bot returns the two cards. *)
Theorem committee_deals dh encShares pos0 pos1 id0 id1 :
  nonzero skPlayer → PK ≡ zmul skPlayer BASE →
  coalesce dh.(dh_encShares) dh.(dh_enc_shares) = Some encShares →
  hand_dealt (default [] dh.(dh_deck)) encShares pos0 id0 →
  hand_dealt (default [] dh.(dh_deck)) encShares pos1 id1 →
  decryptHoleCards (P := P) base64 (Some dh) (pos0, pos1) pkB skPlayer = Ok (Some (id0, id1)).
Proof.
  intros Hsk HPK Hes H0' H1'. unfold decryptHoleCards. cbn [mbind option_bind fst snd]. rewrite Hes. cbn [default from_option id].
  change (option_bind _ _ dh_deck (Some dh)) with (dh_deck dh).
  by rewrite (decryptPosition_ok base64 pkB PK skPlayer Hsk HPK _ _ handPoly _ _ (hand_dealt_dealt _ _ _ _ H0')),
    (decryptPosition_ok base64 pkB PK skPlayer Hsk HPK _ _ handPoly _ _ (hand_dealt_dealt _ _ _ _ H1')).
Qed.
End committee.
End deal.

(** ** Witnesses *)
Import Residue Toy ToyAead.

(** Two dealers with polynomials 2 + x and 5 + 2x. *)
Definition toy_polys : list (list Z) := [[2; 1]; [5; 2]].
Definition toy_salt : json := JBytes (replicate 32 1).
Definition toy_hash_scalar : Z := match handHash (λ _, []) 1 "1" "1" (JNum 5) toy_salt with Ok hs => hs | Err _ => 0 end.
Definition toy_env : Env unit unit := mkEnv tt tt (map block [3; 4; 6]).

Definition toy_enc_share (x c1 : Z) : bytes :=
  match handKeys (P := Z) (λ _, []) (secretOf toy_polys x) 1 "1" "1" (JNum 5) toy_salt with
  | Ok (Some (xHand, yHand)) => match (encShareFor xHand yHand c1 (5 : Z) toy_env).1 with Ok (b, _) => b | Err _ => [] end
  | _ => []
  end.
Definition toy_entry (pos x c1 : Z) : EncShareJson :=
  mkEncShareJson (NumInt pos) (Some (RawBytes (encode 5))) None (Some (RawBytes (toy_enc_share x c1))) None (NumInt x).
Definition toy_cipher (id : nat) (rho : Z) : bytes := encode ((Z.of_nat (id + 1) + rho * (toy_hash_scalar * 7)) mod CURVE_ORDER).
Definition toy_shares : list EncShareJson := [toy_entry 0 1 2; toy_entry 1 1 3; toy_entry 0 2 2; toy_entry 1 2 3].
Definition toy_hand : DealerHandJson :=
  mkDealerHandJson (Some [Some (Some (RawBytes (toy_cipher 4 2))); Some (Some (RawBytes (toy_cipher 11 3)))]) None (Some toy_shares).

Lemma toy_published pos x c1 :
  (match handKeys (P := Z) (λ _, []) (secretOf toy_polys x) 1 "1" "1" (JNum 5) toy_salt with
   | Ok (Some (xHand, yHand)) => is_ok (encShareFor xHand yHand c1 (5 : Z) toy_env).1 | _ => false end) = true →
  published (P := Z) (λ _, []) (D := unit) (W := unit) toy_polys 1 "1" "1" (JNum 5) toy_salt (encode 5) 5 pos x c1 (toy_entry pos x c1).
Proof.
  intros Hok. split; [done..|]. unfold toy_entry, toy_enc_share. destruct (handKeys _ _ _ _ _ _ _) as [[[xHand yHand]|]|]; [|done..].
  destruct (encShareFor xHand yHand c1 5 toy_env) as [[[b pfB]|] s'] eqn:E; [|done]. by exists xHand, yHand, toy_env, s', b, pfB.
Qed.

Ltac dealt c1 rho id :=
  split; [split; vm_compute; congruence|lia|];
  eexists (Some (RawBytes (toy_cipher id rho))), c1, ((Z.of_nat (id + 1) + rho * (toy_hash_scalar * 7)) mod CURVE_ORDER), (toy_hash_scalar * 7), rho, [1; 2];
  split; [reflexivity|]; split; [reflexivity|]; split; [vm_compute; reflexivity|];
  split; [rewrite <-!zmul_residue; vm_compute; reflexivity|]; split; [rewrite <-zmul_residue; vm_compute; reflexivity|];
  split; [unfold cardPoint; rewrite <-!zmul_residue; vm_compute; reflexivity|];
  split; [|split; [apply (bool_decide_unpack _); vm_compute; exact I|split; [repeat constructor; apply not_cong_zero; split; vm_compute; reflexivity|split; [simpl; lia|discriminate]]]].

Lemma committee_deals_witness : decryptHoleCards (P := Z) (λ _, []) (Some toy_hand) (0, 1) (encode 5) 5 = Ok (Some (4%nat, 11%nat)).
Proof.
  apply (committee_deals (P := Z) (D := unit) (W := unit) (λ _, []) toy_polys 2 1 "1" "1" (JNum 5) toy_salt toy_hash_scalar
    ltac:(repeat constructor) ltac:(vm_compute; reflexivity) (encode 5) 5 5 toy_hand toy_shares);
    [split; vm_compute; reflexivity|exact (zmul_residue 5 1)|reflexivity| |].
  - dealt 2 2 4%nat. apply publishes_take; [by apply toy_published; vm_compute|]. apply publishes_skip; [by left|].
    apply publishes_take; [by apply toy_published; vm_compute|]. apply publishes_skip; [by left|]. apply publishes_nil.
  - dealt 3 3 11%nat. apply publishes_skip; [by left|]. apply publishes_take; [by apply toy_published; vm_compute|].
    apply publishes_skip; [by left|]. apply publishes_take; [by apply toy_published; vm_compute|]. apply publishes_nil.
Defined.

Lemma sharePosition_submits_witness :
  ∃ s', sharePosition (P := Z) toyClient (toyConfig "v1" 2) "1" "1" 10 10 [mkCt 2 7] [0; 1] 0 (encode 5) 5 0
    (mkEnv tt (mkWorld None None None [] [] [] []) (map block [3; 4; 6])) = (Ok false, s').
Proof.
  destruct (sharePosition_submits (P := Z) toyClient (toyConfig "v1" 2) "1" "1" 10 10 [mkCt 2 7] [0; 1] 0 (encode 5) 5 0
    (mkEnv tt (mkWorld None None None [] [] [] []) (map block [3; 4; 6]))) as [Hok _].
  destruct (Hok 0 (mkCt 2 7) 3 4 6 []) as (encShare & pfB & bl & _ & _ & Hrun);
    [split; vm_compute; reflexivity|exact (zmul_residue 10 1)|split; [repeat constructor; discriminate|vm_compute; reflexivity]|reflexivity|done|done|reflexivity|].
  eexists. exact (Hrun (Ok tt) _ eq_refl).
Defined.

End DealerDeal.
