(* ===== verification/JsonText.v ===== *)
(** * [JSON.stringify] and [JSON.parse]

    The text of a JSON value, compact or indented by two spaces, and the
    parser.  The values are those that have a text of their own: no [undefined],
    bigint or bytes; numbers are integers and characters are single bytes.  What
    [stringify] writes [parse] reads back. *)
From stdpp Require Import base option list strings pretty numbers.
From Stdlib Require Import ZArith Lia Ascii NArith.
From S2P Require Import Prelude OcpBytes Json.
Import Bytes Json.

Module JsonText.

(** ** Writing *)

Definition quoteMark : ascii := ascii_of_nat 34.
Definition backslash : ascii := ascii_of_nat 92.

(** A character within a string. *)
Definition quoteChar (c : ascii) : list ascii :=
  let n := nat_of_ascii c in
  if (n =? 34)%nat then [backslash; quoteMark]
  else if (n =? 92)%nat then [backslash; backslash]
  else if (n =? 8)%nat then [backslash; "b"%char]
  else if (n =? 9)%nat then [backslash; "t"%char]
  else if (n =? 10)%nat then [backslash; "n"%char]
  else if (n =? 12)%nat then [backslash; "f"%char]
  else if (n =? 13)%nat then [backslash; "r"%char]
  else if (n <? 32)%nat then backslash :: "u"%char :: "0"%char :: "0"%char :: byteToHex (Z.of_nat n)
  else [c].

Definition quoteString (s : string) : list ascii :=
  quoteMark :: concat (map quoteChar (String.list_ascii_of_string s)) ++ [quoteMark].

(** The line break of the indented form; none in the compact one. *)
Definition newline (indent : bool) (level : nat) : list ascii :=
  if indent then ascii_of_nat 10 :: replicate (2 * level) " "%char else [].

(** The items of an array or the members of an object, between brackets. *)
Definition bracket (indent : bool) (level : nat) (open close : ascii) (items : list (list ascii)) : list ascii :=
  match items with
  | [] => [open; close]
  | item :: items =>
      open :: newline indent (S level) ++ item ++ concat (map (λ i, ","%char :: newline indent (S level) ++ i) items) ++
      newline indent level ++ [close]
  end.

Definition colon (indent : bool) : list ascii := if indent then [":"%char; " "%char] else [":"%char].

Fixpoint stringifyAt (indent : bool) (level : nat) (j : json) : list ascii :=
  match j with
  | JNull => String.list_ascii_of_string "null"
  | JBool b => String.list_ascii_of_string (if b then "true" else "false")
  | JNum z => String.list_ascii_of_string (pretty z)
  | JStr s => quoteString s
  | JArr l => bracket indent level "[" "]" (map (stringifyAt indent (S level)) l)
  | JObj fields => bracket indent level "{" "}" (map (λ kv, quoteString (fst kv) ++ colon indent ++ stringifyAt indent (S level) (snd kv)) fields)
  | JUndefined | JBig _ | JBytes _ => []
  end.

(** [JSON.stringify(j)] and [JSON.stringify(j, null, 2)] *)
Definition stringify (indent : bool) (j : json) : list ascii := stringifyAt indent 0 j.

(** ** Reading *)

Fixpoint skipWs (l : list ascii) : list ascii :=
  match l with
  | c :: l' => let n := nat_of_ascii c in
               if ((n =? 32) || (n =? 10) || (n =? 13) || (n =? 9))%nat then skipWs l' else l
  | [] => []
  end.

(** The character after a backslash, other than [u]. *)
Definition unescape (c : ascii) : option ascii :=
  match nat_of_ascii c with
  | 34%nat => Some quoteMark
  | 92%nat => Some backslash
  | 47%nat => Some "/"%char
  | 98%nat => Some (ascii_of_nat 8)
  | 116%nat => Some (ascii_of_nat 9)
  | 110%nat => Some (ascii_of_nat 10)
  | 102%nat => Some (ascii_of_nat 12)
  | 114%nat => Some (ascii_of_nat 13)
  | _ => None
  end.

(** The rest of a string after its opening quotation mark. *)
Fixpoint parseChars (fuel : nat) (l : list ascii) : option (list ascii * list ascii) :=
  match fuel with
  | O => None
  | S fuel =>
      match l with
      | [] => None
      | c :: l =>
          if Ascii.eqb c quoteMark then Some ([], l)
          else if Ascii.eqb c backslash then
            match l with
            | "u"%char :: "0"%char :: "0"%char :: a :: b :: l =>
                n ← allDigits 16 0 [a; b]; '(cs, l) ← parseChars fuel l; Some (ascii_of_nat (Z.to_nat n) :: cs, l)
            | e :: l => c ← unescape e; '(cs, l) ← parseChars fuel l; Some (c :: cs, l)
            | [] => None
            end
          else if (nat_of_ascii c <? 32)%nat then None
          else '(cs, l) ← parseChars fuel l; Some (c :: cs, l)
      end
  end.

(** The digits at the head of a text. *)
Fixpoint spanDigits (l : list ascii) : list ascii * list ascii :=
  match l with
  | c :: l' => match decimalValue c with
               | Some _ => let '(ds, r) := spanDigits l' in (c :: ds, r)
               | None => ([], l)
               end
  | [] => ([], [])
  end.

(** An integer, without leading zeros. *)
Definition parseNat (l : list ascii) : option (Z * list ascii) :=
  let '(ds, r) := spanDigits l in
  match ds with
  | [] => None
  | "0"%char :: _ :: _ => None
  | _ => n ← allDigits 10 0 ds; Some (n, r)
  end.
Definition parseNumber (l : list ascii) : option (Z * list ascii) :=
  match l with
  | "-"%char :: l => '(n, r) ← parseNat l; Some (- n, r)
  | _ => parseNat l
  end.

Definition expect (c : ascii) (l : list ascii) : option (list ascii) :=
  match skipWs l with c' :: l => if Ascii.eqb c' c then Some l else None | [] => None end.

Fixpoint parseValue (fuel : nat) (l : list ascii) : option (json * list ascii) :=
  match fuel with
  | O => None
  | S fuel =>
      match skipWs l with
      | "n"%char :: "u"%char :: "l"%char :: "l"%char :: l => Some (JNull, l)
      | "t"%char :: "r"%char :: "u"%char :: "e"%char :: l => Some (JBool true, l)
      | "f"%char :: "a"%char :: "l"%char :: "s"%char :: "e"%char :: l => Some (JBool false, l)
      | "["%char :: l =>
          match skipWs l with
          | "]"%char :: l => Some (JArr [], l)
          | l => '(vs, l) ← parseItems fuel l; Some (JArr vs, l)
          end
      | "{"%char :: l =>
          match skipWs l with
          | "}"%char :: l => Some (JObj [], l)
          | l => '(kvs, l) ← parseMembers fuel l; Some (JObj kvs, l)
          end
      | c :: l' =>
          if Ascii.eqb c quoteMark then '(cs, l) ← parseChars fuel l'; Some (JStr (String.string_of_list_ascii cs), l)
          else '(n, r) ← parseNumber (c :: l'); Some (JNum n, r)
      | [] => None
      end
  end
with parseItems (fuel : nat) (l : list ascii) : option (list json * list ascii) :=
  match fuel with
  | O => None
  | S fuel =>
      '(v, l) ← parseValue fuel l;
      match expect "," l with
      | Some l => '(vs, l) ← parseItems fuel l; Some (v :: vs, l)
      | None => l ← expect "]" l; Some ([v], l)
      end
  end
with parseMembers (fuel : nat) (l : list ascii) : option (list (string * json) * list ascii) :=
  match fuel with
  | O => None
  | S fuel =>
      l ← expect quoteMark l;
      '(k, l) ← parseChars fuel l;
      l ← expect ":" l;
      '(v, l) ← parseValue fuel l;
      let kv := (String.string_of_list_ascii k, v) in
      match expect "," l with
      | Some l => '(kvs, l) ← parseMembers fuel l; Some (kv :: kvs, l)
      | None => l ← expect "}" l; Some ([kv], l)
      end
  end.

(** [JSON.parse(text)]; every call but the string's consumes a character or is
    followed by one that does. *)
Definition parse (text : list ascii) : option json :=
  match parseValue (2 * length text + 2) text with
  | Some (j, l) => if (length (skipWs l) =? 0)%nat then Some j else None
  | None => None
  end.

Definition sample : json := JObj [("a"%string, JNum (-12)); ("b"%string, JArr [JStr "x y"; JNull; JBool true]); ("c"%string, JObj [])].
Example sample_text : String.string_of_list_ascii (stringify false (JArr [JNum (-12); JNull; JArr []])) = "[-12,null,[]]"%string.
Proof. vm_compute. reflexivity. Qed.
Example sample_compact : parse (stringify false sample) = Some sample.
Proof. vm_compute. reflexivity. Qed.
Example sample_indented : parse (stringify true sample) = Some sample.
Proof. vm_compute. reflexivity. Qed.
Example trailing : parse (String.list_ascii_of_string "1 2") = None.
Proof. vm_compute. reflexivity. Qed.

End JsonText.

(** ** [JSON.parse] reads back what [JSON.stringify] writes *)
Import Bytes Json JsonText.

Module JsonTextThms.

(** ** Induction on values *)

Section json_ind.
Variable Q : json → Prop.
Hypothesis Hatom : ∀ j, match j with JArr _ | JObj _ => False | _ => True end → Q j.
Hypothesis Harr : ∀ l, Forall Q l → Q (JArr l).
Hypothesis Hobj : ∀ fields, Forall (λ kv : string * json, Q (snd kv)) fields → Q (JObj fields).

Fixpoint json_nested_ind (j : json) : Q j :=
  match j with
  | JArr l => Harr l ((fix go (l : list json) : Forall Q l :=
      match l with [] => Forall_nil_2 Q | x :: l => Forall_cons_2 Q x l (json_nested_ind x) (go l) end) l)
  | JObj fields => Hobj fields ((fix go (l : list (string * json)) : Forall (λ kv : string * json, Q (snd kv)) l :=
      match l with [] => Forall_nil_2 _ | x :: l => Forall_cons_2 _ x l (json_nested_ind (snd x)) (go l) end) fields)
  | j => Hatom j I
  end.
End json_ind.

(** The values with a text. *)
Fixpoint plain (j : json) : bool :=
  match j with
  | JUndefined | JBig _ | JBytes _ => false
  | JNull | JBool _ | JNum _ | JStr _ => true
  | JArr l => forallb plain l
  | JObj fields => forallb (λ kv, plain (snd kv)) fields
  end.

(** ** White space *)

Definition isWs (c : ascii) : bool :=
  let n := nat_of_ascii c in ((n =? 32) || (n =? 10) || (n =? 13) || (n =? 9))%nat.

Lemma skipWs_cons c l : skipWs (c :: l) = if isWs c then skipWs l else c :: l.
Proof. done. Qed.

Lemma skipWs_app ws l : Forall (λ c, isWs c = true) ws → skipWs (ws ++ l) = skipWs l.
Proof. induction 1 as [|c ws Hc _ IH]; [done|]. cbn [app]. by rewrite skipWs_cons, Hc. Qed.

Lemma newline_ws indent level : Forall (λ c, isWs c = true) (newline indent level).
Proof. destruct indent; cbn [newline]; [|constructor]. constructor; [done|]. by apply Forall_replicate. Qed.

(** ** Strings *)

Lemma ascii_ind256 (Q : ascii → Prop) (f : ascii → bool) :
  forallb (λ n, f (ascii_of_nat n)) (seq 0 256) = true → (∀ c, f c = true → Q c) → ∀ c, Q c.
Proof.
  intros Hf HQ c. apply HQ. rewrite forallb_forall in Hf. rewrite <-(ascii_nat_embedding c). apply Hf.
  apply in_seq. pose proof (nat_ascii_bounded c). lia.
Qed.

Lemma parseChars_quote fuel l : parseChars (S fuel) (quoteMark :: l) = Some ([], l).
Proof. done. Qed.

(** One character as written is read in one round. *)
Lemma parseChars_char c fuel l :
  parseChars (S fuel) (quoteChar c ++ l) = '(cs, r) ← parseChars fuel l; Some (c :: cs, r).
Proof. destruct c as [[] [] [] [] [] [] [] []]; reflexivity. Qed.

Lemma quoteChar_length c : (1 <= length (quoteChar c))%nat.
Proof. destruct c as [[] [] [] [] [] [] [] []]; vm_compute; lia. Qed.

Lemma parseChars_ok cs fuel rest : (length (concat (map quoteChar cs)) < fuel)%nat →
  parseChars fuel (concat (map quoteChar cs) ++ quoteMark :: rest) = Some (cs, rest).
Proof.
  revert fuel. induction cs as [|c cs IH]; intros [|fuel] Hf; [lia|done|lia|]. cbn [map concat] in *. rewrite length_app in Hf.
  rewrite <-app_assoc, parseChars_char, IH; [done|]. pose proof (quoteChar_length c). lia.
Qed.

Lemma quoteString_app s rest : quoteString s ++ rest = quoteMark :: concat (map quoteChar (String.list_ascii_of_string s)) ++ quoteMark :: rest.
Proof. unfold quoteString. cbn [app]. by rewrite <-app_assoc. Qed.

Lemma quoteString_length s : length (quoteString s) = S (S (length (concat (map quoteChar (String.list_ascii_of_string s))))).
Proof. unfold quoteString. cbn [length]. rewrite length_app. cbn. lia. Qed.

(** ** Numbers *)

Definition isDigit (c : ascii) : bool := if decimalValue c is Some _ then true else false.
Definition no_digit (rest : list ascii) : Prop := match rest with c :: _ => isDigit c = false | [] => True end.

Lemma spanDigits_ok ds rest : Forall (λ c, isDigit c = true) ds → no_digit rest → spanDigits (ds ++ rest) = (ds, rest).
Proof.
  intros Hds Hr. induction Hds as [|c ds Hc _ IH]; cbn [app spanDigits].
  - destruct rest as [|c rest]; [done|]. unfold no_digit, isDigit in Hr. cbn [spanDigits]. by destruct (decimalValue c).
  - unfold isDigit in Hc. destruct (decimalValue c); [|done]. by rewrite IH.
Qed.

Lemma digit_char d : (d < 10)%N →
  isDigit (pretty_N_char d) = true ∧ digitValue (pretty_N_char d) = Some (Z.of_N d) ∧ (d ≠ 0%N → pretty_N_char d ≠ "0"%char).
Proof. intros Hd. assert (Hd' : (d < 10)%N) by done. destruct d as [|[[[[]|[]|]|[[]|[]|]|]|[[[]|[]|]|[[]|[]|]|]|]]; try (exfalso; lia); repeat split; by vm_compute. Qed.

(** The decimal digits of a positive number. *)
Lemma pretty_digits (n : N) (t : string) : (0 < n)%N →
  ∃ c ds, String.list_ascii_of_string (pretty_N_go n t) = (c :: ds) ++ String.list_ascii_of_string t ∧ c ≠ "0"%char ∧
    Forall (λ c, isDigit c = true) (c :: ds) ∧ ∀ l, allDigits 10 0 ((c :: ds) ++ l) = allDigits 10 (Z.of_N n) l.
Proof.
  revert t. induction n as [n IH] using (well_founded_induction N.lt_wf_0). intros t Hn.
  assert (Hmod : (n `mod` 10 < 10)%N) by (apply N.mod_lt; lia). destruct (digit_char _ Hmod) as (Hdig & Hval & Hne).
  assert (Hstep : ∀ acc l, allDigits 10 acc (pretty_N_char (n `mod` 10) :: l) = allDigits 10 (acc * 10 + Z.of_N (n `mod` 10)) l).
  { intros acc l. cbn [allDigits]. rewrite Hval. by rewrite (proj2 (Z.ltb_lt _ 10)) by lia. }
  rewrite pretty_N_go_step by done. destruct (decide (n `div` 10 = 0)%N) as [E|E].
  - rewrite E, pretty_N_go_0. exists (pretty_N_char (n `mod` 10)), []. cbn [String.list_ascii_of_string app]. split; [done|].
    assert (Hn10 : n = (n `mod` 10)%N) by (pose proof (N.div_mod n 10 ltac:(lia)); lia).
    split; [apply Hne; lia|]. split; [by constructor|]. intros l. rewrite Hstep. f_equal. lia.
  - assert (Hpos : (0 < n `div` 10)%N) by (generalize dependent (n `div` 10)%N; intros; lia).
    destruct (IH (n `div` 10)%N (N.div_lt n 10 Hn eq_refl) (String (pretty_N_char (n `mod` 10)) t) Hpos) as (c & ds & -> & Hc & Hf & Hd).
    exists c, (ds ++ [pretty_N_char (n `mod` 10)]). cbn [String.list_ascii_of_string]. split; [by cbn [app]; rewrite <-app_assoc|]. split; [done|].
    split; [change (c :: ds ++ [pretty_N_char (n `mod` 10)]) with ((c :: ds) ++ [pretty_N_char (n `mod` 10)]); apply Forall_app; split; [done|by constructor]|].
    intros l. change ((c :: ds ++ [pretty_N_char (n `mod` 10)]) ++ l) with (c :: (ds ++ [pretty_N_char (n `mod` 10)]) ++ l).
    rewrite <-app_assoc. change (c :: ds ++ [pretty_N_char (n `mod` 10)] ++ l) with ((c :: ds) ++ pretty_N_char (n `mod` 10) :: l).
    rewrite Hd, Hstep. f_equal. pose proof (N.div_mod n 10 ltac:(lia)). lia.
Qed.

Lemma parseNat_pos (p : positive) rest : no_digit rest →
  ∃ c ds, String.list_ascii_of_string (pretty (N.pos p)) = c :: ds ∧ isDigit c = true ∧ parseNat ((c :: ds) ++ rest) = Some (Z.pos p, rest).
Proof.
  intros Hr. unfold pretty, pretty_N. rewrite decide_False by done.
  destruct (pretty_digits (N.pos p) EmptyString ltac:(lia)) as (c & ds & E & Hc & Hf & Hd).
  exists c, ds. rewrite E. cbn [String.list_ascii_of_string]. rewrite app_nil_r. split; [done|]. split; [by inversion Hf|].
  unfold parseNat. rewrite (spanDigits_ok (c :: ds) rest Hf Hr). specialize (Hd []). rewrite app_nil_r in Hd. change (allDigits 10 (Z.of_N (N.pos p)) []) with (Some (Z.pos p)) in Hd.
  assert (Hm : ∀ x : option (Z * list ascii), match c :: ds with [] => None | "0"%char :: _ :: _ => None | _ => x end = x).
  { intros x. clear -Hc. destruct c as [[] [] [] [] [] [] [] []]; try reflexivity. done. }
  rewrite Hm, Hd. done.
Qed.

Lemma parseNumber_ok z rest : no_digit rest →
  ∃ c l, String.list_ascii_of_string (pretty z) = c :: l ∧ (isDigit c || Ascii.eqb c "-" = true) ∧ parseNumber ((c :: l) ++ rest) = Some (z, rest).
Proof.
  intros Hr. assert (Hpos : ∀ c l, isDigit c = true → parseNumber (c :: l) = parseNat (c :: l)).
  { intros c l Hc. destruct c as [[] [] [] [] [] [] [] []]; try reflexivity; discriminate Hc. }
  destruct z as [|p|p].
  - exists "0"%char, []. split; [done|]. split; [done|]. cbn [app]. rewrite Hpos by done. unfold parseNat.
    change ("0"%char :: rest) with (["0"%char] ++ rest). rewrite (spanDigits_ok ["0"%char] rest) by (try done; repeat constructor). done.
  - destruct (parseNat_pos p rest Hr) as (c & ds & E & Hc & Hn). exists c, ds. split; [exact E|]. rewrite Hc. split; [done|].
    cbn [app]. rewrite Hpos by done. exact Hn.
  - destruct (parseNat_pos p rest Hr) as (c & ds & E & Hc & Hn). exists "-"%char, (c :: ds). split; [by rewrite <-E|]. split; [done|].
    cbn [app parseNumber]. cbn [app] in Hn. rewrite Hn. done.
Qed.

Lemma parseValue_skip ws fuel l : Forall (λ c, isWs c = true) ws → parseValue fuel (ws ++ l) = parseValue fuel l.
Proof. intros Hws. destruct fuel as [|fuel]; [done|]. cbn [parseValue]. by rewrite skipWs_app. Qed.

Lemma parseValue_number c l fuel : isDigit c || Ascii.eqb c "-" = true →
  parseValue (S fuel) (c :: l) = '(n, r) ← parseNumber (c :: l); Some (JNum n, r).
Proof. destruct c as [[] [] [] [] [] [] [] []]; intros Hc; try discriminate Hc; reflexivity. Qed.

(** ** Values *)

Abbreviation text := stringifyAt.

(** The first character of a text is neither white space nor a closing
    bracket, so that an array or an object with items is not taken for empty. *)
Definition opens (l : list ascii) : Prop :=
  match l with c :: _ => isWs c = false ∧ c ≠ "]"%char ∧ c ≠ "}"%char | [] => False end.

Lemma opens_app l r : opens l → opens (l ++ r).
Proof. by destruct l. Qed.

Lemma text_opens indent level j : plain j = true → opens (text indent level j).
Proof.
  destruct j as [| |[]|z| |s| |l|fields]; intros Hp; try done.
  - destruct (parseNumber_ok z [] I) as (c & l & E & Hc & _). cbn [stringifyAt]. rewrite E. cbn [opens]. clear -Hc.
    destruct c as [[] [] [] [] [] [] [] []]; try discriminate Hc; done.
  - cbn [stringifyAt]. by destruct l.
  - cbn [stringifyAt]. by destruct fields.
Qed.

Lemma skipWs_opens ws l : Forall (λ c, isWs c = true) ws → opens l → skipWs (ws ++ l) = l.
Proof. intros Hws Hl. rewrite skipWs_app by done. destruct l as [|c l]; [done|]. rewrite skipWs_cons. by destruct Hl as [-> _]. Qed.

Lemma expect_skip ws c l : Forall (λ c, isWs c = true) ws → isWs c = false → expect c (ws ++ c :: l) = Some l.
Proof. intros Hws Hc. unfold expect. rewrite skipWs_app, skipWs_cons, Hc by done. by rewrite Ascii.eqb_refl. Qed.

Lemma expect_here c l : isWs c = false → expect c (c :: l) = Some l.
Proof. apply (expect_skip [] c l). constructor. Qed.

Lemma expect_other ws c c' l : Forall (λ c, isWs c = true) ws → isWs c' = false → c' ≠ c → expect c (ws ++ c' :: l) = None.
Proof. intros Hws Hc Hne. unfold expect. rewrite skipWs_app, skipWs_cons, Hc by done. by apply Ascii.eqb_neq in Hne as ->. Qed.

(** What may follow a text: not a digit. *)
Lemma no_digit_newline indent level c l : isDigit c = false → no_digit (newline indent level ++ c :: l).
Proof. by destruct indent. Qed.

(** [j] is read back from its text, whatever follows. *)
Definition reads (j : json) : Prop :=
  ∀ indent level fuel rest, (2 * length (text indent level j) <= fuel)%nat → no_digit rest →
    parseValue fuel (text indent level j ++ rest) = Some (j, rest).

(** The items after the first, each after a comma, and the closing bracket. *)
Definition more (indent : bool) (level : nat) (close : ascii) (items : list (list ascii)) : list ascii :=
  concat (map (λ i, ","%char :: newline indent (S level) ++ i) items) ++ newline indent level ++ [close].

Lemma bracket_cons indent level open close item items :
  bracket indent level open close (item :: items) = open :: newline indent (S level) ++ item ++ more indent level close items.
Proof. done. Qed.

Lemma more_cons indent level close item items :
  more indent level close (item :: items) = ","%char :: newline indent (S level) ++ item ++ more indent level close items.
Proof. unfold more. cbn [map concat]. rewrite <-!app_assoc. cbn [app]. by rewrite <-app_assoc. Qed.

Lemma more_no_digit indent level close items rest : isDigit close = false → no_digit (more indent level close items ++ rest).
Proof. intros Hc. destruct items; [|by rewrite more_cons]. unfold more. cbn [map concat app]. rewrite <-app_assoc. by apply no_digit_newline. Qed.

Lemma parseItems_ok indent level v l fuel rest :
  reads v → Forall reads l →
  (2 * length (text indent (S level) v ++ more indent level "]" (map (text indent (S level)) l)) + 1 <= fuel)%nat →
  parseItems fuel (text indent (S level) v ++ more indent level "]" (map (text indent (S level)) l) ++ rest) = Some (v :: l, rest).
Proof.
  intros Hv Hl. revert v Hv fuel. induction Hl as [|w l Hw _ IH]; intros v Hv [|fuel] Hf; [lia| |lia|]; cbn [parseItems].
  - rewrite length_app in Hf. rewrite Hv; [|lia|by apply more_no_digit]. cbn [mbind option_bind map]. unfold more. cbn [map concat app].
    rewrite <-app_assoc. cbn [app]. rewrite expect_other by (apply newline_ws || done). rewrite expect_skip by (apply newline_ws || done). done.
  - cbn [map] in *. rewrite more_cons in *. rewrite length_app in Hf. cbn [length] in Hf. rewrite length_app in Hf.
    rewrite Hv; [|lia|done]. cbn [mbind option_bind app]. rewrite <-app_assoc, <-app_assoc.
    rewrite expect_here by done.
    destruct fuel as [|fuel]; [lia|]. specialize (IH w Hw (S fuel) ltac:(lia)). cbn [parseItems] in IH |- *.
    rewrite parseValue_skip by apply newline_ws. by rewrite IH.
Qed.

(** A member as it is written. *)
Definition memberText (indent : bool) (level : nat) (kv : string * json) : list ascii :=
  quoteString (fst kv) ++ colon indent ++ text indent level (snd kv).

Lemma colon_skip indent l : expect ":" (colon indent ++ l) = Some (if indent then " "%char :: l else l).
Proof. by destruct indent. Qed.

Lemma string_of_list s : String.string_of_list_ascii (String.list_ascii_of_string s) = s.
Proof. apply String.string_of_list_ascii_of_string. Qed.

(** The key, the colon and the value of one member. *)
Lemma parseMember_ok indent level kv fuel rest :
  reads (snd kv) → (2 * length (memberText indent level kv) <= fuel)%nat → no_digit rest → Forall (λ c, isWs c = true) (newline indent level) →
  ∀ (K : string * json → list ascii → option (list (string * json) * list ascii)),
  (l ← expect quoteMark (newline indent level ++ memberText indent level kv ++ rest);
   '(k, l) ← parseChars fuel l; l ← expect ":" l; '(v, l) ← parseValue fuel l; K (String.string_of_list_ascii k, v) l) = K kv rest.
Proof.
  intros Hv Hf Hr Hws K. unfold memberText in *. rewrite !length_app, quoteString_length in Hf. rewrite <-!app_assoc, quoteString_app.
  rewrite expect_skip by done. cbn [mbind option_bind]. rewrite parseChars_ok by lia. cbn [mbind option_bind]. rewrite colon_skip. cbn [mbind option_bind].
  assert (E : parseValue fuel (if indent then " "%char :: text indent level (snd kv) ++ rest else text indent level (snd kv) ++ rest) = Some (snd kv, rest)).
  { destruct indent; [|apply Hv; [lia|done]]. change (" "%char :: ?l) with ([" "%char] ++ l). rewrite parseValue_skip by by constructor. apply Hv; [lia|done]. }
  destruct indent; rewrite E; cbn [mbind option_bind]; rewrite string_of_list; by destruct kv.
Qed.

Lemma parseMembers_ok indent level kv l fuel rest :
  reads (snd kv) → Forall (λ kv : string * json, reads (snd kv)) l →
  (2 * length (memberText indent (S level) kv ++ more indent level "}" (map (memberText indent (S level)) l)) + 1 <= fuel)%nat →
  parseMembers fuel (newline indent (S level) ++ memberText indent (S level) kv ++ more indent level "}" (map (memberText indent (S level)) l) ++ rest) = Some (kv :: l, rest).
Proof.
  intros Hv Hl. revert kv Hv fuel. induction Hl as [|w l Hw _ IH]; intros kv Hv [|fuel] Hf; [lia| |lia|]; rewrite length_app in Hf; cbn [parseMembers];
    pose (K := λ (kv : string * json) l, match expect "," l with
      | Some l => '(kvs, l) ← parseMembers fuel l; Some (kv :: kvs, l) | None => l ← expect "}" l; Some ([kv], l) end).
  - assert (Hnd : no_digit (more indent level "}" [] ++ rest)) by by apply more_no_digit.
    etransitivity; [exact (parseMember_ok indent (S level) kv fuel _ Hv ltac:(lia) Hnd (newline_ws _ _) K)|]. unfold K, more. cbn [map concat app].
    rewrite <-app_assoc. cbn [app]. rewrite expect_other by (apply newline_ws || done). rewrite expect_skip by (apply newline_ws || done). done.
  - assert (Hnd : no_digit (more indent level "}" (map (memberText indent (S level)) (w :: l)) ++ rest)) by by apply more_no_digit.
    etransitivity; [exact (parseMember_ok indent (S level) kv fuel _ Hv ltac:(lia) Hnd (newline_ws _ _) K)|]. unfold K.
    cbn [map] in *. rewrite more_cons in *. cbn [length] in Hf. rewrite length_app in Hf. cbn [app]. rewrite <-!app_assoc.
    rewrite expect_here by done. by rewrite (IH w Hw fuel) by lia.
Qed.

Lemma parse_arr_items fuel ws l : Forall (λ c, isWs c = true) ws → opens l →
  parseValue (S fuel) ("["%char :: ws ++ l) = '(vs, r) ← parseItems fuel l; Some (JArr vs, r).
Proof.
  intros Hws Hl. cbn [parseValue]. change (skipWs ("["%char :: ws ++ l)) with ("["%char :: ws ++ l). cbv beta iota. rewrite (skipWs_opens ws l Hws Hl).
  destruct l as [|c l]; [done|]. destruct Hl as (_ & Hc & _). destruct c as [[] [] [] [] [] [] [] []]; try reflexivity. done.
Qed.

Lemma parse_obj_members fuel ws l : Forall (λ c, isWs c = true) ws → opens l →
  parseValue (S fuel) ("{"%char :: ws ++ l) = '(kvs, r) ← parseMembers fuel l; Some (JObj kvs, r).
Proof.
  intros Hws Hl. cbn [parseValue]. change (skipWs ("{"%char :: ws ++ l)) with ("{"%char :: ws ++ l). cbv beta iota. rewrite (skipWs_opens ws l Hws Hl).
  destruct l as [|c l]; [done|]. destruct Hl as (_ & _ & Hc). destruct c as [[] [] [] [] [] [] [] []]; try reflexivity. done.
Qed.

Lemma parseMembers_skip ws fuel l : Forall (λ c, isWs c = true) ws → parseMembers fuel (ws ++ l) = parseMembers fuel l.
Proof. intros Hws. destruct fuel as [|fuel]; [done|]. cbn [parseMembers].
  assert (expect quoteMark (ws ++ l) = expect quoteMark l) as -> by (unfold expect; by rewrite skipWs_app). done.
Qed.

Lemma parseValue_string fuel l :
  parseValue (S fuel) (quoteMark :: l) = '(cs, r) ← parseChars fuel l; Some (JStr (String.string_of_list_ascii cs), r).
Proof. reflexivity. Qed.

Lemma reads_all j : plain j = true → reads j.
Proof.
  induction j as [j Hat|l IH|fields IH] using json_nested_ind; intros Hp indent level fuel rest Hf Hr.
  - destruct j as [| |b|z| |s| |?|?]; try done; cbn [stringifyAt] in *.
    + destruct fuel as [|fuel]; [cbn in Hf; lia|done].
    + destruct fuel as [|fuel]; [destruct b; cbn in Hf; lia|by destruct b].
    + destruct (parseNumber_ok z rest Hr) as (c & l & E & Hc & En). rewrite E in *. destruct fuel as [|fuel]; [cbn in Hf; lia|].
      cbn [app] in *. by rewrite parseValue_number, En.
    + rewrite quoteString_length in Hf. destruct fuel as [|fuel]; [lia|]. rewrite quoteString_app, parseValue_string.
      rewrite parseChars_ok by lia. cbn [mbind option_bind]. by rewrite string_of_list.
  - cbn [plain] in Hp. rewrite forallb_forall in Hp. destruct l as [|v l]; cbn [stringifyAt map] in *.
    + destruct fuel as [|fuel]; [cbn in Hf; lia|done].
    + apply Forall_cons_1 in IH as [Hv Hl]. specialize (Hv (Hp v (or_introl eq_refl))).
      assert (Hl' : Forall reads l).
      { apply List.Forall_forall. intros w Hw. apply (proj1 (List.Forall_forall _ _) Hl w Hw), Hp. by right. }
      rewrite bracket_cons in *. cbn [app length] in *. rewrite length_app in Hf. destruct fuel as [|fuel]; [lia|].
      rewrite <-!app_assoc, parse_arr_items; [|apply newline_ws|apply opens_app, text_opens, Hp; by left].
      by rewrite parseItems_ok by (done || lia).
  - cbn [plain] in Hp. rewrite forallb_forall in Hp. destruct fields as [|kv l]; cbn [stringifyAt map] in *.
    + destruct fuel as [|fuel]; [cbn in Hf; lia|done].
    + apply Forall_cons_1 in IH as [Hv Hl]. specialize (Hv (Hp kv (or_introl eq_refl))).
      assert (Hl' : Forall (λ kv : string * json, reads (snd kv)) l).
      { apply List.Forall_forall. intros w Hw. apply (proj1 (List.Forall_forall _ _) Hl w Hw), Hp. by right. }
      change (λ kv : string * json, quoteString kv.1 ++ colon indent ++ text indent (S level) kv.2) with (memberText indent (S level)) in *.
      change (quoteString kv.1 ++ colon indent ++ text indent (S level) kv.2) with (memberText indent (S level) kv) in *.
      rewrite bracket_cons in *. cbn [app length] in *. rewrite length_app in Hf. destruct fuel as [|fuel]; [lia|].
      rewrite <-!app_assoc, parse_obj_members; [|apply newline_ws|by unfold memberText; rewrite quoteString_app, <-?app_assoc].
      rewrite <-(parseMembers_skip (newline indent (S level))) by apply newline_ws.
      by rewrite parseMembers_ok by (done || lia).
Qed.

(** Round trip: a value with a text is what [JSON.parse] makes of it, compact or
    indented. *)
Lemma parse_stringify indent j : plain j = true → parse (stringify indent j) = Some j.
Proof.
  intros Hp. unfold parse. set (t := stringify indent j).
  assert (E : parseValue (2 * length t + 2) (t ++ []) = Some (j, [])) by (apply reads_all; [done|unfold t, stringify; lia|done]).
  rewrite app_nil_r in E. by rewrite E.
Qed.
End JsonTextThms.
