(* ===== verification/DealerState.v ===== *)
(** * The epoch's secrets on disk: [apps/dealer-daemon/src/state.ts]

    [EpochStateStore] keeps one file per epoch, encrypted under a key derived
    from a passphrase, with a cache in memory.  A blob starts with a version
    byte; blobs of the first format have none and are recognised by default.
    The key derivation is the parameter [hashRaw] of [@node-rs/argon2]; AES-GCM
    is the interface of the cryptography package, here with the tag kept apart
    from the text; [randomBytes] gives the bytes of the n-th draw. *)
From stdpp Require Import base option list strings gmap pretty.
From Stdlib Require Import ZArith Lia Ascii.
From S2P Require Import Prelude OcpBytes OcpTranscript OcpProofs Json JsonText DealerTypes.
Import Bytes Hashing Proofs Json JsonText DealerTypes.

Module DealerState.

(** ** The secrets as JSON *)

(** An optional field that is absent is left out. *)
Definition secretsJson (s : EpochSecrets) : json :=
  JObj ([("epochId"%string, JNum s.(epochId)); ("validatorIndex"%string, JNum s.(validatorIndex));
         ("polyCoeffs"%string, JArr (map JStr s.(polyCoeffs))); ("secretShare"%string, JStr s.(secretShare))] ++
        match s.(ephemeralSk) with Some sk => [("ephemeralSk"%string, JStr sk)] | None => [] end).

Definition jsonString (j : json) : option string := match j with JStr s => Some s | _ => None end.

(** The value of the JSON as [EpochSecrets]; a file of another shape is not
    modelled. *)
Definition jsonSecrets (j : json) : option EpochSecrets :=
  match field j "epochId", field j "validatorIndex", field j "polyCoeffs", field j "secretShare" with
  | JNum e, JNum i, JArr l, JStr share =>
      coeffs ← mapM jsonString l;
      match field j "ephemeralSk" with
      | JUndefined => Some (mkSecrets e i coeffs share None)
      | JStr sk => Some (mkSecrets e i coeffs share (Some sk))
      | _ => None
      end
  | _, _, _, _ => None
  end.

(** [Buffer.from(text, "utf8")] and back, for characters of one byte. *)
Definition textBytes (l : list ascii) : bytes := map (λ c, Z.of_nat (nat_of_ascii c)) l.
Definition bytesText (bs : bytes) : list ascii := map (λ b, ascii_of_nat (Z.to_nat b)) bs.

(** [JSON.parse(decrypted.toString("utf8")) as EpochSecrets] *)
Definition parseSecrets (bs : bytes) : res EpochSecrets :=
  match parse (bytesText bs) with
  | None => Err "SyntaxError"%string
  | Some j => match jsonSecrets j with Some s => Ok s | None => Err "not a state file"%string end
  end.

(** ** Encryption *)

Record KdfOptions := mkKdf { memoryCost : option Z; timeCost : option Z; parallelism : option Z }.

Definition VERSION_V2 : Z := 2.
Definition V1_HEADER_LEN : nat := 16 + 12 + 16.
Definition DEFAULT_MEMORY_COST : Z := 65536.
Definition DEFAULT_TIME_COST : Z := 3.
Definition DEFAULT_PARALLELISM : Z := 4.

Section state.
Context `{HashOps} `{AeadOps} (hashRaw : string → Z → Z → Z → bytes → bytes) (randomBytes : nat → nat → bytes).

Definition deriveKey (passphrase : string) (salt : bytes) (opts : KdfOptions) : bytes :=
  hashRaw passphrase (default DEFAULT_MEMORY_COST opts.(memoryCost)) (default DEFAULT_TIME_COST opts.(timeCost))
    (default DEFAULT_PARALLELISM opts.(parallelism)) salt.

Definition deriveKeyLegacy (passphrase : string) (salt : bytes) : bytes := sha256 (utf8 passphrase ++ salt).

(** [createCipheriv("aes-256-gcm", key, iv)]: the text and the tag. *)
Definition gcmSeal (key iv pt : bytes) : bytes * bytes :=
  let ct := gcm_encrypt key iv [] pt in (take (length ct - 16) ct, drop (length ct - 16) ct).
Definition gcmOpen (key iv tag ct : bytes) : res bytes :=
  match gcm_decrypt key iv [] (ct ++ tag) with Some pt => Ok pt | None => Err "Unsupported state or unable to authenticate data"%string end.

(** The salt is the [n]-th draw, the iv the next. *)
Definition encryptJsonV2 (s : EpochSecrets) (passphrase : string) (opts : KdfOptions) (n : nat) : bytes :=
  let json := textBytes (stringify false (secretsJson s)) in
  let salt := randomBytes n 16 in
  let key := deriveKey passphrase salt opts in
  let iv := randomBytes (S n) 12 in
  let '(encrypted, tag) := gcmSeal key iv json in
  [VERSION_V2] ++ salt ++ iv ++ tag ++ encrypted.

Definition decryptJsonV2 (data : bytes) (passphrase : string) (opts : KdfOptions) : res EpochSecrets :=
  let salt := slice data 1 17 in
  let iv := slice data 17 29 in
  let tag := slice data 29 45 in
  let ciphertext := drop 45 data in
  let key := deriveKey passphrase salt opts in
  let! decrypted := gcmOpen key iv tag ciphertext in
  parseSecrets decrypted.

Definition decryptJsonV1 (data : bytes) (passphrase : string) : res EpochSecrets :=
  let salt := slice data 0 16 in
  let iv := slice data 16 28 in
  let tag := slice data 28 44 in
  let ciphertext := drop 44 data in
  let key := deriveKeyLegacy passphrase salt in
  let! decrypted := gcmOpen key iv tag ciphertext in
  parseSecrets decrypted.

(** The value and whether the blob was of the first format. *)
Definition decryptJson (data : bytes) (passphrase : string) (opts : KdfOptions) : res (EpochSecrets * bool) :=
  if (0 <? length data)%nat && (rd 0 data 0 =? VERSION_V2) then rmap (λ v, (v, false)) (decryptJsonV2 data passphrase opts)
  else if (V1_HEADER_LEN + 1 <=? length data)%nat then rmap (λ v, (v, true)) (decryptJsonV1 data passphrase)
  else Err "state blob is too short to be a valid v1 or v2 ciphertext"%string.

(** ** The store *)

(** The files under their paths and the private fields; [draws] counts the
    draws of random bytes so far. *)
Record EpochStateStore := mkStore {
  files : gmap string bytes; cache : gmap Z EpochSecrets; legacyEpochs : gset Z; draws : nat
}.

Variables (dir passphrase : string) (kdfOpts : KdfOptions).
Let noPassphrase : bool := bool_decide (passphrase = EmptyString).

(** The constructor; [allow] is [DEALER_STATE_ALLOW_UNENCRYPTED === "1"]. *)
Definition construct (allow : bool) (disk : gmap string bytes) (n : nat) : res EpochStateStore :=
  let! _ := throw_if (noPassphrase && negb allow) "DEALER_STATE_PASSPHRASE is required"%string in
  Ok (mkStore disk ∅ ∅ n).

Definition filePath (epochId : Z) : string := (dir +:+ "/epoch-") +:+ (pretty epochId +:+ ".json.enc").

Definition save (st : EpochStateStore) (secrets : EpochSecrets) : res unit * EpochStateStore :=
  let path := filePath secrets.(epochId) in
  let '(blob, n) :=
    if noPassphrase then (textBytes (stringify true (secretsJson secrets)), st.(draws))
    else (encryptJsonV2 secrets passphrase kdfOpts st.(draws), st.(draws) + 2)%nat in
  (Ok tt, mkStore (<[path := blob]> st.(files)) (<[secrets.(epochId) := secrets]> st.(cache))
            (st.(legacyEpochs) ∖ {[secrets.(epochId)]}) n).

(** What a file holds, and whether it is to be saved anew. *)
Definition readBlob (raw : bytes) : res (EpochSecrets * bool) :=
  if noPassphrase then rmap (λ v, (v, false)) (parseSecrets raw) else decryptJson raw passphrase kdfOpts.

Definition load (st : EpochStateStore) (epochId : Z) : res (option EpochSecrets) * EpochStateStore :=
  match st.(cache) !! epochId with
  | Some cached => (Ok (Some cached), st)
  | None =>
      match st.(files) !! filePath epochId with
      | None => (Ok None, st)
      | Some raw =>
          match readBlob raw with
          | Err e => (Err e, st)
          | Ok (secrets, wasLegacy) =>
              (Ok (Some secrets), mkStore st.(files) (<[epochId := secrets]> st.(cache))
                                    (if wasLegacy : bool then {[epochId]} ∪ st.(legacyEpochs) else st.(legacyEpochs)) st.(draws))
          end
      end
  end.

Definition has (st : EpochStateStore) (epochId : Z) : bool :=
  bool_decide (is_Some (st.(cache) !! epochId)) || bool_decide (is_Some (st.(files) !! filePath epochId)).

Definition fileStore : EpochStore EpochStateStore := {| st_has := has; st_load := load; st_save := save |}.

(** The process is started again on the same disk. *)
Definition restart (st : EpochStateStore) : EpochStateStore := mkStore st.(files) ∅ ∅ st.(draws).
End state.

End DealerState.
