(* ===== verification/DealerStateThms.v ===== *)
(** * Correctness of the store of secrets

    What is saved is what a fresh process loads; the store implements the
    interface [EpochStoreLaws] that the handlers' theorems assume; a blob of the
    first format is read and migrated, unless its salt happens to start with the
    version byte of the second. *)
From stdpp Require Import base option list strings gmap pretty.
From Stdlib Require Import ZArith Lia Ascii.
From S2P Require Import Prelude OcpBytes OcpTranscript OcpProofs OcpProofsThms Json JsonText DealerTypes DealerState.
Import Bytes Hashing Proofs ProofsThms Json JsonText JsonTextThms DealerTypes DealerState.

Module DealerStateThms.

(** ** The JSON of the secrets *)

Lemma bytesText_textBytes l : bytesText (textBytes l) = l.
Proof.
  unfold bytesText, textBytes. rewrite map_map. rewrite <-(map_id l) at 2. apply map_ext. intros c. by rewrite Nat2Z.id, ascii_nat_embedding.
Qed.

Lemma mapM_strings l : mapM jsonString (map JStr l) = Some l.
Proof. apply mapM_Some_2. induction l; by constructor. Qed.

Lemma jsonSecrets_secretsJson s : jsonSecrets (secretsJson s) = Some s.
Proof.
  destruct s as [e i coeffs share [sk|]]; unfold secretsJson; cbn [app epochId validatorIndex polyCoeffs secretShare ephemeralSk];
    unfold jsonSecrets; simpl field; cbv beta iota; rewrite mapM_strings; simpl field; reflexivity.
Qed.

Lemma secretsJson_plain s : plain (secretsJson s) = true.
Proof.
  destruct s as [e i coeffs share [sk|]]; cbn; rewrite ?andb_true_r; by induction coeffs.
Qed.

Lemma parseSecrets_ok indent s : parseSecrets (textBytes (stringify indent (secretsJson s))) = Ok s.
Proof. unfold parseSecrets. by rewrite bytesText_textBytes, parse_stringify, jsonSecrets_secretsJson by apply secretsJson_plain. Qed.

(** ** Files *)

Lemma append_list (a b : string) : String.list_ascii_of_string (a +:+ b) = String.list_ascii_of_string a ++ String.list_ascii_of_string b.
Proof. induction a as [|c a IH]; [done|]. cbn. unfold String.app in *. by rewrite <-IH. Qed.

Lemma list_ascii_inj (a b : string) : String.list_ascii_of_string a = String.list_ascii_of_string b → a = b.
Proof. intros E. rewrite <-(String.string_of_list_ascii_of_string a), <-(String.string_of_list_ascii_of_string b). by rewrite E. Qed.

Lemma filePath_inj dir e e' : filePath dir e = filePath dir e' → e = e'.
Proof.
  unfold filePath. intros E. apply (f_equal String.list_ascii_of_string) in E. rewrite !(append_list (dir +:+ "/epoch-")) in E.
  apply app_inv_head in E. rewrite !append_list in E. apply app_inv_tail, list_ascii_inj in E. by apply (inj pretty).
Qed.

Section state.
Context `{HashOps} `{AeadLaws} (hashRaw : string → Z → Z → Z → bytes → bytes) (randomBytes : nat → nat → bytes).
Hypothesis randomBytes_length : ∀ i n, length (randomBytes i n) = n.
Context (dir passphrase : string) (kdfOpts : KdfOptions).

Abbreviation save := (save hashRaw randomBytes dir passphrase kdfOpts).
Abbreviation load := (load hashRaw dir passphrase kdfOpts).
Abbreviation readBlob := (readBlob hashRaw passphrase kdfOpts).
Implicit Types (st : EpochStateStore) (e : Z).

Lemma gcm_split (key iv pt : bytes) : ∃ tag ct, gcmSeal key iv pt = (ct, tag) ∧ length tag = 16%nat ∧ gcmOpen key iv tag ct = Ok pt.
Proof.
  unfold gcmSeal, gcmOpen. eexists _, _. split; [reflexivity|]. rewrite length_drop, gcm_length. split; [lia|]. by rewrite take_drop, gcm_decrypt_encrypt.
Qed.

(** The fields of a blob of the second format. *)
Lemma readV2 salt iv tag ct : length salt = 16%nat → length iv = 12%nat → length tag = 16%nat →
  let data := [VERSION_V2] ++ salt ++ iv ++ tag ++ ct in
  slice data 1 17 = salt ∧ slice data 17 29 = iv ∧ slice data 29 45 = tag ∧ drop 45 data = ct.
Proof.
  intros Hs Hi Ht data. unfold data. do 3 rewrite (slice_skip [VERSION_V2] _ 1) by (done || lia). cbn [Nat.sub].
  rewrite slice_here by done. split; [done|]. do 2 rewrite (slice_skip salt _ 16) by (done || lia). cbn [Nat.sub]. rewrite slice_here by done. split; [done|].
  rewrite (slice_skip iv _ 12) by (done || lia). cbn [Nat.sub]. rewrite slice_here by done. split; [done|].
  rewrite (app_assoc iv), (app_assoc salt), (app_assoc [VERSION_V2]). apply drop_app_length'. rewrite !length_app, Hs, Hi, Ht. done.
Qed.

(** The fields of a blob of the first format. *)
Lemma readV1 salt iv tag ct : length salt = 16%nat → length iv = 12%nat → length tag = 16%nat →
  let data := salt ++ iv ++ tag ++ ct in
  slice data 0 16 = salt ∧ slice data 16 28 = iv ∧ slice data 28 44 = tag ∧ drop 44 data = ct.
Proof.
  intros Hs Hi Ht data. unfold data. rewrite slice_here by done. split; [done|]. do 2 rewrite (slice_skip salt _ 16) by (done || lia). cbn [Nat.sub].
  rewrite slice_here by done. split; [done|]. rewrite (slice_skip iv _ 12) by (done || lia). cbn [Nat.sub]. rewrite slice_here by done. split; [done|].
  rewrite (app_assoc iv), (app_assoc salt). apply drop_app_length'. rewrite !length_app, Hs, Hi, Ht. done.
Qed.

Lemma decrypt_encrypt s n : decryptJson hashRaw (encryptJsonV2 hashRaw randomBytes s passphrase kdfOpts n) passphrase kdfOpts = Ok (s, false).
Proof.
  unfold encryptJsonV2. set (salt := randomBytes n 16). set (iv := randomBytes (S n) 12).
  destruct (gcm_split (deriveKey hashRaw passphrase salt kdfOpts) iv (textBytes (stringify false (secretsJson s)))) as (tag & ct & -> & Ht & Ho).
  destruct (readV2 salt iv tag ct (randomBytes_length _ _) (randomBytes_length _ _) Ht) as (E1 & E2 & E3 & E4).
  unfold decryptJson. cbn [app length Nat.ltb Nat.leb andb]. change (rd 0 (VERSION_V2 :: ?l) 0 =? VERSION_V2) with true. cbv iota.
  change (VERSION_V2 :: salt ++ iv ++ tag ++ ct) with ([VERSION_V2] ++ salt ++ iv ++ tag ++ ct). unfold decryptJsonV2.
  rewrite E1, E2, E3, E4, Ho. cbn [rbind]. by rewrite parseSecrets_ok.
Qed.

(** What [save] writes is read back. *)
Lemma save_spec st s : ∃ blob n, save st s = (Ok tt, mkStore (<[filePath dir s.(epochId) := blob]> st.(files)) (<[s.(epochId) := s]> st.(cache))
    (st.(legacyEpochs) ∖ {[s.(epochId)]}) n) ∧ readBlob blob = Ok (s, false).
Proof.
  unfold DealerState.save, DealerState.readBlob. case_bool_decide; eexists _, _; (split; [reflexivity|]).
  - by rewrite parseSecrets_ok.
  - apply decrypt_encrypt.
Qed.

(** ** The interface *)

(** Every file that is not cached is one that can be read, and what is cached
    is what the file holds. *)
Record store_ok st : Prop := {
  ok_readable : ∀ e raw, st.(cache) !! e = None → st.(files) !! filePath dir e = Some raw → is_ok (readBlob raw) = true;
  ok_cached : ∀ e s, st.(cache) !! e = Some s → ∃ raw l, st.(files) !! filePath dir e = Some raw ∧ readBlob raw = Ok (s, l)
}.

Definition store_known st e : option EpochSecrets :=
  raw ← st.(files) !! filePath dir e; match readBlob raw with Ok (s, _) => Some s | Err _ => None end.

Lemma known_cached st e s : store_ok st → st.(cache) !! e = Some s → store_known st e = Some s.
Proof. intros Hok Hc. destruct (ok_cached st Hok e s Hc) as (raw & l & Hf & Hr). unfold store_known. rewrite Hf. cbn [mbind option_bind]. by rewrite Hr. Qed.

Lemma has_known st e : store_ok st → has dir st e = bool_decide (is_Some (store_known st e)).
Proof.
  intros Hok. unfold has. destruct (cache st !! e) as [s|] eqn:Ec; [by rewrite (known_cached st e s Hok Ec), !bool_decide_true by by eexists|].
  rewrite bool_decide_false by by intros [? ?]. cbn [orb]. unfold store_known. pose proof (ok_readable st Hok e) as Hr.
  destruct (files st !! filePath dir e) as [raw|]; cbn [mbind option_bind]; [|done]. specialize (Hr raw Ec eq_refl). by destruct (readBlob raw) as [[s l]|].
Qed.

Lemma load_known st e : store_ok st →
  ∃ st', load st e = (Ok (store_known st e), st') ∧ store_ok st' ∧ ∀ e', store_known st' e' = store_known st e'.
Proof.
  intros Hok. unfold DealerState.load. destruct (cache st !! e) as [s|] eqn:Ec; [exists st; by rewrite (known_cached st e s Hok Ec)|].
  unfold store_known at 1. destruct (files st !! filePath dir e) as [raw|] eqn:Ef; cbn [mbind option_bind]; [|by exists st].
  pose proof (ok_readable st Hok e raw Ec Ef) as Hr. destruct (readBlob raw) as [[s l]|] eqn:Er; [|done]. eexists. split; [reflexivity|]. split; [|done].
  split; cbn [files cache].
  - intros e' raw' [Hc _]%lookup_insert_None. by apply (ok_readable st Hok).
  - intros e' s' [[-> ->]|[_ Hc]]%lookup_insert_Some; [by exists raw, l|by apply (ok_cached st Hok)].
Qed.

Lemma save_known st s : store_ok st →
  ∃ st', save st s = (Ok tt, st') ∧ store_ok st' ∧ ∀ e', store_known st' e' = if decide (e' = s.(epochId)) then Some s else store_known st e'.
Proof.
  intros Hok. destruct (save_spec st s) as (blob & n & -> & Hb). eexists. split; [reflexivity|]. split; [split; cbn [files cache]|].
  - intros e raw [Hc Hne]%lookup_insert_None. rewrite lookup_insert_ne by by intros ?%filePath_inj. by apply (ok_readable st Hok).
  - intros e s' [[<- <-]|[Hne Hc]]%lookup_insert_Some; [exists blob, false; by rewrite lookup_insert_eq|].
    rewrite lookup_insert_ne by by intros ?%filePath_inj. by apply (ok_cached st Hok).
  - intros e'. unfold store_known. cbn [cache files]. case_decide as E.
    + subst. rewrite lookup_insert_eq. cbn [mbind option_bind]. by rewrite Hb.
    + by rewrite lookup_insert_ne by by intros ?%filePath_inj.
Qed.

Lemma restart_known st : store_ok st → store_ok (restart st) ∧ ∀ e, store_known (restart st) e = store_known st e.
Proof.
  intros Hok. split; [split; cbn [restart files cache]|done].
  - intros e raw _ Hf. destruct (cache st !! e) as [s|] eqn:Ec; [|by apply (ok_readable st Hok e)].
    destruct (ok_cached st Hok e s Ec) as (raw' & l & Hf' & Hr). rewrite Hf in Hf'. injection Hf' as <-. by rewrite Hr.
  - intros e s Hc. by apply lookup_empty_Some in Hc.
Qed.

Definition fileStoreLaws : @EpochStoreLaws EpochStateStore (fileStore hashRaw randomBytes dir passphrase kdfOpts) :=
  @Build_EpochStoreLaws EpochStateStore (fileStore hashRaw randomBytes dir passphrase kdfOpts) store_ok store_known has_known load_known save_known.

(** ** Refinement of a map *)

Inductive store_op := OpHas (e : Z) | OpLoad (e : Z) | OpSave (s : EpochSecrets) | OpRestart.
Inductive store_out := OutHas (b : bool) | OutLoad (r : res (option EpochSecrets)) | OutSave (r : res unit) | OutRestart.

Definition concrete_step st (op : store_op) : store_out * EpochStateStore :=
  match op with
  | OpHas e => (OutHas (has dir st e), st)
  | OpLoad e => let '(r, st) := load st e in (OutLoad r, st)
  | OpSave s => let '(r, st) := save st s in (OutSave r, st)
  | OpRestart => (OutRestart, restart st)
  end.

(** The specification: a finite map from epochs to secrets that outlives the
    process. *)
Definition abstract_step (m : gmap Z EpochSecrets) (op : store_op) : store_out * gmap Z EpochSecrets :=
  match op with
  | OpHas e => (OutHas (bool_decide (is_Some (m !! e))), m)
  | OpLoad e => (OutLoad (Ok (m !! e)), m)
  | OpSave s => (OutSave (Ok tt), <[s.(epochId) := s]> m)
  | OpRestart => (OutRestart, m)
  end.

Fixpoint outputs {S} (step : S → store_op → store_out * S) (s : S) (ops : list store_op) : list store_out :=
  match ops with [] => [] | op :: ops => let '(o, s) := step s op in o :: outputs step s ops end.

(** The simulation. *)
Record represents st (m : gmap Z EpochSecrets) : Prop := {
  rep_ok : store_ok st;
  rep_known : ∀ e, m !! e = store_known st e
}.

Lemma step_refines st m op : represents st m →
  ∃ o st' m', concrete_step st op = (o, st') ∧ abstract_step m op = (o, m') ∧ represents st' m'.
Proof.
  intros [Hok Hk]. destruct op as [e|e|s|]; cbn [concrete_step abstract_step].
  - exists (OutHas (has dir st e)), st, m. rewrite (has_known st e Hok), Hk. split; [done|]. split; [done|]. by split.
  - destruct (load_known st e Hok) as (st' & -> & Hok' & Hk'). do 3 eexists. split; [reflexivity|]. rewrite Hk. split; [reflexivity|].
    split; [done|]. intros e'. by rewrite Hk', Hk.
  - destruct (save_known st s Hok) as (st' & -> & Hok' & Hk'). do 3 eexists. split; [reflexivity|]. split; [reflexivity|].
    split; [done|]. intros e'. rewrite Hk'. case_decide as E; [subst; by rewrite lookup_insert_eq|by rewrite lookup_insert_ne, Hk by done].
  - destruct (restart_known st Hok) as [Hok' Hk']. do 3 eexists. split; [reflexivity|]. split; [reflexivity|]. split; [done|].
    intros e. by rewrite Hk', Hk.
Qed.

(** C15. [EpochStateStore] refines a finite map that outlives the process:
    whatever the sequence of [has], [load], [save] and restarts, encrypted or
    not, from any disk whose files can be read, it answers exactly as the map
    does; so what was last saved for an epoch is what a fresh process loads, and
    no other epoch is touched. *)
Theorem store_refines st m ops : represents st m → outputs concrete_step st ops = outputs abstract_step m ops.
Proof.
  revert st m. induction ops as [|op ops IH]; intros st m Hr; [done|]. cbn [outputs].
  destruct (step_refines st m op Hr) as (o & st' & m' & -> & -> & Hr'). by rewrite (IH st' m' Hr').
Qed.

(** ** Blobs of the first format *)

(** What the daemon wrote before the second format. *)
Definition legacyBlob (s : EpochSecrets) (salt iv : bytes) : bytes :=
  let '(ct, tag) := gcmSeal (deriveKeyLegacy passphrase salt) iv (textBytes (stringify false (secretsJson s))) in salt ++ iv ++ tag ++ ct.

Lemma legacyBlob_length s salt iv : length salt = 16%nat → length iv = 12%nat → (V1_HEADER_LEN + 1 <= length (legacyBlob s salt iv))%nat.
Proof.
  intros Hs Hi. unfold legacyBlob, gcmSeal. rewrite !length_app, length_drop, length_take, gcm_length, Hs, Hi. unfold V1_HEADER_LEN.
  assert (Hpos : (1 <= length (textBytes (stringify false (secretsJson s))))%nat) by (unfold textBytes; rewrite length_map; cbn; lia). lia.
Qed.

(** Migration from the first format.  A blob of the first format whose salt
    does not start with the byte 2 loads, is marked as legacy, and the next
    save replaces it by a blob of the second format.  When the first of the
    salt's random bytes is 2 the blob is taken for the second format: it is
    opened with the other key derivation at shifted offsets, and when that
    authentication fails [load] throws and the daemon cannot use the secrets. *)
Theorem legacy_migration st s salt iv :
  passphrase ≠ EmptyString → length salt = 16%nat → length iv = 12%nat →
  st.(cache) !! s.(epochId) = None → st.(files) !! filePath dir s.(epochId) = Some (legacyBlob s salt iv) →
  (rd 0 salt 0 ≠ VERSION_V2 →
   ∃ st', load st s.(epochId) = (Ok (Some s), st') ∧ (s.(epochId) ∈ st'.(legacyEpochs)) ∧
     ∃ st'' blob, save st' s = (Ok tt, st'') ∧ (s.(epochId) ∉ st''.(legacyEpochs)) ∧
       st''.(files) !! filePath dir s.(epochId) = Some blob ∧ rd 0 blob 0 = VERSION_V2 ∧ readBlob blob = Ok (s, false)) ∧
  (rd 0 salt 0 = VERSION_V2 →
   (let blob := legacyBlob s salt iv in
    gcm_decrypt (deriveKey hashRaw passphrase (slice blob 1 17) kdfOpts) (slice blob 17 29) [] (drop 45 blob ++ slice blob 29 45) = None) →
   ∃ msg, load st s.(epochId) = (Err msg, st)).
Proof.
  intros Hp Hs Hi Hc Hf. assert (Hlen := legacyBlob_length s salt iv Hs Hi).
  assert (Hhead : rd 0 (legacyBlob s salt iv) 0 = rd 0 salt 0).
  { unfold legacyBlob. destruct (gcmSeal _ _ _) as [ct tag]. unfold rd. by rewrite lookup_app_l by lia. }
  assert (Hv : readBlob (legacyBlob s salt iv) =
    if rd 0 salt 0 =? VERSION_V2 then rmap (λ v, (v, false)) (decryptJsonV2 hashRaw (legacyBlob s salt iv) passphrase kdfOpts)
    else rmap (λ v, (v, true)) (decryptJsonV1 (legacyBlob s salt iv) passphrase)).
  { unfold DealerState.readBlob, decryptJson. rewrite bool_decide_false by done. rewrite (proj2 (Nat.ltb_lt 0 _)), (proj2 (Nat.leb_le _ _) Hlen), Hhead by lia. done. }
  unfold DealerState.load. rewrite Hc, Hf, Hv. split.
  - intros Hb. rewrite (proj2 (Z.eqb_neq _ _) Hb). assert (E : decryptJsonV1 (legacyBlob s salt iv) passphrase = Ok s).
    { unfold legacyBlob, decryptJsonV1. destruct (gcm_split (deriveKeyLegacy passphrase salt) iv (textBytes (stringify false (secretsJson s)))) as (tag & ct & -> & Ht & Ho).
      destruct (readV1 salt iv tag ct Hs Hi Ht) as (-> & -> & -> & ->). rewrite Ho. cbn [rbind]. apply parseSecrets_ok. }
    rewrite E. cbn [rmap]. eexists. split; [reflexivity|]. cbn [legacyEpochs]. split; [set_solver|].
    unfold DealerState.save. rewrite bool_decide_false by done. eexists _, _. split; [reflexivity|]. cbn [legacyEpochs files]. split; [set_solver|].
    split; [apply lookup_insert_eq|]. unfold DealerState.readBlob. rewrite bool_decide_false by done. split; [|apply decrypt_encrypt].
    unfold encryptJsonV2. by destruct (gcmSeal _ _ _).
  - intros -> Hauth. rewrite Z.eqb_refl. unfold decryptJsonV2, gcmOpen. cbv zeta in *. rewrite Hauth. cbn [rbind rmap]. by eexists.
Qed.
End state.

(** ** Witnesses: a cipher whose tag is the head of the key *)
Import Toy.

Module TagAead.
Definition tagOf (key : bytes) : bytes := take 16 (key ++ replicate 16 0).
#[export] Instance tag_aead : AeadOps := {
  gcm_encrypt key iv aad pt := pt ++ tagOf key;
  gcm_decrypt key iv aad ct := if bool_decide (drop (length ct - 16) ct = tagOf key) then Some (take (length ct - 16) ct) else None
}.
#[export] Instance tag_aead_laws : AeadLaws.
Proof.
  assert (Hl : ∀ key, length (tagOf key) = 16%nat) by (intros key; unfold tagOf; rewrite length_take, length_app, length_replicate; lia).
  split; intros key iv aad pt; cbn [gcm_encrypt gcm_decrypt tag_aead]; rewrite length_app, Hl; [done|].
  replace (length pt + 16 - 16)%nat with (length pt) by lia. rewrite drop_app_length, bool_decide_true by done. by rewrite take_app_length.
Qed.
End TagAead.
Import TagAead.

Definition toyKdf (p : string) (m t l : Z) (salt : bytes) : bytes := utf8 p ++ salt.
Definition toyRandom (i n : nat) : bytes := replicate n (Z.of_nat i).
Definition toy_options : KdfOptions := mkKdf None None None.
Definition toy_saved : EpochSecrets := mkSecrets 7 1 ["3"; "5"]%string "0" (Some "9"%string).
Definition toy_path : string := "/state/epoch-7.json.enc".

Lemma store_refines_witness :
  outputs (concrete_step toyKdf toyRandom "/state" "pw" toy_options) (mkStore ∅ ∅ ∅ 0) [OpHas 7; OpSave toy_saved; OpRestart; OpLoad 7; OpLoad 8] =
  [OutHas false; OutSave (Ok tt); OutRestart; OutLoad (Ok (Some toy_saved)); OutLoad (Ok None)].
Proof.
  transitivity (outputs abstract_step ∅ [OpHas 7; OpSave toy_saved; OpRestart; OpLoad 7; OpLoad 8]); [|vm_compute; reflexivity].
  apply (store_refines toyKdf toyRandom ltac:(intros i n; apply length_replicate) "/state" "pw" toy_options (mkStore ∅ ∅ ∅ 0) ∅).
  split; [split; [intros e raw _ Hf|intros e s Hc]; cbn in *; [by rewrite lookup_empty in Hf|by rewrite lookup_empty in Hc]|done].
Defined.

Definition legacy_disk (b : Z) : EpochStateStore :=
  mkStore {[toy_path := legacyBlob "pw" toy_saved (b :: replicate 15 0) (replicate 12 0)]} ∅ ∅ 0.

Lemma legacy_migration_witness :
  (∃ st', load toyKdf "/state" "pw" toy_options (legacy_disk 9) 7 = (Ok (Some toy_saved), st')) ∧
  (∃ msg, load toyKdf "/state" "pw" toy_options (legacy_disk 2) 7 = (Err msg, legacy_disk 2)).
Proof.
  split.
  - destruct (legacy_migration toyKdf toyRandom ltac:(intros i n; apply length_replicate) "/state" "pw" toy_options (legacy_disk 9) toy_saved
      (9 :: replicate 15 0) (replicate 12 0)) as [Hok _]; [discriminate|reflexivity|reflexivity|reflexivity|vm_compute; reflexivity|].
    destruct Hok as (st' & E & _); [discriminate|]. exists st'. exact E.
  - destruct (legacy_migration toyKdf toyRandom ltac:(intros i n; apply length_replicate) "/state" "pw" toy_options (legacy_disk 2) toy_saved
      (2 :: replicate 15 0) (replicate 12 0)) as [_ Hbad]; [discriminate|reflexivity|reflexivity|reflexivity|vm_compute; reflexivity|].
    apply Hbad; [reflexivity|vm_compute; reflexivity].
Defined.

End DealerStateThms.
