(* ===== verification/DealerConfig.v ===== *)
(** * The dealer's settings: [apps/dealer-daemon/src/config.ts]

    [loadConfig] reads the environment variables, applies the defaults and
    refuses settings out of bounds.  [new URL(s).protocol] of the platform is
    the parameter [urlProtocol]; [None] is a URL that does not parse. *)
From stdpp Require Import base option list strings.
From Stdlib Require Import ZArith Lia Ascii.
From S2P Require Import Prelude OcpBytes Json DealerTypes.
Import Bytes Json DealerTypes.

Module DealerConfig.

(** [process.env] *)
Definition ProcessEnv : Type := string → option string.

(** [s.trim()] *)
Definition trimString (s : string) : string := String.string_of_list_ascii (trim (String.list_ascii_of_string s)).
Definition isEmpty (s : string) : bool := bool_decide (s = EmptyString).
(** [s || undefined] *)
Definition orUndefined (s : string) : option string := if isEmpty s then None else Some s.

Section config.
Context (env : ProcessEnv) (urlProtocol : string → option string).

(** [(process.env[key] ?? "").trim()] *)
Definition envTrim (key : string) : string := trimString (default EmptyString (env key)).

Definition envStr (key fallback : string) : string :=
  let v := envTrim key in if isEmpty v then fallback else v.

Definition envBool (key : string) (fallback : bool) : bool :=
  let v := lower (envTrim key) in
  if isEmpty v then fallback
  else bool_decide (v = "1"%string) || bool_decide (v = "true"%string) || bool_decide (v = "yes"%string).

Definition envInt (key : string) (fallback : Z) : Z :=
  let v := envTrim key in
  if isEmpty v then fallback else default fallback (parseInt10 v).

Definition isProductionEnv : bool := bool_decide (lower (envTrim "NODE_ENV") = "production"%string).

Definition requireHttpUrl (name value : string) : res unit :=
  match urlProtocol value with
  | None => Err (name +:+ " must be a valid URL")%string
  | Some protocol =>
      throw_if (negb (bool_decide (protocol = "http:"%string)) && negb (bool_decide (protocol = "https:"%string)))
        (name +:+ " must use http:// or https://")%string
  end.

Definition loadConfig : res DealerDaemonConfig :=
  let bech32Prefix := envStr "DEALER_BECH32_PREFIX" "ocp" in
  let validatorAddress := envStr "DEALER_VALIDATOR_ADDRESS" EmptyString in
  let! _ := throw_if (isEmpty validatorAddress) "DEALER_VALIDATOR_ADDRESS is required"%string in
  let! _ := throw_if (negb (String.prefix (bech32Prefix +:+ "valoper1") validatorAddress))
              ("DEALER_VALIDATOR_ADDRESS must be a " +:+ bech32Prefix +:+ "valoper1... address")%string in
  let mnemonic := envStr "DEALER_VALIDATOR_MNEMONIC" EmptyString in
  let privkeyHex := envStr "DEALER_VALIDATOR_PRIVKEY_HEX" EmptyString in
  let! _ := throw_if (isEmpty mnemonic && isEmpty privkeyHex)
              "Either DEALER_VALIDATOR_MNEMONIC or DEALER_VALIDATOR_PRIVKEY_HEX is required"%string in
  let! _ := throw_if (negb (isEmpty mnemonic) && negb (isEmpty privkeyHex))
              "Set only one signer credential: DEALER_VALIDATOR_MNEMONIC or DEALER_VALIDATOR_PRIVKEY_HEX"%string in
  let cosmosRpcUrl := envStr "DEALER_COSMOS_RPC_URL" "http://127.0.0.1:26657" in
  let cosmosLcdUrl := envStr "DEALER_COSMOS_LCD_URL" "http://127.0.0.1:1317" in
  let! _ := requireHttpUrl "DEALER_COSMOS_RPC_URL" cosmosRpcUrl in
  let! _ := requireHttpUrl "DEALER_COSMOS_LCD_URL" cosmosLcdUrl in
  let pollIntervalMs := envInt "DEALER_POLL_INTERVAL_MS" 2000 in
  let! _ := throw_if (pollIntervalMs <? 250) "DEALER_POLL_INTERVAL_MS must be >= 250"%string in
  let committeeSize := envInt "DEALER_COMMITTEE_SIZE" 3 in
  let threshold := envInt "DEALER_THRESHOLD" 3 in
  let! _ := throw_if (committeeSize <? 1) "DEALER_COMMITTEE_SIZE must be >= 1"%string in
  let! _ := throw_if (threshold <? 1) "DEALER_THRESHOLD must be >= 1"%string in
  let! _ := throw_if (committeeSize <? threshold) "DEALER_THRESHOLD must be <= DEALER_COMMITTEE_SIZE"%string in
  let shuffleRounds := envInt "DEALER_SHUFFLE_ROUNDS" 26 in
  let! _ := throw_if (shuffleRounds <? 1) "DEALER_SHUFFLE_ROUNDS must be >= 1"%string in
  let statePassphrase := envStr "DEALER_STATE_PASSPHRASE" EmptyString in
  let! _ := throw_if (isProductionEnv && isEmpty statePassphrase) "DEALER_STATE_PASSPHRASE is required when NODE_ENV=production"%string in
  let! _ := throw_if (isProductionEnv && (String.length statePassphrase <? 16)%nat)
              "DEALER_STATE_PASSPHRASE must be at least 16 characters in production"%string in
  Ok (mkDealerConfig validatorAddress (orUndefined mnemonic) (orUndefined privkeyHex) cosmosRpcUrl cosmosLcdUrl bech32Prefix
        (envStr "DEALER_GAS_PRICE" "0uchips")
        (envStr "DEALER_STATE_DIR" (default "/tmp"%string (env "HOME") +:+ "/.ocp-dealer"))
        statePassphrase (envBool "DEALER_AUTO_BEGIN_EPOCH" true) (envBool "DEALER_AUTO_INIT_HAND" true) (envBool "DEALER_AUTO_FINALIZE" true)
        pollIntervalMs committeeSize (Z.to_nat threshold) shuffleRounds).

(** ** What a configuration satisfies *)

Definition http_url (url : string) : Prop := urlProtocol url = Some "http:"%string ∨ urlProtocol url = Some "https:"%string.

Lemma requireHttpUrl_ok name url u : requireHttpUrl name url = Ok u → http_url url.
Proof.
  unfold requireHttpUrl, http_url. destruct (urlProtocol url) as [p|]; [|done]. intros E%throw_if_ok.
  repeat case_bool_decide; subst; auto; done.
Qed.

(** The settings that [loadConfig] returns are within bounds: polls at least
    a quarter of a second apart, a threshold from 1 to the size of the
    committee, at least one round of shuffling, an operator address with the
    configured prefix, exactly one signing credential, HTTP endpoints, and in
    production a passphrase of at least 16 characters. *)
Theorem loadConfig_bounds c : loadConfig = Ok c →
  250 <= c.(pollIntervalMs) ∧ (1 <= c.(threshold))%nat ∧ Z.of_nat c.(threshold) <= c.(committeeSize) ∧ 1 <= c.(shuffleRounds) ∧
  String.prefix (c.(bech32Prefix) +:+ "valoper1") c.(validatorAddress) = true ∧
  (is_Some c.(mnemonic) ↔ c.(privkeyHex) = None) ∧ http_url c.(cosmosRpcUrl) ∧ http_url c.(cosmosLcdUrl) ∧
  (isProductionEnv = true → (16 <= String.length c.(statePassphrase))%nat).
Proof.
  unfold loadConfig. cbv zeta. intros E.
  apply rbind_ok in E as (? & _ & E). apply rbind_ok in E as (? & Hpre%throw_if_ok & E).
  apply rbind_ok in E as (? & Hone%throw_if_ok & E). apply rbind_ok in E as (? & Htwo%throw_if_ok & E).
  apply rbind_ok in E as (? & Hrpc%requireHttpUrl_ok & E). apply rbind_ok in E as (? & Hlcd%requireHttpUrl_ok & E).
  apply rbind_ok in E as (? & Hpoll%throw_if_ok & E). apply rbind_ok in E as (? & _ & E).
  apply rbind_ok in E as (? & Ht1%throw_if_ok & E). apply rbind_ok in E as (? & Ht2%throw_if_ok & E).
  apply rbind_ok in E as (? & Hsh%throw_if_ok & E). apply rbind_ok in E as (? & _ & E).
  apply rbind_ok in E as (? & Hpass%throw_if_ok & E). apply Ok_inj in E as <-.
  cbn [pollIntervalMs threshold committeeSize shuffleRounds bech32Prefix validatorAddress mnemonic privkeyHex cosmosRpcUrl cosmosLcdUrl statePassphrase].
  b2p. split; [done|]. split; [lia|]. split; [lia|]. split; [done|]. split; [first [done|by apply negb_false_iff]|]. split; [|split; [done|split; [done|]]].
  - unfold orUndefined. destruct (isEmpty (envStr "DEALER_VALIDATOR_MNEMONIC" _)), (isEmpty (envStr "DEALER_VALIDATOR_PRIVKEY_HEX" _)); try done;
      split; (done || by intros [? ?] || by eexists).
  - intros Hp. rewrite Hp in Hpass. cbn [andb] in Hpass. by apply Nat.ltb_ge in Hpass.
Qed.
End config.

Definition sample_env (key : string) : option string :=
  if bool_decide (key = "DEALER_VALIDATOR_ADDRESS"%string) then Some " ocpvaloper1xyz "%string
  else if bool_decide (key = "DEALER_VALIDATOR_MNEMONIC"%string) then Some "twelve words"%string
  else if bool_decide (key = "DEALER_POLL_INTERVAL_MS"%string) then Some "500ms"%string
  else None.

Lemma loadConfig_bounds_witness :
  ∃ c, loadConfig sample_env (λ _, Some "http:"%string) = Ok c ∧ 250 <= c.(pollIntervalMs) ∧ c.(pollIntervalMs) = 500.
Proof.
  destruct (loadConfig sample_env (λ _, Some "http:"%string)) as [c|] eqn:E; [|vm_compute in E; discriminate E].
  destruct (loadConfig_bounds _ _ c E) as [Hp _]. exists c. split; [reflexivity|]. split; [exact Hp|].
  vm_compute in E. injection E as <-. reflexivity.
Defined.

End DealerConfig.
