(* ===== verification/JsMap.v ===== *)
(** * JavaScript's [Map]: entries in insertion order

    [set] of a key that is present replaces the value and keeps the position;
    a new key goes last.  Iterating visits the entries in order, and deleting
    the entry being visited does not disturb the iteration, so a loop that
    deletes the entries that satisfy a test is a filter. *)
From stdpp Require Import base option list.
From Stdlib Require Import ZArith Lia.
From S2P Require Import Prelude.

Module JsMap.

Section jsmap.
Context {K V : Type} `{EqDecision K}.
Implicit Types (m : list (K * V)) (k : K) (v : V).

(** [m.get(k)], [m.has(k)], [m.set(k, v)], [m.delete(k)] *)
Fixpoint mget k m : option V :=
  match m with
  | [] => None
  | (k', v) :: m => if bool_decide (k' = k) then Some v else mget k m
  end.
Definition mhas k m : bool := if mget k m is Some _ then true else false.
Fixpoint mset k v m : list (K * V) :=
  match m with
  | [] => [(k, v)]
  | (k', v') :: m => if bool_decide (k' = k) then (k', v) :: m else (k', v') :: mset k v m
  end.
Definition mdel k m : list (K * V) := List.filter (λ kv, negb (bool_decide (kv.1 = k))) m.
(** [for (const [k, v] of m) if (f(v)) m.delete(k)] *)
Definition mprune (f : V → bool) m : list (K * V) := List.filter (λ kv, negb (f kv.2)) m.

(** No key occurs twice. *)
Definition mwf m : Prop := NoDup m.*1.

Lemma mget_set k v m k' : mget k' (mset k v m) = if decide (k = k') then Some v else mget k' m.
Proof.
  induction m as [|[k0 v0] m IH]; cbn [mset mget].
  - repeat case_bool_decide; case_decide; congruence.
  - case_bool_decide as E; cbn [mget]; repeat case_bool_decide; case_decide; congruence.
Qed.

Lemma mget_filter (f : K * V → bool) k m : mwf m →
  mget k (List.filter f m) = match mget k m with Some v => if f (k, v) then Some v else None | None => None end.
Proof.
  unfold mwf. induction m as [|[k0 v0] m IH]; cbn [List.filter mget fmap list_fmap fst]; [done|].
  intros [Hk Hm]%NoDup_cons. specialize (IH Hm). case_bool_decide as E.
  - subst k0. destruct (f (k, v0)); [cbn [mget]; by rewrite bool_decide_true|].
    rewrite IH. destruct (mget k m) as [v|] eqn:G; [|done]. exfalso. apply Hk. clear -G.
    induction m as [|[k1 v1] m IH]; cbn [mget fmap list_fmap fst] in *; [done|]. case_bool_decide as E; [subst; by left|right; by apply IH].
  - destruct (f (k0, v0)); [|done]. cbn [mget]. by rewrite bool_decide_false.
Qed.

Lemma mget_del k m k' : mwf m → mget k' (mdel k m) = if decide (k = k') then None else mget k' m.
Proof.
  intros Hm. unfold mdel. rewrite mget_filter by done. cbn [fst]. case_decide as E.
  - subst. rewrite bool_decide_true by done. by destruct (mget k' m).
  - rewrite bool_decide_false by congruence. by destruct (mget k' m).
Qed.

Lemma mget_elem k v m : mwf m → mget k m = Some v ↔ (k, v) ∈ m.
Proof.
  unfold mwf. induction m as [|[k0 v0] m IH]; cbn [mget fmap list_fmap fst]; [intros _; split; [done|by intros ?%elem_of_nil]|].
  intros [Hk Hm]%NoDup_cons. specialize (IH Hm). rewrite elem_of_cons. case_bool_decide as E.
  - subst k0. split; [intros [= ->]; by left|]. intros [[= ->]|Hin]; [done|]. exfalso. apply Hk. apply list_elem_of_fmap. by exists (k, v).
  - rewrite IH. split; [by right|]. intros [[= -> ->]|Hin]; done.
Qed.

Lemma mget_keys k m : is_Some (mget k m) ↔ k ∈ m.*1.
Proof.
  induction m as [|[k0 v0] m IH]; cbn [mget fmap list_fmap fst]; [split; [by intros []|by intros ?%elem_of_nil]|].
  rewrite elem_of_cons. case_bool_decide as E; [split; [intros _; by left|by eexists]|]. rewrite IH. split; [by right|by intros [->|?]].
Qed.

Lemma mset_keys k v m : (mset k v m).*1 = if mhas k m then m.*1 else m.*1 ++ [k].
Proof.
  unfold mhas. induction m as [|[k0 v0] m IH]; cbn [mset mget fmap list_fmap fst app]; [done|].
  case_bool_decide as E; cbn [fmap list_fmap fst]; [done|]. change (list_fmap K _ _) with (@fmap list _ _ _ (@fst K V) (mset k v m)).
  rewrite IH. by destruct (mget k m).
Qed.

Lemma mset_wf k v m : mwf m → mwf (mset k v m).
Proof.
  unfold mwf. intros Hm. rewrite mset_keys. unfold mhas. pose proof (mget_keys k m) as Hk. destruct (mget k m) as [v'|]; [done|].
  apply NoDup_app. split; [done|]. split; [|apply NoDup_singleton]. intros x Hx Hin%list_elem_of_singleton. subst. apply Hk in Hx as [? [=]].
Qed.

Lemma mfilter_wf (f : K * V → bool) m : mwf m → mwf (List.filter f m).
Proof.
  unfold mwf. induction m as [|kv m IH]; [done|]. rewrite fmap_cons. cbn [List.filter]. intros [Hk Hm]%NoDup_cons.
  destruct (f kv); [|by apply IH]. rewrite fmap_cons. apply NoDup_cons. split; [|by apply IH].
  intros (kv' & E & Hin)%list_elem_of_fmap. apply Hk. rewrite E. apply list_elem_of_fmap. exists kv'. split; [done|].
  apply list_elem_of_In, filter_In in Hin as [Hin _]. by apply list_elem_of_In.
Qed.

Lemma mset_length k v m : length (mset k v m) = if mhas k m then length m else S (length m).
Proof. rewrite <-(length_fmap (@fst K V) (mset k v m)), mset_keys. destruct (mhas k m); [by rewrite length_fmap|]. rewrite length_app, length_fmap. cbn. lia. Qed.

Lemma elem_of_mset k v m k' v' : mwf m → (k', v') ∈ mset k v m ↔ (k' = k ∧ v' = v) ∨ (k' ≠ k ∧ (k', v') ∈ m).
Proof.
  intros Hm. rewrite <-!mget_elem by (done || by apply mset_wf). rewrite mget_set. case_decide as E.
  - subst. split; [intros [= ->]; by left|]. by intros [[_ ->]|[? _]].
  - split; [by right|]. by intros [[-> _]|[_ ?]].
Qed.

Lemma Forall_mset (Q : K * V → Prop) k v m : Q (k, v) → Forall Q m → Forall Q (mset k v m).
Proof.
  intros Hk Hm. induction Hm as [|[k0 v0] m H0 Hm IH]; cbn [mset]; [by repeat constructor|].
  case_bool_decide as E; [subst|]; by constructor.
Qed.

Lemma Forall_mfilter (Q : K * V → Prop) (f : K * V → bool) m : Forall Q m → Forall Q (List.filter f m).
Proof. induction 1 as [|kv m Hkv Hm IH]; cbn [List.filter]; [done|]. destruct (f kv); [by constructor|done]. Qed.

Lemma mget_Forall (Q : K * V → Prop) k v m : Forall Q m → mget k m = Some v → Q (k, v).
Proof.
  induction 1 as [|[k0 v0] m H0 Hm IH]; cbn [mget]; [done|]. case_bool_decide as E; [intros [= ->]; by subst|done].
Qed.

Lemma mhas_mset k k' v m : mhas k m = true → mhas k (mset k' v m) = true.
Proof. unfold mhas. rewrite mget_set. by case_decide. Qed.

(** A function applied to every value. *)
Lemma mapv_wf (f : V → V) m : mwf m → mwf (map (λ kv, (kv.1, f kv.2)) m).
Proof.
  unfold mwf. intros Hm. replace (map (λ kv, (kv.1, f kv.2)) m).*1 with m.*1; [done|]. clear Hm.
  induction m as [|kv m IH]; [done|]. cbn [map]. rewrite !fmap_cons. by f_equal.
Qed.

Lemma mget_mapv (f : V → V) k m : mget k (map (λ kv, (kv.1, f kv.2)) m) = f <$> mget k m.
Proof. induction m as [|[k0 v0] m IH]; cbn [map mget fst snd]; [done|]. by case_bool_decide. Qed.

(** A measure summed over the values: what [set] and [delete] change. *)
Definition mtotal (f : V → Z) m : Z := sumZ (map (λ kv, f kv.2) m).

Lemma mtotal_set f k v m : mtotal f (mset k v m) = mtotal f m + f v - match mget k m with Some v' => f v' | None => 0 end.
Proof.
  unfold mtotal. induction m as [|[k0 v0] m IH]; cbn [mset mget map snd]; [rewrite sumZ_cons; lia|].
  case_bool_decide as E; cbn [map snd]; rewrite !sumZ_cons; [lia|]. rewrite IH. lia.
Qed.

Lemma mtotal_del f k m : mwf m → mtotal f (mdel k m) = mtotal f m - match mget k m with Some v' => f v' | None => 0 end.
Proof.
  unfold mtotal, mwf, mdel. induction m as [|[k0 v0] m IH]; cbn [List.filter mget map snd fst fmap list_fmap]; [done|].
  intros [Hk Hm]%NoDup_cons. case_bool_decide as E; cbn [negb].
  - subst k0. rewrite sumZ_cons. cbn [snd]. rewrite (IH Hm).
    destruct (mget k m) as [v'|] eqn:G; [|lia]. exfalso. apply Hk, mget_keys. by eexists.
  - cbn [map snd]. rewrite !sumZ_cons, (IH Hm). cbn [snd]. lia.
Qed.
End jsmap.

Arguments mwf {K V} m : simpl never.
Create HintDb jsmap.
#[export] Hint Resolve mset_wf mfilter_wf Forall_mset Forall_mfilter : jsmap.

End JsMap.
