(* ===== verification/CoordStore.v ===== *)
(** * The coordinator's memory: [apps/coordinator/src/store.ts], [types.ts] and
      [nicknames.ts]

    Tables, chat, seat intents and a bounded cache of artifacts.  The time of
    each call is an argument.  [localeCompare] of the platform is the parameter
    [locale_le]. *)
From stdpp Require Import base option list strings.
From Stdlib Require Import ZArith Lia Sorting.Sorted.
From S2P Require Import Prelude OcpBytes Json JsMap.
Import Bytes Json JsMap.

Module CoordStore.

(** ** types.ts *)

Record TableParams := mkTableParams {
  maxPlayers : option Z; smallBlind : string; bigBlind : string; minBuyIn : string; maxBuyIn : string;
  passwordHash : option string; passwordSalt : option string
}.

Record ChatMessage := mkChat { sender : string; text : string; timeMs : Z }.

Inductive TableStatus := open | in_hand | closed.

Record TableInfo := mkTableInfo {
  t_tableId : string; t_label : option string; t_params : TableParams; t_status : TableStatus; t_updatedAtMs : Z
}.

Record ChainEvent := mkChainEvent {
  ev_name : string; ev_tableId : option string; ev_handId : option string; ev_eventIndex : Z; ev_timeMs : Z; ev_data : json
}.

Record SeatIntent := mkSeatIntent {
  intentId : string; si_tableId : string; si_seat : Z; si_player : string; si_pkPlayer : option string;
  si_buyIn : option string; si_bond : option string; si_createdAtMs : Z; si_expiresAtMs : Z
}.

Inductive ArtifactKind := k_shuffle | k_encShare | k_pubShare | k_reveal | k_other.

Record ArtifactRecord := mkArtifact {
  artifactId : string; a_kind : ArtifactKind; a_mime : string; a_bytes : bytes; a_meta : json;
  a_createdAtMs : Z; a_lastAccessAtMs : Z
}.
Definition set_lastAccess (t : Z) (a : ArtifactRecord) : ArtifactRecord :=
  mkArtifact a.(artifactId) a.(a_kind) a.(a_mime) a.(a_bytes) a.(a_meta) a.(a_createdAtMs) t.
Definition size (a : ArtifactRecord) : Z := Z.of_nat (length a.(a_bytes)).

(** ** store.ts *)

Definition CHAT_RING_SIZE : nat := 50.

Record Limits := mkLimits { artifactMaxBytes : Z; artifactCacheMaxBytes : Z }.

Record CoordinatorStore := mkCoordStore {
  tablesById : list (string * TableInfo);
  seatIntentsByTable : list (string * list (string * SeatIntent));
  chatByTable : list (string * list ChatMessage);
  artifactsById : list (string * ArtifactRecord);
  artifactsTotalBytes : Z
}.

Definition newStore : CoordinatorStore := mkCoordStore [] [] [] [] 0.
Definition set_tables v st := mkCoordStore v st.(seatIntentsByTable) st.(chatByTable) st.(artifactsById) st.(artifactsTotalBytes).
Definition set_intents v st := mkCoordStore st.(tablesById) v st.(chatByTable) st.(artifactsById) st.(artifactsTotalBytes).
Definition set_chat v st := mkCoordStore st.(tablesById) st.(seatIntentsByTable) v st.(artifactsById) st.(artifactsTotalBytes).
Definition set_artifacts v n st := mkCoordStore st.(tablesById) st.(seatIntentsByTable) st.(chatByTable) v n.

Section store.
Context (limits : Limits) (locale_le : string → string → bool).

(** The ring after a push: the last 50 messages. *)
Definition pushRing (ring : list ChatMessage) (msg : ChatMessage) : list ChatMessage :=
  let ring := ring ++ [msg] in
  if (CHAT_RING_SIZE <? length ring)%nat then drop (length ring - CHAT_RING_SIZE) ring else ring.

Definition getChatHistory (st : CoordinatorStore) (tableId : string) : list ChatMessage := default [] (mget tableId st.(chatByTable)).

Definition addChatMessage (st : CoordinatorStore) (tableId : string) (msg : ChatMessage) : CoordinatorStore :=
  if negb (mhas tableId st.(tablesById)) then st
  else set_chat (mset tableId (pushRing (getChatHistory st tableId) msg) st.(chatByTable)) st.

Definition upsertTable (st : CoordinatorStore) (table : TableInfo) : CoordinatorStore :=
  set_tables (mset table.(t_tableId) table st.(tablesById)) st.

Definition listTables (st : CoordinatorStore) : list TableInfo :=
  sort_by (λ a b, locale_le a.(t_tableId) b.(t_tableId)) st.(tablesById).*2.

Definition getTable (st : CoordinatorStore) (tableId : string) : option TableInfo := mget tableId st.(tablesById).

Definition putSeatIntent (st : CoordinatorStore) (intent : SeatIntent) : CoordinatorStore :=
  let byId := default [] (mget intent.(si_tableId) st.(seatIntentsByTable)) in
  set_intents (mset intent.(si_tableId) (mset intent.(intentId) intent byId) st.(seatIntentsByTable)) st.

Definition pruneExpiredSeatIntents (st : CoordinatorStore) (nowMs : Z) : CoordinatorStore :=
  let pruned := map (λ kv, (kv.1, mprune (λ intent, intent.(si_expiresAtMs) <=? nowMs) kv.2)) st.(seatIntentsByTable) in
  set_intents (mprune (λ byId, (length byId =? 0)%nat) pruned) st.

Definition listSeatIntents (st : CoordinatorStore) (tableId : string) (nowMs : Z) : list SeatIntent * CoordinatorStore :=
  let st := pruneExpiredSeatIntents st nowMs in
  match mget tableId st.(seatIntentsByTable) with
  | None => ([], st)
  | Some byId => (sort_by (λ a b, a.(si_seat) <=? b.(si_seat)) byId.*2, st)
  end.

(** The loop over the artifacts, least recently used first. *)
Fixpoint evictLoop (artifacts : list ArtifactRecord) (st : CoordinatorStore) : CoordinatorStore :=
  match artifacts with
  | [] => st
  | a :: artifacts =>
      if st.(artifactsTotalBytes) <=? limits.(artifactCacheMaxBytes) then st
      else evictLoop artifacts (set_artifacts (mdel a.(artifactId) st.(artifactsById)) (st.(artifactsTotalBytes) - size a) st)
  end.

Definition lru (l : list ArtifactRecord) : list ArtifactRecord := sort_by (λ a b, a.(a_lastAccessAtMs) <=? b.(a_lastAccessAtMs)) l.

Definition evictArtifactsIfNeeded (st : CoordinatorStore) : CoordinatorStore :=
  if st.(artifactsTotalBytes) <=? limits.(artifactCacheMaxBytes) then st else evictLoop (lru st.(artifactsById).*2) st.

Definition putArtifact (st : CoordinatorStore) (artifact : ArtifactRecord) (nowMs : Z) : result string CoordinatorStore :=
  let! _ := throw_if (limits.(artifactMaxBytes) <? size artifact) "artifact too large"%string in
  let before := match mget artifact.(artifactId) st.(artifactsById) with
                | Some prev => st.(artifactsTotalBytes) - size prev
                | None => st.(artifactsTotalBytes)
                end in
  let artifact := set_lastAccess nowMs artifact in
  Ok (evictArtifactsIfNeeded (set_artifacts (mset artifact.(artifactId) artifact st.(artifactsById)) (before + size artifact) st)).

(** The record is shared with the cache, so the access time is updated in
    place. *)
Definition getArtifact (st : CoordinatorStore) (id : string) (nowMs : Z) : option ArtifactRecord * CoordinatorStore :=
  match mget id st.(artifactsById) with
  | None => (None, st)
  | Some rec =>
      let rec := set_lastAccess nowMs rec in
      (Some rec, set_artifacts (mset id rec st.(artifactsById)) st.(artifactsTotalBytes) st)
  end.

Definition hasArtifact (st : CoordinatorStore) (id : string) : bool := mhas id st.(artifactsById).
End store.

(** ** nicknames.ts *)

Record NicknameRegistry := mkNicks { nickMap : list (string * string); maxEntries : nat }.

Definition newNicks (maxEntries : nat) : NicknameRegistry := mkNicks [] (Nat.max 1 maxEntries).
Inductive SetResult := ok | taken.

(** Some other address holds the nickname. *)
Definition nickTaken (m : list (string * string)) (address nickname : string) : bool :=
  existsb (λ kv, negb (bool_decide (kv.1 = address)) && bool_decide (lower kv.2 = lower nickname)) m.

Definition nickSet (r : NicknameRegistry) (address nickname : string) : SetResult * NicknameRegistry :=
  if nickTaken r.(nickMap) address nickname then (taken, r)
  else
    let m := if negb (mhas address r.(nickMap)) && (r.(maxEntries) <=? length r.(nickMap))%nat
             then match r.(nickMap) with (oldest, _) :: _ => mdel oldest r.(nickMap) | [] => [] end
             else r.(nickMap) in
    (ok, mkNicks (mset address nickname m) r.(maxEntries)).

End CoordStore.
