(* ===== verification/CoordStoreThms.v ===== *)
(** * The coordinator's memory: what is consistent, and what is bounded

    An invariant of the store under every sequence of its operations, the
    replacement policy of the artifact cache, and the nickname registry. *)
From stdpp Require Import base option list strings sorting.
From Stdlib Require Import ZArith Lia Sorting.Sorted.
From S2P Require Import Prelude OcpBytes Json JsMap CoordStore.
Import Bytes Json JsMap CoordStore.

Module CoordStoreThms.

Section thms.
Context (limits : Limits).

(** ** Sequences of operations *)

Inductive StoreOp :=
| OpChat (tableId : string) (msg : ChatMessage)
| OpUpsert (table : TableInfo)
| OpIntent (intent : SeatIntent)
| OpPrune (nowMs : Z)
| OpListIntents (tableId : string) (nowMs : Z)
| OpPut (artifact : ArtifactRecord) (nowMs : Z)
| OpGet (id : string) (nowMs : Z).

(** A call that throws leaves the store as it is: the code throws before it
    changes anything. *)
Definition runOp (st : CoordinatorStore) (op : StoreOp) : CoordinatorStore :=
  match op with
  | OpChat t msg => addChatMessage st t msg
  | OpUpsert table => upsertTable st table
  | OpIntent intent => putSeatIntent st intent
  | OpPrune now => pruneExpiredSeatIntents st now
  | OpListIntents t now => (listSeatIntents st t now).2
  | OpPut a now => match putArtifact limits st a now with Ok st' => st' | Err _ => st end
  | OpGet id now => (getArtifact st id now).2
  end.
Definition run (st : CoordinatorStore) (ops : list StoreOp) : CoordinatorStore := foldl runOp st ops.

(** ** The invariant *)

Definition intents_ok (kv : string * list (string * SeatIntent)) : Prop :=
  mwf kv.2 ∧ Forall (λ iv, si_tableId iv.2 = kv.1 ∧ intentId iv.2 = iv.1) kv.2.
Definition artifact_ok (kv : string * ArtifactRecord) : Prop := artifactId kv.2 = kv.1 ∧ size kv.2 <= limits.(artifactMaxBytes).

(** Maps whose entries are under their own keys; chat rings of tables that
    exist; and the bounds: of each ring, of each artifact and of the bytes of
    all artifacts.  Seat intents that have not expired, tables and artifacts
    without bytes have none. *)
Record store_ok (st : CoordinatorStore) : Prop := {
  ok_tables : mwf st.(tablesById) ∧ Forall (λ kv, t_tableId kv.2 = kv.1) st.(tablesById);
  ok_chat : mwf st.(chatByTable) ∧ Forall (λ kv, (length kv.2 <= CHAT_RING_SIZE)%nat ∧ mhas kv.1 st.(tablesById) = true) st.(chatByTable);
  ok_intents : mwf st.(seatIntentsByTable) ∧ Forall intents_ok st.(seatIntentsByTable);
  ok_artifacts : mwf st.(artifactsById) ∧ Forall artifact_ok st.(artifactsById);
  ok_total : st.(artifactsTotalBytes) = mtotal size st.(artifactsById);
  ok_bound : st.(artifactsTotalBytes) <= limits.(artifactCacheMaxBytes)
}.

Lemma pushRing_length ring msg : (length (pushRing ring msg) <= CHAT_RING_SIZE)%nat.
Proof. unfold pushRing. destruct (Nat.ltb_spec CHAT_RING_SIZE (length (ring ++ [msg]))); [|done]. rewrite length_drop. lia. Qed.

Lemma addChat_ok st t msg : store_ok st → store_ok (addChatMessage st t msg).
Proof.
  intros []. unfold addChatMessage. destruct (mhas t st.(tablesById)) eqn:Ht; [|by constructor]. cbn [negb].
  constructor; cbn; try done. destruct ok_chat0 as [Hw Hf]. split; [auto with jsmap|]. apply Forall_mset; [|done]. split; [apply pushRing_length|done].
Qed.

Lemma upsert_ok st table : store_ok st → store_ok (upsertTable st table).
Proof.
  intros []. constructor; cbn; try done.
  - destruct ok_tables0. split; auto with jsmap.
  - destruct ok_chat0 as [Hw Hf]. split; [done|]. eapply Forall_impl; [exact Hf|]. cbn. intros kv [Hl Ht]. split; [done|by apply mhas_mset].
Qed.

Lemma putIntent_ok st intent : store_ok st → store_ok (putSeatIntent st intent).
Proof.
  intros []. constructor; cbn; try done. destruct ok_intents0 as [Hw Hf]. split; [auto with jsmap|]. apply Forall_mset; [|done].
  assert (Hold : intents_ok (si_tableId intent, default [] (mget (si_tableId intent) st.(seatIntentsByTable)))).
  { destruct (mget _ _) as [byId|] eqn:E; [by apply (mget_Forall _ _ _ _ Hf E)|]. split; [apply NoDup_nil_2|by constructor]. }
  destruct Hold as [Hw' Hf']. split; [by apply mset_wf|]. by apply Forall_mset.
Qed.

Lemma prune_ok st now : store_ok st → store_ok (pruneExpiredSeatIntents st now).
Proof.
  intros []. constructor; cbn; try done. destruct ok_intents0 as [Hw Hf]. split; [by apply mfilter_wf, mapv_wf|].
  apply Forall_mfilter, Forall_map. eapply Forall_impl; [exact Hf|]. intros [t byId] [Hw' Hf']. cbn in *.
  split; cbn; [by apply mfilter_wf|by apply Forall_mfilter].
Qed.

Lemma listIntents_eq st t now : (listSeatIntents st t now).2 = pruneExpiredSeatIntents st now.
Proof. unfold listSeatIntents. by destruct (mget _ _). Qed.

(** ** The cache *)

Lemma size_nonneg a : 0 <= size a.
Proof. unfold size. lia. Qed.

Lemma getArtifact_ok st id now : store_ok st → store_ok (getArtifact st id now).2.
Proof.
  intros Hst. unfold getArtifact. destruct (mget id st.(artifactsById)) as [a|] eqn:E; [|done]. destruct Hst. cbn [snd].
  destruct ok_artifacts0 as [Hw Hf]. pose proof (mget_Forall _ _ _ _ Hf E) as [Hid Hsz]. cbn in Hid, Hsz.
  constructor; cbn; try done.
  - split; [auto with jsmap|]. by apply Forall_mset.
  - rewrite mtotal_set, E, ok_total0. change (size (set_lastAccess now a)) with (size a). lia.
Qed.

(** What the loop leaves: the artifacts after the ones it has taken out. *)
Record evicted (all : list ArtifactRecord) (st st' : CoordinatorStore) (n : nat) : Prop := {
  ev_state : st' = set_artifacts st'.(artifactsById) st'.(artifactsTotalBytes) st;
  ev_n : (n <= length all)%nat;
  ev_keys : ∀ id, mget id st'.(artifactsById) =
    if bool_decide (id ∈ map artifactId (take n all)) then None else mget id st.(artifactsById);
  ev_sub : ∀ Q, Forall Q st.(artifactsById) → Forall Q st'.(artifactsById);
  ev_wf : mwf st'.(artifactsById);
  ev_total : st'.(artifactsTotalBytes) = st.(artifactsTotalBytes) - sumZ (map size (take n all));
  ev_stop : st'.(artifactsTotalBytes) <= limits.(artifactCacheMaxBytes) ∨ n = length all;
  ev_least : ∀ k, (k < n)%nat → limits.(artifactCacheMaxBytes) < st.(artifactsTotalBytes) - sumZ (map size (take k all))
}.

Lemma evicted_none all st : mwf st.(artifactsById) →
  st.(artifactsTotalBytes) <= limits.(artifactCacheMaxBytes) ∨ 0%nat = length all → evicted all st st 0.
Proof. intros Hw Hs. constructor; rewrite ?take_0; cbn [map]; rewrite ?sumZ_nil; first [done|by destruct st|lia|by cbn]. Qed.

Lemma evictLoop_evicted all st : mwf st.(artifactsById) → ∃ n, evicted all st (evictLoop limits all st) n.
Proof.
  revert st. induction all as [|a all IH]; intros st Hw; cbn [evictLoop].
  - exists 0%nat. apply evicted_none; [done|by right].
  - destruct (Z.leb_spec st.(artifactsTotalBytes) limits.(artifactCacheMaxBytes)) as [Hle|Hgt].
    + exists 0%nat. apply evicted_none; [done|by left].
    + destruct (IH (set_artifacts (mdel a.(artifactId) st.(artifactsById)) (st.(artifactsTotalBytes) - size a) st)) as [n [H1 H2 H3 H4 H5 H6 H7 H8]];
        [by apply mfilter_wf|]. cbn [artifactsById artifactsTotalBytes set_artifacts] in *. exists (S n). constructor; cbn [take map length]; try done.
      * lia.
      * intros id. rewrite H3, mget_del by done. repeat case_bool_decide; try case_decide; subst; try done;
          exfalso; rewrite elem_of_cons in *; naive_solver.
      * intros Q HQ. apply H4. by apply Forall_mfilter.
      * rewrite sumZ_cons, H6. lia.
      * destruct H7; [by left|right; lia].
      * intros [|k] Hk; cbn [take map]; [rewrite sumZ_nil; lia|]. rewrite sumZ_cons. specialize (H8 k ltac:(lia)). lia.
Qed.

Lemma evict_evicted st : mwf st.(artifactsById) → st.(artifactsTotalBytes) = mtotal size st.(artifactsById) →
  ∃ n, evicted (lru st.(artifactsById).*2) st (evictArtifactsIfNeeded limits st) n.
Proof.
  intros Hw Ht. unfold evictArtifactsIfNeeded. destruct (Z.leb_spec st.(artifactsTotalBytes) limits.(artifactCacheMaxBytes)).
  - exists 0%nat. apply evicted_none; [done|by left].
  - by apply evictLoop_evicted.
Qed.

Lemma lru_perm l : lru l ≡ₚ l.
Proof. apply sort_by_perm. Qed.

Lemma values_total (m : list (string * ArtifactRecord)) : sumZ (map size m.*2) = mtotal size m.
Proof. unfold mtotal. f_equal. change (m.*2) with (map snd m). by rewrite map_map. Qed.

(** The keys of the artifacts are their ids. *)
Lemma values_elem m a : mwf m → Forall artifact_ok m → a ∈ m.*2 ↔ mget a.(artifactId) m = Some a.
Proof.
  intros Hw Hf. rewrite mget_elem by done. split.
  - intros ([k a'] & -> & Hin)%list_elem_of_fmap. cbn in *. pose proof (proj1 (Forall_forall _ _) Hf _ Hin) as [Hid _]. cbn in Hid. by rewrite Hid.
  - intros Hin. apply list_elem_of_fmap. by exists (a.(artifactId), a).
Qed.

Lemma values_ids (m : list (string * ArtifactRecord)) : Forall artifact_ok m → map artifactId m.*2 = m.*1.
Proof. induction 1 as [|kv m [Hid _] Hm IH]; [done|]. cbn. rewrite Hid. f_equal. exact IH. Qed.

(** The cache after storing, before anything is taken out. *)
Definition stored (st : CoordinatorStore) (a : ArtifactRecord) (now : Z) : list (string * ArtifactRecord) :=
  mset a.(artifactId) (set_lastAccess now a) st.(artifactsById).

Lemma putArtifact_evicted st a now st' : store_ok st → putArtifact limits st a now = Ok st' →
  size a <= limits.(artifactMaxBytes) ∧ mwf (stored st a now) ∧ Forall artifact_ok (stored st a now) ∧
  ∃ n, evicted (lru (stored st a now).*2) (set_artifacts (stored st a now) (mtotal size (stored st a now)) st) st' n.
Proof.
  intros [] Hp. unfold putArtifact in Hp. apply rbind_ok in Hp as (u & Hs%throw_if_ok & Hp). b2p. cbv zeta in Hp. apply Ok_inj in Hp as <-.
  destruct ok_artifacts0 as [Hw Hf]. assert (Hw' : mwf (stored st a now)) by by apply mset_wf.
  split; [done|]. split; [done|]. split; [by apply Forall_mset|]. change (artifactId (set_lastAccess now a)) with (artifactId a).
  change (size (set_lastAccess now a)) with (size a).
  replace (match mget _ _ with Some prev => _ | None => _ end + size a) with (mtotal size (stored st a now));
    [by apply (evict_evicted (set_artifacts (stored st a now) (mtotal size (stored st a now)) st))|].
  unfold stored. rewrite mtotal_set, ok_total0. change (size (set_lastAccess now a)) with (size a). destruct (mget _ _); lia.
Qed.

Lemma evicted_total (all : list (string * ArtifactRecord)) n :
  mtotal size all - sumZ (map size (take n (lru all.*2))) = sumZ (map size (drop n (lru all.*2))).
Proof. rewrite <-values_total, <-(lru_perm all.*2), <-(take_drop n (lru all.*2)) at 1. rewrite map_app, sumZ_app. lia. Qed.

(** What the loop keeps are the artifacts after the ones taken out. *)
Lemma evicted_values st st' n : mwf st.(artifactsById) → Forall artifact_ok st.(artifactsById) →
  evicted (lru st.(artifactsById).*2) st st' n → st'.(artifactsById).*2 ≡ₚ drop n (lru st.(artifactsById).*2).
Proof.
  intros Hw Hf []. set (all := lru st.(artifactsById).*2) in *.
  assert (Hids : NoDup (map artifactId all)).
  { unfold all. rewrite lru_perm, values_ids by done. exact Hw. }
  assert (Hf' : Forall artifact_ok st'.(artifactsById)) by by apply ev_sub0.
  apply NoDup_Permutation.
  - apply (NoDup_fmap_1 artifactId). change (NoDup (map artifactId st'.(artifactsById).*2)). by rewrite values_ids.
  - eapply sublist_NoDup; [exact (NoDup_fmap_1 artifactId all Hids)|apply sublist_drop].
  - intros b. rewrite (values_elem _ b ev_wf0 Hf'), ev_keys0. rewrite <-(take_drop n all), map_app in Hids. apply NoDup_app in Hids as (_ & Hd & _).
    assert (Hb : mget b.(artifactId) st.(artifactsById) = Some b ↔ b ∈ take n all ∨ b ∈ drop n all).
    { rewrite <-(values_elem _ b Hw Hf), <-elem_of_app, take_drop. unfold all. by rewrite lru_perm. }
    case_bool_decide as E; [split; [done|]|rewrite Hb; split; [intros [Hin|]; [|done]|by right]].
    + intros Hin. exfalso. apply (Hd _ E). by apply list_elem_of_fmap_2.
    + exfalso. apply E. by apply list_elem_of_fmap_2.
Qed.

Lemma putArtifact_ok st a now st' : 0 <= limits.(artifactCacheMaxBytes) →
  store_ok st → putArtifact limits st a now = Ok st' → store_ok st'.
Proof.
  intros Hpos Hst Hp. destruct (putArtifact_evicted st a now st' Hst Hp) as (Hs & Hw & Hf & n & Hev).
  assert (Hv := evicted_values (set_artifacts (stored st a now) (mtotal size (stored st a now)) st) st' n Hw Hf Hev). destruct Hev. destruct Hst.
  cbn [artifactsById artifactsTotalBytes set_artifacts] in *. rewrite evicted_total in *.
  rewrite ev_state0. constructor; cbn; try done.
  - split; [done|by apply ev_sub0].
  - rewrite ev_total0, <-values_total. apply sumZ_Permutation. by rewrite Hv.
  - destruct ev_stop0 as [|E]; [done|]. rewrite ev_total0, E, drop_ge by done. cbn [map]. by rewrite sumZ_nil.
Qed.

(** The store keeps its invariant from the empty store on, whatever is done
    with it. *)
Lemma runOp_ok st op : 0 <= limits.(artifactCacheMaxBytes) → store_ok st → store_ok (runOp st op).
Proof.
  intros Hpos Hst. destruct op; cbn [runOp]; [by apply addChat_ok|by apply upsert_ok|by apply putIntent_ok|by apply prune_ok| | |by apply getArtifact_ok].
  - rewrite listIntents_eq. by apply prune_ok.
  - destruct (putArtifact _ _ _ _) as [st'|] eqn:E; [|done]. by eapply putArtifact_ok.
Qed.

Lemma newStore_ok : 0 <= limits.(artifactCacheMaxBytes) → store_ok newStore.
Proof. intros Hpos. constructor; cbn; try done; split; try constructor; apply NoDup_nil_2. Qed.

Lemma ops_ok st ops : 0 <= limits.(artifactCacheMaxBytes) → store_ok st → store_ok (run st ops).
Proof. intros Hpos. revert st. induction ops as [|op ops IH]; intros st Hst; [done|]. by apply IH, runOp_ok. Qed.

(** The store stays consistent and bounded.  Whatever the sequence of calls,
    starting from an empty store: every entry is filed under its own table,
    intent or artifact id, no id twice; a chat exists only for a known table
    and has at most 50 messages; no artifact is larger than the limit, the
    byte counter is the sum of the sizes, and it is within the cache's limit. *)
Theorem store_bounded ops : 0 <= limits.(artifactCacheMaxBytes) →
  let st := run newStore ops in
  (mwf st.(tablesById) ∧ mwf st.(chatByTable) ∧ mwf st.(seatIntentsByTable) ∧ mwf st.(artifactsById)) ∧
  (∀ t info, getTable st t = Some info → t_tableId info = t) ∧
  (∀ t, (length (getChatHistory st t) <= 50)%nat ∧ (getChatHistory st t ≠ [] → is_Some (getTable st t))) ∧
  (∀ t byId i intent, mget t st.(seatIntentsByTable) = Some byId → mget i byId = Some intent → si_tableId intent = t ∧ intentId intent = i) ∧
  (∀ i a, mget i st.(artifactsById) = Some a → artifactId a = i ∧ size a <= limits.(artifactMaxBytes)) ∧
  st.(artifactsTotalBytes) = sumZ (map size st.(artifactsById).*2) ∧ st.(artifactsTotalBytes) <= limits.(artifactCacheMaxBytes).
Proof.
  intros Hpos st. destruct (ops_ok newStore ops Hpos (newStore_ok Hpos)) as [[Ht Htf] [Hc Hcf] [Hi Hif] [Ha Haf] Htot Hb]. fold st in Ht, Htf, Hc, Hcf, Hi, Hif, Ha, Haf, Htot, Hb.
  split; [done|]. split; [|split; [|split; [|split; [|split]]]].
  - intros t info E. exact (mget_Forall _ _ _ _ Htf E).
  - intros t. unfold getChatHistory, getTable. destruct (mget t st.(chatByTable)) as [l|] eqn:E; cbn; [|split; [lia|by intros []]].
    destruct (mget_Forall _ _ _ _ Hcf E) as [Hl Hk]. cbn in Hl, Hk. split; [exact Hl|]. intros _. unfold mhas in Hk. destruct (mget t st.(tablesById)); [by eexists|done].
  - intros t byId i intent E1 E2. destruct (mget_Forall _ _ _ _ Hif E1) as [_ Hf]. exact (mget_Forall _ _ _ _ Hf E2).
  - intros i a E. exact (mget_Forall _ _ _ _ Haf E).
  - by rewrite values_total.
  - done.
Qed.

(** *** The replacement policy *)

Lemma sort_by_Z_sorted {A} (f : A → Z) l : Sorted (λ a b, f a <= f b) (sort_by (λ a b, f a <=? f b) l).
Proof.
  assert (Hs : Sorted (λ a b, f a <=? f b) (sort_by (λ a b, f a <=? f b) l)) by (apply sort_by_sorted; intros x y ?%Z.leb_gt; apply Z.leb_le; lia).
  induction Hs as [|x l' Hs IH Hx]; constructor; [done|]. destruct Hx; constructor. by apply Z.leb_le, Is_true_true.
Qed.

Lemma lru_sorted l : Sorted (λ a b, a_lastAccessAtMs a <= a_lastAccessAtMs b) (lru l).
Proof. apply (sort_by_Z_sorted a_lastAccessAtMs). Qed.

(** The most recently used artifact is the last to be taken out. *)
Lemma lru_last l a : a ∈ l → (∀ b, b ∈ l → b = a ∨ a_lastAccessAtMs b < a_lastAccessAtMs a) → ∃ l', lru l = l' ++ [a].
Proof.
  intros Ha Hmax. destruct (lru l) as [|x l0] eqn:E using rev_ind; [exfalso; rewrite <-(lru_perm l), E in Ha; by apply elem_of_nil in Ha|].
  clear IHl0. exists l0. repeat f_equal. destruct (decide (a_lastAccessAtMs x < a_lastAccessAtMs a)) as [Hlt|Hge].
  - exfalso. assert (Hin : a ∈ l0 ++ [x]) by by rewrite <-E, lru_perm. apply elem_of_app in Hin as [Hin| ->%list_elem_of_singleton]; [|lia].
    pose proof (lru_sorted l) as Hs. rewrite E in Hs. apply Sorted_StronglySorted in Hs; [|intros ???; lia].
    pose proof (StronglySorted_app_1_elem_of _ _ _ a x Hs Hin ltac:(by apply list_elem_of_singleton)) as Hle. cbn in Hle. lia.
  - assert (Hx : x ∈ l) by (rewrite <-(lru_perm l), E; apply elem_of_app; right; by apply list_elem_of_singleton).
    destruct (Hmax x Hx); [done|lia].
Qed.

(** What the cache holds after storing, in the order of eviction. *)
Lemma putArtifact_dropped st a now st' : store_ok st → putArtifact limits st a now = Ok st' →
  let held := (stored st a now).*2 in
  mwf (stored st a now) ∧ Forall artifact_ok (stored st a now) ∧ mwf st'.(artifactsById) ∧ Forall artifact_ok st'.(artifactsById) ∧
  ∃ n, (n <= length held)%nat ∧ st'.(artifactsById).*2 ≡ₚ drop n (lru held) ∧
    (sumZ (map size (drop n (lru held))) <= limits.(artifactCacheMaxBytes) ∨ n = length held) ∧
    (∀ k, (k < n)%nat → limits.(artifactCacheMaxBytes) < sumZ (map size (drop k (lru held)))).
Proof.
  intros Hst Hp. destruct (putArtifact_evicted st a now st' Hst Hp) as (Hs & Hw & Hf & n & Hev).
  assert (Hv := evicted_values (set_artifacts (stored st a now) (mtotal size (stored st a now)) st) st' n Hw Hf Hev).
  destruct Hev as [Hstate Hn _ Hsub Hwf Htot Hstop Hleast]. cbn [artifactsById artifactsTotalBytes set_artifacts] in *.
  rewrite evicted_total in Htot. cbv zeta. split; [done|]. split; [done|]. split; [done|]. split; [by apply Hsub|]. exists n.
  rewrite (Permutation_length (lru_perm _)) in *. split; [done|]. split; [done|]. split; [by rewrite <-Htot|].
  intros k Hk. rewrite <-evicted_total. by apply Hleast.
Qed.

(** What has just been stored stays, when it fits and is the last to be used. *)
Lemma putArtifact_keeps st a now st' : store_ok st → putArtifact limits st a now = Ok st' →
  (∀ b, b ∈ st.(artifactsById).*2 → artifactId b ≠ artifactId a → a_lastAccessAtMs b < now) →
  size a <= limits.(artifactCacheMaxBytes) → mget a.(artifactId) st'.(artifactsById) = Some (set_lastAccess now a).
Proof.
  intros Hst Hp Hlast Hfit. destruct (putArtifact_dropped st a now st' Hst Hp) as (Hw & Hf & Hw' & Hf' & n & _ & Hv & _ & Hlow).
  apply (values_elem _ (set_lastAccess now a) Hw' Hf'). rewrite Hv. set (held := (stored st a now).*2) in *.
  assert (Ha : set_lastAccess now a ∈ held).
  { apply (values_elem _ (set_lastAccess now a) Hw Hf). unfold stored. rewrite mget_set. by rewrite decide_True. }
  destruct (lru_last held (set_lastAccess now a) Ha) as [l' El].
  { intros b Hb. apply (values_elem _ b Hw Hf) in Hb. unfold stored in Hb. rewrite mget_set in Hb. case_decide as E; [left; congruence|right].
    apply Hlast; [|congruence]. destruct Hst as [_ _ _ [Ha' Haf] _ _]. by apply (values_elem _ b Ha' Haf). }
  rewrite El in *. destruct (decide (n <= length l')%nat) as [Hle|Hgt].
  - rewrite drop_app_le by done. apply elem_of_app. right. by apply list_elem_of_singleton.
  - exfalso. specialize (Hlow (length l') ltac:(lia)). rewrite drop_app_length in Hlow. cbn [map] in Hlow. rewrite sumZ_cons, sumZ_nil in Hlow.
    change (size (set_lastAccess now a)) with (size a) in Hlow. lia.
Qed.

(** The artifact cache evicts least recently used artifacts, and no more than
    needed.  When the store accepts an artifact, order what it then holds by
    the time of last access: the artifacts that stay are those after the first
    [n], where [n] is the least number whose removal brings the total within
    the limit; an artifact that has just been accessed later than all others
    and fits in the cache is kept. *)
Theorem putArtifact_lru st a now st' : store_ok st → putArtifact limits st a now = Ok st' →
  let held := (mset a.(artifactId) (set_lastAccess now a) st.(artifactsById)).*2 in
  size a <= limits.(artifactMaxBytes) ∧
  (∃ n, (n <= length held)%nat ∧ st'.(artifactsById).*2 ≡ₚ drop n (lru held) ∧
    (sumZ (map size (drop n (lru held))) <= limits.(artifactCacheMaxBytes) ∨ n = length held) ∧
    (∀ k, (k < n)%nat → limits.(artifactCacheMaxBytes) < sumZ (map size (drop k (lru held))))) ∧
  ((∀ b, b ∈ st.(artifactsById).*2 → artifactId b ≠ artifactId a → a_lastAccessAtMs b < now) →
   size a <= limits.(artifactCacheMaxBytes) → mget a.(artifactId) st'.(artifactsById) = Some (set_lastAccess now a)).
Proof.
  intros Hst Hp held. destruct (putArtifact_evicted st a now st' Hst Hp) as (Hs & _).
  destruct (putArtifact_dropped st a now st' Hst Hp) as (_ & _ & _ & _ & Hn). split; [done|]. split; [exact Hn|]. by apply putArtifact_keeps.
Qed.

(** ** Seat intents *)

Definition intent_in (st : CoordinatorStore) (i : SeatIntent) : Prop :=
  ∃ byId, mget i.(si_tableId) st.(seatIntentsByTable) = Some byId ∧ mget i.(intentId) byId = Some i.

(** What pruning leaves of a table's intents. *)
Lemma prune_get st now t : mwf st.(seatIntentsByTable) →
  mget t (pruneExpiredSeatIntents st now).(seatIntentsByTable) =
  match mget t st.(seatIntentsByTable) with
  | Some byId => let l := mprune (λ i, i.(si_expiresAtMs) <=? now) byId in if (length l =? 0)%nat then None else Some l
  | None => None
  end.
Proof.
  intros Hw. cbn [pruneExpiredSeatIntents seatIntentsByTable set_intents]. cbv zeta. unfold mprune at 1.
  rewrite mget_filter by by apply mapv_wf. rewrite (mget_mapv (mprune (λ i, i.(si_expiresAtMs) <=? now))).
  destruct (mget t _) as [byId|]; [cbn [fmap option_fmap option_map snd]; by destruct (length _ =? 0)%nat|done].
Qed.

Lemma prune_intent st now i : store_ok st → intent_in (pruneExpiredSeatIntents st now) i ↔ intent_in st i ∧ now < i.(si_expiresAtMs).
Proof.
  intros [_ _ [Hw Hf] _ _ _]. unfold intent_in. rewrite prune_get by done.
  destruct (mget (si_tableId i) st.(seatIntentsByTable)) as [byId|] eqn:E; [|by split; [intros (? & ? & ?)|intros [(? & ? & ?) _]]].
  destruct (mget_Forall _ _ _ _ Hf E) as [Hw' _]. cbn in Hw'. cbv zeta.
  assert (Hget : mget (intentId i) (mprune (λ j, j.(si_expiresAtMs) <=? now) byId) = Some i ↔ mget (intentId i) byId = Some i ∧ now < i.(si_expiresAtMs)).
  { unfold mprune. rewrite mget_filter by done. destruct (mget (intentId i) byId) as [j|] eqn:G; [|by split; [|intros [? _]]].
    cbn [snd]. destruct (Z.leb_spec j.(si_expiresAtMs) now); cbn [negb]; split; try done; [by intros [[= ->] ?]; lia|intros [= ->]; by split|by intros [? _]]. }
  destruct (Nat.eqb_spec (length (mprune (λ j, j.(si_expiresAtMs) <=? now) byId)) 0) as [H0|H0].
  - apply nil_length_inv in H0. rewrite H0 in Hget. split; [by intros (? & ? & _)|]. intros [(b & [= <-] & G) Hlt].
    exfalso. pose proof (proj2 Hget (conj G Hlt)) as Hn. done.
  - split; [intros (b & [= <-] & G)|intros [(b & [= <-] & G) Hlt]; eexists; split; [done|by apply Hget]].
    apply Hget in G as [G Hlt]. split; [by exists byId|done].
Qed.

(** Asking for a table's seat intents gives exactly those that were put for
    it and have not expired, each once, in the order of the seats; and expired
    intents of all tables are forgotten. *)
Theorem listSeatIntents_live ops t now : 0 <= limits.(artifactCacheMaxBytes) →
  let st := run newStore ops in let l := (listSeatIntents st t now).1 in
  (∀ i, i ∈ l ↔ intent_in st i ∧ si_tableId i = t ∧ now < i.(si_expiresAtMs)) ∧ NoDup (map intentId l) ∧
  Sorted (λ i j, i.(si_seat) <= j.(si_seat)) l ∧
  ∀ i, intent_in (listSeatIntents st t now).2 i ↔ intent_in st i ∧ now < i.(si_expiresAtMs).
Proof.
  intros Hpos st l. assert (Hst : store_ok st) by exact (ops_ok newStore ops Hpos (newStore_ok Hpos)).
  pose proof (prune_ok st now Hst) as Hst'. rewrite listIntents_eq. subst l. unfold listSeatIntents.
  assert (Hin : ∀ i, intent_in (pruneExpiredSeatIntents st now) i ∧ si_tableId i = t ↔ intent_in st i ∧ si_tableId i = t ∧ now < i.(si_expiresAtMs)).
  { intros i. rewrite prune_intent by done. tauto. }
  split; [|split; [|split; [|intros i; by apply prune_intent]]]; [intros i; rewrite <-Hin| |];
    (destruct (mget t (pruneExpiredSeatIntents st now).(seatIntentsByTable)) as [byId|] eqn:E; cbn [fst]; [|first [by constructor|idtac]]).
  - rewrite (sort_by_perm _ _). destruct Hst' as [_ _ [_ Hf] _ _ _]. destruct (mget_Forall _ _ _ _ Hf E) as [Hw Hids]. cbn in Hw, Hids. split.
    + intros ([k j] & -> & Hin')%list_elem_of_fmap. cbn. destruct (proj1 (Forall_forall _ _) Hids _ Hin') as [Ht Hk]. cbn in Ht, Hk.
      split; [|done]. exists byId. rewrite Ht. split; [done|]. rewrite Hk. by apply mget_elem.
    + intros [(byId' & E' & G) Ht]. rewrite Ht, E in E'. injection E' as <-. apply mget_elem in G; [|done]. apply list_elem_of_fmap. by exists (i.(intentId), i).
  - split; [by intros ?%elem_of_nil|]. intros [(byId & E' & _) Ht]. congruence.
  - destruct Hst' as [_ _ [_ Hf] _ _ _]. destruct (mget_Forall _ _ _ _ Hf E) as [Hw Hids]. cbn in Hw, Hids.
    rewrite (sort_by_perm _ _). replace (map intentId byId.*2) with byId.*1; [exact Hw|]. clear -Hids.
    induction Hids as [|kv m [_ Hk] Hm IH]; [done|]. cbn. rewrite Hk. f_equal. exact IH.
  - by apply sort_by_Z_sorted.
Qed.

(** ** Chat *)

Definition lastN {A} (n : nat) (l : list A) : list A := drop (length l - n) l.

(** The messages of [ops] for the table [t], once it is known. *)
Fixpoint chats (t : string) (known : bool) (ops : list StoreOp) : list ChatMessage :=
  match ops with
  | [] => []
  | OpChat t' msg :: ops => if bool_decide (t' = t) && known then msg :: chats t known ops else chats t known ops
  | OpUpsert info :: ops => chats t (known || bool_decide (info.(t_tableId) = t)) ops
  | _ :: ops => chats t known ops
  end.

Lemma pushRing_lastN ring msg : (length ring <= CHAT_RING_SIZE)%nat → pushRing ring msg = lastN CHAT_RING_SIZE (ring ++ [msg]).
Proof.
  intros Hl. unfold pushRing, lastN. destruct (Nat.ltb_spec CHAT_RING_SIZE (length (ring ++ [msg]))) as [|Hle]; [done|].
  by replace (length (ring ++ [msg]) - CHAT_RING_SIZE)%nat with 0%nat by lia.
Qed.

Lemma lastN_all {A} n (l : list A) : (length l <= n)%nat → lastN n l = l.
Proof. intros Hl. unfold lastN. by replace (length l - n)%nat with 0%nat by lia. Qed.

Lemma lastN_lastN {A} n (l k : list A) : lastN n (lastN n l ++ k) = lastN n (l ++ k).
Proof.
  destruct (decide (length l <= n)%nat) as [Hle|Hgt]; [by rewrite (lastN_all n l)|].
  assert (Hl : length (lastN n l) = n) by (unfold lastN; rewrite length_drop; lia).
  unfold lastN at 1. rewrite length_app, Hl. replace (n + length k - n)%nat with (length k) by lia.
  unfold lastN. rewrite <-drop_app_le, drop_drop, length_app by lia. f_equal. lia.
Qed.

Lemma evictLoop_frame l st : tablesById (evictLoop limits l st) = st.(tablesById) ∧ chatByTable (evictLoop limits l st) = st.(chatByTable).
Proof.
  revert st. induction l as [|a l IH]; intros st; cbn [evictLoop]; [done|]. destruct (_ <=? _); [done|].
  apply (IH (set_artifacts (mdel a.(artifactId) st.(artifactsById)) (st.(artifactsTotalBytes) - size a) st)).
Qed.

Lemma put_frame st a now st' : putArtifact limits st a now = Ok st' → st'.(tablesById) = st.(tablesById) ∧ st'.(chatByTable) = st.(chatByTable).
Proof.
  unfold putArtifact. intros (? & _ & E)%rbind_ok. apply Ok_inj in E as <-. unfold evictArtifactsIfNeeded.
  destruct (_ <=? _); [done|]. match goal with |- context [evictLoop limits ?l ?s] => destruct (evictLoop_frame l s) as [-> ->] end. done.
Qed.

Lemma runOp_chat st op t : store_ok st →
  getChatHistory (runOp st op) t = lastN CHAT_RING_SIZE (getChatHistory st t ++ chats t (mhas t st.(tablesById)) [op]) ∧
  mhas t (runOp st op).(tablesById) = mhas t st.(tablesById) || match op with OpUpsert info => bool_decide (info.(t_tableId) = t) | _ => false end.
Proof.
  intros [_ [_ Hc] _ _ _ _]. assert (Hlen : (length (getChatHistory st t) <= CHAT_RING_SIZE)%nat).
  { unfold getChatHistory. destruct (mget t st.(chatByTable)) as [l|] eqn:E; [|cbn; lia]. exact (proj1 (mget_Forall _ _ _ _ Hc E)). }
  destruct op; cbn [chats runOp]; rewrite ?app_nil_r, ?orb_false_r, ?(lastN_all _ (getChatHistory st t)) by done; try done.
  - unfold addChatMessage. destruct (mhas tableId st.(tablesById)) eqn:Hk; cbn [negb].
    + split; [|done]. unfold getChatHistory at 1. cbn [chatByTable set_chat]. rewrite mget_set. case_decide as E.
      * subst tableId. rewrite bool_decide_true, Hk by done. cbn [andb default]. by apply pushRing_lastN.
      * rewrite bool_decide_false by done. cbn [andb]. by rewrite app_nil_r, lastN_all.
    + split; [|done]. case_bool_decide as E; [subst; rewrite Hk|]; cbn [andb]; by rewrite app_nil_r, lastN_all.
  - split; [done|]. cbn. unfold mhas. rewrite mget_set. case_decide as E; [by rewrite bool_decide_true, orb_true_r|by rewrite bool_decide_false, orb_false_r].
  - by rewrite listIntents_eq.
  - destruct (putArtifact limits st artifact nowMs) as [st'|] eqn:E; [|done]. destruct (put_frame _ _ _ _ E) as [Ht Hch]. unfold getChatHistory. by rewrite Ht, Hch.
  - unfold getArtifact. by destruct (mget id _).
Qed.

(** The chat of a table is the last fifty of the messages sent to it since it
    became known. *)
Lemma chat_history ops t : 0 <= limits.(artifactCacheMaxBytes) →
  getChatHistory (run newStore ops) t = lastN CHAT_RING_SIZE (chats t false ops).
Proof.
  intros Hpos. change (chats t false ops) with (getChatHistory newStore t ++ chats t (mhas t newStore.(tablesById)) ops).
  generalize (newStore_ok Hpos). generalize newStore. induction ops as [|op ops IH]; intros st Hst; cbn [run foldl].
  - cbn [chats]. rewrite app_nil_r. symmetry. apply lastN_all. destruct Hst as [_ [_ Hc] _ _ _ _]. unfold getChatHistory.
    destruct (mget t st.(chatByTable)) as [l|] eqn:E; [|cbn; lia]. exact (proj1 (mget_Forall _ _ _ _ Hc E)).
  - change (foldl runOp (runOp st op) ops) with (run (runOp st op) ops). rewrite IH by by apply runOp_ok.
    destruct (runOp_chat st op t Hst) as [-> ->]. rewrite lastN_lastN, <-(app_assoc (getChatHistory st t)). do 2 f_equal.
    destruct op; cbn [chats]; rewrite ?orb_false_r; try done. by destruct (bool_decide _ && _).
Qed.
End thms.

(** ** Nicknames *)

Definition nickRun (r : NicknameRegistry) (ops : list (string * string)) : NicknameRegistry := foldl (λ r op, (nickSet r op.1 op.2).2) r ops.

(** No nickname belongs to two addresses, whatever its case. *)
Definition nicks_unique (m : list (string * string)) : Prop :=
  ∀ a b n n', mget a m = Some n → mget b m = Some n' → lower n = lower n' → a = b.

Lemma nickTaken_spec m a n : mwf m → nickTaken m a n = true ↔ ∃ b n', b ≠ a ∧ mget b m = Some n' ∧ lower n' = lower n.
Proof.
  intros Hm. unfold nickTaken. rewrite existsb_exists. split.
  - intros ([b n'] & Hin & Hb). cbn [fst snd] in Hb. b2p. exists b, n'. split; [by eapply bool_decide_eq_false_1|]. split; [|by eapply bool_decide_eq_true_1].
    apply mget_elem; [done|]. by apply list_elem_of_In.
  - intros (b & n' & Hne & Hg & Hl). exists (b, n'). split; [by apply list_elem_of_In, mget_elem|]. cbn. by rewrite bool_decide_false, bool_decide_true.
Qed.

(** What a call of [set] does, on every branch. *)
Record nick_set (r : NicknameRegistry) (a n : string) (res : SetResult) (r' : NicknameRegistry) : Prop := {
  ns_taken : res = taken ↔ ∃ b n', b ≠ a ∧ mget b r.(nickMap) = Some n' ∧ lower n' = lower n;
  ns_same : res = taken → r' = r;
  ns_get : res = ok → mget a r'.(nickMap) = Some n;
  ns_others : res = ok → ∀ b, b ≠ a → mget b r'.(nickMap) = mget b r.(nickMap) ∨
    (mget b r'.(nickMap) = None ∧ mget a r.(nickMap) = None ∧ (r.(maxEntries) <= length r.(nickMap))%nat ∧ head r.(nickMap).*1 = Some b);
  ns_wf : mwf r.(nickMap) → mwf r'.(nickMap);
  ns_max : r'.(maxEntries) = r.(maxEntries);
  ns_size : (1 <= r.(maxEntries))%nat → (length r.(nickMap) <= r.(maxEntries))%nat → (length r'.(nickMap) <= r.(maxEntries))%nat
}.

Lemma mdel_head {V} k v (m : list (string * V)) : mwf ((k, v) :: m) → mdel k ((k, v) :: m) = m.
Proof.
  unfold mwf, mdel. intros [Hk _]%NoDup_cons. cbn [List.filter fst]. rewrite bool_decide_true by done. cbn [negb].
  cbn [fst] in Hk. clear v. induction m as [|[k' v'] m IH]; [done|]. apply not_elem_of_cons in Hk as [Hne Hk]. cbn in Hne.
  cbn [List.filter fst]. rewrite bool_decide_false by congruence. cbn [negb]. f_equal. by apply IH.
Qed.

Lemma nickSet_spec r a n : mwf r.(nickMap) → nick_set r a n (nickSet r a n).1 (nickSet r a n).2.
Proof.
  intros Hm. pose proof (nickTaken_spec r.(nickMap) a n Hm) as Ht. unfold nickSet. destruct (nickTaken _ a n).
  - constructor; cbn; try done. split; [intros _; by apply Ht|done].
  - cbn [fst snd]. set (full := negb (mhas a r.(nickMap)) && (r.(maxEntries) <=? length r.(nickMap))%nat).
    set (m := if full then _ else _).
    assert (Hm' : mwf m) by (unfold m; destruct full; [destruct (nickMap r) as [|[o ?] ?]; [done|by apply mfilter_wf]|done]).
    assert (Ha : full = true → mget a r.(nickMap) = None ∧ (r.(maxEntries) <= length r.(nickMap))%nat).
    { unfold full. intros Hf. b2p. split; [|done]. unfold mhas in *. by destruct (mget a _). }
    constructor; cbn [nickMap maxEntries]; try done.
    + split; [done|]. intros Hex%Ht. done.
    + intros _. rewrite mget_set. by rewrite decide_True.
    + intros _ b Hb. rewrite mget_set, decide_False by done. subst m. destruct full eqn:E; [|by left]. destruct (Ha eq_refl) as [Hn Hl].
      destruct (nickMap r) as [|[o v] l] eqn:Em; [by left|]. rewrite mget_del by done. case_decide as Eo; [right|by left]. subst. done.
    + intros _. by apply mset_wf.
    + intros Hpos Hl. rewrite mset_length. destruct (mhas a m) eqn:Eh.
      * subst m. destruct full; [|done]. destruct (nickMap r) as [|[o v] l]; [done|]. rewrite mdel_head by done. cbn in Hl. lia.
      * subst m. destruct full eqn:E.
        -- destruct (nickMap r) as [|[o v] l]; [cbn; lia|]. rewrite mdel_head by done. cbn in Hl. lia.
        -- unfold full in E. apply andb_false_iff in E as [E|E]; b2p; [|lia]. by rewrite E in Eh.
Qed.

(** The nickname registry.  After any sequence of registrations no two
    addresses have nicknames that are equal up to case, no address occurs
    twice, and there are at most as many entries as allowed (one, when less is
    asked for); and the next registration is refused exactly when another
    address has the nickname, otherwise it takes effect and changes no other
    entry, except that a new address evicts the oldest one from a full
    registry. *)
Theorem nicknames_unique max ops a n :
  let r := nickRun (newNicks max) ops in
  nicks_unique r.(nickMap) ∧ mwf r.(nickMap) ∧ (length r.(nickMap) <= Nat.max 1 max)%nat ∧
  nick_set r a n (nickSet r a n).1 (nickSet r a n).2.
Proof.
  intros r. assert (H : nicks_unique r.(nickMap) ∧ mwf r.(nickMap) ∧ (length r.(nickMap) <= Nat.max 1 max)%nat ∧ r.(maxEntries) = Nat.max 1 max).
  { unfold r, nickRun. induction ops as [|[b m] ops IH] using rev_ind; [cbn; split; [done|split; [apply NoDup_nil_2|split; [lia|done]]]|].
    rewrite foldl_app. cbn [foldl fst snd]. set (r0 := foldl _ _ ops) in *. destruct IH as (Hu & Hw & Hl & Hmax).
    destruct (nickSet_spec r0 b m Hw) as [Ht Hsame Hget Hoth Hwf Hmax' Hsize]. destruct (nickSet r0 b m).1 eqn:E; [|by rewrite Hsame].
    split; [|split; [by apply Hwf|split; [rewrite <-Hmax; apply Hsize; [rewrite Hmax; lia|by rewrite Hmax]|by rewrite Hmax']]].
    assert (Hold : ∀ c k, c ≠ b → mget c (nickSet r0 b m).2.(nickMap) = Some k → mget c r0.(nickMap) = Some k).
    { intros c k Hne Hk. destruct (Hoth eq_refl c Hne) as [<-|(Hn & _)]; [done|congruence]. }
    assert (Hfresh : ∀ c k, c ≠ b → mget c r0.(nickMap) = Some k → lower k ≠ lower m).
    { intros c k Hne Hk Heq. enough (@eq SetResult ok taken) by done. apply Ht. by exists c, k. }
    intros c d k k' Hc Hd Heq. destruct (decide (c = b)) as [->|Hcb], (decide (d = b)) as [->|Hdb]; try done.
    - rewrite (Hget eq_refl) in Hc. injection Hc as <-. exfalso. by apply (Hfresh d k' Hdb (Hold _ _ Hdb Hd)).
    - rewrite (Hget eq_refl) in Hd. injection Hd as <-. exfalso. by apply (Hfresh c k Hcb (Hold _ _ Hcb Hc)).
    - exact (Hu c d k k' (Hold _ _ Hcb Hc) (Hold _ _ Hdb Hd) Heq). }
  destruct H as (? & ? & ? & _). split; [done|]. split; [done|]. split; [done|]. by apply nickSet_spec.
Qed.

(** ** The theorems at concrete inputs *)

Definition toy_limits : Limits := mkLimits 8 10.
Definition toy_artifact (id : string) (n : nat) : ArtifactRecord := mkArtifact id k_other "x" (replicate n 0) JNull 0 0.
Definition toy_intent (id : string) (seat exp : Z) : SeatIntent := mkSeatIntent id "t" seat "p" None None None 0 exp.
Definition toy_ops : list StoreOp :=
  [OpPut (toy_artifact "a" 4) 1; OpPut (toy_artifact "b" 5) 2; OpGet "a" 3; OpIntent (toy_intent "i" 5 100); OpIntent (toy_intent "j" 2 9)].

Lemma store_bounded_witness : artifactsTotalBytes (run toy_limits newStore (toy_ops ++ [OpPut (toy_artifact "c" 6) 4])) = 10 ∧ (10 <= 10).
Proof.
  destruct (store_bounded toy_limits (toy_ops ++ [OpPut (toy_artifact "c" 6) 4]) ltac:(done)) as (_ & _ & _ & _ & _ & _ & Hb).
  split; [reflexivity|]. exact Hb.
Defined.

Lemma toy_store_ok : store_ok toy_limits (run toy_limits newStore toy_ops).
Proof. apply ops_ok; [done|]. by apply newStore_ok. Qed.

(** The cache holds "a", used last, and "b"; "c" needs the room of "b". *)
Lemma putArtifact_lru_witness : ∃ st', putArtifact toy_limits (run toy_limits newStore toy_ops) (toy_artifact "c" 6) 4 = Ok st' ∧
  map fst st'.(artifactsById) = ["a"; "c"]%string ∧ mget "c" st'.(artifactsById) = Some (set_lastAccess 4 (toy_artifact "c" 6)).
Proof.
  destruct (putArtifact toy_limits (run toy_limits newStore toy_ops) (toy_artifact "c" 6) 4) as [st'|] eqn:E; [|vm_compute in E; discriminate E].
  exists st'. split; [reflexivity|]. split; [vm_compute in E; injection E as <-; reflexivity|].
  destruct (putArtifact_lru toy_limits _ _ _ st' toy_store_ok E) as (_ & _ & Hkeep). apply Hkeep; [|done].
  intros b Hb _. vm_compute in Hb. apply elem_of_cons in Hb as [->|Hb]; [done|]. apply list_elem_of_singleton in Hb as ->. done.
Defined.

Lemma listSeatIntents_live_witness :
  let '(l, st') := listSeatIntents (run toy_limits newStore toy_ops) "t" 50 in
  l = [toy_intent "i" 5 100] ∧ ¬ intent_in st' (toy_intent "j" 2 9).
Proof.
  pose proof (listSeatIntents_live toy_limits toy_ops "t" 50 ltac:(done)) as (_ & _ & _ & Hleft).
  specialize (Hleft (toy_intent "j" 2 9)). split; [reflexivity|]. intros Hin%Hleft. destruct Hin as [_ Hlt]. done.
Defined.
End CoordStoreThms.
