(* ===== verification/CoordFaucet.v ===== *)
(** * The faucet: [apps/coordinator/src/faucet.ts]

    Bech32 addresses and the service that sends each address, and each client,
    test chips at most once per cooldown.  A request is a computation with one
    [await], the transaction, during which other requests run: [dripBegin] is
    what happens before it, [dripEnd] what happens with its outcome. *)
From stdpp Require Import base option list strings sorting.
From Stdlib Require Import ZArith Lia Ascii.
From S2P Require Import Prelude OcpBytes Json JsMap CoordStoreThms.
Import Bytes Json JsMap.

Module CoordFaucet.

(** ** Bech32 *)

Definition code (c : ascii) : Z := Z.of_nat (nat_of_ascii c).
Definition BECH32_CHARSET : list ascii := String.list_ascii_of_string "qpzry9x8gf2tvdw0s3jn54khce6mua7l".
Definition GEN : list Z := [996825010; 642813549; 513874426; 1027748829; 705979059].

(** One value absorbed; the numbers stay below 2^30. *)
Definition polyStep (chk v : Z) : Z :=
  let b := Z.shiftr chk 25 in
  foldl (λ chk i, if negb (Z.land (Z.shiftr b (Z.of_nat i)) 1 =? 0) then Z.lxor chk (rd 0 GEN i) else chk)
    (Z.lxor (Z.shiftl (Z.land chk 33554431) 5) v) (seq 0 5).

Definition bech32Polymod (values : list Z) : Z := foldl polyStep 1 values.

Definition bech32HrpExpand (hrp : list ascii) : list Z :=
  map (λ c, Z.shiftr (code c) 5) hrp ++ [0] ++ map (λ c, Z.land (code c) 31) hrp.

(** [s.lastIndexOf("1")] *)
Fixpoint lastIndexOf1 (l : list ascii) : option nat :=
  match l with
  | [] => None
  | c :: l => match lastIndexOf1 l with
              | Some i => Some (S i)
              | None => if bool_decide (c = "1"%char) then Some 0%nat else None
              end
  end.

(** [BECH32_CHARSET.indexOf(c)] *)
Fixpoint indexOf (c : ascii) (l : list ascii) (i : Z) : option Z :=
  match l with
  | [] => None
  | x :: l => if bool_decide (x = c) then Some i else indexOf c l (i + 1)
  end.
Definition charIndex (c : ascii) : option Z := indexOf c BECH32_CHARSET 0.

Definition isLower (c : ascii) : bool := (97 <=? code c) && (code c <=? 122).
Definition isUpper (c : ascii) : bool := (65 <=? code c) && (code c <=? 90).
Definition printable (c : ascii) : bool := (33 <=? code c) && (code c <=? 126).

Definition decodeBech32Prefix (address : list ascii) : option (list ascii) :=
  if (length address <? 8)%nat || (90 <? length address)%nat then None
  else if negb (forallb printable address) then None
  else if existsb isLower address && existsb isUpper address then None
  else
    let addr := map lowerChar address in
    match lastIndexOf1 addr with
    | None => None
    | Some sep =>
        if (sep <? 1)%nat || (length addr <? sep + 7)%nat then None
        else
          let hrp := take sep addr in
          match mapM charIndex (drop (S sep) addr) with
          | None => None
          | Some data => if negb (bech32Polymod (bech32HrpExpand hrp ++ data) =? 1) then None else Some hrp
          end
    end.

(** ** Cooldowns *)

(** The entries that expire soonest are dropped until [maxEntries] are left. *)
Definition evictSoonestToExpire (m : list (string * Z)) (maxEntries : nat) : list (string * Z) :=
  if (length m <=? maxEntries)%nat then m
  else
    let excess := (length m - maxEntries)%nat in
    let soonestToExpire := take excess (sort_by (λ a b, a.2 <=? b.2) m) in
    foldl (λ m kv, mdel kv.1 m) m soonestToExpire.

Record FaucetConfig := mkFaucetConfig {
  f_enabled : bool; f_mnemonic : option string; f_amount : string; f_denom : string; cooldownMs : Z; ipCooldownMs : Z;
  f_bech32Prefix : string; f_gasPrice : string; f_rpcUrl : string; f_lcdUrl : string
}.

(** [signing] is the address of the connected wallet. *)
Record FaucetService := mkFaucet {
  addressCooldowns : list (string * Z); ipCooldowns : list (string * Z); signing : option string; busy : bool; pruneTimer : bool
}.
Definition set_address v f := mkFaucet v f.(ipCooldowns) f.(signing) f.(busy) f.(pruneTimer).
Definition set_ip v f := mkFaucet f.(addressCooldowns) v f.(signing) f.(busy) f.(pruneTimer).
Definition set_signing v f := mkFaucet f.(addressCooldowns) f.(ipCooldowns) v f.(busy) f.(pruneTimer).
Definition set_busy v f := mkFaucet f.(addressCooldowns) f.(ipCooldowns) f.(signing) v f.(pruneTimer).
Definition set_timer v f := mkFaucet f.(addressCooldowns) f.(ipCooldowns) f.(signing) f.(busy) v.

Record FaucetError := mkFaucetError { fe_message : string; fe_status : option Z; fe_retryAfter : option Z }.
Record FaucetDripResult := mkDrip { d_txHash : string; d_amount : string; d_denom : string }.
Record FaucetStatus := mkStatus { s_enabled : bool; s_address : string; s_amount : string; s_denom : string; s_cooldownSecs : Z }.

(** [Math.ceil(n / 1000)] *)
Definition ceilSecs (n : Z) : Z := - (- n / 1000).

Definition newFaucet : FaucetService := mkFaucet [] [] None false true.

Section faucet.
Context (config : FaucetConfig).

(** [connected] is the address of the wallet, or what connecting throws. *)
Definition init (connected : result string string) (f : FaucetService) : result string FaucetService :=
  let! _ := throw_if (match config.(f_mnemonic) with Some m => bool_decide (m = EmptyString) | None => true end) "faucet mnemonic not configured"%string in
  rmap (λ a, set_signing (Some a) f) connected.

Definition getStatus (f : FaucetService) : FaucetStatus :=
  mkStatus config.(f_enabled) (default EmptyString f.(signing)) config.(f_amount) config.(f_denom) (ceilSecs config.(cooldownMs)).

(** [expiry && now < expiry] *)
Definition cooling (expiry : option Z) (now : Z) : option Z :=
  match expiry with Some e => if negb (e =? 0) && (now <? e) then Some e else None | None => None end.

Definition limited (what : string) (e now : Z) : FaucetError :=
  let waitSecs := ceilSecs (e - now) in mkFaucetError what (Some 429) (Some waitSecs).

(** A request up to its transaction: refused, or the faucet is busy with it. *)
Definition dripBegin (f : FaucetService) (address clientIp : string) (now : Z) : result FaucetError unit * FaucetService :=
  match f.(signing) with
  | None => (Err (mkFaucetError "faucet not initialized" None None), f)
  | Some _ =>
      let spamIpCooldownMs := Z.min config.(ipCooldownMs) 60000 in
      match cooling (mget clientIp f.(ipCooldowns)) now with
      | Some e => (Err (limited "IP rate limited" e now), f)
      | None =>
          let f := set_ip (mset clientIp (now + spamIpCooldownMs) f.(ipCooldowns)) f in
          if negb (bool_decide (decodeBech32Prefix (String.list_ascii_of_string address) = Some (String.list_ascii_of_string config.(f_bech32Prefix))))
          then (Err (mkFaucetError "invalid address" (Some 400) None), f)
          else
            match cooling (mget address f.(addressCooldowns)) now with
            | Some e => (Err (limited "address rate limited" e now), f)
            | None =>
                if f.(busy) then (Err (mkFaucetError "faucet is busy" (Some 429) (Some 5)), f)
                else (Ok tt, set_busy true f)
            end
      end
  end.

(** What [signAndBroadcastAuto] does. *)
Inductive TxOutcome := TxThrows (msg : string) | TxResult (code : Z) (hash : string).

(** The rest of the request that began at [now]. *)
Definition dripEnd (f : FaucetService) (address clientIp : string) (now : Z) (out : TxOutcome) : result FaucetError FaucetDripResult * FaucetService :=
  match out with
  | TxThrows msg => (Err (mkFaucetError msg None None), set_busy false f)
  | TxResult code hash =>
      if negb (code =? 0) then (Err (mkFaucetError "tx failed" None None), set_busy false f)
      else
        let f := set_address (mset address (now + config.(cooldownMs)) f.(addressCooldowns)) f in
        let f := set_ip (mset clientIp (now + config.(ipCooldownMs)) f.(ipCooldowns)) f in
        (Ok (mkDrip hash config.(f_amount) config.(f_denom)), set_busy false f)
  end.

Definition MAX_COOLDOWN_ENTRIES : nat := Z.to_nat 10000.

Definition pruneCooldowns (f : FaucetService) (now : Z) : FaucetService :=
  let expired v := v <=? now in
  let f := set_address (mprune expired f.(addressCooldowns)) f in
  let f := set_ip (mprune expired f.(ipCooldowns)) f in
  let f := set_address (evictSoonestToExpire f.(addressCooldowns) MAX_COOLDOWN_ENTRIES) f in
  set_ip (evictSoonestToExpire f.(ipCooldowns) MAX_COOLDOWN_ENTRIES) f.

Definition stop (f : FaucetService) : FaucetService := set_timer false f.
End faucet.

(** BIP-173's example, and one with a wrong character. *)
Example bech32_valid : decodeBech32Prefix (String.list_ascii_of_string "A12UEL5L") = Some ["a"%char].
Proof. vm_compute. reflexivity. Qed.
Example bech32_invalid : decodeBech32Prefix (String.list_ascii_of_string "A12UEL5Q") = None.
Proof. vm_compute. reflexivity. Qed.

End CoordFaucet.

(** ** The Bech32 checksum detects two wrong characters

    The checksum is linear over the field of two elements: the difference of
    the checksums of two strings is that of their difference, started from
    zero.  A step without a difference is injective, and a single difference
    carried over up to 90 steps is never cancelled by a second one, which is
    checked by computation. *)
Import Bytes Json CoordFaucet.

Module CoordBech32Thms.

(** ** The step as a sum *)

Definition sel (b : Z) (i : nat) : Z := if Z.testbit b (Z.of_nat i) then rd 0 GEN i else 0.

Lemma polyStep_sum chk v :
  let b := Z.shiftr chk 25 in
  polyStep chk v = Z.lxor (Z.lxor (Z.lxor (Z.lxor (Z.lxor (Z.lxor (Z.shiftl (Z.land chk 33554431) 5) v) (sel b 0)) (sel b 1)) (sel b 2)) (sel b 3)) (sel b 4).
Proof.
  intros b. unfold polyStep. fold b. cbn [seq foldl].
  assert (H : ∀ x i, (if negb (Z.land (Z.shiftr b (Z.of_nat i)) 1 =? 0) then Z.lxor x (rd 0 GEN i) else x) = Z.lxor x (sel b i)).
  { intros x i. unfold sel. change 1 with (Z.ones 1). rewrite Z.land_ones by lia. change (2 ^ 1) with 2. rewrite Zmod_odd, <-Z.bit0_odd, Z.shiftr_spec, Z.add_0_l by lia.
    destruct (Z.testbit b (Z.of_nat i)); cbn [Z.eqb negb]; [done|by rewrite Z.lxor_0_r]. }
  by rewrite !H.
Qed.

Lemma sel_lxor b b' i : sel (Z.lxor b b') i = Z.lxor (sel b i) (sel b' i).
Proof.
  unfold sel. rewrite Z.lxor_spec. destruct (Z.testbit b _), (Z.testbit b' _); cbn [xorb]; by rewrite ?Z.lxor_nilpotent, ?Z.lxor_0_l, ?Z.lxor_0_r.
Qed.

Lemma lxor_swap a b c d : Z.lxor (Z.lxor a b) (Z.lxor c d) = Z.lxor (Z.lxor a c) (Z.lxor b d).
Proof. rewrite !Z.lxor_assoc. f_equal. rewrite <-!Z.lxor_assoc. f_equal. apply Z.lxor_comm. Qed.

(** The difference of two steps is a step of the difference. *)
Lemma polyStep_lxor x y v w : Z.lxor (polyStep x v) (polyStep y w) = polyStep (Z.lxor x y) (Z.lxor v w).
Proof.
  rewrite !polyStep_sum. cbv zeta. rewrite Z.shiftr_lxor, !sel_lxor.
  rewrite (lxor_swap _ (sel _ 4)), (lxor_swap _ (sel _ 3)), (lxor_swap _ (sel _ 2)), (lxor_swap _ (sel _ 1)), (lxor_swap _ (sel _ 0)), (lxor_swap _ v).
  do 6 f_equal. rewrite <-Z.shiftl_lxor. f_equal. apply Z.bits_inj'. intros n Hn. rewrite !Z.lxor_spec, !Z.land_spec, Z.lxor_spec. by destruct (Z.testbit x n), (Z.testbit y n), (Z.testbit 33554431 n).
Qed.

Lemma lxor_zero x y : Z.lxor x y = 0 ↔ x = y.
Proof. apply Z.lxor_eq_0_iff. Qed.

(** ** The step of a difference *)

Definition T (x : Z) : Z := polyStep x 0.

Lemma T_polyStep x v : polyStep x v = Z.lxor (T x) v.
Proof.
  unfold T. rewrite <-(Z.lxor_0_r x) at 1. rewrite <-(Z.lxor_0_l v) at 1. by rewrite <-polyStep_lxor.
Qed.

Lemma bounded_lxor n a b : 0 <= n → 0 <= a < 2 ^ n → 0 <= b < 2 ^ n → 0 <= Z.lxor a b < 2 ^ n.
Proof.
  intros Hn Ha Hb. split; [apply Z.lxor_nonneg; lia|]. destruct (decide (Z.lxor a b = 0)) as [->|Hne]; [lia|].
  apply Z.log2_lt_pow2; [pose proof (proj2 (Z.lxor_nonneg a b)); lia|]. pose proof (Z.log2_lxor a b ltac:(lia) ltac:(lia)).
  assert (∀ c, 0 <= c < 2 ^ n → Z.log2 c < n ∨ c = 0) as Hl by (intros c Hc; destruct (decide (c = 0)); [by right|left; apply Z.log2_lt_pow2; lia]).
  destruct (Hl a Ha) as [?| ->], (Hl b Hb) as [?| ->]; try lia.
  - change (Z.log2 0) with 0 in *. pose proof (Z.log2_nonneg a). lia.
  - change (Z.log2 0) with 0 in *. pose proof (Z.log2_nonneg b). lia.
  - done.
Qed.

Definition word (x : Z) : Prop := 0 <= x < 2 ^ 30.

Lemma sel_word b i : word (sel b i).
Proof. unfold sel, word. destruct (Z.testbit b _); [|done]. do 5 (destruct i as [|i]; [done|]). done. Qed.

Lemma T_word x : word (T x).
Proof.
  unfold T. rewrite polyStep_sum. cbv zeta. rewrite Z.lxor_0_r. unfold word. repeat (apply bounded_lxor; [done| |apply sel_word]).
  change 33554431 with (Z.ones 25). rewrite Z.land_ones, Z.shiftl_mul_pow2 by lia. pose proof (Z.mod_pos_bound x (2 ^ 25) ltac:(done)). change (2 ^ 30) with (2 ^ 25 * 2 ^ 5). lia.
Qed.

(** The low five bits of a step are those of the generators chosen by the high
    bits, and the choices are independent. *)
Lemma T_low x : T x mod 32 = Z.lxor (Z.lxor (Z.lxor (Z.lxor (sel (Z.shiftr x 25) 0) (sel (Z.shiftr x 25) 1)) (sel (Z.shiftr x 25) 2)) (sel (Z.shiftr x 25) 3)) (sel (Z.shiftr x 25) 4) mod 32.
Proof.
  unfold T. rewrite polyStep_sum. cbv zeta. rewrite Z.lxor_0_r. change 32 with (2 ^ 5). rewrite <-!Z.land_ones by lia.
  apply Z.bits_inj'. intros n Hn. rewrite !Z.land_spec, !Z.lxor_spec, Z.shiftl_spec by done. destruct (decide (n < 5)).
  - rewrite (Z.testbit_neg_r _ (n - 5)) by lia. by rewrite xorb_false_l.
  - rewrite Z.ones_spec_high by lia. by rewrite !andb_false_r.
Qed.

Definition highs_independent : bool :=
  forallb (λ b, (b =? 0) || negb (Z.lxor (Z.lxor (Z.lxor (Z.lxor (sel b 0) (sel b 1)) (sel b 2)) (sel b 3)) (sel b 4) mod 32 =? 0)) (map Z.of_nat (seq 0 32)).

Lemma T_injective x : word x → T x = 0 → x = 0.
Proof.
  intros Hx HT. assert (Hb : 0 <= Z.shiftr x 25 < 32).
  { rewrite Z.shiftr_div_pow2 by lia. unfold word in Hx. split; [apply Z.div_pos; lia|]. apply Z.div_lt_upper_bound; [lia|]. change (2 ^ 25 * 32) with (2 ^ 30). lia. }
  assert (H0 : Z.shiftr x 25 = 0).
  { assert (Hc : highs_independent = true) by (vm_compute; reflexivity). unfold highs_independent in Hc. rewrite forallb_forall in Hc.
    assert (Hin : In (Z.shiftr x 25) (map Z.of_nat (seq 0 32))).
    { apply in_map_iff. exists (Z.to_nat (Z.shiftr x 25)). split; [lia|]. apply in_seq. lia. }
    specialize (Hc _ Hin). rewrite <-T_low, HT in Hc. rewrite orb_false_r in Hc. by apply Z.eqb_eq. }
  unfold T in HT. rewrite polyStep_sum in HT. cbv zeta in HT. rewrite H0 in HT. unfold sel in HT. rewrite !Z.bits_0, !Z.lxor_0_r in HT.
  apply Z.shiftl_eq_0_iff in HT; [|lia]. change 33554431 with (Z.ones 25) in HT. rewrite Z.land_ones in HT by lia.
  rewrite Z.shiftr_div_pow2 in H0 by lia. rewrite (Z.div_mod x (2 ^ 25)) by done. rewrite H0, HT. done.
Qed.

(** ** Differences carried over *)

(** A single wrong value [e], seen [k] steps later. *)
Fixpoint carried (k : nat) (e : Z) : Z := match k with O => e | S k => T (carried k e) end.

Fixpoint stays_high (k : nat) (x : Z) : bool := match k with O => true | S k => (32 <=? T x) && stays_high k (T x) end.
Definition no_cancel : bool := forallb (λ e, stays_high 90 e) (map Z.of_nat (seq 1 31)).

Lemma stays_high_carried n k x j : (k < n)%nat → stays_high n (carried j x) = true → 32 <= carried (S k + j) x.
Proof.
  revert k j. induction n as [|n IH]; intros k j Hk H; [lia|]. cbn [stays_high] in H. b2p. destruct k as [|k]; [done|].
  change (T (carried j x)) with (carried (S j) x) in *. specialize (IH k (S j) ltac:(lia) H0). by replace (S (S k) + j)%nat with (S k + S j)%nat by lia.
Qed.

Lemma carried_high k e : (k < 90)%nat → 1 <= e < 32 → 32 <= carried (S k) e.
Proof.
  intros Hk He. assert (Hc : no_cancel = true) by (vm_compute; reflexivity). unfold no_cancel in Hc. rewrite forallb_forall in Hc.
  specialize (Hc e). rewrite <-(Nat.add_0_r (S k)). apply (stays_high_carried 90 k e 0 Hk). apply Hc.
  apply in_map_iff. exists (Z.to_nat e). split; [lia|]. apply in_seq. lia.
Qed.

(** The number of positions at which two lists differ. *)
Fixpoint hamming {A} `{EqDecision A} (l k : list A) : nat :=
  match l, k with
  | x :: l, y :: k => if decide (x = y) then hamming l k else S (hamming l k)
  | _, _ => 0
  end.

Lemma foldl_lxor vs ws x y : length ws = length vs →
  Z.lxor (foldl polyStep x vs) (foldl polyStep y ws) = foldl polyStep (Z.lxor x y) (zip_with Z.lxor vs ws).
Proof.
  revert ws x y. induction vs as [|v vs IH]; intros [|w ws] x y Hl; cbn [length foldl zip_with] in *; [done|lia|lia|]. rewrite IH by lia. by rewrite polyStep_lxor.
Qed.

(** After the last difference the checksums stay different. *)
Lemma differ_zero x vs ws : length ws = length vs → hamming vs ws = 0%nat → word x → x ≠ 0 → foldl polyStep x (zip_with Z.lxor vs ws) ≠ 0.
Proof.
  revert x ws. induction vs as [|v vs IH]; intros x [|w ws] Hl Hh Hx Hne; cbn [zip_with foldl length] in *; try done. cbn [hamming] in Hh. case_decide; [|done]. subst w.
  rewrite Z.lxor_nilpotent. change (polyStep x 0) with (T x). apply IH; [lia|done|apply T_word|]. intros E. by apply Hne, T_injective.
Qed.

Definition symbols (l : list Z) : Prop := Forall (λ v, 0 <= v < 32) l.

Lemma symbol_differ v w : 0 <= v < 32 → 0 <= w < 32 → v ≠ w → 1 <= Z.lxor v w < 32.
Proof.
  intros Hv Hw Hne. pose proof (bounded_lxor 5 v w ltac:(lia) ltac:(lia) ltac:(lia)). enough (Z.lxor v w ≠ 0) by lia. by rewrite Z.lxor_eq_0_iff.
Qed.

Lemma differ_one k e vs ws : length ws = length vs → symbols vs → symbols ws → (hamming vs ws <= 1)%nat → 1 <= e < 32 → (k + length vs <= 90)%nat →
  foldl polyStep (carried k e) (zip_with Z.lxor vs ws) ≠ 0.
Proof.
  revert k ws. induction vs as [|v vs IH]; intros k [|w ws] Hl Hv Hw Hh He Hk; cbn [zip_with foldl length] in *; try done.
  - destruct k as [|k]; [cbn; lia|]. pose proof (carried_high k e ltac:(lia) He). lia.
  - apply Forall_cons in Hv as [Hv0 Hv], Hw as [Hw0 Hw]. cbn [hamming] in Hh. rewrite T_polyStep. change (T (carried k e)) with (carried (S k) e). case_decide as E.
    + subst w. rewrite Z.lxor_nilpotent, Z.lxor_0_r. apply IH; try done; lia.
    + pose proof (symbol_differ v w Hv0 Hw0 E). pose proof (carried_high k e ltac:(lia) He).
      assert (Hwd : word (Z.lxor (carried (S k) e) (Z.lxor v w))) by (apply bounded_lxor; [done|apply T_word|split; [lia|]; change (2 ^ 30) with 1073741824; lia]).
      apply differ_zero; [lia|lia|done|]. rewrite Z.lxor_eq_0_iff. lia.
Qed.

(** One or two wrong values of at most 90 give another checksum. *)
Lemma polymod_differ pre vs ws : length ws = length vs → symbols vs → symbols ws → (1 <= hamming vs ws <= 2)%nat → (length vs <= 90)%nat →
  bech32Polymod (pre ++ vs) ≠ bech32Polymod (pre ++ ws).
Proof.
  unfold bech32Polymod. rewrite !foldl_app. generalize (foldl polyStep 1 pre). intros x Hl Hv Hw Hh Hlen E.
  apply Z.lxor_eq_0_iff in E. rewrite foldl_lxor, Z.lxor_nilpotent in E by done. revert E. clear x.
  revert ws Hl Hw Hh. induction vs as [|v vs IH]; intros [|w ws] Hl Hw Hh; cbn [zip_with foldl length hamming] in *; try lia.
  apply Forall_cons in Hv as [Hv0 Hv], Hw as [Hw0 Hw]. rewrite T_polyStep. change (T 0) with 0. rewrite Z.lxor_0_l. case_decide as E.
  - subst w. rewrite Z.lxor_nilpotent. apply IH; try done; lia.
  - apply (differ_one 0 (Z.lxor v w)); try done; [lia|lia|by apply symbol_differ|lia].
Qed.

(** ** Characters *)

Lemma indexOf_sound c l i v : indexOf c l i = Some v → i <= v < i + Z.of_nat (length l) ∧ l !! Z.to_nat (v - i) = Some c.
Proof.
  revert i. induction l as [|x l IH]; intros i; cbn [indexOf length]; [done|]. case_bool_decide as E.
  - intros [= <-]. split; [lia|]. rewrite Z.sub_diag. by subst.
  - intros [H1 H2]%IH. split; [lia|]. replace (Z.to_nat (v - i)) with (S (Z.to_nat (v - (i + 1)))) by lia. exact H2.
Qed.

Lemma charIndex_symbol c v : charIndex c = Some v → 0 <= v < 32.
Proof. intros [H _]%indexOf_sound. exact H. Qed.

Lemma charIndex_inj c d v : charIndex c = Some v → charIndex d = Some v → c = d.
Proof. intros [_ H1]%indexOf_sound [_ H2]%indexOf_sound. rewrite H1 in H2. by injection H2. Qed.

Lemma indices_symbols l vs : mapM charIndex l = Some vs → symbols vs.
Proof.
  intros H%mapM_Some_1. induction H as [|c v l vs Hc _ IH]; constructor; [by eapply charIndex_symbol|done].
Qed.

Lemma indices_hamming l k vs ws : mapM charIndex l = Some vs → mapM charIndex k = Some ws → length k = length l → hamming vs ws = hamming l k.
Proof.
  intros H%mapM_Some_1 Hk%mapM_Some_1. revert k ws Hk. induction H as [|c v l vs Hc _ IH]; intros k ws Hk Hl; [by destruct Hk|].
  destruct Hk as [|d w k ws Hd Hk]; [done|]. cbn [hamming]. rewrite (IH k ws Hk) by (cbn in Hl; lia).
  repeat case_decide; try done; [subst v; exfalso; by eapply H0, charIndex_inj|subst; congruence].
Qed.

Lemma lower_one c : lowerChar c = "1"%char → c = "1"%char.
Proof. by destruct c as [[] [] [] [] [] [] [] []]. Qed.

Lemma lastIndexOf1_none l : "1"%char ∉ l → lastIndexOf1 (map lowerChar l) = None.
Proof.
  induction l as [|c l IH]; [done|]. intros [Hc Hl]%not_elem_of_cons. cbn. rewrite IH by done. rewrite bool_decide_false; [done|]. intros E%lower_one. by subst.
Qed.

Lemma lastIndexOf1_at pre data : "1"%char ∉ data → lastIndexOf1 (map lowerChar (pre ++ "1"%char :: data)) = Some (length pre).
Proof.
  intros Hd. induction pre as [|c pre IH]; cbn [app map lastIndexOf1 length]; [|by rewrite IH].
  rewrite lastIndexOf1_none by done. done.
Qed.

(** The checksum of an address detects one or two wrong characters.  When an
    address is accepted, its prefix is what comes before the last "1", in lower
    case; and any string that differs from it, case apart, in one or two of the
    characters after that "1" is refused. *)
Theorem bech32_detects pre data data' hrp :
  decodeBech32Prefix (pre ++ "1"%char :: data) = Some hrp → "1"%char ∉ data → "1"%char ∉ data' → length data' = length data →
  (1 <= hamming (map lowerChar data) (map lowerChar data') <= 2)%nat →
  hrp = map lowerChar pre ∧ decodeBech32Prefix (pre ++ "1"%char :: data') = None.
Proof.
  intros Hdec Hd Hd' Hlen Hh.
  assert (Hlong : ∀ l : list ascii, length l = length (pre ++ "1"%char :: data) → (length l <? 8)%nat || (90 <? length l)%nat = false).
  { intros l ->. unfold decodeBech32Prefix in Hdec. by destruct (_ || _). }
  assert (Hdata : (length data < 90)%nat) by (specialize (Hlong _ eq_refl); b2p; rewrite length_app in *; cbn [length] in *; lia).
  assert (Hunfold : ∀ d, length d = length data → "1"%char ∉ d → ∀ h, decodeBech32Prefix (pre ++ "1"%char :: d) = Some h →
    h = map lowerChar pre ∧ ∃ vs, mapM charIndex (map lowerChar d) = Some vs ∧ bech32Polymod (bech32HrpExpand (map lowerChar pre) ++ vs) = 1).
  { intros d Hl Hn h. unfold decodeBech32Prefix. rewrite Hlong by (rewrite !length_app; cbn; lia).
    destruct (negb _); [done|]. destruct (_ && _); [done|]. cbv zeta. rewrite lastIndexOf1_at by done. destruct (_ || _); [done|].
    rewrite map_app. rewrite <-(length_map lowerChar pre), take_app_length. cbn [map]. rewrite drop_app_ge by lia. rewrite Nat.sub_succ_l, Nat.sub_diag by lia. cbn [drop].
    destruct (mapM _ _) as [vs|]; [|done]. destruct (negb _) eqn:E; [done|]. intros [= <-]. split; [done|]. exists vs. split; [done|]. by b2p. }
  destruct (Hunfold data eq_refl Hd hrp Hdec) as (-> & vs & Hvs & H1). split; [done|].
  destruct (decodeBech32Prefix (pre ++ "1"%char :: data')) as [h|] eqn:E'; [|done]. exfalso.
  destruct (Hunfold data' Hlen Hd' h E') as (_ & ws & Hws & H1').
  pose proof (Forall2_length _ _ _ (mapM_Some_1 _ _ _ Hvs)) as Lv. pose proof (Forall2_length _ _ _ (mapM_Some_1 _ _ _ Hws)) as Lw. rewrite length_map in Lv, Lw.
  refine (polymod_differ (bech32HrpExpand (map lowerChar pre)) vs ws _ (indices_symbols _ _ Hvs) (indices_symbols _ _ Hws) _ _ _); [lia| |lia|by rewrite H1, H1'].
  rewrite (indices_hamming _ _ _ _ Hvs Hws); [done|]. by rewrite !length_map.
Qed.

(** BIP-173's example with its last two characters exchanged. *)
Lemma bech32_detects_witness : decodeBech32Prefix (String.list_ascii_of_string "A12UELL5") = None.
Proof.
  refine (proj2 (bech32_detects ["A"%char] (String.list_ascii_of_string "2UEL5L") (String.list_ascii_of_string "2UELL5") ["a"%char] _ _ _ _ _));
    [vm_compute; reflexivity|by eapply bool_decide_eq_false_1; vm_compute|by eapply bool_decide_eq_false_1; vm_compute|reflexivity|vm_compute; lia].
Defined.
End CoordBech32Thms.

(** ** The faucet gives each address and each client once per cooldown

    The faucet with all its requests as a transition system: a request begins,
    the transaction of a request that got through ends, the timer prunes.  Any
    number of requests may begin while a transaction is under way. *)
Import Bytes Json JsMap CoordFaucet.

Module CoordFaucetThms.

(** ** Eviction *)

Lemma foldl_mdel {V} (ks : list (string * V)) (m : list (string * V)) : mwf m → mwf (foldl (λ m kv, mdel kv.1 m) m ks) ∧
  ∀ k, mget k (foldl (λ m kv, mdel kv.1 m) m ks) = if bool_decide (k ∈ ks.*1) then None else mget k m.
Proof.
  revert m. induction ks as [|[k0 v0] ks IH]; intros m Hm; cbn [foldl]; [done|].
  destruct (IH (mdel k0 m) (mfilter_wf _ _ Hm)) as [Hw Hg]. split; [done|]. intros k. rewrite Hg, mget_del by done. rewrite fmap_cons. cbn [fst].
  repeat case_bool_decide; try case_decide; try done; exfalso; rewrite elem_of_cons in *; naive_solver.
Qed.

(** Evicting keeps [maxEntries] entries, and those it drops expire no later
    than those it keeps. *)
Lemma evict_spec m n : mwf m → let m' := evictSoonestToExpire m n in
  mwf m' ∧ (∀ k v, mget k m' = Some v → mget k m = Some v) ∧ ((length m <= n)%nat → m' = m) ∧
  (∀ k v k' v', mget k m = Some v → mget k m' = None → mget k' m' = Some v' → v <= v').
Proof.
  intros Hm. cbv zeta. unfold evictSoonestToExpire. destruct (Nat.leb_spec (length m) n) as [Hle|Hgt].
  - split; [done|]. split; [done|]. split; [done|]. intros k v k' v' E1 E2. congruence.
  - set (all := sort_by _ m). set (gone := take _ all). destruct (foldl_mdel gone m Hm) as [Hw Hg]. split; [done|].
    split; [intros k v; rewrite Hg; by case_bool_decide|]. split; [lia|]. intros k v k' v' Hk Hn Hk'. rewrite Hg in Hn.
    case_bool_decide as E; [|congruence]. rewrite Hg in Hk'. case_bool_decide as E'; [done|].
    apply list_elem_of_fmap in E as ([k0 v0] & -> & Hin). cbn [fst] in *.
    assert (Hsub : (k0, v0) ∈ all) by (eapply elem_of_sublist; [exact Hin|apply sublist_take]).
    unfold all in Hsub. rewrite sort_by_perm, <-mget_elem in Hsub by done. rewrite Hsub in Hk. injection Hk as <-.
    apply mget_elem in Hk'; [|done]. assert (Hin' : (k', v') ∈ all) by (unfold all; by rewrite sort_by_perm).
    rewrite <-(take_drop (length m - n) all) in Hin'. apply elem_of_app in Hin' as [Hin'|Hin'].
    { exfalso. apply E'. apply list_elem_of_fmap. by exists (k', v'). }
    pose proof (CoordStoreThms.sort_by_Z_sorted (λ kv : string * Z, kv.2) m) as Hs. apply Sorted_StronglySorted in Hs; [|intros ???; lia].
    fold all in Hs. rewrite <-(take_drop (length m - n) all) in Hs. exact (StronglySorted_app_1_elem_of _ _ _ _ _ Hs Hin Hin').
Qed.

(** ** The faucet with its requests *)

(** A request that got through, and when it began. *)
Record Drip := mkDripReq { dr_address : string; dr_ip : string; dr_start : Z }.

(** The service, the requests waiting for their transaction, the drips that
    succeeded, latest first, and the clock. *)
Record World := mkWorld { w_faucet : FaucetService; w_pending : list Drip; w_done : list Drip; w_now : Z }.

Section system.
Context (config : FaucetConfig).

Inductive step : World → World → Prop :=
| step_begin w address ip now f' : w.(w_now) <= now → dripBegin config w.(w_faucet) address ip now = (Ok tt, f') →
    step w (mkWorld f' (mkDripReq address ip now :: w.(w_pending)) w.(w_done) now)
| step_refused w address ip now e f' : w.(w_now) <= now → dripBegin config w.(w_faucet) address ip now = (Err e, f') →
    step w (mkWorld f' w.(w_pending) w.(w_done) now)
| step_paid w d ps qs out now r f' : w.(w_now) <= now → w.(w_pending) = ps ++ d :: qs →
    dripEnd config w.(w_faucet) d.(dr_address) d.(dr_ip) d.(dr_start) out = (Ok r, f') →
    step w (mkWorld f' (ps ++ qs) (d :: w.(w_done)) now)
| step_failed w d ps qs out now e f' : w.(w_now) <= now → w.(w_pending) = ps ++ d :: qs →
    dripEnd config w.(w_faucet) d.(dr_address) d.(dr_ip) d.(dr_start) out = (Err e, f') →
    step w (mkWorld f' (ps ++ qs) w.(w_done) now)
| step_prune w now : w.(w_now) <= now →
    (* the cooldowns that are still running fit in the maps *)
    (length (mprune (λ v, (v <=? now)%Z) w.(w_faucet).(addressCooldowns)) <= MAX_COOLDOWN_ENTRIES)%nat →
    (length (mprune (λ v, (v <=? now)%Z) w.(w_faucet).(ipCooldowns)) <= MAX_COOLDOWN_ENTRIES)%nat →
    step w (mkWorld (pruneCooldowns w.(w_faucet) now) w.(w_pending) w.(w_done) now).

Inductive reachable (signing : option string) (t0 : Z) : World → Prop :=
| reach_start : 0 <= t0 → reachable signing t0 (mkWorld (set_signing signing newFaucet) [] [] t0)
| reach_step w w' : reachable signing t0 w → step w w' → reachable signing t0 w'.

(** A cooldown until [e] is in force or over. *)
Definition enforced (m : list (string * Z)) (k : string) (now e : Z) : Prop := e <= now ∨ ∃ e', mget k m = Some e' ∧ e <= e'.

(** A drip respects those that were finished before it. *)
Definition respects (d : Drip) (earlier : list Drip) : Prop := ∀ d', d' ∈ earlier →
  (d'.(dr_address) = d.(dr_address) → d'.(dr_start) + config.(cooldownMs) <= d.(dr_start)) ∧
  (d'.(dr_ip) = d.(dr_ip) → d'.(dr_start) + config.(ipCooldownMs) <= d.(dr_start)) ∧ d'.(dr_start) <= d.(dr_start).

Fixpoint spaced (ds : list Drip) : Prop := match ds with [] => True | d :: ds => respects d ds ∧ spaced ds end.

Record inv (w : World) : Prop := {
  inv_wf : mwf w.(w_faucet).(addressCooldowns) ∧ mwf w.(w_faucet).(ipCooldowns);
  inv_now : 0 <= w.(w_now);
  inv_done : ∀ d, d ∈ w.(w_done) → d.(dr_start) <= w.(w_now) ∧
    enforced w.(w_faucet).(addressCooldowns) d.(dr_address) w.(w_now) (d.(dr_start) + config.(cooldownMs)) ∧
    enforced w.(w_faucet).(ipCooldowns) d.(dr_ip) w.(w_now) (d.(dr_start) + config.(ipCooldownMs));
  inv_pending : match w.(w_pending) with
                | [] => w.(w_faucet).(busy) = false
                | [d] => w.(w_faucet).(busy) = true ∧ d.(dr_start) <= w.(w_now) ∧ respects d w.(w_done)
                | _ => False
                end;
  inv_spaced : spaced w.(w_done)
}.

Lemma enforced_later m k now now' e : now <= now' → enforced m k now e → enforced m k now' e.
Proof. intros Hn [He|H]; [left; lia|by right]. Qed.

Lemma enforced_set m k k' now e v : (k = k' → e <= v ∨ e <= now) → enforced m k now e → enforced (mset k' v m) k now e.
Proof.
  intros Hv [He|(e' & Hg & He)]; [by left|]. destruct (decide (k = k')) as [->|Hne].
  - destruct (Hv eq_refl); [right|by left]. exists v. rewrite mget_set. by rewrite decide_True.
  - right. exists e'. rewrite mget_set. by rewrite decide_False.
Qed.

Lemma enforced_prune m k now now' e : mwf m → now <= now' → enforced m k now e → enforced (mprune (λ v, v <=? now') m) k now' e.
Proof.
  intros Hm Hn [He|(e' & Hg & He)]; [left; lia|]. destruct (Z.leb_spec e' now') as [Hle|Hgt]; [left; lia|].
  right. exists e'. split; [|done]. unfold mprune. rewrite mget_filter by done. rewrite Hg. cbn [snd]. by rewrite (proj2 (Z.leb_gt e' now')).
Qed.

(** A request that gets through waits for no cooldown. *)
Lemma cooling_none m k now e : cooling (mget k m) now = None → 0 <= now → enforced m k now e → e <= now.
Proof.
  intros Hc Hnow [He|(e' & Hg & He)]; [done|]. rewrite Hg in Hc. cbn in Hc. destruct (Z.eqb_spec e' 0); [lia|]. cbn [negb andb] in Hc.
  destruct (Z.ltb_spec now e'); [done|lia].
Qed.

(** What a request does before its transaction: at most it starts the short
    cooldown of its client; when it gets through, the faucet was free. *)
Lemma dripBegin_spec f address ip now r f' : dripBegin config f address ip now = (r, f') →
  addressCooldowns f' = addressCooldowns f ∧
  (ipCooldowns f' = ipCooldowns f ∨ (cooling (mget ip f.(ipCooldowns)) now = None ∧ ipCooldowns f' = mset ip (now + Z.min config.(ipCooldownMs) 60000) f.(ipCooldowns))) ∧
  match r with
  | Ok _ => f.(busy) = false ∧ f'.(busy) = true ∧ cooling (mget address f.(addressCooldowns)) now = None ∧ cooling (mget ip f.(ipCooldowns)) now = None
  | Err _ => f'.(busy) = f.(busy)
  end.
Proof.
  unfold dripBegin. destruct (signing f); [|intros [= <- <-]; by split; [|split; [left|]]]. cbv zeta.
  destruct (cooling (mget ip (ipCooldowns f)) now) eqn:Ec; [intros [= <- <-]; by split; [|split; [left|]]|].
  destruct (negb _); [intros [= <- <-]; by split; [|split; [right|]]|]. cbn [set_ip addressCooldowns busy].
  destruct (cooling (mget address _) now) eqn:Ea; [intros [= <- <-]; by split; [|split; [right|]]|].
  destruct (busy f) eqn:Eb; intros [= <- <-]; cbn; rewrite ?Eb; repeat split; try done; by right.
Qed.

Lemma dripEnd_spec f d out r f' : dripEnd config f d.(dr_address) d.(dr_ip) d.(dr_start) out = (r, f') →
  f'.(busy) = false ∧
  match r with
  | Ok _ => addressCooldowns f' = mset d.(dr_address) (d.(dr_start) + config.(cooldownMs)) f.(addressCooldowns) ∧
            ipCooldowns f' = mset d.(dr_ip) (d.(dr_start) + config.(ipCooldownMs)) f.(ipCooldowns)
  | Err _ => addressCooldowns f' = addressCooldowns f ∧ ipCooldowns f' = ipCooldowns f
  end.
Proof. unfold dripEnd. destruct out as [msg|c h]; [by intros [= <- <-]|]. destruct (negb _); by intros [= <- <-]. Qed.

Lemma inv_begin w address ip now r f' : inv w → w.(w_now) <= now → dripBegin config w.(w_faucet) address ip now = (r, f') →
  inv (mkWorld f' (match r with Ok _ => mkDripReq address ip now :: w.(w_pending) | Err _ => w.(w_pending) end) w.(w_done) now).
Proof.
  intros [[Hwa Hwi] Hnow Hdone Hpend Hsp] Hlt E. destruct (dripBegin_spec _ _ _ _ _ _ E) as (Ha & Hi & Hr). constructor; cbn [w_faucet w_pending w_done w_now].
  - rewrite Ha. split; [done|]. destruct Hi as [->|[_ ->]]; [done|by apply mset_wf].
  - lia.
  - intros d Hd. destruct (Hdone d Hd) as (Hs & Hea & Hei). split; [lia|]. rewrite Ha. split; [by eapply enforced_later|].
    apply (enforced_later _ _ _ now) in Hei; [|done]. destruct Hi as [->|[Hc ->]]; [done|]. apply enforced_set; [|done]. intros <-. right. by eapply cooling_none; [|lia|].
  - destruct r as [u|e]; [|].
    + destruct Hr as (Hb & Hb' & Hca & Hci). destruct (w_pending w) as [|d [|d' ds]]; [|by destruct Hpend as [Hb2 _]; congruence|done].
      split; [done|]. cbn [dr_start]. split; [lia|]. intros d Hd. destruct (Hdone d Hd) as (Hs & Hea & Hei). cbn [dr_address dr_ip dr_start]. split; [|split; [|lia]].
      * intros <-. eapply cooling_none; [exact Hca|lia|by eapply enforced_later].
      * intros <-. eapply cooling_none; [exact Hci|lia|by eapply enforced_later].
    + rewrite Hr. destruct (w_pending w) as [|d [|d' ds]]; [done| |done]. destruct Hpend as (? & ? & ?). split; [done|]. split; [lia|done].
  - done.
Qed.

Lemma inv_end w d ps qs out now r f' : inv w → w.(w_now) <= now → w.(w_pending) = ps ++ d :: qs →
  dripEnd config w.(w_faucet) d.(dr_address) d.(dr_ip) d.(dr_start) out = (r, f') →
  inv (mkWorld f' (ps ++ qs) (match r with Ok _ => d :: w.(w_done) | Err _ => w.(w_done) end) now).
Proof.
  intros [[Hwa Hwi] Hnow Hdone Hpend Hsp] Hlt Ep E. destruct (dripEnd_spec _ _ _ _ _ E) as (Hb & Hr). rewrite Ep in Hpend.
  destruct ps as [|? [|? ?]]; cbn [app] in *; [|done..]. destruct qs as [|? ?]; [|done]. destruct Hpend as (_ & Hs & Hresp).
  assert (Hold : ∀ d', d' ∈ w.(w_done) → dr_start d' <= now ∧ enforced w.(w_faucet).(addressCooldowns) d'.(dr_address) now (d'.(dr_start) + config.(cooldownMs)) ∧
    enforced w.(w_faucet).(ipCooldowns) d'.(dr_ip) now (d'.(dr_start) + config.(ipCooldownMs))).
  { intros d' Hd'. destruct (Hdone d' Hd') as (? & ? & ?). split; [lia|]. split; by eapply enforced_later. }
  constructor; cbn [w_faucet w_pending w_done w_now]; try done.
  - destruct r; destruct Hr as [-> ->]; split; auto with jsmap.
  - lia.
  - destruct r; destruct Hr as [-> ->]; [|exact Hold]. intros d' [->|Hd']%elem_of_cons.
    + split; [lia|]. split; right; eexists; (split; [rewrite mget_set; by rewrite decide_True|lia]).
    + destruct (Hold d' Hd') as (? & ? & ?), (Hresp d' Hd') as (_ & _ & ?). split; [done|]. split; (apply enforced_set; [intros _; left; lia|done]).
  - by destruct r.
Qed.

Lemma inv_step w w' : inv w → step w w' → inv w'.
Proof.
  intros Hi Hs. destruct Hs as [w address ip now f' Hn E|w address ip now e f' Hn E|w d ps qs out now r f' Hn Ep E|w d ps qs out now e f' Hn Ep E|w now Hn Ha Hp].
  - exact (inv_begin _ _ _ _ _ _ Hi Hn E).
  - exact (inv_begin _ _ _ _ _ _ Hi Hn E).
  - exact (inv_end _ _ _ _ _ _ _ _ Hi Hn Ep E).
  - exact (inv_end _ _ _ _ _ _ _ _ Hi Hn Ep E).
  - destruct Hi as [[Hwa Hwi] Hnow Hdone Hpend Hsp]. unfold pruneCooldowns. cbv zeta. cbn [set_address set_ip addressCooldowns ipCooldowns].
    pose proof (evict_spec (mprune (λ v, v <=? now) (addressCooldowns (w_faucet w))) MAX_COOLDOWN_ENTRIES (mfilter_wf _ _ Hwa)) as (_ & _ & Ea & _).
    pose proof (evict_spec (mprune (λ v, v <=? now) (ipCooldowns (w_faucet w))) MAX_COOLDOWN_ENTRIES (mfilter_wf _ _ Hwi)) as (_ & _ & Ei & _).
    rewrite (Ea Ha), (Ei Hp). constructor; cbn [w_faucet w_pending w_done w_now set_address set_ip addressCooldowns ipCooldowns busy]; try done.
    + split; by apply mfilter_wf.
    + lia.
    + intros d Hd. destruct (Hdone d Hd) as (? & ? & ?). split; [lia|]. split; by eapply enforced_prune.
    + destruct (w_pending w) as [|d [|? ?]]; [done| |done]. destruct Hpend as (? & ? & ?). split; [done|]. split; [lia|done].
Qed.

Lemma drips_inv signing t0 w : reachable signing t0 w → inv w.
Proof.
  induction 1 as [H0|w w' _ IH Hs]; [|by eapply inv_step]. constructor; cbn; try done; [by split; apply NoDup_nil_2|]. by intros d ?%elem_of_nil.
Qed.

Lemma spaced_lookup ds i j d d' : spaced ds → (i < j)%nat → ds !! i = Some d → ds !! j = Some d' → respects d [d'].
Proof.
  revert i j. induction ds as [|x ds IH]; intros i j Hs Hij Hi Hj; [done|]. destruct Hs as [Hr Hs], j as [|j]; [lia|]. destruct i as [|i]; [|by eapply (IH i j); [|lia|..]].
  cbn in Hi, Hj. injection Hi as <-. intros d0 ->%list_elem_of_singleton. apply Hr. by eapply list_elem_of_lookup_2.
Qed.

(** Drips are spaced.  However many requests overlap, whatever transactions
    do, as long as the cooldowns that are running fit in the bounded maps: at
    most one transaction is under way at any time; of two drips that succeeded,
    the request of the later began at least a cooldown after that of the
    earlier when they are for the same address, and at least the client
    cooldown after it when they come from the same client. *)
Theorem faucet_spaced signing t0 w : reachable signing t0 w →
  (length w.(w_pending) <= 1)%nat ∧
  ∀ i j later earlier, (i < j)%nat → w.(w_done) !! i = Some later → w.(w_done) !! j = Some earlier →
    dr_start earlier <= dr_start later ∧
    (dr_address earlier = dr_address later → dr_start earlier + config.(cooldownMs) <= dr_start later) ∧
    (dr_ip earlier = dr_ip later → dr_start earlier + config.(ipCooldownMs) <= dr_start later).
Proof.
  intros [_ _ _ Hp Hs]%drips_inv. split; [destruct (w_pending w) as [|? [|? ?]]; cbn; [lia|lia|done]|].
  intros i j later earlier Hij Hi Hj. destruct (spaced_lookup _ _ _ _ _ Hs Hij Hi Hj earlier) as (? & ? & ?); [by apply list_elem_of_singleton|done].
Qed.
End system.

(** ** A run with two drips for the same address *)

Definition toy_config : FaucetConfig := mkFaucetConfig true (Some "m"%string) "5" "chip" 10 10 "a" "0" "rpc" "lcd".
Definition toy_drip (now : Z) : Drip := mkDripReq "a12uel5l" "ip" now.
Definition toy_faucet (t1 t2 : Z) (b : bool) : FaucetService := mkFaucet (if t1 =? 0 then [] else [("a12uel5l"%string, t1)]) [("ip"%string, t2)] (Some "payer"%string) b true.

Lemma toy_reachable : reachable toy_config (Some "payer"%string) 5 (mkWorld (toy_faucet 25 25 false) [] [toy_drip 15; toy_drip 5] 16).
Proof.
  apply (reach_step _ _ _ (mkWorld (toy_faucet 15 25 true) [toy_drip 15] [toy_drip 5] 15));
    [|by apply (step_paid toy_config (mkWorld (toy_faucet 15 25 true) [toy_drip 15] [toy_drip 5] 15) (toy_drip 15) [] [] (TxResult 0 "h") 16 (mkDrip "h" "5" "chip"))].
  apply (reach_step _ _ _ (mkWorld (toy_faucet 15 15 false) [] [toy_drip 5] 6));
    [|by apply (step_begin toy_config (mkWorld (toy_faucet 15 15 false) [] [toy_drip 5] 6) "a12uel5l" "ip" 15)].
  apply (reach_step _ _ _ (mkWorld (toy_faucet 0 15 true) [toy_drip 5] [] 5));
    [|by apply (step_paid toy_config (mkWorld (toy_faucet 0 15 true) [toy_drip 5] [] 5) (toy_drip 5) [] [] (TxResult 0 "h") 6 (mkDrip "h" "5" "chip"))].
  apply (reach_step _ _ _ (mkWorld (set_signing (Some "payer"%string) newFaucet) [] [] 5)); [by constructor|].
  by apply (step_begin toy_config (mkWorld (set_signing (Some "payer"%string) newFaucet) [] [] 5) "a12uel5l" "ip" 5).
Qed.

Lemma faucet_spaced_witness : ∃ w, reachable toy_config (Some "payer"%string) 5 w ∧ length w.(w_done) = 2%nat ∧ 5 + 10 <= 15.
Proof.
  eexists. split; [exact toy_reachable|]. split; [reflexivity|].
  destruct (faucet_spaced toy_config _ _ _ toy_reachable) as [_ H]. exact (proj1 (proj2 (H 0%nat 1%nat (toy_drip 15) (toy_drip 5) ltac:(lia) eq_refl eq_refl)) eq_refl).
Defined.
End CoordFaucetThms.
