(* ===== verification/CoordConfig.v ===== *)
(** * The coordinator's settings and its view of a client:
      [apps/coordinator/src/config.ts], [clientIp.ts]

    [loadConfig] reads the environment; [clientIpFromForwarded] finds the
    address of a client behind reverse proxies, the key of the limits. *)
From stdpp Require Import base option list strings.
From Stdlib Require Import ZArith Lia Ascii.
From S2P Require Import Prelude OcpBytes Json CoordFaucet.
Import Bytes Json CoordFaucet.

Module CoordConfig.

(** ** Strings *)

Definition chars (s : string) : list ascii := String.list_ascii_of_string s.
Definition text (l : list ascii) : string := String.string_of_list_ascii l.
Definition trimmed (s : string) : string := text (trim (chars s)).
(** [s || d] and [s || undefined] *)
Definition orString (s d : string) : string := if bool_decide (s = EmptyString) then d else s.
Definition nonEmpty (s : string) : option string := if bool_decide (s = EmptyString) then None else Some s.

(** [s.split(",")] *)
Fixpoint splitComma (l : list ascii) : list (list ascii) :=
  match l with
  | [] => [[]]
  | c :: l => if bool_decide (c = ","%char) then [] :: splitComma l
              else match splitComma l with p :: ps => (c :: p) :: ps | [] => [[c]] end
  end.

(** [raw.split(",").map((s) => s.trim()).filter(Boolean)] *)
Definition commaList (l : list ascii) : list (list ascii) :=
  List.filter (λ p, negb (length p =? 0)%nat) (map trim (splitComma l)).

(** ** clientIp.ts *)

(** A header that may occur several times. *)
Inductive HeaderValue := OneHeader (s : string) | ManyHeaders (l : list string).

Definition clientIpFromForwarded (forwardedHeader : option HeaderValue) (directIp : string) (trustedHops : Z) : string :=
  let fallback := orString directIp "unknown" in
  if trustedHops <=? 0 then fallback
  else
    match forwardedHeader with
    | None => fallback
    | Some h =>
        let raw := match h with OneHeader s => s | ManyHeaders l => String.concat "," l end in
        if bool_decide (raw = EmptyString) then fallback
        else
          let hops := commaList (chars raw) in
          if (length hops =? 0)%nat then fallback
          else
            let idx := Z.of_nat (length hops) - trustedHops in
            if idx <? 0 then fallback else match hops !! Z.to_nat idx with Some h => text h | None => fallback end
    end.

(** ** config.ts *)

Record CoordinatorConfig := mkCoordConfig {
  host : string; port : Z; corsOrigins : option (list string); devRoutes : bool;
  c_artifactMaxBytes : Z; c_artifactCacheMaxBytes : Z; seatIntentTtlMs : Z;
  requireWriteAuth : bool; writeAuthToken : option string;
  writeRateLimitEnabled : bool; writeRateLimitMax : Z; writeRateLimitWindowMs : Z;
  trustedProxyHops : option Z; faucet : FaucetConfig
}.

(** Digits up to something else: their value, their number, and the rest. *)
Fixpoint digits (acc : Z) (n : nat) (l : list ascii) : Z * nat * list ascii :=
  match l with
  | c :: l' => match decimalValue c with Some d => digits (acc * 10 + d) (S n) l' | None => (acc, n, l) end
  | [] => (acc, n, [])
  end.

(** The value of [m * 10^e] when it is an integer. *)
Definition scaled (m e : Z) : option Z :=
  if 0 <=? e then Some (m * 10 ^ e) else if m mod 10 ^ (- e) =? 0 then Some (m / 10 ^ (- e)) else None.

Definition exponent (l : list ascii) : option Z :=
  match l with
  | [] => Some 0
  | ("e" | "E")%char :: l =>
      let '(neg, l) := match l with "-"%char :: l => (true, l) | "+"%char :: l => (false, l) | _ => (false, l) end in
      match digits 0 0 l with
      | (v, S _, []) => Some (if neg then - v else v)
      | _ => None
      end
  | _ => None
  end.

(** A decimal literal, with a fraction or an exponent, that is an integer. *)
Definition decimalInt (l : list ascii) : option Z :=
  let '(neg, l) := match l with "-"%char :: l => (true, l) | "+"%char :: l => (false, l) | _ => (false, l) end in
  let '(i, ni, l) := digits 0 0 l in
  let '(m, nf, l) := match l with "."%char :: l => digits i 0 l | _ => (i, 0%nat, l) end in
  if (ni + nf =? 0)%nat then None
  else e ← exponent l; v ← scaled m (e - Z.of_nat nf); Some (if neg : bool then - v else v).

(** [Number(v)], where it is an integer. *)
Definition numberInt (v : string) : option Z :=
  match stringToBigInt v with Some z => Some z | None => decimalInt (trim (chars v)) end.

Definition parseIntEnv (v : option string) : option Z :=
  match v with None => None | Some v => if bool_decide (v = EmptyString) then None else numberInt v end.

Definition parseBoolEnv (v : option string) : option bool :=
  match v with
  | None => None
  | Some v =>
      if bool_decide (v = EmptyString) then None
      else
        let norm := lower (trimmed v) in
        if bool_decide (norm ∈ ["1"; "true"; "yes"; "on"]%string) then Some true
        else if bool_decide (norm ∈ ["0"; "false"; "no"; "off"]%string) then Some false
        else None
  end.

Definition parseCsv (v : option string) : option (list string) :=
  match v with
  | None => None
  | Some v =>
      if bool_decide (v = EmptyString) then None
      else
        let norm := trimmed v in
        if bool_decide (norm = "*"%string) then Some ["*"%string]
        else if bool_decide (norm = EmptyString) then None
        else match map text (commaList (chars norm)) with [] => None | parts => Some parts end
  end.

Section load.
Context (env : string → option string).

(** [(env.K ?? "").trim()] *)
Definition envTrim (key : string) : string := trimmed (default EmptyString (env key)).
Definition envInt (key : string) (d : Z) : Z := default d (parseIntEnv (env key)).
Definition production : bool := bool_decide (env "NODE_ENV" = Some "production"%string).

(** [(env.A ?? env.B ?? "").trim() || d] *)
Definition envUrl (a b d : string) : string :=
  orString (trimmed (match env a with Some v => v | None => default EmptyString (env b) end)) d.

Definition loadFaucet : FaucetConfig :=
  mkFaucetConfig (default false (parseBoolEnv (env "FAUCET_ENABLED"))) (nonEmpty (envTrim "FAUCET_MNEMONIC"))
    (orString (envTrim "FAUCET_AMOUNT") "5000000") (orString (envTrim "FAUCET_DENOM") "uchips")
    (envInt "FAUCET_COOLDOWN_SECS" 3600 * 1000) (envInt "FAUCET_IP_COOLDOWN_SECS" 600 * 1000)
    (orString (envTrim "FAUCET_BECH32_PREFIX") "ocp") (orString (envTrim "FAUCET_GAS_PRICE") "0uchips")
    (envUrl "FAUCET_RPC_URL" "COORDINATOR_COSMOS_RPC_URL" "http://127.0.0.1:26657")
    (envUrl "FAUCET_LCD_URL" "COORDINATOR_COSMOS_LCD_URL" "http://127.0.0.1:1317").

Definition loadConfig : result string CoordinatorConfig :=
  let corsOrigins := match parseCsv (env "CORS_ORIGINS") with None => if production then Some [] else None | l => l end in
  let requireWriteAuth := default production (parseBoolEnv (env "COORDINATOR_REQUIRE_WRITE_AUTH")) in
  let writeAuthToken := nonEmpty (envTrim "COORDINATOR_WRITE_TOKEN") in
  let! _ := throw_if (requireWriteAuth && negb (match writeAuthToken with Some _ => true | None => false end)) "COORDINATOR_WRITE_TOKEN must be set when write auth is enabled"%string in
  Ok (mkCoordConfig (orString (envTrim "COORDINATOR_HOST") "127.0.0.1")
        (match parseIntEnv (env "COORDINATOR_PORT") with Some p => p | None => envInt "PORT" 8788 end)
        corsOrigins (default (negb production) (parseBoolEnv (env "COORDINATOR_DEV_ROUTES")))
        (envInt "COORDINATOR_ARTIFACT_MAX_BYTES" 1000000) (envInt "COORDINATOR_ARTIFACT_CACHE_MAX_BYTES" 10000000)
        (envInt "COORDINATOR_SEAT_INTENT_TTL_SECS" 300 * 1000)
        requireWriteAuth writeAuthToken
        (default production (parseBoolEnv (env "COORDINATOR_WRITE_RATE_LIMIT_ENABLED")))
        (envInt "COORDINATOR_WRITE_RATE_LIMIT_MAX" 30) (envInt "COORDINATOR_WRITE_RATE_LIMIT_WINDOW_SECS" 60 * 1000)
        (Some (Z.max 0 (envInt "COORDINATOR_TRUSTED_PROXY_HOPS" 1))) loadFaucet).
End load.

Example number_exp : numberInt " 1.5e3 " = Some 1500.
Proof. vm_compute. reflexivity. Qed.
Example number_frac : numberInt "1.5" = None.
Proof. vm_compute. reflexivity. Qed.
Example hops_trim : commaList (chars " a , ,b") = [["a"%char]; ["b"%char]].
Proof. vm_compute. reflexivity. Qed.

End CoordConfig.
