(* ===== verification/CoordGuards.v ===== *)
(** * Write guards: the token check and the rate limiter of
      [apps/coordinator/src/http.ts]

    Every route that writes passes the token check and then the rate limiter,
    which counts the requests of a client in windows of fixed length.  The
    theorems bound what a client gets through, whatever it puts in the headers
    it controls. *)
From stdpp Require Import base option list strings sorting.
From Stdlib Require Import ZArith Lia Ascii.
From S2P Require Import Prelude OcpBytes Json JsMap CoordFaucet CoordConfig.
Import Bytes Json JsMap CoordConfig.

Module CoordGuards.

(** What the handlers read of a request. *)
Record Request := mkRequest {
  rq_header : string → option string; rq_ip : option string; rq_remoteAddress : option string; rq_body : json
}.

Record Response := mkResponse { rs_status : Z; rs_headers : list (string * string); rs_body : json }.
Definition error (status : Z) (msg : string) : Response := mkResponse status [] (JObj [("error"%string, JStr msg)]).
Definition okJson (j : json) : Response := mkResponse 200 [] j.

(** [a || b] on strings that may be missing. *)
Definition orElseString (a : option string) (b : string) : string := match a with Some s => orString s b | None => b end.

Definition getClientId (req : Request) (trustedHops : Z) : string :=
  let directIp := orElseString req.(rq_ip) (orElseString req.(rq_remoteAddress) "unknown") in
  clientIpFromForwarded (OneHeader <$> req.(rq_header) "x-forwarded-for"%string) directIp trustedHops.

(** [/^\s*Bearer\s+(.+)$/i], the captured text trimmed; a header has no line
    breaks. *)
Definition bearer (l : list ascii) : option (list ascii) :=
  let l := skipSpace l in
  if bool_decide (map lowerChar (take 6 l) = chars "bearer") then
    match drop 6 l with
    | c :: rest => if isSpace c then let t := trim rest in if (length t =? 0)%nat then None else Some t else None
    | [] => None
    end
  else None.

Definition extractWriteToken (req : Request) : option string :=
  let fromAuth := match req.(rq_header) "authorization"%string with
                  | None => None
                  | Some a =>
                      if bool_decide (a = EmptyString) then None
                      else match bearer (chars a) with Some t => Some (text t) | None => nonEmpty (trimmed a) end
                  end in
  match req.(rq_header) "x-api-key"%string with
  | Some k => match nonEmpty (trimmed k) with Some k => Some k | None => fromAuth end
  | None => fromAuth
  end.

(** [None] lets the request through. *)
Definition writeAuthGuard (config : CoordinatorConfig) (req : Request) : option Response :=
  if negb config.(requireWriteAuth) then None
  else
    let expected := default EmptyString config.(writeAuthToken) in
    match extractWriteToken req with
    | None => Some (error 401 "write auth token required")
    | Some token => if bool_decide (token = expected) then None else Some (error 401 "invalid write auth token")
    end.

(** ** The rate limiter *)

Record Bucket := mkBucket { b_count : Z; b_windowEndMs : Z }.
Definition Buckets : Type := list (string * Bucket).

(** [Math.ceil(n / 1000)] *)
Definition ceilDiv (n : Z) : Z := - (- n / 1000).
Definition decimal (n : Z) : string := toStr (JNum n).

Section limiter.
Context (config : CoordinatorConfig).

Definition limitMax : Z := Z.max 1 config.(writeRateLimitMax).
Definition windowMs : Z := Z.max 1000 config.(writeRateLimitWindowMs).

(** One request of the client [key] at [now]: refused, or let through with the
    headers it sets. *)
Definition limitKey (buckets : Buckets) (key : string) (now : Z) : (Response + list (string * string)) * Buckets :=
  let passed bucket :=
    [("X-RateLimit-Limit", decimal limitMax); ("X-RateLimit-Remaining", decimal (Z.max 0 (limitMax - bucket.(b_count))));
     ("X-RateLimit-Reset", decimal (ceilDiv bucket.(b_windowEndMs)))]%string in
  let fresh := mkBucket 1 (now + windowMs) in
  match mget key buckets with
  | None => (inr (passed fresh), mset key fresh buckets)
  | Some bucket =>
      if bucket.(b_windowEndMs) <=? now then (inr (passed fresh), mset key fresh buckets)
      else if limitMax <=? bucket.(b_count) then
        let resetSec := Z.max 0 (ceilDiv (bucket.(b_windowEndMs) - now)) in
        (inl (mkResponse 429 [("Retry-After", decimal resetSec); ("X-RateLimit-Limit", decimal limitMax); ("X-RateLimit-Remaining", "0");
                              ("X-RateLimit-Reset", decimal (ceilDiv bucket.(b_windowEndMs)))]%string
                         (JObj [("error"%string, JStr "rate limit exceeded")])), buckets)
      else
        let bucket := mkBucket (bucket.(b_count) + 1) bucket.(b_windowEndMs) in
        (inr (passed bucket), mset key bucket buckets)
  end.

Definition writeRateLimiter (buckets : Buckets) (req : Request) (now : Z) : (Response + list (string * string)) * Buckets :=
  if negb config.(writeRateLimitEnabled) then (inr [], buckets)
  else limitKey buckets (getClientId req (default 1 config.(trustedProxyHops))) now.

(** [...writeGuards] *)
Definition writeGuards (buckets : Buckets) (req : Request) (now : Z) : (Response + list (string * string)) * Buckets :=
  match writeAuthGuard config req with
  | Some r => (inl r, buckets)
  | None => writeRateLimiter buckets req now
  end.

(** ** Who a request is counted for *)

Lemma splitComma_nonempty l : splitComma l ≠ [].
Proof. destruct l as [|c l]; [done|]. cbn [splitComma]. case_bool_decide; [done|]. by destruct (splitComma l). Qed.

Lemma splitComma_app l k : splitComma (l ++ ","%char :: k) = splitComma l ++ splitComma k.
Proof.
  induction l as [|c l IH]; cbn [app splitComma]; [done|]. rewrite IH. case_bool_decide; [done|].
  pose proof (splitComma_nonempty l) as Hn. by destruct (splitComma l) as [|p ps].
Qed.

Lemma commaList_app l k : commaList (l ++ ","%char :: k) = commaList l ++ commaList k.
Proof. unfold commaList. by rewrite splitComma_app, map_app, List.filter_app. Qed.

Lemma splitComma_one l : ","%char ∉ l → splitComma l = [l].
Proof.
  induction l as [|c l IH]; [done|]. intros [Hc Hl]%not_elem_of_cons. cbn [splitComma]. rewrite bool_decide_false by congruence. by rewrite IH.
Qed.

(** What a proxy appends: an address, without commas or blanks around it. *)
Definition address_like (p : list ascii) : Prop := p ≠ [] ∧ trim p = p ∧ ","%char ∉ p.

Lemma commaList_one p : address_like p → commaList p = [p].
Proof. intros (Hn & Ht & Hc). unfold commaList. rewrite splitComma_one by done. cbn. rewrite Ht. by destruct p. Qed.

(** The header after the proxies have appended the addresses they saw. *)
Fixpoint appended (fromClient : list ascii) (peers : list (list ascii)) : list ascii :=
  match peers with [] => fromClient | p :: peers => appended (fromClient ++ chars ", " ++ p) peers end.

Lemma trim_space p : trim (" "%char :: p) = trim p.
Proof. done. Qed.

Lemma commaList_appended fromClient peers : Forall address_like peers → commaList (appended fromClient peers) = commaList fromClient ++ peers.
Proof.
  intros H. revert fromClient. induction H as [|p peers Hp Hps IH]; intros fc; cbn [appended]; [by rewrite app_nil_r|].
  rewrite IH. change (chars ", ") with [","%char; " "%char]. cbn [app]. rewrite commaList_app, <-app_assoc. f_equal. cbn [app].
  destruct Hp as (Hn & Ht & Hc). unfold commaList. rewrite splitComma_one; [|apply not_elem_of_cons; done].
  cbn [map List.filter]. rewrite trim_space, Ht. by destruct p.
Qed.

Lemma text_chars s : text (chars s) = s.
Proof. apply String.string_of_list_ascii_of_string. Qed.
Lemma chars_text l : chars (text l) = l.
Proof. apply String.list_ascii_of_string_of_list_ascii. Qed.

(** A client cannot choose whom its requests are counted for.  Behind [n]
    trusted proxies, each appending the address it received the request from,
    the client is the address the first of them saw, whatever the
    X-Forwarded-For header said before; without a trusted proxy the header is
    not looked at. *)
Theorem clientIp_unspoofable fromClient first rest direct :
  Forall address_like (first :: rest) →
  clientIpFromForwarded (Some (OneHeader (text (appended fromClient (first :: rest))))) direct (Z.of_nat (S (length rest))) = text first ∧
  ∀ h hops, hops <= 0 → clientIpFromForwarded h direct hops = orString direct "unknown".
Proof.
  intros Hp. split; [|intros h hops Hh; unfold clientIpFromForwarded; by rewrite (proj2 (Z.leb_le _ _) Hh)].
  unfold clientIpFromForwarded. rewrite (proj2 (Z.leb_gt _ _)) by lia. cbv zeta.
  rewrite chars_text, (commaList_appended fromClient (first :: rest) Hp). rewrite length_app. cbn [length].
  rewrite bool_decide_false; [|]. 
  - rewrite (proj2 (Nat.eqb_neq _ 0)) by lia. replace (Z.of_nat (length (commaList fromClient) + S (length rest)) - Z.of_nat (S (length rest))) with (Z.of_nat (length (commaList fromClient))) by lia.
    rewrite (proj2 (Z.ltb_ge _ 0)) by lia. rewrite Nat2Z.id. rewrite lookup_app_r, Nat.sub_diag by lia. done.
  - intros E. apply (f_equal (λ s, commaList (chars s))) in E. rewrite chars_text, (commaList_appended fromClient (first :: rest) Hp) in E. cbn in E. by destruct (commaList fromClient).
Qed.

(** ** How much a client gets through *)

(** The times at which requests of [k] are let through. *)
Fixpoint admitted (k : string) (buckets : Buckets) (reqs : list (string * Z)) : list Z :=
  match reqs with
  | [] => []
  | (key, now) :: reqs =>
      let '(r, buckets') := limitKey buckets key now in
      let rest := admitted k buckets' reqs in
      match r with inr _ => if bool_decide (key = k) then now :: rest else rest | inl _ => rest end
  end.

(** How many of them are in the window that begins at [t]. *)
Definition within (t s : Z) : bool := (t <=? s) && (s <? t + windowMs).
Definition letThrough (t : Z) (l : list Z) : Z := Z.of_nat (length (List.filter (within t) l)).

Definition counted (b : Bucket) : Prop := 0 <= b.(b_count) <= limitMax.
Definition counts_ok (buckets : Buckets) : Prop := ∀ key b, mget key buckets = Some b → counted b.
Definition after (s : Z) (reqs : list (string * Z)) : Prop := Forall (λ r, s <= r.2) reqs.

Lemma limitMax_pos : 1 <= limitMax.
Proof. unfold limitMax. lia. Qed.
Lemma windowMs_pos : 1000 <= windowMs.
Proof. unfold windowMs. lia. Qed.

Lemma letThrough_cons t s l : letThrough t (s :: l) = (if within t s then 1 else 0) + letThrough t l.
Proof. unfold letThrough. cbn [List.filter]. destruct (within t s); cbn [length]; lia. Qed.

(** What one request does to the buckets. *)
Inductive limited (buckets : Buckets) (key : string) (now : Z) : (Response + list (string * string)) → Buckets → Prop :=
| lim_fresh hs : (∀ b, mget key buckets = Some b → b.(b_windowEndMs) <= now) →
    limited buckets key now (inr hs) (mset key (mkBucket 1 (now + windowMs)) buckets)
| lim_count b hs : mget key buckets = Some b → now < b.(b_windowEndMs) → b.(b_count) < limitMax →
    limited buckets key now (inr hs) (mset key (mkBucket (b.(b_count) + 1) b.(b_windowEndMs)) buckets)
| lim_refuse b r : mget key buckets = Some b → now < b.(b_windowEndMs) → limitMax <= b.(b_count) →
    r.(rs_status) = 429 → rs_headers r !! 0%nat = Some ("Retry-After"%string, decimal (Z.max 0 (ceilDiv (b.(b_windowEndMs) - now)))) →
    limited buckets key now (inl r) buckets.

Lemma limitKey_limited buckets key now : limited buckets key now (limitKey buckets key now).1 (limitKey buckets key now).2.
Proof.
  unfold limitKey. cbv zeta. destruct (mget key buckets) as [b|] eqn:E; [|apply lim_fresh; congruence].
  destruct (Z.leb_spec b.(b_windowEndMs) now); [apply lim_fresh; intros b' [= <-]%(eq_trans (eq_sym E)); done|].
  destruct (Z.leb_spec limitMax b.(b_count)); [by apply (lim_refuse _ _ _ b)|by apply (lim_count _ _ _ b)].
Qed.

Lemma limited_ok buckets key now r buckets' : limited buckets key now r buckets' → counts_ok buckets → counts_ok buckets'.
Proof.
  intros H Hok. pose proof limitMax_pos. destruct H as [hs Hf|b hs E Hlt Hc|b r0 E Hlt Hc]; [| |done]; intros key' b'; rewrite mget_set; case_decide; try by apply Hok.
  - intros [= <-]. unfold counted. cbn. lia.
  - intros [= <-]. pose proof (Hok key b E) as [? ?]. unfold counted. cbn. lia.
Qed.

Lemma admitted_late k t reqs buckets : after (t + windowMs) reqs → letThrough t (admitted k buckets reqs) = 0.
Proof.
  intros H. revert buckets. induction H as [|[key now] reqs Hn Hr IH]; intros buckets; cbn [admitted]; [done|].
  destruct (limitKey buckets key now) as [[r|hs] bs]; [apply IH|]. case_bool_decide; [|apply IH]. rewrite letThrough_cons, IH.
  unfold within. cbn in Hn. by rewrite (proj2 (Z.ltb_ge _ _)), andb_false_r.
Qed.

(** The bounds for the rest of a run, by the end of the current window. *)
Definition budget (k : string) (t : Z) (buckets : Buckets) (n : Z) : Prop :=
  n <= 2 * limitMax ∧
  (∀ b, mget k buckets = Some b → t <= b.(b_windowEndMs) → n <= 2 * limitMax - b.(b_count)) ∧
  (∀ b, mget k buckets = Some b → t + windowMs <= b.(b_windowEndMs) → n <= limitMax - b.(b_count)).

Lemma admitted_budget k t reqs buckets : counts_ok buckets → StronglySorted (λ r r', r.2 <= r'.2) reqs →
  budget k t buckets (letThrough t (admitted k buckets reqs)).
Proof.
  intros Hok Hs. revert buckets Hok. induction Hs as [|[key now] reqs Hs IH Ha]; intros buckets Hok; cbn [admitted].
  - pose proof limitMax_pos. unfold letThrough. cbn. split; [lia|]. split; intros b Eb _; pose proof (Hok k b Eb) as [? ?]; lia.
  - pose proof (limitKey_limited buckets key now) as Hl. destruct (limitKey buckets key now) as [r bs]. cbn [fst snd] in Hl.
    pose proof (IH bs (limited_ok _ _ _ _ _ Hl Hok)) as (I1 & I2 & I3). pose proof limitMax_pos as Hpos. pose proof windowMs_pos as Hw.
    assert (Hlate : t + windowMs <= now → letThrough t (admitted k bs reqs) = 0).
    { intros Hge. apply admitted_late. eapply Forall_impl; [exact Ha|]. intros x. cbn. lia. }
    destruct (decide (key = k)) as [->|Hne].
    + destruct Hl as [hs Hf|b hs E Hlt Hc|b r E Hlt Hc _ _].
      * rewrite bool_decide_true, letThrough_cons by done. rewrite mget_set, decide_True in I2, I3 by done.
        specialize (I2 _ eq_refl). specialize (I3 _ eq_refl). cbn in I2, I3. unfold within.
        destruct (Z.leb_spec t now), (Z.ltb_spec now (t + windowMs)); cbn [andb];
          (split; [lia|]; split; intros b' Eb Hb; pose proof (Hf b' Eb); pose proof (Hok k b' Eb) as [? ?]; lia).
      * rewrite bool_decide_true, letThrough_cons by done. rewrite mget_set, decide_True in I2, I3 by done.
        specialize (I2 _ eq_refl). specialize (I3 _ eq_refl). cbn in I2, I3. pose proof (Hok k b E) as [? ?]. unfold within.
        destruct (Z.leb_spec t now), (Z.ltb_spec now (t + windowMs)); cbn [andb];
          (split; [lia|]; split; intros b' Eb Hb; rewrite E in Eb; injection Eb as <-; lia).
      * split; [done|]. split; done.
    + destruct Hl as [hs Hf|b hs E Hlt Hc|b r E Hlt Hc _ _]; [| |done]; rewrite bool_decide_false by done;
        rewrite mget_set, decide_False in I2, I3 by done; done.
Qed.

(** C35. The rate limiter.  For requests in the order of their times, in any stretch
    of time as long as a window the requests of one client that are let
    through are at most twice the limit; and a refusal tells the client the
    truth: after the seconds of its Retry-After header the next request is let
    through. *)
Theorem rate_limited k t reqs : StronglySorted (λ r r', r.2 <= r'.2) reqs →
  letThrough t (admitted k [] reqs) <= 2 * limitMax ∧
  ∀ buckets now r buckets', limitKey buckets k now = (inl r, buckets') →
    r.(rs_status) = 429 ∧ ∃ secs, 0 <= secs ∧ rs_headers r !! 0%nat = Some ("Retry-After"%string, decimal secs) ∧
    ∀ now', now + secs * 1000 <= now' → ∃ hs, (limitKey buckets' k now').1 = inr hs.
Proof.
  intros Hs. split; [apply admitted_budget; [by intros ?|done]|]. intros buckets now r buckets' E.
  pose proof (limitKey_limited buckets k now) as Hl. rewrite E in Hl. cbn [fst snd] in Hl. inversion Hl as [| |b r0 Eb Hlt Hc Hst Hh]; subst.
  split; [done|]. eexists. split; [apply Z.le_max_l|]. split; [exact Hh|]. intros now' Hn.
  assert (b_windowEndMs b <= now').
  { unfold ceilDiv in Hn. pose proof (Z.div_mod (- (b_windowEndMs b - now)) 1000 ltac:(done)). pose proof (Z.mod_pos_bound (- (b_windowEndMs b - now)) 1000 ltac:(done)). lia. }
  unfold limitKey. cbv zeta. rewrite Eb, (proj2 (Z.leb_le _ _)) by done. by eexists.
Qed.
End limiter.

Lemma clientIp_unspoofable_witness :
  clientIpFromForwarded (Some (OneHeader "1.1.1.1, 6.6.6.6, 9.9.9.9, 10.0.0.1")) "127.0.0.1" 2 = "9.9.9.9"%string.
Proof.
  refine (proj1 (clientIp_unspoofable (chars "1.1.1.1, 6.6.6.6") (chars "9.9.9.9") [chars "10.0.0.1"] "127.0.0.1" _)).
  repeat constructor; try (intros E; discriminate E); by eapply bool_decide_eq_false_1; vm_compute.
Defined.

(** Two writes per second. *)
Definition toy_guard_config : CoordinatorConfig :=
  mkCoordConfig "h" 1 None false 1 1 1 false None true 2 1000 (Some 1) (CoordFaucet.mkFaucetConfig false None "5" "chip" 10 10 "a" "0" "rpc" "lcd").

Lemma rate_limited_witness :
  admitted toy_guard_config "c" [] [("c", 900); ("c", 950); ("c", 999); ("c", 1900); ("c", 1901)]%string = [900; 950; 1900; 1901] ∧
  letThrough toy_guard_config 950 (admitted toy_guard_config "c" [] [("c", 900); ("c", 950); ("c", 999); ("c", 1900); ("c", 1901)]%string) <= 4.
Proof.
  split; [vm_compute; reflexivity|].
  refine (proj1 (rate_limited toy_guard_config "c" 950 [("c", 900); ("c", 950); ("c", 999); ("c", 1900); ("c", 1901)]%string _)).
  repeat (constructor; [|repeat (constructor; [cbn; lia|]); constructor]). constructor.
Defined.
End CoordGuards.
