(* ===== verification/CoordDealer.v ===== *)
(** * What the coordinator tells about a hand's dealing: the dealer routes of
      [apps/coordinator/src/http.ts]

    The routes read the table, the epoch and the dealer's hand from the chain
    and answer what is to be done next.  A query that fails or finds nothing
    is [JNull]; [query] is [None] for a chain adapter without queries.
    [locale_le] is [localeCompare] of the platform. *)
From stdpp Require Import base option list strings gmap.
From Stdlib Require Import ZArith Lia Ascii Sorting.Sorted.
From S2P Require Import Prelude OcpBytes OcpGroup OcpTranscript OcpProofs OcpProofsThms Json Monads DealerTypes DealerDkg DealerShares DealerLemmas DealerDaemon CoordConfig CoordGuards.
Import Bytes Json CoordConfig CoordGuards.

Module CoordDealer.

(** Numbers are integers here: a text with a fraction or an exponent, which
    [Number] accepts, counts as no number. *)
Definition asNumber (x : json) : option Z :=
  match x with
  | JNum z => Some z
  | JStr s => if bool_decide (trimmed s = EmptyString) then None else stringToBigInt s
  | _ => None
  end.

(** The loop over an array: every element an integer from 0 to 255. *)
Fixpoint u8s (l : list json) : option (list Z) :=
  match l with
  | [] => Some []
  | v :: l => match asNumber v with
              | Some n => if (n <? 0) || (255 <? n) then None else (λ r, n :: r) <$> u8s l
              | None => None
              end
  end.

(** [encodeURIComponent] *)
Definition unreserved (c : ascii) : bool :=
  let n := nat_of_ascii c in
  ((48 <=? n) && (n <=? 57) || (65 <=? n) && (n <=? 90) || (97 <=? n) && (n <=? 122))%nat || bool_decide (c ∈ chars "-_.!~*'()").
Definition upperHex (n : Z) : ascii := if n <? 10 then ascii_of_nat (Z.to_nat (48 + n)) else ascii_of_nat (Z.to_nat (55 + n)).
Definition encodeURIComponent (s : string) : string :=
  text (flat_map (λ c, if unreserved c then [c]
                       else let n := Z.of_nat (nat_of_ascii c) in ["%"%char; upperHex (n / 16); upperHex (n mod 16)]) (chars s)).

Section dealer.
Context (base64 : list ascii → bytes) (locale_le : string → string → bool).

Definition decodeU8Array (raw : json) : option (list Z) :=
  match raw with
  | JArr l => u8s l
  | JStr s => if bool_decide (s = EmptyString) then None else Some (base64 (chars s))
  | _ => None
  end.

Definition isPhase (phase : string) (names : list string) : bool := bool_decide (phase ∈ names).

(** The positions of the hole cards of the seats in the hand. *)
Definition eligible (inHand folded : list json) (holePos : list Z) : list Z :=
  flat_map (λ seat,
    if negb (truthy (rd JUndefined inHand seat)) || truthy (rd JUndefined folded seat) then []
    else omap (λ c, match holePos !! (seat * 2 + c)%nat with Some p => if p =? 255 then None else Some p | None => None end) [0; 1]%nat)
    (seq 0 9).

Definition v0ExpectedRevealPos (table : json) : option Z :=
  let h := field table "hand" in
  let dh := field h "dealer" in
  if negb (truthy h) || negb (truthy dh) then None
  else if negb (truthy (orElse (field dh "deckFinalized") (field dh "deck_finalized"))) then None
  else
    let phase := toStr (orElse (field h "phase") (JStr EmptyString)) in
    if isPhase phase ["awaitFlop"; "awaitTurn"; "awaitRiver"; "HAND_PHASE_AWAIT_FLOP"; "HAND_PHASE_AWAIT_TURN"; "HAND_PHASE_AWAIT_RIVER"]%string then
      let cursor := default 0 (asNumber (field dh "cursor")) in
      let boardLen := Z.of_nat (length (default [] (decodeU8Array (field h "board")))) in
      Some (cursor + boardLen)
    else if isPhase phase ["awaitShowdown"; "HAND_PHASE_AWAIT_SHOWDOWN"]%string then
      match decodeU8Array (orElse (field dh "holePos") (field dh "hole_pos")) with
      | None => None
      | Some holePos =>
          if negb (length holePos =? 18)%nat then None
          else
            let reveals := omap (λ r, asNumber (field r "pos")) (elems (field dh "reveals")) in
            let inHand := elems (orElse (field h "inHand") (field h "in_hand")) in
            List.find (λ p, negb (existsb (Z.eqb p) reveals)) (sort_by Z.leb (eligible inHand (elems (field h "folded")) holePos))
      end
    else None.

(** ** The routes *)

Context (query : option (string → json)).

(** [result?.k ?? result], and [null] when it is falsy *)
Definition unwrap (result : json) (k : string) : option json :=
  let r := orElse (field result k) result in if truthy r then Some r else None.

Definition fetchTable (q : string → json) (tableId : string) : option json :=
  unwrap (q ("/onchainpoker/poker/v1/tables/" +:+ encodeURIComponent tableId)) "table".
Definition fetchEpoch (q : string → json) : option json := unwrap (q "/onchainpoker/dealer/v1/epoch"%string) "epoch".

Definition getTableRoute (tableIdParam : string) : Response :=
  match query with
  | None => error 400 "chain adapter does not support v0 table queries"
  | Some q =>
      let tableId := trimmed tableIdParam in
      if bool_decide (tableId = EmptyString) then error 400 "tableId required"
      else match fetchTable q tableId with
           | None => error 404 "not found"
           | Some table => okJson (JObj [("table"%string, table)])
           end
  end.

Definition getEpochRoute : Response :=
  match query with
  | None => error 400 "chain adapter does not support dealer epoch queries"
  | Some q => match fetchEpoch q with
              | None => error 404 "no active epoch"
              | Some epoch => okJson (JObj [("epoch"%string, epoch)])
              end
  end.

(** [validatorId ?? validator_id ?? validator] *)
Definition memberId (m : json) : json := orElse (field m "validatorId") (orElse (field m "validator_id") (field m "validator")).
Definition memberIndex (m : json) : Z := default 0 (jsNumber (orElse (field m "index") (JNum 0))).
Definition slashedIds (epoch : option json) : list string := match epoch with Some e => map toStr (elems (field e "slashed")) | None => [] end.
Definition isSlashed (slashed : list string) (m : json) : bool := bool_decide (toStr (memberId m) ∈ slashed).

Definition memberLe (a b : json) : bool :=
  let name m := toStr (orElse (field m "validatorId") (orElse (field m "validator_id") (JStr EmptyString))) in
  (memberIndex a <? memberIndex b) || ((memberIndex a =? memberIndex b) && locale_le (name a) (name b)).

(** The qualified members in the order of their turns. *)
Definition qualified (epoch : json) : list json :=
  sort_by memberLe (List.filter (λ m, negb (isSlashed (slashedIds (Some epoch)) m)) (elems (field epoch "members"))).

(** The epoch, unless the hand is of another. *)
Definition relevantEpoch (epoch : option json) (dh : json) : option json :=
  match epoch, asNumber (orElse (field dh "epochId") (field dh "epoch_id")) with
  | Some e, Some id => if bool_decide (asNumber (orElse (field e "epochId") (field e "epoch_id")) = Some id) then Some e else None
  | e, _ => e
  end.

Definition hasMembers (epoch : option json) : bool := match epoch with Some e => negb (length (elems (field e "members")) =? 0)%nat | None => false end.

(** [qual[shuffleStep]] *)
Definition suggested (epoch : json) (shuffleStep : Z) : option json :=
  if shuffleStep <? 0 then None else qualified epoch !! Z.to_nat shuffleStep.

Definition shuffleAction (epoch : option json) (dh : json) : json :=
  let shuffleStep := default 0 (asNumber (orElse (field dh "shuffleStep") (field dh "shuffle_step"))) in
  let '(suggestedShuffler, canFinalize) :=
    match epoch with
    | Some e => if hasMembers epoch then
                  let pick := default JUndefined (suggested e shuffleStep) in
                  (orElse (field pick "validatorId") (orElse (field pick "validator_id") JNull), Z.of_nat (length (qualified e)) <=? shuffleStep)
                else (JNull, 0 <? shuffleStep)
    | None => (JNull, 0 <? shuffleStep)
    end in
  JObj [("kind", JStr "shuffle"); ("shuffleStep", JNum shuffleStep); ("nextRound", JNum (shuffleStep + 1));
        ("suggestedShuffler", suggestedShuffler); ("canFinalize", JBool canFinalize)]%string.

(** The validators whose share of [pos] is on the chain, each once. *)
Definition seenShares (dh : json) (pos : Z) : list string :=
  let pubShares := elems (orElse (field dh "pubShares") (field dh "pub_shares")) in
  remove_dups (omap (λ ps, let vid := toStr (orElse (field ps "validatorId") (orElse (field ps "validator_id") (JStr EmptyString))) in
                if bool_decide (asNumber (field ps "pos") = Some pos) && negb (bool_decide (vid = EmptyString)) then Some vid else None) pubShares).

Definition numberOrNull (n : option Z) : json := match n with Some z => JNum z | None => JNull end.

Definition revealAction (epoch : option json) (dh : json) (pos : Z) : json :=
  let seen := seenShares dh pos in
  let missing := match epoch with
                 | Some e => if hasMembers epoch then
                               JArr (List.filter (λ vid, negb (bool_decide (toStr vid ∈ seen)))
                                       (map memberId (List.filter (λ m, negb (isSlashed (slashedIds epoch) m)) (elems (field e "members")))))
                             else JNull
                 | None => JNull
                 end in
  JObj [("kind", JStr "reveal"); ("pos", JNum pos); ("havePubShares", JNum (Z.of_nat (length seen)));
        ("threshold", match epoch with Some e => numberOrNull (asNumber (field e "threshold")) | None => JNull end); ("missingValidatorIds", missing)]%string.

Definition noAction (reason : string) : json := JObj [("kind", JStr "none"); ("reason", JStr reason)]%string.

(** The answer of [dealer/next] from the table and the epoch. *)
Definition nextAction (table : json) (epoch : option json) : option Z * json :=
  let h := field table "hand" in
  let dh := field h "dealer" in
  let handId := asNumber (orElse (field h "handId") (field h "hand_id")) in
  let phase := toStr (orElse (field h "phase") (JStr EmptyString)) in
  let epoch := relevantEpoch epoch dh in
  if negb (truthy h) || negb (truthy dh) || match handId with Some z => z =? 0 | None => true end then (None, noAction "no active dealer hand")
  else if isPhase phase ["shuffle"; "HAND_PHASE_SHUFFLE"]%string then (handId, shuffleAction epoch dh)
  else match v0ExpectedRevealPos table with
       | Some pos => (handId, revealAction epoch dh pos)
       | None => (handId, noAction "hand not awaiting dealer action")
       end.

Definition dealerNextRoute (tableIdParam : string) : Response :=
  match query with
  | None => error 400 "chain adapter does not support v0 dealer queries"
  | Some q =>
      let tableId := trimmed tableIdParam in
      if bool_decide (tableId = EmptyString) then error 400 "tableId required"
      else match fetchTable q tableId with
           | None => error 404 "not found"
           | Some table =>
               let '(handId, action) := nextAction table (fetchEpoch q) in
               okJson (JObj ([("tableId"%string, JStr tableId)] ++ match handId with Some z => [("handId"%string, JNum z)] | None => [] end ++ [("action"%string, action)]))
           end
  end.

(** ** The dealer's hand *)

Definition fetchDealerHand (tableId handId : string) : option json :=
  match query with
  | None => None
  | Some q =>
      let r := field (q ("/onchainpoker/dealer/v1/tables/" +:+ encodeURIComponent tableId +:+ "/hands/" +:+ encodeURIComponent handId)%string) "hand" in
      if truthy r then Some r else None
  end.

(** The poker module's record of the hand [handId]. *)
Definition tableDealer (q : string → json) (tableId handId : string) : Response + json :=
  match fetchTable q tableId with
  | None => inl (error 404 "table not found")
  | Some table =>
      let hand := field table "hand" in
      let dh := field hand "dealer" in
      if negb (truthy dh) || negb (bool_decide (toStr (orElse (field hand "handId") (orElse (field hand "hand_id") (JStr EmptyString))) = handId))
      then inl (error 404 "dealer hand not found") else inr dh
  end.

Definition dealerHandRoute (tableIdParam handIdParam : string) : Response :=
  match query with
  | None => error 400 "chain adapter does not support dealer queries"
  | Some q =>
      let tableId := trimmed tableIdParam in
      let handId := trimmed handIdParam in
      if bool_decide (tableId = EmptyString) || bool_decide (handId = EmptyString) then error 400 "tableId and handId required"
      else match tableDealer q tableId handId with
           | inl r => r
           | inr dh => okJson (JObj [("hand", dh); ("tableId", JStr tableId); ("handId", JStr handId)]%string)
           end
  end.

Definition holePositionsRoute (tableIdParam handIdParam seatParam : string) : Response :=
  match query with
  | None => error 400 "chain adapter does not support dealer queries"
  | Some q =>
      let tableId := trimmed tableIdParam in
      let handId := trimmed handIdParam in
      let bad := error 400 "tableId, handId, and seat (0-8) required" in
      match asNumber (JStr seatParam) with
      | None => bad
      | Some seat =>
          if bool_decide (tableId = EmptyString) || bool_decide (handId = EmptyString) || (seat <? 0) || (8 <? seat) then bad
          else match tableDealer q tableId handId with
               | inl r => r
               | inr dh =>
                   match decodeU8Array (orElse (field dh "holePos") (field dh "hole_pos")) with
                   | None => error 404 "hole positions not available"
                   | Some holePos =>
                       if negb (length holePos =? 18)%nat then error 404 "hole positions not available"
                       else okJson (JObj [("pos0", JNum (rd 0 holePos (Z.to_nat (seat * 2)))); ("pos1", JNum (rd 0 holePos (Z.to_nat (seat * 2 + 1))))]%string)
                   end
               end
      end
  end.

(** [String(a ?? b ?? ... ?? "")] *)
Definition firstString (obj : json) (keys : list string) : json :=
  JStr (toStr (foldr (λ k r, orElse (field obj k) r) (JStr EmptyString) keys)).

Definition shareOf (s : json) : json :=
  JObj [("validator", firstString s ["validator"; "validatorId"; "validator_id"]); ("index", JNum (default 0 (asNumber (field s "index"))));
        ("encShare", firstString s ["encShare"; "enc_share"]); ("proofEncShare", firstString s ["proof"; "proofEncShare"; "proof_enc_share"]);
        ("pkPlayer", firstString s ["pkPlayer"; "pk_player"])]%string.

(** The guard the two routes below share: the ids and the position. *)
Definition dealerPos (tableIdParam handIdParam posParam : string) (k : json → Z → Response) : Response :=
  match query with
  | None => error 400 "chain adapter does not support dealer queries"
  | Some _ =>
      let tableId := trimmed tableIdParam in
      let handId := trimmed handIdParam in
      let bad := error 400 "tableId, handId, and pos required" in
      match asNumber (JStr posParam) with
      | None => bad
      | Some pos =>
          if bool_decide (tableId = EmptyString) || bool_decide (handId = EmptyString) || (pos <? 0) then bad
          else match fetchDealerHand tableId handId with
               | None => error 404 "dealer hand not found"
               | Some dh => k dh pos
               end
      end
  end.

Definition encSharesRoute (tableIdParam handIdParam posParam : string) : Response :=
  dealerPos tableIdParam handIdParam posParam (λ dh pos,
    let encShares := elems (orElse (field dh "encShares") (field dh "enc_shares")) in
    let filtered := List.filter (λ s, bool_decide (asNumber (field s "pos") = Some pos)) encShares in
    okJson (JObj [("shares"%string, JArr (map shareOf filtered))])).

Definition ciphertextRoute (tableIdParam handIdParam posParam : string) : Response :=
  dealerPos tableIdParam handIdParam posParam (λ dh pos,
    let entry := rd JUndefined (elems (field dh "deck")) (Z.to_nat pos) in
    if negb (truthy entry) then error 404 ("deck position " +:+ decimal pos +:+ " not found")
    else okJson (JObj [("c1", firstString entry ["c1"]); ("c2", firstString entry ["c2"])]%string)).
End dealer.

End CoordDealer.

(** * What the chain awaits: [apps/cosmos/x/poker/keeper/logic.go]

    The part of the poker keeper that says which card of a dealt hand is to be
    revealed next and writes it to the table ([RevealPos]).  The records have
    the fields it reads; the texts of the errors are shortened. *)
Module ChainReveal.

Inductive HandPhase := UNSPECIFIED | SHUFFLE | BETTING | AWAIT_FLOP | AWAIT_TURN | AWAIT_RIVER | AWAIT_SHOWDOWN | SHOWDOWN.

Record DealerMeta := mkMeta { deckSize : Z; deckFinalized : bool; holePos : list Z; cursor : Z; revealPos : Z; revealDeadline : Z }.
Record Hand := mkHand { phase : HandPhase; board : list Z; inHand : list bool; folded : list bool; dealer : option DealerMeta }.
(** [seats]: the public hole cards of each seat that is taken. *)
Record Table := mkTable { p_dealerTimeoutSecs : Z; seats : list (option (list Z)); hand : option Hand }.

Definition MaxInt64 : Z := 2 ^ 63 - 1.

Definition addInt64AndU64Checked (base delta : Z) (field : string) : result string Z :=
  if MaxInt64 <? delta then Err (field +:+ " overflows int64")%string
  else if MaxInt64 - delta <? base then Err (field +:+ " overflows int64")%string
  else Ok (base + delta).

Definition dealerEligibleShowdownHolePositions (h : Hand) (dh : DealerMeta) : result string (list Z) :=
  if negb (length dh.(holePos) =? 18)%nat then Err "holePos not initialized"%string
  else
    let pos := flat_map (λ seat, if negb (rd false h.(inHand) seat) || rd false h.(folded) seat then []
                                 else [rd 0 dh.(holePos) (seat * 2); rd 0 dh.(holePos) (seat * 2 + 1)]) (seq 0 9) in
    if existsb (Z.eqb 255) pos then Err "holePos unset for seat"%string else Ok (sort_by Z.leb pos).

Definition dealerPosToSeatHole (holePos : list Z) (pos : Z) : option (nat * nat) :=
  if negb (length holePos =? 18)%nat then None
  else head (flat_map (λ s, flat_map (λ c, if rd 0 holePos (s * 2 + c) =? pos then [(s, c)] else []) [0; 1]%nat) (seq 0 9)).

(** The card at this position is a hole card that is not yet public. *)
Definition hidden (t : Table) (dh : DealerMeta) (p : Z) : bool :=
  match dealerPosToSeatHole dh.(holePos) p with
  | Some (seat, holeIdx) => match t.(seats) !! seat with
                            | Some (Some hole) => (length hole =? 2)%nat && (rd 0 hole holeIdx =? 255)
                            | _ => false
                            end
  | None => false
  end.

Definition dealerNextShowdownHolePos (t : Table) (h : Hand) (dh : DealerMeta) : result string (option Z) :=
  let! pos := dealerEligibleShowdownHolePositions h dh in Ok (List.find (hidden t dh) pos).

(** The next card of the board; [uint32] wraps. *)
Definition boardPos (h : Hand) (dh : DealerMeta) (fits : bool) : result string (option Z) :=
  if negb fits then Err "await phase but wrong number of board cards"%string
  else
    let pos := (dh.(cursor) + Z.of_nat (length h.(board))) mod 2 ^ 32 in
    if dh.(deckSize) <=? pos then Err "board pos out of bounds"%string else Ok (Some pos).

Definition dealerExpectedRevealPos (t : Table) : result string (option Z) :=
  match t.(hand) with
  | None => Ok None
  | Some h =>
      match h.(dealer) with
      | None => Ok None
      | Some dh =>
          let n := length h.(board) in
          if negb dh.(deckFinalized) then Err "deck not finalized"%string
          else if dh.(deckSize) =? 0 then Err "empty dealer deck"%string
          else match h.(phase) with
               | AWAIT_FLOP => boardPos h dh (n <=? 2)%nat
               | AWAIT_TURN => boardPos h dh (n =? 3)%nat
               | AWAIT_RIVER => boardPos h dh (n =? 4)%nat
               | AWAIT_SHOWDOWN => if negb (n =? 5)%nat then Err "awaitShowdown but wrong number of board cards"%string
                                   else dealerNextShowdownHolePos t h dh
               | _ => Ok None
               end
      end
  end.

Definition defaultDealerTimeoutSecs : Z := 120.
Definition tableDealerTimeoutSecs (t : Table) : Z :=
  if t.(p_dealerTimeoutSecs) =? 0 then defaultDealerTimeoutSecs else t.(p_dealerTimeoutSecs).

Definition set_reveal (pos deadline : Z) (t : Table) (h : Hand) (dh : DealerMeta) : Table :=
  mkTable t.(p_dealerTimeoutSecs) t.(seats)
    (Some (mkHand h.(phase) h.(board) h.(inHand) h.(folded)
      (Some (mkMeta dh.(deckSize) dh.(deckFinalized) dh.(holePos) dh.(cursor) pos deadline)))).

Definition setRevealDeadlineIfAwaiting (t : Table) (nowUnix : Z) : result string Table :=
  match t.(hand) with
  | None => Ok t
  | Some h =>
      match h.(dealer) with
      | None => Ok t
      | Some dh =>
          let! awaited := dealerExpectedRevealPos t in
          match awaited with
          | None => Ok (set_reveal 255 0 t h dh)
          | Some pos =>
              let to := tableDealerTimeoutSecs t in
              let! _ := throw_if (to =? 0) "invalid dealerTimeoutSecs"%string in
              let! deadline := addInt64AndU64Checked nowUnix to "reveal deadline" in
              Ok (set_reveal pos deadline t h dh)
          end
      end
  end.

End ChainReveal.

(** ** The coordinator and the dealer daemon agree on what is next

    Both decide, each with code of its own, which card is to be revealed and
    whose turn it is to shuffle.  On the tables of the chain they choose the
    same card of the board; in the showdown the coordinator stays with the
    first card while the daemons follow the chain; they choose the same
    shuffler as long as nobody before it was slashed. *)
Import Bytes Group Hashing Proofs ProofsThms Json ExceptM DealerTypes.

Module CoordDealerThms.

Lemma asNumber_same j : CoordDealer.asNumber j = DealerTypes.asNumber j.
Proof.
  destruct j; try done. cbn. unfold CoordConfig.trimmed, CoordConfig.chars, CoordConfig.text.
  destruct (trim (String.list_ascii_of_string s)) as [|c l]; [by rewrite bool_decide_true|by rewrite bool_decide_false].
Qed.

Lemma pick_two obj a b : orElse (field obj a) (field obj b) = if nullish (field obj a) then field obj b else field obj a.
Proof. done. Qed.

Lemma elems_pick obj a b : elems (pick obj [a; b]) = elems (orElse (field obj a) (field obj b)).
Proof. cbn [pick]. unfold orElse. destruct (nullish (field obj a)); [|done]. by destruct (field obj b). Qed.

Lemma truthy_pick obj a b : truthy (pick obj [a; b]) = truthy (orElse (field obj a) (field obj b)).
Proof. cbn [pick]. unfold orElse. destruct (nullish (field obj a)); [|done]. by destruct (field obj b). Qed.

Lemma u8s_numbers l k : CoordDealer.u8s l = Some k → omap DealerTypes.asNumber l = k ∧ length k = length l ∧ Forall (λ n, 0 <= n <= 255) k.
Proof.
  revert k. induction l as [|j l IH]; intros k; cbn [CoordDealer.u8s]; [intros [= <-]; by repeat constructor|].
  rewrite asNumber_same. destruct (DealerTypes.asNumber j) as [n|] eqn:En; [|done]. destruct (_ || _) eqn:E; [done|]. b2p.
  destruct (CoordDealer.u8s l) as [k'|]; [|done]. intros [= <-]. destruct (IH k' eq_refl) as (H1 & H2 & H3).
  split; [cbn; rewrite En; f_equal; exact H1|]. split; [cbn; lia|]. constructor; [lia|done].
Qed.

(** A table as the chain sends it: the names of the protocol buffers, bytes as
    arrays of small numbers. *)
Record chain_table (base64 : list ascii → bytes) (table : json) : Prop := {
  ct_finalized : nullish (field (field (field table "hand") "dealer") "finalized") = true;
  ct_phase : ∃ p, field (field table "hand") "phase" = JStr p ∧ p ∈
    ["HAND_PHASE_UNSPECIFIED"; "HAND_PHASE_SHUFFLE"; "HAND_PHASE_BETTING"; "HAND_PHASE_AWAIT_FLOP"; "HAND_PHASE_AWAIT_TURN";
     "HAND_PHASE_AWAIT_RIVER"; "HAND_PHASE_AWAIT_SHOWDOWN"; "HAND_PHASE_SHOWDOWN"]%string;
  ct_board : ∃ l k, field (field table "hand") "board" = JArr l ∧ CoordDealer.u8s l = Some k;
  ct_hole : ∃ l k, orElse (field (field (field table "hand") "dealer") "holePos") (field (field (field table "hand") "dealer") "hole_pos") = JArr l ∧
    CoordDealer.u8s l = Some k
}.

Lemma omap_ext_Forall {A B} (f g : A → option B) (l : list A) : Forall (λ x, f x = g x) l → omap f l = omap g l.
Proof. induction 1 as [|x l Hx _ IH]; [done|]. cbn. rewrite Hx. by rewrite IH. Qed.

Lemma eligible_same inHand folded holePos : Forall (λ n, 0 <= n <= 255) holePos →
  CoordDealer.eligible inHand folded holePos = Daemon.eligiblePositions inHand folded holePos.
Proof.
  intros Hp. unfold CoordDealer.eligible, Daemon.eligiblePositions. apply flat_map_ext. intros seat.
  destruct (_ || _); [done|]. cbn [omap list_omap]. rewrite Nat.add_0_r.
  assert (Hg : ∀ i, match holePos !! i with Some p => if p =? 255 then None else Some p | None => None end = Daemon.goodPos (holePos !! i)).
  { intros i. unfold Daemon.goodPos. destruct (holePos !! i) as [p|] eqn:E; [|done].
    apply (Forall_lookup_1 _ _ _ _ Hp) in E. rewrite (proj2 (Z.leb_le 0 p)) by lia. by destruct (p =? 255). }
  by rewrite !Hg.
Qed.

(** Where the chain gives no hint, daemon and coordinator compute the same
    position from the rest of the table. *)
Lemma reveal_pos_fallback base64 table : chain_table base64 table →
  Daemon.expectedRevealPos table =
  let dh := field (field table "hand") "dealer" in
  if negb (truthy (field table "hand")) || negb (truthy dh) || negb (truthy (orElse (field dh "deckFinalized") (field dh "deck_finalized"))) then None
  else match Daemon.goodPos (DealerTypes.asNumber (pick dh ["revealPos"; "reveal_pos"]%string)) with
       | Some hint => Some hint
       | None => CoordDealer.v0ExpectedRevealPos base64 table
       end.
Proof.
  intros [Hfin (p & Hp & Hin) (lb & kb & Hb & Hkb) (lh & kh & Hh & Hkh)]. unfold Daemon.expectedRevealPos, CoordDealer.v0ExpectedRevealPos. cbv zeta.
  set (h := field table "hand") in *. set (dh := field h "dealer") in *.
  destruct (negb (truthy h) || negb (truthy dh)); [done|]. cbn [orb].
  assert (Hf : truthy (pick dh ["finalized"; "deckFinalized"; "deck_finalized"]%string) = truthy (orElse (field dh "deckFinalized") (field dh "deck_finalized"))).
  { rewrite <-truthy_pick. cbn [pick]. by rewrite Hfin. }
  rewrite Hf. destruct (negb (truthy (orElse _ _))) eqn:Efin; [done|].
  destruct (Daemon.goodPos _); [done|]. rewrite Hp. cbn [orElse nullish toStr].
  rewrite elems_pick, Hh, Hb, elems_pick. cbn [elems CoordDealer.decodeU8Array]. rewrite Hkb, Hkh. cbn [from_option]. change (id kb) with kb.
  destruct (u8s_numbers lb kb Hkb) as (_ & -> & _). destruct (u8s_numbers lh kh Hkh) as (-> & _ & Hk8).
  rewrite <-(eligible_same _ _ kh Hk8), !asNumber_same.
  rewrite (omap_ext_Forall (λ r, CoordDealer.asNumber (field r "pos")) (λ r, DealerTypes.asNumber (field r "pos"))) by (apply Forall_true; intros r; apply asNumber_same).
  repeat (apply elem_of_cons in Hin as [->|Hin]); [..|by apply elem_of_nil in Hin]; try done.
Qed.

(** ** The card that the chain awaits *)

Import ChainReveal.

Definition phaseName (ph : HandPhase) : string :=
  match ph with
  | UNSPECIFIED => "HAND_PHASE_UNSPECIFIED" | SHUFFLE => "HAND_PHASE_SHUFFLE" | BETTING => "HAND_PHASE_BETTING"
  | AWAIT_FLOP => "HAND_PHASE_AWAIT_FLOP" | AWAIT_TURN => "HAND_PHASE_AWAIT_TURN" | AWAIT_RIVER => "HAND_PHASE_AWAIT_RIVER"
  | AWAIT_SHOWDOWN => "HAND_PHASE_AWAIT_SHOWDOWN" | SHOWDOWN => "HAND_PHASE_SHOWDOWN"
  end.

(** The table as the chain's REST gateway answers it, with the names of the
    protocol buffers in either spelling; [DealerMeta] has no [reveals] and no
    [finalized]. *)
Record served (table : json) (h : Hand) (dh : DealerMeta) : Prop := {
  sv_hand : truthy (field table "hand") = true;
  sv_dealer : truthy (field (field table "hand") "dealer") = true;
  sv_phase : field (field table "hand") "phase" = JStr (phaseName h.(phase));
  sv_board : field (field table "hand") "board" = JArr (map JNum h.(board));
  sv_inHand : orElse (field (field table "hand") "inHand") (field (field table "hand") "in_hand") = JArr (map JBool h.(inHand));
  sv_folded : field (field table "hand") "folded" = JArr (map JBool h.(folded));
  sv_final : orElse (field (field (field table "hand") "dealer") "deckFinalized") (field (field (field table "hand") "dealer") "deck_finalized") = JBool dh.(deckFinalized);
  sv_holePos : orElse (field (field (field table "hand") "dealer") "holePos") (field (field (field table "hand") "dealer") "hole_pos") = JArr (map JNum dh.(holePos));
  sv_cursor : field (field (field table "hand") "dealer") "cursor" = JNum dh.(cursor);
  sv_revealPos : orElse (field (field (field table "hand") "dealer") "revealPos") (field (field (field table "hand") "dealer") "reveal_pos") = JNum dh.(revealPos);
  sv_reveals : field (field (field table "hand") "dealer") "reveals" = JUndefined;
  sv_finalized : field (field (field table "hand") "dealer") "finalized" = JUndefined
}.

(** Cards and positions fit a byte, and the cursor is in the deck. *)
Record deck_ok (h : Hand) (dh : DealerMeta) : Prop := {
  dk_board : Forall (λ c, 0 <= c <= 255) h.(board);
  dk_holePos : Forall (λ p, 0 <= p <= 255) dh.(holePos);
  dk_cursor : 0 <= dh.(cursor) <= dh.(deckSize);
  dk_size : dh.(deckSize) <= 255
}.

Lemma u8s_nums l : Forall (λ n, 0 <= n <= 255) l → CoordDealer.u8s (map JNum l) = Some l.
Proof.
  induction 1 as [|n l Hn _ IH]; [done|]. cbn [map CoordDealer.u8s CoordDealer.asNumber].
  rewrite (proj2 (Z.ltb_ge n 0)), (proj2 (Z.ltb_ge 255 n)) by lia. cbn [orb]. by rewrite IH.
Qed.

Lemma served_chain base64 table h dh : served table h dh → deck_ok h dh → chain_table base64 table.
Proof.
  intros [] []. constructor.
  - by rewrite sv_finalized0.
  - eexists. split; [exact sv_phase0|]. apply (bool_decide_unpack _). by destruct (phase h); vm_compute.
  - do 2 eexists. split; [exact sv_board0|by apply u8s_nums].
  - do 2 eexists. split; [exact sv_holePos0|by apply u8s_nums].
Qed.

Lemma truthy_flag l seat : truthy (rd JUndefined (map JBool l) seat) = rd false l seat.
Proof. unfold rd. rewrite list_lookup_fmap. by destruct (l !! seat). Qed.

(** The coordinator's list of the cards to be shown down is the chain's. *)
Lemma eligible_chain h dh ps : dealerEligibleShowdownHolePositions h dh = Ok ps →
  length dh.(holePos) = 18%nat ∧
  sort_by Z.leb (CoordDealer.eligible (map JBool h.(inHand)) (map JBool h.(folded)) dh.(holePos)) = ps.
Proof.
  unfold dealerEligibleShowdownHolePositions. destruct (length (holePos dh) =? 18)%nat eqn:El; [cbn [negb]|done]. apply Nat.eqb_eq in El.
  set (pos := flat_map _ (seq 0 9)). destruct (existsb (Z.eqb 255) pos) eqn:Ex; [done|]. intros [= <-]. split; [done|]. f_equal.
  assert (Hno : ∀ p, In p pos → p ≠ 255).
  { intros p Hp ->. apply not_true_iff_false in Ex. apply Ex, existsb_exists. exists 255. by rewrite Z.eqb_refl. }
  unfold CoordDealer.eligible, pos in *. clear pos Ex.
  assert (Hseats : Forall (λ seat, (seat < 9)%nat) (seq 0 9)) by (repeat constructor; lia).
  induction Hseats as [|seat l Hs _ IH]; [done|]. cbn [flat_map] in *.
  rewrite IH by (intros p Hp; apply Hno, in_or_app; by right). f_equal. rewrite !truthy_flag.
  destruct (negb (rd false (inHand h) seat) || rd false (folded h) seat); [done|].
  assert (Hpos : ∀ i, (i < 18)%nat → holePos dh !! i = Some (rd 0 (holePos dh) i)).
  { intros i Hi. unfold rd. destruct (holePos dh !! i) eqn:E; [done|]. apply lookup_ge_None in E. lia. }
  cbn [omap list_omap]. rewrite !Hpos by lia. rewrite Nat.add_0_r.
  by rewrite !(proj2 (Z.eqb_neq _ 255)) by (apply Hno; cbn; tauto).
Qed.

Lemma eligible_in h dh ps p : dealerEligibleShowdownHolePositions h dh = Ok ps → In p ps →
  p ≠ 255 ∧ ∃ i, p = rd 0 dh.(holePos) i.
Proof.
  unfold dealerEligibleShowdownHolePositions. destruct (negb _); [done|]. set (pos := flat_map _ (seq 0 9)).
  destruct (existsb (Z.eqb 255) pos) eqn:Ex; [done|]. intros [= <-] Hin.
  apply (Permutation_in _ (sort_by_perm _ _)) in Hin. split.
  - intros ->. apply not_true_iff_false in Ex. apply Ex, existsb_exists. by exists 255.
  - unfold pos in Hin. apply in_flat_map in Hin as (seat & _ & Hp). destruct (_ || _); [done|]. destruct Hp as [<-|[<-|[]]]; by eexists.
Qed.

(** What the coordinator makes of such a table. *)
Lemma coordinator_chain base64 table t h dh r :
  served table h dh → deck_ok h dh → t.(hand) = Some h → h.(dealer) = Some dh → dealerExpectedRevealPos t = Ok r →
  (match r with Some p => 0 <= p ∧ p ≠ 255 | None => True end) ∧
  (phase h ≠ AWAIT_SHOWDOWN → CoordDealer.v0ExpectedRevealPos base64 table = r) ∧
  (phase h = AWAIT_SHOWDOWN → ∃ ps, dealerEligibleShowdownHolePositions h dh = Ok ps ∧
     r = List.find (hidden t dh) ps ∧ CoordDealer.v0ExpectedRevealPos base64 table = head ps).
Proof.
  intros Hsv Hdk Ht Hd E. pose proof Hdk as [Hbd Hhp Hcur Hsz]. destruct Hsv.
  unfold dealerExpectedRevealPos in E. rewrite Ht, Hd in E. destruct (deckFinalized dh) eqn:Ef; [cbn [negb] in E|done].
  destruct (deckSize dh =? 0); [done|].
  assert (Hboard : ∀ fits, (fits = true → (length (board h) <= 5)%nat) → boardPos h dh fits = Ok r →
    r = Some (cursor dh + Z.of_nat (length (board h))) ∧ 0 <= cursor dh + Z.of_nat (length (board h)) ∧ cursor dh + Z.of_nat (length (board h)) ≠ 255).
  { intros [] Hfit Eb; [|done]. specialize (Hfit eq_refl). unfold boardPos in Eb. cbn [negb] in Eb. rewrite Z.mod_small in Eb by lia.
    destruct (deckSize dh <=? _) eqn:Es; [done|]. apply Z.leb_gt in Es. injection Eb as <-. split; [done|lia]. }
  unfold CoordDealer.v0ExpectedRevealPos. cbv zeta. rewrite sv_hand0, sv_dealer0, sv_final0, sv_phase0, sv_board0, sv_holePos0, sv_inHand0, sv_folded0, sv_cursor0, sv_reveals0.
  cbn [negb orb truthy orElse nullish toStr CoordDealer.asNumber from_option default CoordDealer.decodeU8Array elems omap list_omap].
  rewrite !u8s_nums by done. cbn [from_option default]. change (id (board h)) with (board h). change (id (cursor dh)) with (cursor dh).
  destruct (phase h) eqn:Eph; cbn [phaseName].
  1,2,3,8: injection E as <-; by split_and!.
  1-3: apply Hboard in E as (-> & ? & ?); [by split_and!|intros Hn; b2p; lia].
  destruct (length (board h) =? 5)%nat; [cbn [negb] in E|done]. unfold dealerNextShowdownHolePos in E.
  destruct (dealerEligibleShowdownHolePositions h dh) as [ps|] eqn:Eps; [cbn [rbind] in E; injection E as <-|done].
  destruct (eligible_chain h dh ps Eps) as [Hl Hps]. split_and!; [|done|].
  - destruct (List.find (hidden t dh) ps) as [p|] eqn:Efind; [|done]. apply find_some in Efind as [Hin _].
    destruct (eligible_in h dh ps p Eps Hin) as [H255 [i Hi]]. split; [|done].
    rewrite Hi. unfold rd. destruct (holePos dh !! i) eqn:Ei; [|done]. apply (Forall_lookup_1 _ _ _ _ Hhp) in Ei. cbn. lia.
  - intros _. exists ps. split_and!; [done..|]. rewrite Hl. cbn [Nat.eqb negb]. rewrite Hps. by destruct ps.
Qed.

(** The chain writes what it awaits. *)
Lemma setReveal_writes t now t' h dh : setRevealDeadlineIfAwaiting t now = Ok t' → t'.(hand) = Some h → h.(dealer) = Some dh →
  ∃ r, dealerExpectedRevealPos t' = Ok r ∧ revealPos dh = default 255 r.
Proof.
  unfold setRevealDeadlineIfAwaiting. intros Hset Hh Hd. destruct (hand t) as [h0|] eqn:Eh0; [|injection Hset as <-; congruence].
  destruct (dealer h0) as [dh0|] eqn:Ed0; [|injection Hset as <-; congruence].
  assert (Hsame : ∀ p d, dealerExpectedRevealPos (set_reveal p d t h0 dh0) = dealerExpectedRevealPos t).
  { intros p d. unfold dealerExpectedRevealPos. rewrite Eh0, Ed0. done. }
  destruct (dealerExpectedRevealPos t) as [[pos|]|] eqn:E; cbn [rbind] in Hset; [|injection Hset as <-|done].
  - destruct (throw_if _ _); [|done]. cbn [rbind] in Hset. destruct (addInt64AndU64Checked _ _ _) as [d|]; [|done]. cbn [rbind] in Hset.
    injection Hset as <-. injection Hh as <-. injection Hd as <-. exists (Some pos). by rewrite Hsame.
  - injection Hh as <-. injection Hd as <-. exists None. by rewrite Hsame.
Qed.

(** C20. The card that is to be revealed next.  For every table that the chain
    has written with [setRevealDeadlineIfAwaiting] and serves over its REST
    gateway, the dealer daemon works on the card that the chain awaits.  While
    cards of the board are awaited, and when no card is, the coordinator
    announces the same; in the showdown it announces the smallest of the
    positions to be shown, whether or not its card is public already, while
    the chain awaits the smallest one that is not: they agree exactly until
    that first card is revealed. *)
Theorem reveal_pos_agrees base64 t now t' h dh table :
  setRevealDeadlineIfAwaiting t now = Ok t' → t'.(hand) = Some h → h.(dealer) = Some dh → deck_ok h dh → served table h dh →
  let coordinator := CoordDealer.v0ExpectedRevealPos base64 table in
  ∃ r, dealerExpectedRevealPos t' = Ok r ∧
    Daemon.expectedRevealPos table = (if r is Some pos then Some pos else coordinator) ∧
    (phase h ≠ AWAIT_SHOWDOWN → coordinator = r) ∧
    (phase h = AWAIT_SHOWDOWN → ∃ ps, dealerEligibleShowdownHolePositions h dh = Ok ps ∧ r = List.find (hidden t' dh) ps ∧
       coordinator = head ps ∧
       (coordinator = r ↔ (∀ p, head ps = Some p → hidden t' dh p = true))).
Proof.
  intros Hset Hh Hd Hdk Hsv coordinator. destruct (setReveal_writes t now t' h dh Hset Hh Hd) as (r & Er & Hpos).
  destruct (coordinator_chain base64 table t' h dh r Hsv Hdk Hh Hd Er) as (Hr & Hstreet & Hshow).
  exists r. split_and!; [done| |done|].
  - rewrite (reveal_pos_fallback base64) by by eapply served_chain. cbv zeta. pose proof Hsv as [].
    rewrite sv_hand0, sv_dealer0, sv_final0. assert (Hfin : deckFinalized dh = true).
    { unfold dealerExpectedRevealPos in Er. rewrite Hh, Hd in Er. by destruct (deckFinalized dh). }
    rewrite Hfin. cbn [negb orb truthy].
    replace (DealerTypes.asNumber (pick (field (field table "hand") "dealer") ["revealPos"; "reveal_pos"]%string)) with (Some (revealPos dh)).
    2:{ cbn [pick]. rewrite pick_two in sv_revealPos0. destruct (nullish (field _ "revealPos")); by rewrite sv_revealPos0. }
    rewrite Hpos. unfold Daemon.goodPos. destruct r as [p|]; [|done]. destruct Hr as [H0 H255].
    change (default 255 (Some p)) with p. by rewrite (proj2 (Z.leb_le 0 p) H0), (proj2 (Z.eqb_neq p 255) H255).
  - intros Eph. destruct (Hshow Eph) as (ps & Eps & -> & Hc). exists ps. split_and!; [done..|]. unfold coordinator. rewrite Hc.
    destruct ps as [|p ps]; cbn [head List.find]; [by split|]. split.
    + intros Eq p' [= <-]. destruct (hidden t' dh p) eqn:Ehid; [done|]. symmetry in Eq. apply find_some in Eq as [_ ?]. congruence.
    + intros Hhid. by rewrite (Hhid p eq_refl).
Qed.

(** ** Whose turn it is to shuffle *)

(** A member as the chain sends it. *)
Definition chain_member (m : json) : Prop := ∃ v i, m = JObj [("validator", JStr v); ("index", JNum i)]%string ∧ v ≠ EmptyString.

(** An epoch of the chain: members in the order of their indices, and the
    addresses of those that were slashed. *)
Record chain_epoch (e : json) (ms : list json) (slashed : list string) : Prop := {
  ce_members : field e "members" = JArr ms;
  ce_slashed : field e "slashed" = JArr (map JStr slashed);
  ce_shape : Forall chain_member ms;
  ce_sorted : StronglySorted (λ a b, CoordDealer.memberIndex a < CoordDealer.memberIndex b) ms
}.

Section turns.
Context (locale_le : string → string → bool) (base64 : list ascii → bytes).

Lemma map_toStr l : map toStr (map JStr l) = l.
Proof. induction l as [|s l IH]; [done|]. cbn [map toStr]. by rewrite IH. Qed.

(** The coordinator's order is the chain's. *)
Lemma qualified_eq e ms slashed : chain_epoch e ms slashed →
  CoordDealer.qualified locale_le e = List.filter (λ m, negb (CoordDealer.isSlashed slashed m)) ms.
Proof.
  intros []. unfold CoordDealer.qualified. rewrite ce_members0. cbn [elems CoordDealer.slashedIds]. rewrite ce_slashed0. cbn [elems]. rewrite map_toStr.
  apply sort_by_id. apply StronglySorted_Sorted. clear -ce_sorted0. induction ce_sorted0 as [|m ms Hs IH Hm]; cbn [List.filter]; [constructor|].
  destruct (negb _); [|done]. constructor; [done|]. apply List.Forall_forall. intros x Hx. apply filter_In in Hx as [Hx _].
  pose proof (proj1 (List.Forall_forall _ _) Hm x Hx) as Hlt. unfold CoordDealer.memberLe. by rewrite (proj2 (Z.ltb_lt _ _) Hlt).
Qed.

Lemma parseMember_chain m : chain_member m → ∃ d, Daemon.parseMember base64 m = Some d ∧ m_validator d = toStr (CoordDealer.memberId m).
Proof. intros (v & i & -> & Hv). destruct v as [|c v]; [done|]. eexists. split; reflexivity. Qed.

Lemma parsed_members e ms slashed : chain_epoch e ms slashed →
  Forall2 (λ m d, m_validator d = toStr (CoordDealer.memberId m)) ms (Daemon.parseMembersFromEpoch base64 e).
Proof.
  intros []. unfold Daemon.parseMembersFromEpoch. rewrite ce_members0. cbn [orElse nullish elems]. clear -ce_shape0.
  induction ce_shape0 as [|m ms Hm _ IH]; [constructor|]. destruct (parseMember_chain m Hm) as (d & Hd & Hv). cbn. rewrite Hd. by constructor.
Qed.

Lemma filter_prefix {A} (f : A → bool) l i x : l !! i = Some x → (∀ j y, (j <= i)%nat → l !! j = Some y → f y = true) → List.filter f l !! i = Some x.
Proof.
  revert i. induction l as [|a l IH]; intros i Hi Hf; [done|]. cbn [List.filter]. rewrite (Hf 0%nat a) by (done || lia). destruct i as [|i]; [done|].
  apply IH; [done|]. intros j y Hj Hy. apply (Hf (S j) y); [lia|done].
Qed.

(** The two agree on the turn until somebody was slashed, and not after.  The
    validator that the daemons expect at a step is the member the coordinator
    (and the chain, which likewise leaves out the slashed) expects, when none
    of the members up to that step is slashed.  When the member at that step
    is slashed, the daemons still expect it and the coordinator another one,
    and the daemon of everybody else reads the hand and does nothing. *)
Theorem shuffle_turns `{RistrettoOps P} `{HashOps} `{AeadOps} `{EpochStore D} {W} (client : DealerClient W) config fuel tableId handId e ms slashed i m hand (s : Env D W) (w : W) :
  chain_epoch e ms slashed → ms !! i = Some m →
  (∃ d, Daemon.parseMembersFromEpoch base64 e !! i = Some d ∧ m_validator d = toStr (CoordDealer.memberId m)) ∧
  ((∀ j m', (j <= i)%nat → ms !! j = Some m' → CoordDealer.isSlashed slashed m' = false) → CoordDealer.suggested locale_le e (Z.of_nat i) = Some m) ∧
  (CoordDealer.isSlashed slashed m = true →
   (∀ q, CoordDealer.suggested locale_le e (Z.of_nat i) = Some q → toStr (CoordDealer.memberId q) ≠ toStr (CoordDealer.memberId m)) ∧
   (client.(getDealerHand) tableId handId s.(e_world) = (Ok (Some hand), w) →
    jsNumber (orElse (field hand "shuffleStep") (orElse (field hand "shuffle_step") (JNum 0))) = Some (Z.of_nat i) →
    lower (toStr (CoordDealer.memberId m)) ≠ lower config.(validatorAddress) →
    DealerShares.handleShuffle (P := P) base64 client config fuel tableId handId (Daemon.parseMembersFromEpoch base64 e) s = (Ok tt, mkEnv s.(e_store) w s.(e_random)))).
Proof.
  intros He Hm. pose proof (parsed_members e ms slashed He) as Hp. destruct (Forall2_lookup_l _ _ _ _ _ Hp Hm) as (d & Hd & Hv).
  split; [by exists d|]. unfold CoordDealer.suggested. rewrite (proj2 (Z.ltb_ge _ 0)) by lia. rewrite Nat2Z.id, (qualified_eq e ms slashed He).
  split.
  - intros Hns. apply filter_prefix; [done|]. intros j m' Hj Hm'. by rewrite (Hns j m' Hj Hm').
  - intros Hsl. split.
    + intros q Hq%list_elem_of_lookup_2. apply list_elem_of_In, filter_In in Hq as [_ Hq]. intros Eq.
      unfold CoordDealer.isSlashed in *. rewrite Eq in Hq. by rewrite Hsl in Hq.
    + intros Eh Hstep Hne. unfold DealerShares.handleShuffle. erewrite bind_ok by (apply DealerLemmas.await_ok; exact Eh).
      unfold DealerShares.expectedShuffler. rewrite Hstep. rewrite (proj2 (Z.ltb_ge _ 0)) by lia. rewrite Nat2Z.id, Hd. cbn [fmap option_fmap option_map].
      unfold sameAddress. rewrite Hv, (bool_decide_false (lower _ = lower _)) by done. cbn [negb]. by rewrite orb_true_r.
Qed.

(** The chain names members by [validator], which the suggestion does not look
    at: it is always [null]. *)
Lemma suggestion_null e ms slashed dh : chain_epoch e ms slashed → field (CoordDealer.shuffleAction locale_le (Some e) dh) "suggestedShuffler" = JNull.
Proof.
  intros He. unfold CoordDealer.shuffleAction. cbv zeta. destruct (CoordDealer.hasMembers _); [|done]. set (i := default 0 _).
  unfold CoordDealer.suggested. destruct (i <? 0); [done|]. rewrite (qualified_eq e ms slashed He).
  destruct (List.filter _ ms !! Z.to_nat i) as [q|] eqn:E; [|done]. apply list_elem_of_lookup_2, list_elem_of_In, filter_In in E as [Hq%list_elem_of_In _].
  destruct He as [_ _ Hsh _]. apply (proj1 (Forall_forall _ _) Hsh) in Hq as (v & k & -> & _). done.
Qed.
End turns.

(** ** At concrete inputs *)

Import Residue Toy ToyAead DealerToy.

(** The showdown of seats 1 and 4, whose card at position 3 is public: the
    table before and after the chain has written what it awaits, and as the
    gateway serves it. *)
Definition toy_holePos : list Z := [255; 255; 7; 9; 255; 255; 255; 255; 3; 12; 255; 255; 255; 255; 255; 255; 255; 255].
Definition toy_hand (pos deadline : Z) : Hand :=
  mkHand AWAIT_SHOWDOWN [1; 2; 3; 4; 5] [false; true; false; false; true; false; false; false; false] (replicate 9 false)
    (Some (mkMeta 52 true toy_holePos 14 pos deadline)).
Definition toy_table (pos deadline : Z) : Table :=
  mkTable 30 [None; Some [255; 255]; None; None; Some [40; 255]; None; None; None; None] (Some (toy_hand pos deadline)).
Definition toy_served : json := JObj [("hand", JObj [
  ("phase", JStr "HAND_PHASE_AWAIT_SHOWDOWN"); ("board", JArr (map JNum [1; 2; 3; 4; 5]));
  ("in_hand", JArr (map JBool [false; true; false; false; true; false; false; false; false])); ("folded", JArr (map JBool (replicate 9 false)));
  ("dealer", JObj [("deck_finalized", JBool true); ("hole_pos", JArr (map JNum toy_holePos)); ("cursor", JNum 14); ("reveal_pos", JNum 7)])])]%string.

Lemma reveal_pos_agrees_witness :
  dealerExpectedRevealPos (toy_table 7 1030) = Ok (Some 7) ∧ Daemon.expectedRevealPos toy_served = Some 7 ∧
  CoordDealer.v0ExpectedRevealPos (λ _, []) toy_served = Some 3.
Proof.
  destruct (reveal_pos_agrees (λ _, []) (toy_table 3 900) 1000 (toy_table 7 1030) (toy_hand 7 1030) (mkMeta 52 true toy_holePos 14 7 1030) toy_served)
    as (r & Er & Hd & _ & Hc); [vm_compute; reflexivity|reflexivity|reflexivity|constructor|split; reflexivity|].
  - repeat (constructor; [lia|]). constructor.
  - repeat (constructor; [lia|]). constructor.
  - vm_compute. split; discriminate.
  - vm_compute. discriminate.
  - destruct (Hc eq_refl) as (ps & Eps & Hr & Hhead & _).
    replace ps with [3; 7; 9; 12] in * by (vm_compute in Eps; injection Eps; done).
    replace (List.find _ _) with (Some 7) in Hr by (vm_compute; reflexivity). subst r. split; [exact Er|]. split; [exact Hd|exact Hhead].
Defined.

Definition toy_member_json (v : string) (i : Z) : json := JObj [("validator", JStr v); ("index", JNum i)]%string.
Definition toy_epoch : json := JObj [("members", JArr [toy_member_json "a" 1; toy_member_json "b" 2]); ("slashed", JArr [JStr "a"])]%string.
Definition toy_hand_json : json := JObj [("shuffle_step", JNum 0)]%string.
Definition toy_turn_env : Env (gmap Z EpochSecrets) world := mkEnv ∅ (mkWorld None None (Some toy_hand_json) [] [] [] []) [].

(** "a" was slashed: the coordinator expects "b", whose daemon does nothing. *)
Lemma shuffle_turns_witness :
  CoordDealer.suggested (λ _ _, true) toy_epoch 0 = Some (toy_member_json "b" 2) ∧
  DealerShares.handleShuffle (P := Z) (λ _, []) toyClient (toyConfig "b" 1) 9 "1" "1" (Daemon.parseMembersFromEpoch (λ _, []) toy_epoch) toy_turn_env = (Ok tt, toy_turn_env).
Proof.
  split; [vm_compute; reflexivity|].
  destruct (shuffle_turns (P := Z) (λ _ _, true) (λ _, []) toyClient (toyConfig "b" 1) 9 "1" "1" toy_epoch
    [toy_member_json "a" 1; toy_member_json "b" 2] ["a"%string] 0 (toy_member_json "a" 1) toy_hand_json toy_turn_env (mkWorld None None (Some toy_hand_json) [] [] [] []))
    as (_ & _ & Hs).
  - constructor; [reflexivity|reflexivity| |].
    + constructor; [by exists "a"%string, 1|]. constructor; [by exists "b"%string, 2|constructor].
    + constructor; [constructor; [constructor|constructor]|]. constructor; [vm_compute; reflexivity|constructor].
  - reflexivity.
  - destruct Hs as [_ Hs]; [vm_compute; reflexivity|]. exact (Hs eq_refl eq_refl ltac:(by vm_compute)).
Defined.
End CoordDealerThms.
