(* ===== verification/CoordWs.v ===== *)
(** * The coordinator's hub: [apps/coordinator/src/ws.ts]

    Clients connect, subscribe to topics and chat; chain events and messages
    are broadcast to those that subscribed.  Connections are numbered.  What a
    call sends is the list of its deliveries; [delivers] tells which sends
    succeed, the others throw and are swallowed.  The time of each event is an
    argument. *)
From stdpp Require Import base option list strings gmap sorting.
From Stdlib Require Import ZArith Lia Ascii.
From S2P Require Import Prelude OcpBytes Json JsonText JsMap CoordStore CoordStoreThms CoordConfig.
Import Bytes Json JsonText JsMap CoordStore CoordConfig.

Module CoordWs.

#[local] Open Scope string_scope.
#[local] Open Scope list_scope.
#[local] Open Scope Z_scope.

Record ClientState := mkClient { subs : gset string; lastChatMs : option Z; identity : string; ip : string; isOpen : bool }.
Definition set_subs v c := mkClient v c.(lastChatMs) c.(identity) c.(ip) c.(isOpen).
Definition set_lastChat v c := mkClient c.(subs) v c.(identity) c.(ip) c.(isOpen).
Definition set_open v c := mkClient c.(subs) c.(lastChatMs) c.(identity) c.(ip) v.

Record IpBucket := mkIpBucket { ib_minute : Z; ib_count : Z }.
Definition IP_CHAT_LIMIT_PER_MIN : Z := 30.

Record Hub := mkHub { clients : list (nat * ClientState); ipChatBuckets : list (string * IpBucket); hubStore : CoordinatorStore }.
Definition set_clients v h := mkHub v h.(ipChatBuckets) h.(hubStore).
Definition set_buckets v h := mkHub h.(clients) v h.(hubStore).
Definition set_store v h := mkHub h.(clients) h.(ipChatBuckets) v.

(** [/^[a-zA-Z0-9_-]{1,32}$/] *)
Definition tableIdChar (c : ascii) : bool :=
  let n := nat_of_ascii c in
  (((48 <=? n) && (n <=? 57)) || ((65 <=? n) && (n <=? 90)) || ((97 <=? n) && (n <=? 122)) || (n =? 95) || (n =? 45))%nat.
Definition validTableId (s : string) : bool :=
  let l := chars s in (1 <=? length l)%nat && (length l <=? 32)%nat && forallb tableIdChar l.

Definition safeJsonParse (raw : list ascii) : json := default JNull (parse raw).

(** A topic of a subscription message: the whole platform or one table. *)
Definition globalTopic : string := "global".
Definition tableTopic (tableId : string) : string := "table:" +:+ tableId.

(** [typeof x === "string" ? x : ""] *)
Definition asText (j : json) : string := match j with JStr s => s | _ => EmptyString end.

(** ** What is sent *)

Definition paramsJson (p : TableParams) : json :=
  JObj ([("maxPlayers", match p.(maxPlayers) with Some n => JNum n | None => JNull end); ("smallBlind", JStr p.(smallBlind)); ("bigBlind", JStr p.(bigBlind));
         ("minBuyIn", JStr p.(minBuyIn)); ("maxBuyIn", JStr p.(maxBuyIn))]
        ++ match p.(passwordHash) with Some s => [("passwordHash", JStr s)] | None => [] end
        ++ match p.(passwordSalt) with Some s => [("passwordSalt", JStr s)] | None => [] end).
Definition statusJson (s : TableStatus) : json := JStr (match s with open => "open" | in_hand => "in_hand" | closed => "closed" end).
Definition tableJson (t : TableInfo) : json :=
  JObj ([("tableId", JStr t.(t_tableId))] ++ match t.(t_label) with Some l => [("label", JStr l)] | None => [] end
        ++ [("params", paramsJson t.(t_params)); ("status", statusJson t.(t_status)); ("updatedAtMs", JNum t.(t_updatedAtMs))]).
Definition chatJson (m : ChatMessage) : list (string * json) :=
  [("sender", JStr m.(sender)); ("text", JStr m.(CoordStore.text)); ("timeMs", JNum m.(timeMs))].
Definition optStr (k : string) (o : option string) : list (string * json) := match o with Some s => [(k, JStr s)] | None => [] end.
Definition eventJson (ev : ChainEvent) : json :=
  JObj ([("name", JStr ev.(ev_name))] ++ optStr "tableId" ev.(ev_tableId) ++ optStr "handId" ev.(ev_handId)
        ++ [("data", ev.(ev_data)); ("eventIndex", JNum ev.(ev_eventIndex)); ("timeMs", JNum ev.(ev_timeMs))]).

Definition errorMsg (msg : string) : json := JObj [("type", JStr "error"); ("error", JStr msg)].
Definition topicMsg (kind : string) (tableId : option string) : json :=
  JObj ([("type", JStr kind)] ++ match tableId with
                                | None => [("topic", JStr "global")]
                                | Some t => [("topic", JStr "table"); ("tableId", JStr t)]
                                end).

Section hub.
Context (locale_le : string → string → bool) (delivers : nat → json → bool).

(** A delivery to a connection. *)
Definition Sent : Type := list (nat * json).

Definition sendJson (id : nat) (c : ClientState) (msg : json) : Sent := if c.(isOpen) && delivers id msg then [(id, msg)] else [].

(** To every client of the hub that satisfies [f]. *)
Definition sendAll (f : ClientState → bool) (h : Hub) (msg : json) : Sent :=
  flat_map (λ kv, if f kv.2 then sendJson kv.1 kv.2 msg else []) h.(clients).

Definition subscribed (topic : string) (c : ClientState) : bool := bool_decide (topic ∈ c.(subs)).
Definition broadcastToTopic (h : Hub) (topic : string) (msg : json) : Sent := sendAll (λ c, c.(isOpen) && subscribed topic c) h msg.
Definition broadcast (h : Hub) (msg : json) : Sent := sendAll (λ _, true) h msg.
Definition broadcastChainEvent (h : Hub) (ev : ChainEvent) : Sent :=
  let topic c := match ev.(ev_tableId) with
                 | Some t => if bool_decide (t = EmptyString) then false else subscribed (tableTopic t) c
                 | None => false
                 end in
  sendAll (λ c, c.(isOpen) && (subscribed globalTopic c || topic c)) h (JObj [("type", JStr "event"); ("event", eventJson ev)]).

(** ** Connections *)

(** [who] is the four characters of the random identity. *)
Definition connect (h : Hub) (id : nat) (who : string) (forwarded : option HeaderValue) (remote : string) (hops : option Z) (now : Z) : Hub * Sent :=
  let c := mkClient ∅ None ("anon-" +:+ who) (clientIpFromForwarded forwarded remote (default 1 hops)) true in
  (set_clients (mset id c h.(clients)) h,
   sendJson id c (JObj [("type", JStr "welcome"); ("nowMs", JNum now);
     ("hint", JStr "send {type:'subscribe', topic:'global'} or {type:'subscribe', topic:'table', tableId:'...'}")])).

Definition disconnect (h : Hub) (id : nat) : Hub := set_clients (mdel id h.(clients)) h.

(** ** Messages of a client *)

(** [subscribe] and [unsubscribe]: [change] is applied to the topics. *)
Definition changeSubs (h : Hub) (id : nat) (c : ClientState) (msg : json) (change : string → gset string → gset string) (done invalid : string) : Hub * Sent :=
  let update topic := set_clients (mset id (set_subs (change topic c.(subs)) c) h.(clients)) h in
  let invalidMsg := (h, sendJson id c (errorMsg invalid)) in
  if isStr (field msg "topic") "global" then (update globalTopic, sendJson id c (topicMsg done None))
  else if isStr (field msg "topic") "table" then
    match field msg "tableId" with
    | JStr t => if validTableId t then (update (tableTopic t), sendJson id c (topicMsg done (Some t))) else invalidMsg
    | _ => invalidMsg
    end
  else invalidMsg.

(** [lastChatMs && now - lastChatMs < 1000] *)
Definition tooSoon (c : ClientState) (now : Z) : bool :=
  match c.(lastChatMs) with Some l => negb (l =? 0) && (now - l <? 1000) | None => false end.

(** The count of a client's address in the current minute, or [None] when it is
    used up. *)
Definition countChat (buckets : list (string * IpBucket)) (addr : string) (now : Z) : option (list (string * IpBucket)) :=
  let minuteKey := now / 60000 in
  match mget addr buckets with
  | Some b => if b.(ib_minute) =? minuteKey then
                if IP_CHAT_LIMIT_PER_MIN <=? b.(ib_count) then None else Some (mset addr (mkIpBucket b.(ib_minute) (b.(ib_count) + 1)) buckets)
              else Some (mset addr (mkIpBucket minuteKey 1) buckets)
  | None => Some (mset addr (mkIpBucket minuteKey 1) buckets)
  end.

(** What stops a chat message, if anything, and otherwise the buckets. *)
Definition chatChecks (h : Hub) (c : ClientState) (tableId txt : string) (now : Z) : string + list (string * IpBucket) :=
  if bool_decide (tableId = EmptyString) || bool_decide (txt = EmptyString) then inl "table_chat requires tableId, text"
  else if negb (subscribed (tableTopic tableId) c) then inl "not subscribed to table"
  else match getTable h.(hubStore) tableId with
       | None => inl "unknown table"
       | Some _ =>
           if tooSoon c now then inl "chat rate limited (1 msg/sec)"
           else match countChat h.(ipChatBuckets) c.(ip) now with
                | None => inl "chat rate limited (per-ip)"
                | Some buckets => inr buckets
                end
       end.

Definition tableChat (h : Hub) (id : nat) (c : ClientState) (msg : json) (now : Z) : Hub * Sent :=
  let tableId := asText (field msg "tableId") in
  let txt := CoordConfig.text (take 200 (chars (asText (field msg "text")))) in
  match chatChecks h c tableId txt now with
  | inl err => (h, sendJson id c (errorMsg err))
  | inr buckets =>
      let chatMsg := mkChat c.(identity) txt now in
      let h := mkHub (mset id (set_lastChat (Some now) c) h.(clients)) buckets (addChatMessage h.(hubStore) tableId chatMsg) in
      (h, broadcastToTopic h (tableTopic tableId) (JObj ([("type", JStr "table_chat"); ("tableId", JStr tableId)] ++ chatJson chatMsg)))
  end.

Definition chatHistory (h : Hub) (id : nat) (c : ClientState) (msg : json) : Sent :=
  let tableId := asText (field msg "tableId") in
  if bool_decide (tableId = EmptyString) then sendJson id c (errorMsg "chat_history requires tableId")
  else sendJson id c (JObj [("type", JStr "chat_history"); ("tableId", JStr tableId);
                            ("messages", JArr (map (λ m, JObj (chatJson m)) (getChatHistory h.(hubStore) tableId)))]).

(** [ws.on("message")] *)
Definition onMessage (h : Hub) (id : nat) (raw : list ascii) (now : Z) : Hub * Sent :=
  match mget id h.(clients) with
  | None => (h, [])
  | Some c =>
      let msg := safeJsonParse raw in
      let kind := field msg "type" in
      if isStr kind "ping" then
        (h, sendJson id c (JObj [("type", JStr "pong"); ("id", orElse (field msg "id") JNull); ("nowMs", JNum now)]))
      else if isStr kind "snapshot" then
        (h, sendJson id c (JObj [("type", JStr "snapshot"); ("tables", JArr (map tableJson (listTables locale_le h.(hubStore)))); ("nowMs", JNum now)]))
      else if isStr kind "subscribe" then changeSubs h id c msg (λ t s, {[t]} ∪ s) "subscribed" "invalid subscribe message"
      else if isStr kind "unsubscribe" then changeSubs h id c msg (λ t s, s ∖ {[t]}) "unsubscribed" "invalid unsubscribe message"
      else if isStr kind "table_chat" then tableChat h id c msg now
      else if isStr kind "chat_history" then (h, chatHistory h id c msg)
      else (h, [])
  end.
End hub.

End CoordWs.

(** ** The hub delivers to those that subscribed and limits the chat *)
Import Bytes Json JsonText JsMap CoordStore CoordStoreThms CoordConfig CoordWs.

Module CoordWsThms.

#[local] Open Scope string_scope.
#[local] Open Scope list_scope.
#[local] Open Scope Z_scope.

Section thms.
Context (limits : Limits) (locale_le : string → string → bool) (delivers : nat → json → bool).

(** ** Deliveries *)

Lemma sendAll_spec f h msg id m : (id, m) ∈ sendAll delivers f h msg ↔
  m = msg ∧ delivers id msg = true ∧ ∃ c, (id, c) ∈ h.(clients) ∧ f c = true ∧ c.(isOpen) = true.
Proof.
  unfold sendAll. rewrite list_elem_of_In, in_flat_map. split.
  - intros ([k c] & Hin & Hs). cbn in Hs. destruct (f c) eqn:Ef; [|done]. unfold sendJson in Hs. destruct (isOpen c && delivers k msg) eqn:Eo; [|done]. b2p.
    destruct Hs as [[= <- <-]|[]]. split; [done|]. split; [done|]. exists c. split; [by apply list_elem_of_In|done].
  - intros (-> & Hd & c & Hin & Hf & Ho). exists (id, c). split; [by apply list_elem_of_In|]. cbn. rewrite Hf. unfold sendJson. rewrite Ho, Hd. by left.
Qed.

(** Nobody gets a message twice. *)
Lemma sendAll_NoDup f h msg : mwf h.(clients) → NoDup (sendAll delivers f h msg).*1.
Proof.
  unfold sendAll, mwf. generalize h.(clients). intros l. induction l as [|[k c] l IH]; [intros _; constructor|].
  intros [Hk Hl]%NoDup_cons. cbn [flat_map fst snd] in *. rewrite fmap_app. apply NoDup_app. split; [|split; [|by apply IH]].
  - destruct (f c); [|constructor]. unfold sendJson. destruct (_ && _); [|constructor]. apply NoDup_singleton.
  - intros x Hx Hin. apply Hk. assert (x = k) as ->.
    { destruct (f c); [|by apply elem_of_nil in Hx]. unfold sendJson in Hx. destruct (_ && _); [|by apply elem_of_nil in Hx]. by apply list_elem_of_singleton in Hx. }
    clear -Hin. induction l as [|[k' c'] l IH]; [done|]. cbn [flat_map fst snd] in *. rewrite fmap_app, elem_of_app in Hin. destruct Hin as [Hin|Hin].
    + destruct (f c'); [|by apply elem_of_nil in Hin]. unfold sendJson in Hin. destruct (_ && _); [|by apply elem_of_nil in Hin]. apply list_elem_of_singleton in Hin. subst. by left.
    + right. by apply IH.
Qed.

(** C21. The topics.  A chain event goes to exactly the open connections that have
    subscribed to the platform or to the event's table, at most once to each,
    and a send that throws keeps it from nobody else; and a chat message is
    either refused, when nothing changes and only its sender is answered, or
    becomes the newest of the table's history and goes to exactly the open
    connections that have subscribed to the table, its sender among the
    subscribers. *)
Theorem hub_delivers h : mwf h.(clients) → store_ok limits h.(hubStore) →
  (∀ ev id m, (id, m) ∈ broadcastChainEvent delivers h ev ↔
     m = JObj [("type", JStr "event"); ("event", eventJson ev)] ∧ delivers id m = true ∧
     ∃ c, (id, c) ∈ h.(clients) ∧ c.(isOpen) = true ∧
       (globalTopic ∈ c.(subs) ∨ ∃ t, ev.(ev_tableId) = Some t ∧ t ≠ EmptyString ∧ tableTopic t ∈ c.(subs))) ∧
  (∀ ev, NoDup (broadcastChainEvent delivers h ev).*1) ∧
  ∀ id c msg now, mget id h.(clients) = Some c →
    let tableId := asText (field msg "tableId") in let txt := CoordConfig.text (take 200 (chars (asText (field msg "text")))) in
    match chatChecks h c tableId txt now with
    | inl err => tableChat delivers h id c msg now = (h, sendJson delivers id c (errorMsg err))
    | inr _ =>
        let '(h', sent) := tableChat delivers h id c msg now in
        let chatMsg := mkChat c.(identity) txt now in
        tableTopic tableId ∈ c.(subs) ∧
        getChatHistory h'.(hubStore) tableId = lastN CHAT_RING_SIZE (getChatHistory h.(hubStore) tableId ++ [chatMsg]) ∧
        ∀ id' m, (id', m) ∈ sent ↔ m = JObj ([("type", JStr "table_chat"); ("tableId", JStr tableId)] ++ chatJson chatMsg) ∧ delivers id' m = true ∧
          ∃ c', (id', c') ∈ h'.(clients) ∧ c'.(isOpen) = true ∧ tableTopic tableId ∈ c'.(subs)
    end.
Proof.
  intros Hw Hst. split; [|split; [intros ev; by apply sendAll_NoDup|]].
  - intros ev id m. unfold broadcastChainEvent. rewrite sendAll_spec. split.
    + intros (-> & Hd & c & Hin & Hf & Ho). split; [done|]. split; [done|]. exists c. split; [done|]. split; [done|]. b2p.
      apply orb_true_iff in H0 as [Hg|Ht]; [left; by apply bool_decide_eq_true in Hg|right].
      destruct (ev_tableId ev) as [t|]; [|done]. case_bool_decide; [done|]. exists t. split; [done|]. split; [done|]. by apply bool_decide_eq_true in Ht.
    + intros (-> & Hd & c & Hin & Ho & Hs). split; [done|]. split; [done|]. exists c. split; [done|]. split; [|done]. rewrite Ho. cbn [andb].
      apply orb_true_iff. destruct Hs as [Hg|(t & -> & Hne & Ht)]; [left; by apply bool_decide_eq_true|right].
      rewrite bool_decide_false by done. by apply bool_decide_eq_true.
  - intros id c msg now Hc. cbv zeta. unfold tableChat. set (tableId := asText _). set (txt := CoordConfig.text _).
    destruct (chatChecks h c tableId txt now) as [err|bs] eqn:E; [done|].
    unfold chatChecks in E. destruct (_ || _); [done|]. destruct (subscribed (tableTopic tableId) c) eqn:Es; [|done]. cbn [negb] in E.
    destruct (getTable (hubStore h) tableId) as [info|] eqn:Et; [|done].
    split; [by apply bool_decide_eq_true in Es|]. split.
    + cbn [hubStore]. destruct (runOp_chat limits h.(hubStore) (OpChat tableId (mkChat (identity c) txt now)) tableId Hst) as [Hch _].
      cbn [runOp] in Hch. rewrite Hch. cbn [chats]. rewrite bool_decide_true by done. unfold mhas. unfold getTable in Et. by rewrite Et.
    + intros id' m. unfold broadcastToTopic. rewrite sendAll_spec. split.
      * intros (-> & Hd & c' & Hin & Hf & Ho). split; [done|]. split; [done|]. exists c'. b2p. split; [done|]. split; [done|]. by apply bool_decide_eq_true in H0.
      * intros (-> & Hd & c' & Hin & Ho & Ht). split; [done|]. split; [done|]. exists c'. split; [done|]. rewrite Ho. split; [|done]. cbn [andb]. by apply bool_decide_eq_true.
Qed.

(** ** The limit per address *)

Inductive HubEvent :=
| EvConnect (id : nat) (who : string) (forwarded : option HeaderValue) (remote : string) (hops : option Z)
| EvMessage (id : nat) (raw : list ascii)
| EvClosing (id : nat)  (* the socket starts to close *)
| EvClose (id : nat)
| EvStore (op : StoreOp).

Definition hubStep (h : Hub) (ev : HubEvent) (now : Z) : Hub :=
  match ev with
  | EvConnect id who fwd remote hops => (connect delivers h id who fwd remote hops now).1
  | EvMessage id raw => (onMessage locale_le delivers h id raw now).1
  | EvClosing id => match mget id h.(clients) with Some c => set_clients (mset id (set_open false c) h.(clients)) h | None => h end
  | EvClose id => disconnect h id
  | EvStore op => set_store (runOp limits h.(hubStore) op) h
  end.

(** The address whose chat message the event gets accepted, if it does. *)
Definition acceptedFrom (h : Hub) (ev : HubEvent) (now : Z) : option string :=
  match ev with
  | EvMessage id raw =>
      match mget id h.(clients) with
      | Some c =>
          let msg := safeJsonParse raw in
          if isStr (field msg "type") "table_chat" then
            match chatChecks h c (asText (field msg "tableId")) (CoordConfig.text (take 200 (chars (asText (field msg "text"))))) now with
            | inr _ => Some c.(ip)
            | inl _ => None
            end
          else None
      | None => None
      end
  | _ => None
  end.

(** The accepted messages of a run: their addresses and times. *)
Fixpoint accepted (h : Hub) (evs : list (HubEvent * Z)) : list (string * Z) :=
  match evs with
  | [] => []
  | (ev, now) :: evs => match acceptedFrom h ev now with Some a => [(a, now)] | None => [] end ++ accepted (hubStep h ev now) evs
  end.

Definition inMinute (a : string) (m : Z) (r : string * Z) : bool := bool_decide (r.1 = a) && (r.2 / 60000 =? m).
Definition count (a : string) (m : Z) (l : list (string * Z)) : Z := Z.of_nat (length (List.filter (inMinute a m) l)).

(** What events other than an accepted message leave alone. *)
Lemma buckets_kept h ev now : acceptedFrom h ev now = None → ipChatBuckets (hubStep h ev now) = ipChatBuckets h.
Proof.
  destruct ev as [id who fwd remote hops|id raw|id|id|op]; cbn; try done; [|by destruct (mget id _)].
  unfold onMessage. destruct (mget id (clients h)) as [c|]; [|done]. cbv zeta.
  set (msg := safeJsonParse raw).
  destruct (isStr (field msg "type") "ping"); [done|]. destruct (isStr (field msg "type") "snapshot"); [done|].
  assert (Hsubs : ∀ change d i, ipChatBuckets (changeSubs delivers h id c msg change d i).1 = ipChatBuckets h).
  { intros change d i. unfold changeSubs. cbv zeta. destruct (isStr (field msg "topic") "global"); [done|]. destruct (isStr (field msg "topic") "table"); [|done].
    destruct (field msg "tableId"); try done. by destruct (validTableId s). }
  destruct (isStr (field msg "type") "subscribe"); [intros _; apply Hsubs|]. destruct (isStr (field msg "type") "unsubscribe"); [intros _; apply Hsubs|].
  destruct (isStr (field msg "type") "table_chat"); [|by destruct (isStr (field msg "type") "chat_history")].
  unfold tableChat. cbv zeta. by destruct (chatChecks _ _ _ _ _).
Qed.

Lemma isStr_eq j s : isStr j s = true → j = JStr s.
Proof. destruct j; cbn; try done. intros E. apply bool_decide_eq_true in E. by subst. Qed.

Lemma buckets_counted h ev now a : acceptedFrom h ev now = Some a → countChat h.(ipChatBuckets) a now = Some (ipChatBuckets (hubStep h ev now)).
Proof.
  destruct ev as [id who fwd remote hops|id raw|id|id|op]; cbn; try done. unfold onMessage. destruct (mget id (clients h)) as [c|]; [|done]. cbv zeta.
  set (msg := safeJsonParse raw). destruct (isStr (field msg "type") "table_chat") eqn:Et; [|done]. apply isStr_eq in Et. rewrite Et.
  change (isStr (JStr "table_chat") "ping") with false. change (isStr (JStr "table_chat") "snapshot") with false.
  change (isStr (JStr "table_chat") "subscribe") with false. change (isStr (JStr "table_chat") "unsubscribe") with false. cbv iota.
  unfold tableChat. cbv zeta. destruct (chatChecks _ _ _ _ _) as [|bs] eqn:E; [done|]. intros [= <-]. cbn [fst ipChatBuckets].
  unfold chatChecks in E. destruct (_ || _); [done|]. destruct (negb _); [done|]. destruct (getTable _ _); [|done]. destruct (tooSoon _ _); [done|].
  destruct (countChat _ _ _) as [bs'|]; [|done]. by injection E as ->.
Qed.

(** The bucket of an address counts what it got accepted in its minute, and
    nothing was accepted later. *)
Definition bucket_ok (buckets : list (string * IpBucket)) (past : list (string * Z)) (clock : Z) (a : string) : Prop :=
  match mget a buckets with
  | None => ∀ m, count a m past = 0
  | Some b => b.(ib_minute) <= clock / 60000 ∧ b.(ib_count) = count a b.(ib_minute) past ∧
              (∀ m, b.(ib_minute) < m → count a m past = 0)
  end ∧ ∀ m, count a m past <= IP_CHAT_LIMIT_PER_MIN.

Lemma count_app a m l k : count a m (l ++ k) = count a m l + count a m k.
Proof. unfold count. rewrite List.filter_app, length_app. lia. Qed.

Lemma count_one a m b now : count a m [(b, now)] = if bool_decide (b = a) && (now / 60000 =? m) then 1 else 0.
Proof. unfold count, inMinute. cbn [List.filter fst snd]. by destruct (_ && _). Qed.

Lemma bucket_later buckets past clock clock' a : clock <= clock' → bucket_ok buckets past clock a → bucket_ok buckets past clock' a.
Proof.
  intros Hc [Hb Hl]. split; [|done]. destruct (mget a buckets) as [b|]; [|done]. destruct Hb as (H1 & H2 & H3). split; [|done].
  pose proof (Z.div_le_mono clock clock' 60000 ltac:(done) Hc). lia.
Qed.

Lemma bucket_count buckets past clock a now buckets' : clock <= now → (∀ x, bucket_ok buckets past clock x) →
  countChat buckets a now = Some buckets' → ∀ x, bucket_ok buckets' (past ++ [(a, now)]) now x.
Proof.
  intros Hn Hok Hc x. assert (Hmono : clock / 60000 <= now / 60000) by by apply Z.div_le_mono.
  assert (Hset : ∃ b', buckets' = mset a b' buckets ∧ b'.(ib_minute) = now / 60000 ∧ b'.(ib_count) = count a (now / 60000) past + 1 ∧
    b'.(ib_count) <= IP_CHAT_LIMIT_PER_MIN ∧ ∀ m, now / 60000 < m → count a m past = 0).
  { destruct (Hok a) as [Hb Hl]. unfold countChat in Hc. cbv zeta in Hc. destruct (mget a buckets) as [b|] eqn:Eb.
    - destruct Hb as (H1 & H2 & H3). destruct (Z.eqb_spec (ib_minute b) (now / 60000)) as [Em|Em].
      + destruct (Z.leb_spec IP_CHAT_LIMIT_PER_MIN (ib_count b)); [done|]. injection Hc as <-. eexists. split; [done|]. cbn. rewrite <-Em. repeat split; try lia. intros m Hm. apply H3. lia.
      + injection Hc as <-. eexists. split; [done|]. cbn. rewrite (H3 (now / 60000)) by lia. unfold IP_CHAT_LIMIT_PER_MIN. repeat split; try lia. intros m Hm. apply H3. lia.
    - injection Hc as <-. eexists. split; [done|]. cbn. rewrite (Hb (now / 60000)). unfold IP_CHAT_LIMIT_PER_MIN. repeat split; try lia. intros m Hm. apply Hb. }
  destruct Hset as (b' & -> & Em & Ec & Eb & Hlate). unfold bucket_ok. rewrite mget_set.
  assert (Hcnt : ∀ m, count x m (past ++ [(a, now)]) = count x m past + if bool_decide (a = x) && (now / 60000 =? m) then 1 else 0) by (intros m; by rewrite count_app, count_one).
  destruct (decide (a = x)) as [E|E].
  - subst x. split.
    + rewrite Em, Hcnt, bool_decide_true, Z.eqb_refl by done. cbn [andb]. split; [lia|]. split; [lia|]. intros m Hm.
      rewrite Hcnt, (proj2 (Z.eqb_neq _ _)), andb_false_r by lia. rewrite Hlate by lia. lia.
    + intros m. rewrite Hcnt, bool_decide_true by done. cbn [andb]. destruct (Z.eqb_spec (now / 60000) m) as [<-|]; [lia|]. destruct (Hok a) as [_ Hl]. specialize (Hl m). lia.
  - assert (Hsame : ∀ m, count x m (past ++ [(a, now)]) = count x m past) by (intros m; rewrite Hcnt, bool_decide_false by done; cbn [andb]; lia).
    destruct (bucket_later _ _ clock now x Hn (Hok x)) as [H1 H2]. split; [|intros m; rewrite Hsame; apply H2].
    destruct (mget x buckets) as [b|]; [|intros m; rewrite Hsame; apply H1]. destruct H1 as (? & ? & ?). split; [done|]. split; [by rewrite Hsame|]. intros m Hm. rewrite Hsame. auto.
Qed.

Definition ordered (t : Z) (evs : list (HubEvent * Z)) : Prop := StronglySorted (λ x y, x <= y) (t :: map snd evs).

Lemma accepted_ok h evs past clock : ordered clock evs → (∀ x, bucket_ok h.(ipChatBuckets) past clock x) →
  ∀ a m, count a m (past ++ accepted h evs) <= IP_CHAT_LIMIT_PER_MIN.
Proof.
  revert h past clock. induction evs as [|[ev now] evs IH]; intros h past clock Ho Hok a m; cbn [accepted]; [rewrite app_nil_r; apply Hok|].
  apply StronglySorted_inv in Ho as [Ho Hc]. assert (Hn : clock <= now) by by apply Forall_inv in Hc.
  rewrite (app_assoc past). apply (IH _ _ now); [exact Ho|].
  destruct (acceptedFrom h ev now) as [x|] eqn:E.
  - apply (bucket_count h.(ipChatBuckets) past clock x now); [done|done|by apply buckets_counted].
  - rewrite app_nil_r, buckets_kept by done. intros y. by apply (bucket_later _ _ clock).
Qed.

(** The chat limit.  Whatever connections come and go and whatever they send,
    in every minute of the clock at most 30 chat messages from one address are
    accepted over all its connections; and a message is accepted on a
    connection only a second after the last. *)
Theorem chat_limited store evs t : ordered t evs →
  (∀ a m, count a m (accepted (mkHub [] [] store) evs) <= 30) ∧
  ∀ h id raw now c a, mget id h.(clients) = Some c → acceptedFrom h (EvMessage id raw) now = Some a →
    (∀ last, c.(lastChatMs) = Some last → last ≠ 0 → last + 1000 <= now) ∧
    ∃ c', mget id (hubStep h (EvMessage id raw) now).(clients) = Some c' ∧ c'.(lastChatMs) = Some now.
Proof.
  intros Ho. split.
  - apply (accepted_ok _ evs [] t Ho). intros x. split; [done|]. intros m. done.
  - intros h id raw now c a Hc Ha. cbn in *. unfold onMessage. rewrite Hc in *. cbv zeta in *. set (msg := safeJsonParse raw) in *.
    destruct (isStr (field msg "type") "table_chat") eqn:Et; [|done]. apply isStr_eq in Et. rewrite Et.
    change (isStr (JStr "table_chat") "ping") with false. change (isStr (JStr "table_chat") "snapshot") with false.
    change (isStr (JStr "table_chat") "subscribe") with false. change (isStr (JStr "table_chat") "unsubscribe") with false. cbv iota.
    unfold tableChat. cbv zeta. destruct (chatChecks _ _ _ _ _) as [|bs] eqn:E; [done|]. cbn [fst clients]. split.
    + intros last Hl Hne. unfold chatChecks in E. destruct (_ || _); [done|]. destruct (negb _); [done|]. destruct (getTable _ _); [|done].
      destruct (tooSoon c now) eqn:Es; [done|]. unfold tooSoon in Es. rewrite Hl in Es. rewrite (proj2 (Z.eqb_neq _ _) Hne) in Es. cbn [negb andb] in Es. b2p. lia.
    + rewrite mget_set, decide_True by done. eexists. split; [done|]. done.
Qed.

End thms.

(** ** A table, a subscriber that chats, and another that does not *)

Definition toy_params : TableParams := mkTableParams (Some 9) "1" "2" "100" "1000" None None.
Definition toy_info : TableInfo := mkTableInfo "t" None toy_params open 0.
Definition toy_say (s : string) : json := JObj [("type", JStr "table_chat"); ("tableId", JStr "t"); ("text", JStr s)].
Definition toy_subscribe : json := JObj [("type", JStr "subscribe"); ("topic", JStr "table"); ("tableId", JStr "t")].
Definition toy_evs : list (HubEvent * Z) := [
  (EvStore (OpUpsert toy_info), 1); (EvConnect 0 "aaaa" (Some (OneHeader "6.6.6.6, 9.9.9.9")) "10.0.0.1" None, 2);
  (EvMessage 0 (stringify false (toy_say "early")), 3); (EvMessage 0 (stringify false toy_subscribe), 4);
  (EvMessage 0 (stringify false (toy_say "hi")), 5000); (EvMessage 0 (stringify false (toy_say "spam")), 5001)].

Lemma chat_limited_witness :
  accepted toy_limits (λ _ _, true) (λ _ _, true) (mkHub [] [] newStore) toy_evs = [("9.9.9.9", 5000)] ∧
  count "9.9.9.9" 0 (accepted toy_limits (λ _ _, true) (λ _ _, true) (mkHub [] [] newStore) toy_evs) <= 30.
Proof.
  split; [vm_compute; reflexivity|]. refine (proj1 (chat_limited toy_limits (λ _ _, true) (λ _ _, true) newStore toy_evs 0 _) "9.9.9.9" 0).
  repeat (constructor; [|repeat (constructor; [cbn; lia|]); constructor]). constructor.
Defined.

(** The first connection has subscribed to the table, the second has not. *)
Definition toy_hub : Hub := mkHub [(0%nat, mkClient {[tableTopic "t"]} None "anon-a" "9.9.9.9" true); (1%nat, mkClient ∅ None "anon-b" "8.8.8.8" true)] []
  (run toy_limits newStore [OpUpsert toy_info]).

Lemma hub_delivers_witness : let '(h', sent) := tableChat (λ _ _, true) toy_hub 0 (mkClient {[tableTopic "t"]} None "anon-a" "9.9.9.9" true) (toy_say "hi") 7000 in
  sent.*1 = [0%nat] ∧ getChatHistory h'.(hubStore) "t" = [mkChat "anon-a" "hi" 7000].
Proof.
  destruct (hub_delivers toy_limits (λ _ _, true) toy_hub) as (_ & _ & Hchat).
  - apply (bool_decide_unpack _). vm_compute. exact I.
  - apply ops_ok; [vm_compute; discriminate|]. apply newStore_ok. vm_compute. discriminate.
  - specialize (Hchat 0%nat _ (toy_say "hi") 7000 eq_refl). destruct (tableChat _ _ _ _ _ _) as [h' sent] eqn:E.
    split; [vm_compute in E; injection E as <- <-; reflexivity|]. vm_compute in Hchat. destruct Hchat as (_ & Hh & _). vm_compute in E. injection E as <- <-. exact Hh.
Defined.
End CoordWsThms.
