(* ===== verification/TextCodec.v ===== *)
(** * Base64 and UTF-8, as the platform has them

    A JavaScript string is the list of its characters where it is ASCII, and of
    the bytes of its UTF-8 form otherwise.  [Buffer.from(s, "base64")] and
    [buf.toString("base64")] are [fromBase64] and [toBase64], [atob] is
    [atob], and [isUtf8] tells the byte strings that [TextDecoder] accepts and
    that [buf.toString("utf8")] turns into text without a replacement
    character.  Encoding and then decoding is the identity, and decoding is
    strict on the texts that encoding the result gives back. *)
From stdpp Require Import base option list numbers.
From Stdlib Require Import ZArith Lia Ascii.
From S2P Require Import Prelude OcpBytes.
Import Bytes.

Module TextCodec.

Definition byteOf (c : ascii) : Z := Z.of_nat (nat_of_ascii c).
Definition charOf (b : Z) : ascii := ascii_of_nat (Z.to_nat b).

(** ** Base64 *)

Definition b64Char (v : Z) : ascii :=
  if v <? 26 then charOf (65 + v) else if v <? 52 then charOf (97 + (v - 26)) else if v <? 62 then charOf (48 + (v - 52))
  else if v =? 62 then "+"%char else "/"%char.

Definition b64Value (c : ascii) : option Z :=
  let n := byteOf c in
  if (65 <=? n) && (n <=? 90) then Some (n - 65)
  else if (97 <=? n) && (n <=? 122) then Some (n - 97 + 26)
  else if (48 <=? n) && (n <=? 57) then Some (n - 48 + 52)
  else if n =? 43 then Some 62
  else if n =? 47 then Some 63
  else None.

(** The characters for the bytes, without padding: three bytes are four
    characters, two are three, one is two. *)
Fixpoint encode (l : bytes) : list Z :=
  match l with
  | a :: b :: c :: l => a / 4 :: (a mod 4) * 16 + b / 16 :: (b mod 16) * 4 + c / 64 :: c mod 64 :: encode l
  | [a; b] => [a / 4; (a mod 4) * 16 + b / 16; (b mod 16) * 4]
  | [a] => [a / 4; (a mod 4) * 16]
  | [] => []
  end.

Definition padding (n : nat) : list ascii := replicate ((4 - n mod 4) mod 4) "="%char.
Definition toBase64 (l : bytes) : list ascii := let s := map b64Char (encode l) in s ++ padding (length s).

(** The bytes of the values; the bits that are left over are dropped. *)
Fixpoint decode (l : list Z) : bytes :=
  match l with
  | a :: b :: c :: d :: l => a * 4 + b / 16 :: (b mod 16) * 16 + c / 4 :: (c mod 4) * 64 + d :: decode l
  | [a; b; c] => [a * 4 + b / 16; (b mod 16) * 16 + c / 4]
  | [a; b] => [a * 4 + b / 16]
  | _ => []
  end.

(** The values up to the first character that is not one of the alphabet. *)
Fixpoint b64Values (s : list ascii) : list Z :=
  match s with
  | c :: s => match b64Value c with Some v => v :: b64Values s | None => [] end
  | [] => []
  end.

(** For strings of alphabet characters followed by padding. *)
Definition fromBase64 (s : list ascii) : bytes := decode (b64Values s).

(** [atob]: up to two padding characters of a string whose length is a multiple
    of four are removed; [None] is an exception. *)
Definition isPad (c : ascii) : bool := bool_decide (c = "="%char).
Fixpoint dropPad (n : nat) (r : list ascii) : list ascii :=
  match n, r with S n, c :: r' => if isPad c then dropPad n r' else r | _, _ => r end.
Definition atob (s : list ascii) : option bytes :=
  let s := if (length s mod 4 =? 0)%nat then rev (dropPad 2 (rev s)) else s in
  if (length s mod 4 =? 1)%nat then None
  else decode <$> mapM b64Value s.

(** ** UTF-8 *)

Definition inRange (lo hi b : Z) : bool := (lo <=? b) && (b <=? hi).
Definition cont (b : Z) : bool := inRange 128 191 b.
(** The second byte after a leading byte of three or four. *)
Definition second3 (a b : Z) : bool := if a =? 224 then inRange 160 191 b else if a =? 237 then inRange 128 159 b else cont b.
Definition second4 (a b : Z) : bool := if a =? 240 then inRange 144 191 b else if a =? 244 then inRange 128 143 b else cont b.

Fixpoint isUtf8 (l : bytes) : bool :=
  match l with
  | [] => true
  | a :: l1 =>
      if inRange 0 127 a then isUtf8 l1
      else match l1 with
           | [] => false
           | b :: l2 =>
               if inRange 194 223 a then cont b && isUtf8 l2
               else match l2 with
                    | [] => false
                    | c :: l3 =>
                        if inRange 224 239 a then second3 a b && cont c && isUtf8 l3
                        else match l3 with
                             | [] => false
                             | d :: l4 => inRange 240 244 a && second4 a b && cont c && cont d && isUtf8 l4
                             end
                    end
           end
  end.

(** The text holds the replacement character U+FFFD of its own. *)
Definition startsWith3 (x y z : Z) (l : bytes) : bool :=
  match l with a :: b :: c :: _ => (a =? x) && (b =? y) && (c =? z) | _ => false end.
Fixpoint hasReplacement (l : bytes) : bool :=
  match l with
  | [] => false
  | _ :: l' => startsWith3 239 191 189 l || hasReplacement l'
  end.

(** [buf.toString("utf8")] without replacement characters, else [None]. *)
Definition utf8Text (l : bytes) : option (list ascii) := if isUtf8 l && negb (hasReplacement l) then Some (map charOf l) else None.

(** [new TextDecoder("utf-8", { fatal: true }).decode(bytes)]: a byte order mark
    at the beginning is dropped. *)
Definition dropBom (l : bytes) : bytes := if startsWith3 239 187 191 l then drop 3 l else l.
Definition textDecoder (l : bytes) : option (list ascii) := if isUtf8 l then Some (map charOf (dropBom l)) else None.

(** ** Lemmas *)

Definition isByte (b : Z) : Prop := 0 <= b < 256.
Definition isSextet (v : Z) : Prop := 0 <= v < 64.

Lemma byteOf_charOf b : isByte b → byteOf (charOf b) = b.
Proof. unfold isByte, byteOf, charOf. intros Hb. rewrite nat_ascii_embedding by lia. lia. Qed.

Lemma charOf_byteOf c : charOf (byteOf c) = c.
Proof. unfold charOf, byteOf. rewrite Nat2Z.id. apply ascii_nat_embedding. Qed.

Lemma byteOf_isByte c : isByte (byteOf c).
Proof. unfold isByte, byteOf. pose proof (nat_ascii_bounded c). lia. Qed.

(** What holds of all values below [n] is checked by computing. *)
Lemma below (f : Z → bool) n v : forallb (λ k, f (Z.of_nat k)) (seq 0 n) = true → 0 <= v < Z.of_nat n → f v = true.
Proof. rewrite forallb_forall. intros H Hv. specialize (H (Z.to_nat v)). rewrite Z2Nat.id in H by lia. apply H, in_seq. lia. Qed.

Lemma b64_value_char v : isSextet v → b64Value (b64Char v) = Some v.
Proof.
  intros Hv. pose proof (below (λ v, match b64Value (b64Char v) with Some w => w =? v | None => false end) 64 v eq_refl Hv) as H.
  cbv beta in H. destruct (b64Value _); [by f_equal; apply Z.eqb_eq|done].
Qed.

Lemma b64_char_value c v : b64Value c = Some v → b64Char v = c ∧ isSextet v.
Proof.
  pose proof (below (λ n, match b64Value (charOf n) with Some v => bool_decide (b64Char v = charOf n) && (0 <=? v) && (v <? 64) | None => true end) 256 (byteOf c)) as H.
  cbv beta in H. rewrite charOf_byteOf in H. intros E. rewrite E in H. specialize (H eq_refl (byteOf_isByte c)). unfold isSextet. apply andb_prop in H as [[H1 H2]%andb_prop H3]. apply bool_decide_eq_true_1 in H1. split; [exact H1|lia].
Qed.

Lemma three_ind {A} (P : list A → Prop) :
  P [] → (∀ a, P [a]) → (∀ a b, P [a; b]) → (∀ a b c l, P l → P (a :: b :: c :: l)) → ∀ l, P l.
Proof. intros H0 H1 H2 H3. fix IH 1. intros [|a [|b [|c l]]]; [done|apply H1|apply H2|apply H3, IH]. Qed.

Lemma four_ind {A} (P : list A → Prop) :
  P [] → (∀ a, P [a]) → (∀ a b, P [a; b]) → (∀ a b c, P [a; b; c]) → (∀ a b c d l, P l → P (a :: b :: c :: d :: l)) → ∀ l, P l.
Proof. intros H0 H1 H2 H3 H4. fix IH 1. intros [|a [|b [|c [|d l]]]]; [done|apply H1|apply H2|apply H3|apply H4, IH]. Qed.

Ltac sextets := unfold isByte, isSextet in *; repeat match goal with H : Forall _ (_ :: _) |- _ => pose proof (Forall_inv H); apply Forall_inv_tail in H end; cbv beta in *.

Lemma encode_sextets l : Forall isByte l → Forall isSextet (encode l).
Proof.
  induction l as [|a|a b|a b c l IH] using three_ind; intros H; cbn [encode]; sextets;
    repeat apply Forall_cons_2; try apply Forall_nil_2; cbv beta; try (Z.to_euclidean_division_equations; lia). by apply IH.
Qed.

Lemma decode_encode l : Forall isByte l → decode (encode l) = l.
Proof.
  induction l as [|a|a b|a b c l IH] using three_ind; intros H; cbn [encode decode]; sextets; [done|..]; repeat f_equal;
    try (Z.to_euclidean_division_equations; lia). by apply IH.
Qed.

Lemma decode_bytes l : Forall isSextet l → Forall isByte (decode l).
Proof.
  induction l as [|a|a b|a b c|a b c d l IH] using four_ind; intros H; cbn [decode]; sextets;
    repeat apply Forall_cons_2; try apply Forall_nil_2; cbv beta; try (Z.to_euclidean_division_equations; lia). by apply IH.
Qed.

Lemma b64Value_pad : b64Value "="%char = None.
Proof. reflexivity. Qed.

Lemma b64Values_chars vs p : Forall isSextet vs → b64Values (map b64Char vs ++ replicate p "="%char) = vs.
Proof.
  induction 1 as [|v vs Hv _ IH]; cbn [map app b64Values]; [by destruct p|]. by rewrite b64_value_char, IH.
Qed.

Lemma fromBase64_chars vs p : Forall isSextet vs → fromBase64 (map b64Char vs ++ replicate p "="%char) = decode vs.
Proof. intros H. unfold fromBase64. by rewrite b64Values_chars. Qed.

(** Decoding inverts encoding. *)
Lemma fromBase64_toBase64 l : Forall isByte l → fromBase64 (toBase64 l) = l.
Proof. intros H. unfold toBase64, padding. rewrite fromBase64_chars by by apply encode_sextets. by apply decode_encode. Qed.

Lemma b64Char_inj v w : isSextet v → isSextet w → b64Char v = b64Char w → v = w.
Proof. intros Hv Hw E. apply b64_value_char in Hv, Hw. rewrite E in Hv. congruence. Qed.

Lemma map_b64Char_inj vs ws : Forall isSextet vs → Forall isSextet ws → map b64Char vs = map b64Char ws → vs = ws.
Proof.
  intros Hv. revert ws. induction Hv as [|v vs Hv _ IH]; intros [|w ws] Hw E; try done.
  cbn in E. injection E as E1 E2. pose proof (Forall_inv Hw). apply Forall_inv_tail in Hw. f_equal; [by apply b64Char_inj|by apply IH].
Qed.

(** Any string of alphabet characters is one of values. *)
Lemma alphabet_values s : Forall (λ c, is_Some (b64Value c)) s → ∃ vs, s = map b64Char vs ∧ Forall isSextet vs.
Proof.
  induction 1 as [|c s [v Hv] _ [vs [-> Hvs]]]; [by exists []|]. apply b64_char_value in Hv as [<- Hv].
  exists (v :: vs). split; [done|by constructor].
Qed.

Lemma mapM_chars vs : Forall isSextet vs → mapM b64Value (map b64Char vs) = Some vs.
Proof. induction 1 as [|v vs Hv _ IH]; [done|]. cbn [map mapM]. rewrite b64_value_char by done. cbn. by rewrite IH. Qed.

(** ** [atob] *)

Lemma mod4 k r : (r < 4)%nat → ((k * 4 + r) mod 4 = r)%nat.
Proof. intros Hr. rewrite Nat.add_comm, Nat.Div0.mod_add. by apply Nat.mod_small. Qed.

Lemma isPad_b64Char v : isSextet v → isPad (b64Char v) = false.
Proof. intros Hv. unfold isPad. apply bool_decide_eq_false. intros E. apply b64_value_char in Hv. by rewrite E in Hv. Qed.

Lemma dropPad_here n p r : (∀ c r', r = c :: r' → isPad c = false) → dropPad n (replicate p "="%char ++ r) = replicate (p - n) "="%char ++ r.
Proof.
  intros Hr. revert n. induction p as [|p IH]; intros n; cbn [replicate app Nat.sub].
  - destruct n as [|n], r as [|c r]; try done. cbn. by rewrite (Hr c r).
  - destruct n as [|n]; [done|]. cbn. apply IH.
Qed.

(** Two of the padding characters are removed. *)
Lemma dropPad_chars vs p : Forall isSextet vs → rev (dropPad 2 (rev (map b64Char vs ++ replicate p "="%char))) = map b64Char vs ++ replicate (p - 2) "="%char.
Proof.
  intros Hvs. assert (Hrep : ∀ n, rev (replicate n "="%char) = replicate n "="%char) by (intros n; rewrite rev_alt; apply reverse_replicate).
  rewrite rev_app_distr, Hrep, dropPad_here; [by rewrite rev_app_distr, rev_involutive, Hrep|].
  intros c r' Hc. assert (Hin : In c (rev (map b64Char vs))) by (rewrite Hc; by left).
  apply in_rev, in_map_iff in Hin as (v & <- & Hv). apply isPad_b64Char. exact (proj1 (List.Forall_forall _ _) Hvs v Hv).
Qed.

(** With the right padding the values are decoded. *)
Lemma atob_chars vs p : Forall isSextet vs → (p <= 2)%nat → ((length vs + p) mod 4 = 0)%nat → atob (map b64Char vs ++ replicate p "="%char) = Some (decode vs).
Proof.
  intros Hvs Hp Hm. unfold atob. rewrite length_app, length_map, length_replicate, Hm. cbn [Nat.eqb]. rewrite dropPad_chars by done.
  replace (p - 2)%nat with 0%nat by lia. cbn [replicate]. rewrite app_nil_r, length_map, mapM_chars by done.
  destruct (length vs mod 4 =? 1)%nat eqn:E; [|done]. apply Nat.eqb_eq in E. exfalso.
  rewrite Nat.Div0.add_mod, E, (Nat.mod_small p) in Hm by lia. destruct p as [|[|[|p]]]; [done..|lia].
Qed.

Lemma mapM_none {A B} (f : A → option B) l x : f x = None → mapM f (l ++ [x]) = None.
Proof. intros Hx. induction l as [|y l IH]; cbn [app mapM]; [by rewrite Hx|]. destruct (f y); [|done]. cbn. by rewrite IH. Qed.

(** A third padding character is not one of the alphabet. *)
Lemma atob_three vs : Forall isSextet vs → ((length vs + 3) mod 4 = 0)%nat → atob (map b64Char vs ++ replicate 3 "="%char) = None.
Proof.
  intros Hvs Hm. unfold atob. rewrite length_app, length_map, length_replicate, Hm. cbn [Nat.eqb]. rewrite dropPad_chars by done.
  cbn [Nat.sub replicate]. rewrite mapM_none by done. by case_match.
Qed.

Lemma encode_length l : ∃ k r, length (encode l) = (k * 4 + r)%nat ∧ (r = 0 ∨ r = 2 ∨ r = 3)%nat ∧ length l = (k * 3 + pred r)%nat.
Proof.
  induction l as [|a|a b|a b c l (k & r & E & Hr & El)] using three_ind; cbn [encode length].
  - exists 0%nat, 0%nat. lia.
  - exists 0%nat, 2%nat. lia.
  - exists 0%nat, 3%nat. lia.
  - exists (S k), r. lia.
Qed.

Lemma padding_pads n : padding n = replicate ((4 - n mod 4) mod 4) "="%char.
Proof. done. Qed.

Lemma padded_mod4 n : (n mod 4 ≠ 1)%nat → ((4 - n mod 4) mod 4 <= 2)%nat ∧ ((n + (4 - n mod 4) mod 4) mod 4 = 0)%nat.
Proof.
  intros H. rewrite Nat.Div0.add_mod. pose proof (Nat.mod_upper_bound n 4). destruct (n mod 4)%nat as [|[|[|[|?]]]]; cbn; lia.
Qed.

Lemma atob_toBase64 l : Forall isByte l → atob (toBase64 l) = Some l.
Proof.
  intros Hl. unfold toBase64. rewrite padding_pads, length_map. destruct (encode_length l) as (k & r & E & Hr & _).
  destruct (padded_mod4 (length (encode l))) as [H1 H2]; [rewrite E, mod4; lia|].
  rewrite atob_chars; [by rewrite decode_encode|by apply encode_sextets|done|done].
Qed.

Lemma isUtf8_bytes l : isUtf8 l = true → Forall isByte l.
Proof.
  unfold isByte. assert (∀ n l, (length l <= n)%nat → isUtf8 l = true → Forall (λ b, 0 <= b < 256) l) as H; [|by apply (H (length l))].
  clear l. induction n as [|n IH]; intros l Hn.
  { destruct l; [constructor|cbn in Hn; lia]. }
  destruct l as [|a l1]; [constructor|]. cbn [isUtf8 length] in *. unfold second4, second3, cont, inRange.
  destruct ((0 <=? a) && (a <=? 127)) eqn:E1.
  { intros H. constructor; [lia|]. apply IH; [lia|done]. }
  destruct l1 as [|b l2]; [done|]. cbn [length] in Hn. destruct ((194 <=? a) && (a <=? 223)) eqn:E2.
  { intros [Hb Hl]%andb_prop. repeat (constructor; [lia|]). apply IH; [lia|done]. }
  destruct l2 as [|c l3]; [done|]. cbn [length] in Hn. destruct ((224 <=? a) && (a <=? 239)) eqn:E3.
  { intros [[Hb Hc]%andb_prop Hl]%andb_prop. constructor; [lia|]. constructor; [destruct (a =? 224); [lia|]; destruct (a =? 237); lia|].
    constructor; [lia|]. apply IH; [lia|done]. }
  destruct l3 as [|d l4]; [done|]. cbn [length] in Hn. intros [[[[Ha Hb]%andb_prop Hc]%andb_prop Hd]%andb_prop Hl]%andb_prop.
  constructor; [lia|]. constructor; [destruct (a =? 240); [lia|]; destruct (a =? 244); lia|].
  do 2 (constructor; [lia|]). apply IH; [lia|done].
Qed.

Example base64_example : toBase64 (map byteOf ["t"; "a"; "b"; "l"; "e"; "I"; "d"]%char) = ["d"; "G"; "F"; "i"; "b"; "G"; "V"; "J"; "Z"; "A"; "="; "="]%char.
Proof. reflexivity. Qed.
Example atob_example : atob ["N"; "w"; "="; "="]%char = Some [55].
Proof. reflexivity. Qed.

End TextCodec.
