(* ===== verification/CoordEvents.v ===== *)
(** * What the coordinator reads from the chain: the event and table parsers of
      [apps/coordinator/src/chain/comet.ts] and [cosmos.ts]

    The two adapters share the text of their event parser; their table parsers
    differ.  Attributes of events may be base64 or plain: the code guesses. *)
From stdpp Require Import base option list strings pretty.
From Stdlib Require Import ZArith Lia Ascii.
From S2P Require Import Prelude OcpBytes Json JsMap CoordStore CoordConfig CoordDealer TextCodec.
Import Bytes Json JsMap CoordStore CoordConfig TextCodec.

Module CoordEvents.

#[local] Open Scope string_scope.
#[local] Open Scope list_scope.
#[local] Open Scope Z_scope.

(** ** Attributes *)

Definition inAlphabet (c : ascii) : bool := if b64Value c is Some _ then true else false.
Fixpoint dropAlphabet (s : list ascii) : list ascii :=
  match s with c :: s' => if inAlphabet c then dropAlphabet s' else s | [] => [] end.

(** [/^[A-Za-z0-9+/]+={0,2}$/] *)
Definition base64Like (s : list ascii) : bool :=
  match s with
  | c :: _ => inAlphabet c && let pad := dropAlphabet s in forallb isPad pad && (length pad <=? 2)%nat
  | [] => false
  end.

(** [x.replace(/=+$/, "")] *)
Fixpoint dropPads (r : list ascii) : list ascii := match r with c :: r' => if isPad c then dropPads r' else r | [] => [] end.
Definition stripPad (s : list ascii) : list ascii := rev (dropPads (rev s)).

(** The string padded to a multiple of four characters. *)
Definition padded (s : list ascii) : list ascii := s ++ padding (length s).

Definition decodeAttr (norm : list ascii) : list ascii :=
  if bool_decide (norm = []) then []
  else if negb (base64Like norm) then norm
  else
    let buf := fromBase64 (padded norm) in
    if negb (bool_decide (stripPad (toBase64 buf) = stripPad (padded norm))) then norm
    else default norm (utf8Text buf).

Definition maybeBase64ToUtf8 (s : string) : string := text (decodeAttr (chars s)).

(** [for (const a of attrs ?? []) ... out[k] = v] *)
Definition addAttr (out : list (string * json)) (a : json) : list (string * json) :=
  match field a "key" with
  | JStr key => mset (maybeBase64ToUtf8 key) (JStr (maybeBase64ToUtf8 (toStr (orElse (field a "value") (JStr EmptyString))))) out
  | _ => out
  end.
Definition attrsToObject (attrs : json) : json := JObj (foldl addAttr [] (elems attrs)).

(** [x ? String(x) : undefined] *)
Definition someStr (x : json) : option string := if truthy x then Some (toStr x) else None.

(** ** Events *)

Fixpoint cosmosEventsToChainEvents (events : list json) (idx timeMs : Z) : list ChainEvent :=
  match events with
  | [] => []
  | ev :: events =>
      match field ev "type" with
      | JStr name =>
          let data := attrsToObject (field ev "attributes") in
          mkChainEvent name (someStr (field data "tableId")) (someStr (field data "handId")) idx timeMs data
            :: cosmosEventsToChainEvents events (idx + 1) timeMs
      | _ => cosmosEventsToChainEvents events idx timeMs
      end
  end.

(** [comet.ts] has the same function under another name. *)
Definition v0EventsToChainEvents : list json → Z → Z → list ChainEvent := cosmosEventsToChainEvents.

(** [value && typeof value === "object"], and [k in value] *)
Definition isObject (j : json) : bool := match j with JObj _ | JArr _ | JBytes _ => true | _ => false end.
Definition hasKey (k : string) (j : json) : bool :=
  match j with JObj fields => existsb (λ kv, bool_decide (fst kv = k)) fields | _ => false end.

Definition extractTxResult (msg : json) : option json :=
  let root := orElse (field msg "result") (orElse (field (field msg "params") "result") JNull) in
  if negb (truthy root) then None
  else
    let data := orElse (field root "data") root in
    let value := orElse (field data "value") data in
    if isObject value && hasKey "TxResult" value then Some (field value "TxResult")
    else if isObject value && (hasKey "result" value || hasKey "events" value) then Some value
    else None.

(** The events of a transaction's result: [[]] when there are none to be told. *)
Definition txEvents (msg : json) : list json :=
  match extractTxResult msg with
  | Some tx => if truthy tx then elems (orElse (field (field tx "result") "events") (orElse (field tx "events") (JArr []))) else []
  | None => []
  end.

(** ** Tables *)

Definition orEmpty (j : json) : json := orElse j (JStr EmptyString).
Definition either (obj : json) (a b : string) (d : json) : json := orElse (field obj a) (orElse (field obj b) d).

Definition v0TableToTableInfo (v0 : json) (nowMs : Z) : TableInfo :=
  let params := orElse (field v0 "params") (JObj []) in
  let str a b := toStr (either params a b (JStr "0")) in
  mkTableInfo (toStr (orEmpty (field v0 "id"))) (nonEmpty (toStr (orEmpty (field v0 "label"))))
    (mkTableParams (jsNumber (either params "maxPlayers" "max_players" (JNum 9))) (str "smallBlind" "small_blind") (str "bigBlind" "big_blind")
       (str "minBuyIn" "min_buy_in") (str "maxBuyIn" "max_buy_in")
       (nonEmpty (toStr (either params "passwordHash" "password_hash" (JStr EmptyString)))) None)
    (if truthy (field v0 "hand") then in_hand else open) nowMs.

(** [cosmos.ts]: numbers and strings only *)
Definition asString (x : json) : string := match x with JStr s => s | JNum z => pretty z | _ => EmptyString end.

(** [v?.k ?? v?.table?.k] *)
Definition nested (v : json) (k : string) : json := orElse (field v k) (field (field v "table") k).

Definition statusOf (statusRaw : string) : TableStatus :=
  if bool_decide (statusRaw = "in_hand") || bool_decide (statusRaw = "IN_HAND") then in_hand
  else if bool_decide (statusRaw = "closed") || bool_decide (statusRaw = "CLOSED") then closed
  else open.

Definition pokerTableToTableInfo (v : json) (nowMs : Z) : TableInfo :=
  let params := orElse (nested v "params") (JObj []) in
  let str a b := asString (either params a b (JStr "0")) in
  let status := statusOf (toStr (orEmpty (nested v "status"))) in
  mkTableInfo (asString (orElse (nested v "tableId") (nested v "id"))) (nonEmpty (asString (nested v "label")))
    (mkTableParams (Some (default 9 (CoordDealer.asNumber (field params "maxPlayers")))) (str "smallBlind" "small_blind") (str "bigBlind" "big_blind")
       (str "minBuyIn" "min_buy_in") (str "maxBuyIn" "max_buy_in")
       (nonEmpty (asString (orElse (field params "passwordHash") (field params "password_hash"))))
       (nonEmpty (asString (orElse (field params "passwordSalt") (field params "password_salt")))))
    (match status with open => if truthy (nested v "hand") then in_hand else open | s => s end) nowMs.

Example plain_seven : maybeBase64ToUtf8 "7" = "7".
Proof. reflexivity. Qed.
Example base64_seven : maybeBase64ToUtf8 "Nw==" = "7".
Proof. reflexivity. Qed.
Example test_events :
  cosmosEventsToChainEvents [JObj [("type", JStr "HandStarted"); ("attributes", JArr [JObj [("key", JStr "dGFibGVJZA=="); ("value", JStr "Nw==")];
                                                                                     JObj [("key", JStr "handId"); ("value", JStr "42")]])]] 1 123
  = [mkChainEvent "HandStarted" (Some "7") (Some "42") 1 123 (JObj [("tableId", JStr "7"); ("handId", JStr "42")])].
Proof. reflexivity. Qed.
Example test_flop : maybeBase64ToUtf8 "flop" = "~Z)".
Proof. reflexivity. Qed.
Example test_table :
  v0TableToTableInfo (JObj [("id", JNum 7); ("params", JObj [("maxPlayers", JNum 9); ("smallBlind", JNum 1); ("bigBlind", JNum 2); ("minBuyIn", JNum 100); ("maxBuyIn", JNum 1000)]); ("hand", JNull)]) 123
  = mkTableInfo "7" None (mkTableParams (Some 9) "1" "2" "100" "1000" None None) open 123.
Proof. reflexivity. Qed.

End CoordEvents.

(** ** The guess that the event parsers make, and the two table parsers *)
Import Bytes Json JsMap CoordStore CoordConfig TextCodec CoordEvents.

Module CoordEventsThms.

#[local] Open Scope string_scope.
#[local] Open Scope list_scope.
#[local] Open Scope Z_scope.

Definition pads (p : nat) : list ascii := replicate p "="%char.

(** ** The form of the strings that are taken for base64 *)

Lemma dropPads_pads p l : dropPads (pads p ++ l) = dropPads l.
Proof. induction p as [|p IH]; [done|exact IH]. Qed.

Lemma rev_pads p : rev (pads p) = pads p.
Proof. unfold pads. by rewrite <-reverse_Permutation_eq || (induction p as [|p IH]; [done|]; cbn [replicate rev]; rewrite IH; clear IH; induction p as [|p IH]; [done|]; cbn [replicate app]; by rewrite IH). Qed.

Lemma stripPad_chars vs p : Forall isSextet vs → stripPad (map b64Char vs ++ pads p) = map b64Char vs.
Proof.
  intros Hv. unfold stripPad. rewrite rev_app_distr, rev_pads, dropPads_pads, <-map_rev.
  assert (dropPads (map b64Char (rev vs)) = map b64Char (rev vs)) as ->.
  { assert (Forall isSextet (rev vs)) as H by by apply Forall_rev. destruct H as [|v vs' Hv' _]; [done|]. cbn. by rewrite isPad_b64Char. }
  by rewrite map_rev, rev_involutive.
Qed.

Lemma forallb_isPad l : forallb isPad l = true → l = pads (length l).
Proof.
  induction l as [|c l IH]; [done|]. cbn [forallb length pads replicate]. intros [Hc Hl]%andb_prop.
  apply bool_decide_eq_true_1 in Hc as ->. f_equal. by apply IH.
Qed.

Lemma inAlphabet_b64Char v : isSextet v → inAlphabet (b64Char v) = true.
Proof. intros Hv. unfold inAlphabet. by rewrite b64_value_char. Qed.

Lemma dropAlphabet_split s : ∃ vs, Forall isSextet vs ∧ s = map b64Char vs ++ dropAlphabet s.
Proof.
  induction s as [|c s [vs [Hvs IH]]]; [by exists []|]. cbn [dropAlphabet]. unfold inAlphabet.
  destruct (b64Value c) as [v|] eqn:E; [|by exists []]. apply b64_char_value in E as [<- Hv].
  exists (v :: vs). split; [by constructor|]. cbn. by f_equal.
Qed.

Lemma dropAlphabet_chars vs p : Forall isSextet vs → dropAlphabet (map b64Char vs ++ pads p) = pads p.
Proof. induction 1 as [|v vs Hv _ IH]; [by destruct p|]. cbn. by rewrite inAlphabet_b64Char. Qed.

(** Values and at most two padding characters. *)
Lemma base64Like_spec s : base64Like s = true ↔ ∃ vs p, vs ≠ [] ∧ Forall isSextet vs ∧ (p <= 2)%nat ∧ s = map b64Char vs ++ pads p.
Proof.
  split.
  - destruct s as [|c s]; [done|]. unfold base64Like. intros [Hc [Hp Hn]%andb_prop]%andb_prop.
    destruct (dropAlphabet_split (c :: s)) as (vs & Hvs & E). exists vs, (length (dropAlphabet (c :: s))).
    split; [|split; [done|split; [by apply Nat.leb_le|]]].
    + intros ->. rewrite E in Hp. cbn in Hp, E. rewrite Hc in E. clear Hp Hn. assert (length (c :: s) <= length s)%nat as H; [|cbn in H; lia].
      rewrite E at 1. clear. induction s as [|d s IH]; [done|]. cbn [dropAlphabet]. destruct (inAlphabet d); cbn [length]; lia.
    + rewrite E at 1. f_equal. by apply forallb_isPad.
  - intros (vs & p & Hne & Hvs & Hp & ->). unfold base64Like. destruct vs as [|v vs]; [done|].
    cbn [map app]. change (b64Char v :: map b64Char vs ++ pads p) with (map b64Char (v :: vs) ++ pads p). rewrite dropAlphabet_chars by done.
    rewrite inAlphabet_b64Char by by inversion Hvs. cbv zeta. unfold pads at 2. rewrite length_replicate.
    apply andb_true_intro. split; [done|]. apply andb_true_intro. split; [|by apply Nat.leb_le]. clear. by induction p.
Qed.

Lemma padded_chars vs p : padded (map b64Char vs ++ pads p) = map b64Char vs ++ pads (p + (4 - (length vs + p) mod 4) mod 4).
Proof. unfold padded, padding, pads. rewrite length_app, length_map, length_replicate, <-app_assoc, <-replicate_add. done. Qed.

Lemma toBase64_strip l : Forall isByte l → stripPad (toBase64 l) = map b64Char (encode l).
Proof. intros Hl. unfold toBase64, padding. apply stripPad_chars. by apply encode_sextets. Qed.

Lemma fromBase64_pads vs p : Forall isSextet vs → fromBase64 (map b64Char vs ++ pads p) = decode vs.
Proof. apply fromBase64_chars. Qed.

(** What the guess is for them. *)
Lemma decodeAttr_chars vs p : vs ≠ [] → Forall isSextet vs → (p <= 2)%nat →
  let s := map b64Char vs ++ pads p in
  decodeAttr s = if bool_decide (encode (decode vs) = vs) then default s (utf8Text (decode vs)) else s.
Proof.
  intros Hne Hvs Hp s. unfold decodeAttr. rewrite bool_decide_false by (subst s; by destruct vs).
  assert (base64Like s = true) as -> by (apply base64Like_spec; by exists vs, p). cbn [negb].
  assert (Forall isByte (decode vs)) as Hb by by apply decode_bytes.
  subst s. rewrite padded_chars. rewrite fromBase64_pads by done.
  rewrite stripPad_chars, toBase64_strip by done.
  assert (bool_decide (map b64Char (encode (decode vs)) = map b64Char vs) = bool_decide (encode (decode vs) = vs)) as ->.
  { apply bool_decide_ext. split; [|by intros ->]. intros H. apply map_b64Char_inj in H; [done|by apply encode_sextets|done]. }
  by destruct (bool_decide _).
Qed.

(** ** When an attribute is decoded *)

(** Bytes of a text that is not empty and has no replacement character. *)
Definition text_bytes (bs : bytes) : Prop := bs ≠ [] ∧ isUtf8 bs = true ∧ hasReplacement bs = false.

(** [s] is the base64 form of [bs], with the right padding or not. *)
Definition base64_of (s : list ascii) (bs : bytes) : Prop := ∃ p, (p <= 2)%nat ∧ s = map b64Char (encode bs) ++ pads p.

Lemma encode_nil l : encode l = [] → l = [].
Proof. by destruct l as [|a [|b [|c l]]]. Qed.

Lemma decodeAttr_text s bs : text_bytes bs → base64_of s bs → decodeAttr s = map charOf bs.
Proof.
  intros (Hne & Hu & Hr) (p & Hp & ->). pose proof (isUtf8_bytes _ Hu) as Hb.
  rewrite decodeAttr_chars; [|by intros ?%encode_nil|by apply encode_sextets|done].
  rewrite decode_encode by done. rewrite bool_decide_true by done. unfold utf8Text. by rewrite Hu, Hr.
Qed.

Lemma decodeAttr_other s : (¬ ∃ bs, text_bytes bs ∧ base64_of s bs) → decodeAttr s = s.
Proof.
  intros Hno. destruct (base64Like s) eqn:E.
  - apply base64Like_spec in E as (vs & p & Hne & Hvs & Hp & ->). rewrite decodeAttr_chars by done.
    case_bool_decide as E; [|done]. unfold utf8Text. destruct (isUtf8 _ && _) eqn:Hu; [|done]. exfalso. apply Hno.
    apply andb_prop in Hu as [Hu Hr]. exists (decode vs). split; [|exists p; by rewrite E].
    split; [|split; [done|by destruct (hasReplacement _)]]. intros E0. rewrite E0 in E. by subst vs.
  - unfold decodeAttr. rewrite E. case_bool_decide as Es; by subst.
Qed.

Lemma base64_of_toBase64 bs : base64_of (toBase64 bs) bs.
Proof.
  unfold base64_of, toBase64, padding. set (n := length _). exists ((4 - n mod 4) mod 4)%nat. split; [|done].
  subst n. rewrite length_map. assert (length (encode bs) mod 4 ≠ 1)%nat as H.
  { induction bs as [|a|a b|a b c l IH] using three_ind; try done. cbn [encode length].
    change (S (S (S (S (length (encode l)))))) with (4 + length (encode l))%nat.
    replace (4 + length (encode l))%nat with (length (encode l) + 1 * 4)%nat by lia. by rewrite Nat.Div0.mod_add. }
  pose proof (Nat.mod_upper_bound (length (encode bs)) 4). destruct (length (encode bs) mod 4)%nat as [|[|[|[|?]]]]; cbn; lia.
Qed.

(** ** Tables *)

(** A table as the chain's gateway writes it: snake case, numbers of 64 bits and
    bytes as strings, the hand missing or an object. *)
Record chain_json (v ps : json) (n : Z) (sb bb lo hi hash salt id label : string) : Prop := {
  cj_flat : field v "table" = JUndefined ∧ field v "tableId" = JUndefined ∧ field v "status" = JUndefined;
  cj_fields : field v "params" = ps ∧ field v "id" = JStr id ∧ field v "label" = JStr label;
  cj_object : nullish ps = false;
  cj_camel : Forall (λ k, field ps k = JUndefined) ["maxPlayers"; "smallBlind"; "bigBlind"; "minBuyIn"; "maxBuyIn"; "passwordHash"; "passwordSalt"];
  cj_numbers : field ps "max_players" = JNum n;
  cj_params : field ps "small_blind" = JStr sb ∧ field ps "big_blind" = JStr bb ∧ field ps "min_buy_in" = JStr lo ∧ field ps "max_buy_in" = JStr hi;
  cj_password : field ps "password_hash" = JStr hash ∧ field ps "password_salt" = JStr salt
}.

(** The two adapters read such a table alike, but only [comet.ts] reads the
    number of players and only [cosmos.ts] the salt. *)
Lemma adapters_read_alike v ps n sb bb lo hi hash salt id label now : chain_json v ps n sb bb lo hi hash salt id label →
  let info k s := mkTableInfo id (nonEmpty label) (mkTableParams k sb bb lo hi (nonEmpty hash) s) (if truthy (field v "hand") then in_hand else open) now in
  v0TableToTableInfo v now = info (Some n) None ∧ pokerTableToTableInfo v now = info (Some 9) (nonEmpty salt).
Proof.
  intros [(Ht & Hti & Hs) (Hp & Hi & Hl) Ho Hc Hn (H1 & H2 & H3 & H4) (H5 & H6)]. rewrite !Forall_cons in Hc. destruct Hc as (C1 & C2 & C3 & C4 & C5 & C6 & C7 & _).
  unfold v0TableToTableInfo, pokerTableToTableInfo, nested, either, orElse, orEmpty, orElse. rewrite Ht, Hti, Hs, Hp, Hi, Hl.
  cbn [nullish field]. rewrite ?Ho, C1, C2, C3, C4, C5, C6, C7. cbn [nullish field]. rewrite Hn, H1, H2, H3, H4, H5, H6. cbn. split; [done|].
  by destruct (field v "hand").
Qed.

Definition unchanged (n : Z) : bool := bool_decide (maybeBase64ToUtf8 (pretty n) = pretty n).

(** What the guess does to attributes.  An attribute that is the base64 form of
    a text is replaced by that text, in particular the ones that the node
    encodes come back; every other attribute is kept.  Plain attributes are
    not safe: the numbers below 140 are kept, but 140 is the base64 form of a
    Hebrew character and is replaced by it, and so is "flop" by three others. *)
Theorem attributes_decoded :
  (∀ s t, decodeAttr s = t ↔ (∃ bs, text_bytes bs ∧ base64_of s bs ∧ t = map charOf bs) ∨ (t = s ∧ ¬ ∃ bs, text_bytes bs ∧ base64_of s bs)) ∧
  (∀ bs, text_bytes bs → decodeAttr (toBase64 bs) = map charOf bs) ∧
  (∀ n, 0 <= n < 140 → maybeBase64ToUtf8 (pretty n) = pretty n) ∧
  maybeBase64ToUtf8 (pretty 140) = text (map charOf [215; 141]) ∧ maybeBase64ToUtf8 "flop" = "~Z)".
Proof.
  split; [|split; [|split; [|by vm_compute]]].
  - intros s t. split.
    + intros <-. assert ((∃ bs, text_bytes bs ∧ base64_of s bs) ∨ ¬ ∃ bs, text_bytes bs ∧ base64_of s bs) as [(bs & Ht & Hb)|Hno].
      { destruct (base64Like s) eqn:E.
        - apply base64Like_spec in E as (vs & p & Hne & Hvs & Hp & ->). destruct (decide (encode (decode vs) = vs ∧ isUtf8 (decode vs) = true ∧ hasReplacement (decode vs) = false)) as [(E & Hu & Hr)|Hno].
          + left. exists (decode vs). split; [|exists p; by rewrite E]. split; [|done]. intros E0. rewrite E0 in E. by subst vs.
          + right. intros (bs & (_ & Hu & Hr) & q & _ & E). pose proof (isUtf8_bytes _ Hu) as Hb.
            apply (f_equal stripPad) in E. rewrite !stripPad_chars in E by (done || by apply encode_sextets).
            apply map_b64Char_inj in E as ->; [|done|by apply encode_sextets]. apply Hno. by rewrite decode_encode.
        - right. intros (bs & (Hne & Hu & _) & p & Hp & ->). enough (base64Like (map b64Char (encode bs) ++ pads p) = true) by congruence.
          apply base64Like_spec. exists (encode bs), p. split; [by intros ?%encode_nil|]. split; [|done]. apply encode_sextets. by apply isUtf8_bytes. }
      * left. exists bs. split; [done|]. split; [done|]. by apply decodeAttr_text.
      * right. split; [by apply decodeAttr_other|done].
    + intros [(bs & Ht & Hb & ->)|[-> Hno]]; [by apply decodeAttr_text|by apply decodeAttr_other].
  - intros bs Ht. apply decodeAttr_text; [done|apply base64_of_toBase64].
  - intros n Hn. apply (bool_decide_eq_true_1 (maybeBase64ToUtf8 (pretty n) = pretty n)).
    apply (below unchanged 140 n); [vm_compute; reflexivity|lia].
Qed.
End CoordEventsThms.
