(* ===== verification/CoordChain.v ===== *)
(** * The chain adapters of the coordinator: [apps/coordinator/src/chain/]

    [dispatch.ts], [mock.ts], and the adapters of [comet.ts] and [cosmos.ts],
    which have the same life cycle: while there are subscribers they keep a
    WebSocket to the node, reconnect after a delay when it closes, and hand the
    events of every transaction to the subscribers.  Sockets are numbered; what
    the socket and the timer do are the events of the adapter. *)
From stdpp Require Import base option list strings pretty.
From Stdlib Require Import ZArith Lia Ascii.
From S2P Require Import Prelude OcpBytes Json JsonText JsMap CoordStore CoordConfig CoordDealer CoordEvents.
Import Bytes Json JsonText JsMap CoordStore CoordConfig CoordEvents.

Module CoordChain.

#[local] Open Scope string_scope.
#[local] Open Scope list_scope.
#[local] Open Scope Z_scope.

(** ** dispatch.ts *)

(** A subscriber sees an event in a state of the program and changes it; it may
    throw. *)
Section dispatch.
Context {W : Type} (call : nat → ChainEvent → W → W * bool).

(** The calls of [onError] are returned: which subscriber threw on which event. *)
Definition callOne (ev : ChainEvent) (acc : W * list (nat * ChainEvent)) (cb : nat) : W * list (nat * ChainEvent) :=
  let '(w, threw) := call cb ev acc.1 in (w, if threw then acc.2 ++ [(cb, ev)] else acc.2).
Definition dispatchChainEvents (subscribers : list nat) (events : list ChainEvent) (w : W) : W * list (nat * ChainEvent) :=
  foldl (λ acc ev, foldl (callOne ev) acc subscribers) (w, []) events.
End dispatch.

(** ** Reading tables through the gateway

    [lcd path] is the answer to a request: [Err] when the request fails, [Ok
    None] when the status is not a success. *)
Section tables.
Context (lcd : string → result string (option json)) (locale_le : string → string → bool) (now : Z).

Definition tablePath (id : string) : string := "/onchainpoker/poker/v1/tables/" +:+ CoordDealer.encodeURIComponent id.
Definition asArray (j : json) : option (list json) := match j with JArr l => Some l | _ => None end.
Definition firstArray (a b : json) : list json := default (elems b) (asArray a).
Definition sortedIds (ids : list string) : list string :=
  sort_by locale_le (List.filter (λ s, negb (bool_decide (s = EmptyString))) ids).
(** [Promise.all(ids.map((id) => getTable(id).catch(() => null)))] without the nulls *)
Definition tablesOf (getTable : string → result string (option TableInfo)) (ids : list string) : list TableInfo :=
  omap (λ id, match getTable id with Ok t => t | Err _ => None end) ids.

Definition lcdFetch (path : string) : result string json := let! r := lcd path in Ok (default JNull r).

Definition cometGetTable (tableId : string) : result string (option TableInfo) :=
  let id := trimmed tableId in
  if bool_decide (id = EmptyString) then Ok None
  else
    let! j := lcdFetch (tablePath id) in
    let v0 := orElse (field j "table") j in
    Ok (if truthy v0 then Some (v0TableToTableInfo v0 now) else None).

Definition cometListTables : result string (list TableInfo) :=
  let! j := lcdFetch "/onchainpoker/poker/v1/tables" in
  Ok (tablesOf cometGetTable (sortedIds (map toStr (firstArray (field j "table_ids") (field j "tableIds"))))).

(** [fetchJson] throws unless the status is a success. *)
Definition fetchJson (path : string) : result string json :=
  let! r := lcd path in match r with Some j => Ok j | None => Err "HTTP" end.

Definition cosmosGetTable (tableId : string) : result string (option TableInfo) :=
  let id := trimmed tableId in
  if bool_decide (id = EmptyString) then Ok None
  else
    let j := match fetchJson (tablePath id) with Ok j => j | Err _ => JNull end in
    if negb (truthy j) then Ok None
    else
      let info := pokerTableToTableInfo (orElse (field j "table") j) now in
      let info := if bool_decide (info.(t_tableId) = EmptyString) then mkTableInfo id info.(t_label) info.(t_params) info.(t_status) info.(t_updatedAtMs) else info in
      Ok (Some info).

Definition cosmosListTables : result string (list TableInfo) :=
  let! j := fetchJson "/onchainpoker/poker/v1/tables" in
  let rawTables := firstArray (field j "tables") (field j "table") in
  if negb (length rawTables =? 0)%nat then Ok (map (λ t, pokerTableToTableInfo t now) rawTables)
  else Ok (tablesOf cosmosGetTable (sortedIds (map asString (firstArray (field j "tableIds") (field j "table_ids"))))).

Definition cosmosQueryJson (path : string) : json :=
  let p := chars (trimmed path) in
  if negb (bool_decide (head p = Some "/"%char)) then JNull
  else match fetchJson (text p) with Ok j => j | Err _ => JNull end.
End tables.

(** ** The life cycle of [CometChainAdapter] and [CosmosChainAdapter] *)

(** A socket: whether the node has confirmed the subscription (the variable
    [subscribed] of [ensureWs]), whether [close] was called on it, and whether
    its close event is still to come. *)
Record Socket := mkSocket { s_subscribed : bool; s_closing : bool; s_alive : bool }.

Record Adapter := mkAdapter { ws : option nat; subscribers : list nat; reconnectTimer : option Z; nextEventIndex : Z; sockets : list Socket }.
Definition set_ws v a := mkAdapter v a.(subscribers) a.(reconnectTimer) a.(nextEventIndex) a.(sockets).
Definition set_subscribers v a := mkAdapter a.(ws) v a.(reconnectTimer) a.(nextEventIndex) a.(sockets).
Definition set_reconnect v a := mkAdapter a.(ws) a.(subscribers) v a.(nextEventIndex) a.(sockets).
Definition set_nextIndex v a := mkAdapter a.(ws) a.(subscribers) a.(reconnectTimer) v a.(sockets).
Definition set_sockets v a := mkAdapter a.(ws) a.(subscribers) a.(reconnectTimer) a.(nextEventIndex) v.

Definition newAdapter : Adapter := mkAdapter None [] None 1 [].
Definition freshSocket : Socket := mkSocket false false true.
Definition confirm (s : Socket) : Socket := mkSocket true s.(s_closing) s.(s_alive).
Definition closeSocket (s : Socket) : Socket := mkSocket s.(s_subscribed) true s.(s_alive).
Definition bury (s : Socket) : Socket := mkSocket s.(s_subscribed) s.(s_closing) false.
Definition onSocket (f : Socket → Socket) (i : nat) (a : Adapter) : Adapter := set_sockets (alter f i a.(sockets)) a.
Definition socketAt (a : Adapter) (i : nat) : Socket := default (mkSocket false false false) (a.(sockets) !! i).

Definition noSubscribers (a : Adapter) : bool := (length a.(subscribers) =? 0)%nat.

Definition ensureWs (a : Adapter) : Adapter :=
  match a.(ws) with
  | Some _ => a
  | None => if noSubscribers a then a else set_sockets (a.(sockets) ++ [freshSocket]) (set_ws (Some (length a.(sockets))) a)
  end.

Definition scheduleReconnect (ms : Z) (a : Adapter) : Adapter :=
  match a.(reconnectTimer) with
  | Some _ => a
  | None => if noSubscribers a then a else set_reconnect (Some ms) a
  end.

(** [clearTimeout], and the close of the current socket. *)
Definition closeWs (a : Adapter) : Adapter :=
  let a := set_reconnect None a in
  match a.(ws) with
  | None => a
  | Some i => onSocket closeSocket i (set_ws None a)
  end.

Definition subscribe (cb : nat) (a : Adapter) : Adapter :=
  ensureWs (set_subscribers (if bool_decide (cb ∈ a.(subscribers)) then a.(subscribers) else a.(subscribers) ++ [cb]) a).

(** The function that [subscribe] returns. *)
Definition unsubscribe (cb : nat) (a : Adapter) : Adapter :=
  let a := set_subscribers (List.filter (λ c, negb (bool_decide (c = cb))) a.(subscribers)) a in
  if noSubscribers a then closeWs a else a.

Definition stop (a : Adapter) : Adapter := closeWs (set_reconnect None a).

(** The timer fires. *)
Definition onTimer (a : Adapter) : Adapter := ensureWs (set_reconnect None a).

Definition onCloseOrError (i : nat) (a : Adapter) : Adapter :=
  let a := if bool_decide (a.(ws) = Some i) then set_ws None a else a in
  scheduleReconnect (if (socketAt a i).(s_subscribed) then 250 else 2000) a.

(** [ws.send] when the socket opens. *)
Definition subId : Z := 1.
Definition subscribeRequest : json :=
  JObj [("jsonrpc", JStr "2.0"); ("id", JNum subId); ("method", JStr "subscribe"); ("params", JObj [("query", JStr "tm.event='Tx'")])].

(** A message of the socket [i]: the events it brings, for the subscribers of
    that moment.  [JSON.parse] of the text ["null"] is [null], on which reading
    [msg.id] throws; that is the result [None]. *)
Definition isReply (msg : json) : bool := match field msg "id" with JNum z => z =? subId | _ => false end.
Definition onMessage (i : nat) (raw : list ascii) (now : Z) (a : Adapter) : option (Adapter * list ChainEvent) :=
  match parse raw with
  | None => Some (a, [])
  | Some msg =>
      if nullish msg then None
      else if isReply msg then Some (onSocket (if truthy (field msg "error") then closeSocket else confirm) i a, [])
      else
        let events := cosmosEventsToChainEvents (txEvents msg) a.(nextEventIndex) now in
        Some (set_nextIndex (a.(nextEventIndex) + Z.of_nat (length events)) a, events)
  end.

(** ** mock.ts *)

Record MockAdapter := mkMock { m_subscribers : list nat; m_tables : list (string * TableInfo); m_events : list ChainEvent; m_queries : list (string * json); m_next : Z }.
Definition newMock : MockAdapter := mkMock [] [] [] [] 1.
Definition set_tables v m := mkMock m.(m_subscribers) v m.(m_events) m.(m_queries) m.(m_next).

(** The emitter keeps a list: a function registered twice is called twice, and
    [off] removes the last registration. *)
Fixpoint removeFirst (cb : nat) (l : list nat) : list nat :=
  match l with [] => [] | c :: l => if bool_decide (c = cb) then l else c :: removeFirst cb l end.
Definition mockSubscribe (cb : nat) (m : MockAdapter) : MockAdapter := mkMock (m.(m_subscribers) ++ [cb]) m.(m_tables) m.(m_events) m.(m_queries) m.(m_next).
Definition mockUnsubscribe (cb : nat) (m : MockAdapter) : MockAdapter :=
  mkMock (rev (removeFirst cb (rev m.(m_subscribers)))) m.(m_tables) m.(m_events) m.(m_queries) m.(m_next).

Definition mockListTables (m : MockAdapter) : list TableInfo := map snd m.(m_tables).
Definition mockGetTable (tableId : string) (m : MockAdapter) : option TableInfo := mget tableId m.(m_tables).
Definition getEventsSince (eventIndex : Z) (m : MockAdapter) : list ChainEvent := List.filter (λ e, eventIndex <? e.(ev_eventIndex)) m.(m_events).
Definition setQueryResponse (path : string) (value : json) (m : MockAdapter) : MockAdapter :=
  mkMock m.(m_subscribers) m.(m_tables) m.(m_events) (mset path value m.(m_queries)) m.(m_next).
Definition mockQueryJson (path : string) (m : MockAdapter) : json := default JNull (mget path m.(m_queries)).

(** The event is recorded and goes to the subscribers. *)
Definition publishEvent (name : string) (tableId handId : option string) (data : json) (timeMs : option Z) (now : Z) (m : MockAdapter) : ChainEvent * MockAdapter :=
  let ev := mkChainEvent name tableId handId m.(m_next) (default now timeMs) data in
  (ev, mkMock m.(m_subscribers) m.(m_tables) (m.(m_events) ++ [ev]) m.(m_queries) (m.(m_next) + 1)).

Definition createTable (tableId : string) (params : TableParams) (now : Z) (paramsJson : json) (m : MockAdapter) : TableInfo * ChainEvent * MockAdapter :=
  let state := mkTableInfo tableId None params open now in
  let m := set_tables (mset tableId state m.(m_tables)) m in
  let '(ev, m) := publishEvent "TableCreated" (Some tableId) None (JObj [("params", paramsJson)]) None now m in
  (state, ev, m).

Definition setStatus (status : TableStatus) (name tableId handId : string) (now : Z) (m : MockAdapter) : result string (ChainEvent * MockAdapter) :=
  match mget tableId m.(m_tables) with
  | None => Err ("unknown table: " +:+ tableId)
  | Some t =>
      let m := set_tables (mset tableId (mkTableInfo t.(t_tableId) t.(t_label) t.(t_params) status now) m.(m_tables)) m in
      Ok (publishEvent name (Some tableId) (Some handId) JUndefined None now m)
  end.
Definition mockStartHand (tableId handId : string) := setStatus in_hand "HandStarted" tableId handId.
Definition mockCompleteHand (tableId handId : string) := setStatus open "HandCompleted" tableId handId.

Example test_reconnect :
  let a := onCloseOrError 0 (subscribe 7 newAdapter) in
  a.(ws) = None ∧ a.(reconnectTimer) = Some 2000 ∧ (onTimer a).(ws) = Some 1%nat.
Proof. done. Qed.

End CoordChain.

(** ** The chain adapters stay connected, and number the events *)
Import Bytes Json JsonText JsMap CoordStore CoordConfig CoordEvents CoordChain.

Module CoordChainThms.

#[local] Open Scope string_scope.
#[local] Open Scope list_scope.
#[local] Open Scope Z_scope.

(** ** Dispatching *)

Section dispatch.
Context {W : Type} (call : nat → ChainEvent → W → W * bool).

(** Every subscriber is called with every event, whatever was thrown before. *)
Definition callAll (w : W) (p : ChainEvent * nat) : W := (call p.2 p.1 w).1.
Definition pairs (subs : list nat) (evs : list ChainEvent) : list (ChainEvent * nat) := flat_map (λ ev, map (pair ev) subs) evs.

Lemma callOne_foldl ev subs acc : (foldl (callOne call ev) acc subs).1 = foldl callAll acc.1 (map (pair ev) subs).
Proof.
  revert acc. induction subs as [|cb subs IH]; intros acc; [done|]. cbn [foldl map]. rewrite IH. unfold callOne, callAll. cbn [fst snd].
  by destruct (call cb ev acc.1).
Qed.

Lemma pairs_cons subs ev evs : pairs subs (ev :: evs) = map (pair ev) subs ++ pairs subs evs.
Proof. done. Qed.

Lemma dispatch_calls_all subs evs w : (dispatchChainEvents call subs evs w).1 = foldl callAll w (pairs subs evs).
Proof.
  unfold dispatchChainEvents. change w with ((w, @nil (nat * ChainEvent)).1) at 2. generalize (w, @nil (nat * ChainEvent)).
  clear w. induction evs as [|ev evs IH]; intros acc; [done|]. cbn [foldl]. rewrite IH, pairs_cons, foldl_app. by rewrite callOne_foldl.
Qed.
End dispatch.

(** ** The life of an adapter *)

Inductive AdapterEvent :=
| Subscribe (cb : nat) | Unsubscribe (cb : nat) | Stop | Timer
| SocketMessage (i : nat) (raw : list ascii) (now : Z) | SocketError (i : nat) | SocketClose (i : nat).

Definition alive (a : Adapter) (i : nat) : Prop := ∃ s, a.(sockets) !! i = Some s ∧ s.(s_alive) = true.

(** One event, and the chain events it hands to the subscribers.  The timer fires
    when it is set, and a socket emits nothing after its close event. *)
Inductive step (a : Adapter) : AdapterEvent → Adapter → list ChainEvent → Prop :=
| step_subscribe cb : step a (Subscribe cb) (subscribe cb a) []
| step_unsubscribe cb : step a (Unsubscribe cb) (unsubscribe cb a) []
| step_stop : step a Stop (stop a) []
| step_timer ms : a.(reconnectTimer) = Some ms → step a Timer (onTimer a) []
| step_message i raw now a' evs : alive a i → onMessage i raw now a = Some (a', evs) → step a (SocketMessage i raw now) a' evs
| step_error i : alive a i → step a (SocketError i) (onCloseOrError i a) []
| step_close i : alive a i → step a (SocketClose i) (onCloseOrError i (onSocket bury i a)) [].

Inductive run (a : Adapter) : list AdapterEvent → Adapter → list ChainEvent → Prop :=
| run_nil : run a [] a []
| run_snoc es a1 evs e a2 evs' : run a es a1 evs → step a1 e a2 evs' → run a (es ++ [e]) a2 (evs ++ evs').

Record adapter_ok (a : Adapter) : Prop := {
  ok_ws : ∀ i, a.(ws) = Some i → alive a i;
  ok_idle : a.(subscribers) = [] → a.(ws) = None ∧ a.(reconnectTimer) = None;
  ok_delay : ∀ ms, a.(reconnectTimer) = Some ms → ms = 250 ∨ ms = 2000
}.

(** There is a socket that has not closed, or one is about to be opened. *)
Definition connecting (a : Adapter) : Prop := a.(ws) ≠ None ∨ a.(reconnectTimer) ≠ None.

Lemma noSubscribers_true a : noSubscribers a = true → a.(subscribers) = [].
Proof. unfold noSubscribers. by destruct (subscribers a). Qed.
Lemma noSubscribers_false a : noSubscribers a = false → a.(subscribers) ≠ [].
Proof. unfold noSubscribers. by destruct (subscribers a). Qed.

Lemma alive_onSocket f i j a : (∀ s, s_alive (f s) = s_alive s) → alive a j → alive (onSocket f i a) j.
Proof.
  intros Hf (s & Hs & Ha). unfold alive, onSocket. cbn [sockets set_sockets]. destruct (decide (i = j)) as [->|Hne].
  - exists (f s). rewrite list_lookup_alter_eq, Hs. split; [done|by rewrite Hf].
  - exists s. by rewrite list_lookup_alter_ne.
Qed.

Lemma ensureWs_ok a : adapter_ok a → adapter_ok (ensureWs a) ∧ (a.(subscribers) ≠ [] → (ensureWs a).(ws) ≠ None).
Proof.
  intros Ha. unfold ensureWs. destruct (ws a) as [i|] eqn:E; [split; [exact Ha|by rewrite E]|].
  destruct (noSubscribers a) eqn:Es; [apply noSubscribers_true in Es; split; [exact Ha|by intros []]|].
  apply noSubscribers_false in Es. destruct Ha as [Hw Hi Hd]. split; [|done]. constructor; cbn; [|done|done].
  intros j [= <-]. exists freshSocket. split; [|done]. cbn. by apply list_lookup_middle.
Qed.

Lemma schedule_ok ms a : adapter_ok a → ms = 250 ∨ ms = 2000 →
  adapter_ok (scheduleReconnect ms a) ∧ (a.(subscribers) ≠ [] → (scheduleReconnect ms a).(reconnectTimer) ≠ None).
Proof.
  intros Ha Hms. unfold scheduleReconnect. destruct (reconnectTimer a) eqn:E; [split; [exact Ha|by rewrite E]|].
  destruct (noSubscribers a) eqn:Es; [apply noSubscribers_true in Es; split; [exact Ha|by intros []]|].
  apply noSubscribers_false in Es. destruct Ha as [Hw Hi Hd]. split; [|done]. constructor; cbn; [done|done|]. by intros ? [= <-].
Qed.

Lemma closeWs_ok a : (∀ i, a.(ws) = Some i → alive a i) → adapter_ok (closeWs a) ∧ (closeWs a).(subscribers) = a.(subscribers).
Proof.
  intros Hw. unfold closeWs. cbn [ws set_reconnect]. destruct (ws a) eqn:E; (split; [constructor; cbn; try done; by rewrite ?E|done]).
Qed.

Lemma closed_ok i a : adapter_ok a → let a' := if bool_decide (a.(ws) = Some i) then set_ws None a else a in
  adapter_ok a' ∧ a'.(subscribers) = a.(subscribers) ∧ a'.(sockets) = a.(sockets) ∧ a'.(ws) ≠ Some i.
Proof.
  intros [Hw Hi Hd] a'. subst a'. case_bool_decide as E; [|split; [done|split; [done|done]]].
  split; [|done]. constructor; cbn; [done|by intros H; destruct (Hi H)|done].
Qed.

Lemma onCloseOrError_ok i a : adapter_ok a →
  adapter_ok (onCloseOrError i a) ∧ (a.(subscribers) ≠ [] → (onCloseOrError i a).(reconnectTimer) ≠ None).
Proof.
  intros Ha. unfold onCloseOrError. destruct (closed_ok i a Ha) as (Ha' & Hs & _). rewrite <-Hs. apply schedule_ok; [done|].
  destruct (s_subscribed _); [by left|by right].
Qed.

Lemma onCloseOrError_subs i a : (onCloseOrError i a).(subscribers) = a.(subscribers).
Proof.
  unfold onCloseOrError, scheduleReconnect. case_bool_decide; destruct (reconnectTimer _); try done; by destruct (noSubscribers _).
Qed.

Lemma closeEvent_ok i a : adapter_ok a → alive a i →
  adapter_ok (onCloseOrError i (onSocket bury i a)) ∧ (a.(subscribers) ≠ [] → (onCloseOrError i (onSocket bury i a)).(reconnectTimer) ≠ None).
Proof.
  intros [Hw Hi Hd] Hal. unfold onCloseOrError. set (a' := if bool_decide _ then _ else _).
  assert (adapter_ok a' ∧ subscribers a' = subscribers a) as [Ha' <-].
  { subst a'. cbn [ws onSocket set_sockets]. case_bool_decide as E; (split; [|done]); constructor; cbn; try done.
    - by intros H; destruct (Hi H).
    - intros j Ej. destruct (Hw j Ej) as (s & Hs & Hl). exists s. split; [|done]. cbn. rewrite list_lookup_alter_ne; congruence. }
  apply schedule_ok; [done|]. destruct (s_subscribed _); [by left|by right].
Qed.

(** A message confirms or closes its socket, or brings events. *)
Inductive message (i : nat) (a : Adapter) : Adapter → list ChainEvent → Prop :=
| message_none : message i a a []
| message_reply f : (∀ s, s_alive (f s) = s_alive s) → message i a (onSocket f i a) []
| message_events events now : let evs := cosmosEventsToChainEvents events a.(nextEventIndex) now in
    message i a (set_nextIndex (a.(nextEventIndex) + Z.of_nat (length evs)) a) evs.

Lemma onMessage_message i raw now a a' evs : onMessage i raw now a = Some (a', evs) → message i a a' evs.
Proof.
  unfold onMessage. destruct (parse raw) as [msg|]; [|intros [= <- <-]; constructor]. destruct (nullish msg); [done|].
  destruct (isReply msg); intros [= <- <-]; [|constructor]. apply message_reply. by destruct (truthy _).
Qed.

Lemma message_ok i a a' evs : adapter_ok a → message i a a' evs →
  adapter_ok a' ∧ a'.(subscribers) = a.(subscribers) ∧ a'.(ws) = a.(ws) ∧ a'.(reconnectTimer) = a.(reconnectTimer).
Proof.
  intros [Hw Hi Hd] [|f Hf|]; (split; [constructor; cbn; try done|done]). intros j Hj. by apply alive_onSocket, Hw.
Qed.

Definition live (a : Adapter) : Prop := a.(subscribers) ≠ [] → connecting a.

Lemma step_ok a e a' evs : adapter_ok a → step a e a' evs → adapter_ok a' ∧ (e ≠ Stop → live a → live a').
Proof.
  intros Ha Hs. unfold live, connecting. destruct Hs as [cb|cb| |ms Hms|i raw now a' evs Hal Hm|i Hal|i Hal].
  - unfold subscribe. destruct (ensureWs_ok (set_subscribers (if bool_decide (cb ∈ subscribers a) then subscribers a else subscribers a ++ [cb]) a)) as [Hok Hws].
    + destruct Ha as [Hw Hi Hd]. constructor; cbn; [done| |done]. case_bool_decide as Hin; intros E; [by rewrite E in Hin; apply not_elem_of_nil in Hin|by destruct (subscribers a)].
    + split; [done|]. intros _ _ _. left. apply Hws. cbn. case_bool_decide as Hin; [|by destruct (subscribers a)].
      intros E. rewrite E in Hin. by apply not_elem_of_nil in Hin.
  - unfold unsubscribe. set (subs := List.filter _ _). destruct (noSubscribers _) eqn:E.
    + apply noSubscribers_true in E. destruct (closeWs_ok (set_subscribers subs a)) as [Hok Hsub]; [apply Ha|]. split; [done|].
      intros _ _ Hne. by rewrite Hsub in Hne.
    + apply noSubscribers_false in E. cbn in E. split; [destruct Ha as [Hw Hi Hd]; by constructor|]. intros _ Hl _. apply Hl. cbn. intros E0.
      apply E. subst subs. by rewrite E0.
  - destruct (closeWs_ok (set_reconnect None a)) as [Hok _]; [apply Ha|]. done.
  - destruct (ensureWs_ok (set_reconnect None a)) as [Hok Hws].
    + destruct Ha as [Hw Hi Hd]. constructor; cbn; [done| |done]. intros H. by destruct (Hi H).
    + split; [done|]. intros _ _ Hne. left. apply Hws. intros E. cbn in E. destruct (ok_idle _ Ha E). congruence.
  - apply onMessage_message in Hm. destruct (message_ok _ _ _ _ Ha Hm) as (Hok & Hsub & Hw & Ht). split; [done|]. by rewrite Hsub, Hw, Ht.
  - destruct (onCloseOrError_ok i a Ha) as [Hok Ht]. rewrite onCloseOrError_subs. split; [done|]. intros _ _ Hne. right. by apply Ht.
  - destruct (closeEvent_ok i a Ha Hal) as [Hok Ht]. rewrite onCloseOrError_subs. split; [done|]. intros _ _ Hne. right. by apply Ht.
Qed.

Lemma newAdapter_ok : adapter_ok newAdapter.
Proof. by constructor. Qed.

Lemma life_ok es a evs : run newAdapter es a evs → adapter_ok a ∧ (Stop ∉ es → live a).
Proof.
  induction 1 as [|es a1 evs e a2 evs' _ [IH1 IH2] Hs]; [split; [apply newAdapter_ok|by intros _ []]|].
  destruct (step_ok _ _ _ _ IH1 Hs) as [Hok Hl]. split; [done|]. intros Hns. apply Hl; [intros ->; apply Hns, elem_of_app; right; by apply list_elem_of_singleton|].
  apply IH2. intros Hin. apply Hns, elem_of_app. by left.
Qed.

(** ** Numbering *)

Lemma events_indices events idx now : let evs := cosmosEventsToChainEvents events idx now in map ev_eventIndex evs = seqZ idx (Z.of_nat (length evs)).
Proof.
  revert idx. induction events as [|ev events IH]; intros idx; [done|]. cbn [cosmosEventsToChainEvents].
  destruct (field ev "type"); try apply IH. cbn [map length]. rewrite IH, Nat2Z.inj_succ. rewrite (seqZ_cons idx) by lia. cbn [ev_eventIndex]. by rewrite Z.add_1_r, Z.pred_succ.
Qed.

Lemma step_indices a e a' evs : step a e a' evs →
  map ev_eventIndex evs = seqZ a.(nextEventIndex) (Z.of_nat (length evs)) ∧ a'.(nextEventIndex) = a.(nextEventIndex) + Z.of_nat (length evs).
Proof.
  assert (∀ b, nextEventIndex (ensureWs b) = nextEventIndex b) as He by (intros b; unfold ensureWs; by destruct (ws b), (noSubscribers b)).
  assert (∀ b, nextEventIndex (closeWs b) = nextEventIndex b) as Hc by (intros b; unfold closeWs; cbn; by destruct (ws b)).
  assert (∀ i b, nextEventIndex (onCloseOrError i b) = nextEventIndex b) as Ho.
  { intros i b. unfold onCloseOrError, scheduleReconnect. repeat case_match; done. }
  intros [cb|cb| |ms Hms|i raw now a1 evs1 Hal Hm|i Hal|i Hal]; cbn [length map]; try (split; [done|]).
  - etrans; [apply He|cbn; lia].
  - unfold unsubscribe. destruct (noSubscribers _); [etrans; [apply Hc|]|]; cbn; lia.
  - etrans; [apply Hc|cbn; lia].
  - etrans; [apply He|cbn; lia].
  - apply onMessage_message in Hm as [|f Hf|]; [split; cbn; [done|lia]..|]. split; [apply events_indices|done].
  - etrans; [apply Ho|cbn; lia].
  - etrans; [apply Ho|cbn; lia].
Qed.

Lemma run_indices es a evs : run newAdapter es a evs →
  map ev_eventIndex evs = seqZ 1 (Z.of_nat (length evs)) ∧ a.(nextEventIndex) = 1 + Z.of_nat (length evs).
Proof.
  induction 1 as [|es a1 evs e a2 evs' _ [IH1 IH2] [H1 H2]%step_indices]; [done|].
  rewrite map_app, length_app, Nat2Z.inj_add, IH1, H1, IH2. rewrite seqZ_app by lia. split; [done|lia].
Qed.

(** C27. The adapters stay connected.  Whatever subscribers, the node and the network
    do: without subscribers there is neither a socket nor a timer; with
    subscribers, and until [stop] is called, there is a socket that has not
    closed or a reconnection within two seconds, which opens a socket when its
    time has come; when the socket closes a reconnection is scheduled; and the
    chain events handed out over the whole life are numbered 1, 2, 3 and so
    on.  But [stop] with subscribers left does not last: the close of the
    socket schedules a reconnection. *)
Theorem adapter_stays_connected es a evs : run newAdapter es a evs →
  (a.(subscribers) = [] → a.(ws) = None ∧ a.(reconnectTimer) = None) ∧
  (Stop ∉ es → a.(subscribers) ≠ [] → (∃ i, a.(ws) = Some i ∧ alive a i) ∨ ∃ ms, a.(reconnectTimer) = Some ms ∧ ms <= 2000) ∧
  (∀ ms, a.(reconnectTimer) = Some ms → step a Timer (onTimer a) [] ∧ ∃ i, (onTimer a).(ws) = Some i ∧ alive (onTimer a) i) ∧
  (∀ i, a.(subscribers) ≠ [] → alive a i → (onCloseOrError i (onSocket bury i a)).(reconnectTimer) ≠ None) ∧
  map ev_eventIndex evs = seqZ 1 (Z.of_nat (length evs)) ∧
  (∀ i, a.(subscribers) ≠ [] → a.(ws) = Some i → (onCloseOrError i (onSocket bury i (stop a))).(reconnectTimer) ≠ None).
Proof.
  intros Hr. destruct (life_ok _ _ _ Hr) as [Hok Hlive]. pose proof Hok as [Hw Hi Hd].
  split; [done|]. split; [|split; [|split; [|split; [by apply (run_indices _ _ _ Hr)|]]]].
  - intros Hns Hne. destruct (Hlive Hns Hne) as [H|H].
    + left. destruct (ws a) as [i|]; [|done]. exists i. by split; [|apply Hw].
    + right. destruct (reconnectTimer a) as [ms|]; [|done]. exists ms. split; [done|]. destruct (Hd ms eq_refl); lia.
  - intros ms Hms. split; [by econstructor|]. assert (a.(subscribers) ≠ []) as Hne by (intros E; destruct (Hi E); congruence).
    destruct (ensureWs_ok (set_reconnect None a)) as [Hok' Hws].
    + constructor; cbn; [done| |done]. intros H. by destruct (Hi H).
    + specialize (Hws Hne). unfold onTimer. destruct (ws (ensureWs _)) as [i|] eqn:E; [|done]. exists i. split; [done|]. by apply (ok_ws _ Hok').
  - intros i Hne Hal. by apply closeEvent_ok.
  - intros i Hne E. destruct (closeWs_ok (set_reconnect None a)) as [Hok' Hsub]; [apply Hw|]. apply closeEvent_ok; [done| |].
    + unfold stop, closeWs. cbn. rewrite E. apply alive_onSocket; [done|]. by apply Hw.
    + unfold stop. by rewrite Hsub.
Qed.

(** A subscriber, a lost connection, and a transaction on the next one. *)
Definition toy_tx : list ascii :=
  stringify false (JObj [("result", JObj [("data", JObj [("value", JObj [("TxResult", JObj [("result", JObj [("events",
    JArr [JObj [("type", JStr "HandStarted"); ("attributes", JArr [JObj [("key", JStr "tableId"); ("value", JStr "7")]])]])])])])])])]).
Definition toy_life : list AdapterEvent := [Subscribe 3; SocketClose 0; Timer; SocketMessage 1 toy_tx 500].
Definition toy_adapter : Adapter := mkAdapter (Some 1%nat) [3%nat] None 2 [mkSocket false false false; freshSocket].

Lemma toy_life_run : run newAdapter toy_life toy_adapter [mkChainEvent "HandStarted" (Some "7") None 1 500 (JObj [("tableId", JStr "7")])].
Proof.
  change toy_life with (((([] ++ [Subscribe 3]) ++ [SocketClose 0]) ++ [Timer]) ++ [SocketMessage 1 toy_tx 500]).
  change [mkChainEvent "HandStarted" (Some "7") None 1 500 (JObj [("tableId", JStr "7")])]
    with (((([] ++ []) ++ []) ++ []) ++ [mkChainEvent "HandStarted" (Some "7") None 1 500 (JObj [("tableId", JStr "7")])]).
  eapply run_snoc; [eapply run_snoc; [eapply run_snoc; [eapply run_snoc; [constructor|]|]|]|].
  - apply step_subscribe.
  - apply step_close. by eexists.
  - apply (step_timer _ 2000). reflexivity.
  - apply step_message; [by eexists|]. vm_compute. reflexivity.
Qed.

Lemma adapter_stays_connected_witness : ∃ i, toy_adapter.(ws) = Some i ∧ alive toy_adapter i.
Proof.
  destruct (adapter_stays_connected _ _ _ toy_life_run) as (_ & H & _).
  destruct H as [H|(ms & H & _)]; [|discriminate|exact H|discriminate].
  unfold toy_life. rewrite !not_elem_of_cons. repeat split; try discriminate. apply not_elem_of_nil.
Defined.
End CoordChainThms.
