(* ===== verification/CoordServer.v ===== *)
(** * The coordinator's server: [apps/coordinator/src/server.ts]

    The server joins the chain adapter, the store and the hub.  It begins with a
    snapshot of the tables; a chain event is broadcast and, when it names a
    table, the table is read again from the chain, which takes a while; once a
    second expired seat intents are forgotten.  A request that is under way is
    an entry of [inflight], [None] until the chain has read the table. *)
From stdpp Require Import base option list strings gmap.
From Stdlib Require Import ZArith Lia Ascii.
From S2P Require Import Prelude OcpBytes Json JsMap CoordStore CoordStoreThms CoordConfig CoordWs.
Import Bytes Json JsMap CoordStore CoordStoreThms CoordConfig CoordWs.

Module CoordServer.

#[local] Open Scope string_scope.
#[local] Open Scope list_scope.
#[local] Open Scope Z_scope.

Record Server := mkServer { sv_hub : Hub; inflight : list (string * option (option TableInfo)) }.

Section server.
Context (delivers : nat → json → bool).

(** [start], when [chain.listTables()] answers [tables] (an empty list when it
    fails). *)
Definition startStore (st : CoordinatorStore) (tables : result string (list TableInfo)) : CoordinatorStore :=
  foldl upsertTable st (match tables with Ok l => l | Err _ => [] end).
Definition start (st : CoordinatorStore) (tables : result string (list TableInfo)) : Server :=
  mkServer (mkHub [] [] (startStore st tables)) [].

(** The subscriber of the chain. *)
Definition onChainEvent (ev : ChainEvent) (s : Server) : Server * Sent :=
  let sent := broadcastChainEvent delivers s.(sv_hub) ev in
  match ev.(ev_tableId) with
  | Some t => if bool_decide (t = EmptyString) then (s, sent) else (mkServer s.(sv_hub) (s.(inflight) ++ [(t, None)]), sent)
  | None => (s, sent)
  end.

(** [.then((t) => { if (t) store.upsertTable(t); }).catch(() => {})] *)
Definition onReply (answer : option TableInfo) (s : Server) : Server :=
  match answer with
  | Some t => mkServer (set_store (upsertTable s.(sv_hub).(hubStore) t) s.(sv_hub)) s.(inflight)
  | None => s
  end.

Definition onPruneTimer (now : Z) (s : Server) : Server :=
  mkServer (set_store (pruneExpiredSeatIntents s.(sv_hub).(hubStore) now) s.(sv_hub)) s.(inflight).

(** ** A table that changes while the server runs

    [current] is the table on the chain.  When it changes the chain emits an
    event; the chain reads it for the [k]th request; the answer to the [k]th
    request arrives. *)
Inductive WorldEvent := Change (info : TableInfo) (name : string) (index now : Z) | Reads (k : nat) | Arrives (k : nat) | Prunes (now : Z).

Record World := mkWorld { current : TableInfo; server : Server }.

Definition set_inflight v s := mkServer s.(sv_hub) v.

Inductive world_step (w : World) : WorldEvent → World → Prop :=
| ws_change info name index now : info.(t_tableId) = w.(current).(t_tableId) →
    world_step w (Change info name index now)
      (mkWorld info (onChainEvent (mkChainEvent name (Some info.(t_tableId)) None index now JUndefined) w.(server)).1)
| ws_reads k t : w.(server).(inflight) !! k = Some (t, None) →
    world_step w (Reads k) (mkWorld w.(current) (set_inflight (<[k := (t, Some (Some w.(current)))]> w.(server).(inflight)) w.(server)))
| ws_arrives k t a : w.(server).(inflight) !! k = Some (t, Some a) →
    world_step w (Arrives k) (mkWorld w.(current) (onReply a (set_inflight (delete k w.(server).(inflight)) w.(server))))
| ws_prunes now : world_step w (Prunes now) (mkWorld w.(current) (onPruneTimer now w.(server))).

Inductive world_run (w : World) : list WorldEvent → World → Prop :=
| wr_nil : world_run w [] w
| wr_snoc es w1 e w2 : world_run w es w1 → world_step w1 e w2 → world_run w (es ++ [e]) w2.

Definition cached (w : World) : option TableInfo := getTable w.(server).(sv_hub).(hubStore) w.(current).(t_tableId).

(** Answers arrive in the order of the requests. *)
Definition in_order (e : WorldEvent) : Prop := match e with Arrives k => k = 0%nat | _ => True end.

(** The youngest request will bring the table as it is now. *)
Definition fresh (w : World) : Prop :=
  match last w.(server).(inflight) with
  | Some (_, None) => True
  | Some (_, Some a) => a = Some w.(current)
  | None => cached w = Some w.(current)
  end.

Lemma cached_upsert st t t' : t'.(t_tableId) = t → getTable (upsertTable st t') t = Some t'.
Proof. intros <-. unfold getTable, upsertTable. cbn. rewrite mget_set. by rewrite decide_True. Qed.

Lemma fresh_step w e w' : w.(current).(t_tableId) ≠ EmptyString → fresh w → in_order e → world_step w e w' →
  fresh w' ∧ w'.(current).(t_tableId) = w.(current).(t_tableId).
Proof.
  intros Hne Hf Ho Hs. unfold fresh, cached in *. destruct Hs as [info name index now Ht|k t Hk|k t a Hk|now].
  - split; [|done]. unfold onChainEvent. cbn [ev_tableId]. rewrite bool_decide_false by by rewrite Ht. cbn [fst server inflight].
    by rewrite last_snoc.
  - split; [|done]. cbn [server inflight set_inflight current sv_hub]. destruct w as [cur [hub l]]. cbn in *.
    destruct l as [|x l _] using rev_ind; [done|]. destruct (decide (k = length l)) as [->|Hkl].
    + rewrite insert_app_r_alt by lia. rewrite Nat.sub_diag. cbn. by rewrite last_snoc.
    + assert (k < length l)%nat. { apply lookup_lt_Some in Hk. rewrite length_app in Hk. cbn in Hk. lia. }
      rewrite insert_app_l by done. by rewrite last_snoc in *.
  - cbn in Ho. subst k. split; [|by destruct a]. destruct w as [cur [hub l]]. cbn in *. destruct l as [|x l]; [done|]. injection Hk as ->.
    destruct l as [|y l].
    + cbn in Hf. subst a. cbn. by apply cached_upsert.
    + cbn [delete list_delete]. change (last ((t, Some a) :: y :: l)) with (last (y :: l)) in Hf. destruct (last (y :: l)) as [z|] eqn:E; [|by apply last_None in E]. by destruct a; cbn [onReply inflight set_inflight]; rewrite E.
  - split; [|done]. cbn. destruct (last _) as [[? [?|]]|]; done.
Qed.

(** The cache of tables.  When the answers of the chain arrive in the order of
    the requests, the server holds the table as it is on the chain as soon as
    no request is under way.  When they do not, the server can be left with an
    old table although no request is under way. *)
Theorem table_cache w es w' : w.(server).(inflight) = [] → cached w = Some w.(current) → w.(current).(t_tableId) ≠ EmptyString →
  (Forall in_order es → world_run w es w' → w'.(server).(inflight) = [] → cached w' = Some w'.(current)) ∧
  (∀ info1 info2, info1.(t_tableId) = w.(current).(t_tableId) → info2.(t_tableId) = w.(current).(t_tableId) →
     ∃ es w', world_run w es w' ∧ w'.(server).(inflight) = [] ∧ w'.(current) = info2 ∧ cached w' = Some info1).
Proof.
  intros Hi Hc Hne. split.
  - intros Ho Hr. assert (fresh w' ∧ w'.(current).(t_tableId) = w.(current).(t_tableId)) as [Hf _].
    { induction Hr as [|es w1 e w2 _ IH Hs]; [split; [unfold fresh; by rewrite Hi|done]|].
      apply Forall_app in Ho as [Ho He]. apply Forall_inv in He. destruct (IH Ho) as [Hf Heq].
      destruct (fresh_step w1 e w2) as [Hf' Heq']; [by rewrite Heq|done|done|done|]. split; [done|congruence]. }
    intros Hi'. unfold fresh in Hf. by rewrite Hi' in Hf.
  - intros info1 info2 H1 H2. eexists (((((([] ++ [Change info1 "TableUpdated" 1 0]) ++ [Reads 0]) ++ [Change info2 "TableUpdated" 2 0]) ++ [Reads 1]) ++ [Arrives 1]) ++ [Arrives 0]), _.
    destruct w as [cur [hub l]]. cbn in Hi, H1, H2, Hne. subst l. split.
    + repeat eapply wr_snoc; [constructor|..].
      * by apply ws_change.
      * unfold onChainEvent. cbn [ev_tableId]. rewrite bool_decide_false by by rewrite H1. by apply (ws_reads _ 0 (t_tableId info1)).
      * apply ws_change. cbn. congruence.
      * unfold onChainEvent. cbn [ev_tableId]. rewrite bool_decide_false by by rewrite H2. by apply (ws_reads _ 1 (t_tableId info2)).
      * by apply (ws_arrives _ 1 (t_tableId info2) (Some info2)).
      * by apply (ws_arrives _ 0 (t_tableId info1) (Some info1)).
    + cbn. split; [done|]. split; [done|]. unfold cached. cbn. rewrite mget_set. by rewrite decide_True by congruence.
Qed.
End server.

Definition toy_table (n : Z) : TableInfo := mkTableInfo "t" None (mkTableParams (Some 9) "1" "2" "100" "1000" None None) (if n =? 0 then open else in_hand) n.
Definition toy_world : World := mkWorld (toy_table 0) (start newStore (Ok [toy_table 0])).

Lemma table_cache_witness : ∃ es w', world_run (λ _ _, true) toy_world es w' ∧ w'.(server).(inflight) = [] ∧ w'.(current) = toy_table 2 ∧ cached w' = Some (toy_table 1).
Proof.
  refine (proj2 (table_cache (λ _ _, true) toy_world [] toy_world _ _ _) (toy_table 1) (toy_table 2) _ _); [reflexivity|reflexivity|discriminate|reflexivity|reflexivity].
Defined.
End CoordServer.
