(* ===== verification/CoordHttp.v ===== *)
(** * The coordinator's HTTP application: the other routes of
      [apps/coordinator/src/http.ts]

    [serve] is one request from the CORS check to the response: what it answers,
    the state afterwards, and what it broadcasts.  zod's schemas are the class
    [Schemas]; a successful parse has the properties the schema asks for.
    [bufferFrom] is [Buffer.from(s, "base64")] on any string; [uuid] is the
    random text of a request.  The body of a request has been parsed: one that
    express cannot parse, or is over two megabytes, goes to the error handler
    and reaches no route.  The faucet's request has two halves, as the drip has;
    as a request of [serve] it runs to the end of its transaction. *)
From stdpp Require Import base option list strings gmap.
From Stdlib Require Import ZArith Lia Ascii.
From S2P Require Import Prelude OcpBytes OcpTranscript Json JsMap TextCodec CoordStore CoordFaucet CoordConfig CoordGuards CoordDealer CoordWs CoordChain CoordServer.
Import Bytes Hashing Json JsMap TextCodec CoordStore CoordFaucet CoordConfig CoordGuards CoordWs.

Module CoordHttp.

#[local] Open Scope string_scope.
#[local] Open Scope list_scope.
#[local] Open Scope Z_scope.

(** ** The schemas *)

Record SeatIntentData := mkIntentData {
  d_tableId : string; d_seat : Z; d_player : string; d_pkPlayer : option string; d_buyIn : option string; d_bond : option string }.
Record ArtifactData := mkArtifactData { d_kind : option ArtifactKind; d_mime : option string; d_dataBase64 : string; d_meta : option json }.
Record ShuffleData := mkShuffleData { d_proofShuffleBase64 : string; d_smime : option string; d_smeta : option json }.

(** [safeParse]: the data, or the message of the error. *)
Class Schemas := {
  SeatIntentSchema : json → result string SeatIntentData;
  NicknameSchema : json → result string string;
  ArtifactPutSchema : json → result string ArtifactData;
  ShuffleArtifactPutSchema : json → result string ShuffleData
}.

(** [/^[a-zA-Z0-9_ -]+$/] *)
Definition nickChar (c : ascii) : bool := tableIdChar c || bool_decide (c = " "%char).

Class SchemaLaws `{Schemas} : Prop := {
  seatIntent_fields j d : SeatIntentSchema j = Ok d →
    field j "tableId" = JStr d.(d_tableId) ∧ d.(d_tableId) ≠ EmptyString ∧ field j "seat" = JNum d.(d_seat) ∧ 0 <= d.(d_seat) <= 8 ∧
    field j "player" = JStr d.(d_player) ∧ d.(d_player) ≠ EmptyString;
  nickname_chars j n : NicknameSchema j = Ok n → field j "nickname" = JStr n ∧ (2 <= length (chars n) <= 20)%nat ∧ forallb nickChar (chars n) = true;
  artifact_data j d : ArtifactPutSchema j = Ok d → field j "dataBase64" = JStr d.(d_dataBase64) ∧ d.(d_dataBase64) ≠ EmptyString;
  shuffle_data j d : ShuffleArtifactPutSchema j = Ok d → field j "proofShuffleBase64" = JStr d.(d_proofShuffleBase64)
}.

(** ** The state *)

(** [app_faucet]: the faucet, if it is enabled.  [app_mock]: the state of the
    mock chain, which only the development routes touch. *)
Record App := mkApp { app_hub : Hub; app_nicks : NicknameRegistry; app_buckets : Buckets; app_faucet : option FaucetService; app_mock : CoordChain.MockAdapter }.
Definition set_hub v a := mkApp v a.(app_nicks) a.(app_buckets) a.(app_faucet) a.(app_mock).
Definition set_nicks v a := mkApp a.(app_hub) v a.(app_buckets) a.(app_faucet) a.(app_mock).
Definition set_limits v a := mkApp a.(app_hub) a.(app_nicks) v a.(app_faucet) a.(app_mock).
Definition set_faucet v a := mkApp a.(app_hub) a.(app_nicks) a.(app_buckets) v a.(app_mock).
Definition set_mock v a := mkApp a.(app_hub) a.(app_nicks) a.(app_buckets) a.(app_faucet) v.
Definition app_store a := a.(app_hub).(hubStore).
Definition set_appStore v a := set_hub (set_store v a.(app_hub)) a.

Definition Answer : Type := Response * App * Sent.
Definition answer (r : Response) (a : App) : Answer := (r, a, []).
Definition withHeaders (hs : list (string * string)) (r : Response) : Response := mkResponse r.(rs_status) (hs ++ r.(rs_headers)) r.(rs_body).

(** ** What is sent *)

Definition kindStr (k : ArtifactKind) : string :=
  match k with k_shuffle => "shuffle" | k_encShare => "encShare" | k_pubShare => "pubShare" | k_reveal => "reveal" | k_other => "other" end.
Definition intentJson (i : SeatIntent) : json :=
  JObj ([("intentId", JStr i.(intentId)); ("tableId", JStr i.(si_tableId)); ("seat", JNum i.(si_seat)); ("player", JStr i.(si_player))]
        ++ optStr "pkPlayer" i.(si_pkPlayer) ++ optStr "buyIn" i.(si_buyIn) ++ optStr "bond" i.(si_bond)
        ++ [("createdAtMs", JNum i.(si_createdAtMs)); ("expiresAtMs", JNum i.(si_expiresAtMs))]).
Definition sizeJson (bs : bytes) : json := JNum (Z.of_nat (length bs)).

Section app.
Context `{Schemas} `{HashOps}.
Context (config : CoordinatorConfig) (limits : Limits) (locale_le : string → string → bool) (bufferFrom : list ascii → bytes)
        (delivers : nat → json → bool) (chainKind : string) (query : option (string → json)).

(** The check of the origin: [cors({ origin })]. *)
Definition corsAllowed (origin : option string) : bool :=
  match config.(corsOrigins), origin with
  | None, _ => true
  | Some _, None => true
  | Some l, Some o => bool_decide (o = EmptyString) || bool_decide ("*" ∈ l) || bool_decide (o ∈ l)
  end.

(** [...writeGuards] before a handler *)
Definition guarded (req : Request) (now : Z) (app : App) (handler : App → Answer) : Answer :=
  match writeGuards config app.(app_buckets) req now with
  | (inl r, buckets) => answer r (set_limits buckets app)
  | (inr hs, buckets) => let '(r, app, sent) := handler (set_limits buckets app) in (withHeaders hs r, app, sent)
  end.

(** [return res.status(400).json({ error: parsed.error.message })] *)
Definition parsed {D} (p : result string D) (app : App) (k : D → Answer) : Answer :=
  match p with Err msg => answer (error 400 msg) app | Ok d => k d end.

(** ** Seat intents *)

Definition newIntent (d : SeatIntentData) (uuid : string) (now : Z) : SeatIntent :=
  mkSeatIntent uuid d.(d_tableId) d.(d_seat) d.(d_player) d.(d_pkPlayer) d.(d_buyIn) d.(d_bond) now (now + config.(seatIntentTtlMs)).

Definition seatIntentPost (req : Request) (now : Z) (uuid : string) (app : App) : Answer :=
  guarded req now app (λ app, parsed (SeatIntentSchema req.(rq_body)) app (λ d,
    let intent := newIntent d uuid now in
    let app := set_appStore (putSeatIntent (app_store app) intent) app in
    (okJson (JObj [("intent", intentJson intent)]), app,
     broadcast delivers app.(app_hub) (JObj [("type", JStr "seat_intent"); ("intent", intentJson intent)])))).

Definition seatIntentsGet (tableId : string) (now : Z) (app : App) : Answer :=
  if bool_decide (tableId = EmptyString) then answer (error 400 "tableId required") app
  else let '(intents, st) := listSeatIntents (app_store app) tableId now in
       answer (okJson (JObj [("intents", JArr (map intentJson intents))])) (set_appStore st app).

(** ** Nicknames *)

Definition nicknamesGet (app : App) : Answer := answer (okJson (JObj (map (λ an, (an.1, JStr an.2)) app.(app_nicks).(nickMap)))) app.

Definition nicknameJson (addr nick : string) : json := JObj [("address", JStr addr); ("nickname", JStr nick)].
Definition nicknameGet (addr : string) (app : App) : Answer :=
  match mget addr app.(app_nicks).(nickMap) with
  | Some nick => if bool_decide (nick = EmptyString) then answer (error 404 "no nickname set") app else answer (okJson (nicknameJson addr nick)) app
  | None => answer (error 404 "no nickname set") app
  end.

(** [hrp && hrp.startsWith("ocp")] *)
Definition ocpAddress (addr : string) : bool :=
  match decodeBech32Prefix (chars addr) with Some hrp => bool_decide (take 3 hrp = chars "ocp") | None => false end.

Definition nicknamePut (addr : string) (req : Request) (now : Z) (app : App) : Answer :=
  guarded req now app (λ app,
    if negb (ocpAddress addr) then answer (error 400 "invalid address") app
    else parsed (NicknameSchema req.(rq_body)) app (λ nickname,
      match nickSet app.(app_nicks) addr nickname with
      | (taken, nicks) => answer (error 409 "nickname already taken") (set_nicks nicks app)
      | (ok, nicks) => answer (okJson (nicknameJson addr nickname)) (set_nicks nicks app)
      end)).

(** ** Artifacts *)

Definition storedJson (id : string) (kind : ArtifactKind) (bs : bytes) : list (string * json) :=
  [("artifactId", JStr id); ("kind", JStr (kindStr kind)); ("bytes", sizeJson bs)].

(** What both uploads do with the bytes.  A [putArtifact] that throws becomes
    the answer of the error handler. *)
Definition storeArtifact (id : string) (kind : ArtifactKind) (mime : string) (bs : bytes) (meta : json) (now : Z) (app : App) : Answer :=
  if config.(c_artifactMaxBytes) <? Z.of_nat (length bs) then answer (error 413 "artifact too large") app
  else
    match putArtifact limits (app_store app) (mkArtifact id kind mime bs meta now now) now with
    | Err msg => answer (error 500 msg) app
    | Ok st =>
        let app := set_appStore st app in
        (okJson (JObj (("ok", JBool true) :: storedJson id kind bs)), app,
         broadcast delivers app.(app_hub) (JObj ([("type", JStr "artifact_stored")] ++ storedJson id kind bs ++ [("nowMs", JNum now)])))
    end.

Definition octetStream : string := "application/octet-stream".

Definition shuffleArtifactPost (req : Request) (now : Z) (app : App) : Answer :=
  guarded req now app (λ app, parsed (ShuffleArtifactPutSchema req.(rq_body)) app (λ d,
    let bs := bufferFrom (chars d.(d_proofShuffleBase64)) in
    storeArtifact (bytesToHex (sha256 bs)) k_shuffle (default octetStream d.(d_smime)) bs (default (JObj []) d.(d_smeta)) now app)).

Definition artifactPut (id : string) (req : Request) (now : Z) (app : App) : Answer :=
  guarded req now app (λ app,
    if bool_decide (id = EmptyString) then answer (error 400 "artifactId required") app
    else parsed (ArtifactPutSchema req.(rq_body)) app (λ d,
      storeArtifact id (default k_other d.(d_kind)) (default octetStream d.(d_mime)) (bufferFrom (chars d.(d_dataBase64))) (default (JObj []) d.(d_meta)) now app)).

Definition artifactGet (id : string) (now : Z) (app : App) : Answer :=
  if bool_decide (id = EmptyString) then answer (error 400 "artifactId required") app
  else
    let '(rec, st) := getArtifact (app_store app) id now in
    match rec with
    | None => answer (error 404 "not found") (set_appStore st app)
    | Some rec =>
        answer (okJson (JObj [("artifactId", JStr rec.(artifactId)); ("kind", JStr (kindStr rec.(a_kind))); ("mime", JStr rec.(a_mime));
                              ("bytes", sizeJson rec.(a_bytes)); ("meta", rec.(a_meta)); ("dataBase64", JStr (text (toBase64 rec.(a_bytes))))]))
               (set_appStore st app)
    end.

Definition artifactRaw (id : string) (now : Z) (app : App) : Answer :=
  if bool_decide (id = EmptyString) then answer (mkResponse 400 [] JUndefined) app
  else
    let '(rec, st) := getArtifact (app_store app) id now in
    match rec with
    | None => answer (mkResponse 404 [] JUndefined) (set_appStore st app)
    | Some rec => answer (mkResponse 200 [("Content-Type", rec.(a_mime)); ("Content-Length", decimal (Z.of_nat (length rec.(a_bytes))))] (JBytes rec.(a_bytes)))
                         (set_appStore st app)
    end.

(** ** Tables, health *)

Definition health (now : Z) : Response :=
  okJson (JObj [("ok", JBool true); ("name", JStr "ocp-coordinator"); ("chainAdapter", JStr chainKind); ("nowMs", JNum now)]).
Definition tablesGet (app : App) : Response := okJson (JObj [("tables", JArr (map tableJson (listTables locale_le (app_store app))))]).
Definition tableGet (tableId : string) (app : App) : Response :=
  match getTable (app_store app) tableId with Some t => okJson (JObj [("table", tableJson t)]) | None => error 404 "not found" end.

(** ** The faucet *)

Definition statusJsonOf (s : FaucetStatus) : json :=
  JObj [("enabled", JBool s.(s_enabled)); ("address", JStr s.(s_address)); ("amount", JStr s.(s_amount)); ("denom", JStr s.(s_denom)); ("cooldownSecs", JNum s.(s_cooldownSecs))].
Definition faucetStatus (faucet : option FaucetService) : Response :=
  match faucet with
  | None => okJson (JObj [("enabled", JBool false)])
  | Some f => okJson (statusJsonOf (getStatus config.(CoordConfig.faucet) f))
  end.

Definition SAFE_FAUCET_ERROR_PREFIXES : list string :=
  ["invalid address"; "address required"; "address rate limited"; "IP rate limited"; "faucet is busy"; "faucet not enabled"; "faucet not initialized"].
Definition startsWith (s p : string) : bool := let p := chars p in bool_decide (take (length p) (chars s) = p).

(** The answer to an error of [drip]. *)
Definition faucetError (err : FaucetError) : Response :=
  let status := default 500 err.(fe_status) in
  let hs := if status =? 429 then [("Retry-After", decimal (default 60 err.(fe_retryAfter)))] else [] in
  if status =? 500 then mkResponse 500 hs (JObj [("error", JStr "faucet error")])
  else if negb (existsb (startsWith err.(fe_message)) SAFE_FAUCET_ERROR_PREFIXES) then mkResponse status hs (JObj [("error", JStr "faucet error")])
  else mkResponse status hs (JObj [("error", JStr err.(fe_message))]).

Definition faucetAddress (body : json) : string := match field body "address" with JStr s => trimmed s | _ => EmptyString end.

(** Up to the transaction: an answer, or the address and the client it is under
    way for. *)
Definition faucetPost (req : Request) (now : Z) (faucet : option FaucetService) : (Response + string * string) * option FaucetService :=
  match faucet with
  | None => (inl (error 404 "faucet not enabled"), None)
  | Some f =>
      let address := faucetAddress req.(rq_body) in
      if bool_decide (address = EmptyString) then (inl (error 400 "address required"), Some f)
      else
        let clientIp := getClientId req (default 1 config.(trustedProxyHops)) in
        match dripBegin config.(CoordConfig.faucet) f address clientIp now with
        | (Err err, f) => (inl (faucetError err), Some f)
        | (Ok _, f) => (inr (address, clientIp), Some f)
        end
  end.

Definition faucetPostEnd (address clientIp : string) (began : Z) (out : TxOutcome) (f : FaucetService) : Response * FaucetService :=
  match dripEnd config.(CoordConfig.faucet) f address clientIp began out with
  | (Err err, f) => (faucetError err, f)
  | (Ok r, f) => (okJson (JObj [("txHash", JStr r.(d_txHash)); ("amount", JStr r.(d_amount)); ("denom", JStr r.(d_denom))]), f)
  end.

(** The request with its transaction, which comes back with [out]. *)
Definition faucetRoute (req : Request) (now : Z) (out : TxOutcome) (app : App) : Answer :=
  match faucetPost req now app.(app_faucet) with
  | (inl r, f) => answer r (set_faucet f app)
  | (inr (address, clientIp), Some f) => let '(r, f) := faucetPostEnd address clientIp now out f in answer r (set_faucet (Some f) app)
  | (inr _, None) => answer (error 404 "faucet not enabled") app
  end.

(** ** The development routes *)

(** The subscriber of the server gets an event of the mock chain: the event is
    broadcast, and the table, which the mock reads at once, is stored. *)
Definition emit (ev : ChainEvent) (app : App) : App * Sent :=
  let '(s, sent) := CoordServer.onChainEvent delivers ev (CoordServer.mkServer app.(app_hub) []) in
  let s := match s.(CoordServer.inflight) with
           | [] => s
           | _ :: _ => CoordServer.onReply (t ← ev.(ev_tableId); CoordChain.mockGetTable t app.(app_mock)) s
           end in
  (set_hub s.(CoordServer.sv_hub) app, sent).

(** [{ ...defaults, ...params }] of [createTable], for an object [params]. *)
Definition fullParams (params : json) : list (string * json) :=
  foldl (λ m kv, mset kv.1 kv.2 m)
    [("maxPlayers", JNum 9); ("smallBlind", JStr "1"); ("bigBlind", JStr "2"); ("minBuyIn", JStr "100"); ("maxBuyIn", JStr "1000")]
    (match params with JObj l => l | _ => [] end).
(** The object as [TableParams]; a member that has not the type of its field is
    read as a text. *)
Definition paramsOf (full : list (string * json)) : TableParams :=
  let str k := toStr (field (JObj full) k) in
  let opt k := match field (JObj full) k with JStr s => Some s | _ => None end in
  mkTableParams (match field (JObj full) "maxPlayers" with JNum n => Some n | _ => None end)
    (str "smallBlind") (str "bigBlind") (str "minBuyIn") (str "maxBuyIn") (opt "passwordHash") (opt "passwordSalt").

(** [uuid]: the digits of the random number. *)
Definition mockTablesPost (req : Request) (now : Z) (uuid : string) (app : App) : Answer :=
  if negb (bool_decide (chainKind = "mock")) then answer (error 400 "not a mock chain adapter") app
  else
    let tableId := orString (trimmed (toStr (orElse (field req.(rq_body) "tableId") (JStr EmptyString)))) ("table-" +:+ uuid) in
    let full := fullParams (orElse (field req.(rq_body) "params") (JObj [])) in
    let '(table, ev, mock) := CoordChain.createTable tableId (paramsOf full) now (JObj full) app.(app_mock) in
    let '(app, sent) := emit ev (set_mock mock app) in
    (okJson (JObj [("table", tableJson table)]), app, sent).

Definition mockEventsPost (req : Request) (now : Z) (app : App) : Answer :=
  if negb (bool_decide (chainKind = "mock")) then answer (error 400 "not a mock chain adapter") app
  else
    let body := orElse req.(rq_body) (JObj []) in
    let optional k := match field body k with JStr s => Some s | _ => None end in
    let name := default EmptyString (optional "name") in
    if bool_decide (name = EmptyString) then answer (error 400 "name required") app
    else
      let '(ev, mock) := CoordChain.publishEvent name (optional "tableId") (optional "handId") (field body "data") None now app.(app_mock) in
      let '(app, sent) := emit ev (set_mock mock app) in
      (okJson (JObj [("event", eventJson ev)]), app, sent).

(** [if (config.devRoutes)]; without it express finds no route. *)
Definition devRoute (a : Answer) (app : App) : Answer := if config.(devRoutes) then a else answer (mkResponse 404 [] JUndefined) app.

(** ** One request *)

Inductive Route :=
| Health | FaucetStatusGet | FaucetPost | Tables | Table (id : string) | SeatIntentPost | SeatIntents (tableId : string)
| Nicknames | NicknameOf (addr : string) | NicknamePut (addr : string)
| ShufflePost | ArtifactPut (id : string) | ArtifactGet (id : string) | ArtifactRaw (id : string)
| ChainTable (id : string) | Epoch | DealerNext (id : string) | DealerHand (id hand : string) | HolePositions (id hand seat : string)
| EncShares (id hand pos : string) | Ciphertext (id hand pos : string)
| MockTables | MockEvents.

(** What comes from outside during a request: the random text it draws, and how
    the transaction of the faucet comes back, if it sends one. *)
Record Outside := mkOutside { o_uuid : string; o_tx : TxOutcome }.

Definition handle (route : Route) (req : Request) (now : Z) (out : Outside) (app : App) : Answer :=
  let b64 := bufferFrom in
  match route with
  | Health => answer (health now) app
  | FaucetStatusGet => answer (faucetStatus app.(app_faucet)) app
  | FaucetPost => faucetRoute req now out.(o_tx) app
  | Tables => answer (tablesGet app) app
  | Table id => answer (tableGet id app) app
  | SeatIntentPost => seatIntentPost req now out.(o_uuid) app
  | SeatIntents t => seatIntentsGet t now app
  | Nicknames => nicknamesGet app
  | NicknameOf a => nicknameGet a app
  | NicknamePut a => nicknamePut a req now app
  | ShufflePost => shuffleArtifactPost req now app
  | ArtifactPut id => artifactPut id req now app
  | ArtifactGet id => artifactGet id now app
  | ArtifactRaw id => artifactRaw id now app
  | ChainTable id => answer (CoordDealer.getTableRoute query id) app
  | Epoch => answer (CoordDealer.getEpochRoute query) app
  | DealerNext id => answer (CoordDealer.dealerNextRoute b64 locale_le query id) app
  | DealerHand id hand => answer (CoordDealer.dealerHandRoute query id hand) app
  | HolePositions id hand seat => answer (CoordDealer.holePositionsRoute b64 query id hand seat) app
  | EncShares id hand pos => answer (CoordDealer.encSharesRoute query id hand pos) app
  | Ciphertext id hand pos => answer (CoordDealer.ciphertextRoute query id hand pos) app
  | MockTables => devRoute (mockTablesPost req now out.(o_uuid) app) app
  | MockEvents => devRoute (mockEventsPost req now app) app
  end.

Definition serve (route : Route) (req : Request) (now : Z) (out : Outside) (app : App) : Answer :=
  if corsAllowed (req.(rq_header) "origin") then handle route req now out app
  else answer (error 500 "CORS blocked") app.
End app.
End CoordHttp.
