(* ===== verification/CoordHttpThms.v ===== *)
(** * The HTTP application: who may write, what is kept, and what comes back *)
From stdpp Require Import base option list strings gmap.
From Stdlib Require Import ZArith Lia Ascii.
From S2P Require Import Prelude OcpBytes OcpTranscript Json JsMap TextCodec CoordStore CoordStoreThms CoordFaucet CoordConfig CoordGuards CoordDealer CoordWs CoordChain CoordServer CoordHttp.
Import Bytes Hashing Json JsMap TextCodec CoordStore CoordStoreThms CoordFaucet CoordConfig CoordGuards CoordWs CoordHttp.

Module CoordHttpThms.

#[local] Open Scope string_scope.
#[local] Open Scope list_scope.
#[local] Open Scope Z_scope.

Section thms.
Context `{Schemas} `{HashOps}.
Context (config : CoordinatorConfig) (limits : Limits) (locale_le : string → string → bool) (bufferFrom : list ascii → bytes)
        (delivers : nat → json → bool) (chainKind : string) (query : option (string → json)).

#[local] Abbreviation serve := (serve config limits locale_le bufferFrom delivers chainKind query).
#[local] Abbreviation handle := (handle config limits locale_le bufferFrom delivers chainKind query).

(** ** Without the token *)


Definition is_dev (route : Route) : bool := match route with MockTables | MockEvents => true | _ => false end.







Lemma set_hub_same app : set_hub app.(app_hub) app = app.
Proof. by destruct app. Qed.


Lemma faucet_only req now out app r app' sent : faucetRoute config req now out app = (r, app', sent) → sent = [] ∧ ∃ f, app' = set_faucet f app.
Proof.
  assert (Hsame : app = set_faucet app.(app_faucet) app) by by destruct app.
  unfold faucetRoute, answer. intros E. repeat case_match; injection E as <- <- <-; (split; [done|]); eauto.
Qed.


(** ** What is always true of the application *)

Record app_ok (app : App) : Prop := {
  ao_store : store_ok limits (app_store app);
  ao_nicks : mwf app.(app_nicks).(nickMap);
  ao_cap : (1 <= app.(app_nicks).(maxEntries))%nat ∧ (length app.(app_nicks).(nickMap) <= app.(app_nicks).(maxEntries))%nat;
  ao_addresses : Forall (λ an, ocpAddress an.1 = true) app.(app_nicks).(nickMap)
}.

(** Another registry with the same cap. *)
Lemma nickSet_ok app a n : ocpAddress a = true → app_ok app →
  app_ok (set_nicks (nickSet app.(app_nicks) a n).2 app) ∧ (nickSet app.(app_nicks) a n).2.(maxEntries) = app.(app_nicks).(maxEntries).
Proof.
  intros Ha [Hs Hw [Hpos Hl] Hf]. pose proof (nickSet_spec app.(app_nicks) a n Hw) as Hn. split; [|by apply (ns_max _ _ _ _ _ Hn)].
  constructor; cbn [set_nicks app_nicks app_store app_hub]; [done|by apply (ns_wf _ _ _ _ _ Hn)| |].
  - rewrite (ns_max _ _ _ _ _ Hn). split; [done|]. by apply (ns_size _ _ _ _ _ Hn).
  - unfold nickSet. destruct (nickTaken _ _ _); [done|]. cbn. apply Forall_mset; [done|]. destruct (_ && _); [|done].
    destruct (nickMap app.(app_nicks)) as [|[o v] l] eqn:E; [done|]. by apply Forall_mfilter.
Qed.

(** The application with another store, guard state, faucet or chain. *)
Lemma app_ok_store st app : app_ok app → store_ok limits st → app_ok (set_appStore st app).
Proof. by intros []. Qed.

(** A state that requests lead to: consistent, with the cap it had. *)
Definition kept (app app' : App) : Prop := app_ok app' ∧ app'.(app_nicks).(maxEntries) = app.(app_nicks).(maxEntries).

Lemma storeArtifact_ok id kind mime bs meta now app : 0 <= limits.(artifactCacheMaxBytes) → app_ok app →
  kept app (storeArtifact config limits delivers id kind mime bs meta now app).1.2.
Proof.
  intros Hpos Ha. unfold storeArtifact. destruct (_ <? _); [done|]. destruct (putArtifact _ _ _ _) as [st|] eqn:E; [|done].
  split; [|done]. apply app_ok_store; [done|]. destruct Ha as [Hs _ _ _]. by eapply putArtifact_ok.
Qed.

Lemma guarded_ok req now app handler : app_ok app → (∀ app, app_ok app → kept app (handler app).1.2) → kept app (guarded config req now app handler).1.2.
Proof.
  intros Ha Hh. unfold guarded. destruct (writeGuards _ _ _ _) as [[r|hs] buckets]; [by destruct Ha|].
  specialize (Hh (set_limits buckets app)). destruct (handler _) as [[r app'] sent]. apply Hh. by destruct Ha.
Qed.

Lemma parsed_ok {D} (p : result string D) app k : app_ok app → (∀ d, kept app (k d).1.2) → kept app (parsed p app k).1.2.
Proof. intros Ha Hk. destruct p; [apply Hk|done]. Qed.

Lemma emit_ok ev app : app_ok app → kept app (emit delivers ev app).1.
Proof.
  intros Ha. unfold emit, CoordServer.onChainEvent. destruct app as [[cs bs st] nicks bk fa mo]. cbn in *.
  destruct (ev_tableId ev) as [t|]; cbn; [|done]. case_bool_decide; cbn; [done|]. split; [|by destruct (CoordChain.mockGetTable t mo)].
  destruct (CoordChain.mockGetTable t mo) as [info|]; [|done]. destruct Ha as [Hs Hn Hc Hf]. constructor; cbn in *; [by apply upsert_ok|done..].
Qed.

Lemma dev_ok route req now out app : is_dev route = true → app_ok app → kept app (handle route req now out app).1.2.
Proof.
  intros Hd Ha. assert (Hm : ∀ mock, app_ok (set_mock mock app)) by (intros mock; by destruct Ha).
  destruct route; try discriminate Hd; cbn [CoordHttp.handle]; unfold devRoute; (destruct (devRoutes config); [|done]).
  - unfold mockTablesPost. destruct (negb _); [done|]. cbv zeta. destruct (CoordChain.createTable _ _ _ _ _) as [[table ev] mock].
    pose proof (emit_ok ev _ (Hm mock)) as He. by destruct (emit delivers ev (set_mock mock app)).
  - unfold mockEventsPost. destruct (negb _); [done|]. cbv zeta. case_bool_decide; [done|]. destruct (CoordChain.publishEvent _ _ _ _ _ _ _) as [ev mock].
    pose proof (emit_ok ev _ (Hm mock)) as He. by destruct (emit delivers ev (set_mock mock app)).
Qed.

Lemma serve_ok route req now out app : 0 <= limits.(artifactCacheMaxBytes) → app_ok app → kept app (serve route req now out app).1.2.
Proof.
  intros Hpos Happ. unfold CoordHttp.serve. destruct (corsAllowed _ _); [|done]. pose proof Happ as [Hs Hn Hc Hf].
  destruct (is_dev route) eqn:Edev; [by apply dev_ok|]. destruct route; try discriminate Edev; cbn [CoordHttp.handle answer fst snd]; try done.
  - destruct (faucetRoute config req now (o_tx out) app) as [[r a] sent] eqn:E. apply faucet_only in E as [_ [f ->]]. by split.
  - apply guarded_ok; [done|]. intros a Ha. apply parsed_ok; [done|]. intros d. split; [|done]. apply app_ok_store; [done|]. by apply putIntent_ok, ao_store.
  - unfold seatIntentsGet. case_bool_decide; [done|]. destruct (listSeatIntents _ _ _) as [l st] eqn:E. split; [|done]. apply app_ok_store; [done|].
    pose proof (listIntents_eq (app_store app) tableId now) as He. rewrite E in He. cbn in He. subst st. by apply prune_ok.
  - unfold nicknameGet. destruct (mget _ _); [by case_bool_decide|done].
  - apply guarded_ok; [done|]. intros a Ha. destruct (ocpAddress addr) eqn:Eo; [|done]. cbn [negb]. apply parsed_ok; [done|]. intros n.
    pose proof (nickSet_ok a addr n Eo Ha) as Hk. by destruct (nickSet _ _ _) as [[] nicks].
  - apply guarded_ok; [done|]. intros a Ha. apply parsed_ok; [done|]. intros d. by apply storeArtifact_ok.
  - apply guarded_ok; [done|]. intros a Ha. case_bool_decide; [done|]. apply parsed_ok; [done|]. intros d. by apply storeArtifact_ok.
  - unfold artifactGet. case_bool_decide; [done|]. destruct (getArtifact _ _ _) as [rec st] eqn:E.
    assert (app_ok (set_appStore st app)) as Hok; [|by destruct rec].
    apply app_ok_store; [done|]. pose proof (getArtifact_ok limits (app_store app) id now Hs) as He. by rewrite E in He.
  - unfold artifactRaw. case_bool_decide; [done|]. destruct (getArtifact _ _ _) as [rec st] eqn:E.
    assert (app_ok (set_appStore st app)) as Hok; [|by destruct rec].
    apply app_ok_store; [done|]. pose proof (getArtifact_ok limits (app_store app) id now Hs) as He. by rewrite E in He.
Qed.

(** ** Uploads come back *)

(** No artifact but the one stored was used at [now] or later. *)
Definition older (app : App) (id : string) (now : Z) : Prop :=
  ∀ b, b ∈ (app_store app).(artifactsById).*2 → artifactId b ≠ id → a_lastAccessAtMs b < now.

Lemma storeArtifact_get id kind mime bs meta now app r app' sent :
  store_ok limits (app_store app) → older app id now → Z.of_nat (length bs) <= limits.(artifactCacheMaxBytes) →
  storeArtifact config limits delivers id kind mime bs meta now app = (r, app', sent) → r.(rs_status) = 200 →
  mget id (app_store app').(artifactsById) = Some (mkArtifact id kind mime bs meta now now).
Proof.
  intros Hst Hold Hfit. unfold storeArtifact. destruct (_ <? _); [by intros [= <- <- <-]|].
  destruct (putArtifact _ _ _ _) as [st|] eqn:E; [|by intros [= <- <- <-]]. intros [= <- <- <-] _. cbn.
  by apply (putArtifact_keeps limits (app_store app) (mkArtifact id kind mime bs meta now now) now st).
Qed.

(** What the route answers for a stored artifact. *)
Definition artifactAnswer (id : string) (kind : ArtifactKind) (mime : string) (bs : bytes) (meta : json) : Response :=
  okJson (JObj [("artifactId", JStr id); ("kind", JStr (kindStr kind)); ("mime", JStr mime); ("bytes", sizeJson bs); ("meta", meta); ("dataBase64", JStr (text (toBase64 bs)))]).

Lemma artifactGet_answer id kind mime bs meta now now' app : id ≠ EmptyString →
  mget id (app_store app).(artifactsById) = Some (mkArtifact id kind mime bs meta now now) →
  (artifactGet id now' app).1.1 = artifactAnswer id kind mime bs meta.
Proof. intros Hid Hg. unfold artifactGet, getArtifact. rewrite bool_decide_false by done. by rewrite Hg. Qed.

Lemma guarded_inv req now app handler r app' sent : guarded config req now app handler = (r, app', sent) → r.(rs_status) = 200 →
  ∃ r0 buckets, handler (set_limits buckets app) = (r0, app', sent) ∧ r0.(rs_status) = 200.
Proof.
  unfold guarded, writeGuards. destruct (writeAuthGuard config req) as [e|] eqn:Ea.
  - intros [= <- <- <-] Hs. exfalso. unfold writeAuthGuard in Ea. repeat case_match; simplify_eq; discriminate Hs.
  - unfold writeRateLimiter. destruct (negb _).
    + intros E Hs. destruct (handler _) as [[r0 a0] s0] eqn:Eh. injection E as <- <- <-. by exists r0, app.(app_buckets).
    + destruct (limitKey _ _ _ _) as [[e|hs] buckets] eqn:El.
      * intros [= <- <- <-] Hs. exfalso. unfold limitKey in El. repeat case_match; simplify_eq; discriminate Hs.
      * intros E Hs. destruct (handler _) as [[r0 a0] s0] eqn:Eh. injection E as <- <- <-. by exists r0, buckets.
Qed.

Lemma parsed_inv {D} (p : result string D) app k r app' sent : parsed p app k = (r, app', sent) → r.(rs_status) = 200 → ∃ d, p = Ok d ∧ k d = (r, app', sent).
Proof. destruct p as [d|msg]; [by exists d|]. cbn. unfold answer. by intros [= <- <- <-]. Qed.

(** Uploads come back.  When an upload is answered with success, the artifact
    fits in the cache and no other was used later, then the next read of it
    answers the kind, the type, the meta data and exactly the base64 text of
    the bytes that were uploaded; a shuffle proof is found under the hash of
    its bytes. *)
Theorem uploads_come_back req now out app r app' sent req' now' out' :
  store_ok limits (app_store app) → corsAllowed config (req'.(rq_header) "origin") = true → r.(rs_status) = 200 →
  (∀ id, id ≠ EmptyString → serve (ArtifactPut id) req now out app = (r, app', sent) → older app id now →
     ∃ d, ArtifactPutSchema req.(rq_body) = Ok d ∧
     let bs := bufferFrom (chars d.(d_dataBase64)) in Z.of_nat (length bs) <= limits.(artifactCacheMaxBytes) →
     (serve (ArtifactGet id) req' now' out' app').1.1 = artifactAnswer id (default k_other d.(d_kind)) (default octetStream d.(d_mime)) bs (default (JObj []) d.(d_meta))) ∧
  (serve ShufflePost req now out app = (r, app', sent) →
     ∃ d, ShuffleArtifactPutSchema req.(rq_body) = Ok d ∧
     let bs := bufferFrom (chars d.(d_proofShuffleBase64)) in let id := bytesToHex (sha256 bs) in
     id ≠ EmptyString → older app id now → Z.of_nat (length bs) <= limits.(artifactCacheMaxBytes) →
     (serve (ArtifactGet id) req' now' out' app').1.1 = artifactAnswer id k_shuffle (default octetStream d.(d_smime)) bs (default (JObj []) d.(d_smeta))).
Proof.
  intros Hst Hcors Hs. split.
  - intros id Hid E Hold. unfold CoordHttp.serve in *. destruct (corsAllowed config (rq_header req _)); [|injection E as <- <- <-; discriminate Hs].
    apply guarded_inv in E as (r0 & buckets & E & Hs'); [|done]. rewrite bool_decide_false in E by done.
    apply parsed_inv in E as (d & Hd & E); [|done]. exists d. split; [done|]. cbv zeta. intros Hfit. rewrite Hcors. cbn [CoordHttp.handle].
    apply (artifactGet_answer _ _ _ _ _ now); [done|]. eapply (storeArtifact_get _ _ _ _ _ _ (set_limits buckets app)); [exact Hst|exact Hold|exact Hfit|exact E|exact Hs'].
  - intros E. unfold CoordHttp.serve in *. destruct (corsAllowed config (rq_header req _)); [|injection E as <- <- <-; discriminate Hs].
    apply guarded_inv in E as (r0 & buckets & E & Hs'); [|done].
    apply parsed_inv in E as (d & Hd & E); [|done]. exists d. split; [done|]. cbv zeta. intros Hid Hold Hfit. rewrite Hcors. cbn [CoordHttp.handle].
    apply (artifactGet_answer _ _ _ _ _ now); [done|]. eapply (storeArtifact_get _ _ _ _ _ _ (set_limits buckets app)); [exact Hst|exact Hold|exact Hfit|exact E|exact Hs'].
Qed.

(** ** Runs *)

(** A request with the time it comes at and what it gets from outside. *)
Record Call := mkCall { cl_route : Route; cl_req : Request; cl_now : Z; cl_out : Outside }.
Definition call1 (app : App) (c : Call) : App := (serve c.(cl_route) c.(cl_req) c.(cl_now) c.(cl_out) app).1.2.
Definition calls (app : App) (l : list Call) : App := foldl call1 app l.

Lemma calls_ok l app : 0 <= limits.(artifactCacheMaxBytes) → app_ok app → kept app (calls app l).
Proof.
  intros Hpos. revert app. induction l as [|c l IH]; intros app Ha; [done|]. cbn. destruct (serve_ok c.(cl_route) c.(cl_req) c.(cl_now) c.(cl_out) app Hpos Ha) as [H1 H2].
  destruct (IH _ H1) as [H3 H4]. split; [done|]. exact (eq_trans H4 H2).
Qed.

(** C33. What stays bounded.  Whatever requests are served, in whatever order,
    the faucet's and those of the development routes included: the store stays
    consistent, with the chat of every table in its ring, every artifact within
    its limit and the bytes of all of them, which are counted right, within the
    limit of the cache; and the nicknames are at most as many as the cap the
    registry was made with, one for each address, and only of addresses whose
    checksum is right and whose prefix begins with ocp.  (Not bounded are the
    seat intents that have not expired, and the number of artifacts without
    bytes.) *)
Theorem requests_keep_invariant l app : 0 <= limits.(artifactCacheMaxBytes) → app_ok app →
  let app' := calls app l in
  store_ok limits (app_store app') ∧
  (∀ t ring, mget t (app_store app').(chatByTable) = Some ring → (length ring <= CHAT_RING_SIZE)%nat) ∧
  (∀ id a, mget id (app_store app').(artifactsById) = Some a → size a <= limits.(artifactMaxBytes)) ∧
  mtotal size (app_store app').(artifactsById) <= limits.(artifactCacheMaxBytes) ∧
  (length app'.(app_nicks).(nickMap) <= app.(app_nicks).(maxEntries))%nat ∧ mwf app'.(app_nicks).(nickMap) ∧
  ∀ addr nick, mget addr app'.(app_nicks).(nickMap) = Some nick → ∃ hrp, decodeBech32Prefix (chars addr) = Some (chars "ocp" ++ hrp).
Proof.
  intros Hpos Ha app'. destruct (calls_ok l app Hpos Ha) as [[Hs Hn [_ Hc] Hf] Hcap]. pose proof Hs as [_ Hchat _ Hart Htot Hb].
  split; [done|]. split; [|split; [|split; [|split; [|split; [done|]]]]].
  - intros t ring Hg. by destruct (mget_Forall _ _ _ _ (proj2 Hchat) Hg).
  - intros id a Hg. by destruct (mget_Forall _ _ _ _ (proj2 Hart) Hg).
  - unfold app'. lia.
  - unfold app'. lia.
  - intros addr nick Hg.
    pose proof (mget_Forall _ _ _ _ Hf Hg) as Ho. cbn in Ho. unfold ocpAddress in Ho. destruct (decodeBech32Prefix _) as [hrp|]; [|done].
    apply bool_decide_eq_true_1 in Ho. exists (drop 3 hrp). f_equal. rewrite <-Ho. symmetry. apply take_drop.
Qed.
End thms.

(** ** An application with a token *)
Import Hashing.Toy.

Definition toy_strings (j : json) (k : string) : option string := match field j k with JStr s => Some s | _ => None end.
#[export] Instance toy_schemas : Schemas := {
  SeatIntentSchema j := match field j "tableId", field j "seat", field j "player" with
    | JStr t, JNum s, JStr p => if bool_decide (t ≠ EmptyString ∧ p ≠ EmptyString ∧ 0 <= s ∧ s <= 8) then
        Ok (mkIntentData t s p (toy_strings j "pkPlayer") (toy_strings j "buyIn") (toy_strings j "bond")) else Err "invalid"
    | _, _, _ => Err "invalid"
    end;
  NicknameSchema j := match field j "nickname" with
    | JStr n => if bool_decide (2 <= length (chars n) ∧ length (chars n) <= 20)%nat && forallb nickChar (chars n) then Ok n else Err "invalid"
    | _ => Err "invalid"
    end;
  ArtifactPutSchema j := match field j "dataBase64" with
    | JStr s => if bool_decide (s = EmptyString) then Err "invalid" else Ok (mkArtifactData None (toy_strings j "mime") s None)
    | _ => Err "invalid"
    end;
  ShuffleArtifactPutSchema j := match field j "proofShuffleBase64" with JStr s => Ok (mkShuffleData s (toy_strings j "mime") None) | _ => Err "invalid" end
}.

#[export] Instance toy_schema_laws : SchemaLaws.
Proof.
  split; cbn; intros j d; repeat case_match; try done; try (intros [= <-]; cbn); b2p;
    repeat match goal with Hb : bool_decide _ = true |- _ => apply bool_decide_eq_true_1 in Hb | Hb : bool_decide _ = false |- _ => apply bool_decide_eq_false_1 in Hb end;
    repeat split; try done; try tauto; try lia.
Qed.

Definition toy_http_config : CoordinatorConfig :=
  mkCoordConfig "h" 1 None false 100 100 1000 true (Some "secret") true 2 1000 (Some 1) (mkFaucetConfig false None "5" "chip" 10 10 "a" "0" "rpc" "lcd").
Definition toy_http_limits : Limits := mkLimits 100 100.
Definition toy_request (token : option string) (body : json) : Request :=
  mkRequest (λ k, if bool_decide (k = "x-api-key") then token else None) (Some "1.2.3.4") None body.
Definition toy_app : App := mkApp (mkHub [] [] newStore) (newNicks 10) [] None CoordChain.newMock.
Definition toy_outside : Outside := mkOutside "u" (TxThrows "no node").
Definition toy_serve := serve toy_http_config toy_http_limits (λ _ _, true) fromBase64 (λ _ _, true) "mock" None.
Definition toy_upload : json := JObj [("dataBase64", JStr "aGVsbG8=")].
Definition toy_uploaded : Answer := toy_serve (ArtifactPut "a") (toy_request (Some "secret") toy_upload) 5 toy_outside toy_app.

Lemma toy_app_ok : app_ok toy_http_limits toy_app.
Proof. constructor; [by apply newStore_ok|apply NoDup_nil_2|cbn; lia|constructor]. Qed.


Lemma uploads_come_back_witness : (toy_serve (ArtifactGet "a") (toy_request None JUndefined) 6 toy_outside toy_uploaded.1.2).1.1
  = artifactAnswer "a" k_other octetStream (fromBase64 (chars "aGVsbG8=")) (JObj []).
Proof.
  destruct (uploads_come_back toy_http_config toy_http_limits (λ _ _, true) fromBase64 (λ _ _, true) "mock" None
    (toy_request (Some "secret") toy_upload) 5 toy_outside toy_app toy_uploaded.1.1 toy_uploaded.1.2 toy_uploaded.2
    (toy_request None JUndefined) 6 toy_outside) as [Hput _]; [exact (ao_store _ _ toy_app_ok)|reflexivity|reflexivity|].
  destruct (Hput "a") as (d & Hd & Hget); [discriminate|reflexivity|intros b Hb; by apply elem_of_nil in Hb|].
  assert (d = mkArtifactData None None "aGVsbG8=" None) as -> by (by injection Hd). apply Hget. vm_compute. discriminate.
Defined.

Lemma requests_keep_invariant_witness :
  store_ok toy_http_limits (app_store (calls toy_http_config toy_http_limits (λ _ _, true) fromBase64 (λ _ _, true) "mock" None toy_app
    [mkCall (ArtifactPut "a") (toy_request (Some "secret") toy_upload) 5 toy_outside; mkCall (ArtifactGet "a") (toy_request None JUndefined) 6 toy_outside])).
Proof.
  apply (requests_keep_invariant toy_http_config toy_http_limits (λ _ _, true) fromBase64 (λ _ _, true) "mock" None
    [mkCall (ArtifactPut "a") (toy_request (Some "secret") toy_upload) 5 toy_outside; mkCall (ArtifactGet "a") (toy_request None JUndefined) 6 toy_outside] toy_app);
    [vm_compute; discriminate|exact toy_app_ok].
Defined.
End CoordHttpThms.
