(* ===== verification/JsStrings.v ===== *)
(** * Strings: concatenation, and decimal numbers as JavaScript writes and
      reads them

    [String(n)] of an integer is read back by [BigInt] and [Number]; it has no
    white space. *)
From stdpp Require Import base option list strings pretty.
From Stdlib Require Import ZArith Lia Ascii.
From S2P Require Import Prelude OcpBytes Json JsonText CoordConfig CoordDealer.
Import Bytes Json JsonText JsonTextThms.

Module JsStrings.

#[local] Open Scope string_scope.
#[local] Open Scope list_scope.
#[local] Open Scope Z_scope.

Lemma digits_solid l : Forall (λ c, isDigit c = true) l → Forall (λ c, isSpace c = false) l.
Proof.
  intros Hl. eapply Forall_impl; [exact Hl|]. intros c. unfold isDigit, decimalValue, isSpace. destruct ((48 <=? _) && _) eqn:E; [|done]. intros _. lia.
Qed.

Lemma skipSpace_solid l : Forall (λ c, isSpace c = false) l → skipSpace l = l.
Proof. intros [|c l' Hc _]; [done|]. cbn. by rewrite Hc. Qed.

Lemma trim_solid l : Forall (λ c, isSpace c = false) l → trim l = l.
Proof.
  intros Hl. unfold trim, trimStart. rewrite (skipSpace_solid l) by done. rewrite skipSpace_solid; [apply rev_involutive|].
  rewrite rev_alt. by apply Forall_reverse.
Qed.

Lemma pretty_pos (p : positive) : ∃ c ds, String.list_ascii_of_string (pretty (N.pos p)) = c :: ds ∧ c ≠ "0"%char ∧
  Forall (λ c, isDigit c = true) (c :: ds) ∧ allDigits 10 0 (c :: ds) = Some (Z.pos p).
Proof.
  unfold pretty, pretty_N. rewrite decide_False by done. destruct (pretty_digits (N.pos p) EmptyString ltac:(lia)) as (c & ds & E & Hc & Hf & Hd).
  exists c, ds. rewrite E. cbn [String.list_ascii_of_string]. rewrite app_nil_r. split; [done|]. split; [done|]. split; [done|].
  specialize (Hd []). by rewrite app_nil_r in Hd.
Qed.

Lemma digit_plain c : isDigit c = true → c ≠ "-"%char ∧ c ≠ "+"%char.
Proof. intros Hc. split; intros ->; by vm_compute in Hc. Qed.

Lemma pretty_solid (z : Z) : Forall (λ c, isSpace c = false) (String.list_ascii_of_string (pretty z)).
Proof.
  destruct z as [|p|p]; [by repeat constructor|..]; destruct (pretty_pos p) as (c & ds & E & _ & Hf & _); apply digits_solid in Hf.
  - change (pretty (Z.pos p)) with (pretty (N.pos p)). by rewrite E.
  - change (String.list_ascii_of_string (pretty (Z.neg p))) with ("-"%char :: String.list_ascii_of_string (pretty (N.pos p))). rewrite E. by constructor.
Qed.

Lemma pretty_nonempty (z : Z) : pretty z ≠ EmptyString.
Proof.
  intros E. apply (f_equal String.list_ascii_of_string) in E. destruct z as [|p|p]; [done|..]; destruct (pretty_pos p) as (c & ds & Ep & _); [|done].
  change (pretty (Z.pos p)) with (pretty (N.pos p)) in E. by rewrite Ep in E.
Qed.

Lemma stringToBigInt_pretty z : stringToBigInt (pretty z) = Some z.
Proof.
  unfold stringToBigInt. rewrite trim_solid by apply pretty_solid. destruct z as [|p|p]; [done|..]; destruct (pretty_pos p) as (c & ds & E & Hc & Hf & Hd).
  - change (pretty (Z.pos p)) with (pretty (N.pos p)). rewrite E. destruct (digit_plain c (Forall_inv Hf)) as [H1 H2]. rewrite <-Hd.
    clear -Hc H1 H2. destruct c as [[] [] [] [] [] [] [] []]; try reflexivity; done.
  - change (String.list_ascii_of_string (pretty (Z.neg p))) with ("-"%char :: String.list_ascii_of_string (pretty (N.pos p))). rewrite E. unfold someDigits. by rewrite Hd.
Qed.

Lemma trimmed_pretty (z : Z) : CoordConfig.trimmed (pretty z) = pretty z.
Proof. unfold CoordConfig.trimmed, CoordConfig.chars, CoordConfig.text. rewrite trim_solid by apply pretty_solid. apply String.string_of_list_ascii_of_string. Qed.

Lemma asNumber_pretty (z : Z) : CoordDealer.asNumber (JStr (pretty z)) = Some z.
Proof. unfold CoordDealer.asNumber. rewrite trimmed_pretty, bool_decide_false by apply pretty_nonempty. apply stringToBigInt_pretty. Qed.

Lemma chars_app a b : CoordConfig.chars (a +:+ b) = CoordConfig.chars a ++ CoordConfig.chars b.
Proof. unfold CoordConfig.chars. induction a as [|c a IH]; [done|]. exact (f_equal (cons c) IH). Qed.

Lemma chars_inj a b : CoordConfig.chars a = CoordConfig.chars b → a = b.
Proof. intros E. apply (f_equal String.string_of_list_ascii) in E. unfold CoordConfig.chars in E. by rewrite !String.string_of_list_ascii_of_string in E. Qed.

(** [l.join(",")] *)
Lemma join_chars (z : Z) l : CoordConfig.chars (String.concat "," (map pretty (z :: l))) =
  CoordConfig.chars (pretty z) ++ concat (map (λ i, ","%char :: i) (map (λ z : Z, CoordConfig.chars (pretty z)) l)).
Proof.
  revert z. induction l as [|y l IH]; intros z; cbn [map concat]; [by rewrite app_nil_r|].
  change (String.concat "," (pretty z :: pretty y :: map pretty l)) with (pretty z +:+ ("," +:+ String.concat "," (map pretty (y :: l)))).
  rewrite !chars_app, IH. done.
Qed.

Lemma join_stringify (l : list Z) : stringify false (JArr (map JNum l)) = "["%char :: CoordConfig.chars (String.concat "," (map pretty l)) ++ ["]"%char].
Proof.
  destruct l as [|z l]; [done|]. rewrite join_chars. unfold stringify. cbn [stringifyAt map bracket newline app]. rewrite <-app_assoc. f_equal. f_equal. f_equal. f_equal.
  rewrite !map_map. done.
Qed.

Lemma plain_numbers (l : list Z) : plain (JArr (map JNum l)) = true.
Proof. cbn. by induction l. Qed.

Lemma join_inj (l k : list Z) : String.concat "," (map pretty l) = String.concat "," (map pretty k) → l = k.
Proof.
  intros E. assert (Es : stringify false (JArr (map JNum l)) = stringify false (JArr (map JNum k))) by (rewrite !join_stringify; by rewrite E).
  apply (f_equal parse) in Es. rewrite !parse_stringify in Es by apply plain_numbers. injection Es as Es.
  clear E. revert k Es. induction l as [|z l IH]; intros [|y k] E; try done. cbn in E. injection E as -> E. f_equal. by apply IH.
Qed.

End JsStrings.
