(* ===== verification/WebCards.v ===== *)
(** * Hole cards in the web client: [apps/web/src/components/holeCardCrypto.ts]
      and [useHoleCards.ts]

    The client asks the coordinator for the positions of its two cards, their
    ciphertexts and the shares, and combines the shares as the bot does; the
    functions whose text is the bot's are those of [HoleCards].  A request is
    answered by a [Response]; the awaits of one fetch run to the end before the
    next. *)
From stdpp Require Import base option list strings gmap pretty.
From Stdlib Require Import ZArith Lia Ascii.
From S2P Require Import Prelude OcpBytes OcpPrime OcpGroup OcpTranscript OcpProofs OcpProofsThms Json BotHoleCards BotHoleThms CoordConfig CoordGuards CoordDealer TextCodec JsStrings.
Import Bytes Group Proofs Json HoleCards TextCodec.

Module WebCards.

#[local] Open Scope string_scope.
#[local] Open Scope list_scope.
#[local] Open Scope Z_scope.

Section cards.
Context {P : Type} `{RistrettoOps P}.

(** The text of these is the bot's. *)
Definition modQ : Z → Z := HoleCards.modQ.
Definition invMod : Z → Z → res Z := HoleCards.invMod.
Definition CARD_TABLE : res (gmap string nat) := HoleCards.CARD_TABLE (P := P).
Definition lookupCardId : P → res (option nat) := HoleCards.lookupCardId.
Definition decryptEncShare : bytes → Scalar → res P := HoleCards.decryptEncShare.

(** The bot's coefficients, behind a check of the indices. *)
Definition lagrangeCoefficients (xCoords : list Z) : res (list Z) :=
  let! _ := throw_if (existsb (Z.eqb 0) xCoords) "lagrangeCoefficients: validator index must be >= 1" in
  HoleCards.lagrangeCoefficients xCoords.

(** Hexadecimal of a known length, else base64. *)
Definition decodeShareBytes (raw : string) : res bytes :=
  let s := trim (CoordConfig.chars raw) in
  let hexBody := match s with "0"%char :: "x"%char :: body => body | _ => s end in
  if forallb isHexDigit hexBody && ((length hexBody =? 64)%nat || (length hexBody =? 128)%nat) then hexToBytes (CoordConfig.text s)
  else match atob s with Some bs => Ok bs | None => Err "InvalidCharacterError" end.

Definition recoverCard (c2 : P) (decryptedShares : list share) : res (option nat) :=
  match decryptedShares with
  | [] => Ok None
  | s0 :: rest =>
      let! coeffs := lagrangeCoefficients (map fst decryptedShares) in
      let! D0 := mulPoint (snd s0) (rd 0 coeffs 0) in
      let! D := recoverLoop D0 (zip rest (drop 1 coeffs)) in
      lookupCardId (pointSub c2 D)
  end.

(** One share: skipped when its index is not a positive integer or it does not
    decrypt. *)
Definition decryptIndexedShare (skPlayer : Scalar) (out : list share) (s : json) : list share :=
  match jsNumber (field s "index") with
  | Some idx =>
      if idx <=? 0 then out
      else match (let! bs := decodeShareBytes (toStr (orElse (field s "encShare") (JStr EmptyString))) in decryptEncShare bs skPlayer) with
           | Ok d => out ++ [(idx, d)]
           | Err _ => out
           end
  | None => out
  end.
Definition decryptIndexedShares (shares : list json) (skPlayer : Scalar) : list share := foldl (decryptIndexedShare skPlayer) [] shares.

(** ** useHoleCards.ts *)

Record HoleCardsState := mkHoleCards { hc_cards : option (nat * nat); hc_loading : bool; hc_error : option string }.

(** The hook: its state, [lastFetchRef], and whether the retry timer is set. *)
Record Hook := mkHook { hk_state : HoleCardsState; hk_lastFetch : string; hk_retry : bool }.
Definition newHook : Hook := mkHook (mkHoleCards None false None) EmptyString false.

Record Args := mkArgs {
  ar_base : string; ar_tableId : option string; ar_handId : option string; ar_seat : option Z; ar_sk : option Z; ar_deckFinalized : bool }.

(** The coordinator's answers for a table and a hand. *)
Section fetch.
Context (getPositions : Z → CoordGuards.Response) (getCiphertext getEncShares : string → CoordGuards.Response).

Definition okStatus (r : CoordGuards.Response) : bool := (200 <=? r.(CoordGuards.rs_status)) && (r.(CoordGuards.rs_status) <=? 299).

(** The body of the loop over the two cards. *)
Definition fetchCard (ctData esData : json) (skPlayer : Scalar) : res nat :=
  let! c2Bytes := decodeShareBytes (toStr (field ctData "c2")) in
  let! c2 := groupElementFromBytes c2Bytes in
  let shares := elems (field esData "shares") in
  let decryptedShares := decryptIndexedShares shares skPlayer in
  let! _ := throw_if (length decryptedShares =? 0)%nat "No valid enc shares for card" in
  let estimatedThreshold := Nat.max 1 ((length shares + 1) / 2) in
  let! _ := throw_if (length decryptedShares <? estimatedThreshold)%nat "Insufficient shares for card" in
  let! cardId := recoverCard c2 decryptedShares in
  match cardId with Some id => Ok id | None => Err "Failed to decrypt card" end.

(** [None]: no shares yet. *)
Definition fetchCards (seat : Z) (skPlayer : Scalar) : res (option (nat * nat)) :=
  let posRes := getPositions seat in
  let! _ := throw_if (negb (okStatus posRes)) "Failed to get hole positions" in
  let pos k := toStr (field posRes.(CoordGuards.rs_body) k) in
  let ct0Res := getCiphertext (pos "pos0") in
  let ct1Res := getCiphertext (pos "pos1") in
  let! _ := throw_if (negb (okStatus ct0Res) || negb (okStatus ct1Res)) "Failed to get ciphertexts" in
  let es0Res := getEncShares (pos "pos0") in
  let es1Res := getEncShares (pos "pos1") in
  let! _ := throw_if (negb (okStatus es0Res) || negb (okStatus es1Res)) "Failed to get enc shares" in
  let none r := (length (elems (field r.(CoordGuards.rs_body) "shares")) =? 0)%nat in
  if none es0Res || none es1Res then Ok None
  else
    let! card0 := fetchCard ct0Res.(CoordGuards.rs_body) es0Res.(CoordGuards.rs_body) skPlayer in
    let! card1 := fetchCard ct1Res.(CoordGuards.rs_body) es1Res.(CoordGuards.rs_body) skPlayer in
    Ok (Some (card0, card1)).

Definition fetchKey (t h : string) (seat : Z) : string := t +:+ (":" +:+ (h +:+ (":" +:+ pretty seat))).

Definition fetchHoleCards (args : Args) (hook : Hook) : Hook :=
  match args.(ar_tableId), args.(ar_handId), args.(ar_seat), args.(ar_sk) with
  | Some t, Some h, Some seat, Some sk =>
      if bool_decide (args.(ar_base) = EmptyString) || bool_decide (t = EmptyString) || bool_decide (h = EmptyString) || (sk =? 0) || negb args.(ar_deckFinalized)
      then hook
      else if bool_decide (hook.(hk_lastFetch) = fetchKey t h seat) then hook
      else
        match fetchCards seat sk with
        | Ok None => mkHook (mkHoleCards None false (Some "Waiting for validator enc shares...")) hook.(hk_lastFetch) true
        | Ok (Some cards) => mkHook (mkHoleCards (Some cards) false None) (fetchKey t h seat) hook.(hk_retry)
        | Err msg => mkHook (mkHoleCards None false (Some msg)) hook.(hk_lastFetch) hook.(hk_retry)
        end
  | _, _, _, _ => hook
  end.

(** The effect on a change of table, hand or seat. *)
Definition onKeyChange (t h : string) (seat : Z) (hook : Hook) : Hook :=
  if negb (bool_decide (hook.(hk_lastFetch) = EmptyString)) && negb (bool_decide (hook.(hk_lastFetch) = fetchKey t h seat))
  then mkHook (mkHoleCards None false None) EmptyString hook.(hk_retry) else hook.
End fetch.
End cards.
End WebCards.

(** ** The web client recovers what the chain dealt

    The hook, run against the routes of the coordinator over the chain's JSON,
    finds the two cards. *)
Import Bytes GroupOrder Group Proofs ProofsThms Json HoleCards HoleThms JsStrings TextCodec CoordConfig CoordGuards CoordDealer WebCards.

Module WebCardsThms.

#[local] Open Scope string_scope.
#[local] Open Scope list_scope.
#[local] Open Scope Z_scope.

(** ** The bytes of a field *)

Lemma b64_not_space v : isSextet v → isSpace (b64Char v) = false.
Proof. intros Hv. apply negb_true_iff. by apply (below (λ v, negb (isSpace (b64Char v))) 64 v eq_refl). Qed.

Lemma toBase64_solid bs : Forall isByte bs → Forall (λ c, isSpace c = false) (toBase64 bs).
Proof.
  intros Hb. unfold toBase64, padding. apply Forall_app. split; [|by apply Forall_replicate].
  apply Forall_map. eapply Forall_impl; [by apply encode_sextets|]. intros v Hv. by apply b64_not_space.
Qed.

Lemma toBase64_length bs : length bs = 32%nat ∨ length bs = 64%nat → length (toBase64 bs) = 44%nat ∨ length (toBase64 bs) = 88%nat.
Proof.
  intros Hl. unfold toBase64, padding. rewrite length_app, length_replicate, length_map. destruct (encode_length bs) as (k & r & E & Hr & El). rewrite E, mod4 by lia.
  assert (Hk : (k = 10 ∧ r = 3 ∨ k = 21 ∧ r = 2)%nat) by lia. destruct Hk as [[-> ->]|[-> ->]]; [by left|by right].
Qed.

Lemma decodeShareBytes_base64 bs : bytes_ok bs → length bs = 32%nat ∨ length bs = 64%nat → decodeShareBytes (text (toBase64 bs)) = Ok bs.
Proof.
  intros Hb Hl. assert (Hb' : Forall isByte bs) by exact Hb. unfold decodeShareBytes, chars, text. rewrite string_list_ascii, trim_solid by by apply toBase64_solid.
  pose proof (toBase64_length bs Hl) as Hlen. rewrite atob_toBase64 by done. 
  set (s := toBase64 bs) in *. clearbody s. 
  set (hb := match s with "0"%char :: "x"%char :: body => body | _ => s end).
  assert (Hhb : length hb = length s ∨ length s = S (S (length hb))).
  { unfold hb. repeat case_match; subst; cbn; auto. }
  assert (((length hb =? 64) || (length hb =? 128))%nat = false) as ->; [|by rewrite andb_false_r].
  apply orb_false_iff. rewrite !Nat.eqb_neq. lia.
Qed.

Lemma lagrange_same (xs : list Z) : Forall (λ x, ¬ cong x 0) xs → lagrangeCoefficients xs = HoleCards.lagrangeCoefficients xs.
Proof.
  intros Hx. unfold lagrangeCoefficients. replace (existsb (Z.eqb 0) xs) with false; [done|]. symmetry.
  induction Hx as [|x xs Hn _ IH]; [done|]. cbn [existsb]. rewrite IH, orb_false_r. apply Z.eqb_neq. intros <-. by destruct Hn.
Qed.

Section recovery.
Context {P : Type} `{RistrettoLaws P} (PK : P) (skPlayer : Scalar).
Hypothesis sk_ok : nonzero skPlayer.
Hypothesis PK_ok : PK ≡ zmul skPlayer BASE.

Lemma recoverCard_same (c2 : P) shares : Forall (λ s, ¬ cong (fst s) 0) shares → recoverCard c2 shares = HoleCards.recoverCard c2 shares.
Proof.
  intros Hs. destruct shares as [|s0 rest]; [done|]. unfold recoverCard. rewrite lagrange_same; [done|].
  apply (proj2 (Forall_fmap fst (λ x, ¬ cong x 0) (s0 :: rest))), Hs.
Qed.

(** A share as the chain's JSON has it: the index is positive and the bytes
    carry [D] under the player's key. *)
Definition posted (idx : Z) (D : P) (s : json) : Prop :=
  CoordDealer.asNumber (field s "index") = Some idx ∧ 0 < idx ∧
  ∃ U V r, orElse (field s "encShare") (orElse (field s "enc_share") (JStr EmptyString)) = JStr (text (toBase64 (groupElementToBytes U ++ groupElementToBytes V))) ∧
    U ≡ zmul r (BASE : P) ∧ V ≡ p_add D (zmul r PK).

(** One without a positive index, or that does not decrypt. *)
Definition unusable (s : json) : Prop :=
  default 0 (CoordDealer.asNumber (field s "index")) <= 0 ∨
  is_ok (let! bs := decodeShareBytes (toStr (orElse (field s "encShare") (orElse (field s "enc_share") (JStr EmptyString)))) in
         decryptEncShare (P := P) bs skPlayer) = false.

Inductive offers (coeffs : list Z) (C : P) : list json → list Z → Prop :=
| offers_nil : offers coeffs C [] []
| offers_skip s l idxs : unusable s → offers coeffs C l idxs → offers coeffs C (s :: l) idxs
| offers_take s l idx idxs : posted idx (zmul (poly_value idx coeffs) C) s → offers coeffs C l idxs → offers coeffs C (s :: l) (idx :: idxs).

Lemma decryptIndexedShare_skip out s : unusable s → decryptIndexedShare skPlayer out (CoordDealer.shareOf s) = out.
Proof.
  unfold unusable, decryptIndexedShare. change (jsNumber (field (CoordDealer.shareOf s) "index")) with (Some (default 0 (CoordDealer.asNumber (field s "index")))).
  cbv beta iota. intros [Hi|Hd]; [by rewrite (proj2 (Z.leb_le _ 0)) by done|]. destruct (_ <=? 0); [done|].
  match type of Hd with is_ok ?x = _ => change (match x with Ok d => out ++ [(default 0 (CoordDealer.asNumber (field s "index")), d)] | Err _ => out end = out); by destruct x end.
Qed.

Lemma decryptIndexedShare_take out s idx D : posted idx D s →
  ∃ d, decryptIndexedShare skPlayer out (CoordDealer.shareOf s) = out ++ [(idx, d)] ∧ d ≡ D.
Proof.
  intros (Hi & Hpos & U & V & r & Es & HU & HV). unfold decryptIndexedShare.
  change (jsNumber (field (CoordDealer.shareOf s) "index")) with (Some (default 0 (CoordDealer.asNumber (field s "index")))).
  change (field (CoordDealer.shareOf s) "encShare") with (JStr (toStr (orElse (field s "encShare") (orElse (field s "enc_share") (JStr EmptyString))))).
  rewrite Hi, Es. cbn [default from_option id orElse nullish toStr]. rewrite (proj2 (Z.leb_gt idx 0)) by done.
  rewrite decodeShareBytes_base64; cbn [rbind].
  - unfold WebCards.decryptEncShare. destruct (decryptEncShare_ok PK skPlayer sk_ok PK_ok U V r D HU HV) as (d & -> & Hd). by exists d.
  - unfold bytes_ok, groupElementToBytes. apply Forall_app. split; apply toRawBytes_ok.
  - right. by rewrite length_app, !point_length.
Qed.

Lemma decryptIndexedShares_ok coeffs C l idxs : offers coeffs C l idxs →
  ∃ shares, decryptIndexedShares (map CoordDealer.shareOf l) skPlayer = shares ∧ map fst shares = idxs ∧
    Forall (λ s, snd s ≡ zmul (poly_value (fst s) coeffs) C) shares.
Proof.
  intros Hl. enough (H' : ∀ acc, ∃ shares : list (@share P),
    foldl (decryptIndexedShare skPlayer) acc (map CoordDealer.shareOf l) = acc ++ shares ∧
    map fst shares = idxs ∧ Forall (λ s, snd s ≡ zmul (poly_value (fst s) coeffs) C) shares).
  { destruct (H' []) as (shares & E & Hs). by exists shares. }
  induction Hl as [|s l idxs Hs _ IH|s l idx idxs Hs _ IH]; intros acc; cbn [map foldl].
  - exists []. split; [by rewrite app_nil_r|]. split; [done|constructor].
  - rewrite decryptIndexedShare_skip by done. apply IH.
  - destruct (decryptIndexedShare_take acc s idx _ Hs) as (d & -> & Hd). destruct (IH (acc ++ [(idx, d)])) as (shares & E & Em & Hf).
    exists ((idx, d) :: shares). rewrite E, <-app_assoc. split; [done|]. split; [by cbn [map fst]; rewrite Em|by constructor].
Qed.

(** ** One card *)

(** The shares of the position in the dealer's hand. *)
Definition sharesAt (hand : json) (pos : Z) : list json :=
  List.filter (λ s, bool_decide (CoordDealer.asNumber (field s "pos") = Some pos)) (elems (orElse (field hand "encShares") (field hand "enc_shares"))).

(** A position that is dealt: the deck's entry, and usable shares at distinct
    indices, as many as the committee's polynomial has coefficients and no fewer
    than half of those that are posted. *)
Record hole_dealt (hand : json) (coeffs : list Z) (pos : Z) (id : nat) : Prop := {
  hd_pos : 0 <= pos < 256;
  hd_id : (id < 52)%nat;
  hd_entry : ∃ cipher C idxs,
    field (rd JUndefined (elems (field hand "deck")) (Z.to_nat pos)) "c2" = JStr (text (toBase64 (groupElementToBytes cipher))) ∧
    cipher ≡ p_add (cardPoint id) (zmul (poly_value 0 coeffs) C) ∧
    offers coeffs C (sharesAt hand pos) idxs ∧ distinct idxs ∧ Forall (λ x, ¬ cong x 0) idxs ∧ (length coeffs <= length idxs)%nat ∧ idxs ≠ [] ∧
    ((length (sharesAt hand pos) + 1) / 2 <= length idxs)%nat
}.

(** The bodies that the two routes answer. *)
Definition cipherBody (hand : json) (pos : Z) : json :=
  let entry := rd JUndefined (elems (field hand "deck")) (Z.to_nat pos) in
  JObj [("c1", CoordDealer.firstString entry ["c1"]); ("c2", CoordDealer.firstString entry ["c2"])].
Definition sharesBody (hand : json) (pos : Z) : json := JObj [("shares", JArr (map CoordDealer.shareOf (sharesAt hand pos)))].

Lemma fetchCard_ok hand coeffs pos id : hole_dealt hand coeffs pos id →
  fetchCard (P := P) (cipherBody hand pos) (sharesBody hand pos) skPlayer = Ok id ∧ sharesAt hand pos ≠ [].
Proof.
  intros [_ Hid (cipher & C & idxs & Hc2 & Hcipher & Hof & Hd & Hn & Hlen & Hne & Hmaj)]. split.
  2:{ intros E. rewrite E in Hof. by inversion Hof; subst. }
  unfold fetchCard. change (toStr (field (cipherBody hand pos) "c2")) with (toStr (orElse (field (rd JUndefined (elems (field hand "deck")) (Z.to_nat pos)) "c2") (JStr EmptyString))).
  change (elems (field (sharesBody hand pos) "shares")) with (map CoordDealer.shareOf (sharesAt hand pos)).
  rewrite Hc2. cbn [orElse nullish toStr]. rewrite decodeShareBytes_base64; [|apply toRawBytes_ok|by left; apply point_length]. cbn [rbind].
  destruct (groupElement_decode cipher) as (c & -> & Hc). cbn [rbind].
  destruct (decryptIndexedShares_ok coeffs C _ _ Hof) as (shares & -> & Hmap & Hval).
  assert (Hls : length shares = length idxs) by (by rewrite <-Hmap, length_map). rewrite length_map, Hls.
  rewrite (proj2 (Nat.eqb_neq _ 0)) by by destruct idxs. cbn [throw_if rbind].
  rewrite (proj2 (Nat.ltb_ge _ _)) by (destruct idxs; [done|cbn [length] in *; lia]). cbn [throw_if rbind].
  assert (Hnz : Forall (λ s, ¬ cong (fst s) 0) shares).
  { apply (proj1 (Forall_fmap fst (λ x, ¬ cong x 0) shares)). change (fmap fst shares) with (map fst shares). by rewrite Hmap. }
  rewrite recoverCard_same by done. rewrite (recoverCard_ok coeffs C c shares id); [done| |done|by rewrite Hc].
  split; [by rewrite Hmap|done|by rewrite Hls|by intros ->; subst idxs|done].
Qed.

(** ** The hook against the coordinator's routes *)

Context (base64 : list ascii → bytes).

(** What the chain answers: the poker module's hand [h] of table [t] with the
    seat's positions, and the dealer's hand with a deck. *)
Record served (q : string → json) (t h : string) (seat : Z) (hand : json) (p0 p1 : Z) : Prop := {
  sv_t : trimmed t = t ∧ t ≠ EmptyString;
  sv_h : trimmed h = h ∧ h ≠ EmptyString;
  sv_seat : 0 <= seat <= 8;
  sv_pos : ∃ dh holePos, CoordDealer.tableDealer q t h = inr dh ∧
    CoordDealer.decodeU8Array base64 (orElse (field dh "holePos") (field dh "hole_pos")) = Some holePos ∧ length holePos = 18%nat ∧
    holePos !! Z.to_nat (seat * 2) = Some p0 ∧ holePos !! Z.to_nat (seat * 2 + 1) = Some p1;
  sv_range : 0 <= p0 < 256 ∧ 0 <= p1 < 256;
  sv_hand : CoordDealer.fetchDealerHand (Some q) t h = Some hand;
  sv_deck : truthy (rd JUndefined (elems (field hand "deck")) (Z.to_nat p0)) = true ∧ truthy (rd JUndefined (elems (field hand "deck")) (Z.to_nat p1)) = true
}.

(** The requests of the hook, answered by the routes. *)
Definition getPositions (q : string → json) (t h : string) (seat : Z) : CoordGuards.Response := CoordDealer.holePositionsRoute base64 (Some q) t h (pretty seat).
Definition getCiphertext (q : string → json) (t h : string) (pos : string) : CoordGuards.Response := CoordDealer.ciphertextRoute (Some q) t h pos.
Definition getEncShares (q : string → json) (t h : string) (pos : string) : CoordGuards.Response := CoordDealer.encSharesRoute (Some q) t h pos.

Lemma positions_served q t h seat hand p0 p1 : served q t h seat hand p0 p1 →
  getPositions q t h seat = CoordGuards.okJson (JObj [("pos0", JNum p0); ("pos1", JNum p1)]).
Proof.
  intros [[Ht Ht0] [Hh Hh0] Hs (dh & holePos & Etd & Ehp & Hlen & Hp0 & Hp1) _ _ _]. unfold getPositions, CoordDealer.holePositionsRoute.
  rewrite asNumber_pretty. cbv zeta. rewrite Ht, Hh, !bool_decide_false by done. cbn [orb].
  rewrite (proj2 (Z.ltb_ge seat 0)), (proj2 (Z.ltb_ge 8 seat)) by lia. cbn [orb]. rewrite Etd, Ehp, Hlen. cbn [Nat.eqb negb].
  by rewrite (rd_lookup 0 _ _ _ Hp0), (rd_lookup 0 _ _ _ Hp1).
Qed.

Lemma dealerPos_served q t h seat hand p0 p1 pos k : served q t h seat hand p0 p1 → 0 <= pos < 256 →
  CoordDealer.dealerPos (Some q) t h (pretty pos) k = k hand pos.
Proof.
  intros [[Ht Ht0] [Hh Hh0] _ _ _ Eh _] Hp. unfold CoordDealer.dealerPos. rewrite asNumber_pretty. cbv zeta.
  rewrite Ht, Hh, !bool_decide_false by done. cbn [orb]. rewrite (proj2 (Z.ltb_ge pos 0)) by lia. by rewrite Eh.
Qed.

Lemma ciphertext_served q t h seat hand p0 p1 pos : served q t h seat hand p0 p1 → 0 <= pos < 256 →
  truthy (rd JUndefined (elems (field hand "deck")) (Z.to_nat pos)) = true →
  getCiphertext q t h (pretty pos) = CoordGuards.okJson (cipherBody hand pos).
Proof.
  intros Hs Hp Ht. unfold getCiphertext, CoordDealer.ciphertextRoute. erewrite dealerPos_served by done. cbv zeta. by rewrite Ht.
Qed.

Lemma shares_served q t h seat hand p0 p1 pos : served q t h seat hand p0 p1 → 0 <= pos < 256 →
  getEncShares q t h (pretty pos) = CoordGuards.okJson (sharesBody hand pos).
Proof. intros Hs Hp. unfold getEncShares, CoordDealer.encSharesRoute. by erewrite dealerPos_served by done. Qed.

Lemma fetchCards_served q t h seat hand p0 p1 : served q t h seat hand p0 p1 →
  fetchCards (P := P) (getPositions q t h) (getCiphertext q t h) (getEncShares q t h) seat skPlayer =
  if (length (sharesAt hand p0) =? 0)%nat || (length (sharesAt hand p1) =? 0)%nat then Ok None
  else let! card0 := fetchCard (P := P) (cipherBody hand p0) (sharesBody hand p0) skPlayer in
       let! card1 := fetchCard (P := P) (cipherBody hand p1) (sharesBody hand p1) skPlayer in Ok (Some (card0, card1)).
Proof.
  intros Hs. pose proof Hs as [_ _ _ _ [Hr0 Hr1] _ [Hd0 Hd1]]. unfold fetchCards. rewrite (positions_served _ _ _ _ _ _ _ Hs).
  cbn [okStatus CoordGuards.okJson CoordGuards.rs_status CoordGuards.rs_body]. change (field _ "pos0") with (JNum p0). change (field _ "pos1") with (JNum p1).
  cbn [toStr]. rewrite !(ciphertext_served _ _ _ _ _ _ _ _ Hs), !(shares_served _ _ _ _ _ _ _ _ Hs) by done.
  cbn [okStatus CoordGuards.okJson CoordGuards.rs_status CoordGuards.rs_body].
  change (elems (field (sharesBody hand ?p) "shares")) with (map CoordDealer.shareOf (sharesAt hand p)). by rewrite !length_map.
Qed.

(** C7. End to end in the web client: against the coordinator's routes over the
    chain's JSON, when the seat's two positions are dealt to the player the
    hook's state becomes the two cards and the hand is remembered; while a
    position has no share the state shows no cards, the hand is not remembered
    and the retry timer is set; and a fetch repeated on the same answers
    changes nothing. *)
Theorem web_recovers q t h seat hand p0 p1 coeffs id0 id1 base hook :
  served q t h seat hand p0 p1 → base ≠ EmptyString →
  let fetch := fetchHoleCards (P := P) (getPositions q t h) (getCiphertext q t h) (getEncShares q t h)
                 (mkArgs base (Some t) (Some h) (Some seat) (Some skPlayer) true) in
  (hole_dealt hand coeffs p0 id0 → hole_dealt hand coeffs p1 id1 → hook.(hk_lastFetch) ≠ fetchKey t h seat →
     fetch hook = mkHook (mkHoleCards (Some (id0, id1)) false None) (fetchKey t h seat) hook.(hk_retry)) ∧
  (sharesAt hand p0 = [] ∨ sharesAt hand p1 = [] → hook.(hk_lastFetch) ≠ fetchKey t h seat →
     hc_cards (hk_state (fetch hook)) = None ∧ hk_lastFetch (fetch hook) = hk_lastFetch hook ∧ hk_retry (fetch hook) = true) ∧
  fetch (fetch hook) = fetch hook.
Proof.
  intros Hs Hb fetch. pose proof Hs as [[_ Ht] [_ Hh] _ _ _ _ _].
  assert (Hfetch : ∀ hk, hk.(hk_lastFetch) ≠ fetchKey t h seat → fetch hk =
    match fetchCards (P := P) (getPositions q t h) (getCiphertext q t h) (getEncShares q t h) seat skPlayer with
    | Ok None => mkHook (mkHoleCards None false (Some "Waiting for validator enc shares...")) hk.(hk_lastFetch) true
    | Ok (Some cards) => mkHook (mkHoleCards (Some cards) false None) (fetchKey t h seat) hk.(hk_retry)
    | Err msg => mkHook (mkHoleCards None false (Some msg)) hk.(hk_lastFetch) hk.(hk_retry)
    end).
  { intros hk Hk. unfold fetch, fetchHoleCards. cbn [ar_base ar_tableId ar_handId ar_seat ar_sk ar_deckFinalized negb].
    rewrite !bool_decide_false, (proj2 (Z.eqb_neq skPlayer 0)) by (done || (unfold nonzero in sk_ok; lia)). done. }
  assert (Hkept : ∀ hk, hk.(hk_lastFetch) = fetchKey t h seat → fetch hk = hk).
  { intros hk Hk. unfold fetch, fetchHoleCards. cbn [ar_base ar_tableId ar_handId ar_seat ar_sk ar_deckFinalized negb].
    rewrite !bool_decide_false, (proj2 (Z.eqb_neq skPlayer 0)) by (done || (unfold nonzero in sk_ok; lia)). cbn [orb]. by rewrite bool_decide_true. }
  split; [|split].
  - intros H0' H1' Hk. rewrite Hfetch, (fetchCards_served _ _ _ _ _ _ _ Hs) by done.
    destruct (fetchCard_ok _ _ _ _ H0') as [-> Hne0], (fetchCard_ok _ _ _ _ H1') as [-> Hne1].
    rewrite !(proj2 (Nat.eqb_neq _ 0)) by (by intros E%length_zero_iff_nil). done.
  - intros He Hk. rewrite Hfetch, (fetchCards_served _ _ _ _ _ _ _ Hs) by done.
    replace (_ || _) with true by (destruct He as [-> | ->]; cbn; by rewrite ?orb_true_r). done.
  - destruct (decide (hook.(hk_lastFetch) = fetchKey t h seat)) as [Hk|Hk]; [by rewrite !(Hkept hook) by done|].
    rewrite (Hfetch hook) by done. destruct (fetchCards _ _ _ _ _) as [[cards|]|msg]; [by apply Hkept|by rewrite Hfetch..].
Qed.

End recovery.

(** ** Witness: the residues *)

Import Residue.

Definition toy_share (pos idx U V : Z) : json :=
  JObj [("pos", JNum pos); ("index", JNum idx); ("enc_share", JStr (text (toBase64 (groupElementToBytes U ++ groupElementToBytes V))))].
Definition toy_entry (c : Z) : json := JObj [("c1", JStr "AAAA"); ("c2", JStr (text (toBase64 (groupElementToBytes c))))].
Definition toy_chain (shares : list json) (path : string) : json :=
  if bool_decide (path = "/onchainpoker/poker/v1/tables/7")
  then JObj [("table", JObj [("hand", JObj [("hand_id", JStr "9"); ("dealer", JObj [("hole_pos", JArr (map JNum ([255; 255; 0; 1] ++ replicate 14 255)))])])])]
  else JObj [("hand", JObj [("deck", JArr [toy_entry 19; toy_entry 33]); ("enc_shares", JArr shares)])].
Definition toy_shares : list json := [toy_share 0 1 3 35; toy_share 1 1 2 40; JObj [("pos", JNum 0)]; toy_share 1 2 2 49; toy_share 0 2 1 31].
Definition toy_hand : json := JObj [("deck", JArr [toy_entry 19; toy_entry 33]); ("enc_shares", JArr toy_shares)].
Definition toyFetch (shares : list json) : Hook → Hook :=
  let q := toy_chain shares in
  fetchHoleCards (P := Z) (getPositions (λ _, []) q "7" "9") (getCiphertext q "7" "9") (getEncShares q "7" "9") (mkArgs "http://c" (Some "7") (Some "9") (Some 1) (Some 5) true).

Lemma toy_posted (pos idx U V D : Z) : 0 < idx → (V - (D + U * 5)) mod q = 0 → posted 5 idx D (toy_share pos idx U V).
Proof.
  intros Hi HV. split; [done|]. split; [done|]. exists U, V, U. split; [done|]. split.
  - apply zmul_is. by rewrite Z.mul_1_r.
  - rewrite <-zmul_residue. apply residue_equiv, cong_eq, cong_diff. by apply cong_zero.
Qed.

Ltac toy_posted := apply toy_posted; vm_compute; reflexivity.

Lemma web_recovers_witness : toyFetch toy_shares newHook = mkHook (mkHoleCards (Some (4%nat, 11%nat)) false None) "7:9:1" false.
Proof.
  destruct (web_recovers (P := Z) 5 5 ltac:(split; vm_compute; reflexivity) ltac:(apply zmul_is; reflexivity) (λ _, []) (toy_chain toy_shares) "7" "9" 1 toy_hand 0 1 [7; 3] 4 11 "http://c" newHook)
    as [Hok _].
  - split; [by split|by split|lia| |lia|reflexivity|by split].
    do 2 eexists. split; [reflexivity|]. split; [reflexivity|]. split; [reflexivity|]. by split.
  - done.
  - apply Hok; [split; [lia|lia|]..|done].
    + exists 19, 2, [1; 2]. split; [reflexivity|]. split; [apply residue_cipher; vm_compute; reflexivity|]. split.
      { apply offers_take; [toy_posted|]. apply offers_skip; [by left|]. apply offers_take; [toy_posted|]. apply offers_nil. }
      split; [apply (bool_decide_unpack _); vm_compute; exact I|].
      split; [repeat constructor; apply not_cong_zero; split; vm_compute; reflexivity|]. split; [cbn; lia|]. split; [discriminate|vm_compute; lia].
    + exists 33, 3, [1; 2]. split; [reflexivity|]. split; [apply residue_cipher; vm_compute; reflexivity|]. split.
      { apply offers_take; [toy_posted|]. apply offers_take; [toy_posted|]. apply offers_nil. }
      split; [apply (bool_decide_unpack _); vm_compute; exact I|].
      split; [repeat constructor; apply not_cong_zero; split; vm_compute; reflexivity|]. split; [cbn; lia|]. split; [discriminate|vm_compute; lia].
Defined.

(** With the first of two validators' shares on the chain the hook fails, and
    nothing runs it again: only the case without any share sets the timer. *)
Example partial_is_final :
  toyFetch [toy_share 0 1 3 35; toy_share 1 1 2 40] newHook = mkHook (mkHoleCards None false (Some "Failed to decrypt card")) EmptyString false ∧
  hk_retry (toyFetch [toy_share 0 1 3 35] newHook) = true.
Proof. vm_compute. by split. Qed.

End WebCardsThms.
