(* ===== verification/WebEvents.v ===== *)
(** * The event parser of the web client: [apps/web/src/lib/cometEventParser.ts]

    The coordinator's parser with [atob] and [TextDecoder] in the place of
    [Buffer]; both guess whether an attribute is base64. *)
From stdpp Require Import base option list strings.
From Stdlib Require Import ZArith Lia Ascii.
From S2P Require Import Prelude OcpBytes Json JsMap CoordStore CoordConfig TextCodec CoordEvents.
Import Bytes Json JsMap CoordStore CoordConfig TextCodec.

Module WebEvents.

#[local] Open Scope string_scope.
#[local] Open Scope list_scope.
#[local] Open Scope Z_scope.

Definition decodeAttr (norm : list ascii) : list ascii :=
  if bool_decide (norm = []) then []
  else if negb (CoordEvents.base64Like norm) then norm
  else
    let padded := CoordEvents.padded norm in
    match atob padded with
    | None => norm
    | Some bs =>
        if negb (bool_decide (CoordEvents.stripPad (toBase64 bs) = CoordEvents.stripPad padded)) then norm
        else default norm (textDecoder bs)
    end.

Definition maybeBase64ToUtf8 (s : string) : string := text (decodeAttr (chars s)).

Definition addAttr (out : list (string * json)) (a : json) : list (string * json) :=
  match field a "key" with
  | JStr key => mset (maybeBase64ToUtf8 key) (JStr (maybeBase64ToUtf8 (toStr (orElse (field a "value") (JStr EmptyString))))) out
  | _ => out
  end.
Definition attrsToObject (attrs : json) : json := JObj (foldl addAttr [] (elems attrs)).

Fixpoint eventsToChainEvents (events : list json) (idx timeMs : Z) : list ChainEvent :=
  match events with
  | [] => []
  | ev :: events =>
      match field ev "type" with
      | JStr name =>
          let data := attrsToObject (field ev "attributes") in
          mkChainEvent name (CoordEvents.someStr (field data "tableId")) (CoordEvents.someStr (field data "handId")) idx timeMs data
            :: eventsToChainEvents events (idx + 1) timeMs
      | _ => eventsToChainEvents events idx timeMs
      end
  end.

(** The text of [extractTxResult] is the coordinator's. *)
Definition extractTxResult : json → option json := CoordEvents.extractTxResult.

Example test_padding : decodeAttr ["N"; "w"; "="]%char = ["7"%char] ∧ decodeAttr ["N"; "w"; "h"; "="; "="]%char = ["N"; "w"; "h"; "="; "="]%char.
Proof. by split. Qed.

End WebEvents.

(** ** The client's parser and the coordinator's read the chain's events alike *)
Import Bytes Json JsMap CoordStore CoordConfig TextCodec CoordEvents CoordEventsThms.

Module WebEventsThms.

#[local] Open Scope string_scope.
#[local] Open Scope list_scope.
#[local] Open Scope Z_scope.

(** A string on which the two guesses agree: its padding is right or it has
    none, and what it may be the base64 of begins with no byte order mark and
    has no replacement character. *)
Definition guess_safe (s : list ascii) : Prop :=
  ((length s mod 4 = 0)%nat ∨ "="%char ∉ s) ∧ ∀ bs, isUtf8 bs = true → base64_of s bs → startsWith3 239 187 191 bs = false ∧ hasReplacement bs = false.

Lemma textDecoder_same bs norm : (isUtf8 bs = true → startsWith3 239 187 191 bs = false ∧ hasReplacement bs = false) → default norm (textDecoder bs) = default norm (utf8Text bs).
Proof. unfold textDecoder, utf8Text, dropBom. destruct (isUtf8 bs); [|done]. intros H. by destruct H as [-> ->]. Qed.

(** The length of a string that is taken for base64. *)
Lemma pads_cases (vs : list Z) p : (p <= 2)%nat → ((length vs + p) mod 4 = 0)%nat ∨ p = 0%nat →
  let p' := (p + (4 - (length vs + p) mod 4) mod 4)%nat in
  ((p' <= 2)%nat ∧ ((length vs + p') mod 4 = 0)%nat) ∨ (p' = 3%nat ∧ ((length vs + 3) mod 4 = 0)%nat ∧ (length vs mod 4 = 1)%nat).
Proof.
  intros Hp H. cbv zeta. destruct H as [Hm| ->].
  - rewrite Hm. change ((4 - 0) mod 4)%nat with 0%nat. rewrite Nat.add_0_r. by left.
  - rewrite Nat.add_0_r. cbn [Nat.add]. destruct (decide (length vs mod 4 = 1)%nat) as [E|E]; [|left; by apply padded_mod4].
    right. rewrite E. split; [done|]. split; [by rewrite Nat.Div0.add_mod, E|done].
Qed.

Lemma encode_not_one bs : (length (encode bs) mod 4 ≠ 1)%nat.
Proof. destruct (encode_length bs) as (k & r & -> & Hr & _). rewrite mod4; lia. Qed.

Lemma decodeAttr_same s : guess_safe s → WebEvents.decodeAttr s = decodeAttr s.
Proof.
  intros [Hlen Hbs]. destruct (base64Like s) eqn:E.
  2:{ unfold WebEvents.decodeAttr, decodeAttr. by rewrite E. }
  pose proof E as (vs & p & Hne & Hvs & Hp & Es)%base64Like_spec. assert (Ec := decodeAttr_chars vs p Hne Hvs Hp). cbv zeta in Ec. rewrite <-Es in Ec. rewrite Ec.
  unfold WebEvents.decodeAttr. rewrite bool_decide_false by (rewrite Es; by destruct vs). rewrite E. cbn [negb]. assert (Epad := padded_chars vs p). rewrite <-Es in Epad. rewrite Epad.
  assert (Hpads : ((length vs + p) mod 4 = 0)%nat ∨ p = 0%nat).
  { destruct Hlen as [Hm|Hno]; [left; unfold pads in Es; by rewrite Es, length_app, length_map, length_replicate in Hm|right]. destruct p as [|p]; [done|].
    exfalso. apply Hno. rewrite Es. apply elem_of_app. right. by left. }
  destruct (pads_cases vs p Hp Hpads) as [[Hp' Hm]|(-> & Hm & H1)].
  - rewrite (atob_chars vs _ Hvs Hp' Hm : atob (map b64Char vs ++ pads _) = _).
    rewrite stripPad_chars by done. assert (Forall isByte (decode vs)) as Hb by by apply decode_bytes. rewrite toBase64_strip by done.
    assert (bool_decide (map b64Char (encode (decode vs)) = map b64Char vs) = bool_decide (encode (decode vs) = vs)) as ->.
    { apply bool_decide_ext. split; [|by intros ->]. intros H. apply map_b64Char_inj in H; [done|by apply encode_sextets|done]. }
    case_bool_decide as Er; cbn [negb]; [|done]. apply textDecoder_same. intros Hu. apply Hbs; [done|]. exists p. by rewrite Er.
  - unfold pads at 1. rewrite atob_three by done. rewrite bool_decide_false; [done|]. intros Er. apply (encode_not_one (decode vs)). by rewrite Er.
Qed.

Lemma maybeBase64_same s : guess_safe (chars s) → WebEvents.maybeBase64ToUtf8 s = maybeBase64ToUtf8 s.
Proof. intros Hs. unfold WebEvents.maybeBase64ToUtf8, maybeBase64ToUtf8. by rewrite decodeAttr_same. Qed.

(** The names and the values of an event's attributes. *)
Definition attr_safe (a : json) : Prop :=
  ∀ key, field a "key" = JStr key → guess_safe (chars key) ∧ guess_safe (chars (toStr (orElse (field a "value") (JStr EmptyString)))).
Definition event_safe (ev : json) : Prop := Forall attr_safe (elems (field ev "attributes")).

Lemma attrs_same attrs : Forall attr_safe (elems attrs) → WebEvents.attrsToObject attrs = attrsToObject attrs.
Proof.
  intros Ha. unfold WebEvents.attrsToObject, attrsToObject. f_equal. generalize (@nil (string * json)). induction Ha as [|a l Ha _ IH]; intros out; [done|].
  cbn [foldl]. rewrite IH. f_equal. unfold WebEvents.addAttr, addAttr. destruct (field a "key") eqn:E; try done.
  destruct (Ha _ E) as [Hk Hv]. by rewrite !maybeBase64_same.
Qed.

(** The client's parser and the coordinator's read the same events from a
    transaction whose attributes are safe to guess, as the base64 of a text
    without byte order mark and replacement character is; they differ on too
    much padding and on a byte order mark. *)
Theorem parsers_agree :
  (∀ events idx now, Forall event_safe events → WebEvents.eventsToChainEvents events idx now = v0EventsToChainEvents events idx now) ∧
  (∀ bs, isUtf8 bs = true → startsWith3 239 187 191 bs = false → hasReplacement bs = false → guess_safe (toBase64 bs)) ∧
  (WebEvents.decodeAttr ["N"; "w"; "g"; "="; "="]%char ≠ decodeAttr ["N"; "w"; "g"; "="; "="]%char) ∧
  WebEvents.decodeAttr (toBase64 [239; 187; 191; 55]) ≠ decodeAttr (toBase64 [239; 187; 191; 55]).
Proof.
  split; [|split; [|by split; vm_compute]].
  - intros events idx now He. unfold v0EventsToChainEvents. revert idx. induction He as [|ev events Hev _ IH]; intros idx; [done|].
    cbn [WebEvents.eventsToChainEvents cosmosEventsToChainEvents]. destruct (field ev "type"); rewrite ?IH; try done. by rewrite attrs_same by done.
  - intros bs Hu Hbom Hr. pose proof (isUtf8_bytes _ Hu) as Hb. split.
    + left. unfold toBase64. rewrite padding_pads, length_app, length_map, length_replicate. by apply padded_mod4, encode_not_one.
    + intros bs' Hu' (p & Hp & E). pose proof (isUtf8_bytes _ Hu') as Hb'. apply (f_equal stripPad) in E.
      rewrite toBase64_strip, stripPad_chars in E by (done || by apply encode_sextets).
      apply map_b64Char_inj in E; [|by apply encode_sextets..]. apply (f_equal decode) in E. rewrite !decode_encode in E by done. by subst.
Qed.

End WebEventsThms.
