(* ===== verification/WebFeed.v ===== *)
(** * The chain's events in the web client: [apps/web/src/components/useCometBftEvents.ts]

    The client hears of an event from the coordinator and from a socket of its
    own to the chain, and lets only the first of the two refresh the tables: a
    map from the event's content to the times at which it came.  The hook is a
    machine: the references that outlive an effect ([Feed]) and one run of the
    effect ([Link]), whose sockets are numbered in the order in which they are
    opened. *)
From stdpp Require Import base option list strings.
From Stdlib Require Import ZArith Lia Ascii.
From S2P Require Import Prelude OcpBytes Json JsonText JsMap CoordStore CoordConfig CoordEvents JsStrings WebEvents.
Import Bytes Json JsonText JsMap CoordStore.

Module WebFeed.

#[local] Open Scope string_scope.
#[local] Open Scope list_scope.
#[local] Open Scope Z_scope.

(** ** Fingerprints *)

(** [JSON.stringify] with a list of keys: the members of these keys, in the
    order of the list. *)
Fixpoint onlyKeys (keys : list string) (j : json) : json :=
  match j with
  | JArr l => JArr (map (onlyKeys keys) l)
  | JObj fields =>
      let fields := map (λ kv, (fst kv, onlyKeys keys (snd kv))) fields in
      JObj (omap (λ k, v ← snd <$> List.find (λ kv, bool_decide (fst kv = k)) fields; if defined v then Some (k, v) else None) keys)
  | j => j
  end.

Definition keysOf (j : json) : list string := match j with JObj fields => map fst fields | _ => [] end.

Definition fingerprint (ev : ChainEvent) : string :=
  let d := orElse ev.(ev_data) (JObj []) in
  let sorted := stringify false (onlyKeys (sort_by String.leb (keysOf d)) d) in
  ev.(ev_name) +:+ ("|" +:+ (default EmptyString ev.(ev_tableId) +:+ ("|" +:+ (default EmptyString ev.(ev_handId) +:+ ("|" +:+ String.string_of_list_ascii sorted))))).

(** Of integers; the mean of two is rounded up. *)
Definition computeMedian (values : list Z) : option Z :=
  match values with
  | [] => None
  | _ =>
      let sorted := sort_by Z.leb values in
      let mid := (length sorted / 2)%nat in
      Some (if (length sorted mod 2 =? 0)%nat then (rd 0 sorted (mid - 1) + rd 0 sorted mid + 1) / 2 else rd 0 sorted mid)
  end.

(** ** State *)

Definition DEDUP_MAX : nat := 500.
Definition DELAY_WINDOW : nat := 20.
Definition MAX_BACKOFF_MS : Z := 30000.

Record DedupEntry := mkDedup { cometMs : option Z; coordMs : option Z }.

Inductive CometBftStatus := st_disconnected | st_connecting | st_connected | st_error.
#[export] Instance CometBftStatus_eq_dec : EqDecision CometBftStatus.
Proof. solve_decision. Defined.

Record CometBftMetrics := mkMetrics { mt_status : CometBftStatus; mt_eventsReceived : Z; mt_medianDelayMs : option Z; mt_coordinatorMisses : Z }.

(** The references; [fd_pending] are the running timers of [MISS_TIMEOUT_MS] and
    what their callbacks capture, [fd_missTimers] the map that names one of them
    for a fingerprint. *)
Record Feed := mkFeed {
  fd_dedup : list (string * DedupEntry); fd_missTimers : list (string * nat); fd_pending : list (nat * string); fd_timers : nat;
  fd_delays : list Z; fd_nextIndex : Z; fd_metrics : CometBftMetrics }.

Definition newFeed : Feed := mkFeed [] [] [] 0 [] 1 (mkMetrics st_disconnected 0 None 0).

Definition set_dedup v f := mkFeed v f.(fd_missTimers) f.(fd_pending) f.(fd_timers) f.(fd_delays) f.(fd_nextIndex) f.(fd_metrics).
Definition set_missTimers v f := mkFeed f.(fd_dedup) v f.(fd_pending) f.(fd_timers) f.(fd_delays) f.(fd_nextIndex) f.(fd_metrics).
Definition set_pending v f := mkFeed f.(fd_dedup) f.(fd_missTimers) v f.(fd_timers) f.(fd_delays) f.(fd_nextIndex) f.(fd_metrics).
Definition set_delays v f := mkFeed f.(fd_dedup) f.(fd_missTimers) f.(fd_pending) f.(fd_timers) v f.(fd_nextIndex) f.(fd_metrics).
Definition set_nextIndex v f := mkFeed f.(fd_dedup) f.(fd_missTimers) f.(fd_pending) f.(fd_timers) f.(fd_delays) v f.(fd_metrics).
Definition set_metrics v f := mkFeed f.(fd_dedup) f.(fd_missTimers) f.(fd_pending) f.(fd_timers) f.(fd_delays) f.(fd_nextIndex) v.

Definition set_status v m := mkMetrics v m.(mt_eventsReceived) m.(mt_medianDelayMs) m.(mt_coordinatorMisses).
Definition set_median v m := mkMetrics m.(mt_status) m.(mt_eventsReceived) v m.(mt_coordinatorMisses).
Definition one_event m := mkMetrics m.(mt_status) (m.(mt_eventsReceived) + 1) m.(mt_medianDelayMs) m.(mt_coordinatorMisses).
Definition one_miss m := mkMetrics m.(mt_status) m.(mt_eventsReceived) m.(mt_medianDelayMs) (m.(mt_coordinatorMisses) + 1).

(** ** Events *)

(** The loop deletes the oldest entry while there are too many. *)
Definition pruneDedup (map : list (string * DedupEntry)) : list (string * DedupEntry) := drop (length map - DEDUP_MAX) map.

Definition clearTimer (id : nat) (f : Feed) : Feed := set_pending (List.filter (λ t, negb (t.1 =? id)%nat) f.(fd_pending)) f.

(** [w.push(delay); if (w.length > DELAY_WINDOW) w.shift()] *)
Definition pushDelay (delay : Z) (w : list Z) : list Z := let w := w ++ [delay] in if (DELAY_WINDOW <? length w)%nat then drop 1 w else w.

Definition recordCoordinatorEvent (now : Z) (event : ChainEvent) (f : Feed) : bool * Feed :=
  let fp := fingerprint event in
  match mget fp f.(fd_dedup) with
  | Some existing =>
      let f := set_dedup (mset fp (mkDedup existing.(cometMs) (Some now)) f.(fd_dedup)) f in
      let f := match existing.(cometMs) with
               | Some t => let w := pushDelay (now - t) f.(fd_delays) in set_metrics (set_median (computeMedian w) f.(fd_metrics)) (set_delays w f)
               | None => f
               end in
      let f := match mget fp f.(fd_missTimers) with
               | Some timer => set_missTimers (mdel fp f.(fd_missTimers)) (clearTimer timer f)
               | None => f
               end in
      (false, f)
  | None => (true, set_dedup (pruneDedup (mset fp (mkDedup None (Some now)) f.(fd_dedup))) f)
  end.

(** [ev.tableId && currentTable && ev.tableId !== currentTable] *)
Definition otherTable (currentTable : string) (ev : ChainEvent) : bool :=
  match ev.(ev_tableId) with
  | Some t => negb (bool_decide (t = EmptyString)) && negb (bool_decide (currentTable = EmptyString)) && negb (bool_decide (t = currentTable))
  | None => false
  end.

Definition startTimer (fp : string) (f : Feed) : Feed :=
  mkFeed f.(fd_dedup) (mset fp f.(fd_timers) f.(fd_missTimers)) (f.(fd_pending) ++ [(f.(fd_timers), fp)]) (S f.(fd_timers)) f.(fd_delays) f.(fd_nextIndex) f.(fd_metrics).

(** One event of the client's own socket; the result tells whether
    [onChainEvent] is called. *)
Definition deliver (currentTable : string) (nowMs : Z) (ev : ChainEvent) (f : Feed) : bool * Feed :=
  if otherTable currentTable ev then (false, f)
  else
    let fp := fingerprint ev in
    match mget fp f.(fd_dedup) with
    | Some existing => (false, set_dedup (mset fp (mkDedup (Some nowMs) existing.(coordMs)) f.(fd_dedup)) f)
    | None =>
        let f := set_dedup (pruneDedup (mset fp (mkDedup (Some nowMs) None) f.(fd_dedup))) f in
        let f := startTimer fp f in
        (true, set_metrics (one_event f.(fd_metrics)) f)
    end.

(** The loop: the events for which [onChainEvent] is called. *)
Fixpoint deliverAll (currentTable : string) (nowMs : Z) (evs : list ChainEvent) (f : Feed) : list ChainEvent * Feed :=
  match evs with
  | [] => ([], f)
  | ev :: evs =>
      let '(called, f) := deliver currentTable nowMs ev f in
      let '(l, f) := deliverAll currentTable nowMs evs f in
      ((if called : bool then [ev] else []) ++ l, f)
  end.

Definition onTxResult (currentTable : string) (nowMs : Z) (msg : json) (f : Feed) : list ChainEvent * Feed :=
  let events := CoordEvents.txEvents msg in
  let chainEvents := WebEvents.eventsToChainEvents events f.(fd_nextIndex) nowMs in
  deliverAll currentTable nowMs chainEvents (set_nextIndex (f.(fd_nextIndex) + Z.of_nat (length chainEvents)) f).

(** A miss timer fires. *)
Definition onMissTimer (id : nat) (f : Feed) : Feed :=
  match mget id f.(fd_pending) with
  | None => f
  | Some fp =>
      let f := set_missTimers (mdel fp f.(fd_missTimers)) (clearTimer id f) in
      match mget fp f.(fd_dedup) with
      | Some entry => if entry.(coordMs) is None then set_metrics (one_miss f.(fd_metrics)) f else f
      | None => f
      end
  end.

(** ** The connection *)

(** One run of the effect: what is in [ws], whether each socket has subscribed,
    the delay of the timer if it runs, and the sockets on which [send] and
    [close] were called. *)
Record Link := mkLink {
  lk_stopped : bool; lk_ws : option nat; lk_subscribed : list bool; lk_timer : option Z; lk_backoffMs : Z; lk_sent : list nat; lk_closed : list nat }.

Definition newLink : Link := mkLink false None [] None 1000 [] [].
Definition stop lk := mkLink true lk.(lk_ws) lk.(lk_subscribed) lk.(lk_timer) lk.(lk_backoffMs) lk.(lk_sent) lk.(lk_closed).
Definition set_ws v lk := mkLink lk.(lk_stopped) v lk.(lk_subscribed) lk.(lk_timer) lk.(lk_backoffMs) lk.(lk_sent) lk.(lk_closed).
Definition set_subscribed v lk := mkLink lk.(lk_stopped) lk.(lk_ws) v lk.(lk_timer) lk.(lk_backoffMs) lk.(lk_sent) lk.(lk_closed).
Definition set_timer v lk := mkLink lk.(lk_stopped) lk.(lk_ws) lk.(lk_subscribed) v lk.(lk_backoffMs) lk.(lk_sent) lk.(lk_closed).
Definition set_backoff v lk := mkLink lk.(lk_stopped) lk.(lk_ws) lk.(lk_subscribed) lk.(lk_timer) v lk.(lk_sent) lk.(lk_closed).
Definition set_sent v lk := mkLink lk.(lk_stopped) lk.(lk_ws) lk.(lk_subscribed) lk.(lk_timer) lk.(lk_backoffMs) v lk.(lk_closed).
Definition set_closed v lk := mkLink lk.(lk_stopped) lk.(lk_ws) lk.(lk_subscribed) lk.(lk_timer) lk.(lk_backoffMs) lk.(lk_sent) v.

(** [ws?.close()] *)
Definition closeWs (lk : Link) : Link := match lk.(lk_ws) with Some i => set_closed (lk.(lk_closed) ++ [i]) lk | None => lk end.

Definition withStatus (st : CometBftStatus) (lk : Link) (f : Feed) : Feed := if lk.(lk_stopped) then f else set_metrics (set_status st f.(fd_metrics)) f.

Definition scheduleReconnect (lk : Link) : Link :=
  if lk.(lk_stopped) || bool_decide (is_Some lk.(lk_timer)) then lk else set_timer (Some lk.(lk_backoffMs)) lk.

Section link.
(** Whether [toWebSocketUrl] and the constructor [WebSocket] accept the URL. *)
Context (urlOk socketOk : bool).

Definition connect (s : Link * Feed) : Link * Feed :=
  let '(lk, f) := s in
  if lk.(lk_stopped) then s
  else
    let f := withStatus st_connecting lk f in
    if negb urlOk then (lk, withStatus st_error lk f)
    else if negb socketOk then let f := withStatus st_error lk f in (scheduleReconnect lk, f)
    else (set_subscribed (lk.(lk_subscribed) ++ [false]) (set_ws (Some (length lk.(lk_subscribed))) lk), f).

(** The effect, enabled or not. *)
Definition startLink (f : Feed) : Link * Feed := connect (newLink, f).
Definition disabledLink (f : Feed) : Feed := set_metrics (set_status st_disconnected f.(fd_metrics)) f.

Definition onReconnectTimer (s : Link * Feed) : Link * Feed :=
  let '(lk, f) := s in
  match lk.(lk_timer) with
  | None => s
  | Some _ => connect (set_backoff (Z.min (lk.(lk_backoffMs) * 2) MAX_BACKOFF_MS) (set_timer None lk), f)
  end.

(** The socket [i] opens: the subscription goes to the one that is in [ws];
    without one the handler throws. *)
Definition onOpen (i : nat) (s : Link * Feed) : Link * Feed :=
  let '(lk, f) := s in
  if lk.(lk_stopped) then (closeWs lk, f)
  else match lk.(lk_ws) with Some j => (set_sent (lk.(lk_sent) ++ [j]) lk, f) | None => s end.

(** [msg.id === 1] *)
Definition isAck (msg : json) : bool := match field msg "id" with JNum z => z =? 1 | _ => false end.

(** A message of the socket [i]: [JSON.parse] has succeeded. *)
Definition onMessage (i : nat) (currentTable : string) (nowMs : Z) (msg : json) (s : Link * Feed) : list ChainEvent * (Link * Feed) :=
  let '(lk, f) := s in
  if lk.(lk_stopped) then ([], s)
  else if isAck msg then
    if truthy (field msg "error") then ([], (closeWs lk, f))
    else
      let lk := set_backoff 1000 (set_subscribed (<[i := true]> lk.(lk_subscribed)) lk) in
      ([], (lk, withStatus st_connected lk f))
  else let '(l, f) := onTxResult currentTable nowMs msg f in (l, (lk, f)).

Definition onCloseOrError (i : nat) (s : Link * Feed) : Link * Feed :=
  let '(lk, f) := s in
  let lk := set_ws None lk in
  if lk.(lk_stopped) then (lk, f)
  else
    let f := withStatus (if rd false lk.(lk_subscribed) i then st_disconnected else st_error) lk f in
    (scheduleReconnect lk, f).

(** The effect's cleanup. *)
Definition clearMissTimers (f : Feed) : Feed :=
  let cleared := map snd f.(fd_missTimers) in
  set_missTimers [] (set_pending (List.filter (λ t, negb (bool_decide (t.1 ∈ cleared))) f.(fd_pending)) f).
Definition cleanup (s : Link * Feed) : Link * Feed :=
  let '(lk, f) := s in
  let f := clearMissTimers (withStatus st_disconnected lk f) in
  (set_ws None (closeWs (set_timer None (stop lk))), f).
End link.

Example test_fingerprint : fingerprint (mkChainEvent "poker.action" None None 1 1000 JUndefined) = "poker.action|||{}".
Proof. reflexivity. Qed.
Example test_order :
  fingerprint (mkChainEvent "poker.seat_taken" (Some "1") None 1 1000 (JObj [("tableId", JStr "1"); ("seat", JStr "3")])) =
  fingerprint (mkChainEvent "poker.seat_taken" (Some "1") None 1 1000 (JObj [("seat", JStr "3"); ("tableId", JStr "1")])).
Proof. reflexivity. Qed.
Example test_median : computeMedian [300; 100; 200] = Some 200 ∧ computeMedian [100; 200] = Some 150.
Proof. by split. Qed.

End WebFeed.

(** ** The fingerprint of an event is its content

    Two events have the same fingerprint when and only when they have the same
    name, table, hand and attributes, the attributes in any order. *)
Import Bytes Json JsonText JsonTextThms JsStrings JsMap CoordStore WebFeed.

Module WebFingerThms.

#[local] Open Scope string_scope.
#[local] Open Scope list_scope.
#[local] Open Scope Z_scope.

(** ** The order of the keys *)

Lemma leb_flip (a b : string) : String.leb a b = false → String.leb b a = true.
Proof. intros H. destruct (String.leb_total a b); [congruence|done]. Qed.

Lemma ascii_compare_lt a b c : Ascii.compare a b = Lt → Ascii.compare b c = Lt → Ascii.compare a c = Lt.
Proof. unfold Ascii.compare. rewrite !N.compare_lt_iff. lia. Qed.

Lemma leb_trans (a b c : string) : String.leb a b = true → String.leb b c = true → String.leb a c = true.
Proof.
  unfold String.leb. revert b c. induction a as [|x a IH]; intros [|y b] [|z c]; cbn [String.compare]; try done.
  destruct (Ascii.compare x y) eqn:E1; [|destruct (Ascii.compare y z) eqn:E2; [|by rewrite (ascii_compare_lt x y z)|done]|done].
  - apply Ascii.compare_eq_iff in E1 as ->. destruct (Ascii.compare y z); [apply IH|done|done].
  - apply Ascii.compare_eq_iff in E2 as ->. by rewrite E1.
Qed.

Definition sortKeys : list string → list string := sort_by String.leb.

Lemma sortKeys_perm l k : l ≡ₚ k → sortKeys l = sortKeys k.
Proof. apply sort_by_Proper; [apply leb_flip|apply leb_trans|intros a b; apply String.leb_antisym]. Qed.

(** ** The members in the order of the keys *)

(** Attributes: every value is a string, no key occurs twice. *)
Definition flat (fields : list (string * json)) : Prop := NoDup fields.*1 ∧ Forall (λ kv, ∃ s, snd kv = JStr s) fields.

Definition memberOf (fields : list (string * json)) (k : string) : option (string * json) :=
  v ← snd <$> List.find (λ kv, bool_decide (fst kv = k)) fields; if defined v then Some (k, v) else None.
Definition ordered (fields : list (string * json)) : list (string * json) := omap (memberOf fields) (sortKeys (map fst fields)).

Lemma memberOf_spec fields k kv : flat fields → memberOf fields k = Some kv ↔ kv ∈ fields ∧ fst kv = k.
Proof.
  intros [Hn Hs]. unfold memberOf. induction fields as [|[k0 v0] fields IH]; [split; [done|by intros [?%elem_of_nil _]]|].
  apply NoDup_cons in Hn as [Hk Hn]. pose proof (Forall_inv Hs) as [s0 Hs0]. cbn in Hs0. subst v0. apply Forall_inv_tail in Hs.
  cbn [List.find fst]. case_bool_decide as E; cbn.
  - subst k0. rewrite elem_of_cons. split; [intros [= <-]; by split; [left|]|]. intros [[-> |Hin] Ek]; [done|]. exfalso. apply Hk. apply list_elem_of_fmap. exists kv. by rewrite Ek.
  - change ((v ← snd <$> List.find (λ kv, bool_decide (fst kv = k)) fields; if defined v then Some (k, v) else None) = Some kv ↔ kv ∈ (k0, JStr s0) :: fields ∧ fst kv = k).
    rewrite IH by done. rewrite elem_of_cons. split; [by intros [? ?]; split; [right|]|]. intros [[-> |Hin] Ek]; [by cbn in Ek|done].
Qed.

Lemma ordered_perm fields : flat fields → ordered fields ≡ₚ fields.
Proof.
  intros Hf. pose proof Hf as [Hn Hs]. apply NoDup_Permutation.
  - unfold ordered. assert (Hk : NoDup (sortKeys (map fst fields))) by (unfold sortKeys; by rewrite sort_by_perm).
    apply (NoDup_fmap_1 fst). assert (Hsub : (omap (memberOf fields) (sortKeys (map fst fields))).*1 = List.filter (λ k, if memberOf fields k is Some _ then true else false) (sortKeys (map fst fields))).
    { generalize (sortKeys (map fst fields)). intros l. induction l as [|k l IH]; [done|]. cbn. destruct (memberOf fields k) as [kv|] eqn:E; cbn; [|done].
      apply (memberOf_spec _ _ _ Hf) in E as [_ <-]. by rewrite IH. }
    rewrite Hsub. apply NoDup_ListNoDup, List.NoDup_filter, NoDup_ListNoDup, Hk.
  - by apply (NoDup_fmap_1 fst).
  - intros kv. unfold ordered. rewrite list_elem_of_omap. split.
    + intros (k & _ & E). by apply (memberOf_spec _ _ _ Hf) in E as [? _].
    + intros Hin. exists (fst kv). split; [|by apply memberOf_spec]. unfold sortKeys. rewrite sort_by_perm. by apply list_elem_of_fmap_2.
Qed.

Lemma ordered_same fields fields' : flat fields → flat fields' → fields ≡ₚ fields' → ordered fields = ordered fields'.
Proof.
  intros Hf Hf' Hp. unfold ordered. rewrite (sortKeys_perm (map fst fields) (map fst fields')) by (by apply fmap_Permutation).
  assert (Hm : ∀ k, memberOf fields k = memberOf fields' k) by (intros k; apply option_eq; intros kv; rewrite !memberOf_spec by done; by rewrite Hp).
  generalize (sortKeys (map fst fields')). intros l. induction l as [|k l IH]; [done|]. cbn. by rewrite Hm, IH.
Qed.

Lemma onlyKeys_strings keys fields : Forall (λ kv, ∃ s, snd kv = JStr s) fields → map (λ kv : string * json, (fst kv, onlyKeys keys (snd kv))) fields = fields.
Proof. induction 1 as [|[k v] fields [s Hs] _ IH]; [done|]. cbn in *. subst v. by rewrite IH. Qed.

Lemma onlyKeys_flat fields : flat fields → onlyKeys (sort_by String.leb (keysOf (JObj fields))) (JObj fields) = JObj (ordered fields).
Proof. intros [_ Hs]. cbn [onlyKeys keysOf]. rewrite onlyKeys_strings by done. done. Qed.

Lemma plain_strings fields : Forall (λ kv : string * json, ∃ s, snd kv = JStr s) fields → plain (JObj fields) = true.
Proof. cbn. induction 1 as [|[k v] fields [s Hs] _ IH]; [done|]. cbn in *. by subst v. Qed.

(** ** The separators *)

Definition unbarred (s : string) : Prop := "|"%char ∉ CoordConfig.chars s.

Lemma split_bar (a a' b b' : list ascii) : "|"%char ∉ a → "|"%char ∉ a' → a ++ "|"%char :: b = a' ++ "|"%char :: b' → a = a' ∧ b = b'.
Proof.
  revert a'. induction a as [|c a IH]; intros [|c' a'] Ha Ha' E; cbn in E.
  - by injection E.
  - injection E as <- _. exfalso. apply Ha'. by left.
  - injection E as -> _. exfalso. apply Ha. by left.
  - injection E as -> E. rewrite not_elem_of_cons in Ha, Ha'. destruct (IH a') as [-> ->]; [by destruct Ha|by destruct Ha'|done|done].
Qed.

Lemma split_field a a' b b' : unbarred a → unbarred a' → a +:+ ("|" +:+ b) = a' +:+ ("|" +:+ b') → a = a' ∧ b = b'.
Proof.
  intros Ha Ha' E. apply (f_equal CoordConfig.chars) in E. rewrite !chars_app in E. apply split_bar in E as [E1 E2]; [|done..]. split; by apply chars_inj.
Qed.

(** An event of the parsers, whose name and identifiers have no bar. *)
Record readable (ev : ChainEvent) (fields : list (string * json)) : Prop := {
  rd_data : ev.(ev_data) = JObj fields;
  rd_flat : flat fields;
  rd_name : unbarred ev.(ev_name);
  rd_tableId : unbarred (default EmptyString ev.(ev_tableId));
  rd_handId : unbarred (default EmptyString ev.(ev_handId))
}.

Definition same_content (a b : ChainEvent) (fields fields' : list (string * json)) : Prop :=
  a.(ev_name) = b.(ev_name) ∧ default EmptyString a.(ev_tableId) = default EmptyString b.(ev_tableId) ∧
  default EmptyString a.(ev_handId) = default EmptyString b.(ev_handId) ∧ fields ≡ₚ fields'.

Lemma fingerprint_readable ev fields : readable ev fields →
  fingerprint ev = ev.(ev_name) +:+ ("|" +:+ (default EmptyString ev.(ev_tableId) +:+ ("|" +:+ (default EmptyString ev.(ev_handId) +:+ ("|" +:+
    String.string_of_list_ascii (stringify false (JObj (ordered fields)))))))).
Proof. intros [Ed Hf _ _ _]. unfold fingerprint. rewrite Ed. cbn [orElse nullish]. by rewrite onlyKeys_flat. Qed.

(** The fingerprint identifies the content: for events as the parsers make
    them, whose name and identifiers have no bar, it is the same exactly when
    the names, tables, hands and attributes are, whatever the order of the
    attributes and the time. *)
Theorem fingerprint_content a b fields fields' : readable a fields → readable b fields' → fingerprint a = fingerprint b ↔ same_content a b fields fields'.
Proof.
  intros Ha Hb. rewrite (fingerprint_readable a fields Ha), (fingerprint_readable b fields' Hb). destruct Ha as [_ Hf Hn Ht Hh], Hb as [_ Hf' Hn' Ht' Hh'].
  unfold same_content. split.
  - intros (En & E)%split_field; [|done..]. apply split_field in E as [Et E]; [|done..]. apply split_field in E as [Eh E]; [|done..].
    split; [done|]. split; [done|]. split; [done|]. apply (f_equal String.list_ascii_of_string) in E. rewrite !string_list_ascii in E.
    apply (f_equal parse) in E. assert (Hplain : ∀ l, flat l → plain (JObj (ordered l)) = true).
    { intros l Hl. apply plain_strings. rewrite ordered_perm by done. by destruct Hl. }
    rewrite !parse_stringify in E by by apply Hplain. injection E as E. by rewrite <-(ordered_perm fields), E, ordered_perm.
  - intros (-> & -> & -> & Hp). by rewrite (ordered_same fields fields').
Qed.

Definition seat_taken (fields : list (string * json)) (index : Z) : ChainEvent := mkChainEvent "SeatTaken" (Some "1") None index 1000 (JObj fields).
Definition seat_fields : list (string * json) := [("tableId", JStr "1"); ("seat", JStr "3")].

Lemma fingerprint_content_witness : fingerprint (seat_taken seat_fields 1) = fingerprint (seat_taken (rev seat_fields) 7).
Proof.
  apply (fingerprint_content _ _ seat_fields (rev seat_fields)).
  - split; [done|split; [by apply (bool_decide_unpack _); vm_compute|repeat constructor; by eexists]|..]; by apply (bool_decide_unpack _); vm_compute.
  - split; [done|split; [by apply (bool_decide_unpack _); vm_compute|repeat constructor; by eexists]|..]; by apply (bool_decide_unpack _); vm_compute.
  - do 3 (split; [done|]). apply Permutation_rev.
Defined.

End WebFingerThms.

(** ** Each event refreshes the client once

    The hook as a sequence of its operations: the contents that have refreshed
    the tables determine the keys of the map, so that a content is never lost,
    and comes again only after the map has forgotten it. *)
Import Bytes Json JsonText JsMap CoordStore WebFeed.

Module WebFeedThms.

#[local] Open Scope string_scope.
#[local] Open Scope list_scope.
#[local] Open Scope Z_scope.

(** ** Operations *)

Inductive FeedStep :=
| FromCoordinator (now : Z) (ev : ChainEvent)
| FromSocket (currentTable : string) (now : Z) (msg : json)
| MissTimer (id : nat)
| Unmount.

(** The events that refresh, and those that are to be told of. *)
Definition stepFeed (s : FeedStep) (f : Feed) : list ChainEvent * Feed :=
  match s with
  | FromCoordinator now ev => let '(first, f) := recordCoordinatorEvent now ev f in (if first : bool then [ev] else [], f)
  | FromSocket table now msg => onTxResult table now msg f
  | MissTimer id => ([], onMissTimer id f)
  | Unmount => ([], clearMissTimers f)
  end.
Definition told (s : FeedStep) : list ChainEvent :=
  match s with
  | FromCoordinator _ ev => [ev]
  | FromSocket table now msg => List.filter (λ ev, negb (otherTable table ev)) (WebEvents.eventsToChainEvents (CoordEvents.txEvents msg) 0 now)
  | _ => []
  end.

Fixpoint runFeed (steps : list FeedStep) (f : Feed) : list ChainEvent * Feed :=
  match steps with
  | [] => ([], f)
  | s :: steps => let '(l, f) := stepFeed s f in let '(l', f) := runFeed steps f in (l ++ l', f)
  end.

(** ** The keys of the map *)

Definition lastMax (R : list string) : list string := drop (length R - DEDUP_MAX) R.

Lemma lastMax_push R x : drop (length (lastMax R ++ [x]) - DEDUP_MAX) (lastMax R ++ [x]) = lastMax (R ++ [x]).
Proof.
  unfold lastMax. rewrite !length_app, length_drop. cbn [length].
  destruct (decide (length R <= DEDUP_MAX)%nat) as [Hle|Hgt].
  - replace (length R - DEDUP_MAX)%nat with 0%nat by lia. rewrite drop_0. f_equal. lia.
  - rewrite <-(drop_app_le R [x] (length R - DEDUP_MAX)) by lia. rewrite drop_drop. f_equal. unfold DEDUP_MAX in *. lia.
Qed.

Lemma lastMax_length R : (length (lastMax R) <= DEDUP_MAX)%nat.
Proof. unfold lastMax. rewrite length_drop. lia. Qed.

Lemma lastMax_sub R x : x ∈ lastMax R → x ∈ R.
Proof. unfold lastMax. intros H. rewrite <-(take_drop (length R - DEDUP_MAX) R). apply elem_of_app. by right. Qed.

(** Between two occurrences in [R] there are as many as the map holds. *)
Definition spaced (R : list string) : Prop := ∀ i j x, R !! i = Some x → R !! j = Some x → (i < j)%nat → (i + DEDUP_MAX < j)%nat.

Lemma spaced_push R x : spaced R → x ∉ lastMax R → spaced (R ++ [x]).
Proof.
  intros Hs Hx i j y Hi Hj Hij. apply lookup_snoc_Some in Hj as [[Hj Ej]|[-> <-]].
  - apply lookup_snoc_Some in Hi as [[_ Ei]|[-> _]]; [by apply (Hs i j y)|lia].
  - apply lookup_snoc_Some in Hi as [[Hi Ei]|[-> _]]; [|lia]. destruct (decide (i < length R - DEDUP_MAX)%nat) as [|Hge]; [lia|].
    exfalso. apply Hx, (list_elem_of_lookup_2 _ (i - (length R - DEDUP_MAX))). unfold lastMax. rewrite lookup_drop. rewrite <-Ei. f_equal. lia.
Qed.

(** What the contents [R] that have refreshed tell of the state. *)
Record keeps (R : list string) (f : Feed) : Prop := {
  kp_keys : f.(fd_dedup).*1 = lastMax R;
  kp_spaced : spaced R;
  kp_delays : (length f.(fd_delays) <= DELAY_WINDOW)%nat
}.

Lemma keeps_new : keeps [] newFeed.
Proof. split; [done|intros i j x Hi; by rewrite lookup_nil in Hi|cbn; lia]. Qed.

(** An operation on one content: it refreshes unless the map has it. *)
Definition one_content (R : list string) (fp : string) (called : bool) (f : Feed) : Prop :=
  keeps (R ++ if called then [fp] else []) f ∧ fp ∈ lastMax (R ++ if called then [fp] else []).

Lemma lastMax_last R x : x ∈ lastMax (R ++ [x]).
Proof. rewrite <-lastMax_push. rewrite drop_app_le; [apply elem_of_app; right; by left|]. pose proof (lastMax_length R). rewrite length_app. cbn [length]. unfold DEDUP_MAX in *. lia. Qed.

Lemma pruned_keys m : (pruneDedup m).*1 = drop (length m.*1 - DEDUP_MAX) m.*1.
Proof. unfold pruneDedup. by rewrite fmap_drop, length_fmap. Qed.

Lemma mset_same fp v (m : list (string * DedupEntry)) : is_Some (mget fp m) → (mset fp v m).*1 = m.*1.
Proof. intros [e He]. rewrite mset_keys. unfold mhas. by rewrite He. Qed.

Lemma mset_new fp v (m : list (string * DedupEntry)) : mget fp m = None → (mset fp v m).*1 = m.*1 ++ [fp].
Proof. intros He. rewrite mset_keys. unfold mhas. by rewrite He. Qed.

(** The state after a content that was not in the map. *)
Lemma keeps_push R fp v f : keeps R f → mget fp f.(fd_dedup) = None →
  ∀ f', f'.(fd_dedup) = pruneDedup (mset fp v f.(fd_dedup)) → f'.(fd_delays) = f.(fd_delays) → one_content R fp true f'.
Proof.
  intros [Hk Hs Hd] Hn f' Ed El. split; [|apply lastMax_last]. assert (fp ∉ lastMax R) as Hx.
  { rewrite <-Hk. intros Hin. apply mget_keys in Hin as [e He]. congruence. }
  split; [|by apply spaced_push|by rewrite El]. by rewrite Ed, pruned_keys, mset_new, Hk, lastMax_push.
Qed.

Lemma keeps_stay R fp f : keeps R f → is_Some (mget fp f.(fd_dedup)) →
  ∀ f', f'.(fd_dedup).*1 = f.(fd_dedup).*1 → (length f'.(fd_delays) <= DELAY_WINDOW)%nat → one_content R fp false f'.
Proof.
  intros [Hk Hs Hd] Hin f' Ed El. unfold one_content. rewrite app_nil_r. split; [split; [by rewrite Ed|done|done]|].
  rewrite <-Hk. by apply mget_keys.
Qed.

Lemma pushDelay_length d w : (length w <= DELAY_WINDOW)%nat → (length (pushDelay d w) <= DELAY_WINDOW)%nat.
Proof. intros Hw. unfold pushDelay. case_match eqn:E; b2p; rewrite ?length_drop, length_app in *; cbn [length] in *; lia. Qed.

Lemma record_keeps R now ev f : keeps R f → let '(first, f') := recordCoordinatorEvent now ev f in one_content R (fingerprint ev) first f'.
Proof.
  intros Hk. unfold recordCoordinatorEvent. destruct (mget _ _) as [existing|] eqn:E; [|by eapply keeps_push].
  cbv zeta. apply (keeps_stay _ _ f); [done|by rewrite E|..].
  - repeat case_match; cbn; by rewrite mset_same by (by rewrite E).
  - destruct Hk as [_ _ Hd]. repeat case_match; cbn; try done; by apply pushDelay_length.
Qed.

Lemma deliver_keeps R table now ev f : keeps R f → otherTable table ev = false →
  let '(called, f') := deliver table now ev f in one_content R (fingerprint ev) called f'.
Proof.
  intros Hk Ho. unfold deliver. rewrite Ho. destruct (mget _ _) as [existing|] eqn:E; [|by eapply keeps_push].
  apply (keeps_stay _ _ f); [done|by rewrite E|cbn; by rewrite mset_same by (by rewrite E)|by destruct Hk].
Qed.

(** A content stays among the refreshed ones. *)
Definition refreshed (l : list ChainEvent) : list string := map fingerprint l.

Lemma deliverAll_keeps table now evs : ∀ R f, keeps R f →
  let '(l, f') := deliverAll table now evs f in
  keeps (R ++ refreshed l) f' ∧ (∀ ev, In ev evs → otherTable table ev = false → fingerprint ev ∈ R ++ refreshed l) ∧ (∀ ev, In ev l → In ev evs ∧ otherTable table ev = false).
Proof.
  induction evs as [|ev evs IH]; intros R f Hk; cbn [deliverAll]; [cbn; by rewrite app_nil_r|].
  destruct (otherTable table ev) eqn:Ho.
  - unfold deliver. rewrite Ho. specialize (IH R f Hk). destruct (deliverAll _ _ _ _) as [l f']. destruct IH as (H1 & H2 & H3). split; [done|]. split.
    + intros ev' [->|Hin]; [congruence|by apply H2].
    + intros ev' Hin. destruct (H3 ev' Hin). split; [by right|done].
  - pose proof (deliver_keeps R table now ev f Hk Ho) as Hone. destruct (deliver table now ev f) as [called f1]. destruct Hone as [Hk1 Hin1].
    specialize (IH _ f1 Hk1). destruct (deliverAll _ _ _ f1) as [l f']. destruct IH as (H1 & H2 & H3).
    assert (E : R ++ refreshed ((if called then [ev] else []) ++ l) = (R ++ if called then [fingerprint ev] else []) ++ refreshed l).
    { rewrite <-app_assoc. f_equal. unfold refreshed. rewrite map_app. f_equal. by destruct called. }
    rewrite E. split; [done|]. split.
    + intros ev' [<-|Hin] Ho'; [|by apply H2]. apply elem_of_app. left. by apply lastMax_sub.
    + intros ev' [Hin|Hin]%in_app_or; [destruct called; [|done]; destruct Hin as [<-|[]]; split; [by left|done]|].
      destruct (H3 ev' Hin). split; [by right|done].
Qed.

(** ** Whole runs *)

(** Events alike but for the index. *)
Definition alike (a b : ChainEvent) : Prop :=
  a.(ev_name) = b.(ev_name) ∧ a.(ev_tableId) = b.(ev_tableId) ∧ a.(ev_handId) = b.(ev_handId) ∧ a.(ev_data) = b.(ev_data).

Lemma alike_fingerprint a b : alike a b → fingerprint a = fingerprint b.
Proof. intros (En & Et & Eh & Ed). unfold fingerprint. by rewrite En, Et, Eh, Ed. Qed.

Lemma alike_other table a b : alike a b → otherTable table a = otherTable table b.
Proof. intros (_ & Et & _). unfold otherTable. by rewrite Et. Qed.

Lemma events_alike events i j now now' : Forall2 alike (WebEvents.eventsToChainEvents events i now) (WebEvents.eventsToChainEvents events j now').
Proof.
  revert i j. induction events as [|ev events IH]; intros i j; cbn [WebEvents.eventsToChainEvents]; [constructor|].
  case_match; try apply IH. constructor; [by split|apply IH].
Qed.

Lemma stepFeed_keeps R s f : keeps R f →
  let '(l, f') := stepFeed s f in
  keeps (R ++ refreshed l) f' ∧ (∀ ev, In ev (told s) → fingerprint ev ∈ R ++ refreshed l) ∧ (∀ ev, In ev l → ∃ ev', In ev' (told s) ∧ fingerprint ev = fingerprint ev').
Proof.
  intros Hk. destruct s as [now ev|table now msg|id|]; cbn [stepFeed told].
  - pose proof (record_keeps R now ev f Hk) as Hr. destruct (recordCoordinatorEvent now ev f) as [first f']. destruct Hr as [H1 H2].
    replace (refreshed (if first then [ev] else [])) with (if first then [fingerprint ev] else []) by by destruct first. split; [done|]. split.
    + intros ev' [<-|[]]. by apply lastMax_sub.
    + intros ev' Hin. exists ev. split; [by left|]. destruct first; [by destruct Hin as [->|[]]|done].
  - unfold onTxResult. set (evs := WebEvents.eventsToChainEvents _ _ _). set (f1 := set_nextIndex _ _). assert (Hk1 : keeps R f1) by by destruct Hk.
    pose proof (deliverAll_keeps table now evs R f1 Hk1) as Hd. destruct (deliverAll table now evs f1) as [l f']. destruct Hd as (H1 & H2 & H3). split; [done|].
    assert (HF := events_alike (CoordEvents.txEvents msg) (fd_nextIndex f) 0 now now). fold evs in HF. split.
    + intros ev [Hin Ho]%filter_In. apply negb_true_iff in Ho. apply list_elem_of_In, list_elem_of_lookup in Hin as [k Hev].
      destruct (Forall2_lookup_r _ _ _ _ _ HF Hev) as (ev' & Hev' & Ha). rewrite <-(alike_fingerprint _ _ Ha). apply H2; [|by rewrite (alike_other _ _ _ Ha)].
      apply list_elem_of_In. by eapply list_elem_of_lookup_2.
    + intros ev Hin. destruct (H3 ev Hin) as [Hev Ho]. apply list_elem_of_In, list_elem_of_lookup in Hev as [k Hev].
      destruct (Forall2_lookup_l _ _ _ _ _ HF Hev) as (ev' & Hev' & Ha). exists ev'. split; [|by apply alike_fingerprint].
      apply filter_In. split; [apply list_elem_of_In; by eapply list_elem_of_lookup_2|]. by rewrite <-(alike_other _ _ _ Ha), Ho.
  - cbn. rewrite app_nil_r. split; [|by split]. destruct Hk. unfold onMissTimer, clearTimer. repeat case_match; by split.
  - cbn. rewrite app_nil_r. split; [|by split]. by destruct Hk.
Qed.

Lemma runFeed_keeps steps : ∀ R f, keeps R f →
  let '(l, f') := runFeed steps f in
  keeps (R ++ refreshed l) f' ∧ (∀ ev, In ev (flat_map told steps) → fingerprint ev ∈ R ++ refreshed l) ∧
  (∀ ev, In ev l → ∃ ev', In ev' (flat_map told steps) ∧ fingerprint ev = fingerprint ev').
Proof.
  induction steps as [|s steps IH]; intros R f Hk; cbn [runFeed flat_map]; [cbn; rewrite app_nil_r; by split|].
  pose proof (stepFeed_keeps R s f Hk) as Hs. destruct (stepFeed s f) as [l1 f1]. destruct Hs as (H1 & H2 & H3).
  specialize (IH _ f1 H1). destruct (runFeed steps f1) as [l f']. destruct IH as (I1 & I2 & I3).
  assert (E : R ++ refreshed (l1 ++ l) = (R ++ refreshed l1) ++ refreshed l) by (unfold refreshed; by rewrite map_app, app_assoc).
  rewrite E. split; [done|]. split.
  - intros ev [Hin|Hin]%in_app_or; [|by apply I2]. apply elem_of_app. left. by apply H2.
  - intros ev [Hin|Hin]%in_app_or; [destruct (H3 ev Hin) as (ev' & ? & ?)|destruct (I3 ev Hin) as (ev' & ? & ?)]; exists ev'; (split; [apply in_or_app; auto|done]).
Qed.

Lemma spaced_nodup R : spaced R → (length (remove_dups R) <= DEDUP_MAX)%nat → NoDup R.
Proof.
  intros Hs Hn. apply NoDup_alt. intros i j x Hi Hj. destruct (decide (i = j)) as [|Hne]; [done|]. exfalso.
  assert (Hgap : ∀ i j, R !! i = Some x → R !! j = Some x → (i < j)%nat → False); [|destruct (decide (i < j)%nat); [by apply (Hgap i j)|apply (Hgap j i); [done..|lia]]].
  clear i j Hi Hj Hne. intros i j Hi Hj Hij. pose proof (Hs i j x Hi Hj Hij) as Hfar. pose proof (lookup_lt_Some _ _ _ Hj) as Hlen.
  assert (Hwin : NoDup (take (S DEDUP_MAX) (drop i R))).
  { apply NoDup_alt. intros a b y Ha Hb. apply lookup_take_Some in Ha as [Ha Hla]. apply lookup_take_Some in Hb as [Hb Hlb]. rewrite lookup_drop in Ha, Hb.
    destruct (decide (a = b)) as [|Hne]; [done|]. destruct (decide (a < b)%nat).
    - pose proof (Hs _ _ _ Ha Hb). lia.
    - pose proof (Hs _ _ _ Hb Ha). lia. }
  assert (Hle : (length (take (S DEDUP_MAX) (drop i R)) <= length (remove_dups R))%nat).
  { apply submseteq_length. apply NoDup_submseteq; [done|]. intros y Hy. apply elem_of_remove_dups.
    apply list_elem_of_lookup in Hy as [k Hy]. apply lookup_take_Some in Hy as [Hy _]. rewrite lookup_drop in Hy. by eapply list_elem_of_lookup_2. }
  rewrite length_take, length_drop in Hle. lia.
Qed.

(** C8. Each event refreshes once: whatever the order in which the coordinator
    and the client's own socket tell of events, and the timers and the unmounting
    in between, the contents that refresh the client are those it was told of; a
    content refreshes again only after more than 500 others did, so never
    twice when there are no more than 500; the map and the window of delays stay
    bounded. *)
Theorem feed_once steps :
  let '(l, f) := runFeed steps newFeed in
  (∀ fp, fp ∈ refreshed l ↔ fp ∈ refreshed (flat_map told steps)) ∧
  (∀ i j fp, refreshed l !! i = Some fp → refreshed l !! j = Some fp → (i < j)%nat → (i + 500 < j)%nat) ∧
  ((length (remove_dups (refreshed (flat_map told steps))) <= 500)%nat → NoDup (refreshed l)) ∧
  (length f.(fd_dedup) <= 500)%nat ∧ (length f.(fd_delays) <= 20)%nat.
Proof.
  pose proof (runFeed_keeps steps [] newFeed keeps_new) as H. destruct (runFeed steps newFeed) as [l f]. destruct H as ([Hk Hs Hd] & H2 & H3). cbn [app] in *.
  assert (Hsame : ∀ fp, fp ∈ refreshed l ↔ fp ∈ refreshed (flat_map told steps)).
  { intros fp. unfold refreshed at 1 2. rewrite !list_elem_of_In, !in_map_iff. split.
    - intros (ev & <- & Hin). destruct (H3 ev Hin) as (ev' & Hin' & E). by exists ev'.
    - intros (ev & <- & Hin). apply in_map_iff, list_elem_of_In. by apply H2. }
  split; [done|]. split; [exact Hs|]. split; [|split; [|done]].
  - intros Hn. apply spaced_nodup; [done|]. etrans; [|exact Hn]. apply submseteq_length, NoDup_submseteq; [apply NoDup_remove_dups|].
    intros fp. rewrite !elem_of_remove_dups. apply Hsame.
  - rewrite <-(length_fmap fst), Hk. apply lastMax_length.
Qed.

(** A content that comes twice within a hand - two calls of the same player on
    the same street, say - refreshes once. *)
Example second_call_dropped :
  let call := JObj [("type", JStr "ActionApplied"); ("attributes", JArr [JObj [("key", JStr "tableId"); ("value", JStr "1")]; JObj [("key", JStr "action"); ("value", JStr "call")]])] in
  let tx := JObj [("result", JObj [("events", JArr [call])])] in
  length (fst (runFeed [FromSocket "1" 1000 tx; FromSocket "1" 9000 tx] newFeed)) = 1%nat.
Proof. reflexivity. Qed.

(** ** The connection *)

Inductive LinkStep := TimerFires | Opens (i : nat) | Message (i : nat) (currentTable : string) (now : Z) (msg : json) | Closes (i : nat) | Cleanup.

Section link.
Context (socketOk : bool).

Definition stepLink (e : LinkStep) (s : Link * Feed) : list ChainEvent * (Link * Feed) :=
  match e with
  | TimerFires => ([], onReconnectTimer true socketOk s)
  | Opens i => ([], onOpen i s)
  | Message i table now msg => onMessage i table now msg s
  | Closes i => ([], onCloseOrError i s)
  | Cleanup => ([], cleanup s)
  end.
Fixpoint runLink (es : list LinkStep) (s : Link * Feed) : list ChainEvent * (Link * Feed) :=
  match es with
  | [] => ([], s)
  | e :: es => let '(l, s) := stepLink e s in let '(l', s) := runLink es s in (l ++ l', s)
  end.

Definition in_range (d : Z) : Prop := 1000 <= d <= MAX_BACKOFF_MS.

(** While it runs there is a socket or a timer that will open one. *)
Record alive (lk : Link) : Prop := {
  al_running : lk.(lk_stopped) = false → is_Some lk.(lk_ws) ∨ is_Some lk.(lk_timer);
  al_stopped : lk.(lk_stopped) = true → lk.(lk_ws) = None ∧ lk.(lk_timer) = None;
  al_backoff : in_range lk.(lk_backoffMs);
  al_timer : ∀ d, lk.(lk_timer) = Some d → in_range d
}.

Lemma schedule_alive lk : lk.(lk_stopped) = false → in_range lk.(lk_backoffMs) → (∀ d, lk.(lk_timer) = Some d → in_range d) → alive (scheduleReconnect lk).
Proof.
  intros Hs Hb Ht. unfold scheduleReconnect. rewrite Hs. cbn [orb]. case_bool_decide as E.
  - split; [by right|congruence|done|done].
  - split; cbn; [by right; eexists|congruence|done|by intros d [= <-]].
Qed.

Lemma connect_alive lk f : lk.(lk_stopped) = false → in_range lk.(lk_backoffMs) → (∀ d, lk.(lk_timer) = Some d → in_range d) → alive (connect true socketOk (lk, f)).1.
Proof.
  intros Hs Hb Ht. unfold connect. rewrite Hs. cbn [negb]. destruct socketOk; cbn [negb fst].
  - split; cbn; [by left; eexists|congruence|done|done].
  - by apply schedule_alive.
Qed.

Lemma alive_same lk lk' : alive lk → lk'.(lk_stopped) = lk.(lk_stopped) → lk'.(lk_ws) = lk.(lk_ws) → lk'.(lk_timer) = lk.(lk_timer) → in_range lk'.(lk_backoffMs) → alive lk'.
Proof. intros [Hr Hs Hb Ht] Es Ew Et Hb'. split; rewrite ?Es, ?Ew, ?Et; done. Qed.

Lemma stepLink_alive e s : alive s.1 → alive (stepLink e s).2.1.
Proof.
  destruct s as [lk f]. intros Ha. pose proof Ha as [Hr Hst Hb Ht]. cbn [fst] in *. destruct e as [|i|i table now msg|i|]; cbn [stepLink snd].
  - unfold onReconnectTimer. destruct (lk_timer lk) as [d|] eqn:E; [|exact Ha]. destruct (lk_stopped lk) eqn:Es; [by destruct (Hst eq_refl)|].
    apply connect_alive; [done| |done]. unfold in_range, MAX_BACKOFF_MS in *. cbn. lia.
  - unfold onOpen, closeWs. apply (alive_same lk); [done|..]; by repeat case_match.
  - unfold onMessage. destruct (lk_stopped lk) eqn:Es; [exact Ha|]. destruct (isAck msg); [|destruct (onTxResult _ _ _ _); exact Ha].
    destruct (truthy _); apply (alive_same lk); try (unfold closeWs; by repeat case_match); done.
  - unfold onCloseOrError. cbn [lk_stopped set_ws]. destruct (lk_stopped lk) eqn:Es; [split; cbn; rewrite ?Es; try done; intros _; by destruct (Hst eq_refl)|].
    by apply schedule_alive.
  - unfold cleanup, closeWs. destruct (lk_ws lk) as [j|] eqn:Ew; by split; cbn; rewrite ?Ew.
Qed.

Lemma runLink_alive es : ∀ s, alive s.1 → alive (runLink es s).2.1.
Proof.
  induction es as [|e es IH]; intros s Hs; [done|]. cbn [runLink]. pose proof (stepLink_alive e s Hs) as H. destruct (stepLink e s) as [l s1].
  specialize (IH s1 H). by destruct (runLink es s1).
Qed.

(** After the cleanup nothing happens. *)
Lemma runLink_stopped es : ∀ lk f, lk.(lk_stopped) = true → alive lk → (runLink es (lk, f)).1 = [] ∧ (runLink es (lk, f)).2.1.(lk_stopped) = true.
Proof.
  induction es as [|e es IH]; intros lk f Hs Ha; [done|]. cbn [runLink]. pose proof (stepLink_alive e (lk, f) Ha) as H.
  destruct Ha as [_ Hst _ _]. destruct (Hst Hs) as [Ew Et].
  assert (Hq : (stepLink e (lk, f)).1 = [] ∧ (stepLink e (lk, f)).2.1.(lk_stopped) = true).
  { destruct e; cbn [stepLink]; unfold onReconnectTimer, onOpen, onMessage, onCloseOrError, cleanup, closeWs; cbn; rewrite ?Hs, ?Et, ?Ew; cbn; rewrite ?Hs, ?Ew; done. }
  destruct (stepLink e (lk, f)) as [l [lk1 f1]]. cbn in Hq, H. destruct Hq as [-> Hs1]. specialize (IH lk1 f1 Hs1 H). by destruct (runLink es (lk1, f1)).
Qed.

End link.

(** Rounds of a connection that fails before its subscription is confirmed and
    the timer that opens the next. *)
Definition failures (n k : nat) : list LinkStep := flat_map (λ i, [Closes i; TimerFires]) (seq k n).

Lemma failures_backoff n : ∀ k lk f, lk.(lk_stopped) = false → lk.(lk_timer) = None → in_range lk.(lk_backoffMs) →
  (runLink true (failures n k) (lk, f)).2.1.(lk_backoffMs) = Z.min (lk.(lk_backoffMs) * 2 ^ Z.of_nat n) MAX_BACKOFF_MS.
Proof.
  induction n as [|n IH]; intros k lk f Hs Ht Hb; unfold in_range, MAX_BACKOFF_MS in *; [cbn; lia|].
  change (failures (S n) k) with (Closes k :: TimerFires :: failures n (S k)). cbn [runLink stepLink].
  unfold onCloseOrError. cbn [lk_stopped set_ws]. rewrite Hs. unfold scheduleReconnect. cbn [lk_stopped lk_timer set_ws]. rewrite Hs, Ht. cbn [orb bool_decide decide_rel].
  rewrite bool_decide_false by (by intros [? [=]]). unfold onReconnectTimer. cbn [lk_timer set_timer]. unfold connect. cbn [lk_stopped set_backoff set_timer set_ws]. rewrite Hs. cbn [negb].
  match goal with |- context [runLink true (failures n (S k)) (?l, ?g)] => specialize (IH (S k) l g) end.
  destruct (runLink true (failures n (S k)) _) as [l s1]. cbn [snd] in *. rewrite IH by (done || cbn; unfold MAX_BACKOFF_MS; lia).
  cbn. rewrite Nat2Z.inj_succ, Z.pow_succ_r by lia. pose proof (Z.pow_pos_nonneg 2 (Z.of_nat n)). unfold MAX_BACKOFF_MS. nia.
Qed.

(** While the effect runs there is a socket or a timer that will open one; the
    delays double with each failure from one second up to half a minute; after
    the cleanup nothing is told and no socket or timer is left. *)
Theorem link_alive socketOk es f :
  let s := (runLink socketOk es (startLink true socketOk f)).2 in
  (s.1.(lk_stopped) = false → is_Some s.1.(lk_ws) ∨ is_Some s.1.(lk_timer)) ∧
  (∀ d, s.1.(lk_timer) = Some d → 1000 <= d <= 30000) ∧
  (∀ n, (runLink true (failures n 0) (startLink true true f)).2.1.(lk_backoffMs) = Z.min (1000 * 2 ^ Z.of_nat n) 30000) ∧
  (∀ es', let '(l, s') := runLink socketOk es' (cleanup s) in l = [] ∧ s'.1.(lk_ws) = None ∧ s'.1.(lk_timer) = None).
Proof.
  assert (Hstart : alive (startLink true socketOk f).1) by (by apply connect_alive).
  pose proof (runLink_alive socketOk es _ Hstart) as Ha. cbv zeta. destruct (runLink socketOk es _) as [l s]. cbn [snd] in *.
  split; [by apply al_running|]. split; [by apply al_timer|]. split; [intros n; by apply failures_backoff|].
  intros es'. pose proof (stepLink_alive socketOk Cleanup s Ha) as Hc. cbn [stepLink snd] in Hc. destruct (cleanup s) as [lk1 f1] eqn:Ec.
  assert (Hst : lk1.(lk_stopped) = true).
  { destruct s as [lk f0]. unfold cleanup, closeWs in Ec. cbn in Ec. injection Ec as <- _. by destruct (lk_ws lk). }
  destruct (runLink_stopped socketOk es' lk1 f1 Hst Hc) as [E1 E2]. pose proof (runLink_alive socketOk es' (lk1, f1) Hc) as Hend.
  destruct (runLink socketOk es' (lk1, f1)) as [l' s']. split; [done|]. by apply (al_stopped _ Hend).
Qed.

End WebFeedThms.
