(* ===== verification/WebTables.v ===== *)
(** * Tables in the web client: [apps/web/src/lib/parsePlayerTable.ts],
      [components/useTableState.ts] and [components/useChainVerification.ts]

    The client reads the table of the poker module, from the coordinator and
    from the chain, and compares the two.  A [BigInt] of a string that is no
    integer throws: the parser is fallible. *)
From stdpp Require Import base option list strings pretty.
From Stdlib Require Import ZArith Lia Ascii.
From S2P Require Import Prelude OcpBytes Json JsonText CoordConfig CoordDealer JsStrings.
Import Bytes Json.

Module WebTables.

#[local] Open Scope string_scope.
#[local] Open Scope list_scope.
#[local] Open Scope Z_scope.

(** ** parsePlayerTable.ts *)

Record PlayerSeatState := mkSeat { seat : Z; player : string; stack : string; bond : string; inHand : bool; folded : bool; allIn : bool }.

Record PlayerHandState := mkHand {
  handId : string; phase : string; actionOn : Z; buttonSeat : Z; smallBlindSeat : Z; bigBlindSeat : Z; actionDeadline : Z;
  pot : string; board : list Z; street : string }.

Record PlayerTableParams := mkParams {
  maxPlayers : Z; smallBlind : string; bigBlind : string; minBuyIn : string; maxBuyIn : string; passwordHash : option string; passwordSalt : option string }.

Record PlayerTableState := mkTable { tableId : string; params : PlayerTableParams; seats : list PlayerSeatState; hand : option PlayerHandState }.

Definition parseTableBool (raw : json) : bool :=
  match raw with
  | JBool b => b
  | JNum z => negb (z =? 0)
  | JStr s => bool_decide (s = "true") || bool_decide (s = "1")
  | _ => truthy raw
  end.

(** [typeof raw === "object"], of a value that is not [null] *)
Definition isObject (j : json) : bool := match j with JObj _ | JArr _ | JBytes _ => true | _ => false end.

(** [a ?? b ?? ...] of fields *)
Fixpoint first (obj : json) (names : list string) : json :=
  match names with
  | [] => JUndefined
  | [k] => field obj k
  | k :: names => orElse (field obj k) (first obj names)
  end.

(** [String(... ?? d)] *)
Definition str (obj : json) (names : list string) (d : string) : string := toStr (orElse (first obj names) (JStr d)).

(** [Number.isFinite(Number(x)) ? Number(x) : d] *)
Definition number (obj : json) (names : list string) (d : Z) : Z := default d (jsNumber (first obj names)).

Definition parseSeat (inHands foldeds allIns : list json) (i : nat) (seatRaw : json) : PlayerSeatState :=
  let value := orElse seatRaw (JObj []) in
  let flag l k := parseTableBool (orElse (rd JUndefined l i) (field value k)) in
  mkSeat (Z.of_nat i) (str value ["player"] EmptyString) (str value ["stack"] "0") (str value ["bond"] "0")
    (flag inHands "inHand") (flag foldeds "folded") (flag allIns "allIn").

Definition emptySeat (i : nat) : PlayerSeatState := mkSeat (Z.of_nat i) EmptyString "0" "0" false false false.

(** What one commitment adds to the pot. *)
Definition commitValue (tc : json) : res Z :=
  match tc with
  | JStr s => match stringToBigInt (CoordConfig.orString s "0") with Some z => Ok z | None => Err "SyntaxError" end
  | JNum z => Ok z
  | _ => Ok 0
  end.

(** [typeof x === "string" ? String(x) || undefined : undefined] *)
Definition password (obj : json) (names : list string) : option string :=
  match first obj names with JStr s => CoordConfig.nonEmpty s | _ => None end.

Definition parseHand (h : json) (pot : Z) : PlayerHandState :=
  mkHand (str h ["handId"; "hand_id"] EmptyString) (str h ["phase"] EmptyString) (number h ["actionOn"; "action_on"] (-1))
    (number h ["buttonSeat"; "button_seat"; "button"] (-1)) (number h ["smallBlindSeat"; "small_blind_seat"; "sbSeat"] (-1))
    (number h ["bigBlindSeat"; "big_blind_seat"; "bbSeat"] (-1)) (number h ["actionDeadline"; "action_deadline"; "deadline"] 0)
    (pretty pot) (List.filter (λ c, (0 <=? c) && (c <=? 51)) (omap jsNumber (elems (field h "board")))) (str h ["street"] EmptyString).

(** [None] is [null]. *)
Definition parsePlayerTable (raw : json) : res (option PlayerTableState) :=
  if negb (isObject raw) then Ok None
  else
    let id := CoordConfig.trimmed (str raw ["id"; "tableId"] EmptyString) in
    if bool_decide (id = EmptyString) then Ok None
    else
      let ps := orElse (field raw "params") (JObj []) in
      let rawHand := field raw "hand" in
      let seats := imap (parseSeat (elems (first rawHand ["inHand"; "in_hand"])) (elems (field rawHand "folded")) (elems (first rawHand ["allIn"; "all_in"])))
                     (take 9 (elems (field raw "seats"))) in
      let seats := seats ++ map emptySeat (seq (length seats) (9 - length seats)) in
      let! commits := mapR commitValue (elems (first rawHand ["totalCommit"; "total_commit"])) in
      Ok (Some (mkTable id
        (mkParams (number ps ["maxPlayers"; "max_players"] 9) (str ps ["smallBlind"; "small_blind"] "0") (str ps ["bigBlind"; "big_blind"] "0")
           (str ps ["minBuyIn"; "min_buy_in"] "0") (str ps ["maxBuyIn"; "max_buy_in"] "0")
           (password ps ["passwordHash"; "password_hash"]) (password ps ["passwordSalt"; "password_salt"]))
        seats
        (if truthy rawHand then Some (parseHand rawHand (sumZ commits)) else None))).

(** ** useTableState.ts *)

Record PokerTableHand := mkTableHand {
  th_handId : string; th_phase : string; th_actionOn : Z; th_pot : string; th_board : list Z; th_buttonSeat : Z; th_smallBlindSeat : Z;
  th_bigBlindSeat : Z; th_actionDeadline : Z }.
Record PokerTableProps := mkProps { tp_seats : list PlayerSeatState; tp_hand : option PokerTableHand; tp_localPlayerSeat : option nat }.

(** The cards of the reveals, where they are cards. *)
Definition revealedCard (r : json) : option Z :=
  match CoordDealer.asNumber (field r "pos"), CoordDealer.asNumber (first r ["cardId"; "card_id"]) with
  | Some _, Some cardId => if (0 <=? cardId) && (cardId <=? 51) then Some cardId else None
  | _, _ => None
  end.

Definition findIndex {A} (f : A → bool) (l : list A) : option nat := fst <$> List.find (λ ix, f (snd ix)) (imap pair l).

(** Of the arguments that only travel through - the seats' bonds are dropped,
    the hole cards and the callback kept - nothing is shown. *)
Definition deriveTableProps (raw : option PlayerTableState) (rawDealer : json) (localAddress : option string) : option PokerTableProps :=
  match raw with
  | None => None
  | Some raw =>
      let seats := raw.(seats) ++ map emptySeat (seq (length raw.(seats)) (9 - length raw.(seats))) in
      let localPlayerSeat := match localAddress with
                             | Some a => if bool_decide (a = EmptyString) then None else findIndex (λ s, bool_decide (lower s.(player) = lower a)) seats
                             | None => None
                             end in
      let handBoard := match raw.(hand) with Some h => h.(board) | None => [] end in
      let board := if (0 <? length handBoard)%nat then handBoard
                   else if truthy rawDealer then omap revealedCard (elems (field rawDealer "reveals")) else [] in
      Some (mkProps seats
        ((λ h, mkTableHand h.(handId) h.(phase) h.(actionOn) h.(pot) board h.(buttonSeat) h.(smallBlindSeat) h.(bigBlindSeat) h.(actionDeadline)) <$> raw.(hand))
        localPlayerSeat)
  end.

(** ** useChainVerification.ts *)

Inductive VerificationStatus := v_idle | v_pending | v_verified | v_mismatch | v_error.

Record FieldMismatch := mkMismatch { path : string; fm_coordinator : string; fm_chain : string }.

Definition mismatchOn (differs : bool) (p a b : string) : list FieldMismatch := if differs then [mkMismatch p a b] else [].
Definition strMismatch (p a b : string) : list FieldMismatch := mismatchOn (negb (bool_decide (a = b))) p a b.

Definition seatMismatches (i : nat) (cs ps : PlayerSeatState) : list FieldMismatch :=
  let at_ k := ("seats[" +:+ (pretty (Z.of_nat i) +:+ ("]." +:+ k))) in
  mismatchOn (negb (bool_decide (cs.(player) = ps.(player)))) (at_ "player") (CoordConfig.orString cs.(player) "(empty)") (CoordConfig.orString ps.(player) "(empty)")
  ++ strMismatch (at_ "stack") cs.(stack) ps.(stack) ++ strMismatch (at_ "bond") cs.(bond) ps.(bond).

(** [board.join(",")] *)
Definition joined (board : list Z) : string := String.concat "," (map pretty board).

Definition handMismatches (ch ph : PlayerHandState) : list FieldMismatch :=
  strMismatch "hand.handId" ch.(handId) ph.(handId) ++ strMismatch "hand.phase" ch.(phase) ph.(phase)
  ++ mismatchOn (negb (ch.(actionOn) =? ph.(actionOn))) "hand.actionOn" (pretty ch.(actionOn)) (pretty ph.(actionOn))
  ++ mismatchOn (negb (ch.(buttonSeat) =? ph.(buttonSeat))) "hand.buttonSeat" (pretty ch.(buttonSeat)) (pretty ph.(buttonSeat))
  ++ strMismatch "hand.pot" ch.(pot) ph.(pot)
  ++ mismatchOn (negb (bool_decide (joined ch.(board) = joined ph.(board)))) "hand.board"
       ("[" +:+ (joined ch.(board) +:+ "]")) ("[" +:+ (joined ph.(board) +:+ "]")).

(** The seats that both have. *)
Definition compareFields (coordParsed chainTable : PlayerTableState) : list FieldMismatch :=
  concat (imap (λ i s, seatMismatches i s.1 s.2) (zip coordParsed.(seats) chainTable.(seats)))
  ++ match coordParsed.(hand), chainTable.(hand) with
     | Some ch, Some ph => handMismatches ch ph
     | Some ch, None => [mkMismatch "hand" ("handId=" +:+ ch.(handId)) "(no hand)"]
     | None, Some ph => [mkMismatch "hand" "(no hand)" ("handId=" +:+ ph.(handId))]
     | None, None => []
     end.

(** The inputs of the hook, and its state; [vf_retry] tells whether the retry
    timer runs. *)
Record Inputs := mkInputs { in_coordinatorRawTable : json; in_playerTable : option PlayerTableState; in_enabled : bool }.
Record Verifier := mkVerifier { vf_status : VerificationStatus; vf_mismatches : list FieldMismatch; vf_lastVerifiedAt : option Z; vf_failures : nat; vf_retry : bool }.
Definition newVerifier : Verifier := mkVerifier v_idle [] None 0 false.

Definition runComparison (now : Z) (inp : Inputs) (v : Verifier) : Verifier :=
  match inp.(in_playerTable) with
  | Some playerTable =>
      if negb inp.(in_enabled) || negb (truthy inp.(in_coordinatorRawTable)) then mkVerifier v_idle [] v.(vf_lastVerifiedAt) v.(vf_failures) v.(vf_retry)
      else
        match parsePlayerTable inp.(in_coordinatorRawTable) with
        | Ok (Some coordParsed) =>
            match compareFields coordParsed playerTable with
            | [] => mkVerifier v_verified [] (Some now) 0 v.(vf_retry)
            | fieldMismatches =>
                let n := S v.(vf_failures) in
                if (2 <=? n)%nat then mkVerifier v_mismatch fieldMismatches (Some now) n v.(vf_retry)
                else mkVerifier v_pending v.(vf_mismatches) v.(vf_lastVerifiedAt) n true
            end
        | _ => mkVerifier v_error [] v.(vf_lastVerifiedAt) v.(vf_failures) v.(vf_retry)
        end
  | None => mkVerifier v_idle [] v.(vf_lastVerifiedAt) v.(vf_failures) v.(vf_retry)
  end.

Definition resetFailures (v : Verifier) : Verifier := mkVerifier v.(vf_status) v.(vf_mismatches) v.(vf_lastVerifiedAt) 0 v.(vf_retry).
Definition clearRetry (v : Verifier) : Verifier := mkVerifier v.(vf_status) v.(vf_mismatches) v.(vf_lastVerifiedAt) v.(vf_failures) false.

(** New inputs: the cleanup of the last effect, then the effect.  The retry
    timer, and [verify]. *)
Definition onInputs (now : Z) (inp : Inputs) (v : Verifier) : Verifier := runComparison now inp (resetFailures (clearRetry v)).
Definition onRetryTimer (now : Z) (inp : Inputs) (v : Verifier) : Verifier := if v.(vf_retry) then runComparison now inp (clearRetry v) else v.
Definition verify (now : Z) (inp : Inputs) (v : Verifier) : Verifier := runComparison now inp (resetFailures v).

Definition test_table (commits : list json) : json :=
  JObj [("id", JNum 1); ("params", JObj []); ("seats", JArr []); ("hand", JObj [("handId", JStr "7"); ("phase", JStr "betting"); ("totalCommit", JArr commits)])].
Definition test_pot (commits : list json) : option string :=
  match parsePlayerTable (test_table commits) with Ok (Some t) => pot <$> t.(hand) | _ => None end.
Example test_strings : test_pot [JStr "1000"; JStr "2500"; JStr "0"] = Some "3500".
Proof. reflexivity. Qed.
Example test_empty : test_pot [JStr EmptyString; JStr "50"] = Some "50".
Proof. reflexivity. Qed.
Example test_garbage : test_pot [JObj []; JNull; JUndefined; JStr "25"; JBool true] = Some "25".
Proof. reflexivity. Qed.

End WebTables.

(** ** What the client shows of a table is what the chain wrote, and its
      verification tells the truth

    The chain's tables as its gateway writes them, in either spelling of the
    names, are read back; the badge of the verification says that the two tables
    agree, or that they differ, only when they do. *)
Import Bytes Json JsonText JsonTextThms JsStrings WebTables.

Module WebTablesThms.

#[local] Open Scope string_scope.
#[local] Open Scope list_scope.
#[local] Open Scope Z_scope.

(** ** The chain's tables *)

Record ChainSeat := mkChainSeat { cs_player : string; cs_stack : Z; cs_bond : Z }.
Record ChainHand := mkChainHand {
  ch_id : Z; ch_phase : string; ch_street : string; ch_button : Z; ch_small : Z; ch_big : Z; ch_action : Z;
  ch_inHand : list bool; ch_folded : list bool; ch_allIn : list bool; ch_total : list Z; ch_board : list Z; ch_deadline : Z }.
Record ChainTable := mkChainTable {
  ct_id : Z; ct_max : Z; ct_small : Z; ct_big : Z; ct_min : Z; ct_maxBuy : Z; ct_hash : string; ct_salt : string; ct_seats : list (option ChainSeat); ct_hand : option ChainHand }.

(** As the gateway writes them: integers of 64 bits are strings, smaller ones
    numbers; the names in camel case, or as in the protocol buffers. *)
Section render.
Context (camel : bool).
Definition nm (c s : string) : string := if camel then c else s.
Definition num64 (z : Z) : json := JStr (pretty z).

Definition renderSeat (s : option ChainSeat) : json :=
  match s with None => JNull | Some s => JObj [("player", JStr s.(cs_player)); ("stack", num64 s.(cs_stack)); ("bond", num64 s.(cs_bond))] end.
Definition renderHand (h : ChainHand) : json := JObj [
  (nm "handId" "hand_id", num64 h.(ch_id)); ("phase", JStr h.(ch_phase)); ("street", JStr h.(ch_street));
  (nm "buttonSeat" "button_seat", JNum h.(ch_button)); (nm "smallBlindSeat" "small_blind_seat", JNum h.(ch_small)); (nm "bigBlindSeat" "big_blind_seat", JNum h.(ch_big));
  (nm "actionOn" "action_on", JNum h.(ch_action)); (nm "inHand" "in_hand", JArr (map JBool h.(ch_inHand))); ("folded", JArr (map JBool h.(ch_folded)));
  (nm "allIn" "all_in", JArr (map JBool h.(ch_allIn))); (nm "totalCommit" "total_commit", JArr (map num64 h.(ch_total))); ("board", JArr (map JNum h.(ch_board)));
  (nm "actionDeadline" "action_deadline", num64 h.(ch_deadline))].
Definition renderTable (t : ChainTable) : json := JObj [
  ("id", num64 t.(ct_id));
  ("params", JObj [(nm "maxPlayers" "max_players", JNum t.(ct_max)); (nm "smallBlind" "small_blind", num64 t.(ct_small)); (nm "bigBlind" "big_blind", num64 t.(ct_big));
                   (nm "minBuyIn" "min_buy_in", num64 t.(ct_min)); (nm "maxBuyIn" "max_buy_in", num64 t.(ct_maxBuy));
                   (nm "passwordHash" "password_hash", JStr t.(ct_hash)); (nm "passwordSalt" "password_salt", JStr t.(ct_salt))]);
  ("seats", JArr (map renderSeat t.(ct_seats)));
  ("hand", match t.(ct_hand) with Some h => renderHand h | None => JNull end)].
End render.

(** What is to be shown. *)
Definition viewSeat (h : option ChainHand) (i : nat) (s : option ChainSeat) : PlayerSeatState :=
  let s := default (mkChainSeat EmptyString 0 0) s in
  let flag (l : ChainHand → list bool) := match h with Some h => rd false (l h) i | None => false end in
  mkSeat (Z.of_nat i) s.(cs_player) (pretty s.(cs_stack)) (pretty s.(cs_bond)) (flag ch_inHand) (flag ch_folded) (flag ch_allIn).
Definition viewHand (h : ChainHand) : PlayerHandState :=
  mkHand (pretty h.(ch_id)) h.(ch_phase) h.(ch_action) h.(ch_button) h.(ch_small) h.(ch_big) h.(ch_deadline) (pretty (sumZ h.(ch_total))) h.(ch_board) h.(ch_street).
Definition viewTable (t : ChainTable) : PlayerTableState :=
  mkTable (pretty t.(ct_id))
    (mkParams t.(ct_max) (pretty t.(ct_small)) (pretty t.(ct_big)) (pretty t.(ct_min)) (pretty t.(ct_maxBuy)) (CoordConfig.nonEmpty t.(ct_hash)) (CoordConfig.nonEmpty t.(ct_salt)))
    (imap (viewSeat t.(ct_hand)) t.(ct_seats)) (viewHand <$> t.(ct_hand)).

(** Nine seats, flags for each of them, a board of cards. *)
Record chain_table (t : ChainTable) : Prop := {
  ct_nine : length t.(ct_seats) = 9%nat;
  ct_flags : ∀ h, t.(ct_hand) = Some h → length h.(ch_inHand) = 9%nat ∧ length h.(ch_folded) = 9%nat ∧ length h.(ch_allIn) = 9%nat;
  ct_cards : ∀ h, t.(ct_hand) = Some h → Forall (λ c, 0 <= c <= 51) h.(ch_board)
}.

Lemma commits_ok l : mapR commitValue (map num64 l) = Ok l.
Proof.
  induction l as [|z l IH]; [done|]. cbn [map mapR]. unfold commitValue at 1, num64 at 1, CoordConfig.orString.
  rewrite bool_decide_false by apply pretty_nonempty. rewrite stringToBigInt_pretty. cbn [rbind]. by rewrite IH.
Qed.

Lemma board_ok l : Forall (λ c, 0 <= c <= 51) l → List.filter (λ c, (0 <=? c) && (c <=? 51)) (omap jsNumber (map JNum l)) = l.
Proof.
  induction 1 as [|c l Hc _ IH]; [done|]. cbn [map omap list_omap jsNumber List.filter].
  rewrite (proj2 (Z.leb_le 0 c)), (proj2 (Z.leb_le c 51)) by lia. cbn [andb]. by f_equal.
Qed.

Lemma parseHand_ok camel h : Forall (λ c, 0 <= c <= 51) h.(ch_board) → parseHand (renderHand camel h) (sumZ h.(ch_total)) = viewHand h.
Proof.
  intros Hb. unfold parseHand, viewHand. 
  change (elems (field (renderHand camel h) "board")) with (elems (field (renderHand camel h) "board")).
  assert (Eb : field (renderHand camel h) "board" = JArr (map JNum (ch_board h))) by (destruct camel; reflexivity).
  assert (Ed : number (renderHand camel h) ["actionDeadline"; "action_deadline"; "deadline"] 0 = ch_deadline h).
  { unfold number. assert (first (renderHand camel h) ["actionDeadline"; "action_deadline"; "deadline"] = JStr (pretty (ch_deadline h))) as -> by (destruct camel; reflexivity).
    cbn [jsNumber]. by rewrite stringToBigInt_pretty. }
  rewrite Eb, Ed. cbn [elems]. rewrite board_ok by done. destruct camel; reflexivity.
Qed.

Lemma parseSeat_ok camel (h : option ChainHand) i s :
  (∀ h', h = Some h' → (i < length h'.(ch_inHand))%nat ∧ (i < length h'.(ch_folded))%nat ∧ (i < length h'.(ch_allIn))%nat) →
  let rawHand := match h with Some h => renderHand camel h | None => JNull end in
  parseSeat (elems (first rawHand ["inHand"; "in_hand"])) (elems (field rawHand "folded")) (elems (first rawHand ["allIn"; "all_in"])) i (renderSeat s) = viewSeat h i s.
Proof.
  intros Hlen. assert (Hseat : ∀ k, k = "inHand" ∨ k = "folded" ∨ k = "allIn" → field (orElse (renderSeat s) (JObj [])) k = JUndefined) by (intros k [->|[->| ->]]; by destruct s).
  cbv zeta. unfold parseSeat, viewSeat. rewrite !Hseat by auto.
  assert (Hstr : str (orElse (renderSeat s) (JObj [])) ["player"] EmptyString = cs_player (default (mkChainSeat EmptyString 0 0) s) ∧
    str (orElse (renderSeat s) (JObj [])) ["stack"] "0" = pretty (cs_stack (default (mkChainSeat EmptyString 0 0) s)) ∧
    str (orElse (renderSeat s) (JObj [])) ["bond"] "0" = pretty (cs_bond (default (mkChainSeat EmptyString 0 0) s))) by (destruct s; done).
  destruct Hstr as (-> & -> & ->). destruct h as [h'|]; [|done]. destruct (Hlen h' eq_refl) as (H1 & H2 & H3).
  assert (Hflag : ∀ l, (i < length l)%nat → parseTableBool (orElse (rd JUndefined (map JBool l) i) JUndefined) = rd false l i).
  { intros l Hi. destruct (lookup_lt_is_Some_2 l i Hi) as [b Hb]. rewrite (rd_lookup false _ _ _ Hb), (rd_lookup _ _ _ (JBool b)); [done|].
    change (map JBool l) with (JBool <$> l). by rewrite list_lookup_fmap, Hb. }
  f_equal; rewrite <-Hflag by done; destruct camel; reflexivity.
Qed.

(** Round trip: what the chain's gateway writes of a table, in either
    spelling of the names, is what the client shows: every seat with its stack
    and flags, the pot as the sum of the commitments, the board. *)
Theorem table_read camel t : chain_table t → parsePlayerTable (renderTable camel t) = Ok (Some (viewTable t)).
Proof.
  intros [Hn Hf Hc]. unfold parsePlayerTable. cbn [isObject renderTable negb].
  change (str _ ["id"; "tableId"] EmptyString) with (pretty (ct_id t)). rewrite trimmed_pretty, bool_decide_false by apply pretty_nonempty. cbv zeta.
  set (raw := renderTable camel t). assert (Eh : field raw "hand" = match ct_hand t with Some h => renderHand camel h | None => JNull end) by done. rewrite !Eh.
  assert (Es : elems (field raw "seats") = map renderSeat (ct_seats t)) by done. rewrite !Es, take_ge by (rewrite length_map; lia).
  set (rawHand := match ct_hand t with Some h => _ | None => _ end).
  assert (Eseats : imap (parseSeat (elems (first rawHand ["inHand"; "in_hand"])) (elems (field rawHand "folded")) (elems (first rawHand ["allIn"; "all_in"]))) (map renderSeat (ct_seats t)) =
    imap (viewSeat (ct_hand t)) (ct_seats t)).
  { change (map renderSeat (ct_seats t)) with (renderSeat <$> ct_seats t). rewrite imap_fmap. apply imap_ext. intros i s Hi. apply (parseSeat_ok camel). intros h Hh.
    apply lookup_lt_Some in Hi. destruct (Hf h Hh) as (-> & -> & ->). lia. }
  rewrite Eseats, length_imap, Hn. change (map emptySeat (seq 9 (9 - 9))) with (@nil PlayerSeatState). rewrite app_nil_r.
  assert (Eparams : ∀ ps, ps = orElse (field raw "params") (JObj []) → number ps ["maxPlayers"; "max_players"] 9 = ct_max t ∧ str ps ["smallBlind"; "small_blind"] "0" = pretty (ct_small t) ∧
    str ps ["bigBlind"; "big_blind"] "0" = pretty (ct_big t) ∧ str ps ["minBuyIn"; "min_buy_in"] "0" = pretty (ct_min t) ∧ str ps ["maxBuyIn"; "max_buy_in"] "0" = pretty (ct_maxBuy t) ∧
    password ps ["passwordHash"; "password_hash"] = CoordConfig.nonEmpty (ct_hash t) ∧ password ps ["passwordSalt"; "password_salt"] = CoordConfig.nonEmpty (ct_salt t)).
  { intros ps ->. destruct camel; repeat split. }
  destruct (Eparams _ eq_refl) as (-> & -> & -> & -> & -> & -> & ->). unfold viewTable.
  destruct (ct_hand t) as [h|] eqn:Et; subst rawHand; [|done].
  assert (Ec : elems (first (renderHand camel h) ["totalCommit"; "total_commit"]) = map num64 (ch_total h)) by (destruct camel; reflexivity).
  rewrite Ec, commits_ok. cbn [rbind]. change (truthy (renderHand camel h)) with true. cbv iota. rewrite parseHand_ok by by apply Hc. done.
Qed.

Definition toy_table : ChainTable :=
  mkChainTable 7 9 1 2 100 1000 "aGFzaA==" EmptyString (Some (mkChainSeat "ocp1a" 940 0) :: None :: Some (mkChainSeat "ocp1b" 980 5) :: replicate 6 None)
    (Some (mkChainHand 3 "HAND_PHASE_BETTING" "STREET_FLOP" 0 0 2 2 (true :: false :: true :: replicate 6 false) (replicate 9 false) (replicate 9 false)
             (60 :: 0 :: 20 :: replicate 6 0) [0; 13; 51] 1700000000)).

Lemma table_read_witness : parsePlayerTable (renderTable false toy_table) = Ok (Some (viewTable toy_table)) ∧ pot <$> (viewTable toy_table).(hand) = Some "80".
Proof.
  split; [|reflexivity]. apply (table_read false). split; [reflexivity|intros h [= <-]; done|intros h [= <-]].
  apply (bool_decide_unpack _). vm_compute. exact I.
Defined.

(** ** The verification *)

Definition seats_agree (a b : PlayerSeatState) : Prop := a.(player) = b.(player) ∧ a.(stack) = b.(stack) ∧ a.(bond) = b.(bond).
Definition hands_agree (a b : option PlayerHandState) : Prop :=
  match a, b with
  | Some a, Some b => a.(handId) = b.(handId) ∧ a.(phase) = b.(phase) ∧ a.(actionOn) = b.(actionOn) ∧ a.(buttonSeat) = b.(buttonSeat) ∧ a.(pot) = b.(pot) ∧ a.(board) = b.(board)
  | None, None => True
  | _, _ => False
  end.
Definition agree (a b : PlayerTableState) : Prop := Forall (λ s, seats_agree s.1 s.2) (zip a.(seats) b.(seats)) ∧ hands_agree a.(hand) b.(hand).

Lemma mismatchOn_nil d p a b : mismatchOn d p a b = [] ↔ d = false.
Proof. by destruct d. Qed.
Lemma strMismatch_nil p a b : strMismatch p a b = [] ↔ a = b.
Proof. unfold strMismatch. rewrite mismatchOn_nil, negb_false_iff. apply bool_decide_eq_true. Qed.

Lemma seatMismatches_nil i a b : seatMismatches i a b = [] ↔ seats_agree a b.
Proof. unfold seatMismatches, seats_agree. rewrite !app_nil, mismatchOn_nil, !strMismatch_nil, negb_false_iff, bool_decide_eq_true. tauto. Qed.

Lemma handMismatches_nil a b : handMismatches a b = [] ↔ hands_agree (Some a) (Some b).
Proof.
  unfold handMismatches, hands_agree. rewrite !app_nil, !mismatchOn_nil, !strMismatch_nil, !negb_false_iff, !Z.eqb_eq, bool_decide_eq_true.
  assert (joined a.(board) = joined b.(board) ↔ a.(board) = b.(board)) as ->; [|tauto]. split; [apply join_inj|by intros ->].
Qed.

Lemma concat_imap_nil {A B} (f : nat → A → list B) (Q : A → Prop) l : (∀ i x, f i x = [] ↔ Q x) → concat (imap f l) = [] ↔ Forall Q l.
Proof.
  intros Hf. assert (Hg : ∀ i x, f i x = [] ↔ Q x) by done. clear Hf. revert f Hg. induction l as [|x l IH]; intros f Hg; [by split|].
  rewrite imap_cons. cbn [concat]. rewrite app_nil, Forall_cons, Hg. by rewrite (IH (f ∘ S)) by (intros i y; apply Hg).
Qed.

Lemma compareFields_nil a b : compareFields a b = [] ↔ agree a b.
Proof.
  unfold compareFields, agree. rewrite app_nil, (concat_imap_nil _ (λ s, seats_agree s.1 s.2)) by (intros i s; apply seatMismatches_nil).
  destruct (hand a), (hand b); rewrite ?handMismatches_nil; cbn; (split; intros [H1 H2]; split; done).
Qed.

(** What the badge tells of the inputs. *)
Definition tells (inp : Inputs) (v : Verifier) : Prop :=
  match v.(vf_status) with
  | v_idle => inp.(in_playerTable) = None ∨ inp.(in_enabled) = false ∨ truthy inp.(in_coordinatorRawTable) = false
  | v_error => ∀ t, parsePlayerTable inp.(in_coordinatorRawTable) ≠ Ok (Some t)
  | v_verified => ∃ pt cp, inp.(in_playerTable) = Some pt ∧ parsePlayerTable inp.(in_coordinatorRawTable) = Ok (Some cp) ∧ agree cp pt ∧ v.(vf_mismatches) = []
  | v_pending | v_mismatch => ∃ pt cp, inp.(in_playerTable) = Some pt ∧ parsePlayerTable inp.(in_coordinatorRawTable) = Ok (Some cp) ∧ ¬ agree cp pt ∧
      inp.(in_enabled) = true ∧ truthy inp.(in_coordinatorRawTable) = true ∧
      if v.(vf_status) is v_mismatch then v.(vf_mismatches) = compareFields cp pt else v.(vf_retry) = true ∧ v.(vf_failures) = 1%nat
  end.

Lemma runComparison_tells now inp v : tells inp (runComparison now inp v).
Proof.
  unfold runComparison, tells. destruct (in_playerTable inp) as [pt|] eqn:Ep; [|by left]. destruct (in_enabled inp) eqn:Ee; cbn [negb orb]; [|by right; left].
  destruct (truthy _) eqn:Er; cbn [negb]; [|by right; right]. destruct (parsePlayerTable _) as [[cp|]|msg] eqn:Ec; [|done..].
  destruct (compareFields cp pt) as [|m ms] eqn:Em.
  - exists pt, cp. split; [done|]. split; [done|]. split; [by apply compareFields_nil|done].
  - assert (Hno : ¬ agree cp pt) by (rewrite <-compareFields_nil, Em; done). destruct (vf_failures v) as [|k]; cbn; exists pt, cp; done.
Qed.

(** The life of the hook: new inputs, the timer, the button. *)
Inductive VerifyStep := NewInputs (now : Z) (inp : Inputs) | RetryFires (now : Z) | VerifyCalled (now : Z).
Definition stepVerify (e : VerifyStep) (s : Inputs * Verifier) : Inputs * Verifier :=
  let '(inp, v) := s in
  match e with
  | NewInputs now inp => (inp, onInputs now inp v)
  | RetryFires now => (inp, onRetryTimer now inp v)
  | VerifyCalled now => (inp, verify now inp v)
  end.
Definition runVerify (es : list VerifyStep) (s : Inputs * Verifier) : Inputs * Verifier := foldl (λ s e, stepVerify e s) s es.

(** The badge of the verification tells the truth: through any sequence of
    new inputs, retries and clicks, "verified" is shown only when the
    coordinator's table parses and agrees with the chain's in every compared
    field, a mismatch only with the list of fields in which they differ, an
    error only when the table does not parse; and a pending verification has its
    retry scheduled, which settles it. *)
Theorem badge_tells now0 inp0 es :
  let '(inp, v) := runVerify es (inp0, onInputs now0 inp0 newVerifier) in
  tells inp v ∧
  (v.(vf_status) = v_pending → ∀ now, let v' := onRetryTimer now inp v in v'.(vf_status) = v_mismatch ∧ v'.(vf_mismatches) ≠ []).
Proof.
  assert (Htells : ∀ es s, tells s.1 s.2 → tells (runVerify es s).1 (runVerify es s).2).
  { intros l. induction l as [|e l IH]; intros [inp v] Hs; [done|]. apply IH. destruct e as [now inp'|now|now]; cbn [stepVerify fst snd]; try apply runComparison_tells.
    unfold onRetryTimer. destruct (vf_retry v); [apply runComparison_tells|done]. }
  specialize (Htells es (inp0, onInputs now0 inp0 newVerifier) (runComparison_tells _ _ _)). destruct (runVerify _ _) as [inp v]. cbn [fst snd] in Htells.
  split; [done|]. intros Hp now. unfold tells in Htells. rewrite Hp in Htells. destruct Htells as (pt & cp & Ept & Ecp & Hno & Een & Etr & Hretry & Hf).
  unfold onRetryTimer. rewrite Hretry. unfold runComparison. rewrite Ept, Een, Etr, Ecp. cbn [negb orb]. cbn [clearRetry vf_failures]. rewrite Hf.
  destruct (compareFields cp pt) as [|m ms] eqn:Em; [by destruct Hno; apply compareFields_nil|]. done.
Qed.

End WebTablesThms.
