(* ===== verification/WebKeys.v ===== *)
(** * The player's keys and passwords in the web client:
      [apps/web/src/lib/playerKeys.ts], [keyEncryption.ts],
      [lib/passwordDigest.ts] and [lib/identicon.ts]

    The key that opens the hole cards lives in the browser's storage, as 64
    bytes in base64 or, after the player has set a passphrase, encrypted.  The
    derivation of keys and the cipher are those of [crypto.subtle], parameters
    here; what [getRandomValues] gives is an argument. *)
From stdpp Require Import base option list strings gmap.
From Stdlib Require Import ZArith Lia Ascii.
From S2P Require Import Prelude OcpBytes OcpGroup OcpTranscript Json JsonText CoordConfig TextCodec JsStrings.
Import Bytes Group Hashing Json JsonText TextCodec CoordConfig.

Module WebKeys.

#[local] Open Scope string_scope.
#[local] Open Scope list_scope.
#[local] Open Scope Z_scope.

(** ** Base64 of [lib/utils.ts] *)

Definition uint8ToBase64 (bs : bytes) : string := text (toBase64 bs).
Definition base64ToUint8 (raw : option string) : option bytes :=
  match raw with Some s => if bool_decide (s = EmptyString) then None else atob (chars s) | None => None end.

Definition PLAYER_SK_KEY_PREFIX : string := "ocp.web.skPlayer".
Definition LEGACY_PK_KEY_PREFIX : string := "ocp.web.pkPlayer".
Definition skKey (address : string) : string := PLAYER_SK_KEY_PREFIX +:+ (":" +:+ address).
Definition legacyPkKey (address : string) : string := LEGACY_PK_KEY_PREFIX +:+ (":" +:+ address).

Abbreviation Storage := (gmap string string).

(** [parsed && parsed.version === 1 && typeof ... === "string" && ...] *)
Definition isText (j : json) : bool := match j with JStr _ => true | _ => false end.
Definition isEncryptedBundle (raw : string) : bool :=
  match parse (chars raw) with
  | Some parsed => (match field parsed "version" with JNum z => z =? 1 | _ => false end)
                   && isText (field parsed "salt") && isText (field parsed "iv") && isText (field parsed "ciphertext")
  | None => false
  end.

Inductive KeyState := ks_unlocked | ks_locked.

Section keys.
Context {P : Type} `{RistrettoOps P}.
Context {Key : Type} (deriveKey : bytes → bytes → Key) (gcmEncrypt : Key → bytes → bytes → bytes) (gcmDecrypt : Key → bytes → bytes → option bytes).

Record PlayerKeys := mkKeys { pk_sk : Z; pk_pk : bytes }.

Definition keysFromEntropy (entropy : bytes) : res PlayerKeys :=
  let! scalar := scalarFromBytesModOrder entropy in
  let! pt := mulBase (P := P) scalar in
  Ok (mkKeys scalar (groupElementToBytes pt)).

(** ** keyEncryption.ts *)

Definition encryptEntropy (salt iv entropy : bytes) (passphrase : string) : json :=
  JObj [("version", JNum 1); ("salt", JStr (uint8ToBase64 salt)); ("iv", JStr (uint8ToBase64 iv));
        ("ciphertext", JStr (uint8ToBase64 (gcmEncrypt (deriveKey (utf8 passphrase) salt) iv entropy)))].

(** [atob] of a field. *)
Definition bundleBytes (bundle : json) (k : string) : res bytes :=
  match atob (chars (toStr (field bundle k))) with Some bs => Ok bs | None => Err "InvalidCharacterError" end.

Definition decryptEntropy (bundle : json) (passphrase : string) : res bytes :=
  let! salt := bundleBytes bundle "salt" in
  let! iv := bundleBytes bundle "iv" in
  let! ciphertext := bundleBytes bundle "ciphertext" in
  match gcmDecrypt (deriveKey (utf8 passphrase) salt) iv ciphertext with Some plaintext => Ok plaintext | None => Err "OperationError" end.

Definition parseBundle (raw : string) : res json := match parse (chars raw) with Some j => Ok j | None => Err "SyntaxError" end.

(** ** playerKeys.ts *)

(** [entropy]: the random bytes, if they are needed. *)
Definition getPlayerKeysSync (entropy : bytes) (address : string) (st : Storage) : res (PlayerKeys * KeyState) * Storage :=
  let key := skKey address in
  let stored := st !! key in
  let unlocked e := let! k := keysFromEntropy e in Ok (k, ks_unlocked) in
  let locked := match stored with Some s => negb (bool_decide (s = EmptyString)) && isEncryptedBundle s | None => false end in
  if locked then (Ok (mkKeys 0 [], ks_locked), st)
  else
    let fresh :=
      let legacyKey := legacyPkKey address in
      let st := match st !! legacyKey with Some l => if bool_decide (l = EmptyString) then st else delete legacyKey st | None => st end in
      (unlocked entropy, <[key := uint8ToBase64 entropy]> st) in
    match base64ToUint8 stored with
    | Some existing => if (length existing =? 64)%nat then (unlocked existing, st) else fresh
    | None => fresh
    end.

Definition unlockPlayerKeys (address passphrase : string) (st : Storage) : res PlayerKeys :=
  match st !! skKey address with
  | Some stored =>
      if bool_decide (stored = EmptyString) || negb (isEncryptedBundle stored) then Err "Key is not encrypted"
      else
        let! bundle := parseBundle stored in
        let! entropy := decryptEntropy bundle passphrase in
        keysFromEntropy entropy
  | None => Err "Key is not encrypted"
  end.

Definition protectPlayerKeys (salt iv : bytes) (address passphrase : string) (st : Storage) : res unit * Storage :=
  match st !! skKey address with
  | Some stored =>
      if bool_decide (stored = EmptyString) || isEncryptedBundle stored then (Err "Key is already encrypted or not found", st)
      else
        match base64ToUint8 (Some stored) with
        | Some entropy =>
            if negb (length entropy =? 64)%nat then (Err "Invalid key material", st)
            else (Ok tt, <[skKey address := text (stringify false (encryptEntropy salt iv entropy passphrase))]> st)
        | None => (Err "Invalid key material", st)
        end
  | None => (Err "Key is already encrypted or not found", st)
  end.

Definition getPlayerKeysForAddress (entropy : bytes) (address : string) (st : Storage) : res PlayerKeys * Storage :=
  let '(r, st) := getPlayerKeysSync entropy address st in
  (let! r := r in match snd r with ks_locked => Err "Keys are encrypted" | ks_unlocked => Ok (fst r) end, st).
End keys.

(** ** passwordDigest.ts *)

Section password.
Context `{HashOps}.

(** [atob] throws on what is not base64. *)
Definition computePasswordProof (saltB64 : option string) (password : string) : res bytes :=
  let salt := match saltB64 with
              | Some s => if bool_decide (s = EmptyString) then Some [] else atob (chars s)
              | None => Some []
              end in
  match salt with Some salt => Ok (sha256 (salt ++ utf8 password)) | None => Err "InvalidCharacterError" end.

(** [salt]: 32 random bytes. *)
Definition generatePasswordCommitment (salt : bytes) (password : string) : bytes * bytes := (salt, sha256 (salt ++ utf8 password)).
End password.

(** ** identicon.ts *)

Definition int32 (z : Z) : Z := (z + 2 ^ 31) mod 2 ^ 32 - 2 ^ 31.
Definition uint32 (z : Z) : Z := z mod 2 ^ 32.

Definition fnvStep (h : Z) (c : ascii) : Z := int32 (int32 (Z.lxor (int32 h) (Z.of_nat (nat_of_ascii c))) * 0x01000193).
Definition fnv1a (s : string) : Z := uint32 (foldl fnvStep 0x811c9dc5 (chars s)).

(** The colour, and the cells that are painted, as columns and rows. *)
Definition hue (address : string) : Z := Z.rem (fnv1a address) 360.
Definition sat (address : string) : Z := 50 + Z.rem (Z.shiftr (int32 (fnv1a address)) 8) 30.
Definition lum (address : string) : Z := 45 + Z.rem (Z.shiftr (int32 (fnv1a address)) 16) 20.

Definition cells (address : string) : list (Z * Z) :=
  let bits := fnv1a (address +:+ "salt") in
  flat_map (λ row, flat_map (λ col,
    if Z.land (Z.shiftr (int32 bits) (row * 3 + col)) 1 =? 0 then [] else [(col, row); (4 - col, row)]) [0; 1; 2]) [0; 1; 2; 3; 4].

Example fnv_empty : fnv1a EmptyString = 0x811c9dc5 ∧ fnv1a "a" = 0xe40c292c.
Proof. by split; vm_compute. Qed.

End WebKeys.

(** ** The player's keys outlive the passphrase

    Protecting the stored bytes and unlocking them gives the keys that they
    gave before; a password's proof is the commitment of the table. *)
Import Bytes Group Hashing Json JsonText JsonTextThms TextCodec CoordConfig JsStrings WebKeys.

Module WebKeysThms.

#[local] Open Scope string_scope.
#[local] Open Scope list_scope.
#[local] Open Scope Z_scope.

(** ** What is stored *)

Lemma keyChars_text l : chars (text l) = l.
Proof. apply string_list_ascii. Qed.

Lemma base64_back bs : Forall isByte bs → bs ≠ [] → base64ToUint8 (Some (uint8ToBase64 bs)) = Some bs.
Proof.
  intros Hb Hne. unfold base64ToUint8, uint8ToBase64. rewrite bool_decide_false.
  - by rewrite keyChars_text, atob_toBase64.
  - intros E. apply (f_equal chars) in E. rewrite keyChars_text in E. pose proof (atob_toBase64 bs Hb) as Ha. rewrite E in Ha. injection Ha as Ha. by symmetry in Ha.
Qed.

(** An object's text begins with a brace. *)
Lemma parse_object fuel l fields r : parseValue fuel l = Some (JObj fields, r) → ∃ l', skipWs l = "{"%char :: l'.
Proof.
  destruct fuel as [|fuel]; [done|]. cbn [parseValue]. destruct (skipWs l) as [|c l']; [done|].
  destruct (Ascii.eqb_spec c "{") as [->|Hne]; [by eexists|]. intros H. exfalso.
  assert (Hn : ∀ (x : option (Z * list ascii)), ('(n, r) ← x; Some (JNum n, r)) ≠ Some (JObj fields, r)) by (intros [[]|]; done).
  assert (Hs : ∀ (x : option (list ascii * list ascii)), ('(cs, l) ← x; Some (JStr (String.string_of_list_ascii cs), l)) ≠ Some (JObj fields, r)) by (intros [[]|]; done).
  assert (Ha : ∀ (x : option (list json * list ascii)), ('(vs, l) ← x; Some (JArr vs, l)) ≠ Some (JObj fields, r)) by (intros [[]|]; done).
  revert H. set (d := if Ascii.eqb c quoteMark then _ else _).
  assert (Hd : d ≠ Some (JObj fields, r)) by (unfold d; destruct (Ascii.eqb c quoteMark); [apply Hs|apply Hn]). clearbody d.
  destruct c as [b0 b1 b2 b3 b4 b5 b6 b7]. repeat (match goal with |- context [match ?b with true => _ | false => _ end] => is_var b; destruct b end; try exact Hd).
  { done. }
  all: repeat (case_match; try exact Hd; try apply Ha; try done); by try apply Ha.
Qed.

Lemma toBase64_quiet bs : Forall isByte bs → Forall (λ c, isWs c = false ∧ c ≠ "{"%char) (toBase64 bs).
Proof.
  intros Hb. unfold toBase64. rewrite padding_pads. apply Forall_app. split; [|by apply Forall_replicate].
  apply Forall_map. eapply Forall_impl; [by apply encode_sextets|]. intros v Hv.
  pose proof (below (λ v, negb (isWs (b64Char v)) && negb (Ascii.eqb (b64Char v) "{")) 64 v eq_refl Hv) as [H1 H2]%andb_prop.
  rewrite negb_true_iff in H1, H2. split; [done|]. intros E. by rewrite E in H2.
Qed.

Lemma base64_not_bundle bs : Forall isByte bs → isEncryptedBundle (uint8ToBase64 bs) = false.
Proof.
  intros Hb. unfold isEncryptedBundle, uint8ToBase64. rewrite keyChars_text. destruct (parse (toBase64 bs)) as [j|] eqn:E; [|done].
  enough (field j "version" = JUndefined) as -> by done. destruct j; try done. exfalso. unfold parse in E.
  destruct (parseValue _ _) as [[j l]|] eqn:Ev; [|done]. case_match; [|done]. injection E as ->. apply parse_object in Ev as [l' Hl'].
  apply toBase64_quiet in Hb. destruct Hb as [|c l0 [Hc Hne] _]; [done|]. cbn [skipWs] in Hl'. unfold isWs in Hc. rewrite Hc in Hl'. by injection Hl' as ->.
Qed.

Lemma keys_apart address : skKey address ≠ legacyPkKey address.
Proof. intros E. apply (f_equal chars) in E. by vm_compute in E. Qed.

Section keys.
Context {P : Type} `{RistrettoOps P}.
Context {Key : Type} (deriveKey : bytes → bytes → Key) (gcmEncrypt : Key → bytes → bytes → bytes) (gcmDecrypt : Key → bytes → bytes → option bytes).
(** What AES-GCM promises. *)
Hypothesis gcm_ok : ∀ k iv plaintext, gcmDecrypt k iv (gcmEncrypt k iv plaintext) = Some plaintext.
Hypothesis gcm_bytes : ∀ k iv plaintext, Forall isByte plaintext → Forall isByte (gcmEncrypt k iv plaintext).

Lemma bundle_plain salt iv e pass : plain (encryptEntropy deriveKey gcmEncrypt salt iv e pass) = true.
Proof. done. Qed.

Lemma bundle_stored salt iv e pass :
  let raw := text (stringify false (encryptEntropy deriveKey gcmEncrypt salt iv e pass)) in
  isEncryptedBundle raw = true ∧ raw ≠ EmptyString ∧ parseBundle raw = Ok (encryptEntropy deriveKey gcmEncrypt salt iv e pass).
Proof.
  cbv zeta. unfold isEncryptedBundle, parseBundle. rewrite keyChars_text, parse_stringify by apply bundle_plain. split; [done|]. split; [done|done].
Qed.

Lemma decrypt_bundle salt iv e pass pass' : Forall isByte salt → Forall isByte iv → Forall isByte e →
  decryptEntropy deriveKey gcmDecrypt (encryptEntropy deriveKey gcmEncrypt salt iv e pass) pass' =
  match gcmDecrypt (deriveKey (utf8 pass') salt) iv (gcmEncrypt (deriveKey (utf8 pass) salt) iv e) with Some p => Ok p | None => Err "OperationError" end.
Proof.
  intros Hs Hi He. unfold decryptEntropy, bundleBytes.
  change (toStr (field (encryptEntropy deriveKey gcmEncrypt salt iv e pass) "salt")) with (uint8ToBase64 salt).
  change (toStr (field (encryptEntropy deriveKey gcmEncrypt salt iv e pass) "iv")) with (uint8ToBase64 iv).
  change (toStr (field (encryptEntropy deriveKey gcmEncrypt salt iv e pass) "ciphertext")) with (uint8ToBase64 (gcmEncrypt (deriveKey (utf8 pass) salt) iv e)).
  unfold uint8ToBase64. rewrite !keyChars_text, !atob_toBase64 by (done || by apply gcm_bytes). done.
Qed.

(** C30. The player's keys survive the passphrase: the keys that a first visit
    makes are those of every later visit; after protecting them a visit finds
    them locked, and the passphrase unlocks the same keys; a passphrase that
    does not decrypt is refused, keys are protected only once, and no other
    entry of the storage changes. *)
Theorem keys_survive address e salt iv pass st keys :
  length e = 64%nat → Forall isByte e → Forall isByte salt → Forall isByte iv → keysFromEntropy (P := P) e = Ok keys → st !! skKey address = None →
  let '(r1, st1) := getPlayerKeysSync (P := P) e address st in
  let '(r2, st2) := protectPlayerKeys deriveKey gcmEncrypt salt iv address pass st1 in
  r1 = Ok (keys, ks_unlocked) ∧ r2 = Ok tt ∧
  (∀ e', getPlayerKeysSync (P := P) e' address st1 = (Ok (keys, ks_unlocked), st1)) ∧
  (∀ e', getPlayerKeysSync (P := P) e' address st2 = (Ok (mkKeys 0 [], ks_locked), st2)) ∧
  unlockPlayerKeys (P := P) deriveKey gcmDecrypt address pass st2 = Ok keys ∧
  (∀ pass', gcmDecrypt (deriveKey (utf8 pass') salt) iv (gcmEncrypt (deriveKey (utf8 pass) salt) iv e) = None → is_ok (unlockPlayerKeys (P := P) deriveKey gcmDecrypt address pass' st2) = false) ∧
  (∀ salt' iv' pass', (protectPlayerKeys deriveKey gcmEncrypt salt' iv' address pass' st2).2 = st2) ∧
  (∀ k, k ≠ skKey address → k ≠ legacyPkKey address → st2 !! k = st !! k).
Proof.
  intros Hl He Hs Hi Hk Hnone. assert (Hne : e ≠ []) by by destruct e.
  set (st1 := <[skKey address := uint8ToBase64 e]> (match st !! legacyPkKey address with Some l => if bool_decide (l = EmptyString) then st else delete (legacyPkKey address) st | None => st end)).
  assert (E1 : getPlayerKeysSync (P := P) e address st = (Ok (keys, ks_unlocked), st1)).
  { unfold getPlayerKeysSync. rewrite Hnone. cbv beta iota zeta. cbn [base64ToUint8]. rewrite Hk. done. }
  rewrite E1. assert (Hst1 : st1 !! skKey address = Some (uint8ToBase64 e)) by apply lookup_insert_eq.
  assert (Hne1 : uint8ToBase64 e ≠ EmptyString). { intros E. pose proof (base64_back e He Hne) as Hb. rewrite E in Hb. by vm_compute in Hb. }
  set (raw := text (stringify false (encryptEntropy deriveKey gcmEncrypt salt iv e pass))). destruct (bundle_stored salt iv e pass) as (Hb1 & Hb2 & Hb3). fold raw in Hb1, Hb2, Hb3.
  assert (E2 : protectPlayerKeys deriveKey gcmEncrypt salt iv address pass st1 = (Ok tt, <[skKey address := raw]> st1)).
  { unfold protectPlayerKeys. rewrite Hst1, bool_decide_false, base64_not_bundle, base64_back, Hl by done. done. }
  rewrite E2. set (st2 := <[skKey address := raw]> st1). assert (Hst2 : st2 !! skKey address = Some raw) by apply lookup_insert_eq.
  assert (Hunlock : ∀ pass', unlockPlayerKeys (P := P) deriveKey gcmDecrypt address pass' st2 =
    let! entropy := match gcmDecrypt (deriveKey (utf8 pass') salt) iv (gcmEncrypt (deriveKey (utf8 pass) salt) iv e) with Some p => Ok p | None => Err "OperationError" end in keysFromEntropy entropy).
  { intros pass'. unfold unlockPlayerKeys. rewrite Hst2, Hb1, bool_decide_false by done. cbn [negb orb]. rewrite Hb3. cbn [rbind]. by rewrite decrypt_bundle. }
  split; [done|]. split; [done|]. split.
  { intros e'. unfold getPlayerKeysSync. rewrite Hst1, base64_not_bundle, andb_false_r, base64_back, Hl by done. cbv beta iota zeta. cbn [Nat.eqb]. by rewrite Hk. }
  split. { intros e'. unfold getPlayerKeysSync. rewrite Hst2, Hb1, bool_decide_false by done. done. }
  split. { rewrite Hunlock, gcm_ok. done. }
  split. { intros pass' Hbad. by rewrite Hunlock, Hbad. }
  split. { intros salt' iv' pass'. unfold protectPlayerKeys. rewrite Hst2, Hb1, orb_true_r. done. }
  intros k Hk1 Hk2. unfold st2, st1. rewrite !lookup_insert_ne by done. repeat case_match; try done. by rewrite lookup_delete_ne.
Qed.
End keys.

Ltac toy_bytes := unfold isByte; apply (bool_decide_unpack _); vm_compute; exact I.

(** ** Passwords *)

(** The proof of the password that a player computes from the table's salt is
    the commitment of the table's creator; without a salt it is the plain hash
    of older tables. *)
Theorem password_proof `{HashOps} salt pw : Forall isByte salt →
  let '(salt', commitment) := generatePasswordCommitment salt pw in
  salt' = salt ∧ computePasswordProof (Some (uint8ToBase64 salt')) pw = Ok commitment ∧
  computePasswordProof None pw = Ok (sha256 (utf8 pw)) ∧ computePasswordProof (Some EmptyString) pw = Ok (sha256 (utf8 pw)).
Proof.
  intros Hs. cbn. split; [done|]. split; [|done]. unfold computePasswordProof, uint8ToBase64. case_bool_decide as E.
  - apply (f_equal chars) in E. rewrite keyChars_text in E. pose proof (atob_toBase64 salt Hs) as Ha. rewrite E in Ha. injection Ha as <-. done.
  - by rewrite keyChars_text, atob_toBase64.
Qed.

Lemma password_proof_witness : computePasswordProof (H := Toy.toy_hash) (Some (uint8ToBase64 [7; 200; 9])) "hunter2" = Ok (snd (generatePasswordCommitment (H := Toy.toy_hash) [7; 200; 9] "hunter2")).
Proof. apply (password_proof (H := Toy.toy_hash) [7; 200; 9]). toy_bytes. Defined.

(** ** A witness for the keys: the residues, and a cipher with a tag *)

Import Residue.

Definition toyEncrypt (k iv p : bytes) : bytes := sumZ (k ++ iv) mod 256 :: p.
Definition toyDecrypt (k iv c : bytes) : option bytes := match c with t :: p => if t =? sumZ (k ++ iv) mod 256 then Some p else None | [] => None end.
Definition toyEntropy : bytes := 5 :: replicate 63 0.

Lemma keys_survive_witness :
  let st1 := (getPlayerKeysSync (P := Z) toyEntropy "ocp1a" ∅).2 in
  let st2 := (protectPlayerKeys (λ p s, p ++ s) toyEncrypt [1; 2] [3] "ocp1a" "open" st1).2 in
  unlockPlayerKeys (P := Z) (λ p s, p ++ s) toyDecrypt "ocp1a" "open" st2 = Ok (mkKeys 5 (encode 5)) ∧
  is_ok (unlockPlayerKeys (P := Z) (λ p s, p ++ s) toyDecrypt "ocp1a" "shut" st2) = false.
Proof.
  pose proof (keys_survive (P := Z) (λ p s, p ++ s) toyEncrypt toyDecrypt) as Hk.
  specialize (Hk ltac:(intros k iv p; unfold toyEncrypt, toyDecrypt; by rewrite Z.eqb_refl)).
  specialize (Hk ltac:(intros k iv p Hp; constructor; [by apply Z.mod_pos_bound|done])).
  specialize (Hk "ocp1a" toyEntropy [1; 2] [3] "open" ∅ (mkKeys 5 (encode 5)) eq_refl).
  specialize (Hk ltac:(toy_bytes) ltac:(toy_bytes) ltac:(toy_bytes) ltac:(by vm_compute) eq_refl).
  intros st1 st2. rewrite (surjective_pairing (getPlayerKeysSync _ _ _)) in Hk. cbv beta iota in Hk. fold st1 in Hk.
  rewrite (surjective_pairing (protectPlayerKeys _ _ _ _ _ _ st1)) in Hk. cbv beta iota in Hk. fold st2 in Hk.
  destruct Hk as (_ & _ & _ & _ & Hu & Hw & _). split; [exact Hu|apply Hw]. vm_compute. reflexivity.
Defined.

(** ** Identicons *)

(** Identicons are mirrored within the five by five grid; the saturation goes
    down to 21 and the lightness to 26. *)
Theorem identicon_mirrored address :
  (∀ col row, In (col, row) (cells address) → 0 <= col <= 4 ∧ 0 <= row <= 4 ∧ In (4 - col, row) (cells address)) ∧
  0 <= hue address < 360 ∧ 21 <= sat address <= 79 ∧ 26 <= lum address <= 64 ∧ sat "ocp1a" = 21.
Proof.
  assert (Hu : 0 <= fnv1a address < 2 ^ 32) by (apply Z.mod_pos_bound; lia). split; [|split; [|split; [|split; [|by vm_compute]]]].
  - intros col row (r & Hr & (c & Hc & Hin)%in_flat_map)%in_flat_map. cbn in Hr, Hc. destruct (_ =? 0) eqn:E in Hin; [done|].
    assert (Hcell : In (c, r) (cells address) ∧ In (4 - c, r) (cells address)).
    { split; apply in_flat_map; exists r; (split; [done|]); apply in_flat_map; exists c; (split; [done|]); rewrite E; [by left|by right; left]. }
    destruct Hcell as [H1 H2]. destruct Hin as [[= <- <-]|[[= <- <-]|[]]]; (split; [lia|]); (split; [lia|]); [done|]. by replace (4 - (4 - c)) with c by lia.
  - unfold hue. rewrite Z.rem_mod_nonneg by lia. apply Z.mod_pos_bound. lia.
  - unfold sat. pose proof (Z.rem_bound_abs (Z.shiftr (int32 (fnv1a address)) 8) 30). lia.
  - unfold lum. pose proof (Z.rem_bound_abs (Z.shiftr (int32 (fnv1a address)) 16) 20). lia.
Qed.

End WebKeysThms.
