(* ===== verification/SdkWire.v ===== *)
(** * The wire format under the generated messages

    The generated code writes and reads through [BinaryWriter] and
    [BinaryReader] of [@bufbuild/protobuf/wire].  They are the class [Wire]: a
    value of a primitive type to its bytes ([None] is an exception) and back,
    and [skip] over a field that is not known.  [WireLaws] are the library's
    documented promises: what is in range is read back as it was written and can be
    skipped, what is out of range is refused, and reading advances and gives
    values of the type of the method.
    [Varint] is an instance, on which the witnesses compute. *)
From stdpp Require Import base option list strings pretty.
From Stdlib Require Import ZArith Lia Ascii.
From S2P Require Import Prelude OcpBytes Json TextCodec JsonText JsStrings.
Import Bytes Json TextCodec JsStrings.

Module SdkWire.

#[local] Open Scope string_scope.
#[local] Open Scope list_scope.
#[local] Open Scope Z_scope.

(** ** Values *)

(** The values of the fields of a message: [VMsg] is an object, its fields in
    the order in which they were assigned; [VBig] is a [bigint]. *)
#[warnings="-register-all"]
Inductive value :=
| VUndefined | VStr (s : string) | VBig (z : Z) | VNum (z : Z) | VNaN | VBool (b : bool) | VBytes (bs : bytes)
| VList (vs : list value) | VMsg (fields : list (string * value)).

(** The methods of the writer and the reader. *)
Inductive kind := KString | KUint64 | KInt64 | KUint32 | KInt32 | KBool | KBytes.
#[export] Instance kind_eq_dec : EqDecision kind.
Proof. solve_decision. Defined.

(** The wire type of what the method writes: a varint, or its length and the
    bytes. *)
Definition wireType (k : kind) : Z := match k with KString | KBytes => 2 | _ => 0 end.

(** ** The library *)

Class Wire := {
  write : kind → value → option bytes;
  read : kind → bytes → option (value * bytes);
  skip : Z → bytes → option bytes
}.

Definition textBytes (s : string) : bytes := map byteOf (String.list_ascii_of_string s).

(** What the platform's [TextDecoder] gives back: text that does not begin
    with a byte order mark. *)
Definition textOk (s : string) : bool := let bs := textBytes s in isUtf8 bs && negb (startsWith3 239 187 191 bs).

(** The value of a string of decimal digits. *)
Definition decimals (s : string) : option Z := someDigits 10 (String.list_ascii_of_string s).

(** [canon k v r]: [v] can be written, and is read back as [r]. *)
Inductive canon : kind → value → value → Prop :=
| CString s : textOk s = true → Z.of_nat (length (textBytes s)) < 2 ^ 32 → canon KString (VStr s) (VStr s)
| CUint64 s n : decimals s = Some n → 0 <= n < 2 ^ 64 → canon KUint64 (VStr s) (VBig n)
| CInt64 n : - 2 ^ 63 <= n < 2 ^ 63 → canon KInt64 (VStr (pretty n)) (VBig n)
| CUint32 n : 0 <= n < 2 ^ 32 → canon KUint32 (VNum n) (VNum n)
| CInt32 n : - 2 ^ 31 <= n < 2 ^ 31 → canon KInt32 (VNum n) (VNum n)
| CBool b : canon KBool (VBool b) (VBool b)
| CBytes bs : Forall isByte bs → Z.of_nat (length bs) < 2 ^ 32 → canon KBytes (VBytes bs) (VBytes bs).

(** The type of what a method of the reader returns. *)
Definition hasKind (k : kind) (v : value) : bool :=
  match k, v with
  | KString, VStr _ | (KUint64 | KInt64), VBig _ | (KUint32 | KInt32), VNum _ | KBool, VBool _ | KBytes, VBytes _ => true
  | _, _ => false
  end.

(** The bytes of a value besides lengths and varints. *)
Definition payload (v : value) : Z :=
  match v with VStr s => Z.of_nat (length (textBytes s)) | VBytes bs => Z.of_nat (length bs) | _ => 0 end.

Class WireLaws `{Wire} : Prop := {
  write_canon k v r : canon k v r → ∃ bs, write k v = Some bs ∧ Z.of_nat (length bs) <= 10 + payload v ∧
    (∀ rest, read k (bs ++ rest) = Some (r, rest)) ∧ (∀ rest, skip (wireType k) (bs ++ rest) = Some rest);
  write_too_large s n : decimals s = Some n → 2 ^ 64 <= n → write KUint64 (VStr s) = None;
  write_uint32_range n h : write KUint32 (VNum n) = Some h → 0 <= n < 2 ^ 32;
  read_advances k bs v rest : read k bs = Some (v, rest) → (length rest < length bs)%nat;
  read_typed k bs v rest : read k bs = Some (v, rest) → hasKind k v = true;
  skip_advances w bs rest : skip w bs = Some rest → (length rest <= length bs)%nat;
  skip_delimited h c rest : write KUint32 (VNum (Z.of_nat (length c))) = Some h → skip 2 (h ++ c ++ rest) = Some rest
}.

(** ** Varints *)

Module Varint.

Fixpoint varint (fuel : nat) (n : Z) : bytes :=
  match fuel with
  | O => []
  | S fuel => if n <? 128 then [n] else (128 + n mod 128) :: varint fuel (n / 128)
  end.

Fixpoint readVarint (fuel : nat) (bs : bytes) : option (Z * bytes) :=
  match fuel, bs with
  | S fuel, b :: bs =>
      if b <? 128 then Some (b, bs)
      else '(v, rest) ← readVarint fuel bs; Some (b - 128 + 128 * v, rest)
  | _, _ => None
  end.

Arguments varint : simpl never.
Arguments readVarint : simpl never.

Definition within (lo hi n : Z) : option Z := if (lo <=? n) && (n <? hi) then Some n else None.
Definition delimited (bs : bytes) : option bytes :=
  n ← within 0 (2 ^ 32) (Z.of_nat (length bs)); Some (varint 10 n ++ bs).

Definition writeV (k : kind) (v : value) : option bytes :=
  match k, v with
  | KString, VStr s => delimited (textBytes s)
  | KBytes, VBytes bs => delimited bs
  | KUint64, VStr s => n ← decimals s; n ← within 0 (2 ^ 64) n; Some (varint 10 n)
  | KInt64, VStr s => n ← stringToBigInt s; n ← within (- 2 ^ 63) (2 ^ 63) n; Some (varint 10 (n mod 2 ^ 64))
  | KUint32, VNum n => n ← within 0 (2 ^ 32) n; Some (varint 10 n)
  | KInt32, VNum n => n ← within (- 2 ^ 31) (2 ^ 31) n; Some (varint 10 (n mod 2 ^ 64))
  | KBool, VBool b => Some [if b then 1 else 0]
  | _, _ => None
  end.

Definition signed (bits n : Z) : Z := let n := n mod 2 ^ bits in if n <? 2 ^ (bits - 1) then n else n - 2 ^ bits.

Definition readDelimited (bs : bytes) : option (bytes * bytes) :=
  '(n, rest) ← readVarint 10 bs;
  let n := Z.to_nat n in
  if (n <=? length rest)%nat then Some (take n rest, drop n rest) else None.

Definition readV (k : kind) (bs : bytes) : option (value * bytes) :=
  match k with
  | KString => '(s, rest) ← readDelimited bs; Some (VStr (String.string_of_list_ascii (map charOf (dropBom s))), rest)
  | KBytes => '(s, rest) ← readDelimited bs; Some (VBytes s, rest)
  | KUint64 => '(n, rest) ← readVarint 10 bs; Some (VBig (n mod 2 ^ 64), rest)
  | KInt64 => '(n, rest) ← readVarint 10 bs; Some (VBig (signed 64 n), rest)
  | KUint32 => '(n, rest) ← readVarint 10 bs; Some (VNum (n mod 2 ^ 32), rest)
  | KInt32 => '(n, rest) ← readVarint 10 bs; Some (VNum (signed 32 n), rest)
  | KBool => '(n, rest) ← readVarint 10 bs; Some (VBool (negb (n =? 0)), rest)
  end.

Definition skipV (w : Z) (bs : bytes) : option bytes :=
  if w =? 0 then snd <$> readVarint 10 bs
  else if w =? 1 then if (8 <=? length bs)%nat then Some (drop 8 bs) else None
  else if w =? 2 then snd <$> readDelimited bs
  else if w =? 5 then if (4 <=? length bs)%nat then Some (drop 4 bs) else None
  else None.

#[export] Instance varint_wire : Wire := {| write := writeV; read := readV; skip := skipV |}.

Lemma readVarint_varint fuel n rest : (0 < fuel)%nat → 0 <= n < 128 ^ Z.of_nat fuel → readVarint fuel (varint fuel n ++ rest) = Some (n, rest).
Proof.
  revert n. induction fuel as [|fuel IH]; intros n Hf Hn; [lia|]. unfold varint; fold varint. destruct (n <? 128) eqn:E; cbn [app]; unfold readVarint; fold readVarint.
  - by rewrite E.
  - b2p. pose proof (Z.mod_pos_bound n 128 ltac:(lia)). rewrite (proj2 (Z.ltb_ge _ _)) by lia.
    rewrite Nat2Z.inj_succ, Z.pow_succ_r in Hn by lia. assert (0 < fuel)%nat by (destruct fuel; [cbn in Hn; lia|lia]).
    rewrite IH by (done || (split; [apply Z.div_pos; lia|apply Z.div_lt_upper_bound; lia])).
    cbn. f_equal. f_equal. pose proof (Z.div_mod n 128). lia.
Qed.

Lemma varint_length fuel n : (length (varint fuel n) <= fuel)%nat.
Proof. revert n. induction fuel as [|fuel IH]; intros n; unfold varint; fold varint; cbn [length]; [lia|]. case_goal; cbn [length]; [lia|]. specialize (IH (n / 128)). lia. Qed.

Lemma readVarint_advances fuel bs n rest : readVarint fuel bs = Some (n, rest) → (length rest < length bs)%nat.
Proof.
  revert bs n. induction fuel as [|fuel IH]; intros [|b bs] n; unfold readVarint; fold readVarint; try done. case_goal.
  - intros [= _ <-]. cbn. lia.
  - destruct (readVarint fuel bs) as [[v r]|] eqn:E; cbn; [|done]. intros [= _ <-]. apply IH in E. lia.
Qed.

Lemma readDelimited_delimited bs out rest : delimited bs = Some out → readDelimited (out ++ rest) = Some (bs, rest).
Proof.
  unfold delimited, within. case_goal; cbn; [|done]. intros [= <-]. b2p. unfold readDelimited. rewrite <-app_assoc, readVarint_varint by (lia || (cbn; lia)). cbn.
  rewrite Nat2Z.id, (proj2 (Nat.leb_le _ _)) by (rewrite length_app; lia). by rewrite take_app_length, drop_app_length.
Qed.

Lemma readDelimited_advances bs c rest : readDelimited bs = Some (c, rest) → (length rest < length bs)%nat.
Proof.
  unfold readDelimited. destruct (readVarint 10 bs) as [[n r]|] eqn:E; cbn; [|done]. apply readVarint_advances in E. case_goal; [|done].
  intros [= _ <-]. rewrite length_drop. lia.
Qed.

Lemma delimited_ok bs : Z.of_nat (length bs) < 2 ^ 32 → ∃ out, delimited bs = Some out ∧ Z.of_nat (length out) <= 10 + Z.of_nat (length bs).
Proof.
  intros Hb. unfold delimited, within. rewrite (proj2 (andb_true_iff _ _)) by (split; [apply Z.leb_le|apply Z.ltb_lt]; lia). cbn [mbind option_bind].
  eexists. split; [done|]. rewrite length_app. pose proof (varint_length 10 (Z.of_nat (length bs))). lia.
Qed.

Lemma within_ok lo hi n : lo <= n < hi → within lo hi n = Some n.
Proof. intros [H1 H2]. unfold within. rewrite (proj2 (andb_true_iff _ _)); [done|]. split; [by apply Z.leb_le|by apply Z.ltb_lt]. Qed.

Lemma signed_wrap bits n : 0 < bits <= 64 → - 2 ^ (bits - 1) <= n < 2 ^ (bits - 1) → signed bits (n mod 2 ^ 64) = n.
Proof.
  intros Hb Hn. unfold signed. assert (Hp : 2 ^ bits = 2 * 2 ^ (bits - 1)) by (rewrite <-Z.pow_succ_r by lia; f_equal; lia).
  assert (Hd : (2 ^ bits | 2 ^ 64)) by (exists (2 ^ (64 - bits)); rewrite <-Z.pow_add_r by lia; f_equal; lia).
  rewrite Z.mod_mod_divide by done. cbv zeta.
  destruct (Z.ltb_spec n 0).
  - replace (n mod 2 ^ bits) with (n + 2 ^ bits) by (apply Z.mod_unique_pos with (-1); lia). rewrite (proj2 (Z.ltb_ge _ _)) by lia. lia.
  - rewrite Z.mod_small by lia. by rewrite (proj2 (Z.ltb_lt _ _)) by lia.
Qed.

Lemma text_back s : textOk s = true → String.string_of_list_ascii (map charOf (dropBom (textBytes s))) = s.
Proof.
  unfold textOk. intros [_ Hb]%andb_true_iff. apply negb_true_iff in Hb. unfold dropBom. rewrite Hb. unfold textBytes.
  rewrite map_map. rewrite (map_ext _ id) by apply charOf_byteOf. by rewrite map_id, String.string_of_list_ascii_of_string.
Qed.

Lemma below_varint n : 0 <= n < 2 ^ 64 → 0 <= n < 128 ^ Z.of_nat 10.
Proof. intros Hn. split; [lia|]. apply Z.lt_trans with (2 ^ 64); [lia|done]. Qed.

Lemma varint_read n rest : 0 <= n < 2 ^ 64 → readVarint 10 (varint 10 n ++ rest) = Some (n, rest).
Proof. intros Hn. apply readVarint_varint; [lia|by apply below_varint]. Qed.

(** A value written as a varint and read by [f]. *)
Lemma varint_canon k n (f : Z → value) v r : wireType k = 0 → 0 <= n < 2 ^ 64 →
  writeV k v = Some (varint 10 n) → (∀ bs, readV k bs = '(n, rest) ← readVarint 10 bs; Some (f n, rest)) → f n = r → payload v = 0 ∨ 0 <= payload v →
  ∃ bs, writeV k v = Some bs ∧ Z.of_nat (length bs) <= 10 + payload v ∧ (∀ rest, readV k (bs ++ rest) = Some (r, rest)) ∧ (∀ rest, skipV (wireType k) (bs ++ rest) = Some rest).
Proof.
  intros Hk Hn Hw Hr <- Hp. exists (varint 10 n). split; [done|]. split; [pose proof (varint_length 10 n); lia|]. split.
  - intros rest. by rewrite Hr, varint_read.
  - intros rest. rewrite Hk. cbn. by rewrite varint_read.
Qed.

Lemma mod_range n : 0 <= n mod 2 ^ 64 < 2 ^ 64.
Proof. by apply Z.mod_pos_bound. Qed.

Lemma payload_nonneg v : 0 <= payload v.
Proof. destruct v; cbn; lia. Qed.

Lemma delimited_canon k bs v r : wireType k = 2 → Z.of_nat (length bs) < 2 ^ 32 → payload v = Z.of_nat (length bs) →
  writeV k v = delimited bs → (∀ out rest, readDelimited out = Some (bs, rest) → readV k out = Some (r, rest)) →
  ∃ out, writeV k v = Some out ∧ Z.of_nat (length out) <= 10 + payload v ∧ (∀ rest, readV k (out ++ rest) = Some (r, rest)) ∧ (∀ rest, skipV (wireType k) (out ++ rest) = Some rest).
Proof.
  intros Hk Hb Hp Hw Hr. destruct (delimited_ok bs Hb) as (out & Eo & Hl). exists out. split; [by rewrite Hw|]. split; [by rewrite Hp|]. split.
  - intros rest. apply Hr. by apply readDelimited_delimited.
  - intros rest. rewrite Hk. cbn. by rewrite (readDelimited_delimited bs).
Qed.

Lemma varint_canonical k v r : canon k v r → ∃ bs, writeV k v = Some bs ∧ Z.of_nat (length bs) <= 10 + payload v ∧
  (∀ rest, readV k (bs ++ rest) = Some (r, rest)) ∧ (∀ rest, skipV (wireType k) (bs ++ rest) = Some rest).
Proof.
  pose proof (payload_nonneg v) as Hp. destruct 1 as [s Ht Hl|s n Hd Hn|n Hn|n Hn|n Hn|b|bs Hb Hl].
  - apply (delimited_canon _ (textBytes s)); try done. intros out rest E. unfold readV. rewrite E. cbn. by rewrite text_back.
  - apply (varint_canon _ n (λ n, VBig (n mod 2 ^ 64))); try done; [|by rewrite Z.mod_small|by right]. cbn [writeV]. rewrite Hd. cbn. by rewrite within_ok.
  - apply (varint_canon _ (n mod 2 ^ 64) (λ n, VBig (signed 64 n))); try done; [by apply mod_range| |by rewrite (signed_wrap 64)|by right].
    cbn [writeV]. rewrite stringToBigInt_pretty. cbn [mbind option_bind]. by rewrite within_ok.
  - apply (varint_canon _ n (λ n, VNum (n mod 2 ^ 32))); try done; [lia| |by rewrite Z.mod_small|by right]. cbn [writeV]. by rewrite within_ok.
  - apply (varint_canon _ (n mod 2 ^ 64) (λ n, VNum (signed 32 n))); try done; [by apply mod_range| |by rewrite (signed_wrap 32)|by right]. cbn [writeV]. by rewrite within_ok.
  - apply (varint_canon _ (if b then 1 else 0) (λ n, VBool (negb (n =? 0)))); try done; destruct b; cbn; try done; lia || by left.
  - apply (delimited_canon _ bs); try done. intros out rest E. unfold readV. by rewrite E.
Qed.

#[export] Instance varint_laws : WireLaws.
Proof.
  split.
  - exact varint_canonical.
  - intros s n Hd Hn. cbn [write varint_wire writeV]. rewrite Hd. cbn [mbind option_bind]. unfold within. rewrite (proj2 (Z.ltb_ge n _)) by done. by rewrite andb_false_r.
  - intros n h. cbn [write varint_wire writeV]. unfold within. case_goal; [|done]. intros _. b2p. lia.
  - intros k bs v rest. cbn [read varint_wire]. destruct k; cbn [readV];
      match goal with
      | |- context [readDelimited bs] => destruct (readDelimited bs) as [[c t]|] eqn:E; cbn; [|done]; intros [= _ <-]; by eapply readDelimited_advances
      | |- context [readVarint 10 bs] => destruct (readVarint 10 bs) as [[n t]|] eqn:E; cbn; [|done]; intros [= _ <-]; by eapply readVarint_advances
      end.
  - intros k bs v rest. cbn [read varint_wire]. destruct k; cbn [readV];
      match goal with
      | |- context [readDelimited bs] => destruct (readDelimited bs) as [[c t]|]; cbn; [|done]; by intros [= <- _]
      | |- context [readVarint 10 bs] => destruct (readVarint 10 bs) as [[n t]|]; cbn; [|done]; by intros [= <- _]
      end.
  - intros w bs rest. cbn [skip varint_wire]. unfold skipV. repeat case_goal; try done.
    + destruct (readVarint 10 bs) as [[n r]|] eqn:Er; cbn; [|done]. intros [= <-]. apply readVarint_advances in Er. lia.
    + intros [= <-]. rewrite length_drop. lia.
    + destruct (readDelimited bs) as [[n r]|] eqn:Er; cbn; [|done]. intros [= <-]. apply readDelimited_advances in Er. lia.
    + intros [= <-]. rewrite length_drop. lia.
  - intros h c rest. cbn [write skip varint_wire writeV]. intros Hh. unfold skipV. cbn [Z.eqb]. cbn. rewrite app_assoc.
    rewrite (readDelimited_delimited c); [done|]. unfold delimited. destruct (within 0 (2 ^ 32) _); [|done]. cbn in *. by injection Hh as <-.
Qed.

End Varint.

End SdkWire.
