(* ===== verification/SdkCodec.v ===== *)
(** * The generated message codecs:
      [packages/ocp-sdk/src/cosmos/gen/onchainpoker/]

    The files are generated from [.proto] files, and the object of every message
    ([MessageFns]) has the same text but for its fields.  A message is here the
    list of its [field]s, in the order of the text, and the functions of its
    object are one definition each, by cases on the kind of the field.  [None]
    and [Err] are exceptions. *)
From stdpp Require Import base option list strings pretty.
From Stdlib Require Import ZArith Lia Ascii.
From S2P Require Import Prelude OcpBytes Json JsMap TextCodec SdkWire.
Import Bytes Json JsMap TextCodec SdkWire.

Module SdkCodec.

#[local] Open Scope string_scope.
#[local] Open Scope list_scope.
#[local] Open Scope Z_scope.

(** ** Message types *)

(** The types of [.proto] scalars; the 64 bit integers are strings in the
    generated interfaces.  An enumeration is the list of its members. *)
Inductive scalar := TString | TUint64 | TInt64 | TUint32 | TInt32 | TBool | TBytes | TEnum (members : list (string * Z)).

(** [x: T], [x: T[]] of packed numbers, [x: T[]] of strings or bytes,
    [x: M | undefined] and [x: M[]] for a message [M]. *)
#[warnings="-register-all"]
Inductive field :=
| Single (num : Z) (name : string) (t : scalar)
| Packed (num : Z) (name : string) (t : scalar)
| Repeated (num : Z) (name : string) (t : scalar)
| Sub (num : Z) (name : string) (fs : list field)
| Subs (num : Z) (name : string) (fs : list field).
Abbreviation message := (list field).
Abbreviation object := (list (string * value)).

Definition fnum (f : field) : Z := match f with Single n _ _ | Packed n _ _ | Repeated n _ _ | Sub n _ _ | Subs n _ _ => n end.
Definition fname (f : field) : string := match f with Single _ x _ | Packed _ x _ | Repeated _ x _ | Sub _ x _ | Subs _ x _ => x end.

(** The methods of the writer and the reader for a type. *)
Definition kindOf (t : scalar) : kind :=
  match t with
  | TString => KString | TUint64 => KUint64 | TInt64 => KInt64 | TUint32 => KUint32
  | TInt32 | TEnum _ => KInt32 | TBool => KBool | TBytes => KBytes
  end.

Definition defaultOf (t : scalar) : value :=
  match t with
  | TString => VStr EmptyString | TUint64 | TInt64 => VStr "0" | TUint32 | TInt32 | TEnum _ => VNum 0
  | TBool => VBool false | TBytes => VBytes []
  end.
Definition base (f : field) : value :=
  match f with Single _ _ t => defaultOf t | Sub _ _ _ => VUndefined | _ => VList [] end.
Definition createBase (d : message) : object := map (λ f, (fname f, base f)) d.

(** [message.x] *)
Definition prop (m : object) (x : string) : value := default VUndefined (mget x m).

(** The negation of [message.x !== "0"] and the like, and of [message.x.length !== 0]. *)
Definition omitted (t : scalar) (v : value) : bool :=
  match t, v with
  | TString, VStr s => bool_decide (s = EmptyString)
  | (TUint64 | TInt64), VStr s => bool_decide (s = "0")
  | (TUint32 | TInt32 | TEnum _), VNum n => n =? 0
  | TBool, VBool b => negb b
  | TBytes, VBytes bs => (length bs =? 0)%nat
  | _, _ => false
  end.

Section codec.
Context `{Wire}.

(** ** [encode] *)

Definition flat (chunks : list bytes) : bytes := concat chunks.
Definition andThen (a b : option bytes) : option bytes := x ← a; y ← b; Some (x ++ y).
(** [writer.uint32(tag)] *)
Definition tag (num w : Z) : option bytes := write KUint32 (VNum (num * 8 + w)).
(** [.fork()] ... [.join()] *)
Definition join (chunk : option bytes) : option bytes := c ← chunk; h ← write KUint32 (VNum (Z.of_nat (length c))); Some (h ++ c).

Fixpoint encodeField (f : field) (v : value) : option bytes :=
  let encode (fs : message) (m : object) := flat <$> mapM (λ f, encodeField f (prop m (fname f))) fs in
  match f with
  | Single num _ t => if omitted t v then Some [] else andThen (tag num (wireType (kindOf t))) (write (kindOf t) v)
  | Packed num _ t =>
      match v with VList vs => andThen (tag num 2) (join (flat <$> mapM (write (kindOf t)) vs)) | _ => None end
  | Repeated num _ t =>
      match v with VList vs => flat <$> mapM (λ v, andThen (tag num (wireType (kindOf t))) (write (kindOf t) v)) vs | _ => None end
  | Sub num _ fs =>
      match v with VUndefined => Some [] | VMsg m => andThen (tag num 2) (join (encode fs m)) | _ => None end
  | Subs num _ fs =>
      match v with
      | VList vs => flat <$> mapM (λ v, match v with VMsg m => andThen (tag num 2) (join (encode fs m)) | _ => None end) vs
      | _ => None
      end
  end.
Definition encode (d : message) (m : object) : option bytes := flat <$> mapM (λ f, encodeField f (prop m (fname f))) d.

(** ** [decode] *)

Inductive DecodeError := BadWire | OutOfFuel.

(** [reader.uint64().toString()] and the other reads. *)
Definition toValue (t : scalar) (v : value) : value :=
  match t, v with (TUint64 | TInt64), VBig n => VStr (pretty n) | _, _ => v end.
Definition readScalar (t : scalar) (rest : bytes) : result DecodeError (value * bytes) :=
  match read (kindOf t) rest with Some (v, rest) => Ok (toValue t v, rest) | None => Err BadWire end.
Definition readUint32 (rest : bytes) : result DecodeError (Z * bytes) :=
  match read KUint32 rest with Some (VNum n, rest) => Ok (n, rest) | _ => Err BadWire end.
Definition skipField (w : Z) (rest : bytes) : result DecodeError bytes :=
  match skip w rest with Some rest => Ok rest | None => Err BadWire end.

(** The state of a loop is what is left to read; [reader.pos < end] when more
    than [stop] bytes are left. *)
Definition atEnd (stop : Z) (rest : bytes) : bool := Z.of_nat (length rest) <=? stop.

(** [while (reader.pos < end2) { push(...) }] *)
Fixpoint readPacked (fuel : nat) (t : scalar) (stop : Z) (acc : list value) (rest : bytes) : result DecodeError (list value * bytes) :=
  if atEnd stop rest then Ok (acc, rest)
  else match fuel with
       | O => Err OutOfFuel
       | S fuel => let! (v, rest) := readScalar t rest in readPacked fuel t stop (acc ++ [v]) rest
       end.

(** [message.x.push(v)] for all [v] of [l] *)
Definition push (m : object) (x : string) (l : list value) : object :=
  mset x (match prop m x with VList vs => VList (vs ++ l) | v' => v' end) m.

(** [case n:] *)
Definition caseOf (d : message) (n : Z) : option field := List.find (λ f, fnum f =? n) d.

(** The body of the [while] of [decode] after the tag has been read; [loop] is
    the loop itself, on the type of the message, the end, the object and what is
    left. *)
Definition dispatch (fuel : nat) (loop : message → Z → object → bytes → result DecodeError (object * bytes))
    (d : message) (stop : Z) (m : object) (tg : Z) (rest : bytes) : result DecodeError (object * bytes) :=
  let sub (fs : message) (rest : bytes) :=
    let! (len, rest) := readUint32 rest in
    loop fs (Z.of_nat (length rest) - len) (createBase fs) rest in
  let unknown :=
    if (tg mod 8 =? 4) || (tg =? 0) then Ok (m, rest)
    else let! rest := skipField (tg mod 8) rest in loop d stop m rest in
  match caseOf d (tg / 8) with
  | Some (Single num x t) =>
      if tg =? num * 8 + wireType (kindOf t)
      then let! (v, rest) := readScalar t rest in loop d stop (mset x v m) rest
      else unknown
  | Some (Packed num x t) =>
      if tg =? num * 8
      then let! (v, rest) := readScalar t rest in loop d stop (push m x [v]) rest
      else if tg =? num * 8 + 2
      then let! (len, rest) := readUint32 rest in
           let! (vs, rest) := readPacked fuel t (Z.of_nat (length rest) - len) [] rest in
           loop d stop (push m x vs) rest
      else unknown
  | Some (Repeated num x t) =>
      if tg =? num * 8 + wireType (kindOf t)
      then let! (v, rest) := readScalar t rest in loop d stop (push m x [v]) rest
      else unknown
  | Some (Sub num x fs) =>
      if tg =? num * 8 + 2
      then let! (v, rest) := sub fs rest in loop d stop (mset x (VMsg v) m) rest
      else unknown
  | Some (Subs num x fs) =>
      if tg =? num * 8 + 2
      then let! (v, rest) := sub fs rest in loop d stop (push m x [VMsg v]) rest
      else unknown
  | None => unknown
  end.

Fixpoint decodeLoop (fuel : nat) (d : message) (stop : Z) (m : object) (rest : bytes) : result DecodeError (object * bytes) :=
  if atEnd stop rest then Ok (m, rest)
  else match fuel with
       | O => Err OutOfFuel
       | S fuel => let! (tg, rest) := readUint32 rest in dispatch fuel (decodeLoop fuel) d stop m tg rest
       end.

(** Every turn of a loop reads a byte, so there are at most as many turns as
    bytes. *)
Definition decode (d : message) (input : bytes) : result DecodeError object :=
  let! (m, _) := decodeLoop (S (length input)) d 0 (createBase d) input in Ok m.

End codec.

(** ** [fromJSON] *)

Definition isSet (j : json) : bool := negb (nullish j).

Definition isUpper (c : ascii) : bool := let n := nat_of_ascii c in ((65 <=? n) && (n <=? 90))%nat.
(** The name in the [.proto] file, [next_table_id] for [nextTableId]; when it is
    the same the text has no second case. *)
Fixpoint snake (s : string) : string :=
  match s with
  | EmptyString => EmptyString
  | String c s => if isUpper c then String "_" (String (lowerChar c) (snake s)) else String c (snake s)
  end.

(** [handPhaseFromJSON], [streetFromJSON]: [switch (object)] on the numbers and
    the names, [UNRECOGNIZED = -1] by default. *)
Definition enumFromJSON (members : list (string * Z)) (j : json) : Z :=
  default (-1) (snd <$> List.find (λ xn, match j with JNum n => n =? xn.2 | JStr s => bool_decide (s = xn.1) | _ => false end) members).
Definition enumToJSON (members : list (string * Z)) (n : Z) : string :=
  default "UNRECOGNIZED" (fst <$> List.find (λ xn, n =? xn.2) members).

(** [Buffer.from(b64, "base64")], of a base64 text or an array of bytes. *)
Definition bytesFromBase64 (j : json) : option bytes :=
  match j with
  | JStr s => Some (fromBase64 (String.list_ascii_of_string s))
  | JBytes bs => Some bs
  | JArr l => Some (map (λ x, toInt32 (jsNumber x) mod 256) l)
  | _ => None
  end.
Definition base64FromBytes (arr : bytes) : string := String.string_of_list_ascii (toBase64 arr).

Definition scalarFromJSON (t : scalar) (j : json) : option value :=
  match t with
  | TString | TUint64 | TInt64 => Some (VStr (toStr j))
  | TUint32 | TInt32 => Some (match jsNumber j with Some n => VNum n | None => VNaN end)
  | TBool => Some (VBool (truthy j))
  | TBytes => VBytes <$> bytesFromBase64 j
  | TEnum members => Some (VNum (enumFromJSON members j))
  end.

(** [isSet(object.x) ? object.x : isSet(object.x_y) ? object.x_y]; a property of
    [null] or [undefined] is a [TypeError]. *)
Definition pick (j : json) (x : string) : option json :=
  if isSet (Json.field j x) then Some (Json.field j x)
  else if isSet (Json.field j (snake x)) then Some (Json.field j (snake x)) else None.
Definition pickArray (j : json) (x : string) : list json :=
  match Json.field j x, Json.field j (snake x) with JArr l, _ => l | _, JArr l => l | _, _ => [] end.

Fixpoint fieldFromJSON (f : field) (j : json) : option value :=
  let fromJSON (fs : message) (j : json) := VMsg <$> mapM (λ f, pair (fname f) <$> fieldFromJSON f j) fs in
  match f with
  | Single _ x t => if nullish j then None else match pick j x with Some e => scalarFromJSON t e | None => Some (defaultOf t) end
  | Packed _ x t | Repeated _ x t => VList <$> mapM (scalarFromJSON t) (pickArray j x)
  | Sub _ x fs => if nullish j then None else match pick j x with Some e => fromJSON fs e | None => Some VUndefined end
  | Subs _ x fs => VList <$> mapM (fromJSON fs) (pickArray j x)
  end.
Definition fromJSON (d : message) (j : json) : option object := mapM (λ f, pair (fname f) <$> fieldFromJSON f j) d.

(** ** [toJSON], [fromPartial] *)

(** Numbers are integers, which [Math.round] keeps; [NaN] is written as [null]
    by [JSON.stringify]. *)
Definition scalarToJSON (t : scalar) (v : value) : json :=
  match t, v with
  | _, VStr s => JStr s
  | TEnum members, VNum n => JStr (enumToJSON members n)
  | _, VNum n => JNum n
  | _, VBool b => JBool b
  | _, VBytes bs => JStr (base64FromBytes bs)
  | _, VNaN => JNull
  | _, _ => JUndefined
  end.

(** [obj.x = ...], or nothing. *)
Definition assign (x : string) (l : list value) (f : value → json) : list (string * json) :=
  match l with [] => [] | _ => [(x, JArr (map f l))] end.

Fixpoint fieldToJSON (f : field) (v : value) : list (string * json) :=
  let toJSON (fs : message) (m : value) :=
    match m with VMsg m => JObj (concat (map (λ f, fieldToJSON f (prop m (fname f))) fs)) | _ => JUndefined end in
  match f with
  | Single _ x t => if omitted t v then [] else [(x, scalarToJSON t v)]
  | Packed _ x t | Repeated _ x t => match v with VList l => assign x l (scalarToJSON t) | _ => [] end
  | Sub _ x fs => match v with VUndefined => [] | _ => [(x, toJSON fs v)] end
  | Subs _ x fs => match v with VList l => assign x l (toJSON fs) | _ => [] end
  end.
Definition toJSON (d : message) (m : object) : json := JObj (concat (map (λ f, fieldToJSON f (prop m (fname f))) d)).

Fixpoint partialField (f : field) (v : value) : value :=
  let fromPartial (fs : message) (m : value) :=
    match m with VMsg m => VMsg (map (λ f, (fname f, partialField f (prop m (fname f)))) fs) | v => v end in
  match f with
  | Single _ _ t => match v with VUndefined => defaultOf t | v => v end
  | Packed _ _ _ | Repeated _ _ _ => match v with VUndefined => VList [] | v => v end
  | Sub _ _ fs => fromPartial fs v
  | Subs _ _ fs => match v with VList l => VList (map (fromPartial fs) l) | VUndefined => VList [] | v => v end
  end.
Definition fromPartial (d : message) (m : object) : object := map (λ f, (fname f, partialField f (prop m (fname f)))) d.
(** [create(base?)] *)
Definition create (d : message) (m : option object) : object := fromPartial d (default [] m).

End SdkCodec.
