(* ===== verification/SdkPoker.v ===== *)
(** * The messages of [onchainpoker.poker]: [gen/onchainpoker/poker/]

    One definition per message of [v1/poker.ts], [v1/query.ts], [v1/tx.ts] and
    [module/v1/module.ts]: its fields with their numbers and types. *)
From stdpp Require Import base option list strings.
From Stdlib Require Import ZArith.
From S2P Require Import Prelude SdkWire SdkCodec.
Import SdkCodec.

Module SdkPoker.

#[local] Open Scope string_scope.
#[local] Open Scope list_scope.
#[local] Open Scope Z_scope.

(** ** Enumerations: the members of the [switch]es of [handPhaseFromJSON] and
    [streetFromJSON]; [UNRECOGNIZED = -1] is their default. *)

Definition HandPhase : list (string * Z) :=
  [("HAND_PHASE_UNSPECIFIED", 0);
   ("HAND_PHASE_SHUFFLE", 1);
   ("HAND_PHASE_BETTING", 2);
   ("HAND_PHASE_AWAIT_FLOP", 3);
   ("HAND_PHASE_AWAIT_TURN", 4);
   ("HAND_PHASE_AWAIT_RIVER", 5);
   ("HAND_PHASE_AWAIT_SHOWDOWN", 6);
   ("HAND_PHASE_SHOWDOWN", 7)].

Definition Street : list (string * Z) :=
  [("STREET_UNSPECIFIED", 0);
   ("STREET_PREFLOP", 1);
   ("STREET_FLOP", 2);
   ("STREET_TURN", 3);
   ("STREET_RIVER", 4)].

(** ** [poker/v1/poker.ts] *)

Definition TableParams : message :=
  [Single 1 "maxPlayers" TUint32;
   Single 2 "smallBlind" TUint64;
   Single 3 "bigBlind" TUint64;
   Single 4 "minBuyIn" TUint64;
   Single 5 "maxBuyIn" TUint64;
   Single 6 "actionTimeoutSecs" TUint64;
   Single 7 "dealerTimeoutSecs" TUint64;
   Single 8 "playerBond" TUint64;
   Single 9 "rakeBps" TUint32;
   Single 10 "passwordHash" TBytes;
   Single 11 "passwordSalt" TBytes].

Definition Seat : message :=
  [Single 1 "player" TString;
   Single 2 "pk" TBytes;
   Single 3 "stack" TUint64;
   Single 4 "bond" TUint64;
   Packed 5 "hole" TUint32].

Definition DealerMeta : message :=
  [Single 1 "epochId" TUint64;
   Single 2 "deckSize" TUint32;
   Single 3 "deckFinalized" TBool;
   Packed 4 "holePos" TUint32;
   Single 5 "cursor" TUint32;
   Single 6 "revealPos" TUint32;
   Single 7 "revealDeadline" TInt64].

Definition Hand : message :=
  [Single 1 "handId" TUint64;
   Single 2 "phase" (TEnum HandPhase);
   Single 3 "street" (TEnum Street);
   Single 4 "buttonSeat" TInt32;
   Single 5 "smallBlindSeat" TInt32;
   Single 6 "bigBlindSeat" TInt32;
   Single 7 "actionOn" TInt32;
   Single 8 "betTo" TUint64;
   Single 9 "minRaiseSize" TUint64;
   Single 10 "intervalId" TUint64;
   Packed 11 "inHand" TBool;
   Packed 12 "folded" TBool;
   Packed 13 "allIn" TBool;
   Packed 14 "streetCommit" TUint64;
   Packed 15 "totalCommit" TUint64;
   Packed 16 "lastIntervalActed" TInt32;
   Packed 17 "board" TUint32;
   Single 18 "actionDeadline" TInt64;
   Sub 19 "dealer" DealerMeta].

Definition Table : message :=
  [Single 1 "id" TUint64;
   Single 2 "creator" TString;
   Single 3 "label" TString;
   Sub 4 "params" TableParams;
   Subs 5 "seats" Seat;
   Single 6 "nextHandId" TUint64;
   Single 7 "buttonSeat" TInt32;
   Sub 8 "hand" Hand].

Definition GenesisState : message := [Single 1 "nextTableId" TUint64; Subs 2 "tables" Table].

(** ** [poker/v1/query.ts] *)

Definition QueryTableRequest : message := [Single 1 "tableId" TUint64].

Definition QueryTableResponse : message := [Sub 1 "table" Table].

Definition QueryTablesRequest : message := [].

Definition QueryTablesResponse : message := [Packed 1 "tableIds" TUint64].

(** ** [poker/v1/tx.ts] *)

Definition MsgCreateTable : message :=
  [Single 1 "creator" TString;
   Single 2 "smallBlind" TUint64;
   Single 3 "bigBlind" TUint64;
   Single 4 "minBuyIn" TUint64;
   Single 5 "maxBuyIn" TUint64;
   Single 6 "actionTimeoutSecs" TUint64;
   Single 7 "dealerTimeoutSecs" TUint64;
   Single 8 "playerBond" TUint64;
   Single 9 "rakeBps" TUint32;
   Single 10 "maxPlayers" TUint32;
   Single 11 "label" TString;
   Single 13 "passwordCommitment" TBytes;
   Single 14 "passwordSalt" TBytes].

Definition MsgCreateTableResponse : message := [Single 1 "tableId" TUint64].

Definition MsgSit : message :=
  [Single 1 "player" TString;
   Single 2 "tableId" TUint64;
   Single 4 "buyIn" TUint64;
   Single 5 "pkPlayer" TBytes;
   Single 7 "passwordProof" TBytes].

Definition MsgSitResponse : message := [Single 1 "seat" TUint32].

Definition MsgStartHand : message := [Single 1 "caller" TString; Single 2 "tableId" TUint64].

Definition MsgStartHandResponse : message := [].

Definition MsgAct : message :=
  [Single 1 "player" TString;
   Single 2 "tableId" TUint64;
   Single 3 "action" TString;
   Single 4 "amount" TUint64].

Definition MsgActResponse : message := [].

Definition MsgTick : message := [Single 1 "caller" TString; Single 2 "tableId" TUint64].

Definition MsgTickResponse : message := [].

Definition MsgLeave : message := [Single 1 "player" TString; Single 2 "tableId" TUint64].

Definition MsgLeaveResponse : message := [].

Definition MsgRebuy : message := [Single 1 "player" TString; Single 2 "tableId" TUint64; Single 3 "amount" TUint64].

Definition MsgRebuyResponse : message := [Single 1 "newStack" TUint64].

(** ** [poker/module/v1/module.ts] *)

Definition Module_ : message := [].

(** All messages of the package. *)
Definition messages : list (string * message) :=
  [("TableParams", TableParams);
   ("Seat", Seat);
   ("DealerMeta", DealerMeta);
   ("Hand", Hand);
   ("Table", Table);
   ("GenesisState", GenesisState);
   ("QueryTableRequest", QueryTableRequest);
   ("QueryTableResponse", QueryTableResponse);
   ("QueryTablesRequest", QueryTablesRequest);
   ("QueryTablesResponse", QueryTablesResponse);
   ("MsgCreateTable", MsgCreateTable);
   ("MsgCreateTableResponse", MsgCreateTableResponse);
   ("MsgSit", MsgSit);
   ("MsgSitResponse", MsgSitResponse);
   ("MsgStartHand", MsgStartHand);
   ("MsgStartHandResponse", MsgStartHandResponse);
   ("MsgAct", MsgAct);
   ("MsgActResponse", MsgActResponse);
   ("MsgTick", MsgTick);
   ("MsgTickResponse", MsgTickResponse);
   ("MsgLeave", MsgLeave);
   ("MsgLeaveResponse", MsgLeaveResponse);
   ("MsgRebuy", MsgRebuy);
   ("MsgRebuyResponse", MsgRebuyResponse);
   ("Module", Module_)].

End SdkPoker.
