(* ===== verification/SdkDealer.v ===== *)
(** * The messages of [onchainpoker.dealer]: [gen/onchainpoker/dealer/]

    One definition per message of [v1/dealer.ts], [v1/query.ts], [v1/tx.ts] and
    [module/v1/module.ts]: its fields with their numbers and types. *)
From stdpp Require Import base option list strings.
From Stdlib Require Import ZArith.
From S2P Require Import Prelude SdkWire SdkCodec.
Import SdkCodec.

Module SdkDealer.

#[local] Open Scope string_scope.
#[local] Open Scope list_scope.
#[local] Open Scope Z_scope.

(** ** [dealer/v1/dealer.ts] *)

Definition DealerMember : message :=
  [Single 1 "validator" TString;
   Single 2 "index" TUint32;
   Single 3 "pubShare" TBytes;
   Single 4 "consPubkey" TBytes;
   Single 5 "power" TInt64;
   Single 6 "ephemeralPubkey" TBytes].

Definition DealerEpoch : message :=
  [Single 1 "epochId" TUint64;
   Single 2 "threshold" TUint32;
   Single 3 "pkEpoch" TBytes;
   Single 4 "transcriptRoot" TBytes;
   Single 7 "startHeight" TInt64;
   Repeated 5 "slashed" TString;
   Subs 6 "members" DealerMember].

Definition DealerDKGCommit : message := [Single 1 "dealer" TString; Repeated 2 "commitments" TBytes].

Definition DealerDKGComplaint : message :=
  [Single 1 "epochId" TUint64;
   Single 2 "complainer" TString;
   Single 3 "dealer" TString;
   Single 4 "kind" TString;
   Single 5 "shareMsg" TBytes].

Definition DealerDKGShareReveal : message :=
  [Single 1 "epochId" TUint64;
   Single 2 "dealer" TString;
   Single 3 "to" TString;
   Single 4 "share" TBytes].

Definition DealerDKGEncryptedShare : message :=
  [Single 1 "dealer" TString;
   Single 2 "recipientIndex" TUint32;
   Single 3 "u" TBytes;
   Single 4 "v" TBytes;
   Single 5 "proof" TBytes;
   Single 6 "scalarCt" TBytes].

Definition DealerDKG : message :=
  [Single 1 "epochId" TUint64;
   Single 2 "threshold" TUint32;
   Subs 3 "members" DealerMember;
   Single 4 "startHeight" TInt64;
   Single 5 "commitDeadline" TInt64;
   Single 6 "complaintDeadline" TInt64;
   Single 7 "revealDeadline" TInt64;
   Single 8 "finalizeDeadline" TInt64;
   Single 9 "randEpoch" TBytes;
   Subs 10 "commits" DealerDKGCommit;
   Subs 11 "complaints" DealerDKGComplaint;
   Subs 12 "reveals" DealerDKGShareReveal;
   Repeated 13 "slashed" TString;
   Subs 14 "encryptedShares" DealerDKGEncryptedShare].

Definition Params : message :=
  [Single 1 "slashBpsDkg" TUint32;
   Single 2 "slashBpsHandDealer" TUint32;
   Single 3 "jailSecondsDkg" TUint64;
   Single 4 "jailSecondsHandDealer" TUint64;
   Single 5 "dkgVersion" TUint32].

Definition BeaconCommitEntry : message := [Single 1 "validator" TString; Single 2 "commit" TBytes].

Definition BeaconRevealEntry : message := [Single 1 "validator" TString; Single 2 "salt" TBytes].

Definition BeaconState : message :=
  [Single 1 "epochId" TUint64;
   Single 2 "commitOpenHeight" TInt64;
   Single 3 "commitCloseHeight" TInt64;
   Single 4 "revealCloseHeight" TInt64;
   Single 5 "threshold" TUint32;
   Subs 6 "commits" BeaconCommitEntry;
   Subs 7 "reveals" BeaconRevealEntry;
   Single 8 "final" TBytes;
   Single 9 "fallback" TBool].

Definition GenesisState : message :=
  [Single 1 "nextEpochId" TUint64;
   Sub 2 "epoch" DealerEpoch;
   Sub 3 "dkg" DealerDKG;
   Sub 4 "params" Params;
   Sub 5 "beacon" BeaconState].

Definition DealerCiphertext : message := [Single 1 "c1" TBytes; Single 2 "c2" TBytes].

Definition DealerPubShare : message :=
  [Single 1 "pos" TUint32;
   Single 2 "validator" TString;
   Single 3 "index" TUint32;
   Single 4 "share" TBytes;
   Single 5 "proof" TBytes].

Definition DealerEncShare : message :=
  [Single 1 "pos" TUint32;
   Single 2 "validator" TString;
   Single 3 "index" TUint32;
   Single 4 "pkPlayer" TBytes;
   Single 5 "encShare" TBytes;
   Single 6 "proof" TBytes].

Definition DealerReveal : message := [Single 1 "pos" TUint32; Single 2 "cardId" TUint32].

Definition DealerHand : message :=
  [Single 1 "epochId" TUint64;
   Single 2 "pkHand" TBytes;
   Single 3 "deckSize" TUint32;
   Subs 4 "deck" DealerCiphertext;
   Single 5 "shuffleStep" TUint32;
   Single 6 "finalized" TBool;
   Single 7 "shuffleDeadline" TInt64;
   Single 8 "holeSharesDeadline" TInt64;
   Subs 9 "pubShares" DealerPubShare;
   Subs 10 "encShares" DealerEncShare;
   Subs 11 "reveals" DealerReveal;
   Single 20 "initHeight" TInt64;
   Single 21 "initHashSalt" TBytes].

(** ** [dealer/v1/query.ts] *)

Definition QueryParamsRequest : message := [].

Definition QueryParamsResponse : message := [Sub 1 "params" Params].

Definition QueryEpochRequest : message := [].

Definition QueryEpochResponse : message := [Sub 1 "epoch" DealerEpoch].

Definition QueryDkgRequest : message := [].

Definition QueryDkgResponse : message := [Sub 1 "dkg" DealerDKG].

Definition QueryHandRequest : message := [Single 1 "tableId" TUint64; Single 2 "handId" TUint64].

Definition QueryHandResponse : message := [Sub 1 "hand" DealerHand].

(** ** [dealer/v1/tx.ts] *)

Definition MsgBeginEpoch : message :=
  [Single 1 "caller" TString;
   Single 2 "epochId" TUint64;
   Single 3 "committeeSize" TUint32;
   Single 4 "threshold" TUint32;
   Single 5 "randEpoch" TBytes;
   Single 6 "commitBlocks" TUint64;
   Single 7 "complaintBlocks" TUint64;
   Single 8 "revealBlocks" TUint64;
   Single 9 "finalizeBlocks" TUint64].

Definition MsgBeginEpochResponse : message := [].

Definition MsgDkgCommit : message :=
  [Single 1 "dealer" TString;
   Single 2 "epochId" TUint64;
   Repeated 3 "commitments" TBytes;
   Single 4 "ephemeralPubkey" TBytes].

Definition MsgDkgCommitResponse : message := [].

Definition MsgDkgComplaintMissing : message :=
  [Single 1 "complainer" TString;
   Single 2 "epochId" TUint64;
   Single 3 "dealer" TString].

Definition MsgDkgComplaintMissingResponse : message := [].

Definition MsgDkgComplaintInvalid : message :=
  [Single 1 "complainer" TString;
   Single 2 "epochId" TUint64;
   Single 3 "dealer" TString;
   Single 4 "shareMsg" TBytes].

Definition MsgDkgComplaintInvalidResponse : message := [].

Definition MsgDkgComplaintAEADBad : message :=
  [Single 1 "complainer" TString;
   Single 2 "epochId" TUint64;
   Single 3 "dealer" TString;
   Single 4 "recipientIndex" TUint32;
   Single 5 "dhShare" TBytes;
   Single 6 "dleqProof" TBytes].

Definition MsgDkgComplaintAEADBadResponse : message := [].

Definition MsgDkgShareReveal : message :=
  [Single 1 "dealer" TString;
   Single 2 "epochId" TUint64;
   Single 3 "to" TString;
   Single 4 "share" TBytes].

Definition MsgDkgShareRevealResponse : message := [].

Definition MsgDkgEncryptedShare : message :=
  [Single 1 "dealer" TString;
   Single 2 "epochId" TUint64;
   Single 3 "recipientIndex" TUint32;
   Single 4 "u" TBytes;
   Single 5 "v" TBytes;
   Single 6 "proof" TBytes;
   Single 7 "scalarCt" TBytes].

Definition MsgDkgEncryptedShareResponse : message := [].

Definition MsgFinalizeEpoch : message := [Single 1 "caller" TString; Single 2 "epochId" TUint64].

Definition MsgFinalizeEpochResponse : message := [].

Definition MsgDkgTimeout : message := [Single 1 "caller" TString; Single 2 "epochId" TUint64].

Definition MsgDkgTimeoutResponse : message := [].

Definition MsgOpenBeaconWindow : message :=
  [Single 1 "caller" TString;
   Single 2 "epochId" TUint64;
   Single 3 "commitBlocks" TUint64;
   Single 4 "revealBlocks" TUint64;
   Single 5 "threshold" TUint32].

Definition MsgOpenBeaconWindowResponse : message := [].

Definition MsgBeaconCommit : message := [Single 1 "validator" TString; Single 2 "epochId" TUint64; Single 3 "commit" TBytes].

Definition MsgBeaconCommitResponse : message := [].

Definition MsgBeaconReveal : message := [Single 1 "validator" TString; Single 2 "epochId" TUint64; Single 3 "salt" TBytes].

Definition MsgBeaconRevealResponse : message := [].

Definition MsgInitHand : message :=
  [Single 1 "caller" TString;
   Single 2 "tableId" TUint64;
   Single 3 "handId" TUint64;
   Single 4 "epochId" TUint64;
   Single 5 "deckSize" TUint32].

Definition MsgInitHandResponse : message := [].

Definition MsgSubmitShuffle : message :=
  [Single 1 "shuffler" TString;
   Single 2 "tableId" TUint64;
   Single 3 "handId" TUint64;
   Single 4 "round" TUint32;
   Single 5 "proofShuffle" TBytes].

Definition MsgSubmitShuffleResponse : message := [].

Definition MsgFinalizeDeck : message := [Single 1 "caller" TString; Single 2 "tableId" TUint64; Single 3 "handId" TUint64].

Definition MsgFinalizeDeckResponse : message := [].

Definition MsgSubmitPubShare : message :=
  [Single 1 "validator" TString;
   Single 2 "tableId" TUint64;
   Single 3 "handId" TUint64;
   Single 4 "pos" TUint32;
   Single 5 "pubShare" TBytes;
   Single 6 "proofShare" TBytes].

Definition MsgSubmitPubShareResponse : message := [].

Definition MsgSubmitEncShare : message :=
  [Single 1 "validator" TString;
   Single 2 "tableId" TUint64;
   Single 3 "handId" TUint64;
   Single 4 "pos" TUint32;
   Single 5 "pkPlayer" TBytes;
   Single 6 "encShare" TBytes;
   Single 7 "proofEncShare" TBytes].

Definition MsgSubmitEncShareResponse : message := [].

Definition MsgFinalizeReveal : message :=
  [Single 1 "caller" TString;
   Single 2 "tableId" TUint64;
   Single 3 "handId" TUint64;
   Single 4 "pos" TUint32].

Definition MsgFinalizeRevealResponse : message := [].

Definition MsgTimeout : message := [Single 1 "caller" TString; Single 2 "tableId" TUint64; Single 3 "handId" TUint64].

Definition MsgTimeoutResponse : message := [].

(** ** [dealer/module/v1/module.ts] *)

Definition Module_ : message := [].

(** All messages of the package. *)
Definition messages : list (string * message) :=
  [("DealerMember", DealerMember);
   ("DealerEpoch", DealerEpoch);
   ("DealerDKGCommit", DealerDKGCommit);
   ("DealerDKGComplaint", DealerDKGComplaint);
   ("DealerDKGShareReveal", DealerDKGShareReveal);
   ("DealerDKGEncryptedShare", DealerDKGEncryptedShare);
   ("DealerDKG", DealerDKG);
   ("Params", Params);
   ("BeaconCommitEntry", BeaconCommitEntry);
   ("BeaconRevealEntry", BeaconRevealEntry);
   ("BeaconState", BeaconState);
   ("GenesisState", GenesisState);
   ("DealerCiphertext", DealerCiphertext);
   ("DealerPubShare", DealerPubShare);
   ("DealerEncShare", DealerEncShare);
   ("DealerReveal", DealerReveal);
   ("DealerHand", DealerHand);
   ("QueryParamsRequest", QueryParamsRequest);
   ("QueryParamsResponse", QueryParamsResponse);
   ("QueryEpochRequest", QueryEpochRequest);
   ("QueryEpochResponse", QueryEpochResponse);
   ("QueryDkgRequest", QueryDkgRequest);
   ("QueryDkgResponse", QueryDkgResponse);
   ("QueryHandRequest", QueryHandRequest);
   ("QueryHandResponse", QueryHandResponse);
   ("MsgBeginEpoch", MsgBeginEpoch);
   ("MsgBeginEpochResponse", MsgBeginEpochResponse);
   ("MsgDkgCommit", MsgDkgCommit);
   ("MsgDkgCommitResponse", MsgDkgCommitResponse);
   ("MsgDkgComplaintMissing", MsgDkgComplaintMissing);
   ("MsgDkgComplaintMissingResponse", MsgDkgComplaintMissingResponse);
   ("MsgDkgComplaintInvalid", MsgDkgComplaintInvalid);
   ("MsgDkgComplaintInvalidResponse", MsgDkgComplaintInvalidResponse);
   ("MsgDkgComplaintAEADBad", MsgDkgComplaintAEADBad);
   ("MsgDkgComplaintAEADBadResponse", MsgDkgComplaintAEADBadResponse);
   ("MsgDkgShareReveal", MsgDkgShareReveal);
   ("MsgDkgShareRevealResponse", MsgDkgShareRevealResponse);
   ("MsgDkgEncryptedShare", MsgDkgEncryptedShare);
   ("MsgDkgEncryptedShareResponse", MsgDkgEncryptedShareResponse);
   ("MsgFinalizeEpoch", MsgFinalizeEpoch);
   ("MsgFinalizeEpochResponse", MsgFinalizeEpochResponse);
   ("MsgDkgTimeout", MsgDkgTimeout);
   ("MsgDkgTimeoutResponse", MsgDkgTimeoutResponse);
   ("MsgOpenBeaconWindow", MsgOpenBeaconWindow);
   ("MsgOpenBeaconWindowResponse", MsgOpenBeaconWindowResponse);
   ("MsgBeaconCommit", MsgBeaconCommit);
   ("MsgBeaconCommitResponse", MsgBeaconCommitResponse);
   ("MsgBeaconReveal", MsgBeaconReveal);
   ("MsgBeaconRevealResponse", MsgBeaconRevealResponse);
   ("MsgInitHand", MsgInitHand);
   ("MsgInitHandResponse", MsgInitHandResponse);
   ("MsgSubmitShuffle", MsgSubmitShuffle);
   ("MsgSubmitShuffleResponse", MsgSubmitShuffleResponse);
   ("MsgFinalizeDeck", MsgFinalizeDeck);
   ("MsgFinalizeDeckResponse", MsgFinalizeDeckResponse);
   ("MsgSubmitPubShare", MsgSubmitPubShare);
   ("MsgSubmitPubShareResponse", MsgSubmitPubShareResponse);
   ("MsgSubmitEncShare", MsgSubmitEncShare);
   ("MsgSubmitEncShareResponse", MsgSubmitEncShareResponse);
   ("MsgFinalizeReveal", MsgFinalizeReveal);
   ("MsgFinalizeRevealResponse", MsgFinalizeRevealResponse);
   ("MsgTimeout", MsgTimeout);
   ("MsgTimeoutResponse", MsgTimeoutResponse);
   ("Module", Module_)].

End SdkDealer.
