(* ===== verification/SdkCodecThms.v ===== *)
(** * The generated codecs: round trips

    What [encode] writes of a message [decode] reads back, also when the two
    sides have different versions of the message type; what [toJSON] writes
    [fromJSON] reads back; [decode] ends on every input. *)
From stdpp Require Import base option list strings pretty.
From Stdlib Require Import ZArith Lia Ascii.
From S2P Require Import Prelude OcpBytes Json JsMap TextCodec SdkWire SdkCodec SdkPoker SdkDealer.
Import Bytes Json JsMap TextCodec SdkWire SdkCodec.

Module SdkCodecThms.

#[local] Open Scope string_scope.
#[local] Open Scope list_scope.
#[local] Open Scope Z_scope.

(** ** Induction over message types *)

Section induction.
Variable P : field → Prop.
Hypothesis HSingle : ∀ num x t, P (Single num x t).
Hypothesis HPacked : ∀ num x t, P (Packed num x t).
Hypothesis HRepeated : ∀ num x t, P (Repeated num x t).
Hypothesis HSub : ∀ num x fs, Forall P fs → P (Sub num x fs).
Hypothesis HSubs : ∀ num x fs, Forall P fs → P (Subs num x fs).

Fixpoint field_rect' (f : field) : P f :=
  let all := fix all (fs : list field) : Forall P fs :=
    match fs with [] => Forall_nil_2 P | f :: fs => Forall_cons_2 P f fs (field_rect' f) (all fs) end in
  match f with
  | Single num x t => HSingle num x t
  | Packed num x t => HPacked num x t
  | Repeated num x t => HRepeated num x t
  | Sub num x fs => HSub num x fs (all fs)
  | Subs num x fs => HSubs num x fs (all fs)
  end.
End induction.

(** ** Well-formed types and values *)

(** Numbers and names occur once, numbers are in range, and only numbers are
    packed. *)
Definition distinct (d : message) : bool := bool_decide (NoDup (map fnum d)) && bool_decide (NoDup (map fname d)).
Fixpoint fieldOk (f : field) : bool :=
  (1 <=? fnum f) && (fnum f <? 2 ^ 29) &&
  match f with
  | Single _ _ _ => true
  | Packed _ _ t => wireType (kindOf t) =? 0
  | Repeated _ _ t => wireType (kindOf t) =? 2
  | Sub _ _ fs | Subs _ _ fs => distinct fs && forallb fieldOk fs
  end.
Definition messageOk (d : message) : bool := distinct d && forallb fieldOk d.

(** A value has the shape of its field, and [p] holds of its scalars. *)
Section shape.
Variable p : scalar → value → bool.

Fixpoint shaped (f : field) (v : value) : bool :=
  let shapedMsg := fix go (fs : message) (m : object) : bool :=
    match fs, m with
    | [], [] => true
    | f :: fs, (x, v) :: m => bool_decide (x = fname f) && shaped f v && go fs m
    | _, _ => false
    end in
  match f, v with
  | Single _ _ t, v => p t v
  | (Packed _ _ t | Repeated _ _ t), VList vs => forallb (p t) vs
  | Sub _ _ fs, VUndefined => true
  | Sub _ _ fs, VMsg m => shapedMsg fs m
  | Subs _ _ fs, VList vs => forallb (λ v, match v with VMsg m => shapedMsg fs m | _ => false end) vs
  | _, _ => false
  end.
Fixpoint shapedMessage (d : message) (m : object) : bool :=
  match d, m with
  | [], [] => true
  | f :: d, (x, v) :: m => bool_decide (x = fname f) && shaped f v && shapedMessage d m
  | _, _ => false
  end.
End shape.

(** The scalars that survive the wire. *)
Definition small (bs : bytes) : bool := Z.of_nat (length bs) <? 2 ^ 32.
Definition inBounds (lo hi n : Z) : bool := (lo <=? n) && (n <? hi).
Definition wireScalar (t : scalar) (v : value) : bool :=
  match t, v with
  | TString, VStr s => textOk s && small (textBytes s)
  | TUint64, VStr s => match decimals s with Some n => inBounds 0 (2 ^ 64) n && bool_decide (pretty n = s) | None => false end
  | TInt64, VStr s => match stringToBigInt s with Some n => inBounds (- 2 ^ 63) (2 ^ 63) n && bool_decide (pretty n = s) | None => false end
  | TUint32, VNum n => inBounds 0 (2 ^ 32) n
  | (TInt32 | TEnum _), VNum n => inBounds (- 2 ^ 31) (2 ^ 31) n
  | TBool, VBool _ => true
  | TBytes, VBytes bs => forallb (inBounds 0 256) bs && small bs
  | _, _ => false
  end.
Abbreviation valid := (shapedMessage wireScalar).

Lemma inBounds_true lo hi n : inBounds lo hi n = true ↔ lo <= n < hi.
Proof. unfold inBounds. rewrite andb_true_iff, Z.leb_le, Z.ltb_lt. done. Qed.

Lemma wireScalar_canon t v : wireScalar t v = true → ∃ r, canon (kindOf t) v r ∧ toValue t r = v.
Proof.
  destruct t, v; cbn [wireScalar]; try done; intros Hv.
  - apply andb_true_iff in Hv as [Ht Hl]. apply Z.ltb_lt in Hl. eexists. by split; [constructor|].
  - destruct (decimals s) as [n|] eqn:E; [|done]. apply andb_true_iff in Hv as [Hb Hp]. apply inBounds_true in Hb. apply bool_decide_eq_true in Hp.
    exists (VBig n). split; [by econstructor|]. cbn. by rewrite Hp.
  - destruct (stringToBigInt s) as [n|] eqn:E; [|done]. apply andb_true_iff in Hv as [Hb Hp]. apply inBounds_true in Hb. apply bool_decide_eq_true in Hp.
    exists (VBig n). subst s. by split; [constructor|].
  - apply inBounds_true in Hv. eexists. by split; [constructor|].
  - apply inBounds_true in Hv. eexists. by split; [constructor|].
  - eexists. by split; [constructor|].
  - apply andb_true_iff in Hv as [Hb Hl]. apply Z.ltb_lt in Hl. eexists. split; [constructor; [|done]|done].
    apply forallb_forall in Hb || idtac. apply List.Forall_forall. intros b Hin. apply inBounds_true. by eapply forallb_forall in Hb.
  - apply inBounds_true in Hv. eexists. by split; [constructor|].
Qed.

Lemma omitted_default t v : omitted t v = true → v = defaultOf t.
Proof. destruct t, v; cbn; try done; intros E; rewrite ?negb_true_iff, ?bool_decide_eq_true, ?Z.eqb_eq, ?Nat.eqb_eq in E; subst; try done. by apply nil_length_inv in E as ->. Qed.

Lemma shaped_sub p num x fs m : shaped p (Sub num x fs) (VMsg m) = shapedMessage p fs m.
Proof. cbn. revert m. induction fs as [|f fs IH]; intros [|[y v] m]; cbn; done. Qed.

Lemma shaped_subs p num x fs vs : shaped p (Subs num x fs) (VList vs) = forallb (λ v, match v with VMsg m => shapedMessage p fs m | _ => false end) vs.
Proof.
  change (forallb (λ v, match v with VMsg m => shaped p (Sub num x fs) (VMsg m) | _ => false end) vs = forallb (λ v, match v with VMsg m => shapedMessage p fs m | _ => false end) vs).
  by induction vs as [|[] vs IH].
Qed.

Lemma distinct_nodup d : distinct d = true ↔ NoDup (map fnum d) ∧ NoDup (map fname d).
Proof. unfold distinct. by rewrite andb_true_iff, !bool_decide_eq_true. Qed.

Lemma caseOf_self d f : NoDup (map fnum d) → f ∈ d → caseOf d (fnum f) = Some f.
Proof.
  unfold caseOf. induction d as [|g d IH]; [intros _ []%not_elem_of_nil|]. intros [Hg Hd]%NoDup_cons Hf. cbn [List.find].
  destruct (fnum g =? fnum f) eqn:E; b2p.
  - apply elem_of_cons in Hf as [->|Hf]; [done|]. exfalso. apply Hg. rewrite E. by apply (list_elem_of_fmap_2 fnum).
  - apply elem_of_cons in Hf as [->|Hf]; [lia|by apply IH].
Qed.

Lemma caseOf_elem d n f : caseOf d n = Some f → f ∈ d ∧ fnum f = n.
Proof. unfold caseOf. intros H%List.find_some. destruct H as [Hi Hn]. b2p. split; [by apply list_elem_of_In|done]. Qed.

Lemma name_inj d f g : NoDup (map fname d) → f ∈ d → g ∈ d → fname f = fname g → f = g.
Proof.
  induction d as [|h d IH]; [intros _ []%not_elem_of_nil|]. intros [Hh Hd]%NoDup_cons Hf Hg E.
  assert (Hin : ∀ k, k ∈ d → fname h ≠ fname k) by (intros k Hk Ek; apply Hh; rewrite Ek; by apply (list_elem_of_fmap_2 fname)).
  apply elem_of_cons in Hf as [->|Hf]; apply elem_of_cons in Hg as [->|Hg]; [done|by destruct (Hin g)|by destruct (Hin f)|by apply IH].
Qed.

Lemma prop_cons x v m y : prop ((x, v) :: m) y = if bool_decide (x = y) then v else prop m y.
Proof. unfold prop. cbn. by case_bool_decide. Qed.

Lemma shaped_prop p d m f : NoDup (map fname d) → shapedMessage p d m = true → f ∈ d → shaped p f (prop m (fname f)) = true.
Proof.
  revert m. induction d as [|g d IH]; [intros ? _ _ []%not_elem_of_nil|]. intros [|[x v] m] [Hg Hd]%NoDup_cons Hm Hf; [done|]. cbn in Hm.
  apply andb_true_iff in Hm as [[Hx Hv]%andb_true_iff Hm]. apply bool_decide_eq_true in Hx as ->. rewrite prop_cons.
  apply elem_of_cons in Hf as [->|Hf]; [by rewrite bool_decide_true|]. rewrite bool_decide_false; [by apply IH|].
  intros E. apply Hg. rewrite E. by apply (list_elem_of_fmap_2 fname).
Qed.

(** An object is its properties. *)
Lemma shaped_props p d m : NoDup (map fname d) → shapedMessage p d m = true → map (λ f, (fname f, prop m (fname f))) d = m.
Proof.
  revert m. induction d as [|g d IH]; intros [|[x v] m]; try done. intros [Hg Hd]%NoDup_cons Hm. cbn in Hm.
  apply andb_true_iff in Hm as [[Hx Hv]%andb_true_iff Hm]. apply bool_decide_eq_true in Hx as ->. cbn [map]. f_equal.
  - by rewrite prop_cons, bool_decide_true.
  - transitivity (map (λ f, (fname f, prop m (fname f))) d); [|by apply IH]. apply map_ext_in. intros f Hf%list_elem_of_In. rewrite prop_cons, bool_decide_false; [done|].
    intros E. apply Hg. rewrite E. by apply (list_elem_of_fmap_2 fname).
Qed.

Lemma mset_unchanged (m : object) x v : mget x m = Some v → mset x v m = m.
Proof.
  induction m as [|[y w] m IH]; cbn; [done|]. case_bool_decide as E; [by intros [= ->]|]. intros Hm. by rewrite IH.
Qed.

(** ** Reading what was written *)

Section reading.
Context `{WireLaws}.

Lemma wireType_two k : wireType k = 0 ∨ wireType k = 2.
Proof. destruct k; cbn; auto. Qed.

Lemma uint32_back n h : 0 <= n < 2 ^ 32 → write KUint32 (VNum n) = Some h → ∀ rest, readUint32 (h ++ rest) = Ok (n, rest) ∧ (length rest < length (h ++ rest))%nat.
Proof.
  intros Hn Hw rest. destruct (write_canon KUint32 (VNum n) (VNum n)) as (bs & Eb & _ & Hr & _); [by constructor|]. rewrite Hw in Eb. injection Eb as <-.
  unfold readUint32. rewrite Hr. split; [done|]. by eapply read_advances.
Qed.

Lemma scalar_back t v bs : wireScalar t v = true → write (kindOf t) v = Some bs →
  ∀ rest, readScalar t (bs ++ rest) = Ok (v, rest) ∧ (length rest < length (bs ++ rest))%nat ∧ skip (wireType (kindOf t)) (bs ++ rest) = Some rest.
Proof.
  intros Hv Hw rest. destruct (wireScalar_canon t v Hv) as (r & Hc & Hr). destruct (write_canon _ _ _ Hc) as (bs' & Eb & _ & Hb & Hs).
  rewrite Hw in Eb. injection Eb as <-. unfold readScalar. rewrite Hb, Hr. split; [done|]. split; [by eapply read_advances|done].
Qed.

(** The loop reads [bs] of the input, and [m] becomes [m']. *)
Definition reads (d : message) (m : object) (bs : bytes) (m' : object) : Prop :=
  ∀ fuel stop rest, stop <= Z.of_nat (length rest) → (length (bs ++ rest) < fuel)%nat →
    ∃ fuel', (length rest < fuel')%nat ∧ decodeLoop fuel d stop m (bs ++ rest) = decodeLoop fuel' d stop m' rest.

Lemma reads_nil d m : reads d m [] m.
Proof. intros fuel stop rest Hs Hf. by exists fuel. Qed.

Lemma reads_app d m b1 m1 b2 m2 : reads d m b1 m1 → reads d m1 b2 m2 → reads d m (b1 ++ b2) m2.
Proof.
  intros H1 H2 fuel stop rest Hs Hf. rewrite <-app_assoc in *. destruct (H1 fuel stop (b2 ++ rest)) as (f1 & Hf1 & E1); [rewrite length_app; lia|done|].
  destruct (H2 f1 stop rest) as (f2 & Hf2 & E2); [done|done|]. exists f2. by rewrite E1.
Qed.

Lemma reads_done d m bs m' fuel rest : reads d m bs m' → (length (bs ++ rest) < fuel)%nat → decodeLoop fuel d (Z.of_nat (length rest)) m (bs ++ rest) = Ok (m', rest).
Proof.
  intros Hr Hf. destruct (Hr fuel (Z.of_nat (length rest)) rest) as (fuel' & _ & ->); [lia|done|].
  destruct fuel'; cbn [decodeLoop]; unfold atEnd; by rewrite (proj2 (Z.leb_le _ _)) by lia.
Qed.

(** One turn of the loop. *)
Lemma reads_tag d m m' num w h c : 1 <= num < 2 ^ 29 → 0 <= w < 8 → tag num w = Some h →
  (∀ fuel stop rest, (length (c ++ rest) < fuel)%nat → stop <= Z.of_nat (length rest) →
     dispatch fuel (decodeLoop fuel) d stop m (num * 8 + w) (c ++ rest) = decodeLoop fuel d stop m' rest) →
  reads d m (h ++ c) m'.
Proof.
  intros Hn Hw Ht Hd fuel stop rest Hs Hf. rewrite <-app_assoc in *. destruct (uint32_back (num * 8 + w) h) with (rest := c ++ rest) as [Er Hl]; [lia|done|].
  destruct fuel as [|fuel]; [lia|]. exists fuel. rewrite length_app in Hl. cbn [decodeLoop]. unfold atEnd.
  rewrite (proj2 (Z.leb_gt _ _)) by (rewrite !length_app in *; lia). rewrite Er. cbn [rbind]. split; [rewrite !length_app in *; lia|].
  apply Hd; [rewrite !length_app in *; lia|done].
Qed.

Lemma tag_div num w : 0 <= w < 8 → (num * 8 + w) / 8 = num.
Proof. intros Hw. rewrite Z.div_add_l by lia. rewrite Z.div_small by lia. lia. Qed.
Lemma tag_mod num w : 0 <= w < 8 → (num * 8 + w) mod 8 = w.
Proof. intros Hw. rewrite Z.add_comm, Z_mod_plus_full. by apply Z.mod_small. Qed.

(** A field that the type does not have is passed over. *)
Lemma reads_unknown d m num w h c : 1 <= num < 2 ^ 29 → w = 0 ∨ w = 2 → caseOf d num = None → tag num w = Some h →
  (∀ rest, skip w (c ++ rest) = Some rest) → reads d m (h ++ c) m.
Proof.
  intros Hn Hw Hc Ht Hk. apply (reads_tag d m m num w); [done|lia|done|]. intros fuel stop rest Hf Hs. unfold dispatch.
  rewrite tag_div, Hc, tag_mod by lia. rewrite (proj2 (Z.eqb_neq w 4)), (proj2 (Z.eqb_neq (num * 8 + w) 0)) by lia. cbn [orb]. unfold skipField. by rewrite Hk.
Qed.

(** *** Lists *)

Lemma mapM_cons_some {A B} (f : A → option B) a l r : mapM f (a :: l) = Some r → ∃ b r', f a = Some b ∧ mapM f l = Some r' ∧ r = b :: r'.
Proof. intros Hm. cbn in Hm. destruct (f a) as [b|]; cbn in Hm; [|done]. destruct (mapM f l) as [r'|]; cbn in Hm; [|done]. injection Hm as <-. by exists b, r'. Qed.

Lemma andThen_some a b r : andThen a b = Some r → ∃ x y, a = Some x ∧ b = Some y ∧ r = x ++ y.
Proof. unfold andThen. destruct a as [x|], b as [y|]; cbn; try done. intros [= <-]. by exists x, y. Qed.

Lemma join_some c r : join c = Some r → ∃ bs h, c = Some bs ∧ write KUint32 (VNum (Z.of_nat (length bs))) = Some h ∧ r = h ++ bs.
Proof. unfold join. destruct c as [bs|]; cbn; [|done]. destruct (write _ _) as [h|] eqn:E; cbn; [|done]. intros [= <-]. by exists bs, h. Qed.

Lemma join_back c r : join c = Some r → ∃ bs, c = Some bs ∧ (∃ h, r = h ++ bs ∧ ∀ rest, readUint32 (h ++ bs ++ rest) = Ok (Z.of_nat (length bs), bs ++ rest) ∧ (length (bs ++ rest) < length (h ++ bs ++ rest))%nat) ∧
  ∀ rest, skip 2 (r ++ rest) = Some rest.
Proof.
  intros (bs & h & -> & Hh & ->)%join_some. exists bs. split; [done|]. split.
  - exists h. split; [done|]. intros rest. apply uint32_back; [|done]. by apply (write_uint32_range _ h).
  - intros rest. rewrite <-app_assoc. by apply skip_delimited.
Qed.

Lemma packed_back t vs bs rest fuel acc : forallb (wireScalar t) vs = true → flat <$> mapM (write (kindOf t)) vs = Some bs → (length (bs ++ rest) < fuel)%nat →
  readPacked fuel t (Z.of_nat (length rest)) acc (bs ++ rest) = Ok (acc ++ vs, rest).
Proof.
  revert bs fuel acc. induction vs as [|v vs IH]; intros bs fuel acc Hv Hw Hf.
  - injection Hw as <-. rewrite app_nil_r. destruct fuel; cbn [readPacked flat concat app]; unfold atEnd; by rewrite (proj2 (Z.leb_le _ _)) by lia.
  - apply andb_true_iff in Hv as [Hv Hvs]. destruct (mapM _ (v :: vs)) as [cs|] eqn:E; [|done]. injection Hw as <-.
    apply mapM_cons_some in E as (c & cs' & Ec & Ecs & ->). unfold flat in *. cbn [concat] in *. rewrite <-app_assoc in *.
    destruct (scalar_back t v c Hv Ec (concat cs' ++ rest)) as (Er & Hl & _). rewrite !length_app in *. destruct fuel as [|fuel]; [lia|]. cbn [readPacked].
    unfold atEnd. rewrite (proj2 (Z.leb_gt _ _)) by (rewrite !length_app; lia). rewrite Er. cbn [rbind].
    rewrite (IH (concat cs')); [by rewrite <-app_assoc|done|by rewrite Ecs|rewrite length_app; lia].
Qed.

(** *** One field *)

Lemma reads_single d m num x t v h c : caseOf d num = Some (Single num x t) → 1 <= num < 2 ^ 29 → wireScalar t v = true →
  tag num (wireType (kindOf t)) = Some h → write (kindOf t) v = Some c → reads d m (h ++ c) (mset x v m).
Proof.
  intros Hc Hn Hv Ht Hw. pose proof (wireType_two (kindOf t)). apply (reads_tag d m _ num (wireType (kindOf t))); [done|lia|done|].
  intros fuel stop rest Hf Hs. unfold dispatch. rewrite tag_div, Hc, Z.eqb_refl by lia. by destruct (scalar_back t v c Hv Hw rest) as (-> & _).
Qed.

Lemma reads_repeated d m num x t v h c : caseOf d num = Some (Repeated num x t) → 1 <= num < 2 ^ 29 → wireScalar t v = true →
  tag num (wireType (kindOf t)) = Some h → write (kindOf t) v = Some c → reads d m (h ++ c) (push m x [v]).
Proof.
  intros Hc Hn Hv Ht Hw. pose proof (wireType_two (kindOf t)). apply (reads_tag d m _ num (wireType (kindOf t))); [done|lia|done|].
  intros fuel stop rest Hf Hs. unfold dispatch. rewrite tag_div, Hc, Z.eqb_refl by lia. by destruct (scalar_back t v c Hv Hw rest) as (-> & _).
Qed.

Lemma reads_packed d m num x t vs h c : caseOf d num = Some (Packed num x t) → 1 <= num < 2 ^ 29 → forallb (wireScalar t) vs = true →
  tag num 2 = Some h → join (flat <$> mapM (write (kindOf t)) vs) = Some c → reads d m (h ++ c) (push m x vs).
Proof.
  intros Hc Hn Hv Ht Hj. apply join_back in Hj as (bs & Hb & (hd & -> & Hr) & _). apply (reads_tag d m _ num 2); [done|lia|done|].
  intros fuel stop rest Hf Hs. unfold dispatch. rewrite tag_div, Hc, Z.eqb_refl by lia. rewrite (proj2 (Z.eqb_neq _ (num * 8))) by lia.
  rewrite <-app_assoc in *. destruct (Hr rest) as [-> Hl]. cbn [rbind]. replace (Z.of_nat (length (bs ++ rest)) - Z.of_nat (length bs)) with (Z.of_nat (length rest)) by (rewrite length_app; lia).
  rewrite (packed_back t vs); [done|done|done|lia].
Qed.

(** A message inside: what the loop does with its bytes. *)
Lemma sub_back fs c o hd fuel rest : reads fs (createBase fs) c o →
  (readUint32 (hd ++ c ++ rest) = Ok (Z.of_nat (length c), c ++ rest) ∧ (length (c ++ rest) < length (hd ++ c ++ rest))%nat) → (length (hd ++ c ++ rest) < fuel)%nat →
  (let! (len, rest) := readUint32 (hd ++ c ++ rest) in decodeLoop fuel fs (Z.of_nat (length rest) - len) (createBase fs) rest) = Ok (o, rest).
Proof.
  intros Hr [-> Hl] Hf. cbn [rbind]. replace (Z.of_nat (length (c ++ rest)) - Z.of_nat (length c)) with (Z.of_nat (length rest)) by (rewrite length_app; lia).
  apply reads_done; [done|lia].
Qed.

Lemma reads_sub d m num x fs o h c r : caseOf d num = Some (Sub num x fs) → 1 <= num < 2 ^ 29 → reads fs (createBase fs) c o →
  tag num 2 = Some h → join (Some c) = Some r → reads d m (h ++ r) (mset x (VMsg o) m).
Proof.
  intros Hc Hn Ho Ht Hj. apply join_back in Hj as (bs & [= <-] & (hd & -> & Hr) & _). apply (reads_tag d m _ num 2); [done|lia|done|].
  intros fuel stop rest Hf Hs. unfold dispatch. rewrite tag_div, Hc, Z.eqb_refl by lia. rewrite <-app_assoc in *. by rewrite (sub_back fs c o).
Qed.

Lemma reads_subs d m num x fs o h c r : caseOf d num = Some (Subs num x fs) → 1 <= num < 2 ^ 29 → reads fs (createBase fs) c o →
  tag num 2 = Some h → join (Some c) = Some r → reads d m (h ++ r) (push m x [VMsg o]).
Proof.
  intros Hc Hn Ho Ht Hj. apply join_back in Hj as (bs & [= <-] & (hd & -> & Hr) & _). apply (reads_tag d m _ num 2); [done|lia|done|].
  intros fuel stop rest Hf Hs. unfold dispatch. rewrite tag_div, Hc, Z.eqb_refl by lia. rewrite <-app_assoc in *. by rewrite (sub_back fs c o).
Qed.

Lemma push_push m x l k vs : mget x m = Some (VList vs) → push (push m x l) x k = push m x (l ++ k).
Proof.
  intros Hm. unfold push, prop. rewrite mget_set, Hm, decide_True by done. cbn. rewrite app_assoc. generalize (VList (vs ++ l)). intros w.
  clear. induction m as [|[y u] m IH]; cbn; [by rewrite bool_decide_true|]. case_bool_decide; cbn; [by rewrite bool_decide_true|]. rewrite bool_decide_false by done. by rewrite IH.
Qed.

Lemma push_list m x l vs : mget x m = Some (VList vs) → push m x l = mset x (VList (vs ++ l)) m.
Proof. intros Hm. unfold push, prop. by rewrite Hm. Qed.

(** Elements one after the other. *)
Lemma reads_each {A} (d : message) x (w : A → option bytes) (val : A → value) (l : list A) cs m vs :
  (∀ a c m, a ∈ l → w a = Some c → reads d m c (push m x [val a])) → mapM w l = Some cs → mget x m = Some (VList vs) →
  reads d m (flat cs) (push m x (map val l)).
Proof.
  intros Hw Hm. revert cs m vs Hm. induction l as [|a l IH]; intros cs m vs Hm Hg.
  - injection Hm as <-. cbn [map]. rewrite (push_list m x [] vs), app_nil_r by done. rewrite mset_unchanged by done. apply reads_nil.
  - apply mapM_cons_some in Hm as (c & cs' & Ec & Ecs & ->). cbn [map]. change (val a :: map val l) with ([val a] ++ map val l). rewrite <-(push_push m x [val a] _ vs) by done.
    unfold flat. cbn [concat]. eapply reads_app; [by apply Hw; [left|]|]. apply (IH (λ a c m Ha, Hw a c m (list_elem_of_further _ _ _ Ha)) cs' _ (vs ++ [val a])); [done|].
    rewrite (push_list m x _ vs) by done. by rewrite mget_set, decide_True.
Qed.

(** ** A message *)

Abbreviation written fs o := (mapM (λ f, encodeField f (prop o (fname f))) fs).

(** What becomes of [m] when the field [f] of [o] is read. *)
Definition absorb (d : message) (o m : object) (f : field) : object :=
  match caseOf d (fnum f) with Some _ => mset (fname f) (prop o (fname f)) m | None => m end.

(** The reader knows a field as the writer does, or not at all. *)
Definition evolves (d d' : message) : Prop := Forall (λ f, caseOf d (fnum f) = Some f ∨ caseOf d (fnum f) = None) d'.

Definition fieldReads (f : field) : Prop := ∀ d v bs m,
  caseOf d (fnum f) = Some f → fieldOk f = true → shaped wireScalar f v = true → encodeField f v = Some bs → mget (fname f) m = Some (base f) →
  reads d m bs (mset (fname f) v m).

Lemma fieldOk_num f : fieldOk f = true → 1 <= fnum f < 2 ^ 29.
Proof. intros Hf. destruct f; cbn in *; b2p; lia. Qed.

Lemma reads_unknown_field d f v bs m : caseOf d (fnum f) = None → fieldOk f = true → shaped wireScalar f v = true → encodeField f v = Some bs → reads d m bs m.
Proof.
  intros Hc Hf Hv He. pose proof (fieldOk_num f Hf) as Hn.
  assert (Hscalar : ∀ t v h c, wireScalar t v = true → tag (fnum f) (wireType (kindOf t)) = Some h → write (kindOf t) v = Some c → reads d m (h ++ c) m).
  { intros t v' h c Hv' Ht Hw. eapply reads_unknown; [done|apply wireType_two|done|done|]. intros rest. by destruct (scalar_back t v' c Hv' Hw rest) as (_ & _ & ?). }
  assert (Hchunk : ∀ h c r, tag (fnum f) 2 = Some h → join c = Some r → reads d m (h ++ r) m).
  { intros h c r Ht (bs' & _ & _ & Hs)%join_back. eapply reads_unknown; [done|by right|done|done|done]. }
  assert (Heach : ∀ (A : Type) (w : A → option bytes) l cs, mapM w l = Some cs → (∀ a c, a ∈ l → w a = Some c → reads d m c m) → reads d m (flat cs) m).
  { intros A w l. induction l as [|a l IH]; intros cs Hm Hw; [injection Hm as <-; apply reads_nil|]. apply mapM_cons_some in Hm as (c & cs' & Ec & Ecs & ->).
    unfold flat. cbn [concat]. eapply reads_app; [apply (Hw a); [by left|done]|]. apply (IH cs' Ecs). intros b c' Hb. apply Hw. by right. }
  destruct f as [num x t|num x t|num x t|num x fs|num x fs]; cbn [encodeField shaped] in He, Hv; cbn [fnum] in *.
  - destruct (omitted t v); [injection He as <-; apply reads_nil|]. apply andThen_some in He as (h & c & Eh & Ec & ->). by eapply Hscalar.
  - destruct v as [| | | | | | |vs|]; try done. apply andThen_some in He as (h & c & Eh & Ec & ->). by eapply Hchunk.
  - destruct v as [| | | | | | |vs|]; try done. destruct (mapM _ vs) as [cs|] eqn:E; [|done]. injection He as <-. apply (Heach _ _ _ _ E).
    intros v c Hin (h & c' & Eh & Ec & ->)%andThen_some. eapply Hscalar; [|done|done]. eapply forallb_forall in Hv; [done|by apply list_elem_of_In].
  - destruct v as [| | | | | | | |o]; try done; [injection He as <-; apply reads_nil|]. apply andThen_some in He as (h & c & Eh & Ec & ->). by eapply Hchunk.
  - destruct v as [| | | | | | |vs|]; try done. destruct (mapM _ vs) as [cs|] eqn:E; [|done]. injection He as <-. apply (Heach _ _ _ _ E).
    intros [] c Hin; try done. intros (h & c' & Eh & Ec & ->)%andThen_some. by eapply Hchunk.
Qed.

Lemma caseOf_evolves d : NoDup (map fnum d) → evolves d d.
Proof. intros Hd. apply Forall_forall. intros f Hf. left. by apply caseOf_self. Qed.

(** Reading the fields [d'] of [o]. *)
Lemma reads_fields d d' o m cs : Forall fieldReads d' → evolves d d' → NoDup (map fname d') → forallb fieldOk d' = true →
  Forall (λ f, shaped wireScalar f (prop o (fname f)) = true) d' → Forall (λ f, caseOf d (fnum f) = Some f → mget (fname f) m = Some (base f)) d' →
  written d' o = Some cs → reads d m (flat cs) (foldl (absorb d o) m d').
Proof.
  intros Hr He Hd Hok Hv Hb Hw. revert cs m Hb Hw. induction d' as [|f d' IH]; intros cs m Hb Hw; [injection Hw as <-; apply reads_nil|].
  apply mapM_cons_some in Hw as (c & cs' & Ec & Ecs & ->). unfold flat. cbn [concat foldl].
  apply Forall_cons in Hr as [Hf Hr]. apply Forall_cons in He as [Hk He]. cbn [map] in Hd. apply NoDup_cons in Hd as [Hn Hd].
  cbn [forallb] in Hok. apply andb_true_iff in Hok as [Hok1 Hok]. apply Forall_cons in Hv as [Hv1 Hv]. apply Forall_cons in Hb as [Hb1 Hb].
  assert (Hnames : ∀ g, g ∈ d' → fname g ≠ fname f) by (intros g Hg E; apply Hn; rewrite <-E; by apply (list_elem_of_fmap_2 fname)).
  eapply reads_app; [|apply (IH Hr He Hd Hok Hv cs'); [|done]].
  - unfold absorb. destruct Hk as [Hk|Hk]; rewrite Hk; [by apply Hf; [..|apply Hb1]|by eapply reads_unknown_field].
  - apply Forall_forall. intros g Hg Hcg. rewrite Forall_forall in Hb. specialize (Hb g Hg Hcg). unfold absorb. destruct (caseOf d (fnum f)); [|done].
    rewrite mget_set, decide_False; [done|]. intros E. by apply (Hnames g).
Qed.

(** *** What the reader sees *)

(** The fields of [d], those that [d'] has with their values in [o]. *)
Definition seen (d d' : message) (o : object) : object :=
  map (λ f, (fname f, match caseOf d' (fnum f) with Some _ => prop o (fname f) | None => base f end)) d.

Lemma mset_map (d : message) (φ : field → value) g w : NoDup (map fname d) → g ∈ d →
  mset (fname g) w (map (λ f, (fname f, φ f)) d) = map (λ f, (fname f, if bool_decide (fname f = fname g) then w else φ f)) d.
Proof.
  induction d as [|f d IH]; [intros _ []%not_elem_of_nil|]. intros [Hf Hd]%NoDup_cons Hg. cbn [map mset]. case_bool_decide as E.
  - f_equal. apply map_ext_in. intros h Hh%list_elem_of_In. rewrite bool_decide_false; [done|]. rewrite <-E. intros E'. apply Hf. rewrite <-E'. by apply (list_elem_of_fmap_2 fname).
  - apply elem_of_cons in Hg as [->|Hg]; [done|]. by rewrite IH.
Qed.

Lemma absorb_map d d' o φ : NoDup (map fname d) → evolves d d' →
  foldl (absorb d o) (map (λ f, (fname f, φ f)) d) d' =
  map (λ f, (fname f, if existsb (λ g, bool_decide (fname f = fname g) && (if caseOf d (fnum g) is Some _ then true else false)) d' then prop o (fname f) else φ f)) d.
Proof.
  intros Hd. revert φ. induction d' as [|g d' IH]; intros φ [Hg He]%Forall_cons_1 || intros φ He; cbn [foldl existsb]; [done|].
  unfold absorb at 2. destruct (caseOf d (fnum g)) as [g'|] eqn:Eg.
  - destruct Hg as [[= ->]|]; [|done]. apply caseOf_elem in Eg as [Hin _]. rewrite (mset_map d φ g) by done.
    rewrite (IH (λ f, if bool_decide (fname f = fname g) then prop o (fname g) else φ f)) by done. apply map_ext. intros f. f_equal. case_bool_decide as E; cbn; [rewrite E; by case_goal|done].
  - rewrite IH by done. apply map_ext. intros f. by rewrite andb_false_r.
Qed.

Lemma foldl_seen d d' o : distinct d = true → distinct d' = true → evolves d d' → foldl (absorb d o) (createBase d) d' = seen d d' o.
Proof.
  intros [Hn Hx]%distinct_nodup [Hn' Hx']%distinct_nodup He. unfold createBase. rewrite (absorb_map d d' o base) by done. unfold seen.
  apply map_ext_in. intros f Hf%list_elem_of_In. f_equal. destruct (caseOf d' (fnum f)) as [g|] eqn:Eg.
  - apply caseOf_elem in Eg as [Hg Eg]. unfold evolves in He. rewrite Forall_forall in He.
    assert (Hs : caseOf d (fnum g) = Some f) by (rewrite Eg; by apply caseOf_self).
    destruct (He g Hg) as [Ek|Ek]; [|congruence]. assert (g = f) as -> by congruence.
    rewrite (proj2 (existsb_exists _ _)); [done|]. exists f. split; [by apply list_elem_of_In|]. by rewrite bool_decide_true, Hs.
  - destruct (existsb _ d') eqn:E; [|done]. apply existsb_exists in E as (g & Hg%list_elem_of_In & [Hname Hk]%andb_true_iff). apply bool_decide_eq_true in Hname.
    unfold evolves in He. rewrite Forall_forall in He. destruct (He g Hg) as [Ek|Ek]; rewrite Ek in Hk; [|done].
    apply caseOf_elem in Ek as [Hgd _]. rewrite (name_inj d f g) in Eg by done. rewrite caseOf_self in Eg; done.
Qed.

Lemma seen_self p d o : distinct d = true → shapedMessage p d o = true → seen d d o = o.
Proof.
  intros [Hn Hx]%distinct_nodup Ho. unfold seen. transitivity (map (λ f, (fname f, prop o (fname f))) d); [|by apply (shaped_props p)]. apply map_ext_in. intros f Hf%list_elem_of_In. by rewrite caseOf_self.
Qed.

Lemma createBase_base d f : NoDup (map fname d) → f ∈ d → mget (fname f) (createBase d) = Some (base f).
Proof.
  unfold createBase. induction d as [|g d IH]; [intros _ []%not_elem_of_nil|]. intros [Hg Hd]%NoDup_cons Hf. cbn [map mget].
  apply elem_of_cons in Hf as [->|Hf]; [by rewrite bool_decide_true|]. rewrite bool_decide_false; [by apply IH|].
  intros E. apply Hg. rewrite E. by apply (list_elem_of_fmap_2 fname).
Qed.

Lemma reads_message d d' o bs : Forall fieldReads d' → distinct d = true → messageOk d' = true → evolves d d' → valid d' o = true →
  encode d' o = Some bs → reads d (createBase d) bs (seen d d' o).
Proof.
  intros Hr Hd [Hd' Hok]%andb_true_iff He Ho Hw. destruct (written d' o) as [cs|] eqn:E; unfold encode in Hw; rewrite E in Hw; [|done]. injection Hw as <-.
  rewrite <-foldl_seen by done. pose proof Hd as [Hn Hx]%distinct_nodup. pose proof Hd' as [Hn' Hx']%distinct_nodup.
  apply (reads_fields d d' o); try done; apply Forall_forall; intros f Hf.
  - by apply (shaped_prop _ d').
  - intros [Hin _]%caseOf_elem. by apply createBase_base.
Qed.

Lemma fieldReads_all f : fieldReads f.
Proof.
  induction f as [num x t|num x t|num x t|num x fs IH|num x fs IH] using field_rect'; intros d v bs m Hc Hf Hv He Hm; pose proof (fieldOk_num _ Hf) as Hn;
    cbn [fnum fname base] in *; cbn [encodeField] in He.
  - destruct (omitted t v) eqn:Eo.
    + injection He as <-. rewrite mset_unchanged; [apply reads_nil|]. rewrite Hm. by rewrite (omitted_default t v).
    + apply andThen_some in He as (h & c & Eh & Ec & ->). by eapply reads_single.
  - destruct v as [| | | | | | |vs|]; try done. apply andThen_some in He as (h & c & Eh & Ec & ->).
    replace (mset x (VList vs) m) with (push m x vs) by by rewrite (push_list m x vs []). by eapply reads_packed.
  - destruct v as [| | | | | | |vs|]; try done. destruct (mapM _ vs) as [cs|] eqn:E; [|done]. injection He as <-.
    replace (mset x (VList vs) m) with (push m x (map id vs)) by (rewrite map_id; by rewrite (push_list m x vs [])).
    eapply reads_each; [|exact E|exact Hm]. intros v c m' Hin (h & c' & Eh & Ec & ->)%andThen_some.
    eapply reads_repeated; try done. cbn [shaped] in Hv. eapply forallb_forall in Hv; [done|by apply list_elem_of_In].
  - cbn [fieldOk] in Hf. apply andb_true_iff in Hf as [_ Hfs].
    destruct v as [| | | | | | | |o]; try done; [injection He as <-; rewrite mset_unchanged by done; apply reads_nil|]. rewrite shaped_sub in Hv.
    apply andThen_some in He as (h & c & Eh & Ec & ->). pose proof Ec as (bs & _ & Eb & _)%join_some. change (encode fs o = Some bs) in Eb.
    eapply (reads_sub d m num x fs o h bs); try done; [|unfold encode in Eb; by rewrite <-Eb].
    pose proof Hfs as [Hdd _]%andb_true_iff. rewrite <-(seen_self wireScalar fs o) by done. apply reads_message; try done. apply caseOf_evolves. by apply distinct_nodup in Hdd as [? _].
  - cbn [fieldOk] in Hf. apply andb_true_iff in Hf as [_ Hfs].
    destruct v as [| | | | | | |vs|]; try done. rewrite shaped_subs in Hv. destruct (mapM _ vs) as [cs|] eqn:E; [|done]. injection He as <-.
    replace (mset x (VList vs) m) with (push m x (map id vs)) by (rewrite map_id; by rewrite (push_list m x vs [])).
    eapply reads_each; [|exact E|exact Hm]. intros v c m' Hin Hw. eapply forallb_forall in Hv; [|by apply list_elem_of_In].
    destruct v as [| | | | | | | |o]; try done. apply andThen_some in Hw as (h & c' & Eh & Ec & ->). pose proof Ec as (bs & _ & Eb & _)%join_some. change (encode fs o = Some bs) in Eb.
    eapply (reads_subs d m' num x fs o h bs); try done; [|unfold encode in Eb; by rewrite <-Eb].
    pose proof Hfs as [Hdd _]%andb_true_iff. rewrite <-(seen_self wireScalar fs o) by done. apply reads_message; try done. apply caseOf_evolves. by apply distinct_nodup in Hdd as [? _].
Qed.

(** What a reader with the type [d] sees of a message of type [d']. *)
Lemma decode_written d d' o bs : distinct d = true → messageOk d' = true → evolves d d' → valid d' o = true →
  encode d' o = Some bs → decode d bs = Ok (seen d d' o).
Proof.
  intros Hd Hd' He Ho Hw. unfold decode. rewrite <-(app_nil_r bs) at 2. change 0 with (Z.of_nat (length (@nil Z))).
  rewrite (reads_done d _ bs (seen d d' o)); [done| |rewrite app_nil_r; lia].
  apply reads_message; try done. apply Forall_forall. intros f _. apply fieldReads_all.
Qed.

(** ** Decoding ends *)

(** A step that does not run out of fuel and does not go back. *)
Definition fine {A} (rest : bytes) (r : result DecodeError (A * bytes)) : Prop :=
  match r with Ok (_, rest') => (length rest' <= length rest)%nat | Err BadWire => True | Err OutOfFuel => False end.

Lemma fine_bind {A B} rest (r : result DecodeError (A * bytes)) (k : A * bytes → result DecodeError (B * bytes)) :
  fine rest r → (∀ a rest', r = Ok (a, rest') → fine rest' (k (a, rest'))) → fine rest (let! x := r in k x).
Proof.
  destruct r as [[a rest']|[]]; cbn; try done. intros Hr Hk. specialize (Hk a rest' eq_refl). unfold fine in *. destruct (k (a, rest')) as [[b r2]|[]]; try done. lia.
Qed.

Lemma fine_weaken {A} r1 r2 (r : result DecodeError (A * bytes)) : (length r1 <= length r2)%nat → fine r1 r → fine r2 r.
Proof. unfold fine. destruct r as [[a r']|[]]; try done. lia. Qed.

Lemma readScalar_fine t rest : fine rest (readScalar t rest) ∧ ∀ v r, readScalar t rest = Ok (v, r) → (length r < length rest)%nat.
Proof.
  unfold readScalar. destruct (read (kindOf t) rest) as [[v r]|] eqn:E; [|done]. apply read_advances in E. cbn. split; [lia|]. intros ? ? [= _ <-]. done.
Qed.

Lemma readUint32_fine rest : fine rest (readUint32 rest) ∧ ∀ v r, readUint32 rest = Ok (v, r) → (length r < length rest)%nat.
Proof.
  unfold readUint32. destruct (read KUint32 rest) as [[[] r]|] eqn:E; try done. apply read_advances in E. cbn. split; [lia|]. intros ? ? [= _ <-]. done.
Qed.

Lemma readPacked_fine fuel t stop acc rest : (length rest < fuel)%nat → fine rest (readPacked fuel t stop acc rest).
Proof.
  revert acc rest. induction fuel as [|fuel IH]; intros acc rest Hf; [lia|]. cbn [readPacked]. case_goal; [cbn; lia|].
  destruct (readScalar_fine t rest) as [Hs Hl]. apply fine_bind; [done|]. intros v r E. apply IH. apply Hl in E. lia.
Qed.

Lemma decodeLoop_fine fuel d stop m rest : (length rest < fuel)%nat → fine rest (decodeLoop fuel d stop m rest).
Proof.
  revert d stop m rest. induction fuel as [|fuel IH]; intros d stop m rest Hf; [lia|]. cbn [decodeLoop]. case_goal; [cbn; lia|].
  destruct (readUint32_fine rest) as [Hs Hl]. apply fine_bind; [done|]. intros tg r Et. apply Hl in Et.
  assert (Hloop : ∀ d stop m r', (length r' <= length r)%nat → fine r' (decodeLoop fuel d stop m r')) by (intros; apply IH; lia).
  assert (Hunknown : fine r (if (tg mod 8 =? 4) || (tg =? 0) then Ok (m, r) else let! r := skipField (tg mod 8) r in decodeLoop fuel d stop m r)).
  { case_goal; [cbn; lia|]. unfold skipField. destruct (skip _ r) as [r'|] eqn:E; [|done]. apply skip_advances in E. cbn [rbind].
    apply (fine_weaken r'); [done|by apply Hloop]. }
  assert (Hscalar : ∀ t m', fine r (let! (v, r) := readScalar t r in decodeLoop fuel d stop (m' v) r)).
  { intros t m'. destruct (readScalar_fine t r) as [Hf1 Hl1]. apply fine_bind; [done|]. intros v r' E. apply Hl1 in E. apply Hloop. lia. }
  assert (Hsub : ∀ fs m', fine r (let! (v, r) := let! (len, r) := readUint32 r in decodeLoop fuel fs (Z.of_nat (length r) - len) (createBase fs) r in decodeLoop fuel d stop (m' v) r)).
  { intros fs m'. destruct (readUint32_fine r) as [Hf1 Hl1]. apply fine_bind.
    - apply fine_bind; [done|]. intros v r' E. apply Hl1 in E. apply Hloop. lia.
    - intros v r' E. apply Hloop. destruct (readUint32 r) as [[len r1]|] eqn:E1; [|done]. cbn [rbind] in E. specialize (Hl1 len r1 eq_refl).
      pose proof (Hloop fs (Z.of_nat (length r1) - len) (createBase fs) r1 ltac:(lia)) as Hb. rewrite E in Hb. cbn in Hb. lia. }
  unfold dispatch. destruct (caseOf d (tg / 8)) as [[num x t|num x t|num x t|num x fs|num x fs]|]; [..|done];
    repeat (case_goal; [first [by apply (Hscalar t (λ v, mset x v m))|by apply (Hscalar t (λ v, push m x [v]))|by apply (Hsub fs (λ v, mset x (VMsg v) m))|by apply (Hsub fs (λ v, push m x [VMsg v]))|idtac]|]); try done.
  destruct (readUint32_fine r) as [Hf1 Hl1]. apply fine_bind; [done|]. intros len r' E. apply Hl1 in E.
  assert (Hp : fine r' (readPacked fuel t (Z.of_nat (length r') - len) [] r')) by (apply readPacked_fine; lia).
  apply fine_bind; [done|]. intros vs r2 E2. rewrite E2 in Hp. cbn in Hp. apply Hloop. lia.
Qed.

Lemma decode_ends d input : decode d input ≠ Err OutOfFuel.
Proof.
  unfold decode. pose proof (decodeLoop_fine (S (length input)) d 0 (createBase d) input ltac:(lia)) as Hf. destruct (decodeLoop _ _ _ _ _) as [[m r]|[]]; try done.
Qed.

(** ** Encoding succeeds *)

(** The bytes that a value may take. *)
Fixpoint weight (v : value) : Z :=
  match v with
  | VList vs => 40 + sumZ (map weight vs)
  | VMsg fields => 40 + sumZ (map (λ kv, weight kv.2) fields)
  | v => 40 + payload v
  end.

Lemma weight_pos : ∀ v, 40 <= weight v.
Proof.
  fix IH 1. intros [|s|z|z| |b|bs|vs|fields]; cbn [weight payload]; try lia.
  - enough (0 <= sumZ (map weight vs)) by lia. induction vs as [|v vs IHvs]; cbn [map]; [done|]. rewrite sumZ_cons. pose proof (IH v). lia.
  - enough (0 <= sumZ (map (λ kv, weight kv.2) fields)) by lia. induction fields as [|[x v] fields IHf]; cbn [map]; [done|]. rewrite sumZ_cons. pose proof (IH v). cbn [snd]. lia.
Qed.

(** [w] writes at most [n] bytes. *)
Definition writes (w : option bytes) (n : Z) : Prop := ∃ c, w = Some c ∧ Z.of_nat (length c) <= n.

Lemma writes_each {A} (w : A → option bytes) (wt : A → Z) l : (∀ a, a ∈ l → 0 <= wt a) → (∀ a, a ∈ l → wt a < 2 ^ 32 → writes (w a) (wt a)) →
  sumZ (map wt l) < 2 ^ 32 → writes (flat <$> mapM w l) (sumZ (map wt l)).
Proof.
  induction l as [|a l IH]; intros Hp Hw Hs; [by exists []|]. cbn [map] in *. rewrite sumZ_cons in *.
  assert (0 <= sumZ (map wt l)) by (apply sumZ_nonneg, List.Forall_forall; intros z (b & <- & Hb%list_elem_of_In)%in_map_iff; apply Hp; by right).
  pose proof (Hp a ltac:(by left)). destruct (Hw a) as (c & Ec & Hc); [by left|lia|].
  destruct IH as (cs & Ecs & Hcs); [intros; apply Hp; by right|intros; apply Hw; [by right|done]|lia|].
  destruct (mapM w l) as [cl|] eqn:E; [|done]. injection Ecs as <-. exists (flat (c :: cl)). split; [cbn; rewrite Ec; cbn; by rewrite E|].
  unfold flat in *. cbn [concat]. rewrite length_app. lia.
Qed.

Lemma writes_tag num w n c : 1 <= num < 2 ^ 29 → 0 <= w < 8 → writes c n → writes (andThen (tag num w) c) (10 + n).
Proof.
  intros Hn Hw (bs & -> & Hb). destruct (write_canon KUint32 (VNum (num * 8 + w)) (VNum (num * 8 + w))) as (h & Eh & Hl & _); [constructor; lia|].
  exists (h ++ bs). unfold andThen, tag. rewrite Eh. split; [done|]. rewrite length_app. cbn [payload] in Hl. lia.
Qed.

Lemma writes_join c n : n < 2 ^ 32 → writes c n → writes (join c) (10 + n).
Proof.
  intros Hn (bs & -> & Hb). destruct (write_canon KUint32 (VNum (Z.of_nat (length bs))) (VNum (Z.of_nat (length bs)))) as (h & Eh & Hl & _); [constructor; lia|].
  exists (h ++ bs). unfold join. cbn. rewrite Eh. split; [done|]. rewrite length_app. cbn [payload] in Hl. lia.
Qed.

Lemma writes_weaken c n m : n <= m → writes c n → writes c m.
Proof. intros Hn (bs & -> & Hb). exists bs. split; [done|lia]. Qed.

Lemma writes_scalar t v : wireScalar t v = true → writes (write (kindOf t) v) (10 + payload v) ∧ weight v = 40 + payload v.
Proof.
  intros Hv. destruct (wireScalar_canon t v Hv) as (r & Hc & _). split; [|by destruct Hc]. destruct (write_canon _ _ _ Hc) as (bs & E & Hl & _). by exists bs.
Qed.

Definition fieldWrites (f : field) : Prop := ∀ v, fieldOk f = true → shaped wireScalar f v = true → weight v < 2 ^ 32 → writes (encodeField f v) (weight v).

Lemma writes_message d o : Forall fieldWrites d → messageOk d = true → valid d o = true → weight (VMsg o) < 2 ^ 32 → writes (encode d o) (weight (VMsg o) - 40).
Proof.
  intros Hw [[Hn Hx]%distinct_nodup Hok]%andb_true_iff Ho Hs. unfold encode. pose proof (shaped_props _ _ _ Hx Ho) as Ep. cbn [weight] in *.
  assert (Es : sumZ (map (λ kv, weight kv.2) o) = sumZ (map (λ f, weight (prop o (fname f))) d)) by (rewrite <-Ep at 1; by rewrite map_map).
  rewrite Es in *.
  apply (writes_weaken _ (sumZ (map (λ f, weight (prop o (fname f))) d))); [lia|]. apply writes_each; [intros f _; pose proof (weight_pos (prop o (fname f))); lia| |lia].
  intros f Hf Hl. rewrite Forall_forall in Hw. apply Hw; [done| |by apply (shaped_prop _ d)|done]. eapply forallb_forall in Hok; [done|by apply list_elem_of_In].
Qed.

Lemma fieldWrites_all f : fieldWrites f.
Proof.
  induction f as [num x t|num x t|num x t|num x fs IH|num x fs IH] using field_rect'; intros v Hf Hv Hs; pose proof (fieldOk_num _ Hf) as Hn; pose proof (weight_pos v);
    cbn [fnum] in *; cbn [encodeField].
  - destruct (omitted t v); [exists []; split; [done|cbn; lia]|]. destruct (writes_scalar t v Hv) as [Hw Ew]. pose proof (wireType_two (kindOf t)).
    eapply writes_weaken; [|apply writes_tag; [done|lia|exact Hw]]. lia.
  - destruct v as [| | | | | | |vs|]; try done. cbn [weight] in *. cbn [shaped] in Hv.
    assert (Hsc : ∀ v, v ∈ vs → wireScalar t v = true) by (intros v Hv'; eapply forallb_forall in Hv; [done|by apply list_elem_of_In]).
    eapply writes_weaken; [|apply writes_tag; [done|lia|]; apply writes_join; [|apply (writes_each _ weight)]]; try lia; [intros v _; pose proof (weight_pos v); lia|].
    intros v Hin _. destruct (writes_scalar t v (Hsc v Hin)) as [Hw Ew]. eapply writes_weaken; [|exact Hw]. lia.
  - destruct v as [| | | | | | |vs|]; try done. cbn [weight] in *. cbn [shaped] in Hv.
    assert (Hsc : ∀ v, v ∈ vs → wireScalar t v = true) by (intros v Hv'; eapply forallb_forall in Hv; [done|by apply list_elem_of_In]).
    eapply writes_weaken; [|apply (writes_each _ weight)]; try lia; [intros v _; pose proof (weight_pos v); lia|].
    intros v Hin _. destruct (writes_scalar t v (Hsc v Hin)) as [Hw Ew]. pose proof (wireType_two (kindOf t)). eapply writes_weaken; [|apply writes_tag; [done|lia|exact Hw]]. lia.
  - cbn [fieldOk] in Hf. apply andb_true_iff in Hf as [_ Hfs]. destruct v as [| | | | | | | |o]; try done; [by exists []|]. rewrite shaped_sub in Hv.
    eapply writes_weaken; [|apply writes_tag; [done|lia|]; apply writes_join; [|by apply (writes_message fs o)]]; lia.
  - cbn [fieldOk] in Hf. apply andb_true_iff in Hf as [_ Hfs]. destruct v as [| | | | | | |vs|]; try done. rewrite shaped_subs in Hv. cbn [weight] in *.
    eapply writes_weaken; [|apply (writes_each _ weight)]; try lia; [intros v _; pose proof (weight_pos v); lia|].
    intros v Hin Hl. eapply forallb_forall in Hv; [|by apply list_elem_of_In]. destruct v as [| | | | | | | |o]; try done.
    eapply writes_weaken; [|apply writes_tag; [done|lia|]; apply writes_join; [|by apply (writes_message fs o)]]; lia.
Qed.

Lemma encode_succeeds d o : messageOk d = true → valid d o = true → weight (VMsg o) < 2 ^ 32 → ∃ bs, encode d o = Some bs.
Proof.
  intros Hd Ho Hs. destruct (writes_message d o) as (bs & E & _); [apply Forall_forall; intros f _; apply fieldWrites_all|done..|]. by exists bs.
Qed.

End reading.

(** ** Types

    Whatever is read, the result is a message of its type. *)

(** The TypeScript type of a field. *)
Definition typedScalar (t : scalar) (v : value) : bool :=
  match t, v with
  | (TString | TUint64 | TInt64), VStr _ | (TUint32 | TInt32 | TEnum _), (VNum _ | VNaN) | TBool, VBool _ | TBytes, VBytes _ => true
  | _, _ => false
  end.
Abbreviation typed := (shapedMessage typedScalar).

Lemma shaped_base p f : (∀ t, p t (defaultOf t) = true) → shaped p f (base f) = true.
Proof. intros Hp. by destruct f; cbn. Qed.

Lemma shaped_of_props p (d : message) (m : object) : map fst m = map fname d → Forall (λ f, shaped p f (prop m (fname f)) = true) d → NoDup (map fname d) → shapedMessage p d m = true.
Proof.
  revert m. induction d as [|f d IH]; intros [|[x v] m]; try done. cbn [map fst]. intros [= -> Em] [Hf Hd]%Forall_cons [Hn Hx]%NoDup_cons. cbn [shapedMessage].
  rewrite bool_decide_true by done. rewrite prop_cons, bool_decide_true in Hf by done. rewrite Hf. cbn. apply IH; [done| |done].
  apply Forall_forall. intros g Hg. rewrite Forall_forall in Hd. specialize (Hd g Hg). rewrite prop_cons, bool_decide_false in Hd; [done|].
  intros E. apply Hn. rewrite E. by apply (list_elem_of_fmap_2 fname).
Qed.

Lemma shaped_names p d m : shapedMessage p d m = true → map fst m = map fname d.
Proof.
  revert m. induction d as [|f d IH]; intros [|[x v] m]; try done. cbn. intros [[->%bool_decide_eq_true _]%andb_true_iff Hm]%andb_true_iff. by rewrite (IH m).
Qed.

Lemma prop_mset x v (m : object) y : prop (mset x v m) y = if decide (x = y) then v else prop m y.
Proof. unfold prop. rewrite mget_set. by case_decide. Qed.

(** Assigning a value of its type to a field. *)
Lemma shaped_mset p d m f v : NoDup (map fname d) → shapedMessage p d m = true → f ∈ d → shaped p f v = true → shapedMessage p d (mset (fname f) v m) = true.
Proof.
  intros Hd Hm Hf Hv. pose proof (shaped_names _ _ _ Hm) as En. apply shaped_of_props; [|apply Forall_forall; intros g Hg|done].
  - rewrite <-En. pose proof (mset_keys (fname f) v m) as Hk. change (@fmap list list_fmap _ _ fst) with (@map (string * value) string fst) in Hk. rewrite Hk.
    destruct (mhas (fname f) m) eqn:Eh; [done|]. exfalso. unfold mhas in Eh. destruct (mget (fname f) m) as [w|] eqn:Eg; [done|].
    assert (Hin : fname f ∈ m.*1) by (change (fname f ∈ map fst m); rewrite En; by apply (list_elem_of_fmap_2 fname)). apply mget_keys in Hin as [w Ew]. congruence.
  - rewrite prop_mset. case_decide as E; [|by apply (shaped_prop _ d)]. apply (name_inj d f g) in E; [by subst|done..].
Qed.

Lemma shaped_push p d m f vs l : NoDup (map fname d) → shapedMessage p d m = true → f ∈ d → prop m (fname f) = VList vs → shaped p f (VList (vs ++ l)) = true →
  shapedMessage p d (push m (fname f) l) = true.
Proof. intros Hd Hm Hf Hp Hv. unfold push. rewrite Hp. by apply shaped_mset. Qed.

Lemma typed_base d : NoDup (map fname d) → typed d (createBase d) = true.
Proof.
  intros Hd. apply shaped_of_props; [unfold createBase; rewrite map_map; done| |done]. apply Forall_forall. intros f Hf. unfold prop.
  rewrite createBase_base by done. apply shaped_base. by intros [].
Qed.

Section types.
Context `{WireLaws}.

Lemma readScalar_typed t rest v rest' : readScalar t rest = Ok (v, rest') → typedScalar t v = true.
Proof.
  unfold readScalar. destruct (read (kindOf t) rest) as [[w r]|] eqn:E; [|done]. apply read_typed in E. intros [= <- _]. by destruct t, w.
Qed.

Lemma readPacked_typed fuel t stop acc rest vs rest' : forallb (typedScalar t) acc = true → readPacked fuel t stop acc rest = Ok (vs, rest') → forallb (typedScalar t) vs = true.
Proof.
  revert acc rest. induction fuel as [|fuel IH]; intros acc rest Ha; cbn [readPacked]; case_goal; try done; [by intros [= <- _]..|].
  destruct (readScalar t rest) as [[v r]|] eqn:E; [|done]. apply readScalar_typed in E. cbn [rbind]. apply IH. rewrite forallb_app, Ha. cbn. by rewrite E.
Qed.

Lemma decodeLoop_typed fuel d stop m rest m' rest' : messageOk d = true → typed d m = true → decodeLoop fuel d stop m rest = Ok (m', rest') → typed d m' = true.
Proof.
  revert d stop m rest m' rest'. induction fuel as [|fuel IH]; intros d stop m rest m' rest' Hd Hm; cbn [decodeLoop]; case_goal; try done; [by intros [= <- _]..|].
  destruct (readUint32 rest) as [[tg r]|]; [|done]. cbn [rbind]. pose proof Hd as [[Hnum Hx]%distinct_nodup Hok]%andb_true_iff.
  assert (Hunknown : (if (tg mod 8 =? 4) || (tg =? 0) then Ok (m, r) else let! r := skipField (tg mod 8) r in decodeLoop fuel d stop m r) = Ok (m', rest') → typed d m' = true).
  { case_goal; [by intros [= <- _]|]. destruct (skipField _ r) as [r'|]; [|done]. cbn [rbind]. by apply IH. }
  unfold dispatch. destruct (caseOf d (tg / 8)) as [f|] eqn:Ef; [|done]. apply caseOf_elem in Ef as [Hin _].
  pose proof (shaped_prop _ _ _ _ Hx Hm Hin) as Hp. assert (Hfok : fieldOk f = true) by (eapply forallb_forall in Hok; [done|by apply list_elem_of_In]).
  assert (Hsub : ∀ num x fs v r2, (f = Sub num x fs ∨ f = Subs num x fs) →
    (let! (len, r) := readUint32 r in decodeLoop fuel fs (Z.of_nat (length r) - len) (createBase fs) r) = Ok (v, r2) → typed fs v = true).
  { intros num x fs v r2 Hf. assert (Hfs : messageOk fs = true) by (destruct Hf; subst; cbn in Hfok; by apply andb_true_iff in Hfok as [_ ?]).
    destruct (readUint32 r) as [[len r1]|]; [|done]. cbn [rbind]. apply IH; [done|]. apply typed_base. by apply andb_true_iff in Hfs as [[_ ?]%distinct_nodup _]. }
  assert (Hlist : ∀ vs, prop m (fname f) = VList vs → ∀ l r2, shaped typedScalar f (VList (vs ++ l)) = true → decodeLoop fuel d stop (push m (fname f) l) r2 = Ok (m', rest') → typed d m' = true).
  { intros vs Ep l r2 Hv. apply IH; [done|]. by apply (shaped_push _ _ _ _ vs). }
  assert (Hset : ∀ v r2, shaped typedScalar f v = true → decodeLoop fuel d stop (mset (fname f) v m) r2 = Ok (m', rest') → typed d m' = true).
  { intros v r2 Hv. apply IH; [done|]. by apply shaped_mset. }
  destruct f as [num x t|num x t|num x t|num x fs|num x fs]; cbn [fname fnum] in *.
  - case_goal; [|done]. destruct (readScalar t r) as [[v r2]|] eqn:Er; [|done]. cbn [rbind]. apply Hset. cbn. by eapply readScalar_typed.
  - cbn [shaped] in Hp. destruct (prop m x) as [| | | | | | |vs|] eqn:Ep; try done. case_goal.
    + destruct (readScalar t r) as [[v r2]|] eqn:Er; [|done]. cbn [rbind]. apply (Hlist vs); [done|]. cbn. rewrite forallb_app, Hp. cbn. by rewrite (readScalar_typed _ _ _ _ Er).
    + case_goal; [|done]. destruct (readUint32 r) as [[len r1]|]; [|done]. cbn [rbind]. destruct (readPacked _ _ _ _ _) as [[l r2]|] eqn:Er; [|done]. cbn [rbind].
      apply (Hlist vs); [done|]. cbn. rewrite forallb_app, Hp. cbn. by eapply readPacked_typed in Er.
  - cbn [shaped] in Hp. destruct (prop m x) as [| | | | | | |vs|] eqn:Ep; try done. case_goal; [|done].
    destruct (readScalar t r) as [[v r2]|] eqn:Er; [|done]. cbn [rbind]. apply (Hlist vs); [done|]. cbn. rewrite forallb_app, Hp. cbn. by rewrite (readScalar_typed _ _ _ _ Er).
  - case_goal; [|done]. destruct (let! (len, r) := readUint32 r in _) as [[v r2]|] eqn:Er; [|done]. cbn [rbind]. apply Hset. rewrite shaped_sub. eapply Hsub; [by left|exact Er].
  - destruct (prop m x) as [| | | | | | |vs|] eqn:Ep; try done. rewrite shaped_subs in Hp. case_goal; [|done].
    destruct (let! (len, r) := readUint32 r in _) as [[v r2]|] eqn:Er; [|done]. cbn [rbind]. apply (Hlist vs); [done|]. rewrite shaped_subs, forallb_app, Hp. cbn [forallb andb].
    rewrite andb_true_r. eapply Hsub; [by right|exact Er].
Qed.

Lemma decode_typed d input o : messageOk d = true → decode d input = Ok o → typed d o = true.
Proof.
  intros Hd. unfold decode. destruct (decodeLoop _ _ _ _ _) as [[m r]|] eqn:E; [|done]. cbn. intros [= <-]. eapply decodeLoop_typed; [done| |exact E].
  apply typed_base. by apply andb_true_iff in Hd as [[_ ?]%distinct_nodup _].
Qed.

End types.

Definition fieldTyped (f : field) : Prop := ∀ j v, fieldFromJSON f j = Some v → shaped typedScalar f v = true.

Lemma mapM_pairs_typed d j o : Forall fieldTyped d → fromJSON d j = Some o → typed d o = true.
Proof.
  unfold fromJSON. revert o. induction d as [|f d IH]; intros o Hd Ho; [injection Ho as <-; done|]. apply Forall_cons in Hd as [Hf Hd].
  apply mapM_cons_some in Ho as (kv & o' & Ekv & Eo & ->). destruct (fieldFromJSON f j) as [v|] eqn:Ev; [|done]. injection Ekv as <-.
  cbn [shapedMessage]. rewrite bool_decide_true by done. rewrite (Hf j v Ev). cbn. by apply IH.
Qed.

Lemma scalarFromJSON_typed t j v : scalarFromJSON t j = Some v → typedScalar t v = true.
Proof. destruct t; cbn; try (by intros [= <-]); [destruct (jsNumber j)..|]; try (by intros [= <-]). destruct (bytesFromBase64 j); cbn; [|done]. by intros [= <-]. Qed.

Lemma mapM_forallb {A B} (g : A → option B) (p : B → bool) l r : (∀ a b, g a = Some b → p b = true) → mapM g l = Some r → forallb p r = true.
Proof. intros Hg. revert r. induction l as [|a l IH]; intros r Hr; [by injection Hr as <-|]. apply mapM_cons_some in Hr as (b & r' & Eb & Er & ->). cbn. by rewrite (Hg a b), IH. Qed.

Lemma fieldTyped_all f : fieldTyped f.
Proof.
  induction f as [num x t|num x t|num x t|num x fs IH|num x fs IH] using field_rect'; intros j v; cbn [fieldFromJSON].
  - case_goal; [done|]. destruct (pick j x) as [e|]; [by apply scalarFromJSON_typed|]. intros [= <-]. by destruct t.
  - destruct (mapM _ _) as [l|] eqn:E; [|done]. intros [= <-]. cbn. eapply mapM_forallb; [|exact E]. intros a b. apply scalarFromJSON_typed.
  - destruct (mapM _ _) as [l|] eqn:E; [|done]. intros [= <-]. cbn. eapply mapM_forallb; [|exact E]. intros a b. apply scalarFromJSON_typed.
  - case_goal; [done|]. destruct (pick j x) as [e|]; [|by intros [= <-]]. change (VMsg <$> fromJSON fs e = Some v → shaped typedScalar (Sub num x fs) v = true).
    destruct (fromJSON fs e) as [o|] eqn:E; [|done]. intros [= <-]. rewrite shaped_sub. by eapply mapM_pairs_typed.
  - destruct (mapM _ _) as [l|] eqn:E; [|done]. intros [= <-]. rewrite shaped_subs. eapply mapM_forallb; [|exact E]. intros e b. change (VMsg <$> fromJSON fs e = Some b → match b with VMsg m => typed fs m | _ => false end = true).
    destruct (fromJSON fs e) as [o|] eqn:Eo; [|done]. intros [= <-]. by eapply mapM_pairs_typed.
Qed.

(** ** JSON *)

(** The scalars that survive JSON: members of enumerations, bytes. *)
Definition jsonScalar (t : scalar) (v : value) : bool :=
  match t, v with
  | (TString | TUint64 | TInt64), VStr _ | (TUint32 | TInt32), VNum _ | TBool, VBool _ => true
  | TEnum members, VNum n => existsb (λ xn, n =? xn.2) members
  | TBytes, VBytes bs => forallb (inBounds 0 256) bs
  | _, _ => false
  end.

Definition scalarOk (t : scalar) : bool := match t with TEnum members => bool_decide (NoDup (map fst members)) | _ => true end.
(** No name is the other spelling of another. *)
Definition snakeFree (d : message) : bool :=
  forallb (λ f, forallb (λ g, negb (bool_decide (snake (fname f) = fname g)) || bool_decide (fname f = fname g)) d) d.
Fixpoint jsonField (f : field) : bool :=
  match f with
  | Single _ _ t | Packed _ _ t | Repeated _ _ t => scalarOk t
  | Sub _ _ fs | Subs _ _ fs => bool_decide (NoDup (map fname fs)) && snakeFree fs && forallb jsonField fs
  end.
Definition jsonOk (d : message) : bool := bool_decide (NoDup (map fname d)) && snakeFree d && forallb jsonField d.

Lemma enum_back members n : NoDup (map fst members) → existsb (λ xn, n =? xn.2) members = true → enumFromJSON members (JStr (enumToJSON members n)) = n.
Proof.
  unfold enumFromJSON, enumToJSON. induction members as [|[x k] ms IH]; [done|]. cbn [map fst existsb List.find snd]. intros [Hx Hd]%NoDup_cons Hn.
  destruct (n =? k) eqn:E; b2p; cbn [fmap option_fmap option_map default fst orb] in *; [rewrite bool_decide_true by done; cbn; by subst|].
  specialize (IH Hd Hn). destruct (List.find (λ xn, n =? xn.2) ms) as [[y l]|] eqn:Ef.
  - apply List.find_some in Ef as [Hi%list_elem_of_In El]. cbn [fmap option_fmap option_map fst default] in *. rewrite bool_decide_false; [done|].
    intros <-. apply Hx. by apply (list_elem_of_fmap_2 fst _ _ Hi).
  - exfalso. apply existsb_exists in Hn as ([y l] & Hi & El). eapply List.find_none in Ef; [|exact Hi]. cbn in *. congruence.
Qed.

Lemma scalar_json t v : scalarOk t = true → jsonScalar t v = true → scalarFromJSON t (scalarToJSON t v) = Some v ∧ isSet (scalarToJSON t v) = true.
Proof.
  destruct t, v; cbn; try done; intros Hok Hv.
  - split; [|done]. unfold base64FromBytes. rewrite String.list_ascii_of_string_of_list_ascii, fromBase64_toBase64; [done|].
    apply List.Forall_forall. intros b Hb. eapply forallb_forall in Hv; [|exact Hb]. by apply inBounds_true in Hv.
  - split; [|done]. f_equal. f_equal. apply enum_back; [by apply bool_decide_eq_true in Hok|done].
Qed.

Definition headJ (l : list (string * json)) : json := match l with [(_, j)] => j | _ => JUndefined end.

Lemma assign_shape x l f : assign x l f = [] ∨ ∃ j, assign x l f = [(x, j)].
Proof. destruct l; [by left|right; by eexists]. Qed.

Lemma fieldToJSON_shape f v : fieldToJSON f v = [] ∨ ∃ j, fieldToJSON f v = [(fname f, j)].
Proof. destruct f, v; cbn; first [apply assign_shape|case_goal; by (left + (right; eexists))|by left|by right; eexists]. Qed.

Lemma toJSON_field d o x : NoDup (map fname d) →
  Json.field (toJSON d o) x = match List.find (λ f, bool_decide (fname f = x)) d with Some f => headJ (fieldToJSON f (prop o (fname f))) | None => JUndefined end.
Proof.
  unfold toJSON, Json.field. induction d as [|f d IH]; [done|]. intros [Hf Hd]%NoDup_cons. specialize (IH Hd). cbn [map concat List.find].
  destruct (fieldToJSON_shape f (prop o (fname f))) as [E|[j E]]; rewrite E; cbn [app List.find headJ fst].
  - rewrite IH. case_bool_decide as Ex; [|done]. rewrite E; destruct (List.find _ d) as [g|] eqn:Eg; [|done]. exfalso. apply List.find_some in Eg as [Hg%list_elem_of_In Ng].
    apply bool_decide_eq_true in Ng. apply Hf. rewrite Ex, <-Ng. by apply (list_elem_of_fmap_2 fname).
  - case_bool_decide as Ex; [by rewrite E|]. exact IH.
Qed.

Lemma find_name d f : NoDup (map fname d) → f ∈ d → List.find (λ g, bool_decide (fname g = fname f)) d = Some f.
Proof.
  intros Hd Hf. destruct (List.find _ d) as [g|] eqn:E.
  - apply List.find_some in E as [Hg%list_elem_of_In Ng%bool_decide_eq_true]. by rewrite (name_inj d g f).
  - apply list_elem_of_In in Hf. eapply List.find_none in E; [|exact Hf]. cbn in E. by rewrite bool_decide_true in E.
Qed.

Lemma mapM_total {A B} (g : A → option B) h l : (∀ a, a ∈ l → g a = Some (h a)) → mapM g l = Some (map h l).
Proof. induction l as [|a l IH]; intros Hg; [done|]. cbn. rewrite (Hg a) by (by left). cbn. rewrite IH; [done|]. intros b Hb. apply Hg. by right. Qed.

Lemma mapM_back {A B} (g : A → B) (h : B → option A) l : (∀ a, a ∈ l → h (g a) = Some a) → mapM h (map g l) = Some l.
Proof. induction l as [|a l IH]; intros Hh; [done|]. cbn. rewrite Hh by (by left). cbn. rewrite IH; [done|]. intros b Hb. apply Hh. by right. Qed.

Definition fieldJson (f : field) : Prop := ∀ v j, jsonField f = true → shaped jsonScalar f v = true → nullish j = false →
  Json.field j (fname f) = headJ (fieldToJSON f v) → (Json.field j (snake (fname f)) = JUndefined ∨ Json.field j (snake (fname f)) = Json.field j (fname f)) →
  fieldFromJSON f j = Some v.

Lemma message_json d o : Forall fieldJson d → jsonOk d = true → shapedMessage jsonScalar d o = true → fromJSON d (toJSON d o) = Some o.
Proof.
  intros Hr [[Hd%bool_decide_eq_true Hs]%andb_true_iff Hok]%andb_true_iff Ho. unfold fromJSON. rewrite (mapM_total _ (λ f, (fname f, prop o (fname f)))).
  { by rewrite (shaped_props jsonScalar d o). }
  intros f Hf. rewrite Forall_forall in Hr. rewrite (Hr f Hf (prop o (fname f)) (toJSON d o)); [done|..].
  - eapply forallb_forall in Hok; [done|by apply list_elem_of_In].
  - by apply (shaped_prop _ d).
  - done.
  - by rewrite toJSON_field, find_name.
  - rewrite (toJSON_field d o (snake (fname f))) by done. destruct (List.find _ d) as [g|] eqn:E; [right|by left].
    apply List.find_some in E as [Hg Ng%bool_decide_eq_true]. eapply forallb_forall in Hs; [|by apply list_elem_of_In]. eapply forallb_forall in Hs; [|exact Hg].
    rewrite bool_decide_true in Hs by done. cbn in Hs. apply bool_decide_eq_true in Hs. apply list_elem_of_In in Hg. rewrite toJSON_field, find_name by done. by rewrite (name_inj d g f).
Qed.

Lemma pickArray_back j x l g : nullish j = false → Json.field j x = headJ (assign x l g) → (Json.field j (snake x) = JUndefined ∨ Json.field j (snake x) = Json.field j x) →
  pickArray j x = map g l.
Proof. unfold pickArray. intros _ -> Hs. destruct l; cbn in *; [by destruct Hs as [->| ->]|done]. Qed.

Lemma fieldJson_all f : fieldJson f.
Proof.
  induction f as [num x t|num x t|num x t|num x fs IH|num x fs IH] using field_rect'; intros v j Hok Hs' Hn Hj Hs; cbn [fname] in *; cbn [fieldFromJSON]; rewrite ?Hn.
  - cbn [shaped jsonField fieldToJSON] in *. unfold pick, isSet. destruct (omitted t v) eqn:Eo; cbn [headJ] in Hj.
    + rewrite (omitted_default t v) by done. rewrite Hj in *. by destruct Hs as [->| ->].
    + destruct (scalar_json t v Hok Hs') as [Hb Hset]. rewrite Hj. unfold isSet in Hset. by rewrite Hset.
  - destruct v as [| | | | | | |vs|]; try done. cbn [shaped jsonField fieldToJSON] in *. rewrite (pickArray_back j x vs (scalarToJSON t)) by done.
    rewrite mapM_back; [done|]. intros v Hv. apply scalar_json; [done|]. eapply forallb_forall in Hs'; [exact Hs'|by apply list_elem_of_In].
  - destruct v as [| | | | | | |vs|]; try done. cbn [shaped jsonField fieldToJSON] in *. rewrite (pickArray_back j x vs (scalarToJSON t)) by done.
    rewrite mapM_back; [done|]. intros v Hv. apply scalar_json; [done|]. eapply forallb_forall in Hs'; [exact Hs'|by apply list_elem_of_In].
  - cbn [jsonField] in Hok. destruct v as [| | | | | | | |o]; try done; cbn [fieldToJSON headJ] in Hj; unfold pick.
    + rewrite Hj in *. by destruct Hs as [->| ->].
    + rewrite shaped_sub in Hs'. change (Json.field j x = toJSON fs o) in Hj. rewrite Hj. cbn [isSet nullish negb toJSON].
      change (VMsg <$> fromJSON fs (toJSON fs o) = Some (VMsg o)). by rewrite message_json.
  - cbn [jsonField] in Hok. destruct v as [| | | | | | |vs|]; try done. rewrite shaped_subs in Hs'. cbn [fieldToJSON] in Hj.
    rewrite (pickArray_back j x vs _ Hn Hj Hs). rewrite mapM_back; [done|]. intros v Hv. eapply forallb_forall in Hs'; [|by apply list_elem_of_In].
    destruct v as [| | | | | | | |o]; try done. change (VMsg <$> fromJSON fs (toJSON fs o) = Some (VMsg o)). by rewrite message_json.
Qed.

(** What [toJSON] makes of a message [fromJSON] reads back. *)
Lemma fromJSON_toJSON d o : jsonOk d = true → shapedMessage jsonScalar d o = true → fromJSON d (toJSON d o) = Some o.
Proof. intros Hd Ho. apply message_json; try done. apply Forall_forall. intros f _. apply fieldJson_all. Qed.

(** [fromPartial] of a complete message. *)
Section partial.
Variable p : scalar → value → bool.
Hypothesis p_defined : ∀ t, p t VUndefined = false.

Definition fieldKept (f : field) : Prop := ∀ v, shaped p f v = true → partialField f v = v.

Lemma partial_message d o : NoDup (map fname d) → Forall fieldKept d → shapedMessage p d o = true → fromPartial d o = o.
Proof.
  intros Hd Hk Ho. unfold fromPartial. transitivity (map (λ f, (fname f, prop o (fname f))) d); [|by apply (shaped_props p)].
  apply map_ext_in. intros f Hf%list_elem_of_In. f_equal. rewrite Forall_forall in Hk. apply Hk; [done|]. by apply (shaped_prop _ d).
Qed.

Lemma fieldKept_all f : jsonField f = true → fieldKept f.
Proof.
  induction f as [num x t|num x t|num x t|num x fs IH|num x fs IH] using field_rect'; intros Hok v Hv; cbn [shaped partialField] in *.
  - destruct v; try done. by rewrite p_defined in Hv.
  - by destruct v.
  - by destruct v.
  - cbn [jsonField] in Hok. apply andb_true_iff in Hok as [[Hd%bool_decide_eq_true _]%andb_true_iff Hok].
    destruct v as [| | | | | | | |o]; try done. change (shaped p (Sub num x fs) (VMsg o) = true) in Hv. rewrite shaped_sub in Hv.
    change (VMsg (fromPartial fs o) = VMsg o). rewrite partial_message; [done..| |done].
    apply Forall_forall. intros f Hf. rewrite Forall_forall in IH. apply IH; [done|]. eapply forallb_forall in Hok; [done|by apply list_elem_of_In].
  - cbn [jsonField] in Hok. apply andb_true_iff in Hok as [[Hd%bool_decide_eq_true _]%andb_true_iff Hok].
    destruct v as [| | | | | | |vs|]; try done. change (shaped p (Subs num x fs) (VList vs) = true) in Hv. rewrite shaped_subs in Hv. f_equal.
    rewrite <-(map_id vs) at 2. apply map_ext_in. intros v Hin. eapply forallb_forall in Hv; [|exact Hin]. destruct v as [| | | | | | | |o]; try done.
    change (VMsg (fromPartial fs o) = VMsg o). rewrite partial_message; [done..| |done].
    apply Forall_forall. intros f Hf. rewrite Forall_forall in IH. apply IH; [done|]. eapply forallb_forall in Hok; [done|by apply list_elem_of_In].
Qed.
End partial.

(** ** The messages of the chain *)

Definition allMessages : list (string * message) := SdkPoker.messages ++ SdkDealer.messages.

Lemma allMessages_ok : forallb (λ nd, messageOk nd.2 && jsonOk nd.2) allMessages = true.
Proof. vm_compute. reflexivity. Qed.

Lemma known_message_ok name d : (name, d) ∈ allMessages → messageOk d = true ∧ jsonOk d = true.
Proof.
  intros Hin%list_elem_of_In. pose proof allMessages_ok as Hok. eapply forallb_forall in Hok; [|exact Hin]. by apply andb_true_iff in Hok.
Qed.

Lemma messageOk_distinct d : messageOk d = true → distinct d = true.
Proof. by intros [? _]%andb_true_iff. Qed.

(** C9. Every message of the two modules, with values in range, is encoded, and
    decoding the bytes gives the message back.  A reader with another version of
    the type sees the fields that both versions have, and the defaults for the
    fields that only it has.  Decoding ends on all inputs, also on bytes that
    are not a message. *)
Theorem messages_survive `{WireLaws} name d o : (name, d) ∈ allMessages → valid d o = true → weight (VMsg o) < 2 ^ 32 →
  (∃ bs, encode d o = Some bs ∧ decode d bs = Ok o ∧ ∀ d2, distinct d2 = true → evolves d2 d → decode d2 bs = Ok (seen d2 d o)) ∧
  ∀ input, decode d input ≠ Err OutOfFuel.
Proof.
  intros [Hd _]%known_message_ok Ho Hw. split; [|intros input; apply decode_ends]. destruct (encode_succeeds d o Hd Ho Hw) as [bs Eb]. exists bs. split; [done|].
  pose proof (messageOk_distinct d Hd) as Hdd. split; [|intros d2 H2 He; by apply decode_written]. rewrite (decode_written d d o) by (done || by apply caseOf_evolves, distinct_nodup).
  by rewrite (seen_self wireScalar).
Qed.

(** C32. What [toJSON] makes of a message [fromJSON] reads back, and [fromPartial]
    keeps a complete message. *)
Theorem messages_json name d o : (name, d) ∈ allMessages → shapedMessage jsonScalar d o = true →
  fromJSON d (toJSON d o) = Some o ∧ fromPartial d o = o.
Proof.
  intros [_ Hj]%known_message_ok Ho. split; [by apply fromJSON_toJSON|]. apply andb_true_iff in Hj as [[Hd%bool_decide_eq_true _]%andb_true_iff Hok].
  apply (partial_message jsonScalar); [done| |done]. apply Forall_forall. intros f Hf. apply fieldKept_all; [by intros []|].
  eapply forallb_forall in Hok; [done|by apply list_elem_of_In].
Qed.

(** C10. Whatever the bytes or the JSON value, what [decode] or [fromJSON] returns
    is a message of its type: the fields of its interface, in their order, each
    with a value of its type. *)
Theorem messages_typed `{WireLaws} name d : (name, d) ∈ allMessages →
  (∀ input o, decode d input = Ok o → typed d o = true) ∧ (∀ j o, fromJSON d j = Some o → typed d o = true).
Proof.
  intros [Hd _]%known_message_ok. split; [intros input o; by apply decode_typed|]. intros j o. apply mapM_pairs_typed. apply Forall_forall. intros f _. apply fieldTyped_all.
Qed.

(** ** A table *)

Definition seatOf (player : string) (stack : string) (hole : list Z) : value :=
  VMsg [("player", VStr player); ("pk", VBytes [1; 2; 255]); ("stack", VStr stack); ("bond", VStr "0"); ("hole", VList (map VNum hole))].
Definition someHand : value :=
  VMsg [("handId", VStr "140"); ("phase", VNum 2); ("street", VNum 1); ("buttonSeat", VNum 0); ("smallBlindSeat", VNum 0); ("bigBlindSeat", VNum 1);
        ("actionOn", VNum (-1)); ("betTo", VStr "2"); ("minRaiseSize", VStr "2"); ("intervalId", VStr "18446744073709551615");
        ("inHand", VList [VBool true; VBool false]); ("folded", VList []); ("allIn", VList []); ("streetCommit", VList [VStr "1"; VStr "0"]); ("totalCommit", VList []);
        ("lastIntervalActed", VList [VNum (-1); VNum 7]); ("board", VList [VNum 51]); ("actionDeadline", VStr "-9"); ("dealer", VUndefined)].
Definition someTable : object :=
  [("id", VStr "7"); ("creator", VStr "ocp1abc"); ("label", VStr EmptyString); ("params", VUndefined); ("seats", VList [seatOf "alice" "998" [3; 300]; seatOf "bob" "1000" []]);
   ("nextHandId", VStr "141"); ("buttonSeat", VNum 0); ("hand", someHand)].

(** The messages of the dealers before their deliveries were encrypted. *)
Definition oldCommit : message := [Single 1 "dealer" TString; Single 2 "epochId" TUint64; Repeated 3 "commitments" TBytes].
Definition someCommit : object :=
  [("dealer", VStr "val1"); ("epochId", VStr "3"); ("commitments", VList [VBytes [1]; VBytes []]); ("ephemeralPubkey", VBytes [9; 9])].

Lemma messages_survive_witness :
  (∃ bs, @encode Varint.varint_wire SdkPoker.Table someTable = Some bs ∧ @decode Varint.varint_wire SdkPoker.Table bs = Ok someTable) ∧
  ∃ bs, @encode Varint.varint_wire SdkDealer.MsgDkgCommit someCommit = Some bs ∧ @decode Varint.varint_wire oldCommit bs = Ok (take 3 someCommit).
Proof.
  split.
  - destruct (@messages_survive Varint.varint_wire Varint.varint_laws "Table" SdkPoker.Table someTable) as ((bs & He & Hd & _) & _);
      [by apply (list_elem_of_lookup_2 _ 4)|vm_compute; reflexivity|vm_compute; reflexivity|]. exists bs. split; [exact He|exact Hd].
  - destruct (@messages_survive Varint.varint_wire Varint.varint_laws "MsgDkgCommit" SdkDealer.MsgDkgCommit someCommit) as ((bs & He & _ & Hs) & _);
      [by apply (list_elem_of_lookup_2 _ 52)|vm_compute; reflexivity|vm_compute; reflexivity|]. exists bs. split; [exact He|].
    rewrite (Hs oldCommit); [reflexivity|vm_compute; reflexivity|]. unfold evolves. repeat constructor; (left; vm_compute; reflexivity) || (right; vm_compute; reflexivity).
Defined.

Lemma messages_json_witness : fromJSON SdkPoker.Table (toJSON SdkPoker.Table someTable) = Some someTable.
Proof. apply (messages_json "Table"); [by apply (list_elem_of_lookup_2 _ 4)|vm_compute; reflexivity]. Defined.

(** A seat twice in a message, and a field that does not exist. *)
Lemma messages_typed_witness :
  typed SdkPoker.Seat [("player", VStr "b"); ("pk", VBytes []); ("stack", VStr "300"); ("bond", VStr "0"); ("hole", VList [VNum 5; VNum 6; VNum 7])] = true ∧
  typed SdkPoker.Seat [("player", VStr "9"); ("pk", VBytes []); ("stack", VStr "null,1"); ("bond", VStr "0"); ("hole", VList [VNaN])] = true.
Proof.
  split.
  - apply (proj1 (@messages_typed Varint.varint_wire Varint.varint_laws "Seat" SdkPoker.Seat ltac:(by apply (list_elem_of_lookup_2 _ 1))) [10; 1; 97; 40; 5; 10; 1; 98; 250; 1; 1; 0; 24; 172; 2; 42; 2; 6; 7]).
    vm_compute. reflexivity.
  - apply (proj2 (@messages_typed Varint.varint_wire Varint.varint_laws "Seat" SdkPoker.Seat ltac:(by apply (list_elem_of_lookup_2 _ 1)))
      (JObj [("player", JNum 9); ("stack", JArr [JStr "null"; JNum 1]); ("hole", JArr [JStr "x"])])). vm_compute. reflexivity.
Defined.

End SdkCodecThms.
