(* ===== verification/SdkSigning.v ===== *)
(** * Signing and broadcasting: [packages/ocp-sdk/src/cosmos/signing.ts]

    The signing client of CosmJS and its connection are parameters on an
    abstract world: simulating, broadcasting and reconnecting are computations
    that may throw the text of an error.  The answers of the LCD while a
    transaction is awaited are a sequence, each with the time it took. *)
From stdpp Require Import base option list strings pretty gmap.
From Stdlib Require Import ZArith Lia Ascii.
From S2P Require Import Prelude OcpBytes Json Monads CoordConfig CoordEvents.
Import Bytes Json ExceptM CoordConfig.

Module SdkSigning.

#[local] Open Scope string_scope.
#[local] Open Scope list_scope.
#[local] Open Scope Z_scope.

(** ** Keys *)

(** The bytes of pairs of hexadecimal digits. *)
Fixpoint hexPairs (l : list ascii) : option bytes :=
  match l with
  | [] => Some []
  | a :: b :: l => x ← digitValue a; y ← digitValue b; bs ← hexPairs l; if (x <? 16) && (y <? 16) then Some (x * 16 + y :: bs) else None
  | _ => None
  end.

(** What [walletFromPrivKey] hands to [DirectSecp256k1Wallet.fromKey]. *)
Definition walletFromPrivKey (privateKeyHex : option string) : result string bytes :=
  let clean := trim (chars (default EmptyString privateKeyHex)) in
  let normalized := match clean with "0"%char :: "x"%char :: l => l | l => l end in
  match hexPairs normalized with
  | Some bs => if (length normalized =? 64)%nat then Ok bs else Err "walletFromPrivKey: private key must be 32-byte hex"
  | None => Err "walletFromPrivKey: private key must be 32-byte hex"
  end.

(** ** Answers of the LCD *)

Definition isBlank (s : string) : bool := bool_decide (trimmed s = EmptyString).

Definition toNumber (x : json) (fallback : Z) : Z :=
  match x with
  | JNum n | JBig n => n
  | JStr s => if isBlank s then fallback else default fallback (stringToBigInt s)
  | _ => fallback
  end.
Definition toBigInt (x : json) : Z :=
  match x with
  | JNum n | JBig n => n
  | JStr s => if isBlank s then 0 else default 0 (stringToBigInt s)
  | _ => 0
  end.

(** CosmJS's [Event] and [DeliverTxResponse]. *)
Record Attribute := mkAttribute { key : string; attr : string }.
Record Event := mkEvent { type : string; attributes : list Attribute }.
Record DeliverTxResponse := mkDeliverTxResponse {
  height : Z; txIndex : Z; code : Z; transactionHash : string; events : list Event; rawLog : string; gasWanted : Z; gasUsed : Z
}.

(** [String(x ?? "")] *)
Definition strOr (x : json) : string := toStr (orElse x (JStr EmptyString)).
Definition isObject (j : json) : bool := match j with JObj _ | JArr _ | JBytes _ => true | _ => false end.

Definition normalizeAttribute (a : json) : Attribute := mkAttribute (strOr (field a "key")) (strOr (field a "value")).
Definition normalizeEvents (eventsRaw : json) : list Event :=
  omap (λ ev,
    if negb (isObject ev) then None
    else
      let t := strOr (field ev "type") in
      if bool_decide (t = EmptyString) then None
      else Some (mkEvent t (map normalizeAttribute (List.filter isObject (elems (field ev "attributes"))))))
    (elems eventsRaw).

(** [s.toUpperCase()] of an ASCII string *)
Definition upperChar (c : ascii) : ascii :=
  let n := nat_of_ascii c in if ((97 <=? n) && (n <=? 122))%nat then ascii_of_nat (n - 32) else c.
Definition upper (s : string) : string := text (map upperChar (chars s)).

(** What a poll gets: a response with its body (reading it may throw), or an
    exception of [fetch]. *)
Inductive LcdAnswer := Response (ok : bool) (status : Z) (body : result string json) | FetchFailed (message : string).

Definition str (j : json) (d : string) : string := match j with JStr s => s | _ => d end.
Definition toResponse (hash : string) (txRes : json) : DeliverTxResponse :=
  mkDeliverTxResponse (toNumber (field txRes "height") 0) (toNumber (orElse (field txRes "tx_index") (field txRes "txIndex")) 0)
    (toNumber (field txRes "code") 0) (upper (toStr (orElse (field txRes "txhash") (orElse (field txRes "txHash") (JStr hash)))))
    (normalizeEvents (field txRes "events")) (str (field txRes "raw_log") (str (field txRes "rawLog") EmptyString))
    (toBigInt (orElse (field txRes "gas_wanted") (field txRes "gasWanted"))) (toBigInt (orElse (field txRes "gas_used") (field txRes "gasUsed"))).

(** One turn of the [while]: the response to return, or the last error. *)
Definition attempt (hash lastError : string) (answer : LcdAnswer) : DeliverTxResponse + string :=
  match answer with
  | FetchFailed m | Response true _ (Err m) => inr m
  | Response true _ (Ok json) =>
      let txRes := orElse (field json "tx_response") (field json "txResponse") in
      if truthy txRes && isObject txRes then inl (toResponse hash txRes) else inr lastError
  | Response false status _ =>
      if (status =? 404) || (status =? 400) then inr lastError
      else inr ("unexpected HTTP " +:+ pretty status +:+ " from LCD tx query")
  end.

Inductive WaitError := TimedOut (message : string) | OutOfPolls.

Definition timeoutMessage (hash lastError : string) : string :=
  "timed out waiting for tx " +:+ hash +:+ " via LCD" +:+
    (if bool_decide (lastError = EmptyString) then EmptyString else " (" +:+ lastError +:+ ")").

(** The [i]-th poll takes [(answers i).1] milliseconds, [sleepMs(500)] not
    counted. *)
Fixpoint pollTx (fuel : nat) (answers : nat → Z * LcdAnswer) (hash : string) (i : nat) (now deadline : Z) (lastError : string)
    : result WaitError DeliverTxResponse :=
  if now <? deadline then
    match fuel with
    | O => Err OutOfPolls
    | S fuel =>
        match attempt hash lastError (answers i).2 with
        | inl res => Ok res
        | inr lastError => pollTx fuel answers hash (S i) (now + (answers i).1 + 500) deadline lastError
        end
    end
  else Err (TimedOut (timeoutMessage hash lastError)).

(** Half a second between polls makes 240 of them in two minutes. *)
Definition waitForDeliverTxViaLcd (answers : nat → Z * LcdAnswer) (txHash : string) (now : Z) : result WaitError DeliverTxResponse :=
  pollTx 240 answers (upper (trimmed txHash)) 0 now (now + 120000) EmptyString.

(** ** Broadcasting *)

(** [msg.includes(sub)] *)
Fixpoint startsWith (sub l : list ascii) : bool :=
  match sub, l with [], _ => true | a :: sub, b :: l => bool_decide (a = b) && startsWith sub l | _, [] => false end.
Fixpoint includes (sub l : list ascii) : bool := startsWith sub l || match l with [] => false | _ :: l => includes sub l end.

Definition isSocketError (err : string) : bool :=
  let msg := chars (lower err) in
  existsb (λ s, includes (chars s) msg) ["socket hang up"; "econnreset"; "econnrefused"; "epipe"; "connection closed"; "fetch failed"].

Section signing.
Context {W : Type}.
Abbreviation call A := (X W string A).

(** [SigningStargateClient] on one message list: [simulate], and the two ways of
    broadcasting it with a fee. *)
Context {Fee : Type}.
Variable simulate : call Z.
Variable signAndBroadcastSync : Fee → call string.
Variable signAndBroadcast : Fee → call DeliverTxResponse.
(** [disconnect], whose exceptions are ignored, and [connectWithSigner]. *)
Variable reconnect : call unit.
(** [calculateFee(gasLimit, gasPrice)] *)
Variable calculateFee : Z → Fee.
(** [Math.ceil(gasUsed * gasMultiplier)], a product of floating-point numbers *)
Variable scale : Z → Z.
(** The transaction awaited through the LCD. *)
Variable wait : string → call DeliverTxResponse.

(** [try { op } catch (err) { if (!isSocketError(err)) throw err; await reconnect(); op }] *)
Definition retryOnce {A} (op : call A) : call A :=
  tryCatch op (λ err, if negb (isSocketError err) then raise err else reconnect ≫= λ _, op).

Definition gasLimit (gasUsed : Z) : Z := Z.max 200000 (scale gasUsed).

Definition signAndBroadcastAuto (lcdUrl : option string) : call DeliverTxResponse :=
  gasUsed ← retryOnce simulate;
  let fee := calculateFee (gasLimit gasUsed) in
  if bool_decide (default EmptyString lcdUrl = EmptyString) then retryOnce (signAndBroadcast fee)
  else txHash ← retryOnce (signAndBroadcastSync fee); wait txHash.

(** [connectOcpCosmosSigningClient]: the address that signs. *)
Definition signerAddress (accounts : list string) (requested : option string) : result string string :=
  match accounts with
  | [] => Err "cosmos signer has no accounts"
  | a :: _ => let address := trimmed (default a requested) in
              if bool_decide (address = EmptyString) then Err "empty signer address" else Ok address
  end.

End signing.

(** ** Polling ends *)

(** When the [i]-th poll begins. *)
Fixpoint pollTime (answers : nat → Z * LcdAnswer) (now : Z) (n : nat) : Z :=
  match n with O => now | S n => pollTime answers now n + (answers n).1 + 500 end.

Lemma attempt_inl hash hash' e e' a : (∃ r, attempt hash e a = inl r) ↔ ∃ r, attempt hash' e' a = inl r.
Proof.
  unfold attempt. destruct a as [[] st [b|m]|m]; try case_goal; (split; intros [r E]; first [done|by eexists]).
Qed.

Lemma pollTime_lower answers now n : (∀ i, 0 <= (answers i).1) → now + 500 * Z.of_nat n <= pollTime answers now n.
Proof. intros Hd. induction n as [|n IH]; cbn [pollTime]; [lia|]. pose proof (Hd n). lia. Qed.

Lemma pollTx_spec fuel answers hash now deadline e i : (∀ i, 0 <= (answers i).1) → deadline <= pollTime answers now i + 500 * Z.of_nat fuel →
  (∃ j r e', (i <= j)%nat ∧ pollTime answers now j < deadline ∧ attempt hash e' (answers j).2 = inl r ∧ (∀ k e', (i <= k < j)%nat → ∃ m, attempt hash e' (answers k).2 = inr m) ∧
     pollTx fuel answers hash i (pollTime answers now i) deadline e = Ok r) ∨
  (∃ j m, (i <= j)%nat ∧ deadline <= pollTime answers now j ∧ (∀ k e', (i <= k < j)%nat → ∃ m, attempt hash e' (answers k).2 = inr m) ∧
     pollTx fuel answers hash i (pollTime answers now i) deadline e = Err (TimedOut m)).
Proof.
  intros Hd. revert i e. induction fuel as [|fuel IH]; intros i e Hf; cbn [pollTx].
  - right. exists i, (timeoutMessage hash e). rewrite (proj2 (Z.ltb_ge _ _)) by lia. split_and!; [done|lia|lia|done].
  - destruct (Z.ltb_spec (pollTime answers now i) deadline) as [Hlt|Hge].
    + destruct (attempt hash e (answers i).2) as [r|m] eqn:Ea.
      * left. exists i, r, e. split_and!; [done|done|done|lia|done].
      * assert (Hall : ∀ e', ∃ m, attempt hash e' (answers i).2 = inr m).
        { intros e'. destruct (attempt hash e' (answers i).2) as [r|m'] eqn:E; [|by exists m']. exfalso.
          destruct (proj1 (attempt_inl hash hash e' e (answers i).2)) as [r' E']; [by exists r|congruence]. }
        pose proof (Hd i). change (pollTime answers now i + (answers i).1 + 500) with (pollTime answers now (S i)).
        assert (Hext : ∀ j, (∀ k e', (S i <= k < j)%nat → ∃ m, attempt hash e' (answers k).2 = inr m) → ∀ k e', (i <= k < j)%nat → ∃ m, attempt hash e' (answers k).2 = inr m).
        { intros j Hj k e' Hk. destruct (decide (k = i)) as [->|]; [apply Hall|apply Hj; lia]. }
        destruct (IH (S i) m) as [(j & r & e' & Hj & Ht & Hr & Hk & E)|(j & m' & Hj & Ht & Hk & E)]; [cbn [pollTime]; lia|..].
        -- left. exists j, r, e'. split_and!; [lia|done|done|by apply Hext|done].
        -- right. exists j, m'. split_and!; [lia|done|by apply Hext|done].
    + right. exists i, (timeoutMessage hash e). split_and!; [done|lia|lia|done].
Qed.

(** C24. Waiting for a transaction ends, whatever the node answers and however
    slowly: with the first response that carries the transaction, every poll
    before it having failed, or with a time-out after two minutes without one;
    at most 240 polls are made. *)
Theorem wait_ends answers txHash now : (∀ i, 0 <= (answers i).1) →
  let hash := upper (trimmed txHash) in
  (∃ j r e', pollTime answers now j < now + 120000 ∧ (j < 240)%nat ∧ attempt hash e' (answers j).2 = inl r ∧
     (∀ k e', (k < j)%nat → ∃ m, attempt hash e' (answers k).2 = inr m) ∧ waitForDeliverTxViaLcd answers txHash now = Ok r) ∨
  (∃ j m, now + 120000 <= pollTime answers now j ∧ (∀ k e', (k < j)%nat → ∃ m, attempt hash e' (answers k).2 = inr m) ∧
     waitForDeliverTxViaLcd answers txHash now = Err (TimedOut m)).
Proof.
  intros Hd hash. pose proof (pollTx_spec 240 answers hash now (now + 120000) EmptyString 0 Hd) as H. cbn [pollTime] in H.
  destruct H as [(j & r & e & _ & Ht & Hr & Hk & E)|(j & m & _ & Ht & Hk & E)]; [lia|left; exists j, r, e|right; exists j, m].
  - pose proof (pollTime_lower answers now j Hd). split_and!; [done|lia|done|intros; apply Hk; lia|done].
  - split_and!; [done|intros; apply Hk; lia|done].
Qed.

(** ** Retries *)

Section retries.
Context {W : Type} {Fee : Type}.
Abbreviation call A := (X W string A).
Variable reconnect : call unit.

(** The account's sequence number in the committed state of the chain, which is
    what the client asks for whenever it signs; and the numbers for which the
    node has accepted a transaction, be it in a block or still in the mempool. *)
Variable committed : W → nat.
Variable accepted : W → gset nat.

(** A call that broadcasts nothing.  Time passes: [committed] may grow. *)
Definition queries {A} (op : call A) : Prop := ∀ s, accepted (op s).2 = accepted s.

(** A broadcast is signed with the committed number.  The node refuses it, with
    an error, when it has accepted a transaction with that number; otherwise
    it may accept it, whether or not the answer arrives; and it has accepted
    it when an answer arrives. *)
Record broadcasts {A} (op : call A) : Prop := {
  bc_refused s : committed s ∈ accepted s → (∃ err, (op s).1 = Err err) ∧ accepted (op s).2 = accepted s;
  bc_once s : accepted (op s).2 = accepted s ∨ accepted (op s).2 = {[committed s]} ∪ accepted s;
  bc_answer s a : (op s).1 = Ok a → committed s ∈ accepted (op s).2
}.

(** How many transactions of the account the node has accepted. *)
Definition sent (s : W) : nat := size (accepted s).

(** The broadcast at [s1] was accepted, its answer was lost, and the client has
    connected again in [s3]. *)
Definition lost {A} (op : call A) (s1 s2 s3 : W) : Prop :=
  ∃ err, op s1 = (Err err, s2) ∧ isSocketError err = true ∧ reconnect s2 = (Ok (), s3) ∧
    (committed s1 ∉ accepted s1) ∧ committed s1 ∈ accepted s2.

Hypothesis reconnect_queries : queries reconnect.

(** An operation of which no failure is a failure of the connection. *)
Definition connected {A} (op : call A) : Prop := ∀ s err, (op s).1 = Err err → isSocketError err = false.

Lemma broadcasts_sent {A} (op : call A) s : broadcasts op → (sent (op s).2 <= sent s + 1)%nat.
Proof.
  intros Hb. unfold sent. destruct (bc_once _ Hb s) as [->| ->]; [lia|].
  rewrite size_union_alt. pose proof (subseteq_size (accepted s ∖ {[committed s]}) (accepted s) ltac:(set_solver)).
  rewrite size_singleton. lia.
Qed.

Lemma retryOnce_cases {A} (op : call A) s : retryOnce reconnect op s = op s ∨
  ∃ err, (op s).1 = Err err ∧ isSocketError err = true ∧ retryOnce reconnect op s = (reconnect ≫= λ _, op) (op s).2.
Proof.
  unfold retryOnce, tryCatch. destruct (op s) as [[a|err] s'] eqn:E; [by left|]. destruct (isSocketError err) eqn:Es; cbn; [|by left].
  right. by exists err.
Qed.

Lemma retryOnce_connected {A} (op : call A) s : connected op → retryOnce reconnect op s = op s.
Proof. intros Hc. destruct (retryOnce_cases op s) as [E|(err & He & Hs & _)]; [done|]. by rewrite (Hc _ _ He) in Hs. Qed.

Lemma retryOnce_sent {A} (op : call A) n s : (∀ s, (sent (op s).2 <= sent s + n)%nat) → (sent (retryOnce reconnect op s).2 <= sent s + 2 * n)%nat.
Proof.
  intros Ho. pose proof (Ho s) as H1. destruct (retryOnce_cases op s) as [E|(err & He & Hs & E)]; rewrite E; [lia|].
  unfold mbind, X_bind. pose proof (reconnect_queries (op s).2) as Hq. destruct (reconnect (op s).2) as [[[]|e] s2]; cbn in *; unfold sent in *; [|rewrite Hq; lia].
  pose proof (Ho s2) as H2. rewrite Hq in H2. lia.
Qed.

(** The second try meets the number that is committed by then. *)
Lemma retryOnce_lost {A} (op : call A) s1 s2 s3 : lost op s1 s2 s3 →
  retryOnce reconnect op s1 = op s3 ∧ (broadcasts op → accepted s3 = {[committed s1]} ∪ accepted s1).
Proof.
  intros (err & Eop & Hs & Hr & Hnew & Hin). split.
  - unfold retryOnce, tryCatch. rewrite Eop, Hs. cbn. by rewrite (bind_ok _ _ _ _ _ Hr).
  - intros Hb. pose proof (reconnect_queries s2) as Hq. rewrite Hr in Hq. cbn in Hq. rewrite Hq.
    pose proof (bc_once _ Hb s1) as Ho. rewrite Eop in Ho. cbn in Ho. destruct Ho as [E|E]; [by rewrite E in Hin|done].
Qed.

Lemma second_try {A} (op : call A) s1 s2 s3 : broadcasts op → lost op s1 s2 s3 →
  (committed s3 ∈ accepted s3 → (∃ err, (op s3).1 = Err err) ∧ accepted (op s3).2 = {[committed s1]} ∪ accepted s1) ∧
  (∀ a, (op s3).1 = Ok a → accepted (op s3).2 = {[committed s3]} ∪ ({[committed s1]} ∪ accepted s1) ∧ sent (op s3).2 = (sent s1 + 2)%nat).
Proof.
  intros Hb Hl. destruct (retryOnce_lost op s1 s2 s3 Hl) as [_ H3]. specialize (H3 Hb). destruct Hl as (_ & _ & _ & _ & Hnew & _). split.
  - intros Hin. destruct (bc_refused _ Hb s3 Hin) as [He Ha]. split; [done|]. by rewrite Ha.
  - intros a Ha. assert (Hn : committed s3 ∉ accepted s3) by (intros Hin; destruct (bc_refused _ Hb s3 Hin) as [[err Ee] _]; congruence).
    pose proof (bc_answer _ Hb s3 a Ha) as Hin. destruct (bc_once _ Hb s3) as [E|E]; [by rewrite E in Hin|]. rewrite E, <-H3. split; [done|].
    unfold sent. rewrite E, size_union by set_solver. rewrite H3, size_union by set_solver. rewrite !size_singleton. lia.
Qed.

Lemma bind_sent {A B} (m : call A) (k : A → call B) n s : (∀ a s, (sent (k a s).2 <= sent s + n)%nat) → (sent ((m ≫= k) s).2 <= sent (m s).2 + n)%nat.
Proof. intros Hk. unfold mbind, X_bind. destruct (m s) as [[a|e] s']; cbn; [apply Hk|lia]. Qed.

End retries.

(** C23. How often one call makes the node accept the messages: at most twice,
    and at most once when no broadcast fails with an error of the connection.
    When the first broadcast was accepted and its answer was lost, the retry
    asks for the account's sequence number anew.  If that number still belongs
    to the first transaction, which is in the mempool, the node refuses the
    retry and the call fails with one transaction accepted.  If the first
    transaction has been committed meanwhile, a retry that is answered carries
    the next number: the call succeeds and the messages have been accepted
    twice. *)
Theorem auto_broadcasts {W Fee : Type} (committed : W → nat) (accepted : W → gset nat)
    (simulate : X W string Z) (sync : Fee → X W string string) (full : Fee → X W string DeliverTxResponse)
    (reconnect : X W string unit) (fee : Z → Fee) (scale : Z → Z) (wait : string → X W string DeliverTxResponse) (s : W) :
  queries accepted reconnect → queries accepted simulate → (∀ h, queries accepted (wait h)) →
  (∀ f, broadcasts committed accepted (sync f)) → (∀ f, broadcasts committed accepted (full f)) →
  let auto := signAndBroadcastAuto simulate sync full reconnect fee scale wait in
  let sent := sent accepted in
  (∀ lcdUrl, (sent (auto lcdUrl s).2 <= sent s + 2)%nat) ∧
  (∀ lcdUrl, (∀ f, connected (sync f)) → (∀ f, connected (full f)) → (sent (auto lcdUrl s).2 <= sent s + 1)%nat) ∧
  (∀ gas s1 s2 s3, simulate s = (Ok gas, s1) →
     let f := fee (gasLimit scale gas) in
     (lost reconnect committed accepted (full f) s1 s2 s3 →
       (committed s3 ∈ accepted s3 → (∃ err, (auto None s).1 = Err err) ∧ accepted (auto None s).2 = {[committed s1]} ∪ accepted s) ∧
       (∀ r, (full f s3).1 = Ok r → (auto None s).1 = Ok r ∧ sent (auto None s).2 = (sent s + 2)%nat)) ∧
     (∀ url, url ≠ EmptyString → lost reconnect committed accepted (sync f) s1 s2 s3 →
       (committed s3 ∈ accepted s3 → (∃ err, (auto (Some url) s).1 = Err err) ∧ accepted (auto (Some url) s).2 = {[committed s1]} ∪ accepted s) ∧
       (∀ h, (sync f s3).1 = Ok h → sent (auto (Some url) s).2 = (sent s + 2)%nat))).
Proof.
  intros Hr Hs Hw Hsync Hfull auto sent.
  assert (Hsim : (sent (retryOnce reconnect simulate s).2 <= sent s)%nat).
  { pose proof (retryOnce_sent reconnect accepted Hr simulate 0 s) as H0. rewrite Nat.add_0_r in H0. apply H0. intros s0. unfold SdkSigning.sent. rewrite Hs. lia. }
  assert (Hw0 : ∀ h s, (sent (wait h s).2 <= sent s + 0)%nat) by (intros h s0; unfold sent, SdkSigning.sent; rewrite Hw; lia).
  assert (Hone : ∀ {A} (op : X W string A), broadcasts committed accepted op → ∀ s, (sent (op s).2 <= sent s + 1)%nat)
    by (intros A op Hb s0; by eapply broadcasts_sent).
  split_and!.
  - intros lcdUrl. etrans; [apply (bind_sent accepted _ _ 2)|fold sent; lia]. intros gas s1. cbv zeta. case_bool_decide; [by apply (retryOnce_sent reconnect accepted Hr _ 1), Hone|].
    etrans; [apply (bind_sent accepted _ _ 0), Hw0|]. rewrite Nat.add_0_r. by apply (retryOnce_sent reconnect accepted Hr _ 1), Hone.
  - intros lcdUrl Hc1 Hc2. etrans; [apply (bind_sent accepted _ _ 1)|fold sent; lia]. intros gas s1. cbv zeta. case_bool_decide; [rewrite retryOnce_connected by done; by apply Hone|].
    etrans; [apply (bind_sent accepted _ _ 0), Hw0|]. rewrite Nat.add_0_r, retryOnce_connected by done. by apply Hone.
  - intros gas s1 s2 s3 Eg f. pose proof (Hs s) as Ha. rewrite Eg in Ha. cbn in Ha.
    assert (Esim : retryOnce reconnect simulate s = (Ok gas, s1)) by (unfold retryOnce, tryCatch; by rewrite Eg).
    unfold auto, signAndBroadcastAuto.
    assert (Hsent : sent s = sent s1) by (unfold sent, SdkSigning.sent; by rewrite Ha). rewrite Hsent, <-Ha. split.
    + intros Hl. destruct (second_try reconnect committed accepted Hr (full f) s1 s2 s3 (Hfull f) Hl) as [H1 H2].
      rewrite !(bind_ok _ _ _ _ _ Esim). cbn [default from_option]. rewrite bool_decide_true by done. fold f. destruct (retryOnce_lost reconnect committed accepted Hr _ _ _ _ Hl) as [-> _]. split; [done|].
      intros r Er. by destruct (H2 r Er).
    + intros url Hurl Hl. destruct (second_try reconnect committed accepted Hr (sync f) s1 s2 s3 (Hsync f) Hl) as [H1 H2].
      rewrite !(bind_ok _ _ _ _ _ Esim). cbn [default from_option]. change (id url) with url. cbv zeta. rewrite !bool_decide_false by done. fold f.
      destruct (retryOnce_lost reconnect committed accepted Hr _ _ _ _ Hl) as [Eretry _].
      destruct (sync f s3) as [[h|e] s4] eqn:E4; cbn in *.
      * rewrite (bind_ok _ _ _ h s4) by by rewrite Eretry. split.
        -- intros Hin. destruct (H1 Hin) as [[err [=]] _].
        -- intros h' [= <-]. destruct (H2 h eq_refl) as [_ Hs4]. unfold sent, SdkSigning.sent in *. by rewrite Hw.
      * rewrite (bind_err _ _ _ e s4) by by rewrite Eretry. split; [|done]. intros Hin. destruct (H1 Hin) as [_ Hacc]. split; [by eexists|done].
Qed.

(** A node that accepts what carries a new number and loses its first answer;
    by the time the client has connected again it has made a block, or not. *)
Definition losing (_ : Z) : X (nat * gset nat) string DeliverTxResponse := λ s,
  if bool_decide (s.1 ∈ s.2) then (Err "account sequence mismatch", s)
  else (if bool_decide (s.2 = ∅) then Err "socket hang up" else Ok (toResponse "AB" JNull), (s.1, {[s.1]} ∪ s.2)).
Definition losing_sync (_ : Z) : X (nat * gset nat) string string := λ s,
  if bool_decide (s.1 ∈ s.2) then (Err "account sequence mismatch", s) else (Ok "AB", (s.1, {[s.1]} ∪ s.2)).
Definition connectAfter (blocks : nat) : X (nat * gset nat) string unit := λ s, (Ok (), (s.1 + blocks, s.2)%nat).

Lemma losing_broadcasts f : broadcasts fst snd (losing f).
Proof. split; unfold losing; intros [n acc]; cbn; repeat case_bool_decide; cbn; try done; eauto; set_solver. Qed.
Lemma losing_sync_broadcasts f : broadcasts fst snd (losing_sync f).
Proof. split; unfold losing_sync; intros [n acc]; cbn; repeat case_bool_decide; cbn; try done; eauto; set_solver. Qed.

Definition toy_auto (blocks : nat) : result string DeliverTxResponse * (nat * gset nat) :=
  signAndBroadcastAuto (λ s, (Ok 5, s)) losing_sync losing (connectAfter blocks) (λ g, g) (λ g, g) (λ _ s, (Ok (toResponse "AB" JNull), s)) None (7%nat, ∅).

Lemma auto_broadcasts_witness :
  (∃ err, (toy_auto 0).1 = Err err) ∧ size (toy_auto 0).2.2 = 1%nat ∧ size (toy_auto 1).2.2 = 2%nat.
Proof.
  assert (Hauto : ∀ blocks, _) by (intros blocks; refine (auto_broadcasts fst snd (λ s, (Ok 5, s)) losing_sync losing (connectAfter blocks) (λ g : Z, g) (λ g, g)
    (λ _ s, (Ok (toResponse "AB" JNull), s)) (7%nat, ∅) _ _ _ losing_sync_broadcasts losing_broadcasts); by intros).
  assert (Hlost : ∀ blocks, lost (connectAfter blocks) fst snd (losing 200000) (7%nat, ∅) (7%nat, {[7%nat]}) ((7 + blocks)%nat, {[7%nat]})).
  { intros blocks. exists "socket hang up". split; [vm_compute; reflexivity|]. split; [reflexivity|]. split; [reflexivity|]. split; cbn; set_solver. }
  destruct (Hauto 0%nat) as (_ & _ & H0). destruct (H0 5 (7%nat, ∅) (7%nat, {[7%nat]}) (7%nat, {[7%nat]}) eq_refl) as [[Hrefused _] _]; [exact (Hlost 0%nat)|].
  destruct (Hauto 1%nat) as (_ & _ & H1). destruct (H1 5 (7%nat, ∅) (7%nat, {[7%nat]}) (8%nat, {[7%nat]}) eq_refl) as [[_ Htwice] _]; [exact (Hlost 1%nat)|].
  destruct Hrefused as [Herr Hacc]; [cbn; set_solver|]. split; [exact Herr|]. split.
  - fold (toy_auto 0) in Hacc. rewrite Hacc. reflexivity.
  - destruct (Htwice (toResponse "AB" JNull)) as [_ Hsize]; [vm_compute; reflexivity|]. exact Hsize.
Defined.

Lemma wait_ends_witness : waitForDeliverTxViaLcd (λ i, (100, if (i <? 2)%nat then Response false 404 (Ok JNull) else FetchFailed "fetch failed")) "ab" 0 ≠ Err OutOfPolls.
Proof.
  destruct (wait_ends (λ i, (100, if (i <? 2)%nat then Response false 404 (Ok JNull) else FetchFailed "fetch failed")) "ab" 0) as [(j & r & e & _ & _ & _ & _ & E)|(j & m & _ & _ & E)];
    [intros; cbn; lia|rewrite E; discriminate..].
Defined.

Example hang_up : isSocketError "Error: Socket hang up" = true ∧ isSocketError "account sequence mismatch" = false.
Proof. by split. Qed.
Example key_hex : walletFromPrivKey (Some "0x00ff") = Err "walletFromPrivKey: private key must be 32-byte hex".
Proof. reflexivity. Qed.

End SdkSigning.
