(* ===== verification/SdkClient.v ===== *)
(** * The chain client: [packages/ocp-sdk/src/cosmos/ocp.ts], [client.ts], [lcd.ts]

    The helpers of the client turn their arguments into a message and its type
    URL, which the registry maps to a message type; signing and broadcasting are
    those of [SdkSigning].  The queries and the event parsers read untyped
    JSON.  A number argument below 10^21 is written by [String] with its digits. *)
From stdpp Require Import base option list strings pretty.
From Stdlib Require Import ZArith Lia Ascii.
From S2P Require Import Prelude OcpBytes Json Monads JsMap CoordConfig CoordDealer JsonText WebEvents SdkWire SdkCodec SdkPoker SdkDealer SdkSigning.
Import Bytes Json ExceptM JsMap CoordConfig JsonTextThms SdkWire SdkCodec SdkSigning.

Module SdkClient.

#[local] Open Scope string_scope.
#[local] Open Scope list_scope.
#[local] Open Scope Z_scope.

(** ** ocp.ts *)

(** [OCP_TYPE_URLS.poker], [OCP_TYPE_URLS.dealer] *)
Definition pokerUrls : list (string * string) :=
  [("createTable", "/onchainpoker.poker.v1.MsgCreateTable");
   ("sit", "/onchainpoker.poker.v1.MsgSit");
   ("startHand", "/onchainpoker.poker.v1.MsgStartHand");
   ("act", "/onchainpoker.poker.v1.MsgAct");
   ("tick", "/onchainpoker.poker.v1.MsgTick");
   ("leave", "/onchainpoker.poker.v1.MsgLeave");
   ("rebuy", "/onchainpoker.poker.v1.MsgRebuy")].
Definition dealerUrls : list (string * string) :=
  [("beginEpoch", "/onchainpoker.dealer.v1.MsgBeginEpoch");
   ("dkgCommit", "/onchainpoker.dealer.v1.MsgDkgCommit");
   ("dkgComplaintMissing", "/onchainpoker.dealer.v1.MsgDkgComplaintMissing");
   ("dkgComplaintInvalid", "/onchainpoker.dealer.v1.MsgDkgComplaintInvalid");
   ("dkgComplaintAEADBad", "/onchainpoker.dealer.v1.MsgDkgComplaintAEADBad");
   ("dkgShareReveal", "/onchainpoker.dealer.v1.MsgDkgShareReveal");
   ("dkgEncryptedShare", "/onchainpoker.dealer.v1.MsgDkgEncryptedShare");
   ("finalizeEpoch", "/onchainpoker.dealer.v1.MsgFinalizeEpoch");
   ("dkgTimeout", "/onchainpoker.dealer.v1.MsgDkgTimeout");
   ("initHand", "/onchainpoker.dealer.v1.MsgInitHand");
   ("submitShuffle", "/onchainpoker.dealer.v1.MsgSubmitShuffle");
   ("finalizeDeck", "/onchainpoker.dealer.v1.MsgFinalizeDeck");
   ("submitPubShare", "/onchainpoker.dealer.v1.MsgSubmitPubShare");
   ("submitEncShare", "/onchainpoker.dealer.v1.MsgSubmitEncShare");
   ("finalizeReveal", "/onchainpoker.dealer.v1.MsgFinalizeReveal");
   ("timeout", "/onchainpoker.dealer.v1.MsgTimeout");
   ("openBeaconWindow", "/onchainpoker.dealer.v1.MsgOpenBeaconWindow");
   ("beaconCommit", "/onchainpoker.dealer.v1.MsgBeaconCommit");
   ("beaconReveal", "/onchainpoker.dealer.v1.MsgBeaconReveal")].
Definition urlOf (urls : list (string * string)) (k : string) : string := default EmptyString (mget k urls).

(** What [createOcpRegistry] registers besides the types of CosmJS. *)
Definition createOcpRegistry : list (string * message) :=
  [(urlOf pokerUrls "createTable", SdkPoker.MsgCreateTable);
   (urlOf pokerUrls "sit", SdkPoker.MsgSit);
   (urlOf pokerUrls "startHand", SdkPoker.MsgStartHand);
   (urlOf pokerUrls "act", SdkPoker.MsgAct);
   (urlOf pokerUrls "tick", SdkPoker.MsgTick);
   (urlOf pokerUrls "leave", SdkPoker.MsgLeave);
   (urlOf pokerUrls "rebuy", SdkPoker.MsgRebuy);
   (urlOf dealerUrls "beginEpoch", SdkDealer.MsgBeginEpoch);
   (urlOf dealerUrls "dkgCommit", SdkDealer.MsgDkgCommit);
   (urlOf dealerUrls "dkgComplaintMissing", SdkDealer.MsgDkgComplaintMissing);
   (urlOf dealerUrls "dkgComplaintInvalid", SdkDealer.MsgDkgComplaintInvalid);
   (urlOf dealerUrls "dkgComplaintAEADBad", SdkDealer.MsgDkgComplaintAEADBad);
   (urlOf dealerUrls "dkgShareReveal", SdkDealer.MsgDkgShareReveal);
   (urlOf dealerUrls "dkgEncryptedShare", SdkDealer.MsgDkgEncryptedShare);
   (urlOf dealerUrls "finalizeEpoch", SdkDealer.MsgFinalizeEpoch);
   (urlOf dealerUrls "dkgTimeout", SdkDealer.MsgDkgTimeout);
   (urlOf dealerUrls "initHand", SdkDealer.MsgInitHand);
   (urlOf dealerUrls "submitShuffle", SdkDealer.MsgSubmitShuffle);
   (urlOf dealerUrls "finalizeDeck", SdkDealer.MsgFinalizeDeck);
   (urlOf dealerUrls "submitPubShare", SdkDealer.MsgSubmitPubShare);
   (urlOf dealerUrls "submitEncShare", SdkDealer.MsgSubmitEncShare);
   (urlOf dealerUrls "finalizeReveal", SdkDealer.MsgFinalizeReveal);
   (urlOf dealerUrls "timeout", SdkDealer.MsgTimeout);
   (urlOf dealerUrls "openBeaconWindow", SdkDealer.MsgOpenBeaconWindow);
   (urlOf dealerUrls "beaconCommit", SdkDealer.MsgBeaconCommit);
   (urlOf dealerUrls "beaconReveal", SdkDealer.MsgBeaconReveal)].

(** ** Arguments *)

Inductive UintLike := UStr (s : string) | UNum (n : number) | UBig (z : Z).

Inductive ClientError :=
| EmptyUint (label : string) | BadUintString (label : string) | NotUint (label : string)
| PasswordPair | DhShareLength | DleqProofLength | TxFailed (code : Z) (log : string) | NoLcd | Thrown (message : string).

(** [/^\d+$/.test(s)] *)
Definition isDecimal (s : string) : bool := let l := chars s in negb (length l =? 0)%nat && forallb isDigit l.

(** The text of an integer is exact: of a number beyond 2^53, which may be a
    rounded one already, [String] writes the shortest decimal that reads back as
    the number, in exponent form from 10^21 on. *)
Definition toU64String (x : UintLike) (label : string) : result ClientError string :=
  match x with
  | UStr s =>
      let s := trimmed s in
      if bool_decide (s = EmptyString) then Err (EmptyUint label)
      else if negb (isDecimal s) then Err (BadUintString label) else Ok s
  | UNum (Int n) | UBig n => if n <? 0 then Err (NotUint label) else Ok (pretty n)
  | UNum NotInteger => Err (NotUint label)
  end.

Definition u64 (x : option UintLike) (fallback label : string) : result ClientError string :=
  match x with None => Ok fallback | Some x => toU64String x label end.

(** [(a ?? signing.address).trim()] *)
Definition who (self : string) (a : option string) : string := trimmed (default self a).
Definition VNumber (n : number) : value := match n with Int z => VNum z | NotInteger => VNaN end.

(** ** Messages *)

(** CosmJS's [EncodeObject] *)
Record EncodeObject := mkEncodeObject { typeUrl : string; content : object }.

Definition pokerCreateTable (self : string) (creator : option string) (smallBlind bigBlind minBuyIn maxBuyIn : UintLike)
    (actionTimeoutSecs dealerTimeoutSecs playerBond : option UintLike) (rakeBps maxPlayers : option number) (label : option string) (passwordCommitment passwordSalt : option bytes) : result ClientError EncodeObject :=
  let hasCommit := match passwordCommitment with Some b => (0 <? length b)%nat | None => false end in
  let hasSalt := match passwordSalt with Some b => (0 <? length b)%nat | None => false end in
  let! _ := throw_if (negb (Bool.eqb hasCommit hasSalt)) PasswordPair in
  let! smallBlind := toU64String smallBlind "smallBlind" in
  let! bigBlind := toU64String bigBlind "bigBlind" in
  let! minBuyIn := toU64String minBuyIn "minBuyIn" in
  let! maxBuyIn := toU64String maxBuyIn "maxBuyIn" in
  let! actionTimeoutSecs := u64 actionTimeoutSecs "0" "actionTimeoutSecs" in
  let! dealerTimeoutSecs := u64 dealerTimeoutSecs "0" "dealerTimeoutSecs" in
  let! playerBond := u64 playerBond "0" "playerBond" in
  Ok (mkEncodeObject (urlOf pokerUrls "createTable")
        [("creator", VStr (who self creator)); ("smallBlind", VStr smallBlind); ("bigBlind", VStr bigBlind);
         ("minBuyIn", VStr minBuyIn); ("maxBuyIn", VStr maxBuyIn); ("actionTimeoutSecs", VStr actionTimeoutSecs);
         ("dealerTimeoutSecs", VStr dealerTimeoutSecs); ("playerBond", VStr playerBond);
         ("rakeBps", VNumber (default (Int 0) rakeBps)); ("maxPlayers", VNumber (default (Int 0) maxPlayers));
         ("label", VStr (default EmptyString label)); ("passwordCommitment", VBytes (default [] passwordCommitment));
         ("passwordSalt", VBytes (default [] passwordSalt))]).

Definition pokerSit (self : string) (player : option string) (tableId buyIn : UintLike) (pkPlayer : bytes)
    (passwordProof : option bytes) : result ClientError EncodeObject :=
  let! tableId := toU64String tableId "tableId" in
  let! buyIn := toU64String buyIn "buyIn" in
  Ok (mkEncodeObject (urlOf pokerUrls "sit")
        [("player", VStr (who self player)); ("tableId", VStr tableId); ("buyIn", VStr buyIn); ("pkPlayer", VBytes pkPlayer);
         ("passwordProof", VBytes (default [] passwordProof))]).

Definition pokerStartHand (self : string) (caller : option string) (tableId : UintLike) : result ClientError EncodeObject :=
  let! tableId := toU64String tableId "tableId" in
  Ok (mkEncodeObject (urlOf pokerUrls "startHand")
        [("caller", VStr (who self caller)); ("tableId", VStr tableId)]).

Definition pokerAct (self : string) (player : option string) (tableId : UintLike) (action : string)
    (amount : option UintLike) : result ClientError EncodeObject :=
  let! tableId := toU64String tableId "tableId" in
  let! amount := u64 amount "0" "amount" in
  Ok (mkEncodeObject (urlOf pokerUrls "act")
        [("player", VStr (who self player)); ("tableId", VStr tableId); ("action", VStr action); ("amount", VStr amount)]).

Definition pokerTick (self : string) (caller : option string) (tableId : UintLike) : result ClientError EncodeObject :=
  let! tableId := toU64String tableId "tableId" in
  Ok (mkEncodeObject (urlOf pokerUrls "tick")
        [("caller", VStr (who self caller)); ("tableId", VStr tableId)]).

Definition pokerLeave (self : string) (player : option string) (tableId : UintLike) : result ClientError EncodeObject :=
  let! tableId := toU64String tableId "tableId" in
  Ok (mkEncodeObject (urlOf pokerUrls "leave")
        [("player", VStr (who self player)); ("tableId", VStr tableId)]).

Definition pokerRebuy (self : string) (player : option string) (tableId amount : UintLike) : result ClientError EncodeObject :=
  let! tableId := toU64String tableId "tableId" in
  let! amount := toU64String amount "amount" in
  Ok (mkEncodeObject (urlOf pokerUrls "rebuy")
        [("player", VStr (who self player)); ("tableId", VStr tableId); ("amount", VStr amount)]).

Definition dealerBeginEpoch (self : string) (caller : option string) (epochId : option UintLike) (committeeSize threshold : number)
    (randEpoch : option bytes) (commitBlocks complaintBlocks revealBlocks finalizeBlocks : option UintLike) : result ClientError EncodeObject :=
  let! epochId := u64 epochId "0" "epochId" in
  let! commitBlocks := u64 commitBlocks "0" "commitBlocks" in
  let! complaintBlocks := u64 complaintBlocks "0" "complaintBlocks" in
  let! revealBlocks := u64 revealBlocks "0" "revealBlocks" in
  let! finalizeBlocks := u64 finalizeBlocks "0" "finalizeBlocks" in
  Ok (mkEncodeObject (urlOf dealerUrls "beginEpoch")
        [("caller", VStr (who self caller)); ("epochId", VStr epochId); ("committeeSize", VNumber committeeSize);
         ("threshold", VNumber threshold); ("randEpoch", VBytes (default [] randEpoch)); ("commitBlocks", VStr commitBlocks);
         ("complaintBlocks", VStr complaintBlocks); ("revealBlocks", VStr revealBlocks);
         ("finalizeBlocks", VStr finalizeBlocks)]).

Definition dealerDkgCommit (dealer : string) (epochId : UintLike) (commitments : list bytes)
    (ephemeralPubkey : option bytes) : result ClientError EncodeObject :=
  let! epochId := toU64String epochId "epochId" in
  Ok (mkEncodeObject (urlOf dealerUrls "dkgCommit")
        [("dealer", VStr (trimmed dealer)); ("epochId", VStr epochId); ("commitments", VList (map VBytes commitments));
         ("ephemeralPubkey", VBytes (default [] ephemeralPubkey))]).

Definition dealerDkgEncryptedShare (dealer : string) (epochId : UintLike) (recipientIndex : number)
    (u v proof scalarCt : bytes) : result ClientError EncodeObject :=
  let! epochId := toU64String epochId "epochId" in
  Ok (mkEncodeObject (urlOf dealerUrls "dkgEncryptedShare")
        [("dealer", VStr (trimmed dealer)); ("epochId", VStr epochId); ("recipientIndex", VNumber recipientIndex);
         ("u", VBytes u); ("v", VBytes v); ("proof", VBytes proof); ("scalarCt", VBytes scalarCt)]).

Definition dealerDkgComplaintMissing (complainer : string) (epochId : UintLike) (dealer : string) : result ClientError EncodeObject :=
  let! epochId := toU64String epochId "epochId" in
  Ok (mkEncodeObject (urlOf dealerUrls "dkgComplaintMissing")
        [("complainer", VStr (trimmed complainer)); ("epochId", VStr epochId); ("dealer", VStr (trimmed dealer))]).

Definition dealerDkgComplaintInvalid (complainer : string) (epochId : UintLike) (dealer : string)
    (shareMsg : bytes) : result ClientError EncodeObject :=
  let! epochId := toU64String epochId "epochId" in
  Ok (mkEncodeObject (urlOf dealerUrls "dkgComplaintInvalid")
        [("complainer", VStr (trimmed complainer)); ("epochId", VStr epochId); ("dealer", VStr (trimmed dealer));
         ("shareMsg", VBytes shareMsg)]).

Definition dealerDkgComplaintAEADBad (complainer : string) (epochId : UintLike) (dealer : string) (recipientIndex : number)
    (dhShare dleqProof : bytes) : result ClientError EncodeObject :=
  let! _ := throw_if (negb (length dhShare =? 32)%nat) DhShareLength in
  let! _ := throw_if (negb (length dleqProof =? 96)%nat) DleqProofLength in
  let! epochId := toU64String epochId "epochId" in
  Ok (mkEncodeObject (urlOf dealerUrls "dkgComplaintAEADBad")
        [("complainer", VStr (trimmed complainer)); ("epochId", VStr epochId); ("dealer", VStr (trimmed dealer));
         ("recipientIndex", VNumber recipientIndex); ("dhShare", VBytes dhShare); ("dleqProof", VBytes dleqProof)]).

Definition dealerDkgShareReveal (dealer : string) (epochId : UintLike) (to : string) (share : bytes) : result ClientError EncodeObject :=
  let! epochId := toU64String epochId "epochId" in
  Ok (mkEncodeObject (urlOf dealerUrls "dkgShareReveal")
        [("dealer", VStr (trimmed dealer)); ("epochId", VStr epochId); ("to", VStr (trimmed to)); ("share", VBytes share)]).

Definition dealerFinalizeEpoch (self : string) (caller : option string) (epochId : UintLike) : result ClientError EncodeObject :=
  let! epochId := toU64String epochId "epochId" in
  Ok (mkEncodeObject (urlOf dealerUrls "finalizeEpoch")
        [("caller", VStr (who self caller)); ("epochId", VStr epochId)]).

Definition dealerDkgTimeout (self : string) (caller : option string) (epochId : UintLike) : result ClientError EncodeObject :=
  let! epochId := toU64String epochId "epochId" in
  Ok (mkEncodeObject (urlOf dealerUrls "dkgTimeout")
        [("caller", VStr (who self caller)); ("epochId", VStr epochId)]).

Definition dealerInitHand (self : string) (caller : option string) (tableId handId epochId : UintLike)
    (deckSize : option number) : result ClientError EncodeObject :=
  let! tableId := toU64String tableId "tableId" in
  let! handId := toU64String handId "handId" in
  let! epochId := toU64String epochId "epochId" in
  Ok (mkEncodeObject (urlOf dealerUrls "initHand")
        [("caller", VStr (who self caller)); ("tableId", VStr tableId); ("handId", VStr handId); ("epochId", VStr epochId);
         ("deckSize", VNumber (default (Int 0) deckSize))]).

Definition dealerSubmitShuffle (shuffler : string) (tableId handId : UintLike) (round : number)
    (proofShuffle : bytes) : result ClientError EncodeObject :=
  let! tableId := toU64String tableId "tableId" in
  let! handId := toU64String handId "handId" in
  Ok (mkEncodeObject (urlOf dealerUrls "submitShuffle")
        [("shuffler", VStr (trimmed shuffler)); ("tableId", VStr tableId); ("handId", VStr handId); ("round", VNumber round);
         ("proofShuffle", VBytes proofShuffle)]).

Definition dealerFinalizeDeck (self : string) (caller : option string) (tableId handId : UintLike) : result ClientError EncodeObject :=
  let! tableId := toU64String tableId "tableId" in
  let! handId := toU64String handId "handId" in
  Ok (mkEncodeObject (urlOf dealerUrls "finalizeDeck")
        [("caller", VStr (who self caller)); ("tableId", VStr tableId); ("handId", VStr handId)]).

Definition dealerSubmitPubShare (validator : string) (tableId handId : UintLike) (pos : number)
    (pubShare proofShare : bytes) : result ClientError EncodeObject :=
  let! tableId := toU64String tableId "tableId" in
  let! handId := toU64String handId "handId" in
  Ok (mkEncodeObject (urlOf dealerUrls "submitPubShare")
        [("validator", VStr (trimmed validator)); ("tableId", VStr tableId); ("handId", VStr handId); ("pos", VNumber pos);
         ("pubShare", VBytes pubShare); ("proofShare", VBytes proofShare)]).

Definition dealerSubmitEncShare (validator : string) (tableId handId : UintLike) (pos : number)
    (pkPlayer encShare proofEncShare : bytes) : result ClientError EncodeObject :=
  let! tableId := toU64String tableId "tableId" in
  let! handId := toU64String handId "handId" in
  Ok (mkEncodeObject (urlOf dealerUrls "submitEncShare")
        [("validator", VStr (trimmed validator)); ("tableId", VStr tableId); ("handId", VStr handId); ("pos", VNumber pos);
         ("pkPlayer", VBytes pkPlayer); ("encShare", VBytes encShare); ("proofEncShare", VBytes proofEncShare)]).

Definition dealerFinalizeReveal (self : string) (caller : option string) (tableId handId : UintLike)
    (pos : number) : result ClientError EncodeObject :=
  let! tableId := toU64String tableId "tableId" in
  let! handId := toU64String handId "handId" in
  Ok (mkEncodeObject (urlOf dealerUrls "finalizeReveal")
        [("caller", VStr (who self caller)); ("tableId", VStr tableId); ("handId", VStr handId); ("pos", VNumber pos)]).

Definition dealerTimeout (self : string) (caller : option string) (tableId handId : UintLike) : result ClientError EncodeObject :=
  let! tableId := toU64String tableId "tableId" in
  let! handId := toU64String handId "handId" in
  Ok (mkEncodeObject (urlOf dealerUrls "timeout")
        [("caller", VStr (who self caller)); ("tableId", VStr tableId); ("handId", VStr handId)]).

Definition dealerBeaconCommit (validator : string) (epochId : UintLike) (commit : bytes) : result ClientError EncodeObject :=
  let! epochId := toU64String epochId "epochId" in
  Ok (mkEncodeObject (urlOf dealerUrls "beaconCommit")
        [("validator", VStr (trimmed validator)); ("epochId", VStr epochId); ("commit", VBytes commit)]).

Definition dealerBeaconReveal (validator : string) (epochId : UintLike) (salt : bytes) : result ClientError EncodeObject :=
  let! epochId := toU64String epochId "epochId" in
  Ok (mkEncodeObject (urlOf dealerUrls "beaconReveal")
        [("validator", VStr (trimmed validator)); ("epochId", VStr epochId); ("salt", VBytes salt)]).


(** A call of one of the helpers, without its memo. *)
Inductive Call :=
| PokerCreateTable (creator : option string) (smallBlind bigBlind minBuyIn maxBuyIn : UintLike) (actionTimeoutSecs dealerTimeoutSecs playerBond : option UintLike) (rakeBps maxPlayers : option number) (label : option string) (passwordCommitment passwordSalt : option bytes)
| PokerSit (player : option string) (tableId buyIn : UintLike) (pkPlayer : bytes) (passwordProof : option bytes)
| PokerStartHand (caller : option string) (tableId : UintLike)
| PokerAct (player : option string) (tableId : UintLike) (action : string) (amount : option UintLike)
| PokerTick (caller : option string) (tableId : UintLike)
| PokerLeave (player : option string) (tableId : UintLike)
| PokerRebuy (player : option string) (tableId amount : UintLike)
| DealerBeginEpoch (caller : option string) (epochId : option UintLike) (committeeSize threshold : number) (randEpoch : option bytes) (commitBlocks complaintBlocks revealBlocks finalizeBlocks : option UintLike)
| DealerDkgCommit (dealer : string) (epochId : UintLike) (commitments : list bytes) (ephemeralPubkey : option bytes)
| DealerDkgEncryptedShare (dealer : string) (epochId : UintLike) (recipientIndex : number) (u v proof scalarCt : bytes)
| DealerDkgComplaintMissing (complainer : string) (epochId : UintLike) (dealer : string)
| DealerDkgComplaintInvalid (complainer : string) (epochId : UintLike) (dealer : string) (shareMsg : bytes)
| DealerDkgComplaintAEADBad (complainer : string) (epochId : UintLike) (dealer : string) (recipientIndex : number) (dhShare dleqProof : bytes)
| DealerDkgShareReveal (dealer : string) (epochId : UintLike) (to : string) (share : bytes)
| DealerFinalizeEpoch (caller : option string) (epochId : UintLike)
| DealerDkgTimeout (caller : option string) (epochId : UintLike)
| DealerInitHand (caller : option string) (tableId handId epochId : UintLike) (deckSize : option number)
| DealerSubmitShuffle (shuffler : string) (tableId handId : UintLike) (round : number) (proofShuffle : bytes)
| DealerFinalizeDeck (caller : option string) (tableId handId : UintLike)
| DealerSubmitPubShare (validator : string) (tableId handId : UintLike) (pos : number) (pubShare proofShare : bytes)
| DealerSubmitEncShare (validator : string) (tableId handId : UintLike) (pos : number) (pkPlayer encShare proofEncShare : bytes)
| DealerFinalizeReveal (caller : option string) (tableId handId : UintLike) (pos : number)
| DealerTimeout (caller : option string) (tableId handId : UintLike)
| DealerBeaconCommit (validator : string) (epochId : UintLike) (commit : bytes)
| DealerBeaconReveal (validator : string) (epochId : UintLike) (salt : bytes).

Definition request (self : string) (c : Call) : result ClientError EncodeObject :=
  match c with
  | PokerCreateTable creator smallBlind bigBlind minBuyIn maxBuyIn actionTimeoutSecs dealerTimeoutSecs playerBond rakeBps maxPlayers label passwordCommitment passwordSalt => pokerCreateTable self creator smallBlind bigBlind minBuyIn maxBuyIn actionTimeoutSecs dealerTimeoutSecs playerBond rakeBps maxPlayers label passwordCommitment passwordSalt
  | PokerSit player tableId buyIn pkPlayer passwordProof => pokerSit self player tableId buyIn pkPlayer passwordProof
  | PokerStartHand caller tableId => pokerStartHand self caller tableId
  | PokerAct player tableId action amount => pokerAct self player tableId action amount
  | PokerTick caller tableId => pokerTick self caller tableId
  | PokerLeave player tableId => pokerLeave self player tableId
  | PokerRebuy player tableId amount => pokerRebuy self player tableId amount
  | DealerBeginEpoch caller epochId committeeSize threshold randEpoch commitBlocks complaintBlocks revealBlocks finalizeBlocks => dealerBeginEpoch self caller epochId committeeSize threshold randEpoch commitBlocks complaintBlocks revealBlocks finalizeBlocks
  | DealerDkgCommit dealer epochId commitments ephemeralPubkey => dealerDkgCommit dealer epochId commitments ephemeralPubkey
  | DealerDkgEncryptedShare dealer epochId recipientIndex u v proof scalarCt => dealerDkgEncryptedShare dealer epochId recipientIndex u v proof scalarCt
  | DealerDkgComplaintMissing complainer epochId dealer => dealerDkgComplaintMissing complainer epochId dealer
  | DealerDkgComplaintInvalid complainer epochId dealer shareMsg => dealerDkgComplaintInvalid complainer epochId dealer shareMsg
  | DealerDkgComplaintAEADBad complainer epochId dealer recipientIndex dhShare dleqProof => dealerDkgComplaintAEADBad complainer epochId dealer recipientIndex dhShare dleqProof
  | DealerDkgShareReveal dealer epochId to share => dealerDkgShareReveal dealer epochId to share
  | DealerFinalizeEpoch caller epochId => dealerFinalizeEpoch self caller epochId
  | DealerDkgTimeout caller epochId => dealerDkgTimeout self caller epochId
  | DealerInitHand caller tableId handId epochId deckSize => dealerInitHand self caller tableId handId epochId deckSize
  | DealerSubmitShuffle shuffler tableId handId round proofShuffle => dealerSubmitShuffle shuffler tableId handId round proofShuffle
  | DealerFinalizeDeck caller tableId handId => dealerFinalizeDeck self caller tableId handId
  | DealerSubmitPubShare validator tableId handId pos pubShare proofShare => dealerSubmitPubShare validator tableId handId pos pubShare proofShare
  | DealerSubmitEncShare validator tableId handId pos pkPlayer encShare proofEncShare => dealerSubmitEncShare validator tableId handId pos pkPlayer encShare proofEncShare
  | DealerFinalizeReveal caller tableId handId pos => dealerFinalizeReveal self caller tableId handId pos
  | DealerTimeout caller tableId handId => dealerTimeout self caller tableId handId
  | DealerBeaconCommit validator epochId commit => dealerBeaconCommit validator epochId commit
  | DealerBeaconReveal validator epochId salt => dealerBeaconReveal validator epochId salt
  end.

(** ** Broadcasting *)

Section client.
Context {W : Type}.
Abbreviation effect A := (X W ClientError A).

(** [signing.signAndBroadcastAuto] of the signing client. *)
Variable signAndBroadcastAuto : list EncodeObject → option string → effect DeliverTxResponse.

Definition signAndBroadcast (msgs : list EncodeObject) (memo : option string) : effect DeliverTxResponse :=
  res ← signAndBroadcastAuto msgs memo;
  if negb (code res =? 0) then raise (TxFailed (code res) (rawLog res)) else mret res.

(** A helper: its message, signed and broadcast. *)
Definition perform (self : string) (c : Call) (memo : option string) : effect DeliverTxResponse :=
  eo ← ofRes (request self c); signAndBroadcast [eo] memo.

(** ** Queries *)

(** [lcd.getJson], if there is an LCD. *)
Variable lcd : option (string → effect json).

Definition ensureLcd : effect (string → effect json) := match lcd with Some c => mret c | None => raise NoLcd end.

(** [x || null] *)
Definition orNull (x : json) : json := if truthy x then x else JNull.
(** [.catch(() => null)] *)
Definition orNothing (m : effect json) : effect json := tryCatch m (λ _, mret JNull).

Definition getTables : effect (list string) :=
  c ← ensureLcd;
  j ← c "/onchainpoker/poker/v1/tables";
  let raw := match Json.field j "tableIds", Json.field j "table_ids" with JArr l, _ => l | _, JArr l => l | _, _ => [] end in
  mret (List.filter isDecimal (map toStr raw)).

Definition getTable (tableId : UintLike) : effect json :=
  c ← ensureLcd;
  id ← ofRes (toU64String tableId "tableId");
  j ← orNothing (c ("/onchainpoker/poker/v1/tables/" +:+ CoordDealer.encodeURIComponent id));
  mret (orNull (Json.field j "table")).

Definition getDealerEpoch : effect json :=
  c ← ensureLcd; j ← orNothing (c "/onchainpoker/dealer/v1/epoch"); mret (orNull (Json.field j "epoch")).

Definition getDealerDkg : effect json :=
  c ← ensureLcd; j ← orNothing (c "/onchainpoker/dealer/v1/dkg"); mret (orNull (Json.field j "dkg")).

Definition getDealerHand (tableId handId : UintLike) : effect json :=
  c ← ensureLcd;
  tid ← ofRes (toU64String tableId "tableId");
  hid ← ofRes (toU64String handId "handId");
  j ← orNothing (c ("/onchainpoker/dealer/v1/tables/" +:+ CoordDealer.encodeURIComponent tid +:+ "/hands/" +:+ CoordDealer.encodeURIComponent hid));
  mret (orNull (Json.field j "hand")).

End client.

(** ** Events of a transaction *)

(** The text of [maybeBase64ToUtf8] is that of the web client. *)
Definition maybeBase64ToUtf8 : string → string := WebEvents.maybeBase64ToUtf8.

Record OcpAbciEvent := mkOcpAbciEvent { abciType : string; abciAttributes : list (string * string) }.

Definition normalizeDeliverTxEvents (events : list Event) : list OcpAbciEvent :=
  map (λ ev, mkOcpAbciEvent (type ev) (foldl (λ attrs a, mset (maybeBase64ToUtf8 (key a)) (maybeBase64ToUtf8 (attr a)) attrs) [] (attributes ev))) events.

Definition findEventAttr (events : list Event) (eventType attrKey : string) : option string :=
  match List.find (λ e, bool_decide (abciType e = eventType)) (normalizeDeliverTxEvents events) with
  | Some ev => mget attrKey (abciAttributes ev)
  | None => None
  end.

(** [v && /^\d+$/.test(v) ? v : null] *)
Definition decimalOrNull (v : option string) : option string := match v with Some v => if isDecimal v then Some v else None | None => None end.
Definition parseTableIdFromTx (tx : DeliverTxResponse) : option string := decimalOrNull (findEventAttr (events tx) "TableCreated" "tableId").
Definition parseHandIdFromTx (tx : DeliverTxResponse) : option string := decimalOrNull (findEventAttr (events tx) "HandStarted" "handId").

(** ** lcd.ts *)

(** [x.replace(/\/+$/, "")] *)
Fixpoint dropSlashes (r : list ascii) : list ascii := match r with c :: r' => if bool_decide (c = "/"%char) then dropSlashes r' else r | [] => [] end.
Definition stripSlashes (s : string) : string := CoordConfig.text (rev (dropSlashes (rev (chars s)))).

(** [new URL(s).pathname] ([None] when it throws), and the URL with another
    path. *)
Record UrlOps := mkUrlOps { pathname : string → option string; withPathname : string → string → string }.

Definition joinUrl (U : UrlOps) (baseUrl path : string) : result string string :=
  match pathname U baseUrl with
  | None => Err "Invalid URL"
  | Some p =>
      let rel := trimmed path in
      match rel with
      | String "/" _ => Ok (withPathname U baseUrl (stripSlashes p +:+ rel))
      | _ => Err ("LCD path must start with '/': " +:+ rel)
      end
  end.

(** A response of [fetch]; reading the body may throw. *)
Record FetchResponse := mkFetchResponse { r_ok : bool; r_status : Z; r_statusText : string; r_text : result string string; r_json : result string json }.

Definition getJson {W} (U : UrlOps) (fetchFn : string → X W string FetchResponse) (baseUrl path : string) : X W string json :=
  url ← ofRes (joinUrl U baseUrl path);
  res ← fetchFn url;
  if negb (r_ok res) then
    let body := match r_text res with Ok t => t | Err _ => EmptyString end in
    raise ("LCD HTTP " +:+ pretty (r_status res) +:+ ": " +:+ orString body (r_statusText res))
  else ofRes (r_json res).

(** ** encoding.ts *)

Definition hexToBytes (hex : string) : result string bytes :=
  let h := trim (chars hex) in
  let h := match h with "0"%char :: ("x" | "X")%char :: l => l | l => l end in
  if (length h =? 0)%nat then Ok []
  else if negb (length h mod 2 =? 0)%nat then Err "hex string must have even length"
  else match hexPairs h with Some bs => Ok bs | None => Err "invalid hex string" end.

Definition bytesToHex (bs : bytes) : string := CoordConfig.text ("0"%char :: "x"%char :: concat (map byteToHex bs)).

End SdkClient.
