(* ===== verification/SdkClientThms.v ===== *)
(** * The chain client: what its calls ask of the chain

    Every helper builds a message of the type that is registered under its
    URL; arguments that are no unsigned integers are refused before anything is
    signed, and integers that do not fit are refused by the encoder.  An
    identifier in an event is parsed as it is or not at all. *)
From stdpp Require Import base option list strings pretty.
From Stdlib Require Import ZArith Lia Ascii.
From S2P Require Import Prelude OcpBytes Json Monads JsMap TextCodec CoordConfig JsonText CoordEvents JsStrings WebEvents SdkWire SdkCodec SdkPoker SdkDealer SdkCodecThms SdkSigning SdkClient.
Import Bytes Json ExceptM JsMap TextCodec CoordConfig JsonText JsonTextThms JsStrings SdkWire SdkCodec SdkCodecThms SdkSigning SdkClient.

Module SdkClientThms.

#[local] Open Scope string_scope.
#[local] Open Scope list_scope.
#[local] Open Scope Z_scope.

(** ** Arguments *)

Lemma digit_value c : isDigit c = true → ∃ d, digitValue c = Some d ∧ 0 <= d < 10.
Proof.
  unfold isDigit, decimalValue, digitValue. cbv zeta. destruct ((48 <=? _) && _) eqn:E; [|done]. intros _. eexists. split; [done|]. b2p. lia.
Qed.

Lemma forallb_digits l acc : forallb isDigit l = true → ∃ n, allDigits 10 acc l = Some n ∧ (0 <= acc → 0 <= n).
Proof.
  revert acc. induction l as [|c l IH]; intros acc; cbn [forallb allDigits]; [intros _; by exists acc|]. intros [Hc Hl]%andb_true_iff.
  destruct (digit_value c Hc) as (d & Ed & Hd). rewrite Ed, (proj2 (Z.ltb_lt d 10)) by lia. destruct (IH (acc * 10 + d) Hl) as (n & En & Hn). exists n. split; [done|lia].
Qed.

Lemma isDecimal_value s : isDecimal s = true → ∃ n, decimals s = Some n ∧ 0 <= n.
Proof.
  unfold isDecimal, decimals. change (String.list_ascii_of_string s) with (chars s). destruct (chars s) as [|c l] eqn:E; [done|]. cbn [length Nat.eqb negb andb].
  intros Hd. destruct (forallb_digits (c :: l) 0 Hd) as (n & En & Hn). exists n. split; [done|lia].
Qed.

Lemma isDecimal_pretty n : 0 <= n → isDecimal (pretty n) = true ∧ decimals (pretty n) = Some n.
Proof.
  intros Hn. destruct n as [|p|p]; [by split|..|lia]. destruct (pretty_pos p) as (c & ds & E & _ & Hf & Hd).
  change (pretty (Z.pos p)) with (pretty (N.pos p)). unfold isDecimal, decimals, chars. rewrite E. split; [|done].
  cbn [length Nat.eqb negb andb]. apply forallb_forall. intros x Hx%list_elem_of_In. rewrite Forall_forall in Hf. by apply Hf.
Qed.

Lemma toU64String_ok x label s : toU64String x label = Ok s → ∃ n, decimals s = Some n ∧ 0 <= n.
Proof.
  assert (Hp : ∀ n, (if n <? 0 then Err (NotUint label) else Ok (pretty n)) = Ok s → ∃ n, decimals s = Some n ∧ 0 <= n).
  { intros n. case_goal; [done|]. intros [= <-]. b2p. exists n. by split; [apply isDecimal_pretty|]. }
  destruct x as [t|[n|]|n]; cbn [toU64String]; [|apply Hp|done|apply Hp]. case_goal; [done|]. case_goal; [done|]. intros [= <-].
  apply isDecimal_value. by apply negb_false_iff.
Qed.

Lemma u64_ok x label s : u64 x "0" label = Ok s → ∃ n, decimals s = Some n ∧ 0 <= n.
Proof. destruct x as [x|]; cbn [u64]; [apply toU64String_ok|]. intros [= <-]. by exists 0. Qed.

(** A number is written with its digits. *)
Lemma toU64String_number n label : 0 <= n → toU64String (UNum (Int n)) label = Ok (pretty n) ∧ toU64String (UBig n) label = Ok (pretty n) ∧ toU64String (UStr (pretty n)) label = Ok (pretty n).
Proof.
  intros Hn. cbn [toU64String]. rewrite (proj2 (Z.ltb_ge _ _)) by done. split; [done|]. split; [done|].
  rewrite trimmed_pretty, bool_decide_false by apply pretty_nonempty. by rewrite (proj1 (isDecimal_pretty n Hn)).
Qed.

Definition opt (label : string) (x : option UintLike) : list (string * UintLike) := match x with Some x => [(label, x)] | None => [] end.
(** The 64 bit arguments of a call with their labels, in the order of the code. *)
Definition uints (c : Call) : list (string * UintLike) :=
  match c with
  | PokerCreateTable _ smallBlind bigBlind minBuyIn maxBuyIn actionTimeoutSecs dealerTimeoutSecs playerBond _ _ _ _ _ => [("smallBlind", smallBlind); ("bigBlind", bigBlind); ("minBuyIn", minBuyIn); ("maxBuyIn", maxBuyIn)] ++ opt "actionTimeoutSecs" actionTimeoutSecs ++ opt "dealerTimeoutSecs" dealerTimeoutSecs ++ opt "playerBond" playerBond
  | PokerSit _ tableId buyIn _ _ => [("tableId", tableId); ("buyIn", buyIn)]
  | PokerStartHand _ tableId => [("tableId", tableId)]
  | PokerAct _ tableId _ amount => [("tableId", tableId)] ++ opt "amount" amount
  | PokerTick _ tableId => [("tableId", tableId)]
  | PokerLeave _ tableId => [("tableId", tableId)]
  | PokerRebuy _ tableId amount => [("tableId", tableId); ("amount", amount)]
  | DealerBeginEpoch _ epochId _ _ _ commitBlocks complaintBlocks revealBlocks finalizeBlocks => opt "epochId" epochId ++ opt "commitBlocks" commitBlocks ++ opt "complaintBlocks" complaintBlocks ++ opt "revealBlocks" revealBlocks ++ opt "finalizeBlocks" finalizeBlocks
  | DealerDkgCommit _ epochId _ _ => [("epochId", epochId)]
  | DealerDkgEncryptedShare _ epochId _ _ _ _ _ => [("epochId", epochId)]
  | DealerDkgComplaintMissing _ epochId _ => [("epochId", epochId)]
  | DealerDkgComplaintInvalid _ epochId _ _ => [("epochId", epochId)]
  | DealerDkgComplaintAEADBad _ epochId _ _ _ _ => [("epochId", epochId)]
  | DealerDkgShareReveal _ epochId _ _ => [("epochId", epochId)]
  | DealerFinalizeEpoch _ epochId => [("epochId", epochId)]
  | DealerDkgTimeout _ epochId => [("epochId", epochId)]
  | DealerInitHand _ tableId handId epochId _ => [("tableId", tableId); ("handId", handId); ("epochId", epochId)]
  | DealerSubmitShuffle _ tableId handId _ _ => [("tableId", tableId); ("handId", handId)]
  | DealerFinalizeDeck _ tableId handId => [("tableId", tableId); ("handId", handId)]
  | DealerSubmitPubShare _ tableId handId _ _ _ => [("tableId", tableId); ("handId", handId)]
  | DealerSubmitEncShare _ tableId handId _ _ _ _ => [("tableId", tableId); ("handId", handId)]
  | DealerFinalizeReveal _ tableId handId _ => [("tableId", tableId); ("handId", handId)]
  | DealerTimeout _ tableId handId => [("tableId", tableId); ("handId", handId)]
  | DealerBeaconCommit _ epochId _ => [("epochId", epochId)]
  | DealerBeaconReveal _ epochId _ => [("epochId", epochId)]
  end.

Ltac unfold_helpers :=
  unfold pokerCreateTable, pokerSit, pokerStartHand, pokerAct, pokerTick,
    pokerLeave, pokerRebuy, dealerBeginEpoch, dealerDkgCommit, dealerDkgEncryptedShare,
    dealerDkgComplaintMissing, dealerDkgComplaintInvalid, dealerDkgComplaintAEADBad, dealerDkgShareReveal, dealerFinalizeEpoch,
    dealerDkgTimeout, dealerInitHand, dealerSubmitShuffle, dealerFinalizeDeck, dealerSubmitPubShare,
    dealerSubmitEncShare, dealerFinalizeReveal, dealerTimeout, dealerBeaconCommit, dealerBeaconReveal in *.

(** The other checks of a helper. *)
Definition guard (c : Call) : option ClientError :=
  match c with
  | PokerCreateTable _ _ _ _ _ _ _ _ _ _ _ passwordCommitment passwordSalt =>
      if bool_decide (default [] passwordCommitment = [] ↔ default [] passwordSalt = []) then None else Some PasswordPair
  | DealerDkgComplaintAEADBad _ _ _ _ dhShare dleqProof =>
      if negb (length dhShare =? 32)%nat then Some DhShareLength else if negb (length dleqProof =? 96)%nat then Some DleqProofLength else None
  | _ => None
  end.

Definition errorOf {A} (r : result ClientError A) : option ClientError := match r with Err e => Some e | Ok _ => None end.
Fixpoint firstBad (l : list (string * UintLike)) : option ClientError :=
  match l with
  | [] => None
  | (label, x) :: l => match toU64String x label with Err e => Some e | Ok _ => firstBad l end
  end.

Lemma errorOf_bind {A B} (r : result ClientError A) (k : A → result ClientError B) : errorOf (let! x := r in k x) = match r with Err e => Some e | Ok a => errorOf (k a) end.
Proof. by destruct r. Qed.

Lemma firstBad_app l k : firstBad (l ++ k) = match firstBad l with Some e => Some e | None => firstBad k end.
Proof. induction l as [|[label x] l IH]; [done|]. cbn [app firstBad]. by destruct (toU64String x label). Qed.

Lemma firstBad_opt label x : firstBad (opt label x) = errorOf (u64 x "0" label).
Proof. destruct x as [x|]; [|done]. cbn. by destruct (toU64String x label). Qed.

Lemma passwords_pair (p q : option bytes) :
  negb (Bool.eqb (match p with Some b => (0 <? length b)%nat | None => false end) (match q with Some b => (0 <? length b)%nat | None => false end)) =
  negb (bool_decide (default [] p = [] ↔ default [] q = [])).
Proof.
  f_equal. symmetry. destruct p as [[|a p]|], q as [[|b q]|]; reflexivity.
Qed.

(** C12. A call is refused before anything is signed exactly when one of its checks
    fails, with the error of the first one: the password fields and lengths
    first, then the integers in the order of the code.  Integers are accepted
    as numbers, bigints and decimal strings, and written with their digits. *)
Theorem client_refuses self :
  (∀ c, errorOf (request self c) = match guard c with Some e => Some e | None => firstBad (uints c) end) ∧
  (∀ n label, 0 <= n → toU64String (UNum (Int n)) label = Ok (pretty n) ∧ toU64String (UBig n) label = Ok (pretty n) ∧ toU64String (UStr (pretty n)) label = Ok (pretty n)) ∧
  (∀ n label, n < 0 → toU64String (UNum (Int n)) label = Err (NotUint label) ∧ toU64String (UBig n) label = Err (NotUint label)).
Proof.
  split; [|split; [intros; by apply toU64String_number|]].
  - intros c. destruct c; cbn [request guard uints]; unfold_helpers; rewrite ?passwords_pair; unfold throw_if;
      repeat match goal with |- context [if negb ?b then Err _ else Ok tt] => destruct b; cbn [negb rbind]; try reflexivity end;
      rewrite ?firstBad_app, ?firstBad_opt;
      repeat (rewrite ?errorOf_bind; cbn [firstBad errorOf]; first [reflexivity|case_goal; cbn [errorOf]; try reflexivity]).
  - intros n label Hn. cbn [toU64String]. by rewrite (proj2 (Z.ltb_lt _ _)).
Qed.

(** ** What the chain is sent *)

Definition registeredNames : list string :=
  map (λ ku, "Msg" +:+ match ku.1 with String c k => String (upperChar c) k | _ => EmptyString end) (pokerUrls ++ dealerUrls).

Lemma mget_in {V} (k : string) (v : V) m : mget k m = Some v → (k, v) ∈ m.
Proof. induction m as [|[k' v'] m IH]; cbn; [done|]. case_bool_decide; [intros [= <-]; subst; by left|]. intros Hm. right. by apply IH. Qed.

(** The registry has every message under the URL that ends in its name. *)
Lemma registry_messages : map (λ n, mget n allMessages) registeredNames = map (λ ud, Some ud.2) createOcpRegistry.
Proof. vm_compute. reflexivity. Qed.

Lemma registry_known url d : mget url createOcpRegistry = Some d → ∃ name, (name, d) ∈ allMessages.
Proof.
  intros Hd%mget_in. assert (Hin : Some d ∈ map (λ ud : string * message, Some ud.2) createOcpRegistry) by by apply (list_elem_of_fmap_2 (λ ud : string * message, Some ud.2) _ (url, d)).
  rewrite <-registry_messages in Hin. apply list_elem_of_In, in_map_iff in Hin as (n & Hn & _). exists n. by apply mget_in.
Qed.

(** The 64 bit fields of an object hold decimal numbers. *)
Definition uintField (o : object) (f : SdkCodec.field) : Prop :=
  match f with Single _ x TUint64 => ∃ s, prop o x = VStr s ∧ ∃ n, decimals s = Some n ∧ 0 <= n | _ => True end.

Lemma typed_bytes l : forallb (typedScalar TBytes) (map VBytes l) = true.
Proof. by induction l. Qed.

Lemma typed_number n : match VNumber n with VNum _ | VNaN => true | _ => false end = true.
Proof. by destruct n. Qed.

Ltac invert_request H :=
  repeat match type of H with (let! _ := ?r in _) = Ok _ => destruct r eqn:?; [cbn [rbind] in H|discriminate H] end; injection H as <-.

Lemma request_shape self c eo : request self c = Ok eo →
  ∃ d, mget (typeUrl eo) createOcpRegistry = Some d ∧ typed d (content eo) = true ∧ Forall (uintField (content eo)) d.
Proof.
  intros Hr. destruct c; cbn [request] in Hr; unfold_helpers; invert_request Hr; cbn [typeUrl content];
    (eexists; split; [vm_compute; reflexivity|]; split;
      [cbn; rewrite ?typed_bytes, ?typed_number; repeat match goal with n : number |- _ => destruct n end; reflexivity
      |repeat (apply Forall_cons; split); try apply Forall_nil_2; try exact I; (eexists; split; [reflexivity|]; (by eapply toU64String_ok) || (by eapply u64_ok))]).
Qed.

Lemma mapM_none_at {A B} (f : A → option B) l a : a ∈ l → f a = None → mapM f l = None.
Proof.
  induction l as [|b l IH]; [intros []%not_elem_of_nil|]. intros [->|Hl]%elem_of_cons Ha; cbn; [by rewrite Ha|]. destruct (f b); cbn; [|done]. by rewrite IH.
Qed.

(** An integer that does not fit is not encoded. *)
Lemma encode_refuses `{WireLaws} d o num x s n : Single num x TUint64 ∈ d → prop o x = VStr s → decimals s = Some n → 2 ^ 64 <= n → encode d o = None.
Proof.
  intros Hin Hp Hd Hn. unfold encode. rewrite (mapM_none_at _ d (Single num x TUint64)); [done|done|]. cbn [encodeField fname kindOf omitted]. rewrite Hp.
  rewrite bool_decide_false; [|intros ->; change (Some 0 = Some n) in Hd; injection Hd as <-; lia]. unfold andThen. rewrite (write_too_large s n) by done. by destruct (tag num _).
Qed.

(** C11. The message of a call is registered under the URL that is sent with it,
    and has the fields of that type.  With scalars in range the chain decodes
    from its bytes exactly that message.  Its 64 bit fields hold decimal
    numbers, and one that does not fit is refused by the encoder: amounts and
    identifiers never wrap. *)
Theorem client_requests `{WireLaws} self c eo : request self c = Ok eo →
  ∃ name d, (name, d) ∈ allMessages ∧ mget (typeUrl eo) createOcpRegistry = Some d ∧ typed d (content eo) = true ∧
    (valid d (content eo) = true → weight (VMsg (content eo)) < 2 ^ 32 → ∃ bs, encode d (content eo) = Some bs ∧ decode d bs = Ok (content eo)) ∧
    (∀ num x, Single num x TUint64 ∈ d → ∃ s n, prop (content eo) x = VStr s ∧ decimals s = Some n ∧ 0 <= n ∧ (2 ^ 64 <= n → encode d (content eo) = None)).
Proof.
  intros (d & Hu & Ht & Hf)%request_shape. destruct (registry_known _ _ Hu) as (name & Hin). exists name, d. split_and!; [done..| |].
  - intros Hv Hw. destruct (known_message_ok name d Hin) as [Hd _]. destruct (encode_succeeds d _ Hd Hv Hw) as [bs Eb]. exists bs. split; [done|].
    pose proof (messageOk_distinct d Hd) as Hdd. rewrite (decode_written d d _ bs) by (done || by apply caseOf_evolves, distinct_nodup). by rewrite (seen_self wireScalar).
  - intros num x Hx. rewrite Forall_forall in Hf. destruct (Hf _ Hx) as (s & Hp & n & Hd & Hn). exists s, n. split_and!; [done..|]. intros Hl. by eapply encode_refuses.
Qed.

Definition someCall : Call := PokerAct None (UNum (Int 7)) "raise" (Some (UStr " 12 ")).
Definition someRequest : EncodeObject :=
  mkEncodeObject "/onchainpoker.poker.v1.MsgAct" [("player", VStr "ocp1me"); ("tableId", VStr "7"); ("action", VStr "raise"); ("amount", VStr "12")].
Definition hugeCall : Call := PokerRebuy (Some "ocp1x ") (UBig 7) (UBig (2 ^ 64)).
Definition hugeRequest : EncodeObject :=
  mkEncodeObject "/onchainpoker.poker.v1.MsgRebuy" [("player", VStr "ocp1x"); ("tableId", VStr "7"); ("amount", VStr "18446744073709551616")].

Lemma client_requests_witness :
  (∃ bs, @encode Varint.varint_wire SdkPoker.MsgAct (content someRequest) = Some bs ∧ @decode Varint.varint_wire SdkPoker.MsgAct bs = Ok (content someRequest)) ∧
  @encode Varint.varint_wire SdkPoker.MsgRebuy (content hugeRequest) = None.
Proof.
  assert (Hact : mget (typeUrl someRequest) createOcpRegistry = Some SdkPoker.MsgAct) by (vm_compute; reflexivity).
  assert (Hrebuy : mget (typeUrl hugeRequest) createOcpRegistry = Some SdkPoker.MsgRebuy) by (vm_compute; reflexivity).
  split.
  - destruct (@client_requests Varint.varint_wire Varint.varint_laws "ocp1me" someCall someRequest ltac:(vm_compute; reflexivity)) as (name & d & _ & Hd & _ & Hb & _).
    rewrite Hact in Hd. injection Hd as <-. apply Hb; vm_compute; reflexivity.
  - destruct (@client_requests Varint.varint_wire Varint.varint_laws "ocp1me" hugeCall hugeRequest ltac:(vm_compute; reflexivity)) as (name & d & _ & Hd & _ & _ & Hl).
    rewrite Hrebuy in Hd. injection Hd as <-. destruct (Hl 3 "amount") as (s & n & Hs & Hn & _ & He); [by apply (list_elem_of_lookup_2 _ 2)|].
    apply He. change (VStr "18446744073709551616" = VStr s) in Hs. injection Hs as <-. change (Some (2 ^ 64) = Some n) in Hn. injection Hn as <-. apply Z.le_refl.
Defined.

(** ** Identifiers in events *)

Lemma digit_sextet c : isDigit c = true → ∃ v, c = b64Char v ∧ 52 <= v <= 61.
Proof.
  unfold isDigit, decimalValue. cbv zeta. destruct ((48 <=? _) && _) eqn:E; [|done]. intros _. b2p.
  assert (Hv : b64Value c = Some (byteOf c - 48 + 52)).
  { unfold b64Value, byteOf. cbv zeta. rewrite (proj2 (andb_false_iff _ _)) by (left; apply Z.leb_gt; lia). rewrite (proj2 (andb_false_iff _ _)) by (left; apply Z.leb_gt; lia).
    by rewrite (proj2 (andb_true_iff _ _)) by (split; apply Z.leb_le; lia). }
  exists (byteOf c - 48 + 52). apply b64_char_value in Hv as [Hv _]. split; [done|]. unfold byteOf. lia.
Qed.

Lemma digits_sextets l : forallb isDigit l = true → ∃ vs, l = map b64Char vs ∧ Forall (λ v, 52 <= v <= 61) vs.
Proof.
  induction l as [|c l IH]; [by exists []|]. intros [Hc Hl]%andb_true_iff. destruct (digit_sextet c Hc) as (v & -> & Hv). destruct (IH Hl) as (vs & -> & Hvs).
  exists (v :: vs). split; [done|by constructor].
Qed.

Lemma not_digit b t : 208 <= b < 256 → isDecimal (CoordConfig.text (map charOf (b :: t))) = false.
Proof.
  intros Hb. unfold isDecimal, CoordConfig.text, chars. rewrite String.list_ascii_of_string_of_list_ascii. cbv zeta. cbn [map forallb length Nat.eqb negb andb]. enough (isDigit (charOf b) = false) as -> by done.
  unfold isDigit, decimalValue. cbv zeta. change (Z.of_nat (nat_of_ascii (charOf b))) with (byteOf (charOf b)). rewrite byteOf_charOf by (unfold isByte; lia).
  rewrite (proj2 (Z.leb_gt b 57)) by lia. by rewrite andb_false_r.
Qed.

Lemma decode_first v1 v2 vs : Forall (λ v, 52 <= v <= 61) (v1 :: v2 :: vs) → ∃ b t, TextCodec.decode (v1 :: v2 :: vs) = b :: t ∧ 208 <= b < 256 ∧ startsWith3 239 187 191 (b :: t) = false.
Proof.
  intros Hv. repeat (apply Forall_cons in Hv as [? Hv] || fail). rename H into H1, H0 into H2.
  assert (Hb : 208 <= v1 * 4 + v2 / 16 < 256) by (pose proof (Z.div_pos v2 16); pose proof (Z.div_lt_upper_bound v2 16 4); lia).
  destruct vs as [|v3 vs]; [by exists (v1 * 4 + v2 / 16), []|]. apply Forall_cons in Hv as [H3 Hv].
  assert (Hs : (v2 mod 16) * 16 + v3 / 4 ≠ 187) by (pose proof (Z.div_le_lower_bound v3 4 13); pose proof (Z.div_lt_upper_bound v3 4 16); pose proof (Z.mod_pos_bound v2 16); lia).
  destruct vs as [|v4 vs]; cbn [TextCodec.decode]; (eexists _, _; split; [done|]; split; [done|]); unfold startsWith3; [done|].
  rewrite (proj2 (Z.eqb_neq _ 187)) by done. by rewrite andb_false_r.
Qed.

(** What the guess makes of a decimal number: nothing, or no number. *)
Lemma guess_number s : isDecimal s = true → maybeBase64ToUtf8 s = s ∨ isDecimal (maybeBase64ToUtf8 s) = false.
Proof.
  unfold isDecimal at 1. cbv zeta. intros [Hne Hd]%andb_true_iff. destruct (digits_sextets _ Hd) as (vs & Es & Hvs).
  assert (Hx : Forall isSextet vs) by (eapply Forall_impl; [exact Hvs|]; unfold isSextet; cbn; lia).
  unfold maybeBase64ToUtf8, WebEvents.maybeBase64ToUtf8.
  assert (Hkeep : CoordConfig.text (chars s) = s) by apply String.string_of_list_ascii_of_string.
  unfold WebEvents.decodeAttr. case_bool_decide as E0; [rewrite E0 in Hne; done|]. case_goal; [by left|]. cbv zeta.
  destruct (atob (CoordEvents.padded (chars s))) as [bs|] eqn:Ea; [|by left]. case_goal; [by left|].
  unfold textDecoder. destruct (isUtf8 bs); cbn [default]; [|by left]. right.
  unfold CoordEvents.padded in Ea. rewrite Es, length_map, padding_pads in Ea. destruct (decide (length vs mod 4 = 1)%nat) as [E1|E1].
  - rewrite E1 in Ea. change ((4 - 1) mod 4)%nat with 3%nat in Ea. rewrite atob_three in Ea; [done|done|]. by rewrite Nat.Div0.add_mod, E1.
  - destruct (padded_mod4 _ E1) as [Hp Hm]. rewrite atob_chars in Ea by done. injection Ea as <-.
    destruct vs as [|v1 [|v2 vs]]; [by rewrite Es in E0|done|]. destruct (decode_first v1 v2 vs Hvs) as (b & t & -> & Hb & Hs). unfold dropBom. rewrite Hs. by apply not_digit.
Qed.

Definition kept (n : Z) : bool := bool_decide (maybeBase64ToUtf8 (pretty n) = pretty n).

Lemma foldl_attrs k l acc : Forall (λ a, maybeBase64ToUtf8 (key a) ≠ k) l →
  mget k (foldl (λ attrs a, mset (maybeBase64ToUtf8 (key a)) (maybeBase64ToUtf8 (attr a)) attrs) acc l) = mget k acc.
Proof.
  revert acc. induction l as [|a l IH]; intros acc Hl; [done|]. apply Forall_cons in Hl as [Ha Hl]. cbn [foldl]. rewrite IH by done. by rewrite mget_set, decide_False.
Qed.

Lemma find_normalized t evs : List.find (λ e, bool_decide (abciType e = t)) (normalizeDeliverTxEvents evs) =
  (λ ev, mkOcpAbciEvent (type ev) (foldl (λ attrs a, mset (maybeBase64ToUtf8 (key a)) (maybeBase64ToUtf8 (attr a)) attrs) [] (attributes ev))) <$> List.find (λ e, bool_decide (type e = t)) evs.
Proof. unfold normalizeDeliverTxEvents. induction evs as [|ev evs IH]; [done|]. cbn [map List.find abciType]. by case_bool_decide. Qed.

(** The identifier of the hand that a transaction started is what the chain wrote
    or [null], never another number; it is [null] when the guess takes the
    number for base64, first for hand 140. *)
Lemma ids_parsed tx ev n pre post : 0 <= n → List.find (λ e, bool_decide (type e = "HandStarted")) (events tx) = Some ev →
  attributes ev = pre ++ mkAttribute "handId" (pretty n) :: post → Forall (λ a, maybeBase64ToUtf8 (key a) ≠ "handId") post →
  parseHandIdFromTx tx = (if kept n then Some (pretty n) else None) ∧ (n < 140 → kept n = true) ∧ kept 140 = false.
Proof.
  intros Hn Hf Ha Hp. split; [|split; [|vm_compute; reflexivity]].
  - unfold parseHandIdFromTx, findEventAttr. rewrite find_normalized, Hf. cbn [fmap option_fmap option_map abciAttributes]. rewrite Ha, foldl_app. cbn [foldl key attr].
    rewrite foldl_attrs by done. rewrite mget_set. rewrite decide_True by (vm_compute; reflexivity). unfold decimalOrNull, kept.
    destruct (isDecimal_pretty n Hn) as [Hd _]. case_bool_decide as E; [by rewrite E, Hd|]. destruct (guess_number _ Hd) as [| ->]; done.
  - intros H140. apply (below kept 140 n); [vm_compute; reflexivity|lia].
Qed.

End SdkClientThms.
