(* ===== verification/SdkRpc.v ===== *)
(** * The RPC clients: [packages/ocp-sdk/src/appchain/]

    The transport is JSON-RPC over a [fetch] that is a computation on an abstract
    world; the clients thread its next request number and their own counter.
    The subscription over a socket is a machine whose steps are the events of
    the socket, of the abort signal and of the loop that consumes it. *)
From stdpp Require Import base option list strings pretty.
From Stdlib Require Import ZArith Lia Ascii.
From S2P Require Import Prelude OcpBytes Json JsonText Monads JsMap CoordConfig TextCodec CoordEvents JsStrings SdkSigning SdkClient.
Import Bytes Json JsonText JsonTextThms ExceptM JsMap TextCodec JsStrings.

Module SdkRpc.

#[local] Open Scope string_scope.
#[local] Open Scope list_scope.
#[local] Open Scope Z_scope.

(** ** transports/jsonrpc.ts *)

(** What [JSON.stringify] sees: members that are undefined are left out, and
    undefined elements are [null]. *)
Fixpoint written (j : json) : json :=
  match j with
  | JArr l => JArr (map (λ x, match x with JUndefined => JNull | _ => written x end) l)
  | JObj fields => JObj (omap (λ kv, if defined (snd kv) then Some (fst kv, written (snd kv)) else None) fields)
  | j => j
  end.

(** [k in j] of an object *)
Definition hasKey (k : string) (j : json) : bool := match j with JObj fields => existsb (λ kv, bool_decide (fst kv = k)) fields | _ => false end.

Definition JsonRpcRequest (id : Z) (method : string) (params : json) : json :=
  JObj [("jsonrpc", JStr "2.0"); ("id", JNum id); ("method", JStr method); ("params", params)].

(** [rid === id || rid === String(id)] *)
Definition answers (id : Z) (rid : json) : bool :=
  match rid with JNum z => z =? id | JStr s => bool_decide (s = pretty id) | _ => false end.

Definition safeReadText (res : SdkClient.FetchResponse) : string := match SdkClient.r_text res with Ok t => t | Err _ => EmptyString end.
Definition safeJson (v : json) : string := CoordConfig.text (stringify false (written v)).

(** Destructuring [null] or [undefined] throws a [TypeError]. *)
Definition rpcFailure (error : json) : string :=
  if nullish error then "Cannot destructure property 'code' of 'json.error'"
  else
    let data := field error "data" in
    let extra := if nullish data then EmptyString else " (" +:+ safeJson data +:+ ")" in
    "JSON-RPC error " +:+ toStr (field error "code") +:+ ": " +:+ toStr (field error "message") +:+ extra.

Section transport.
Context {W : Type}.
Variable fetchFn : list ascii → X W string SdkClient.FetchResponse.

(** The transport ([nextId]) and the client of version 0 ([txNonce]) with the
    world they act on. *)
Record Rpc := mkRpc { nextId : Z; txNonce : Z; world : W }.
Definition set_nextId v s := mkRpc v s.(txNonce) s.(world).
Definition set_txNonce v s := mkRpc s.(nextId) v s.(world).
Definition onWorld {A} (m : X W string A) : X Rpc string A := λ s, let '(r, w) := m s.(world) in (r, mkRpc s.(nextId) s.(txNonce) w).

Definition request (method : string) (params : json) : X Rpc string json :=
  id ← read nextId; _ ← write (set_nextId (id + 1));
  res ← onWorld (fetchFn (stringify false (written (JsonRpcRequest id method params))));
  if negb (SdkClient.r_ok res) then
    raise ("JSON-RPC HTTP " +:+ pretty (SdkClient.r_status res) +:+ ": " +:+ CoordConfig.orString (safeReadText res) (SdkClient.r_statusText res))
  else
    json ← ofRes (SdkClient.r_json res);
    if negb (truthy json) || negb (isStr (field json "jsonrpc") "2.0") || negb (answers id (field json "id")) then
      raise "invalid JSON-RPC response (id mismatch)"
    else if hasKey "error" json then raise (rpcFailure (field json "error"))
    else mret (field json "result").

(** Reading a property of [null] or [undefined] throws a [TypeError]. *)
Definition notNull (j : json) : X Rpc string json := if nullish j then raise "Cannot read properties of undefined" else mret j.

(** ** client.ts *)

Definition broadcastTx (txBytes : json) : X Rpc string json := request "ocp_broadcastTx" (JObj [("txBytes", txBytes)]).
Definition submitTypedTx (tx : json) : X Rpc string json := request "ocp_submitTx" (JObj [("tx", tx)]).
Definition getTable (tableId : json) : X Rpc string json := request "ocp_getTable" (JObj [("tableId", tableId)]).
Definition getHand (tableId handId : json) : X Rpc string json := request "ocp_getHand" (JObj [("tableId", tableId); ("handId", handId)]).
Definition getEvents (cursor filter limit : json) : X Rpc string json :=
  request "ocp_getEvents" (JObj [("cursor", cursor); ("filter", filter); ("limit", limit)]).
Definition getHoleCardPositions (tableId handId seat : json) : X Rpc string json :=
  request "ocp_getHoleCardPositions" (JObj [("tableId", tableId); ("handId", handId); ("seat", seat)]).
Definition getDealerCiphertext (tableId handId pos : json) : X Rpc string json :=
  request "ocp_getDealerCiphertext" (JObj [("tableId", tableId); ("handId", handId); ("pos", pos)]).
Definition getDealerEncShares (tableId handId pos pkPlayer : json) : X Rpc string json :=
  request "ocp_getDealerEncShares" (JObj [("tableId", tableId); ("handId", handId); ("pos", pos); ("pkPlayer", pkPlayer)]).

(** ** v0/encoding.ts *)

Definition utf8ToBytes (s : list ascii) : bytes := map byteOf s.

(** [new TextDecoder().decode(b)]: what is not UTF-8 becomes U+FFFD. *)
Definition replacement : bytes := [239; 191; 189].
Fixpoint lossy (l : bytes) : bytes :=
  match l with
  | [] => []
  | a :: l1 =>
      if inRange 0 127 a then a :: lossy l1
      else if inRange 194 223 a then
        match l1 with b :: l2 => if cont b then a :: b :: lossy l2 else replacement ++ lossy l1 | [] => replacement end
      else if inRange 224 239 a then
        match l1 with
        | b :: l2 =>
            if second3 a b then match l2 with c :: l3 => if cont c then a :: b :: c :: lossy l3 else replacement ++ lossy l2 | [] => replacement end
            else replacement ++ lossy l1
        | [] => replacement
        end
      else if inRange 240 244 a then
        match l1 with
        | b :: l2 =>
            if second4 a b then
              match l2 with
              | c :: l3 =>
                  if cont c then match l3 with d :: l4 => if cont d then a :: b :: c :: d :: lossy l4 else replacement ++ lossy l3 | [] => replacement end
                  else replacement ++ lossy l2
              | [] => replacement
              end
            else replacement ++ lossy l1
        | [] => replacement
        end
      else replacement ++ lossy l1
  end.
Definition bytesToUtf8 (b : bytes) : list ascii := map charOf (lossy (dropBom b)).
Definition bytesToBase64 (bs : bytes) : string := CoordConfig.text (toBase64 bs).
Definition base64ToBytes (b64 : string) : option bytes := atob (CoordConfig.chars b64).

(** ** v0/client.ts *)

Abbreviation V0 A := (X Rpc string A).

Definition broadcastTxCommit (txBytes : bytes) : V0 json :=
  result ← request "broadcast_tx_commit" (JObj [("tx", JStr (bytesToBase64 txBytes))]) ≫= notNull;
  let deliver := orElse (field result "tx_result") (field result "deliver_tx") in
  if truthy deliver && negb (bool_decide (jsNumber (field deliver "code") = Some 0)) then
    raise ("tx failed: code=" +:+ toStr (field deliver "code") +:+ " log=" +:+ toStr (orElse (field deliver "log") (JStr EmptyString)))
  else mret result.

Definition abciQueryJson (path : string) : V0 json :=
  result ← request "abci_query" (JObj [("path", JStr path)]) ≫= notNull;
  let valueB64 := orElse (field (field result "response") "value") (JStr EmptyString) in
  if negb (truthy valueB64) then mret JNull
  else match base64ToBytes (toStr valueB64) with
       | None => raise "InvalidCharacterError"
       | Some bs => match parse (bytesToUtf8 bs) with Some j => mret j | None => raise "SyntaxError" end
       end.

Definition getAccount (addr : string) : V0 json := abciQueryJson ("/account/" +:+ addr).
Definition getTables : V0 json := abciQueryJson "/tables".
Definition getTableV0 (tableId : Z) : V0 json := abciQueryJson ("/table/" +:+ pretty tableId).

(** [`${Date.now()}-${n}`] *)
Definition nonceText (now n : Z) : string := pretty now +:+ "-" +:+ pretty n.
(** [{ ...env, nonce }] as bytes *)
Definition envelopeBytes (env : list (string * json)) (nonce : json) : bytes :=
  utf8ToBytes (stringify false (written (JObj (mset "nonce" nonce env)))).

(** The fields of an envelope; [now] is [Date.now()]. *)
Definition broadcastTxEnvelope (now : Z) (env : list (string * json)) : V0 json :=
  let hasAuth := negb (nullish (field (JObj env) "signer")) || negb (nullish (field (JObj env) "sig")) in
  nonce ← (if nullish (field (JObj env) "nonce") then
             n ← read txNonce; _ ← write (set_txNonce (n + 1)); mret (JStr (nonceText now (n + 1)))
           else mret (field (JObj env) "nonce"));
  if hasAuth && negb (truthy (field (JObj env) "nonce")) then raise "signed tx requires env.nonce (nonce is part of the signature)"
  else broadcastTxCommit (envelopeBytes env nonce).

Definition authRegisterAccount (now : Z) (value : json) : V0 json := broadcastTxEnvelope now [("type", JStr "auth/register_account"); ("value", value)].
Definition bankMint (now : Z) (value : json) : V0 json := broadcastTxEnvelope now [("type", JStr "bank/mint"); ("value", value)].
Definition bankSend (now : Z) (value : json) : V0 json := broadcastTxEnvelope now [("type", JStr "bank/send"); ("value", value)].
Definition pokerCreateTable (now : Z) (value : json) : V0 json := broadcastTxEnvelope now [("type", JStr "poker/create_table"); ("value", value)].
Definition pokerSit (now : Z) (value : json) : V0 json := broadcastTxEnvelope now [("type", JStr "poker/sit"); ("value", value)].
Definition pokerStartHand (now : Z) (value : json) : V0 json := broadcastTxEnvelope now [("type", JStr "poker/start_hand"); ("value", value)].
Definition pokerAct (now : Z) (value : json) : V0 json := broadcastTxEnvelope now [("type", JStr "poker/act"); ("value", value)].
Definition pokerTick (now : Z) (value : json) : V0 json := broadcastTxEnvelope now [("type", JStr "poker/tick"); ("value", value)].
Definition pokerLeave (now : Z) (value : json) : V0 json := broadcastTxEnvelope now [("type", JStr "poker/leave"); ("value", value)].
Definition stakingRegisterValidator (now : Z) (value : json) : V0 json := broadcastTxEnvelope now [("type", JStr "staking/register_validator"); ("value", value)].
Definition stakingBond (now : Z) (value : json) : V0 json := broadcastTxEnvelope now [("type", JStr "staking/bond"); ("value", value)].
Definition stakingUnbond (now : Z) (value : json) : V0 json := broadcastTxEnvelope now [("type", JStr "staking/unbond"); ("value", value)].
Definition stakingUnjail (now : Z) (value : json) : V0 json := broadcastTxEnvelope now [("type", JStr "staking/unjail"); ("value", value)].
Definition dealerBeginEpoch (now : Z) (value : json) : V0 json := broadcastTxEnvelope now [("type", JStr "dealer/begin_epoch"); ("value", value)].
Definition dealerDkgCommit (now : Z) (value : json) : V0 json := broadcastTxEnvelope now [("type", JStr "dealer/dkg_commit"); ("value", value)].
Definition dealerDkgComplaintMissing (now : Z) (value : json) : V0 json := broadcastTxEnvelope now [("type", JStr "dealer/dkg_complaint_missing"); ("value", value)].
Definition dealerDkgComplaintInvalid (now : Z) (value : json) : V0 json := broadcastTxEnvelope now [("type", JStr "dealer/dkg_complaint_invalid"); ("value", value)].
Definition dealerDkgShareReveal (now : Z) (value : json) : V0 json := broadcastTxEnvelope now [("type", JStr "dealer/dkg_share_reveal"); ("value", value)].
Definition dealerFinalizeEpoch (now : Z) (value : json) : V0 json := broadcastTxEnvelope now [("type", JStr "dealer/finalize_epoch"); ("value", value)].
Definition dealerDkgTimeout (now : Z) (value : json) : V0 json := broadcastTxEnvelope now [("type", JStr "dealer/dkg_timeout"); ("value", value)].
Definition dealerInitHand (now : Z) (value : json) : V0 json := broadcastTxEnvelope now [("type", JStr "dealer/init_hand"); ("value", value)].
Definition dealerSubmitShuffle (now : Z) (value : json) : V0 json := broadcastTxEnvelope now [("type", JStr "dealer/submit_shuffle"); ("value", value)].
Definition dealerFinalizeDeck (now : Z) (value : json) : V0 json := broadcastTxEnvelope now [("type", JStr "dealer/finalize_deck"); ("value", value)].
Definition dealerSubmitPubShare (now : Z) (value : json) : V0 json := broadcastTxEnvelope now [("type", JStr "dealer/submit_pub_share"); ("value", value)].
Definition dealerSubmitEncShare (now : Z) (value : json) : V0 json := broadcastTxEnvelope now [("type", JStr "dealer/submit_enc_share"); ("value", value)].
Definition dealerFinalizeReveal (now : Z) (value : json) : V0 json := broadcastTxEnvelope now [("type", JStr "dealer/finalize_reveal"); ("value", value)].
Definition dealerTimeout (now : Z) (value : json) : V0 json := broadcastTxEnvelope now [("type", JStr "dealer/timeout"); ("value", value)].

Definition findEvent (events : json) (typ : string) : option json := List.find (λ e, isStr (field e "type") typ) (elems events).
Definition attrValue (attrs : json) (key : string) : json :=
  match List.find (λ a, isStr (field a "key") key) (elems attrs) with Some a => field a "value" | None => JUndefined end.

(** [toWebSocketUrl]: [None] when [new URL] throws; a URL as its protocol, what
    comes between, and its path. *)
Definition toWebSocketUrl (parseUrl : string → option (string * string * string)) (rpcUrl : string) : option (string * string * string) :=
  '(protocol, rest, path) ← parseUrl rpcUrl;
  Some (if bool_decide (protocol = "https:") then "wss:" else "ws:", rest, SdkClient.stripSlashes path +:+ "/websocket").

(** ** Polling for events: [subscribeEvents] *)

(** The generator's [cursor] and what it has yielded, with the client. *)
Record Poller := mkPoller { cursor : json; yielded : list json; rpc : Rpc }.
Definition onRpc {A} (m : X Rpc string A) : X Poller string A := λ s, let '(r, c) := m s.(rpc) in (r, mkPoller s.(cursor) s.(yielded) c).

(** One turn of the loop, consumed to the end; the result tells whether it
    sleeps. *)
Definition pollOnce (filter limit : json) : X Poller string bool :=
  c ← read cursor;
  page ← onRpc (getEvents c filter (orElse limit (JNum 200)) ≫= notNull);
  let events := elems (orElse (field page "events") (JArr [])) in
  _ ← write (λ s, mkPoller (orElse (field page "nextCursor") s.(cursor)) (s.(yielded) ++ events) s.(rpc));
  mret (length events =? 0)%nat.

(** The signal is looked at before each turn; [Ok true] is the end of the
    generator, [Ok false] that it goes on. *)
Fixpoint subscribeEvents (aborted : list bool) (filter limit : json) : X Poller string bool :=
  match aborted with
  | [] => mret false
  | true :: _ => mret true
  | false :: aborted => _ ← pollOnce filter limit; subscribeEvents aborted filter limit
  end.

(** ** holecards.ts *)

Section recovery.
Variable decryptEncShare : json → json → X Rpc string json.
Variable recoverCardId : json → list (json * json) → X Rpc string number.

(** [new HoleCardRecovery] *)
Definition newRecovery (thresholdT : Z) : result string Z := if thresholdT <=? 0 then Err "thresholdT must be > 0" else Ok thresholdT.

Fixpoint decryptAll (shares : list json) (skPlayer : json) : X Rpc string (list (json * json)) :=
  match shares with
  | [] => mret []
  | s :: shares => share ← decryptEncShare (field s "encShare") skPlayer; l ← decryptAll shares skPlayer; mret ((field s "validatorId", share) :: l)
  end.

Definition validCard (c : number) : bool := match c with Int z => (0 <=? z) && (z <=? 51) | NotInteger => false end.

Definition recoverOne (thresholdT : Z) (tableId handId pos skPlayer pkPlayer : json) : X Rpc string number :=
  r ← getDealerCiphertext tableId handId pos ≫= notNull;
  let ciphertext := field r "ciphertext" in
  r ← getDealerEncShares tableId handId pos pkPlayer ≫= notNull;
  let shares := field r "shares" in
  if negb (match shares with JArr l => thresholdT <=? Z.of_nat (length l) | _ => false end) then raise "not enough shares"
  else
    decrypted ← decryptAll (take (Z.to_nat thresholdT) (elems shares)) skPlayer;
    cardId ← recoverCardId ciphertext decrypted;
    if negb (validCard cardId) then raise "invalid recovered card id" else mret cardId.

Definition recoverHoleCards (thresholdT : Z) (tableId handId seat skPlayer pkPlayer : json) : X Rpc string (number * number) :=
  r ← getHoleCardPositions tableId handId seat ≫= notNull;
  c0 ← recoverOne thresholdT tableId handId (field r "pos0") skPlayer pkPlayer;
  c1 ← recoverOne thresholdT tableId handId (field r "pos1") skPlayer pkPlayer;
  mret (c0, c1).
End recovery.

End transport.

(** ** The subscription over a socket: [subscribeTxResults] *)

Inductive Phase :=
| ph_opening | ph_subscribing | ph_streaming   (** suspended in [onceOpen], or in [shift] of the first or the second loop *)
| ph_yielded                                  (** suspended at [yield] *)
| ph_done | ph_failed (error : string).

(** [sub_out] is what was yielded, [sub_sent] how often [subscribe] was sent. *)
Record Subscription := mkSub { sub_phase : Phase; sub_queue : list json; sub_aborted : bool; sub_out : list (json * option bytes); sub_sent : nat }.

Definition extractTxResult (msg : json) : option json :=
  let root := orElse (field msg "result") (orElse (field (field msg "params") "result") JNull) in
  if negb (truthy root) then None
  else
    let data := orElse (field root "data") root in
    let value := orElse (field data "value") data in
    if hasKey "TxResult" value then Some (field value "TxResult")
    else if hasKey "result" value || hasKey "events" value then Some value
    else None.

(** What is yielded for a message, if anything; [atob] may throw. *)
Definition txItem (msg : json) : option (result string (json * option bytes)) :=
  match extractTxResult msg with
  | None => None
  | Some txResult =>
      if negb (truthy txResult) then None
      else
        let events := orElse (field (field txResult "result") "events") (orElse (field txResult "events") (JArr [])) in
        let txB64 := field txResult "tx" in
        if negb (truthy txB64) then Some (Ok (events, None))
        else match base64ToBytes (toStr txB64) with Some bs => Some (Ok (events, Some bs)) | None => Some (Err "InvalidCharacterError") end
  end.

(** [msg.id === subId] *)
Definition isAck (msg : json) : bool := match field msg "id" with JNum z => z =? 1 | _ => false end.

(** The second loop, until it blocks, yields or ends. *)
Fixpoint streaming (queue : list json) (aborted : bool) (out : list (json * option bytes)) (sent : nat) : Subscription :=
  match queue with
  | [] => mkSub (if aborted then ph_done else ph_streaming) [] aborted out sent
  | msg :: queue =>
      if negb (truthy msg) then mkSub ph_done queue aborted out sent
      else match txItem msg with
           | None => streaming queue aborted out sent
           | Some (Err e) => mkSub (ph_failed e) queue aborted out sent
           | Some (Ok it) => mkSub ph_yielded queue aborted (out ++ [it]) sent
           end
  end.

(** The first loop, and what follows it. *)
Fixpoint subscribing (queue : list json) (aborted : bool) (out : list (json * option bytes)) (sent : nat) : Subscription :=
  match queue with
  | [] => mkSub (if aborted then ph_done else ph_subscribing) [] aborted out sent
  | msg :: queue =>
      if negb (truthy msg) then mkSub ph_done queue aborted out sent
      else if isAck msg then
        if truthy (field msg "error") then mkSub (ph_failed ("subscribe error: " +:+ safeJson (field msg "error"))) queue aborted out sent
        else streaming queue aborted out sent
      else subscribing queue aborted out sent
  end.

(** The events of the socket (a message that is not JSON is [None]), of the
    signal, and of the consuming loop, which asks for the next item or leaves. *)
Inductive Happening := ws_open | ws_message (msg : option json) | ws_error | ws_close | sig_abort | ask_next | ask_return.

(** The first [next()]: the socket is new, so it is still connecting. *)
Definition startSub (aborted : bool) : Subscription := mkSub (if aborted then ph_failed "aborted" else ph_opening) [] aborted [] 0.

(** [wake()]: whoever waits in [shift] looks at the queue again. *)
Definition wake (s : Subscription) : Subscription :=
  match s.(sub_phase) with
  | ph_subscribing => subscribing s.(sub_queue) s.(sub_aborted) s.(sub_out) s.(sub_sent)
  | ph_streaming => streaming s.(sub_queue) s.(sub_aborted) s.(sub_out) s.(sub_sent)
  | _ => s
  end.

(** Whether the listeners are registered: [finally] removes them. *)
Definition listening (s : Subscription) : bool := match s.(sub_phase) with ph_done | ph_failed _ => false | _ => true end.

Definition happen (h : Happening) (s : Subscription) : Subscription :=
  let '(mkSub ph queue aborted out sent) := s in
  if negb (listening s) then s
  else match h, ph with
       | ws_open, ph_opening => subscribing queue aborted out (S sent)
       | ws_open, _ => s
       | ws_message None, _ => s
       | ws_message (Some msg), _ => wake (mkSub ph (queue ++ [msg]) aborted out sent)
       | ws_error, ph_opening => mkSub (ph_failed "websocket error") queue aborted out sent
       | (ws_error | ws_close), _ => wake s
       | sig_abort, ph_opening => mkSub (ph_failed "aborted") queue true out sent
       | sig_abort, _ => mkSub ph queue true out sent
       | ask_next, ph_yielded => streaming queue aborted out sent
       | ask_return, ph_yielded => mkSub ph_done queue aborted out sent
       | _, _ => s
       end.

Definition happenings (hs : list Happening) (s : Subscription) : Subscription := foldl (λ s h, happen h s) s hs.

(** ** What the subscription delivers *)

(** The messages that arrive while the listeners are registered. *)
Fixpoint heard (hs : list Happening) (s : Subscription) : list json :=
  match hs with
  | [] => []
  | h :: hs => match h with ws_message (Some msg) => if listening s then [msg] else [] | _ => [] end ++ heard hs (happen h s)
  end.

(** What follows the first answer to [subscribe], and the transactions in it. *)
Fixpoint afterAck (l : list json) : list json := match l with [] => [] | msg :: l => if isAck msg then l else afterAck l end.
Definition txItems (l : list json) : list (json * option bytes) := omap (λ msg, match txItem msg with Some (Ok it) => Some it | _ => None end) l.

Lemma afterAck_app l k : afterAck (l ++ k) = if existsb isAck l then afterAck l ++ k else afterAck k.
Proof. induction l as [|m l IH]; [done|]. cbn [app afterAck existsb]. by destruct (isAck m). Qed.

Lemma afterAck_none l : existsb isAck l = false → afterAck l = [].
Proof. induction l as [|m l IH]; [done|]. cbn [afterAck existsb]. by destruct (isAck m). Qed.

Lemma txItems_app l k : txItems (l ++ k) = txItems l ++ txItems k.
Proof. apply omap_app. Qed.

Lemma falsy_field j k : truthy j = false → field j k = JUndefined.
Proof. by destruct j. Qed.
Lemma falsy_ack j : truthy j = false → isAck j = false.
Proof. intros H. unfold isAck. by rewrite falsy_field. Qed.
Lemma falsy_item j : truthy j = false → txItem j = None.
Proof. intros H. unfold txItem, extractTxResult. by rewrite (falsy_field j "result"), (falsy_field j "params") by done. Qed.

(** What the generator has read of the messages heard, in each phase. *)
Definition consistent (l : list json) (s : Subscription) : Prop :=
  ∃ consumed, l = consumed ++ s.(sub_queue) ∧ s.(sub_out) = txItems (afterAck consumed) ∧
  match s.(sub_phase) with
  | ph_opening => consumed = [] ∧ s.(sub_sent) = 0%nat
  | ph_subscribing => s.(sub_queue) = [] ∧ existsb isAck consumed = false ∧ s.(sub_sent) = 1%nat
  | ph_streaming => s.(sub_queue) = [] ∧ existsb isAck consumed = true ∧ s.(sub_sent) = 1%nat
  | ph_yielded => existsb isAck consumed = true ∧ s.(sub_sent) = 1%nat
  | ph_done | ph_failed _ => (s.(sub_sent) <= 1)%nat
  end.

Lemma streaming_consistent queue aborted out consumed : existsb isAck consumed = true → out = txItems (afterAck consumed) →
  consistent (consumed ++ queue) (streaming queue aborted out 1).
Proof.
  revert out consumed. induction queue as [|msg queue IH]; intros out consumed Ha Ho; cbn [streaming].
  - exists consumed. cbn. split_and!; [done|done|destruct aborted; cbn; auto with lia].
  - assert (Hnext : existsb isAck (consumed ++ [msg]) = true) by by rewrite existsb_app, Ha.
    assert (Hlist : consumed ++ msg :: queue = (consumed ++ [msg]) ++ queue) by by rewrite <- app_assoc.
    assert (Hout : txItems (afterAck (consumed ++ [msg])) = out ++ txItems [msg]) by by rewrite afterAck_app, Ha, txItems_app, Ho.
    rewrite Hlist. destruct (truthy msg) eqn:Et; cbn [negb].
    2: { exists (consumed ++ [msg]). cbn [sub_queue sub_out sub_phase sub_sent]. rewrite Hout. unfold txItems. cbn [omap list_omap]. rewrite falsy_item by done. by rewrite app_nil_r. }
    unfold txItems in Hout at 2. cbn [omap list_omap] in Hout. destruct (txItem msg) as [[it|e]|].
    + exists (consumed ++ [msg]). cbn [sub_queue sub_out sub_phase sub_sent]. by rewrite Hout.
    + exists (consumed ++ [msg]). cbn [sub_queue sub_out sub_phase sub_sent]. by rewrite Hout, app_nil_r.
    + apply IH; [done|]. by rewrite Hout, app_nil_r.
Qed.

Lemma subscribing_consistent queue aborted consumed : existsb isAck consumed = false → consistent (consumed ++ queue) (subscribing queue aborted [] 1).
Proof.
  revert consumed. induction queue as [|msg queue IH]; intros consumed Ha; cbn [subscribing].
  - exists consumed. cbn. rewrite afterAck_none by done. split_and!; [done|done|destruct aborted; cbn; auto with lia].
  - assert (Hlist : consumed ++ msg :: queue = (consumed ++ [msg]) ++ queue) by by rewrite <- app_assoc.
    assert (Hout : afterAck (consumed ++ [msg]) = []) by (rewrite afterAck_app, Ha; cbn; by destruct (isAck msg)).
    rewrite Hlist. destruct (truthy msg) eqn:Et; cbn [negb].
    2: { exists (consumed ++ [msg]). cbn [sub_queue sub_out sub_phase sub_sent]. by rewrite Hout. }
    assert (Hnext : existsb isAck (consumed ++ [msg]) = isAck msg) by (rewrite existsb_app, Ha; cbn; by rewrite orb_false_r).
    destruct (isAck msg) eqn:Ek; [|by apply IH].
    destruct (truthy (field msg "error")).
    + exists (consumed ++ [msg]). cbn [sub_queue sub_out sub_phase sub_sent]. by rewrite Hout.
    + apply streaming_consistent; [done|by rewrite Hout].
Qed.

(** Waking up, possibly with one more message in the queue. *)
Lemma wake_consistent l s k : consistent l s → listening s = true →
  consistent (l ++ k) (wake (mkSub s.(sub_phase) (s.(sub_queue) ++ k) s.(sub_aborted) s.(sub_out) s.(sub_sent))).
Proof.
  intros (consumed & -> & Ho & Hp) Hl. rewrite <- app_assoc. unfold wake. cbn [sub_phase sub_queue sub_aborted sub_out sub_sent].
  destruct (sub_phase s) eqn:Ep; cbn in Hp; [|..|by unfold listening in Hl; rewrite Ep in Hl|by unfold listening in Hl; rewrite Ep in Hl].
  - exists consumed. cbn. by destruct Hp as [-> ->].
  - destruct Hp as (Hq & Ha & Hs). rewrite Hs, Hq, Ho, afterAck_none by done. by apply subscribing_consistent.
  - destruct Hp as (Hq & Ha & Hs). rewrite Hs, Hq. by apply streaming_consistent.
  - exists consumed. by cbn.
Qed.

Lemma happen_consistent l s h : consistent l s →
  consistent (l ++ match h with ws_message (Some msg) => if listening s then [msg] else [] | _ => [] end) (happen h s).
Proof.
  intros Hc. destruct (listening s) eqn:Hl.
  2: { replace (happen h s) with s by (destruct s; unfold happen; by rewrite Hl). destruct h as [|[msg|]| | | | |]; by rewrite app_nil_r. }
  pose proof (λ k, wake_consistent l s k Hc Hl) as Hw. destruct s as [ph queue aborted out sent]. unfold happen. rewrite Hl. cbn [negb].
  destruct h as [|[msg|]| | | | |]; [..|rewrite app_nil_r|rewrite app_nil_r|rewrite app_nil_r]; try (rewrite app_nil_r).
  - destruct ph; try done. destruct Hc as (consumed & -> & Ho & -> & Hs). cbn in *. subst. by apply (subscribing_consistent queue aborted []).
  - apply Hw.
  - done.
  - specialize (Hw []). rewrite !app_nil_r in Hw. destruct ph; try done. destruct Hc as (consumed & E & Ho & Hp & Hs). exists consumed. cbn in *. subst. split_and!; [done|done|lia].
  - specialize (Hw []). rewrite !app_nil_r in Hw. by destruct ph.
  - destruct Hc as (consumed & E & Ho & Hp). exists consumed. destruct ph; cbn in *; split_and!; try done; try apply Hp. destruct Hp as [_ ->]. lia.
  - destruct ph; try done. destruct Hc as (consumed & E & Ho & Ha & Hs). cbn in *. subst. by apply streaming_consistent.
  - destruct ph; try done. destruct Hc as (consumed & E & Ho & Ha & Hs). exists consumed. cbn in *. split_and!; [done|done|lia].
Qed.

Lemma happenings_consistent hs l s : consistent l s → consistent (l ++ heard hs s) (happenings hs s).
Proof.
  revert l s. induction hs as [|h hs IH]; intros l s Hc; cbn [heard happenings foldl]; [by rewrite app_nil_r|].
  rewrite app_assoc. by apply IH, happen_consistent.
Qed.

Definition waiting (s : Subscription) : bool := match s.(sub_phase) with ph_subscribing | ph_streaming => true | _ => false end.

(** No event of a socket. *)
Definition silent (h : Happening) : Prop := match h with sig_abort | ask_next | ask_return => True | _ => False end.

Lemma silent_waits hs s : waiting s = true → Forall silent hs → sub_phase (happenings hs s) = sub_phase s.
Proof.
  intros Hw Hh. revert s Hw. induction Hh as [|h hs Hh _ IH]; intros s Hw; [done|]. cbn [happenings foldl].
  assert (E : sub_phase (happen h s) = sub_phase s) by (destruct s as [ph queue aborted out sent]; destruct ph, h; done).
  rewrite <- E. apply IH. unfold waiting. by rewrite E.
Qed.

(** C25. However messages, the consumer and the signal interleave, the subscription
    yields the transactions of the messages that follow the answer to
    [subscribe], each once and in order: while it waits it has yielded all that
    it heard, and otherwise the rest is in the queue.  It subscribes at most
    once.  But it outlives its socket: once the socket has closed while it was
    waiting, neither the signal nor the consumer ends it. *)
Theorem subscription_delivers hs (s := happenings hs (startSub false)) :
  (∃ consumed, heard hs (startSub false) = consumed ++ sub_queue s ∧ sub_out s = txItems (afterAck consumed)) ∧
  (waiting s = true → sub_queue s = []) ∧ (sub_sent s <= 1)%nat ∧
  (∀ hs', waiting s = true → sub_aborted s = false → Forall silent hs' → sub_phase (happenings (ws_close :: hs') s) = sub_phase s).
Proof.
  destruct (happenings_consistent hs [] (startSub false)) as (consumed & E & Ho & Hp); [by exists []|]. fold s in E, Ho, Hp.
  assert (Hq : waiting s = true → sub_queue s = []) by (unfold waiting; destruct (sub_phase s); cbn in Hp; naive_solver).
  split_and!; [by exists consumed|done|destruct (sub_phase s); cbn in Hp; naive_solver lia|].
  intros hs' Hw Ha Hs. cbn [happenings foldl]. assert (Ec : happen ws_close s = s); [|rewrite Ec; by apply silent_waits].
  specialize (Hq Hw). clear -Hw Ha Hq. destruct s as [ph queue aborted out sent]. cbn in *. subst. by destruct ph.
Qed.

Definition toyAck : json := JObj [("id", JNum 1); ("result", JObj [])].
Definition toyTx (n : Z) : json := JObj [("result", JObj [("data", JObj [("value", JObj [("TxResult", JObj [("events", JArr [JNum n])])])])])].

Lemma subscription_delivers_witness :
  let s := happenings [ws_message (Some (toyTx 0)); ws_open; ws_message (Some toyAck); ws_message (Some (toyTx 1)); ws_message (Some (toyTx 2)); ask_next; ask_next] (startSub false) in
  sub_out s = [(JArr [JNum 1], None); (JArr [JNum 2], None)] ∧ sub_phase (happenings [ws_close; sig_abort; ask_next] s) = ph_streaming.
Proof.
  split; [vm_compute; reflexivity|].
  apply (subscription_delivers [ws_message (Some (toyTx 0)); ws_open; ws_message (Some toyAck); ws_message (Some (toyTx 1)); ws_message (Some (toyTx 2)); ask_next; ask_next]) with (hs' := [sig_abort; ask_next]);
    [vm_compute; reflexivity..|by repeat constructor].
Defined.

(** A request advances the request number and touches the world by its [fetch]. *)
Lemma request_keeps {W} (fetchFn : list ascii → X W string SdkClient.FetchResponse) (I : W → Prop) n method params :
  (∀ body w, I w → I (fetchFn body w).2) → maintains (λ r, txNonce r = n ∧ I (world r)) (request fetchFn method params).
Proof.
  intros Hf. unfold request. apply maintains_bind; [apply maintains_read|]. intros id. apply maintains_bind; [by apply maintains_write|]. intros _.
  apply maintains_bind.
  - intros r [Hn Hw]. unfold onWorld. specialize (Hf (stringify false (written (JsonRpcRequest id method params))) _ Hw). by destruct (fetchFn _ (world r)).
  - intros res. destruct (negb _); [apply maintains_raise|]. apply maintains_bind; [apply maintains_ofRes|]. intros j.
    destruct (_ || _); [apply maintains_raise|]. destruct (hasKey _ _); [apply maintains_raise|apply maintains_ret].
Qed.

(** ** Polling from a log *)

Section polling.
Context {W : Type} (fetchFn : list ascii → X W string SdkClient.FetchResponse).
(** The events that the chain has written in a world, where a cursor points in
    them, and the limit of a page. *)
Variables (log : W → list json) (position : json → option nat) (limit : nat).
Variables (filter lim : json).

(** The answers of the chain, as the protocol describes them: the log only
    grows; a page is what follows the cursor, and its [nextCursor] (or, when it
    has none, the old cursor) points behind it. *)
Record ServesLog : Prop := {
  log_grows cursor (r : Rpc) : log r.(world) `prefix_of` log (getEvents fetchFn cursor filter lim r).2.(world);
  pages cursor k (r : Rpc) page r' : position cursor = Some k → (k <= length (log r.(world)))%nat → getEvents fetchFn cursor filter lim r = (Ok page, r') →
    elems (orElse (field page "events") (JArr [])) = take limit (drop k (log r'.(world))) ∧
    position (orElse (field page "nextCursor") cursor) = Some (k + length (elems (orElse (field page "events") (JArr []))))%nat
}.

(** The generator has yielded what the log holds between the first cursor and
    its own. *)
Definition yieldedLog (k0 : nat) (s : Poller) : Prop :=
  position s.(cursor) = Some (k0 + length s.(yielded))%nat ∧ (k0 + length s.(yielded) <= length (log s.(rpc).(world)))%nat ∧
  s.(yielded) = take (length s.(yielded)) (drop k0 (log s.(rpc).(world))).

Lemma yieldedLog_grows k0 s r : yieldedLog k0 s → log s.(rpc).(world) `prefix_of` log r.(world) → yieldedLog k0 (mkPoller s.(cursor) s.(yielded) r).
Proof.
  intros (Hp & Hl & Hy) [more E]. unfold yieldedLog. cbn [cursor yielded rpc]. rewrite E, length_app. split_and!; [done|lia|].
  rewrite drop_app_le, take_app_le by (rewrite ?length_drop; lia). done.
Qed.

Hypothesis (Hserver : ServesLog) (Hlim : orElse lim (JNum 200) = lim).

Lemma pollOnce_log k0 s : yieldedLog k0 s → let '(r, s') := pollOnce fetchFn filter lim s in
  yieldedLog k0 s' ∧ log s.(rpc).(world) `prefix_of` log s'.(rpc).(world) ∧
  (∀ b, r = Ok b → (length s'.(yielded) = length s.(yielded) + Nat.min limit (length (log s'.(rpc).(world)) - (k0 + length s.(yielded))))%nat).
Proof.
  intros Hy. unfold pollOnce. rewrite bind_read, Hlim. pose proof (log_grows Hserver (cursor s) (rpc s)) as Hg.
  destruct (getEvents fetchFn (cursor s) filter lim (rpc s)) as [[page|e] r'] eqn:Eg.
  2: { erewrite bind_err; [|unfold onRpc; by rewrite (bind_err _ _ _ _ _ Eg)]. cbn in *. split_and!; [by apply yieldedLog_grows|done|done]. }
  destruct (nullish page) eqn:En.
  { erewrite bind_err; [|unfold onRpc; rewrite (bind_ok _ _ _ _ _ Eg); unfold notNull; by rewrite En]. cbn in *. split_and!; [by apply yieldedLog_grows|done|done]. }
  erewrite bind_ok by (unfold onRpc; rewrite (bind_ok _ _ _ _ _ Eg); unfold notNull; by rewrite En). rewrite bind_write. cbn [snd] in Hg.
  destruct (yieldedLog_grows k0 s r' Hy Hg) as (Hp & Hl & Hty). cbn [cursor yielded rpc] in Hp, Hl, Hty. destruct Hy as (_ & Hl0 & _).
  destruct (pages Hserver _ _ _ _ _ Hp Hl0 Eg) as [He Hc]. unfold yieldedLog. cbn. rewrite He in Hc |- *.
  set (evs := take limit (drop (k0 + length (yielded s)) (log (world r')))) in *.
  assert (Hlen : length evs = Nat.min limit (length (log (world r')) - (k0 + length (yielded s)))) by (unfold evs; by rewrite length_take, length_drop).
  rewrite length_app. split_and!; [|lia| |done|lia].
  - rewrite Hc. f_equal. lia.
  - rewrite Hty at 1. rewrite <- take_take_drop. f_equal. rewrite drop_drop. unfold evs in Hlen |- *. rewrite Hlen.
    destruct (Nat.le_ge_cases limit (length (log (world r')) - (k0 + length (yielded s)))); [by rewrite Nat.min_l|].
    rewrite Nat.min_r by done. rewrite !take_ge; rewrite ?length_drop; (done || lia).
Qed.

Lemma subscribeEvents_log aborted k0 s : yieldedLog k0 s → let '(r, s') := subscribeEvents fetchFn aborted filter lim s in
  yieldedLog k0 s' ∧ log s.(rpc).(world) `prefix_of` log s'.(rpc).(world) ∧
  (r = Ok false → (length s.(yielded) + Nat.min (length aborted * limit) (length (log s.(rpc).(world)) - (k0 + length s.(yielded))) <= length s'.(yielded))%nat).
Proof.
  revert s. induction aborted as [|[] aborted IH]; intros s Hy; cbn [subscribeEvents length].
  - cbn. split_and!; [done|done|intros _; lia].
  - cbn. by split_and!.
  - pose proof (pollOnce_log k0 s Hy) as Hpoll. unfold mbind, X_bind. destruct (pollOnce fetchFn filter lim s) as [[b|e] s1].
    2: { destruct Hpoll as (H1 & H2 & _). by split_and!. }
    destruct Hpoll as (H1 & H2 & H3). specialize (H3 b eq_refl). specialize (IH s1 H1). destruct (subscribeEvents fetchFn aborted filter lim s1) as [r s2].
    destruct IH as (I1 & I2 & I3). split_and!; [done|by etrans|]. intros Hr. specialize (I3 Hr). pose proof (prefix_length _ _ H2). lia.
Qed.

End polling.

(** C26. Polling a chain that serves its log yields each event once and in order,
    whatever fails and whenever the signal aborts: what was yielded is the part
    of the log between the first cursor and the one reached.  Turns that do not
    fail make progress: as many of them as there are events left over the limit
    yield everything. *)
Theorem events_once {W} (fetchFn : list ascii → X W string SdkClient.FetchResponse) log position limit filter lim aborted c0 k0 r0 :
  ServesLog fetchFn log position limit filter lim → orElse lim (JNum 200) = lim → position c0 = Some k0 → (k0 <= length (log (world r0)))%nat →
  let '(r, s) := subscribeEvents fetchFn aborted filter lim (mkPoller c0 [] r0) in
  let n := length (yielded s) in
  yielded s = take n (drop k0 (log (world (rpc s)))) ∧ position (cursor s) = Some (k0 + n)%nat ∧
  (r = Ok false → (Nat.min (length aborted * limit) (length (log (world r0)) - k0) <= n)%nat).
Proof.
  intros Hs Hlim Hp Hk. pose proof (subscribeEvents_log fetchFn log position limit filter lim Hs Hlim aborted k0 (mkPoller c0 [] r0)) as H.
  destruct (subscribeEvents fetchFn aborted filter lim (mkPoller c0 [] r0)) as [r s]. destruct H as ((H1 & H2 & H3) & _ & H4).
  - split_and!; [cbn; by rewrite Nat.add_0_r|cbn; lia|done].
  - cbn [yielded rpc] in H4. split_and!; [done|done|]. intros Hr. specialize (H4 Hr). cbn in H4. rewrite Nat.add_0_r in H4. lia.
Qed.

(** A chain whose cursors are numbers, with pages of two events. *)
Definition toyPosition (c : json) : option nat := match c with JUndefined => Some 0%nat | JNum z => if 0 <=? z then Some (Z.to_nat z) else None | _ => None end.
Definition toyFetch (body : list ascii) : X (list json) string SdkClient.FetchResponse := λ log,
  match parse body with
  | Some req =>
      let k := default 0%nat (toyPosition (field (field req "params") "cursor")) in
      let evs := take 2 (drop k log) in
      let result := JObj [("events", JArr evs); ("nextCursor", JNum (Z.of_nat (k + length evs)))] in
      (Ok (SdkClient.mkFetchResponse true 200 "OK" (Err EmptyString) (Ok (JObj [("jsonrpc", JStr "2.0"); ("id", field req "id"); ("result", result)]))), log)
  | None => (Err "bad request", log)
  end.

Lemma reply_fields id v : let j := JObj [("jsonrpc", JStr "2.0"); ("id", JNum id); ("result", v)] in
  truthy j = true ∧ isStr (field j "jsonrpc") "2.0" = true ∧ field j "id" = JNum id ∧ hasKey "error" j = false ∧ field j "result" = v.
Proof. by split_and!. Qed.

Lemma toy_page c k r : toyPosition c = Some k → getEvents toyFetch c JUndefined (JNum 2) r =
  (Ok (JObj [("events", JArr (take 2 (drop k (world r)))); ("nextCursor", JNum (Z.of_nat (k + length (take 2 (drop k (world r))))))]), set_nextId (nextId r + 1) r).
Proof.
  intros Hc. unfold getEvents, request. rewrite bind_read, bind_write. set (body := written _).
  assert (Hb : parse (stringify false body) = Some body) by (apply parse_stringify; by destruct c).
  erewrite bind_ok. 2: { unfold onWorld, toyFetch. rewrite Hb. reflexivity. }
  assert (Ek : toyPosition (field (field body "params") "cursor") = Some k) by (by destruct c).
  rewrite Ek. replace (field body "id") with (JNum (nextId r)) by (by destruct c). cbn [default].
  cbn [negb SdkClient.r_ok SdkClient.r_json]. erewrite bind_ofRes by reflexivity.
  match goal with |- context [JObj [_; _; ("result", ?v)]] => destruct (reply_fields (nextId r) v) as (-> & -> & -> & -> & ->) end.
  unfold answers. rewrite Z.eqb_refl. by destruct r.
Qed.

Lemma toy_serves : ServesLog toyFetch (λ l, l) toyPosition 2 JUndefined (JNum 2).
Proof.
  split.
  - intros c r. destruct (request_keeps toyFetch (λ w, w = world r) (txNonce r) "ocp_getEvents" (JObj [("cursor", c); ("filter", JUndefined); ("limit", JNum 2)])) with (s := r) as [_ E]; [|done|by unfold getEvents; rewrite E].
    intros body w ->. unfold toyFetch. by destruct (parse body).
  - intros c k r page r' Hc Hk Hg. rewrite (toy_page c k r Hc) in Hg. injection Hg as <- <-. cbn [field List.find]. split; [done|].
    set (evs := take 2 (drop k (world r))). change (toyPosition (JNum (Z.of_nat (k + length evs))) = Some (k + length evs)%nat).
    unfold toyPosition. rewrite (proj2 (Z.leb_le _ _)) by lia. by rewrite Nat2Z.id.
Qed.

Lemma events_once_witness :
  let s := (subscribeEvents toyFetch [false; false; true] JUndefined (JNum 2) (mkPoller JUndefined [] (mkRpc 1 0 [JNum 7; JNum 8; JNum 9]))).2 in
  yielded s = take (length (yielded s)) (drop 0 (world (rpc s))).
Proof.
  pose proof (events_once toyFetch (λ l, l) toyPosition 2 JUndefined (JNum 2) [false; false; true] JUndefined 0 (mkRpc 1 0 [JNum 7; JNum 8; JNum 9]) toy_serves eq_refl eq_refl (Nat.le_0_l _)) as H.
  destruct (subscribeEvents toyFetch [false; false; true] JUndefined (JNum 2) (mkPoller JUndefined [] (mkRpc 1 0 [JNum 7; JNum 8; JNum 9]))) as [r s]. exact (proj1 H).
Defined.

(** ** Nonces *)

Lemma byteOf_inj (l k : list ascii) : map byteOf l = map byteOf k → l = k.
Proof. intros E. apply (f_equal (map charOf)) in E. rewrite !map_map in E. by rewrite !(map_ext (λ c, charOf (byteOf c)) id charOf_byteOf), !map_id in E. Qed.

(** [sep] occurs neither in [l] nor in [k]. *)
Lemma split_last {A} (sep : A) l k p q : Forall (λ a, a ≠ sep) l → Forall (λ a, a ≠ sep) k → p ++ sep :: l = q ++ sep :: k → l = k.
Proof.
  intros Hl Hk E. revert q E. induction p as [|a p IH]; intros [|b q] E; cbn in E; [by injection E|injection E as E1 E2..]; [..|by apply (IH q)].
  - rewrite E2 in Hl. apply Forall_app in Hl as [_ Hl]. by inversion Hl.
  - rewrite <- E2 in Hk. apply Forall_app in Hk as [_ Hk]. by inversion Hk.
Qed.

Lemma pretty_no_dash n : 0 <= n → Forall (λ c, c ≠ "-"%char) (String.list_ascii_of_string (pretty n)).
Proof.
  intros Hn. destruct n as [|p|p]; [by repeat constructor|..|lia]. destruct (pretty_pos p) as (c & ds & E & _ & Hf & _).
  change (pretty (Z.pos p)) with (pretty (N.pos p)). rewrite E. eapply Forall_impl; [exact Hf|]. by intros a Ha ->.
Qed.

Lemma nonceText_inj now now' n n' : 0 <= n → 0 <= n' → nonceText now n = nonceText now' n' → n = n'.
Proof.
  intros Hn Hn' E. apply (f_equal CoordConfig.chars) in E. unfold nonceText in E. rewrite !chars_app in E.
  apply split_last in E; [|by apply pretty_no_dash..]. apply (f_equal String.string_of_list_ascii) in E. rewrite !string_of_list in E.
  apply (f_equal stringToBigInt) in E. rewrite !stringToBigInt_pretty in E. congruence.
Qed.

(** The values of the fields have a text, or are undefined. *)
Definition printable (env : list (string * json)) : bool := plain (written (JObj env)).

Lemma printable_nonce env s : printable env = true → printable (mset "nonce" (JStr s) env) = true.
Proof.
  unfold printable. cbn [written plain]. induction env as [|[k v] env IH]; [done|]. cbn [mset]. case_bool_decide; cbn [omap list_omap fst snd].
  - destruct (defined v); cbn [forallb snd plain defined written]; [by intros [_ ?]%andb_true_iff|done].
  - destruct (defined v); cbn [forallb snd]; [|by apply IH]. intros [H1 H2]%andb_true_iff. by rewrite H1, IH.
Qed.

Lemma written_nonce env s : field (written (JObj (mset "nonce" (JStr s) env))) "nonce" = JStr s.
Proof.
  cbn [written]. unfold field. induction env as [|[k v] env IH]; [done|]. cbn [mset]. case_bool_decide as E; cbn [omap list_omap fst snd].
  - cbn [defined List.find fst]. by rewrite bool_decide_true.
  - destruct (defined v); [|done]. cbn [List.find fst]. by rewrite bool_decide_false.
Qed.

Lemma envelopeBytes_nonce env env' s s' : printable env = true → printable env' = true → envelopeBytes env (JStr s) = envelopeBytes env' (JStr s') → s = s'.
Proof.
  intros H H' E%byteOf_inj. apply (f_equal parse) in E. rewrite !parse_stringify in E by by apply printable_nonce.
  apply (inj Some), (f_equal (λ j, field j "nonce")) in E. cbv beta in E. rewrite !written_nonce in E. congruence.
Qed.

Section nonces.
Context {W : Type} (fetchFn : list ascii → X W string SdkClient.FetchResponse).

(** An envelope without nonce and authentication. *)
Definition unsigned (env : list (string * json)) : bool :=
  nullish (field (JObj env) "nonce") && nullish (field (JObj env) "signer") && nullish (field (JObj env) "sig").

(** The transactions of a sequence of broadcasts, each with the time of its
    clock and whether or not it fails. *)
Fixpoint broadcasts (l : list (Z * list (string * json))) (r : Rpc) : list bytes :=
  match l with
  | [] => []
  | (now, env) :: l => envelopeBytes env (JStr (nonceText now (txNonce r + 1))) :: broadcasts l (broadcastTxEnvelope fetchFn now env r).2
  end.

(** The bytes are those that the code broadcasts. *)
Lemma broadcast_unsigned now env r : unsigned env = true →
  broadcastTxEnvelope fetchFn now env r = broadcastTxCommit fetchFn (envelopeBytes env (JStr (nonceText now (txNonce r + 1)))) (set_txNonce (txNonce r + 1) r).
Proof.
  unfold unsigned. intros [[H1 H2]%andb_true_iff H3]%andb_true_iff. unfold broadcastTxEnvelope. rewrite H1, H2, H3. cbn [negb orb andb].
  erewrite bind_ok; [|by rewrite bind_read, bind_write]. done.
Qed.

Lemma broadcast_advances now env r : unsigned env = true → txNonce (broadcastTxEnvelope fetchFn now env r).2 = txNonce r + 1.
Proof.
  intros Hu. rewrite broadcast_unsigned by done. generalize (envelopeBytes env (JStr (nonceText now (txNonce r + 1)))). intros bs.
  assert (Hm : maintains (λ r', txNonce r' = txNonce r + 1 ∧ True) (broadcastTxCommit fetchFn bs)); [|by apply Hm].
  unfold broadcastTxCommit. apply maintains_bind.
  - apply maintains_bind; [by apply (request_keeps fetchFn (λ _, True))|]. intros j. unfold notNull. destruct (nullish j); [apply maintains_raise|apply maintains_ret].
  - intros j. destruct (_ && _); [apply maintains_raise|apply maintains_ret].
Qed.

Lemma broadcasts_later l r bs : Forall (λ e, unsigned e.2 = true) l → bs ∈ broadcasts l r →
  ∃ now env n, env ∈ l.*2 ∧ txNonce r < n ∧ bs = envelopeBytes env (JStr (nonceText now n)).
Proof.
  revert r. induction l as [|[now env] l IH]; intros r Hl; cbn [broadcasts]; [by intros ?%elem_of_nil|]. apply Forall_cons in Hl as [Hu Hl].
  intros [->|Hin]%elem_of_cons.
  - exists now, env, (txNonce r + 1). split_and!; [by left|lia|done].
  - destruct (IH _ Hl Hin) as (now' & env' & n & He & Hn & ->). rewrite broadcast_advances in Hn by done. exists now', env', n. split_and!; [by right|lia|done].
Qed.

End nonces.

(** No two of the unsigned transactions that one client broadcasts have the
    same bytes, whatever the clock does and whether or not they fail, so the
    node's cache of transactions never rejects one as a repetition. *)
Theorem envelopes_distinct {W} (fetchFn : list ascii → X W string SdkClient.FetchResponse) (l : list (Z * list (string * json))) (r : Rpc) :
  0 <= txNonce r → Forall (λ e, unsigned e.2 = true ∧ printable e.2 = true) l →
  NoDup (broadcasts fetchFn l r) ∧
  (∀ now env, (now, env) ∈ l → ∀ r', broadcastTxEnvelope fetchFn now env r' =
     broadcastTxCommit fetchFn (envelopeBytes env (JStr (nonceText now (txNonce r' + 1)))) (set_txNonce (txNonce r' + 1) r')).
Proof.
  intros Hr Hl. split.
  2: { intros now env Hin r'. apply broadcast_unsigned. rewrite Forall_forall in Hl. by apply (Hl (now, env)). }
  revert r Hr. induction Hl as [|[now env] l [Hu Hp] Hl IH]; intros r Hr; cbn [broadcasts]; [constructor|].
  assert (Ht : txNonce (broadcastTxEnvelope fetchFn now env r).2 = txNonce r + 1) by by apply broadcast_advances.
  constructor; [|apply IH; lia]. intros Hin. apply broadcasts_later in Hin; [|by eapply Forall_impl; [exact Hl|by intros ? []]].
  destruct Hin as (now' & env' & n & He & Hn & E). rewrite Ht in Hn. apply envelopeBytes_nonce in E; [apply nonceText_inj in E; lia|done|].
  apply list_elem_of_fmap in He as ([z env''] & -> & He). rewrite Forall_forall in Hl. by apply (Hl (z, env'')).
Qed.

Definition someTick : list (string * json) := [("type", JStr "poker/tick"); ("value", JObj [("tableId", JNum 1)])].

Lemma envelopes_distinct_witness : NoDup (broadcasts toyFetch [(5, someTick); (5, someTick)] (mkRpc 1 0 [])).
Proof. apply (envelopes_distinct toyFetch [(5, someTick); (5, someTick)] (mkRpc 1 0 [])); [done|by repeat constructor]. Defined.

(** ** Hole cards *)

(** A recovered card is one of the 52. *)
Lemma recoverOne_valid {W} (fetchFn : list ascii → X W string SdkClient.FetchResponse) decrypt recover t tableId handId pos sk pk r c r' :
  recoverOne fetchFn decrypt recover t tableId handId pos sk pk r = (Ok c, r') → ∃ z, c = Int z ∧ 0 <= z <= 51.
Proof.
  intros (? & ? & _ & (? & ? & _ & H)%bind_inv)%bind_inv. cbv zeta in H. match type of H with (if ?b then _ else _) _ = _ => destruct b; [done|] end.
  apply bind_inv in H as (? & ? & _ & (cid & ? & _ & H)%bind_inv). destruct (validCard cid) eqn:Ev; cbn in H; [|done]. injection H as <- <-.
  destruct cid as [z|]; [|done]. cbn in Ev. b2p. by exists z.
Qed.

End SdkRpc.
