(* ===== verification/WebHistory.v ===== *)
(** * The hand history of the web client: [apps/web/src/hooks/useGameState.ts],
      [Leaderboard.tsx], [PlayerStats.tsx]

    The page keeps the last hands of every table: it adds a hand when the polled
    table shows that it is over, and fills in winners and cards from the chain's
    events.  The effects are functions on [HandLog], one per [useEffect]; the
    attributes of an event are strings, as the coordinator sends them. *)
From stdpp Require Import base option list strings sorting.
From Stdlib Require Import ZArith Lia Ascii.
From S2P Require Import Prelude OcpBytes Json JsMap CoordStore CoordConfig WebTables.
Import Bytes Json JsMap CoordStore CoordConfig.

Module WebHistory.

#[local] Open Scope string_scope.
#[local] Open Scope list_scope.
#[local] Open Scope Z_scope.

(** ** State *)

Definition MAX_EVENTS : nat := 200.
Definition MAX_HISTORY_PER_TABLE : nat := 20.

Record Winner := mkWinner { w_seat : Z; w_amount : string }.
Record HandResult := mkHandResult {
  hr_handId : string; hr_winners : list Winner; hr_board : list Z; hr_pot : string; hr_timestamp : Z;
  hr_revealedCards : option (list (string * list string)); hr_street : option string; hr_reason : option string }.

(** [Map<string, HandResult[]>], by table. *)
Abbreviation History := (list (string * list HandResult)).

(** What is known of a showdown that is not over: the cards by seat (a key of an
    object, hence a string) and the winners. *)
Record Showdown := mkShowdown { sd_revealedCards : list (string * list string); sd_winners : list Winner }.
Record LastHand := mkLastHand { lh_handId : string; lh_pot : string; lh_board : list Z }.

(** [handHistory], [pendingShowdownRef], [lastHandRef] *)
Record HandLog := mkLog { hl_history : History; hl_pending : list (string * Showdown); hl_last : option LastHand }.
Definition set_history v s := mkLog v s.(hl_pending) s.(hl_last).
Definition set_pending v s := mkLog s.(hl_history) v s.(hl_last).
Definition set_last v s := mkLog s.(hl_history) s.(hl_pending) v.

(** ** Updates of the history *)

Definition sameHand (handId : string) (r : HandResult) : bool := bool_decide (r.(hr_handId) = handId).

Definition addHandResult (tableId : string) (result : HandResult) (prev : History) : History :=
  let l := default [] (mget tableId prev) in
  if existsb (sameHand result.(hr_handId)) l then prev else mset tableId (take MAX_HISTORY_PER_TABLE (result :: l)) prev.

(** [update] is what the partial result changes. *)
Definition updateHandResult (tableId handId : string) (update : HandResult → HandResult) (prev : History) : History :=
  match mget tableId prev with
  | None => prev
  | Some l => match WebTables.findIndex (sameHand handId) l with
              | Some idx => mset tableId (alter update idx l) prev
              | None => prev
              end
  end.

Definition set_revealedCards v r := mkHandResult r.(hr_handId) r.(hr_winners) r.(hr_board) r.(hr_pot) r.(hr_timestamp) v r.(hr_street) r.(hr_reason).

(** [...existing] with the fields of a completed hand that say more. *)
Definition mergeResult (result existing : HandResult) : HandResult :=
  mkHandResult existing.(hr_handId)
    (if result.(hr_winners) is [] then existing.(hr_winners) else result.(hr_winners))
    existing.(hr_board)
    (if bool_decide (result.(hr_pot) = "0") then existing.(hr_pot) else result.(hr_pot))
    existing.(hr_timestamp)
    (if result.(hr_revealedCards) is None then existing.(hr_revealedCards) else result.(hr_revealedCards))
    (if result.(hr_street) is None then existing.(hr_street) else result.(hr_street))
    (if result.(hr_reason) is None then existing.(hr_reason) else result.(hr_reason)).

Definition completeHand (tableId : string) (result : HandResult) (prev : History) : History :=
  let l := default [] (mget tableId prev) in
  match WebTables.findIndex (sameHand result.(hr_handId)) l with
  | Some idx => mset tableId (alter (mergeResult result) idx l) prev
  | None => mset tableId (take MAX_HISTORY_PER_TABLE (result :: l)) prev
  end.

(** ** The polled table *)

(** The effect on [playerTableForSelected] and [selectedTableId]. *)
Definition onPolledHand (now : Z) (selectedTableId : string) (currentHand : option WebTables.PlayerHandState) (s : HandLog) : HandLog :=
  match currentHand, s.(hl_last) with
  | Some h, _ => set_last (Some (mkLastHand (WebTables.handId h) (WebTables.pot h) (WebTables.board h))) s
  | None, Some prevHand =>
      if negb (bool_decide (prevHand.(lh_handId) = EmptyString)) && negb (bool_decide (selectedTableId = EmptyString)) then
        let result := mkHandResult prevHand.(lh_handId) [] prevHand.(lh_board) prevHand.(lh_pot) now None None None in
        set_last None (set_history (addHandResult selectedTableId result s.(hl_history)) s)
      else s
  | None, None => s
  end.

(** ** Events *)

(** [setEvents((prev) => [chainEvent, ...prev].slice(0, MAX_EVENTS))] *)
Definition receiveEvent (prev : list ChainEvent) (ev : ChainEvent) : list ChainEvent := take MAX_EVENTS (ev :: prev).

Definition pendingKey (tableId handId : string) : string := tableId +:+ (":" +:+ handId).

(** The table and the hand of an event that the effect looks at. *)
Definition handOf (ev : ChainEvent) : option (string * string) :=
  match ev.(ev_tableId) with
  | Some tableId =>
      if bool_decide (tableId = EmptyString) || negb (truthy ev.(ev_data)) then None
      else
        let handId := match ev.(ev_handId) with Some h => h | None => toStr (orElse (field ev.(ev_data) "handId") (JStr EmptyString)) end in
        if bool_decide (handId = EmptyString) then None else Some (tableId, handId)
  | None => None
  end.

(** [data[k] ?? d] *)
Definition attrOr (ev : ChainEvent) (k d : string) : string := toStr (orElse (field ev.(ev_data) k) (JStr d)).
(** [Number(data[k] ?? -1)] *)
Definition seatAttr (ev : ChainEvent) (k : string) : option Z := jsNumber (orElse (field ev.(ev_data) k) (JNum (-1))).
Definition pendingOf (key : string) (s : HandLog) : Showdown := default (mkShowdown [] []) (mget key s.(hl_pending)).

(** [NaN] is not below 0, so its seat is the key "NaN". *)
Definition onHoleCardRevealed (tableId handId : string) (ev : ChainEvent) (s : HandLog) : HandLog :=
  let seat := seatAttr ev "seat" in
  let card := attrOr ev "card" EmptyString in
  if (match seat with Some n => n <? 0 | None => false end) || bool_decide (card = EmptyString) then s
  else
    let key := pendingKey tableId handId in
    let pending := pendingOf key s in
    let seatKey := match seat with Some n => toStr (JNum n) | None => "NaN" end in
    let existing := default [] (mget seatKey pending.(sd_revealedCards)) in
    let cards := if bool_decide (card ∈ existing) then pending.(sd_revealedCards) else mset seatKey (existing ++ [card]) pending.(sd_revealedCards) in
    let s := set_pending (mset key (mkShowdown cards pending.(sd_winners)) s.(hl_pending)) s in
    set_history (updateHandResult tableId handId (set_revealedCards (Some cards)) s.(hl_history)) s.

(** [winnersCSV.split(",").map(Number).filter((n) => Number.isFinite(n) && n >= 0)] *)
Definition winnerSeats (winnersCSV : string) : list Z :=
  List.filter (λ n, 0 <=? n) (omap (λ x, jsNumber (JStr (text x))) (splitComma (chars winnersCSV))).

Definition addWinner (winners : list Winner) (w : Winner) : list Winner :=
  if existsb (λ w', w'.(w_seat) =? w.(w_seat)) winners then winners else winners ++ [w].

Definition awards (ev : ChainEvent) : list Winner := map (λ seat, mkWinner seat (attrOr ev "amount" "0")) (winnerSeats (attrOr ev "winners" EmptyString)).

Definition onPotAwarded (tableId handId : string) (ev : ChainEvent) (s : HandLog) : HandLog :=
  let key := pendingKey tableId handId in
  let pending := pendingOf key s in
  set_pending (mset key (mkShowdown pending.(sd_revealedCards) (foldl addWinner pending.(sd_winners) (awards ev))) s.(hl_pending)) s.

Definition onHandCompleted (tableId handId : string) (ev : ChainEvent) (s : HandLog) : HandLog :=
  let key := pendingKey tableId handId in
  let pending := mget key s.(hl_pending) in
  let reason := attrOr ev "reason" EmptyString in
  let winners := match pending with Some p => p.(sd_winners) | None => [] end in
  let winners :=
    if bool_decide (reason = "all-folded") && (length winners =? 0)%nat then
      match seatAttr ev "winnerSeat" with Some n => if 0 <=? n then [mkWinner n (attrOr ev "pot" "0")] else [] | None => [] end
    else winners in
  let result := mkHandResult handId winners [] (attrOr ev "pot" "0") ev.(ev_timeMs) (sd_revealedCards <$> pending)
                  (nonEmpty (attrOr ev "street" EmptyString)) (nonEmpty reason) in
  set_pending (mdel key s.(hl_pending)) (set_history (completeHand tableId result s.(hl_history)) s).

Definition onEvent (ev : ChainEvent) (s : HandLog) : HandLog :=
  match handOf ev with
  | None => s
  | Some (tableId, handId) =>
      if bool_decide (ev.(ev_name) = "HoleCardRevealed") then onHoleCardRevealed tableId handId ev s
      else if bool_decide (ev.(ev_name) = "PotAwarded") then onPotAwarded tableId handId ev s
      else if bool_decide (ev.(ev_name) = "HandCompleted") then onHandCompleted tableId handId ev s
      else s
  end.

(** The effect on [events]: it looks at the newest one. *)
Definition onEvents (events : list ChainEvent) (s : HandLog) : HandLog := match events with latest :: _ => onEvent latest s | [] => s end.

Inductive LogStep :=
| Rendered (events : list ChainEvent)
| Polled (now : Z) (selectedTableId : string) (currentHand : option WebTables.PlayerHandState).
Definition logStep (s : HandLog) (st : LogStep) : HandLog :=
  match st with Rendered events => onEvents events s | Polled now t h => onPolledHand now t h s end.

(** ** Statistics *)

(** [handsWon], [totalWinnings] *)
Record Entry := mkEntry { handsWon : Z; totalWinnings : Z }.
(** [Number(w.amount) || 0] *)
Definition amountOf (w : Winner) : Z := default 0 (jsNumber (JStr w.(w_amount))).

Definition seatToAddr (seats : list (Z * string)) : list (Z * string) :=
  foldl (λ m s, if bool_decide (s.2 = EmptyString) then m else mset s.1 s.2 m) [] seats.

Definition countWinner (addrs : list (Z * string)) (m : list (string * Entry)) (w : Winner) : list (string * Entry) :=
  match mget w.(w_seat) addrs with
  | Some addr =>
      let entry := default (mkEntry 0 0) (mget addr m) in
      mset addr (mkEntry (entry.(handsWon) + 1) (entry.(totalWinnings) + amountOf w)) m
  | None => m
  end.

(** The entries of [Leaderboard], the richest first. *)
Definition leaderboard (handHistory : list HandResult) (seats : list (Z * string)) : list (string * Entry) :=
  sort_by (λ a b, b.2.(totalWinnings) <=? a.2.(totalWinnings)) (foldl (countWinner (seatToAddr seats)) [] (concat (map hr_winners handHistory))).

(** [PlayerStats]: hands, hands won, winnings; only the first winner of a hand is
    counted, whoever it is. *)
Definition playerStats (handHistory : list HandResult) : Z * Z * Z :=
  foldl (λ '(played, won, total) h,
    match List.find (λ w, 0 <=? w.(w_seat)) h.(hr_winners) with
    | Some w => (played + 1, won + 1, total + amountOf w)
    | None => (played + 1, won, total)
    end) (0, 0, 0) handHistory.

(** ** The history stays small and has no hand twice *)

Definition tidy (h : History) : Prop := ∀ t l, mget t h = Some l → (length l <= MAX_HISTORY_PER_TABLE)%nat ∧ NoDup (map hr_handId l).

Lemma tidy_set t l h : tidy h → (length l <= MAX_HISTORY_PER_TABLE)%nat → NoDup (map hr_handId l) → tidy (mset t l h).
Proof. intros Hh Hl Hn t' l'. rewrite mget_set. case_decide; [by intros [= <-]|apply Hh]. Qed.

Lemma tidy_get t h : tidy h → (length (default [] (mget t h)) <= MAX_HISTORY_PER_TABLE)%nat ∧ NoDup (map hr_handId (default [] (mget t h))).
Proof. intros Hh. destruct (mget t h) as [l|] eqn:E; [by apply (Hh t)|]. cbn. split; [lia|constructor]. Qed.

Lemma existsb_sameHand handId l : existsb (sameHand handId) l = false → handId ∉ map hr_handId l.
Proof.
  intros He Hin. apply list_elem_of_fmap in Hin as (r & -> & Hr). assert (existsb (sameHand (hr_handId r)) l = true); [|congruence].
  apply existsb_exists. exists r. split; [by apply list_elem_of_In|by apply bool_decide_true].
Qed.

Lemma findIndex_spec {A} (f : A → bool) l : match WebTables.findIndex f l with
  | Some i => ∃ x, l !! i = Some x ∧ f x = true
  | None => existsb f l = false
  end.
Proof.
  unfold WebTables.findIndex. destruct (List.find _ _) as [[i x]|] eqn:E; cbn [fmap option_fmap option_map fst].
  - apply find_some in E as [Hin Hf]. apply list_elem_of_In, list_elem_of_lookup in Hin as [j Hj]. rewrite list_lookup_imap in Hj.
    destruct (l !! j) as [y|] eqn:Ey; [|done]. cbn in Hj. injection Hj as <- <-. by exists y.
  - destruct (existsb f l) eqn:Ex; [|done]. apply existsb_exists in Ex as (x & Hx & Hf). apply list_elem_of_In, list_elem_of_lookup in Hx as [i Hi].
    pose proof (find_none _ _ E (i, x)) as Hn. cbn in Hn. rewrite Hn in Hf; [done|]. apply list_elem_of_In, list_elem_of_lookup. exists i. by rewrite list_lookup_imap, Hi.
Qed.

Lemma tidy_cons t r h : tidy h → existsb (sameHand r.(hr_handId)) (default [] (mget t h)) = false →
  tidy (mset t (take MAX_HISTORY_PER_TABLE (r :: default [] (mget t h))) h).
Proof.
  intros Hh He. destruct (tidy_get t h Hh) as [Hl Hn]. apply tidy_set; [done|rewrite length_take; lia|].
  assert (H : NoDup (map hr_handId (r :: default [] (mget t h)))) by (cbn [map]; constructor; [by apply existsb_sameHand|done]).
  rewrite <- (take_drop MAX_HISTORY_PER_TABLE (r :: _)), map_app in H. by apply NoDup_app in H as [H _].
Qed.

Lemma tidy_alter t f i h l : tidy h → (∀ r, hr_handId (f r) = hr_handId r) → mget t h = Some l → tidy (mset t (alter f i l) h).
Proof.
  intros Hh Hf Hl. destruct (Hh t l Hl) as [H1 H2]. apply tidy_set; [done|by rewrite length_alter|].
  replace (map hr_handId (alter f i l)) with (map hr_handId l); [done|]. symmetry. apply list_eq. intros j. change (map hr_handId) with (fmap (M := list) hr_handId).
  rewrite !list_lookup_fmap. destruct (decide (i = j)) as [->|]; [rewrite list_lookup_alter_eq|by rewrite list_lookup_alter_ne]. destruct (l !! j); [cbn; by rewrite Hf|done].
Qed.

Lemma tidy_add t r h : tidy h → tidy (addHandResult t r h).
Proof. intros Hh. unfold addHandResult. cbv zeta. destruct (existsb _ _) eqn:E; [done|]. by apply tidy_cons. Qed.

Lemma tidy_update t handId f h : tidy h → (∀ r, hr_handId (f r) = hr_handId r) → tidy (updateHandResult t handId f h).
Proof. intros Hh Hf. unfold updateHandResult. destruct (mget t h) as [l|] eqn:El; [|done]. destruct (WebTables.findIndex _ l); [|done]. by apply tidy_alter. Qed.

Lemma tidy_complete t r h : tidy h → tidy (completeHand t r h).
Proof.
  intros Hh. unfold completeHand. cbv zeta. pose proof (findIndex_spec (sameHand (hr_handId r)) (default [] (mget t h))) as Hs.
  destruct (WebTables.findIndex _ _) as [i|]; [|by apply tidy_cons]. destruct Hs as (x & Hx & _).
  destruct (mget t h) as [l|] eqn:El; [|done]. by apply tidy_alter.
Qed.

Lemma tidy_step s st : tidy s.(hl_history) → tidy (logStep s st).(hl_history).
Proof.
  intros Hh. destruct st as [[|ev evs]|now t ph]; cbn [logStep onEvents]; [done|..].
  - unfold onEvent. destruct (handOf ev) as [[t handId]|]; [|done]. repeat case_bool_decide; try done.
    + unfold onHoleCardRevealed. cbv zeta. destruct (_ || _); [done|]. by apply tidy_update.
    + by apply tidy_complete.
  - unfold onPolledHand. destruct ph, (hl_last s); try done. destruct (_ && _); [|done]. by apply tidy_add.
Qed.

(** ** The winners of a hand *)

Definition keyOf (ev : ChainEvent) : option string := (λ th, pendingKey th.1 th.2) <$> handOf ev.
Definition completes (key : string) (ev : ChainEvent) : bool := bool_decide (keyOf ev = Some key) && bool_decide (ev.(ev_name) = "HandCompleted").
(** What an event awards in the hand with this key. *)
Definition awardsIn (key : string) (ev : ChainEvent) : list Winner :=
  if bool_decide (keyOf ev = Some key) && bool_decide (ev.(ev_name) = "PotAwarded") then awards ev else [].

Definition stepEvents (st : LogStep) : list ChainEvent := match st with Rendered (latest :: _) => [latest] | _ => [] end.
Definition stepsAwards (key : string) (sts : list LogStep) : list Winner := concat (map (awardsIn key) (concat (map stepEvents sts))).

(** Each seat once, with its first award. *)
Definition firstBySeat (l : list Winner) : list Winner := foldl addWinner [] l.

Lemma mget_mdel_ne {V} k k' (m : list (string * V)) : k ≠ k' → mget k' (mdel k m) = mget k' m.
Proof.
  intros Hk. unfold mdel. induction m as [|[k0 v] m IH]; [done|]. cbn [List.filter fst mget]. case_bool_decide; cbn [negb]; cbn [mget]; case_bool_decide; congruence.
Qed.
Lemma mget_mdel {V} k (m : list (string * V)) : mget k (mdel k m) = None.
Proof. unfold mdel. induction m as [|[k0 v] m IH]; [done|]. cbn [List.filter fst]. case_bool_decide as E; cbn [negb mget]; [done|]. by rewrite bool_decide_false. Qed.

Lemma pendingOf_set key key' p s : pendingOf key (set_pending (mset key' p s.(hl_pending)) s) = if bool_decide (key' = key) then p else pendingOf key s.
Proof. unfold pendingOf. cbn. rewrite mget_set. case_decide; case_bool_decide; done. Qed.

Lemma onEvent_winners key ev s : completes key ev = false →
  (pendingOf key (onEvent ev s)).(sd_winners) = foldl addWinner (pendingOf key s).(sd_winners) (awardsIn key ev).
Proof.
  unfold completes, awardsIn, keyOf, onEvent. destruct (handOf ev) as [[t h]|]; cbn [fmap option_fmap option_map fst snd]; [|by rewrite bool_decide_false].
  intros Hc. destruct (decide (ev_name ev = "HoleCardRevealed")) as [E1|E1]; [rewrite bool_decide_true by done|rewrite (bool_decide_false (_ = "HoleCardRevealed")) by done].
  { rewrite (bool_decide_false (_ = "PotAwarded")), andb_false_r by (by rewrite E1). unfold onHoleCardRevealed. cbv zeta. destruct (_ || _); [done|].
    change (pendingOf key (set_history ?h ?s)) with (pendingOf key s). rewrite pendingOf_set.
    destruct (bool_decide (pendingKey t h = key)) eqn:Ek; [|done]. apply bool_decide_eq_true in Ek. by rewrite Ek. }
  destruct (decide (ev_name ev = "PotAwarded")) as [E2|E2]; [rewrite !(bool_decide_true (_ = "PotAwarded")) by done|rewrite !(bool_decide_false (_ = "PotAwarded")) by done].
  { unfold onPotAwarded. cbv zeta. rewrite pendingOf_set, andb_true_r. repeat case_bool_decide; try congruence; by simplify_eq. }
  rewrite andb_false_r. destruct (decide (ev_name ev = "HandCompleted")) as [E3|E3]; [rewrite bool_decide_true by done|by rewrite bool_decide_false].
  rewrite (bool_decide_true (_ = "HandCompleted")), andb_true_r in Hc by done. apply bool_decide_eq_false in Hc.
  unfold onHandCompleted, pendingOf. cbn [hl_pending set_pending set_history]. by rewrite mget_mdel_ne by congruence.
Qed.

Lemma steps_winners key sts s : Forall (λ ev, completes key ev = false) (concat (map stepEvents sts)) →
  (pendingOf key (foldl logStep s sts)).(sd_winners) = foldl addWinner (pendingOf key s).(sd_winners) (stepsAwards key sts).
Proof.
  revert s. induction sts as [|st sts IH]; intros s Hc; [done|]. unfold stepsAwards. cbn [map concat foldl] in Hc |- *. apply Forall_app in Hc as [Hst Hc].
  rewrite map_app, concat_app, foldl_app, IH by done. unfold stepsAwards. f_equal. destruct st as [[|ev evs]|now t ph]; cbn [stepEvents map concat logStep onEvents foldl] in *; [done|..].
  - rewrite app_nil_r. apply onEvent_winners. by inversion Hst.
  - unfold onPolledHand. destruct ph, (hl_last s); try done. by destruct (_ && _).
Qed.

Lemma addWinner_nonempty l w : addWinner l w ≠ [].
Proof. unfold addWinner. destruct (existsb _ l) eqn:E; [by destruct l|by destruct l]. Qed.
Lemma firstBySeat_nonempty l : l ≠ [] → firstBySeat l ≠ [].
Proof. intros Hl. destruct l as [|w l] using rev_ind; [done|]. unfold firstBySeat. rewrite foldl_app. apply addWinner_nonempty. Qed.

Lemma completeHand_entry t r h : ∃ l e, mget t (completeHand t r h) = Some l ∧ e ∈ l ∧ e.(hr_handId) = r.(hr_handId) ∧ (r.(hr_winners) ≠ [] → e.(hr_winners) = r.(hr_winners)).
Proof.
  unfold completeHand. cbv zeta. pose proof (findIndex_spec (sameHand (hr_handId r)) (default [] (mget t h))) as Hs.
  destruct (WebTables.findIndex _ _) as [i|].
  - destruct Hs as (x & Hx & Hf). apply bool_decide_eq_true in Hf. eexists _, (mergeResult r x). rewrite mget_set, decide_True by done. split_and!; [done|..|done|].
    + apply (list_elem_of_lookup_2 _ i). by rewrite list_lookup_alter_eq, Hx.
    + cbn. by destruct (hr_winners r).
  - eexists _, r. rewrite mget_set, decide_True by done. split_and!; [done|by left|done|done].
Qed.

(** Every one of these events, in order, was the newest one at a render of its
    own (with polls in between). *)
Inductive rendered_singly : list ChainEvent → list LogStep → Prop :=
| singly_nil : rendered_singly [] []
| singly_event ev older evs sts : rendered_singly evs sts → rendered_singly (ev :: evs) (Rendered (ev :: older) :: sts)
| singly_poll now t h evs sts : rendered_singly evs sts → rendered_singly evs (Polled now t h :: sts).

Lemma singly_awards key evs sts : rendered_singly evs sts → stepsAwards key sts = concat (map (awardsIn key) evs).
Proof.
  unfold stepsAwards. induction 1 as [|ev older evs sts _ IH|now t h evs sts _ IH]; cbn [map concat stepEvents]; [done| |done].
  cbn [app map concat]. by rewrite IH.
Qed.

(** C29. Whatever events and polls come in whatever order, the history of a table
    has at most twenty hands and no hand twice.  The page looks at a render only
    at the newest event ([stepsAwards]: the awards of the hand that were the
    newest event at a render); events that arrive together are lost but for the
    last.  When a hand completes for which at least one award was looked at, it
    is in the history of its table with exactly the seats of the awards looked
    at, each once, in their order, with the amount of the first one it got; if
    every event had a render of its own these are the seats that won a pot.
    What is kept of the showdown is forgotten. *)
Theorem hands_logged sts s ev t handId : tidy s.(hl_history) → handOf ev = Some (t, handId) → ev.(ev_name) = "HandCompleted" →
  let key := pendingKey t handId in
  mget key s.(hl_pending) = None → Forall (λ e, completes key e = false) (concat (map stepEvents sts)) →
  let s' := onEvent ev (foldl logStep s sts) in
  let logged winners := ∃ l r, mget t s'.(hl_history) = Some l ∧ r ∈ l ∧ r.(hr_handId) = handId ∧ r.(hr_winners) = winners in
  tidy s'.(hl_history) ∧ mget key s'.(hl_pending) = None ∧
  (stepsAwards key sts ≠ [] → logged (firstBySeat (stepsAwards key sts))) ∧
  (∀ evs, rendered_singly evs sts → concat (map (awardsIn key) evs) ≠ [] → logged (firstBySeat (concat (map (awardsIn key) evs)))).
Proof.
  intros Ht Hh Hn key Hk Hc s' logged. assert (Ht' : tidy (hl_history (foldl logStep s sts))).
  { clear -Ht. revert s Ht. induction sts as [|st sts IH]; intros s Ht; [done|]. by apply IH, tidy_step. }
  split; [by apply (tidy_step _ (Rendered [ev]))|]. pose proof (steps_winners key sts s Hc) as Hw. unfold pendingOf in Hw at 2. rewrite Hk in Hw. cbn [default sd_winners] in Hw.
  unfold s', onEvent. rewrite Hh, Hn. rewrite !bool_decide_false, bool_decide_true by done. unfold onHandCompleted. cbn [hl_pending hl_history set_pending set_history].
  split; [apply mget_mdel|]. enough (Hlog : stepsAwards key sts ≠ [] → logged (firstBySeat (stepsAwards key sts))).
  { split; [done|]. intros evs Hevs Ha. rewrite <-(singly_awards key evs sts Hevs) in *. by apply Hlog. }
  unfold logged, s', onEvent. rewrite Hh, Hn. rewrite !bool_decide_false, bool_decide_true by done. unfold onHandCompleted. cbn [hl_pending hl_history set_pending set_history].
  intros Ha. fold key.
  assert (Hp : match mget key (hl_pending (foldl logStep s sts)) with Some p => sd_winners p | None => [] end = firstBySeat (stepsAwards key sts)).
  { unfold firstBySeat. rewrite <- Hw. unfold pendingOf. by destruct (mget key (hl_pending (foldl logStep s sts))). }
  assert (Hne : firstBySeat (stepsAwards key sts) ≠ []) by (by apply firstBySeat_nonempty).
  rewrite Hp. rewrite (proj2 (Nat.eqb_neq (length (firstBySeat _)) 0)) by (by rewrite length_zero_iff_nil). rewrite andb_false_r.
  match goal with |- context [completeHand t ?r ?h] => destruct (completeHand_entry t r h) as (l & e & H1 & H2 & H3 & H4) end. exists l, e. cbn in H3, H4. auto.
Qed.

Definition someEvent (name : string) (data : list (string * json)) : ChainEvent :=
  mkChainEvent name (Some "1") (Some "7") 1 1000 (JObj data).
Definition award (amount seats : string) : ChainEvent := someEvent "PotAwarded" [("amount", JStr amount); ("winners", JStr seats)].
Definition completed : ChainEvent := someEvent "HandCompleted" [("reason", JStr "showdown")].
Definition newLog : HandLog := mkLog [] [] None.

(** Seat 1 shares the main pot and wins the side pot of 40: each winner of the
    main pot is given all of it, and the side pot is lost. *)
Lemma hands_logged_witness :
  firstBySeat (stepsAwards "1:7" [Rendered [award "100" "1,2"]; Rendered [award "40" "1"]]) = [mkWinner 1 "100"; mkWinner 2 "100"] ∧
  ∃ l r, mget "1" (hl_history (onEvent completed (foldl logStep newLog [Rendered [award "100" "1,2"]; Rendered [award "40" "1"]]))) = Some l ∧ r ∈ l ∧ hr_handId r = "7" ∧
    hr_winners r = firstBySeat (stepsAwards "1:7" [Rendered [award "100" "1,2"]; Rendered [award "40" "1"]]).
Proof.
  split; [vm_compute; reflexivity|].
  destruct (hands_logged [Rendered [award "100" "1,2"]; Rendered [award "40" "1"]] newLog completed "1" "7") as (_ & _ & H & _); try reflexivity; [done|by repeat constructor|].
  apply H. by vm_compute.
Defined.

(** The hand of table 1 is entered in the history of the table that is selected
    next. *)
Example hand_of_another_table h : WebTables.handId h = "7" →
  mget "2" (hl_history (onPolledHand 1000 "2" None (onPolledHand 900 "1" (Some h) newLog))) =
    Some [mkHandResult "7" [] (WebTables.board h) (WebTables.pot h) 1000 None None None].
Proof. intros E. cbn. by rewrite E. Qed.

(** When several events arrive before a render only the newest is looked at. *)
Example missed_award : (onEvents (foldl receiveEvent [] [award "100" "1"; completed]) newLog).(hl_history) =
  [("1", [mkHandResult "7" [] [] "0" 1000 None None (Some "showdown")])].
Proof. vm_compute. reflexivity. Qed.

(** ** Statistics *)

Definition known (addrs : list (Z * string)) (w : Winner) : Z := if mget w.(w_seat) addrs is Some _ then amountOf w else 0.

Lemma countWinner_total addrs ws m : mtotal totalWinnings (foldl (countWinner addrs) m ws) = mtotal totalWinnings m + sumZ (map (known addrs) ws).
Proof.
  revert m. induction ws as [|w ws IH]; intros m; cbn [foldl map]; [unfold sumZ; cbn; lia|]. rewrite IH, sumZ_cons. unfold known at 2, countWinner.
  destruct (mget (w_seat w) addrs) as [addr|]; [|lia]. rewrite mtotal_set. cbn [totalWinnings]. destruct (mget addr m); cbn; lia.
Qed.

(** The leaderboard shares out what the seats that are taken have won, and shows
    the richest first. *)
Lemma leaderboard_totals handHistory seats :
  mtotal totalWinnings (leaderboard handHistory seats) = sumZ (map (known (seatToAddr seats)) (concat (map hr_winners handHistory))) ∧
  Sorted (λ a b, b.2.(totalWinnings) <= a.2.(totalWinnings)) (leaderboard handHistory seats).
Proof.
  unfold leaderboard. set (m := foldl _ _ _). split.
  - transitivity (mtotal totalWinnings m); [unfold mtotal; by rewrite sort_by_perm|]. unfold m. by rewrite countWinner_total.
  - pose proof (sort_by_sorted (λ a b : string * Entry, totalWinnings b.2 <=? totalWinnings a.2) ltac:(intros ? ? ?%Z.leb_gt; apply Z.leb_le; lia) m) as Hs.
    induction Hs as [|x l _ IH Hx]; constructor; [done|]. destruct Hx as [|y l Hy]; constructor. apply Is_true_true in Hy. b2p. lia.
Qed.

End WebHistory.
