(* ===== verification/WebPage.v ===== *)
(** * The page of the web client: [apps/web/src/hooks/useGameState.ts], [lib/utils.ts],
      [lib/coordinatorUrl.ts]

    The forms, each a function from what the page holds to the call of the chain
    client that it makes, if any; the list of the lobby; and the socket to the
    coordinator, a machine that keeps one table subscribed. *)
From stdpp Require Import base option list strings gmap sorting pretty.
From Stdlib Require Import ZArith Lia Ascii.
From S2P Require Import Prelude OcpBytes OcpTranscript Json JsonText JsMap CoordStore CoordConfig CoordWs JsStrings WebTables WebKeys SdkWire SdkCodec SdkSigning SdkClient.
Import Bytes Hashing Json JsonText JsonTextThms JsMap CoordStore CoordConfig CoordWs JsStrings SdkClient.

Module WebPage.

#[local] Open Scope string_scope.
#[local] Open Scope list_scope.
#[local] Open Scope Z_scope.

(** ** coordinatorUrl.ts *)

(** [new URL(s, origin)]: its protocol and its text, or [None] when it throws;
    and the URL with another protocol and path, without query and fragment. *)
Record PageUrls := mkPageUrls { parseUrl : string → option (string * string * string); socketUrl : string → string → string → string }.

Definition normalizeCoordinatorBase (U : PageUrls) (defaultUrl raw : string) : string :=
  let input := trimmed raw in
  if bool_decide (input = EmptyString) then stripSlashes defaultUrl
  else match parseUrl U input with
       | Some (protocol, _, href) => if bool_decide (protocol = "http:") || bool_decide (protocol = "https:") then stripSlashes href else stripSlashes defaultUrl
       | None => stripSlashes defaultUrl
       end.

Definition toWsUrl (U : PageUrls) (httpBase : string) : option string :=
  match parseUrl U httpBase with
  | Some (protocol, pathname, _) => Some (socketUrl U httpBase (if bool_decide (protocol = "https:") then "wss:" else "ws:") (stripSlashes pathname +:+ "/ws"))
  | None => None
  end.

Definition initialCoordinatorBase (U : PageUrls) (defaultUrl : string) (saved : option string) : string :=
  normalizeCoordinatorBase U defaultUrl (orString (default EmptyString saved) defaultUrl).

(** ** Forms *)

Record PlayerSeatForm := mkSeatForm { sf_buyIn : string; sf_password : string }.
Record PlayerActionForm := mkActionForm { af_action : string; af_amount : string }.
Record CreateTableForm := mkCreateForm {
  cf_label : string; cf_smallBlind : string; cf_bigBlind : string; cf_minBuyIn : string; cf_maxBuyIn : string; cf_maxPlayers : string;
  cf_password : string; cf_actionTimeoutSecs : string; cf_dealerTimeoutSecs : string; cf_playerBond : string; cf_rakeBps : string }.

Definition defaultPlayerSeatForm : PlayerSeatForm := mkSeatForm EmptyString EmptyString.
Definition defaultPlayerActionForm : PlayerActionForm := mkActionForm "check" EmptyString.
Definition defaultCreateTableForm : CreateTableForm := mkCreateForm EmptyString "1" "2" "100" "1000" "9" EmptyString "30" "120" "0" "0".

(** Choosing an action that takes no amount clears the amount. *)
Definition onPlayerActionInputChange (field value : string) (prev : PlayerActionForm) : PlayerActionForm :=
  if bool_decide (field = "action") then
    mkActionForm value (if bool_decide (value = "bet") || bool_decide (value = "raise") then prev.(af_amount) else EmptyString)
  else mkActionForm prev.(af_action) (if bool_decide (field = "amount") then value else prev.(af_amount)).

(** What the handlers read: [selectedTableId], [playerWallet], whether there is
    a [playerClientRef.current], and [playerTable.data]. *)
Record Page := mkPage { selectedTableId : string; wallet_connected : bool; wallet_address : string; hasClient : bool; playerTable : option WebTables.PlayerTableState }.

(** A handler stops silently, shows an error, or makes a call. *)
Inductive Submit := Ignored | Refused (message : string) | Called (call : Call).

Definition mySeat (p : Page) (t : WebTables.PlayerTableState) : option WebTables.PlayerSeatState :=
  List.find (λ s, bool_decide (WebTables.player s = p.(wallet_address))) (WebTables.seats t).

Section forms.
Context `{HashOps}.

(** [keys]: what [getPlayerKeysForAddress] returns or throws, outside the
    [try]. *)
Definition submitPlayerSeat (keys : result string bytes) (f : PlayerSeatForm) (p : Page) : Submit :=
  if bool_decide (p.(selectedTableId) = EmptyString) then Ignored
  else if bool_decide (p.(wallet_address) = EmptyString) then Refused "Connect wallet first."
  else
    let buyIn := trimmed f.(sf_buyIn) in
    if negb (isDecimal buyIn) then Refused "Buy-In must be a non-negative integer."
    else if negb p.(hasClient) then Refused "Wallet is not connected. Connect wallet and try again."
    else match keys with
         | Err _ => Ignored
         | Ok pkPlayer =>
             let sit proof := Called (PokerSit None (UStr p.(selectedTableId)) (UStr buyIn) pkPlayer proof) in
             if bool_decide (f.(sf_password) = EmptyString) then sit None
             else match WebKeys.computePasswordProof (t ← p.(playerTable); WebTables.passwordSalt (WebTables.params t)) f.(sf_password) with
                  | Ok proof => sit (Some proof)
                  | Err e => Refused e
                  end
         end.

Definition submitPlayerAction (f : PlayerActionForm) (p : Page) : Submit :=
  match p.(playerTable) with
  | Some table =>
      if bool_decide (p.(selectedTableId) = EmptyString) then Refused "Select a table and wait for player state to load."
      else match WebTables.hand table with
      | None => Refused "No hand is currently active for this table."
      | Some hand =>
          match mySeat p table with
          | None => Refused "You are not seated at this table."
          | Some seat =>
              if negb (WebTables.actionOn hand =? WebTables.seat seat) then Refused "It is not your turn yet."
              else if negb p.(hasClient) then Refused "Wallet is not connected. Connect wallet and try again."
              else
                let act amount := Called (PokerAct None (UStr p.(selectedTableId)) f.(af_action) amount) in
                if bool_decide (f.(af_action) = "bet") || bool_decide (f.(af_action) = "raise") then
                  let amountRaw := trimmed f.(af_amount) in
                  if negb (isDecimal amountRaw) then Refused "Amount is required for bet and raise." else act (Some (UStr amountRaw))
                else act None
          end
      end
  | None => Refused "Select a table and wait for player state to load."
  end.

Definition submitPlayerActionDirect (action : string) (amount : option string) (p : Page) : Submit :=
  match p.(playerTable) with
  | Some table =>
      if bool_decide (p.(selectedTableId) = EmptyString) || bool_decide (WebTables.hand table = None) || negb p.(hasClient) then Ignored
      else Called (PokerAct None (UStr p.(selectedTableId)) action (UStr <$> amount))
  | None => Ignored
  end.

Definition submitPlayerLeave (p : Page) : Submit :=
  if bool_decide (p.(selectedTableId) = EmptyString) then Ignored
  else if negb p.(wallet_connected) || bool_decide (p.(wallet_address) = EmptyString) then Refused "Connect wallet first."
  else if negb p.(hasClient) then Refused "Wallet is not connected."
  else match p.(playerTable) with
       | None => Refused "Table state not loaded."
       | Some table =>
           match mySeat p table with
           | None => Refused "You are not seated at this table."
           | Some seat =>
               if bool_decide (is_Some (WebTables.hand table)) && WebTables.inHand seat then Refused "Cannot leave during an active hand."
               else Called (PokerLeave None (UStr p.(selectedTableId)))
           end
       end.

(** [!/^\d+$/.test(val.trim()) || val.trim() === "0"] *)
Definition badAmount (val : string) : bool := negb (isDecimal (trimmed val)) || bool_decide (trimmed val = "0").
(** [parseInt(s.trim(), 10) || d] *)
Definition intOr (s : string) (d : Z) : Z := match parseInt10 (trimmed s) with Some n => if n =? 0 then d else n | None => d end.

(** [salt]: the random bytes of [generatePasswordCommitment]. *)
Definition submitCreateTable (salt : bytes) (f : CreateTableForm) (p : Page) : Submit :=
  if negb p.(hasClient) then Refused "Connect wallet first."
  else match List.find (λ kv, badAmount kv.2) [("smallBlind", f.(cf_smallBlind)); ("bigBlind", f.(cf_bigBlind)); ("minBuyIn", f.(cf_minBuyIn)); ("maxBuyIn", f.(cf_maxBuyIn))] with
       | Some (field, _) => Refused (field +:+ " must be a positive integer.")
       | None =>
           let '(passwordCommitment, passwordSalt) :=
             if bool_decide (f.(cf_password) = EmptyString) then (None, None)
             else let out := WebKeys.generatePasswordCommitment salt f.(cf_password) in (Some out.2, Some out.1) in
           let secs s := Some (UStr (orString (trimmed s) "0")) in
           Called (PokerCreateTable None (UStr (trimmed f.(cf_smallBlind))) (UStr (trimmed f.(cf_bigBlind))) (UStr (trimmed f.(cf_minBuyIn))) (UStr (trimmed f.(cf_maxBuyIn)))
                     (secs f.(cf_actionTimeoutSecs)) (secs f.(cf_dealerTimeoutSecs)) (secs f.(cf_playerBond)) (Some (Int (intOr f.(cf_rakeBps) 0)))
                     (Some (Int (intOr f.(cf_maxPlayers) 9))) (Some (trimmed f.(cf_label))) passwordCommitment passwordSalt)
       end.

Definition submitRebuy (rebuyAmount : string) (p : Page) : Submit :=
  if bool_decide (p.(selectedTableId) = EmptyString) then Ignored
  else if negb p.(hasClient) then Refused "Connect wallet first."
  else
    let amount := trimmed rebuyAmount in
    if negb (isDecimal amount) || bool_decide (amount = "0") then Refused "Amount must be a positive integer."
    else Called (PokerRebuy None (UStr p.(selectedTableId)) (UStr amount)).
End forms.

(** The body that [submitSeatIntent] posts. *)
Definition seatIntentPayload (tableId seat player buyIn bond pkPlayer : string) : result string json :=
  match parseInt10 seat with
  | Some n =>
      if (0 <=? n) && (n <=? 8) then
        let opt k s := if bool_decide (trimmed s = EmptyString) then [] else [(k, JStr (trimmed s))] in
        Ok (JObj ([("tableId", JStr tableId); ("seat", JNum n); ("player", JStr (trimmed player))] ++ opt "buyIn" buyIn ++ opt "bond" bond ++ opt "pkPlayer" pkPlayer))
      else Err "Seat must be an integer from 0 to 8."
  | None => Err "Seat must be an integer from 0 to 8."
  end.

(** ** Tables *)

(** [playerSeat], [playerActionEnabled] of the table that is selected. *)
Definition playerTableForSelected (p : Page) : option WebTables.PlayerTableState :=
  t ← p.(playerTable); if bool_decide (WebTables.tableId t = p.(selectedTableId)) then Some t else None.
Definition playerSeat (p : Page) : option WebTables.PlayerSeatState := t ← playerTableForSelected p; mySeat p t.
Definition playerActionEnabled (p : Page) : bool :=
  match playerSeat p, t ← playerTableForSelected p; WebTables.hand t with
  | Some s, Some h => WebTables.actionOn h =? WebTables.seat s
  | _, _ => false
  end.

(** The table that stays selected when the list is loaded. *)
Definition keepSelected (nextTables : list TableInfo) (current : string) : string :=
  if negb (bool_decide (current = EmptyString)) && existsb (λ t, bool_decide (t.(t_tableId) = current)) nextTables then current
  else match nextTables with t :: _ => t.(t_tableId) | [] => EmptyString end.

(** The effect on the seats of the selected table. *)
Definition syncSeated (p : Page) (prev : list string) : list string :=
  match playerTableForSelected p with
  | Some t =>
      if bool_decide (p.(selectedTableId) = EmptyString) || negb p.(wallet_connected) then prev
      else
        let isSeated := existsb (λ s, bool_decide (WebTables.player s = p.(wallet_address))) (WebTables.seats t) in
        let listed := existsb (λ id, bool_decide (id = p.(selectedTableId))) prev in
        if isSeated && negb listed then prev ++ [p.(selectedTableId)]
        else if negb isSeated && listed then List.filter (λ id, negb (bool_decide (id = p.(selectedTableId)))) prev
        else prev
  | None => prev
  end.

Inductive StatusFilter := sf_all | sf_open | sf_in_hand.
Inductive PasswordFilter := pf_all | pf_open | pf_protected.
Inductive LobbySort := id_asc | id_desc | blinds_asc | blinds_desc.
Record LobbyFilter := mkLobby { lf_search : string; lf_status : StatusFilter; lf_password : PasswordFilter; lf_sort : LobbySort }.

Definition hasText (s q : string) : bool := SdkSigning.includes (chars q) (chars (lower s)).
Definition protected (t : TableInfo) : bool := match t.(t_params).(passwordHash) with Some h => negb (bool_decide (h = EmptyString)) | None => false end.
Definition shown (f : LobbyFilter) (t : TableInfo) : bool :=
  let q := lower (trimmed f.(lf_search)) in
  (bool_decide (q = EmptyString) || hasText t.(t_tableId) q || hasText (default EmptyString t.(t_label)) q) &&
  (match f.(lf_status), t.(t_status) with sf_all, _ | sf_open, open | sf_in_hand, in_hand => true | _, _ => false end) &&
  (match f.(lf_password) with pf_all => true | pf_open => negb (protected t) | pf_protected => protected t end).

(** What the comparison of [list.sort] subtracts; of decimal texts. *)
Definition sortKey (o : LobbySort) (t : TableInfo) : Z :=
  let n s := default 0 (jsNumber (JStr s)) in
  match o with
  | id_asc => n t.(t_tableId) | id_desc => - n t.(t_tableId)
  | blinds_asc => n t.(t_params).(bigBlind) | blinds_desc => - n t.(t_params).(bigBlind)
  end.
Definition filteredTableList (f : LobbyFilter) (tables : list TableInfo) : list TableInfo :=
  sort_by (λ a b, sortKey f.(lf_sort) a <=? sortKey f.(lf_sort) b) (List.filter (shown f) tables).

(** ** The socket to the coordinator *)

Definition MAX_CHAT_MESSAGES : nat := 50.

(** What the page sends, as [JSON.stringify] writes it. *)
Inductive PageMessage := SubscribeGlobal | SubscribeTable (t : string) | UnsubscribeTable (t : string) | ChatHistory (t : string) | TableChat (t text sender : string).
Definition messageJson (m : PageMessage) : json :=
  match m with
  | SubscribeGlobal => JObj [("type", JStr "subscribe"); ("topic", JStr "global")]
  | SubscribeTable t => JObj [("type", JStr "subscribe"); ("topic", JStr "table"); ("tableId", JStr t)]
  | UnsubscribeTable t => JObj [("type", JStr "unsubscribe"); ("topic", JStr "table"); ("tableId", JStr t)]
  | ChatHistory t => JObj [("type", JStr "chat_history"); ("tableId", JStr t)]
  | TableChat t text sender => JObj [("type", JStr "table_chat"); ("tableId", JStr t); ("text", JStr text); ("sender", JStr sender)]
  end.

(** [wsRef] ([None], or whether the socket is open), [selectedTableRef],
    [subscribedTableRef], what was sent on this socket, [chatMessages], and
    whether the reconnect timer runs. *)
Record Socket := mkSocket { so_open : option bool; so_selected : string; so_subscribed : option string; so_sent : list PageMessage; so_chat : list ChatMessage; so_timer : bool }.

(** [connect()] with a URL that [WebSocket] accepts. *)
Definition connect (s : Socket) : Socket := mkSocket (Some false) s.(so_selected) s.(so_subscribed) [] s.(so_chat) s.(so_timer).
Definition startSocket (selected : string) : Socket := connect (mkSocket None selected None [] [] false).

Definition onOpen (s : Socket) : Socket :=
  match s.(so_open) with
  | Some false =>
      let current := s.(so_selected) in
      if bool_decide (current = EmptyString) then mkSocket (Some true) current None (s.(so_sent) ++ [SubscribeGlobal]) s.(so_chat) s.(so_timer)
      else mkSocket (Some true) current (Some current) (s.(so_sent) ++ [SubscribeGlobal; SubscribeTable current]) s.(so_chat) s.(so_timer)
  | _ => s
  end.

(** [setSelectedTableId] and the effects that it runs. *)
Definition selectTable (t : string) (s : Socket) : Socket :=
  if bool_decide (t = s.(so_selected)) then s
  else match s.(so_open) with
       | Some true =>
           let previous := s.(so_subscribed) in
           let '(sent, subscribed) :=
             match previous with
             | Some p => if bool_decide (p = t) then (s.(so_sent), previous) else (s.(so_sent) ++ [UnsubscribeTable p], None)
             | None => (s.(so_sent), None)
             end in
           if bool_decide (t = EmptyString) || bool_decide (previous = Some t) then mkSocket (Some true) t subscribed sent s.(so_chat) s.(so_timer)
           else mkSocket (Some true) t (Some t) (sent ++ [SubscribeTable t; ChatHistory t]) [] s.(so_timer)
       | _ => mkSocket s.(so_open) t s.(so_subscribed) s.(so_sent) s.(so_chat) s.(so_timer)
       end.

Definition onClose (s : Socket) : Socket :=
  match s.(so_open) with
  | Some _ => mkSocket None s.(so_selected) s.(so_subscribed) [] s.(so_chat) true
  | None => s
  end.
Definition onReconnectTimer (s : Socket) : Socket :=
  if s.(so_timer) then connect (mkSocket s.(so_open) s.(so_selected) s.(so_subscribed) s.(so_sent) s.(so_chat) false) else s.

Definition sendChat (chatInput sender : string) (s : Socket) : Socket :=
  let text := trimmed chatInput in
  if bool_decide (text = EmptyString) || bool_decide (s.(so_selected) = EmptyString) || negb (bool_decide (s.(so_open) = Some true)) then s
  else mkSocket s.(so_open) s.(so_selected) s.(so_subscribed) (s.(so_sent) ++ [TableChat s.(so_selected) text sender]) s.(so_chat) s.(so_timer).

(** [now] is [Date.now()]. *)
Definition chatOf (now : Z) (m : json) : ChatMessage :=
  let str k := toStr (orElse (field m k) (JStr EmptyString)) in
  mkChat (str "sender") (str "text") (default 0 (jsNumber (orElse (field m "timeMs") (JNum now)))).
Definition set_chat v s := mkSocket s.(so_open) s.(so_selected) s.(so_subscribed) s.(so_sent) v s.(so_timer).
(** The messages that the chat is made of. *)
Definition onChatMessage (now : Z) (msg : json) (s : Socket) : Socket :=
  if isStr (field msg "type") "table_chat" then
    let l := s.(so_chat) ++ [chatOf now msg] in set_chat (drop (length l - MAX_CHAT_MESSAGES) l) s
  else if isStr (field msg "type") "chat_history" then set_chat (map (chatOf 0) (elems (field msg "messages"))) s
  else s.

Inductive PageStep := Opened | Closed | TimerFired | Selected (t : string) | ChatSent (text sender : string) | ChatHeard (now : Z) (msg : json).
Definition pageStep (s : Socket) (st : PageStep) : Socket :=
  match st with
  | Opened => onOpen s | Closed => onClose s | TimerFired => onReconnectTimer s | Selected t => selectTable t s
  | ChatSent text sender => sendChat text sender s | ChatHeard now msg => onChatMessage now msg s
  end.

(** ** What the forms ask of the chain *)

Lemma decimal_solid s : isDecimal s = true → trimmed s = s.
Proof.
  unfold isDecimal. intros [_ Hd]%andb_true_iff. unfold trimmed. rewrite trim_solid; [apply String.string_of_list_ascii_of_string|].
  apply digits_solid, Forall_forall. intros c Hc. rewrite forallb_forall in Hd. by apply Hd, list_elem_of_In.
Qed.

Lemma decimal_uint s label : isDecimal s = true → toU64String (UStr s) label = Ok s.
Proof.
  intros Hd. cbn [toU64String]. rewrite (decimal_solid s Hd), Hd. case_bool_decide as E; [by rewrite E in Hd|done].
Qed.

Lemma good_amount s label : badAmount s = false → toU64String (UStr (trimmed s)) label = Ok (trimmed s).
Proof. unfold badAmount. intros [Hd _]%orb_false_iff. apply negb_false_iff in Hd. by apply decimal_uint. Qed.

(** The message of a call: its name in [OCP_TYPE_URLS.poker], and its fields. *)
Definition asks (self : string) (s : Submit) (name : string) (fields : SdkCodec.object) : Prop :=
  match s with Called call => request self call = Ok (mkEncodeObject (urlOf pokerUrls name) fields) | _ => True end.
Definition calls (s : Submit) : bool := if s is Called _ then true else false.

(** The proof that the sit form sends for the password that was typed. *)
Definition sitProof `{HashOps} (f : PlayerSeatForm) (p : Page) : result string bytes :=
  if bool_decide (f.(sf_password) = EmptyString) then Ok []
  else WebKeys.computePasswordProof (t ← p.(playerTable); WebTables.passwordSalt (WebTables.params t)) f.(sf_password).

(** [const needsAmount] of [submitPlayerAction]. *)
Definition needsAmount (f : PlayerActionForm) : bool := bool_decide (f.(af_action) = "bet") || bool_decide (f.(af_action) = "raise").

Section asked.
Context `{HashOps}.

Lemma leave_asks self p : isDecimal p.(selectedTableId) = true →
  asks self (submitPlayerLeave p) "leave" [("player", SdkWire.VStr (trimmed self)); ("tableId", SdkWire.VStr p.(selectedTableId))].
Proof. intros Hd. unfold submitPlayerLeave. repeat (case_goal; try done). unfold asks, request, pokerLeave. by rewrite decimal_uint. Qed.

Lemma rebuy_asks self amount p : isDecimal p.(selectedTableId) = true →
  asks self (submitRebuy amount p) "rebuy" [("player", SdkWire.VStr (trimmed self)); ("tableId", SdkWire.VStr p.(selectedTableId)); ("amount", SdkWire.VStr (trimmed amount))].
Proof.
  intros Hd. unfold submitRebuy. cbv zeta. destruct (bool_decide _); [done|]. destruct (negb _); [done|]. destruct (_ || _) eqn:E; [done|].
  unfold asks, request, pokerRebuy. rewrite decimal_uint by done. apply (good_amount amount "amount") in E. by rewrite E.
Qed.

Lemma sit_asks self pk proof f p : isDecimal p.(selectedTableId) = true → sitProof f p = Ok proof →
  asks self (submitPlayerSeat (Ok pk) f p) "sit"
    [("player", SdkWire.VStr (trimmed self)); ("tableId", SdkWire.VStr p.(selectedTableId)); ("buyIn", SdkWire.VStr (trimmed f.(sf_buyIn)));
     ("pkPlayer", SdkWire.VBytes pk); ("passwordProof", SdkWire.VBytes proof)].
Proof.
  intros Hd Hp. unfold submitPlayerSeat. unfold sitProof in Hp. cbv zeta. do 2 (destruct (bool_decide (_ p = EmptyString)); [done|]).
  destruct (isDecimal (trimmed _)) eqn:Eb; [cbn [negb]|done]. destruct (negb _); [done|]. case_bool_decide as Ep.
  - injection Hp as <-. unfold asks, request, pokerSit. by rewrite !decimal_uint.
  - rewrite Hp. unfold asks, request, pokerSit. by rewrite !decimal_uint.
Qed.

Lemma act_asks self f p : isDecimal p.(selectedTableId) = true →
  asks self (submitPlayerAction f p) "act"
    [("player", SdkWire.VStr (trimmed self)); ("tableId", SdkWire.VStr p.(selectedTableId)); ("action", SdkWire.VStr f.(af_action));
     ("amount", SdkWire.VStr (if needsAmount f then trimmed f.(af_amount) else "0"))].
Proof.
  intros Hd. unfold submitPlayerAction. fold (needsAmount f). destruct (playerTable p) as [t|]; [|done]. destruct (bool_decide _); [done|].
  destruct (WebTables.hand t) as [h|]; [|done]. destruct (mySeat p t) as [seat|]; [|done].
  destruct (negb _); [done|]. destruct (negb _); [done|]. cbv zeta.
  destruct (needsAmount f); [destruct (isDecimal (trimmed _)) eqn:Eb; [cbn [negb]|done]|]; unfold asks, request, pokerAct, u64; by rewrite !decimal_uint.
Qed.

(** What the form does not check of a new table are the optional fields. *)
Definition secsOf (s : string) : string := orString (trimmed s) "0".

Lemma create_asks self salt f p : (0 < length salt)%nat → (∀ m, length (sha256 m) = 32%nat) →
  Forall (λ s, isDecimal (secsOf s) = true) [f.(cf_actionTimeoutSecs); f.(cf_dealerTimeoutSecs); f.(cf_playerBond)] →
  let protected := negb (bool_decide (f.(cf_password) = EmptyString)) in
  asks self (submitCreateTable salt f p) "createTable"
    [("creator", SdkWire.VStr (trimmed self)); ("smallBlind", SdkWire.VStr (trimmed f.(cf_smallBlind))); ("bigBlind", SdkWire.VStr (trimmed f.(cf_bigBlind)));
     ("minBuyIn", SdkWire.VStr (trimmed f.(cf_minBuyIn))); ("maxBuyIn", SdkWire.VStr (trimmed f.(cf_maxBuyIn)));
     ("actionTimeoutSecs", SdkWire.VStr (secsOf f.(cf_actionTimeoutSecs))); ("dealerTimeoutSecs", SdkWire.VStr (secsOf f.(cf_dealerTimeoutSecs)));
     ("playerBond", SdkWire.VStr (secsOf f.(cf_playerBond))); ("rakeBps", SdkWire.VNum (intOr f.(cf_rakeBps) 0)); ("maxPlayers", SdkWire.VNum (intOr f.(cf_maxPlayers) 9));
     ("label", SdkWire.VStr (trimmed f.(cf_label)));
     ("passwordCommitment", SdkWire.VBytes (if protected then sha256 (salt ++ utf8 f.(cf_password)) else []));
     ("passwordSalt", SdkWire.VBytes (if protected then salt else []))].
Proof.
  intros Hs Hh Hsecs protected. unfold submitCreateTable. destruct (hasClient p); cbn [negb]; [|done]. cbn [List.find snd].
  destruct (badAmount (cf_smallBlind f)) eqn:E1; [done|]. destruct (badAmount (cf_bigBlind f)) eqn:E2; [done|].
  destruct (badAmount (cf_minBuyIn f)) eqn:E3; [done|]. destruct (badAmount (cf_maxBuyIn f)) eqn:E4; [done|].
  apply Forall_cons in Hsecs as [H1 [H2 [H3 _]%Forall_cons]%Forall_cons]. fold (secsOf (cf_actionTimeoutSecs f)) (secsOf (cf_dealerTimeoutSecs f)) (secsOf (cf_playerBond f)).
  unfold protected. case_bool_decide; unfold asks, request, pokerCreateTable; cbn [WebKeys.generatePasswordCommitment fst snd].
  - cbn [throw_if negb Bool.eqb rbind]. rewrite !good_amount by done. unfold u64. by rewrite !decimal_uint.
  - rewrite Hh. rewrite (proj2 (Nat.ltb_lt _ _) Hs). cbn [throw_if negb Bool.eqb rbind Nat.ltb Nat.leb]. rewrite !good_amount by done. unfold u64. by rewrite !decimal_uint.
Qed.
End asked.

(** What the sit, action and leave forms have checked when they make a call. *)
Definition sit_checked (f : PlayerSeatForm) (p : Page) : Prop :=
  p.(wallet_address) ≠ EmptyString ∧ isDecimal (trimmed f.(sf_buyIn)) = true ∧ p.(hasClient) = true.
Definition act_checked (f : PlayerActionForm) (p : Page) : Prop :=
  (∃ t h seat, p.(playerTable) = Some t ∧ WebTables.hand t = Some h ∧ mySeat p t = Some seat ∧ WebTables.actionOn h = WebTables.seat seat) ∧
  p.(hasClient) = true ∧ (needsAmount f = true → isDecimal (trimmed f.(af_amount)) = true).
Definition leave_checked (p : Page) : Prop :=
  p.(wallet_connected) = true ∧ p.(wallet_address) ≠ EmptyString ∧ p.(hasClient) = true ∧
  ∃ t seat, p.(playerTable) = Some t ∧ mySeat p t = Some seat ∧ (WebTables.inHand seat = true → WebTables.hand t = None).

Section checked.
Context `{HashOps} (p : Page).
Hypothesis selected : isDecimal p.(selectedTableId) = true.

Lemma selected_named : bool_decide (selectedTableId p = EmptyString) = false.
Proof. apply bool_decide_false. intros E. by rewrite E in selected. Qed.

Lemma sit_calls keys f :
  (calls (submitPlayerSeat keys f p) = true ↔ sit_checked f p ∧ is_ok keys = true ∧ is_ok (sitProof f p) = true) ∧
  (submitPlayerSeat keys f p = Ignored ↔ sit_checked f p ∧ is_ok keys = false).
Proof.
  unfold submitPlayerSeat, sitProof, sit_checked. cbv zeta. rewrite selected_named.
  case_bool_decide; [split; (split; [done|tauto])|].
  destruct (isDecimal (trimmed _)); cbn [negb]; [|split; (split; [done|by intros ((_ & ? & _) & _)])].
  destruct (hasClient p); cbn [negb]; [|split; (split; [done|by intros ((_ & _ & ?) & _)])].
  destruct keys as [pk|e]; cbn [is_ok]; [|by split; [split; [done|by intros (_ & ? & _)]|]].
  case_bool_decide; [by split; (split; [|intros (_ & ?)])|].
  destruct (WebKeys.computePasswordProof _ _); cbn [is_ok calls]; split; (split; [done|]); try (by intros (_ & ?)); by intros (_ & _ & ?).
Qed.

Lemma act_calls f : (calls (submitPlayerAction f p) = true ↔ act_checked f p) ∧ submitPlayerAction f p ≠ Ignored.
Proof.
  unfold submitPlayerAction, act_checked. rewrite selected_named. fold (needsAmount f).
  destruct (playerTable p) as [t|]; [|split; [split; [done|]|done]; by intros ((? & ? & ? & ? & _) & _)].
  destruct (WebTables.hand t) as [h|] eqn:Eh; [|split; [split; [done|]|done]; intros ((? & ? & ? & [= <-] & ? & _) & _); congruence].
  destruct (mySeat p t) as [seat|] eqn:Es; [|split; [split; [done|]|done]; intros ((? & ? & ? & [= <-] & _ & ? & _) & _); congruence].
  destruct (WebTables.actionOn h =? WebTables.seat seat) eqn:Ea; cbn [negb].
  2:{ split; [split; [done|]|done]. apply Z.eqb_neq in Ea. intros ((? & ? & ? & [= <-] & ? & ? & ?) & _). congruence. }
  assert (Hturn : ∃ t' h' seat', Some t = Some t' ∧ WebTables.hand t' = Some h' ∧ mySeat p t' = Some seat' ∧ WebTables.actionOn h' = WebTables.seat seat').
  { exists t, h, seat. split_and!; [done..|by apply Z.eqb_eq]. }
  destruct (hasClient p); cbn [negb]; [|split; [split; [done|]|done]; by intros (_ & ? & _)].
  destruct (needsAmount f); [|by split]. destruct (isDecimal (trimmed _)); cbn [negb]; [by split|].
  split; [split; [done|]|done]. intros (_ & _ & Ha). by specialize (Ha eq_refl).
Qed.

Lemma leave_calls : (calls (submitPlayerLeave p) = true ↔ leave_checked p) ∧ submitPlayerLeave p ≠ Ignored.
Proof.
  unfold submitPlayerLeave, leave_checked. rewrite selected_named.
  destruct (wallet_connected p); cbn [negb orb]; [|split; [split; [done|]|done]; by intros (? & _)].
  case_bool_decide; [split; [split; [done|tauto]|done]|].
  destruct (hasClient p); cbn [negb]; [|split; [split; [done|]|done]; by intros (_ & _ & ? & _)].
  destruct (playerTable p) as [t|]; [|split; [split; [done|]|done]; by intros (_ & _ & _ & ? & ? & ? & _)].
  destruct (mySeat p t) as [seat|] eqn:Es; [|split; [split; [done|]|done]; intros (_ & _ & _ & ? & ? & [= <-] & ? & _); congruence].
  case_bool_decide as Eh; cbn [andb].
  - destruct (WebTables.inHand seat) eqn:Ei; split; try done; split; try done.
    + intros (_ & _ & _ & ? & ? & [= <-] & Hs & Hn). rewrite Es in Hs. injection Hs as <-. rewrite (Hn Ei) in Eh. by destruct Eh.
    + intros _. split_and!; try done. exists t, seat. by split_and!; rewrite ?Ei.
  - split; [split; [|done]|done]. intros _. split_and!; try done. exists t, seat. split_and!; try done. intros _. by apply eq_None_not_Some.
Qed.

Lemma rebuy_calls amount :
  (calls (submitRebuy amount p) = true ↔ p.(hasClient) = true ∧ badAmount amount = false) ∧ submitRebuy amount p ≠ Ignored.
Proof.
  unfold submitRebuy. cbv zeta. rewrite selected_named. fold (badAmount amount).
  destruct (hasClient p); cbn [negb]; [|split; [split; [done|by intros [? _]]|done]].
  destruct (badAmount amount); split; try done. split; [done|by intros [_ ?]].
Qed.
End checked.

(** C13. What the sit, action, leave and rebuy forms of a selected table ask of
    the chain: exactly when each makes its call, and that the call is then the
    request with what was typed, digits without blanks, which the client never
    refuses.  The sit form calls when a wallet and a client are there, the
    buy-in is decimal, the player's keys are readable and the proof of the
    password, if one was typed, can be computed; when all is typed well and
    only the keys cannot be read it silently does nothing, the one case in
    which a form neither calls nor shows an error.  The action form calls when
    a client is there and the table says that it is the turn of the player's
    seat, with a decimal amount for a bet or a raise (and the amount 0 for the
    other actions); the leave form unless the player is in a hand; the rebuy
    form for a positive amount. *)
Theorem forms_ask `{HashOps} self p : isDecimal p.(selectedTableId) = true →
  let player := ("player", SdkWire.VStr (trimmed self)) in
  let tableId := ("tableId", SdkWire.VStr p.(selectedTableId)) in
  (∀ keys f,
     (calls (submitPlayerSeat keys f p) = true ↔ sit_checked f p ∧ is_ok keys = true ∧ is_ok (sitProof f p) = true) ∧
     (submitPlayerSeat keys f p = Ignored ↔ sit_checked f p ∧ is_ok keys = false) ∧
     (∀ pk proof, keys = Ok pk → sitProof f p = Ok proof →
        asks self (submitPlayerSeat keys f p) "sit"
          [player; tableId; ("buyIn", SdkWire.VStr (trimmed f.(sf_buyIn))); ("pkPlayer", SdkWire.VBytes pk); ("passwordProof", SdkWire.VBytes proof)])) ∧
  (∀ f,
     (calls (submitPlayerAction f p) = true ↔ act_checked f p) ∧ submitPlayerAction f p ≠ Ignored ∧
     asks self (submitPlayerAction f p) "act"
       [player; tableId; ("action", SdkWire.VStr f.(af_action)); ("amount", SdkWire.VStr (if needsAmount f then trimmed f.(af_amount) else "0"))]) ∧
  (calls (submitPlayerLeave p) = true ↔ leave_checked p) ∧ submitPlayerLeave p ≠ Ignored ∧
  asks self (submitPlayerLeave p) "leave" [player; tableId] ∧
  (∀ amount,
     (calls (submitRebuy amount p) = true ↔ p.(hasClient) = true ∧ badAmount amount = false) ∧ submitRebuy amount p ≠ Ignored ∧
     asks self (submitRebuy amount p) "rebuy" [player; tableId; ("amount", SdkWire.VStr (trimmed amount))]).
Proof.
  intros Hd player tableId. destruct (leave_calls p Hd) as [Hl1 Hl2]. split_and!; [| |done|done|by apply leave_asks|].
  - intros keys f. destruct (sit_calls p Hd keys f) as [Hc Hi]. split_and!; [done..|].
    intros pk proof -> Hp. by apply sit_asks.
  - intros f. destruct (act_calls p Hd f) as [Hc Hi]. split_and!; [done..|by apply act_asks].
  - intros amount. destruct (rebuy_calls p Hd amount) as [Hc Hi]. split_and!; [done..|by apply rebuy_asks].
Qed.

Definition somePage : Page :=
  mkPage "1" true "ocp1me" true (Some (WebTables.mkTable "1" (WebTables.mkParams 9 "1" "2" "100" "1000" None None) [WebTables.mkSeat 3 "ocp1me" "100" "0" true false false]
    (Some (WebTables.mkHand "7" "betting" 3 0 1 2 0 "6" [] "flop")))).

Definition plainHash : HashOps := Build_HashOps (λ m, m) (λ m, m).

Lemma forms_ask_witness :
  calls (@submitPlayerSeat plainHash (Err "locked") (mkSeatForm " 500 " EmptyString) somePage) = false ∧
  calls (submitPlayerAction (mkActionForm "raise" " 60 ") somePage) = true ∧
  request "ocp1me" (PokerSit None (UStr "1") (UStr "500") [1] None) = Ok (mkEncodeObject (urlOf pokerUrls "sit")
    [("player", SdkWire.VStr "ocp1me"); ("tableId", SdkWire.VStr "1"); ("buyIn", SdkWire.VStr "500"); ("pkPlayer", SdkWire.VBytes [1]); ("passwordProof", SdkWire.VBytes [])]).
Proof.
  destruct (@forms_ask plainHash "ocp1me" somePage eq_refl) as (Hsit & Hact & _). split_and!.
  - apply not_true_is_false. intros Hc. apply (Hsit (Err "locked") (mkSeatForm " 500 " EmptyString)) in Hc as (_ & Hk & _). discriminate Hk.
  - apply Hact. split; [|by split]. do 3 eexists. split_and!; [reflexivity|reflexivity|vm_compute; reflexivity|reflexivity].
  - exact (proj2 (proj2 (Hsit (Ok [1]) (mkSeatForm " 500 " EmptyString))) [1] [] eq_refl eq_refl).
Defined.

(** ** The lobby *)

(** The lobby shows exactly the tables that pass the filter, in the order that
    was asked for. *)
Lemma lobby_list f tables : filteredTableList f tables ≡ₚ List.filter (shown f) tables ∧
  Sorted (λ a b, sortKey f.(lf_sort) a <= sortKey f.(lf_sort) b) (filteredTableList f tables).
Proof.
  unfold filteredTableList. split; [apply sort_by_perm|].
  pose proof (sort_by_sorted (λ a b, sortKey (lf_sort f) a <=? sortKey (lf_sort f) b) ltac:(intros ? ? ?%Z.leb_gt; apply Z.leb_le; lia) (List.filter (shown f) tables)) as Hs.
  induction Hs as [|x l _ IH Hx]; constructor; [done|]. destruct Hx as [|y l Hy]; constructor. apply Is_true_true in Hy. by apply Z.leb_le.
Qed.

(** ** What the page is subscribed to *)

(** What a message does to the topics of the connection. *)
Definition topicsAfter (subs : gset string) (m : PageMessage) : gset string :=
  match m with
  | SubscribeGlobal => {[globalTopic]} ∪ subs
  | SubscribeTable t => if validTableId t then {[tableTopic t]} ∪ subs else subs
  | UnsubscribeTable t => if validTableId t then subs ∖ {[tableTopic t]} else subs
  | ChatHistory _ | TableChat _ _ _ => subs
  end.

Section hub.
Context (locale_le : string → string → bool) (delivers : nat → json → bool).

(** The hub reads the messages of a connection. *)
Definition feed (id : nat) (h : Hub) (msgs : list (Z * PageMessage)) : Hub :=
  foldl (λ h m, (CoordWs.onMessage locale_le delivers h id (stringify false (messageJson m.2)) m.1).1) h msgs.

(** The members of a message are computed. *)
Ltac read_message :=
  repeat (match goal with
  | |- context [isStr ?j ?k] => let v := eval vm_compute in (isStr j k) in change (isStr j k) with v
  | |- context [field (messageJson ?m) ?k] => let v := eval vm_compute in (field (messageJson m) k) in change (field (messageJson m) k) with v
  end; cbv iota).

Lemma hub_topics id h c now m : mget id h.(clients) = Some c →
  ∃ c', mget id (CoordWs.onMessage locale_le delivers h id (stringify false (messageJson m)) now).1.(clients) = Some c' ∧ subs c' = topicsAfter (subs c) m.
Proof.
  intros Hc. unfold CoordWs.onMessage. rewrite Hc. unfold safeJsonParse. rewrite parse_stringify by (by destruct m). cbn [from_option Datatypes.id]. cbv zeta.
  assert (Hset : ∀ c' : ClientState, mget id (clients (set_clients (mset id c' (clients h)) h)) = Some c') by (intros c'; cbn; by rewrite mget_set, decide_True).
  destruct m as [|t|t|t|t txt who]; read_message; unfold changeSubs; read_message; cbn [topicsAfter].
  - eexists. split; [apply Hset|done].
  - destruct (validTableId t); [eexists; split; [apply Hset|done]|by exists c].
  - destruct (validTableId t); [eexists; split; [apply Hset|done]|by exists c].
  - by exists c.
  - unfold tableChat. cbv zeta. destruct (chatChecks _ _ _ _ _); [by exists c|]. eexists. split; [apply Hset|done].
Qed.

Lemma feed_topics id msgs h c : mget id h.(clients) = Some c →
  ∃ c', mget id (feed id h msgs).(clients) = Some c' ∧ subs c' = foldl topicsAfter (subs c) (map snd msgs).
Proof.
  revert h c. induction msgs as [|[now m] msgs IH]; intros h c Hc; cbn [feed foldl map snd]; [by exists c|].
  destruct (hub_topics id h c now m Hc) as (c1 & Hc1 & E). rewrite <- E. by apply IH.
Qed.
End hub.

(** The topics of a page that shows this table. *)
Definition wanted (t : string) : gset string := {[globalTopic]} ∪ (if bool_decide (t = EmptyString) then ∅ else {[tableTopic t]}).
Definition named (t : string) : Prop := t = EmptyString ∨ validTableId t = true.

Definition inTune (s : Socket) : Prop :=
  named s.(so_selected) ∧
  match s.(so_open) with
  | Some true => s.(so_subscribed) = nonEmpty s.(so_selected) ∧ foldl topicsAfter ∅ s.(so_sent) = wanted s.(so_selected)
  | _ => s.(so_sent) = []
  end.

Lemma tableTopic_inj t t' : tableTopic t = tableTopic t' → t = t'.
Proof. unfold tableTopic. intros E. by injection E. Qed.
Lemma tableTopic_global t : tableTopic t ≠ globalTopic.
Proof. done. Qed.

Lemma wanted_sub t : named t → t ≠ EmptyString → topicsAfter (wanted EmptyString) (SubscribeTable t) = wanted t.
Proof. intros [|Hv] Ht; [done|]. unfold wanted. cbn [topicsAfter]. rewrite Hv, bool_decide_true, bool_decide_false by done. set_solver. Qed.
Lemma wanted_unsub t : named t → t ≠ EmptyString → topicsAfter (wanted t) (UnsubscribeTable t) = wanted EmptyString.
Proof.
  intros [|Hv] Ht; [done|]. unfold wanted. cbn [topicsAfter]. rewrite Hv, (bool_decide_false (t = _)), (bool_decide_true (EmptyString = _)) by done. pose proof (tableTopic_global t). set_solver.
Qed.

Lemma inTune_select t s : named t → inTune s → inTune (selectTable t s).
Proof.
  intros Hn [Hs Hi]. unfold selectTable. case_bool_decide as Et; [done|]. destruct (so_open s) as [[]|] eqn:Eo; [|by split..].
  destruct Hi as [Hsub Hi]. rewrite Hsub. unfold nonEmpty. destruct (decide (so_selected s = EmptyString)) as [E|E].
  - rewrite (bool_decide_true (so_selected s = _)) by done. rewrite (bool_decide_false (None = Some t)), (bool_decide_false (t = _)) by congruence.
    cbn [orb]. split; [done|]. cbn [so_open so_subscribed so_sent so_selected]. split; [unfold nonEmpty; by rewrite bool_decide_false by congruence|].
    rewrite foldl_app, Hi, E. cbn [foldl]. by rewrite wanted_sub by congruence.
  - rewrite (bool_decide_false (so_selected s = EmptyString)), (bool_decide_false (so_selected s = t)), (bool_decide_false (Some _ = Some t)), orb_false_r by congruence.
    destruct (decide (t = EmptyString)) as [Ee|Ee]; [rewrite (bool_decide_true (t = _)) by done|rewrite (bool_decide_false (t = _)) by done]; (split; [done|]);
      cbn [so_open so_subscribed so_sent so_selected].
    + split; [unfold nonEmpty; by rewrite bool_decide_true|]. rewrite foldl_app, Hi, Ee. by apply wanted_unsub.
    + split; [unfold nonEmpty; by rewrite bool_decide_false|]. rewrite !foldl_app, Hi. cbn [foldl]. by rewrite wanted_unsub, wanted_sub.
Qed.

Lemma wanted_global : topicsAfter ∅ SubscribeGlobal = wanted EmptyString.
Proof. unfold wanted. rewrite bool_decide_true by done. cbn [topicsAfter]. set_solver. Qed.

Lemma inTune_step s st : match st with Selected t => named t | _ => True end → inTune s → inTune (pageStep s st).
Proof.
  intros Hn Hs. destruct st as [| | |t|txt who|now msg]; cbn [pageStep].
  - unfold onOpen. destruct Hs as [Hs Hi]. destruct (so_open s) as [[]|] eqn:Eo; [by split; [|rewrite Eo]| |by split; [|rewrite Eo]]. rewrite Hi.
    case_bool_decide as E; (split; [done|]); cbn [so_open so_subscribed so_sent so_selected app foldl]; unfold nonEmpty; rewrite wanted_global.
    + by rewrite bool_decide_true, E.
    + rewrite bool_decide_false by done. split; [done|]. by apply wanted_sub.
  - unfold onClose. destruct Hs as [Hs Hi]. destruct (so_open s) eqn:Eo; split; try done. by rewrite Eo.
  - unfold onReconnectTimer. destruct (so_timer s); [|done]. destruct Hs as [Hs _]. by split.
  - by apply inTune_select.
  - unfold sendChat. cbv zeta. destruct (_ || _) eqn:E; [done|]. apply orb_false_iff in E as [_ E]. apply negb_false_iff, bool_decide_eq_true in E.
    destruct Hs as [Hs Hi]. rewrite E in Hi. destruct Hi as [H1 H2]. split; [done|]. cbn [so_open so_subscribed so_sent so_selected]. rewrite E. split; [done|]. by rewrite foldl_app, H2.
  - unfold onChatMessage. cbv zeta. destruct (isStr _ _); [done|]. by destruct (isStr _ _).
Qed.

(** C22. Whatever the player selects and however often the socket is lost, while
    it is open the coordinator has the page subscribed to the events of all
    tables and to the table that is shown, and to no other table. *)
Theorem page_subscribes locale_le delivers steps selected id h c times : named selected → Forall (λ st, match st with Selected t => named t | _ => True end) steps →
  let s := foldl pageStep (startSocket selected) steps in
  so_open s = Some true → mget id h.(clients) = Some c → subs c = ∅ → length times = length (so_sent s) →
  so_subscribed s = nonEmpty (so_selected s) ∧
  ∃ c', mget id (feed locale_le delivers id h (zip times (so_sent s))).(clients) = Some c' ∧
    subs c' = {[globalTopic]} ∪ (if bool_decide (so_selected s = EmptyString) then ∅ else {[tableTopic (so_selected s)]}).
Proof.
  intros Hn Hst s Ho Hc He Hl. assert (Hs : inTune s).
  { unfold s. clear -Hn Hst. assert (Hs : inTune (startSocket selected)) by by split. revert Hs. generalize (startSocket selected).
    induction Hst as [|st steps H _ IH]; intros s Hs; [done|]. by apply IH, inTune_step. }
  destruct Hs as [_ Hs]. rewrite Ho in Hs. destruct Hs as [H1 H2]. split; [done|].
  destruct (feed_topics locale_le delivers id (zip times (so_sent s)) h c Hc) as (c' & Hc' & Ec). exists c'. split; [done|].
  rewrite Ec, He. change (map snd) with (fmap (M := list) (@snd Z PageMessage)). rewrite snd_zip by lia. exact H2.
Qed.

Definition someSteps : list PageStep := [Opened; Selected "7"; ChatSent "hi" "anon"; Closed; TimerFired; Selected "2"; Opened; Selected "3"].
Definition someClient : ClientState := mkClient ∅ None "anon-1" "10.0.0.1" true.

Lemma page_subscribes_witness :
  let h := mkHub [(4%nat, someClient)] [] newStore in
  let s := foldl pageStep (startSocket "1") someSteps in
  so_selected s = "3" ∧ ∃ c', mget 4%nat (feed String.leb (λ _ _, true) 4 h (zip [1; 2; 3; 4; 5] (so_sent s))).(clients) = Some c' ∧
    subs c' = {[globalTopic]} ∪ (if bool_decide (so_selected s = EmptyString) then ∅ else {[tableTopic (so_selected s)]}).
Proof.
  split; [vm_compute; reflexivity|].
  refine (proj2 (page_subscribes String.leb (λ _ _, true) someSteps "1" 4 (mkHub [(4%nat, someClient)] [] newStore) someClient [1; 2; 3; 4; 5] _ _ _ _ _ _)).
  - right. reflexivity.
  - unfold someSteps. repeat first [apply Forall_nil_2|apply Forall_cons_2]; first [exact I|right; reflexivity].
  - reflexivity.
  - reflexivity.
  - reflexivity.
  - reflexivity.
Defined.

(** The history of the chat is not asked for when the socket opens, after the
    page is loaded with a table or the connection was lost. *)
Example no_history : so_sent (foldl pageStep (startSocket "1") [Opened]) = [SubscribeGlobal; SubscribeTable "1"] ∧
  so_sent (foldl pageStep (startSocket "1") [Opened; Selected "2"; Closed; TimerFired; Opened]) = [SubscribeGlobal; SubscribeTable "2"].
Proof. by split. Qed.

End WebPage.
